(* ===== verification/_CoqProject ===== *)
-Q . S2P
Prelude.v
StateM.v
PyDict.v
OsPath.v
PyFloat.v
FnMatch.v
ElementTree.v
RadSeq.v
RadInt.v
RadMath.v
TopSort.v
BindScan.v
BindSections.v
CheckStyle.v
Timeline.v
GridSelect.v
GridDraw.v
Shlex.v
ShellCmd.v
WafCommand.v
CompileDb.v
Regex.v
Versioning.v
Wutils.v
ModuleTemplates.v
CreateModule.v
CFlags.v
Boost.v
Misc.v
Relocation.v
PortTests.v
StackTrace.v
VizThread.v
VizScene.v
VizView.v
VizWifi.v
VizCanvas.v
VizStats.v
VizConsole.v
VizWindows.v
ConfigFile.v
TestJobs.v
TestCollect.v
TestRun.v
TestReport.v
RunnerScript.v
FlowMon.v
