(* ===== verification/Prelude.v ===== *)
(** * Verification of the Python tools of ns-3

    The repository is the ns-3 network simulator; its Python code is the tools
    around it.  This library models the tools that carry logic of their own and
    proves what makes each correct.

    ** The program's parts

    - [test.py] plans, runs and reports the tests: it reads the options and the
      files of the build (through [utils.py]), selects the suites and examples,
      runs them on worker threads, collects the results and writes the summary,
      the exit status and the reports.
    - [utils.py] reads lists and flags out of Python files and the configuration
      file [.ns3rc].
    - [utils/check-style.py] compares each source file with what the program
      uncrustify makes of it: it writes uncrustify's configuration, parses and
      rewrites patches, and says which files are badly indented.
    - [utils/grid.py] shows time lines: its data part reads a trace, keeps
      sorted series of events and ranges, and searches them; its renderers place
      and draw them; the window lets one select the range shown.
    - [waf-tools/shellcmd.py] runs command lines with pipes, redirections, [&&],
      [||] and [cd] without a shell; [waf-tools/versioning.py] takes the version
      from the tags of git, or from a cache file it wrote before.
    - [wutils.py] runs the programs of the build from waf, in the environment
      they need; [utils/create-module.py] makes the files of a new module;
      [waf-tools/command.py] runs command lines as tasks of the build, with the values of
      expressions substituted in them before [shellcmd.py] runs them;
      [waf-tools/clang_compilation_database.py] writes the commands of the compiler;
      [waf-tools/cflags.py] chooses the flags of the compilers, and [waf-tools/boost.py]
      finds the headers and the libraries of Boost; [waf-tools/misc.py] substitutes values
      in files, [waf-tools/relocation.py] follows a project that was moved;
      [utils/tests/test-waf.py] and [test-test.py] run long lists of commands by the
      runner of [TestBase.py].
    - [scratch/stacktrace_to_graph.py] turns the trace of the events of a simulation,
      with the call stacks that scheduled them, into a chart.
    - [src/visualizer] shows a running simulation: a thread runs the simulator
      up to a time the main loop of the interface sets, and the scene of nodes,
      channels and links follows the network.  Plugins add the links of wifi stations
      to their access points and the statistics of interfaces, from the updates the
      main loop gives them; [hud.py] draws axes on the view.  Windows show the routes, the
      statistics and the last packets of a node; a console runs commands of Python.
    - [src/flow-monitor/examples/flowmon-parse-results.py] prints the flows of the XML
      report of a simulation; [utils/test-runner-script.py] runs each test of the test
      runner in a process of its own and keeps the results.
    - [bindings/python/topsort.py] sorts by dependencies, level by level or not,
      and finds the cycles; [bindings/python/rad_util.py] is a library of
      functions on sequences, dictionaries, integers, polygons, quantiles and units.
    - [bindings/python/ns3modulescan.py] and [ns3modulescan-modular.py] scan the headers
      of the modules for the generator of the bindings: their hooks annotate the
      declarations that are found, from a table, and the modules become sections in an
      order [topsort.py] gives.

    ** The files

    - [Prelude] (this file): strings, exceptions, Python sequences and loops.
    - [PyDict]: the interface of a Python [dict] whose keys come in any order,
      with its laws, and an implementation by finite maps.
    - [OsPath], [FnMatch]: the functions of [os.path] and [fnmatch] the code
      uses.
    - [ElementTree]: the elements of [xml.etree].
    - [PyFloat]: floats as exact rationals: [int], [round], [%.nf], [%.ng], and the
      integer part of the logarithm.
    - [RadSeq], [RadInt], [RadMath]: [rad_util.py], on sequences and dictionaries, on
      integers and bits, and on numbers: polygons, quantiles, units, ranges.
    - [TopSort]: [topsort.py], against the interface of [PyDict].
    - [BindScan]: the hooks of [ns3modulescan-modular.py] and [ns3modulescan.py], the
      table of annotations they share, and the paths of the headers; a declaration is a
      record of what pygccxml says of it.
    - [BindSections]: the sections of the modules of [ns3modulescan.py], over [TopSort].
    - [CheckStyle]: [check-style.py].
    - [Timeline]: the data part of [grid.py].
    - [StateM]: a monad of state and errors, with what an operation preserves.
    - [GridSelect]: the layouts of [grid.py] and the handlers of its events; an
      attribute that is not assigned yet is [None], and reading it raises.
    - [GridDraw]: the drawing of [grid.py], as the list of the commands given to
      cairo, and the callbacks of its window.
    - [Shlex]: [shlex.split] and [shlex.quote].
    - [ShellCmd]: [shellcmd.py], over the operations of the system.
    - [WafCommand]: [command.py], over [ShellCmd].
    - [CompileDb]: [clang_compilation_database.py], over the interface of [PyDict].
    - [Regex]: the expressions of the module [re] the code uses, matched by
      backtracking, with the language of each.
    - [Versioning]: [versioning.py]; what its derived classes override is the
      class [version_info].
    - [Wutils]: [wutils.py].
    - [ModuleTemplates], [CreateModule]: the texts and the functions of
      [create-module.py], over a map from paths to directories and files.
    - [CFlags]: [cflags.py]; a class of traits is a record.
    - [Boost]: [boost.py], over directories, a compiler and a linker; its expressions, some of
      which look ahead, are functions to what they leave of a text.
    - [Misc]: [misc.py], over the nodes of waf; [Relocation]: [relocation.py], over the
      attributes of the nodes, two maps.
    - [PortTests]: [TestBase.py], [test-waf.py] and [test-test.py], over a shell.
    - [StackTrace]: [stacktrace_to_graph.py], over the interface of [PyDict].
    - [VizThread]: of [visualizer/core.py] the simulation thread and the main
      loop that runs the timer, the play button and the end: a step relation with
      every interleaving, and a stack of handlers since the loop is run again from
      within one.
    - [VizScene]: [visualizer/base.py], and of [core.py] nodes, channels, links
      and the scan of the network.
    - [VizView]: of [core.py] the selection, the samples of the last periods, the
      arrows of transmissions and drops, and the dragging of nodes.
    - [VizWifi]: [plugins/wifi_intrastructure_link.py], with the lists of links of the
      nodes.
    - [VizCanvas]: of [core.py] panning, the zoom, centring and [autoscale_view], and of
      [hud.py] the marks of the axes.  GTK and GooCanvas are the record [canvas_ops], and
      what they document the class [CanvasLaws]; a canvas of one's own satisfies it.
    - [VizStats]: the collector of [plugins/interface_statistics.py].
    - [VizConsole]: [visualizer/ipython_view.py].  The text buffer of GTK is the class
      [TextBuffer] with the laws [TextBufferLaws], which a list of characters with their tags
      satisfies; IPython is the record [ip_ops].  What is given to [idle_add] is a list of
      jobs, run between the keys in any way.
    - [VizWindows]: the list of windows of [core.py], the plugins [ipv4_routing_table.py],
      [olsr.py] and [show_last_packets.py], the window of [interface_statistics.py], and the
      capture of packets of [model/pyviz.cc].
    - [ConfigFile]: [utils.py].
    - [TestJobs]: the class [Job], [run_job_synchronously] and the threads of
      [test.py]: the worker threads, the main thread and the two queues are a step
      relation with every interleaving and Control-C at any time.
    - [TestCollect]: the loop over the results, the summary, the exit status.
    - [TestRun]: [read_waf_config], [make_paths], [parse_examples_to_run_file]
      and the first half of [run_tests], up to the jobs queued.
    - [TestReport]: [translate_to_text] and [translate_to_html].
    - [RunnerScript]: [test-runner-script.py], over the commands of the system.
    - [FlowMon]: [flowmon-parse-results.py], with the format of times of
      [src/core/model/time.cc].

    The names are those of the code; a method is a function of its object.  A
    call that may raise returns [Ok v] or [Err e]; an object that is mutated is
    passed and returned.

    ** What the theorems show

    - The test runner: the threads terminate and no schedule is stuck while a
      worker exists ([threads_terminate]); what is collected is one outcome of
      each job dispatched ([threads_results]); the summary and the exit status
      do not depend on the schedule, and the status is 0 exactly when every job
      was skipped or returned 0 ([run_verdict], [report_spec]); the jobs queued
      are well formed and follow the options ([plan_jobs_spec],
      [select_suites_spec], [suite_job_spec], [find_examples_spec]).  Without a
      worker, which a negative limit gives, the main thread waits for ever
      ([no_worker_hangs], [choose_processors_bounds]).
    - The reports: the text report is complete and in order
      ([translate_to_text_spec]); the rows of the HTML tables are counted, those
      left open included ([translate_to_html_rows]).
    - [test-runner-script.py]: the tests said to have failed are those that do not pass, and
      what is dumped is loaded again ([runner_script_spec]).
    - [flowmon-parse-results.py]: what is printed of a report in the format of the
      documentation ([flowmon_main_spec]); a report that this version of the simulator
      writes makes it raise ([this_version_raises]).
    - [utils.py]: which text is evaluated ([get_list_spec], [get_bool_spec]), a
      list written is read back ([get_list_reads_written]).
    - [check-style.py]: a patch printed is parsed back to itself
      ([parse_write_roundtrip]) and every error is characterised
      ([parse_patchset_errors]); restoring trailing blanks changes only ends of
      lines ([remove_trailing_extends], [restore_chunk_aligned]); when the check
      fails ([check_exit_status], [debug_finds_nothing]).
    - [grid.py]: the binary searches find what they should and what is returned
      around them ([get_ranges_spec], [get_events_spec]); the bounds cover the data
      ([Timelines_get_bounds_spec]); a trace is read without loss
      ([read_data_spec]); a colour stays with its name ([colors_lookups_spec]).
      Whatever the events, the ends of the range shown are cut to those of the data, and
      the range lies within the data until a drag shifts it out ([range_stays_within],
      [drag_data_past_the_start]); what a drag of the selection selects
      ([drag_left_spec], [drag_right_spec]); the marks of a scale are found and
      are 2 to 20 ([scale_layout_spec]); the bars of a series cover its ranges
      ([draw_ranges_bars]) and the legend fits its place ([draw_legend_fits]).
    - [shellcmd.py]: which command lines parse, each back from its quoted tokens
      ([parse_roundtrip]); the loop of [run], not verbose, does what its chain of pipes
      means, stated by itself ([run_chain], [run_meaning]), and fails when it is verbose
      ([run_verbose_raises]).
    - [command.py]: an argument is what its pieces give, and a value never adds an argument,
      an operator or a redirection ([subst_arg_spec], [no_injection]); a task runs the chain of
      its command line, each text in its place replaced by one text ([command_run_spec]).
      [clang_compilation_database.py]: each task has its entry, which splits back into its
      command, and the entries of other files stay ([write_compilation_database_spec]).
    - [versioning.py]: which tags are versions and what is read of them
      ([parse_version_tag_spec]); the fields a repository gives ([git_run_spec]);
      a task that fails changes nothing ([run_all_or_nothing]); every branch of
      [configure] ([configure_spec]), which reads back what the task wrote
      ([configure_after_run]).
    - [wutils.py]: the environment of a program ([get_proc_env_spec]), which
      program is found and run ([find_program_spec], [get_run_program_quoted]),
      and that leaks are never seen ([run_argv_ignores_leaks]).
    - [create-module.py]: a module is made whole or not at all, unless what was made of it
      cannot be removed ([make_module_all_or_nothing], [removal_fails]), with what is in it ([make_module_success]);
      where it goes ([module_of_spec]) and the exit status ([exit_status_spec]).
    - The visualizer: the simulator and the view never run together and stay
      within a second of simulated time ([visualizer_safe]); messages are taken in order,
      each once, and lost only by a view that raises, and no update of the model is lost
      ([messages_settled]); pausing stops the simulator
      after two runs ([pause_stops]); the main thread never waits for ever
      ([main_never_blocked]), but two timers may be left ([two_timers]).  Links
      follow their ends ([links_follow]); the scan draws exactly the links of the
      wired devices ([scan_topology_spec]).  What is selected is what is marked and
      observed ([selection_shown]); a view shows where the nodes are and one arrow
      for each pair that has sent ([update_view_spec]), unless it raises
      ([arrows_left]); a node that is dragged stays under the pointer
      ([drag_follows_pointer]).  An update gives each station the link to its access
      point, and one that is not known stops it ([simulation_periodic_update_spec]), a
      scan starts afresh but leaves the old links in the lists ([scan_nodes_spec],
      [links_leak]); the rates are those since the tenth last sample
      ([get_interface_statistics_spec]).  Autoscaling from a zoom of 1 shows every node
      ([autoscale_view_spec]), from another it need not ([autoscale_half_zoom]); an axis
      has four to nine marks ([axis_marks_spec]); the view follows the mouse
      ([panning_spec]).  On the console, no locked text is lost and a key pressed in
      the command line changes nothing before it ([transcript_kept]), but one without a string
      can paste there ([pasted_before]); colours are those of their escapes ([written_colored]) unless a segment is the name of
      a tag ([segment_is_tag]), and completion gives what the possibilities share
      ([complete_spec]).  The windows that are shown are listed once and list the last packets
      that passed their filters, of those dropped the ones of interest ([windows_spec],
      [FilterPacket_spec]); the types that can be
      selected are those below [Header] and [Trailer] ([packet_filter_list_spec]); one window
      that raises stops the updates of all ([routing_window_sticks]).
    - [stacktrace_to_graph.py]: the graph read is that of the events of the trace
      ([get_graph_spec]); the shared frames are taken and the loop ends
      ([get_shared_stack_spec]); the chart has a line for each node and each edge
      ([stacktrace_main_spec]).
    - [cflags.py]: which flags a build gets ([cflags_configure_spec]).
      [boost.py]: which file each library gets, that of Python apart ([match_libs_spec],
      [other_python]), from which directory
      ([search_dirs_spec]), what a successful check leaves ([check_boost_spec]), and that
      without a directory it raises whatever is required ([no_libraries_raises]).  [misc.py]:
      what a substitution writes, and that the tasks of a generator share the names of the
      first file ([run_tasks_spec]); where a command runs and on what
      ([apply_cmd_output_spec]).  [relocation.py]: the tree stays well formed unless the
      project was moved into itself ([relocate_spec]).  The portability
      tests: every command is run once in order, and what is counted, printed and
      returned ([runtests_spec]); which commands [test-waf.py] makes
      ([waf_main_spec]).
    - [topsort.py]: the order is a topological sort, the levels are the depths,
      and every elementary cycle is found once, for any order of the keys; all
      three terminate.
    - [ns3modulescan.py]: which path a header gets ([get_ns3_relative_path_spec]); what is
      annotated, and that the entry of a function wrapped twice has lost its parameters
      ([scan_all_spec], [scanned_twice]); the two hooks agree on the declarations of one
      module ([hooks_agree]); a module has a later section than those it depends on, and a
      header is in the section of its module ([module_sections_spec]).
    - [rad_util.py]: round trips, equivalences and bounds of its functions; the area of
      a polygon ([polygon_area_spec]), what a quantile is ([quantile_spec]) and what
      trimming keeps ([trim_spec]), how a number is written in units
      ([nice_units_spec]), when a range ends ([float_range_spec]).

    ** Bounds and fuel

    Loops the code writes with [while] are recursions on a number of rounds,
    [OutOfFuel] or [None] when it is reached; the theorems show it never is: the
    number of pairs, of keys or of digits, of the events of a trace or of the frames of
    a stack, of the marks of an axis, is enough; a range of [float_range] with a step that
    is not positive is the one loop shown not to end.  Integers are those of Python,
    without bounds.  A string is the list of its characters, of 8 bits each.
    [grid.py], [rad_util.py] and the keys [ns3modulescan.py] sorts are Python 2 code (their
    divisions of integers round down), so is [flowmon-parse-results.py] but for its
    division; the rest is Python 3; floats are exact rationals everywhere.

    ** What is taken as given

    Programs and packages outside the repository are parameters: the outcome of a
    shell command, the contents of files, uncrustify, [difflib], the program
    patch; [eval] and [exec] of Python texts; the tree [xml.etree] reads; the
    processes and files [shellcmd.py] opens; the outputs of git; the options, tasks
    and environment of waf, whose [ConfigSet] is a map; the sizes of texts on a cairo
    surface; the simulator of the visualizer, which runs at most to the time it is
    given, and the places graphviz gives to nodes; the logarithm and the arc tangent
    of floats, the cutting of lines, and the change from pixels to the canvas; the
    ranges of adjustments and the scrolling of GTK and GooCanvas, by their laws; the
    devices of the wifi plugin, and the counts the simulator keeps of the interfaces; the
    nodes of waf, and reading and printing JSON; what pygccxml finds in the headers; the text
    buffer of GTK, by its laws, and the key bindings of its view, by what the user can do: to
    insert at the cursor and to delete where the text is not locked, if anything; IPython; the routes, types and packets the simulator has.
    Times are whole milliseconds.  Paths are POSIX paths, also in the branches of
    the code for other platforms.

    ** What is not modelled

    The options of [boost.py]; the signatures of tasks in [misc.py] and [relocation.py]; the
    widgets that [grid.py] builds; of the visualizer the widgets, the icons, tooltips and
    screenshots, the loading of plugins, and the setting up of IPython; the
    driver of the scan and the scripts that give its output to PyBindGen, and the bindings
    themselves; the examples; and of
    [rad_util.py] the time stamp.  Of the output of
    [test.py], what [--verbose] prints is left out, as are the messages of
    [create-module.py] and the debug output of [shellcmd.py]. *)

From Stdlib Require Export ZArith Lia DecimalN Ascii String.
From stdpp Require Export prelude strings gmap sorting relations option.
From stdpp Require Export list.

#[export] Set Default Goal Selector "!".

(** ** Python strings

    A [str] is the list of its characters; [$"abc"] is a literal. *)

Abbreviation pystr := (list ascii).
Notation "$ s" := (list_ascii_of_string s%string)
  (at level 1, s at level 0, format "$ s") : stdpp_scope.

(** ** Exceptions

    The exceptions the modelled code raises, by Python class.  A message is
    kept where the code builds one. *)

Inductive exn : Type :=
| AssertionError
| AttributeError
| IndexError
| KeyError
| TypeError
| UnboundLocalError
| ZeroDivisionError
| ValueError
| OSError
| OutOfFuel (* no exception of the code: a loop of the model reached its bound *)
| BareException (msg : pystr)
| SystemExit (code : Z).

#[export] Instance exn_eq_dec : EqDecision exn.
Proof. solve_decision. Defined.

(** The outcome of a call: the value it returns, or what it raises. *)
Inductive result (E A : Type) : Type :=
| Ok (a : A)
| Err (e : E).
Arguments Ok {E A} a.
Arguments Err {E A} e.

Abbreviation py := (result exn).

#[export] Instance result_eq_dec {E A} `{EqDecision E, EqDecision A} :
  EqDecision (result E A).
Proof. solve_decision. Defined.

(** Sequencing: [let! x := m in k] runs [m], and [k] on its value unless it
    raised. *)
Definition rbind {E A B} (m : result E A) (k : A -> result E B) : result E B :=
  match m with
  | Ok a => k a
  | Err e => Err e
  end.

Declare Scope py_scope.
Notation "'let!' x ':=' m 'in' k" := (rbind m (fun x => k))
  (at level 200, x name, m at level 100, k at level 200) : py_scope.
Notation "'let!' ' p ':=' m 'in' k" := (rbind m (fun p => k))
  (at level 200, p strict pattern, m at level 100, k at level 200) : py_scope.
#[global] Open Scope py_scope.

Definition is_ok {E A} (r : result E A) : bool :=
  match r with Ok _ => true | Err _ => false end.

(** [raise_unless b e]: the guard [if not b: raise e] (an [assert] when
    [e] is [AssertionError]). *)
Definition raise_unless {E} (b : bool) (e : E) : result E () :=
  if b then Ok tt else Err e.

(** A value that may be missing, read by code that raises [e] then. *)
Definition or_raise {E A} (e : E) (o : option A) : result E A :=
  match o with Some a => Ok a | None => Err e end.

(** [for x in l: s = f(s, x)] where the body may raise. *)
Fixpoint for_each {E S A} (f : S -> A -> result E S) (l : list A) (s : S)
  : result E S :=
  match l with
  | [] => Ok s
  | x :: l' => let! s' := f s x in for_each f l' s'
  end.

(** ** Python sequences *)

Definition py_len {A} (l : list A) : Z := Z.of_nat (length l).

(** [l[i]] with Python's negative indices. *)
Definition py_get {A} (l : list A) (i : Z) : py A :=
  let j := if (i <? 0)%Z then (i + py_len l)%Z else i in
  if ((0 <=? j) && (j <? py_len l))%Z
  then or_raise IndexError (l !! Z.to_nat j)
  else Err IndexError.

(** A slice bound, clamped to the sequence as Python clamps it. *)
Definition py_bound {A} (l : list A) (i : Z) : nat :=
  Z.to_nat (if (i <? 0)%Z then Z.max 0 (i + py_len l) else Z.min i (py_len l)).

(** [l[a:b]]. *)
Definition py_slice {A} (l : list A) (a b : Z) : list A :=
  take (py_bound l b - py_bound l a) (drop (py_bound l a) l).

(** [l[a:]] and [l[:b]]. *)
Definition py_from {A} (l : list A) (a : Z) : list A := drop (py_bound l a) l.
Definition py_upto {A} (l : list A) (b : Z) : list A := take (py_bound l b) l.

(** [l.insert(i, x)] for a non-negative [i]. *)
Definition py_insert {A} (l : list A) (i : nat) (x : A) : list A :=
  take i l ++ x :: drop i l.

(** [l.sort()] by a comparison: insertion sort, which like Python's sort keeps
    equal elements in order. *)
Fixpoint sort_insert {A} (le : A -> A -> bool) (x : A) (l : list A) : list A :=
  match l with
  | [] => [x]
  | y :: l' => if le x y then x :: l else y :: sort_insert le x l'
  end.

Definition py_sort {A} (le : A -> A -> bool) (l : list A) : list A :=
  foldr (sort_insert le) [] l.

(** ** Loops

    [while cond: body] with a bound on the number of iterations; [None]
    says the bound was reached with the condition still true. *)
Fixpoint while_loop {S} (fuel : nat) (cond : S -> bool) (body : S -> S) (s : S)
  : option S :=
  if cond s then
    match fuel with
    | 0%nat => None
    | Datatypes.S fuel' => while_loop fuel' cond body (body s)
    end
  else Some s.

(** ** String methods the code uses *)

Section str_methods.
Implicit Types (c : ascii) (s p : pystr).

Definition NL : ascii := "010"%char.

(** A double quote *)
Definition dquote : pystr := ["034"%char].

(** [s.startswith(p)] *)
Fixpoint startswith s p {struct p} : bool :=
  match p, s with
  | [], _ => true
  | _ :: _, [] => false
  | b :: p', a :: s' => if decide (a = b) then startswith s' p' else false
  end.

(** [s.endswith(p)] *)
Definition endswith s p : bool := startswith (reverse s) (reverse p).

(** [p in s] *)
Fixpoint str_contains s p : bool :=
  startswith s p ||
  match s with
  | [] => false
  | _ :: s' => str_contains s' p
  end.

(** [s.split(c, 1)] when [c] occurs: what is before and after its first
    occurrence. *)
Fixpoint split_once c s : option (pystr * pystr) :=
  match s with
  | [] => None
  | a :: s' =>
      if decide (a = c) then Some ([], s')
      else match split_once c s' with
           | Some (l, r) => Some (a :: l, r)
           | None => None
           end
  end.

(** [s.split(c)] *)
Fixpoint split_on c s : list pystr :=
  match s with
  | [] => [[]]
  | a :: s' =>
      if decide (a = c) then [] :: split_on c s'
      else match split_on c s' with
           | [] => [[a]]
           | w :: ws => (a :: w) :: ws
           end
  end.

(** [f.readlines()]: the lines of a text, each with its end. *)
Fixpoint readlines s : list pystr :=
  match s with
  | [] => []
  | c :: s' =>
      if decide (c = NL) then [NL] :: readlines s'
      else match readlines s' with
           | [] => [[c]]
           | l :: ls => (c :: l) :: ls
           end
  end.

(** [sep.join(l)] *)
Fixpoint join (sep : pystr) (l : list pystr) : pystr :=
  match l with
  | [] => []
  | [w] => w
  | w :: ws => w ++ sep ++ join sep ws
  end.

(** White space as [str.strip] sees it. *)
Definition is_ws c : bool :=
  bool_decide (c ∈ [" "; "009"; "010"; "011"; "012"; "013"; "028"; "029"; "030"; "031"; "133"; "160"]%char).

Fixpoint lstrip s : pystr :=
  match s with
  | a :: s' => if is_ws a then lstrip s' else s
  | [] => []
  end.

Definition strip s : pystr := reverse (lstrip (reverse (lstrip s))).

(** ** Decimal numerals: [%d] of a natural and [int()] of a digit string *)

Fixpoint show_uint (d : Decimal.uint) : pystr :=
  match d with
  | Decimal.Nil => []
  | Decimal.D0 d => "0"%char :: show_uint d
  | Decimal.D1 d => "1"%char :: show_uint d
  | Decimal.D2 d => "2"%char :: show_uint d
  | Decimal.D3 d => "3"%char :: show_uint d
  | Decimal.D4 d => "4"%char :: show_uint d
  | Decimal.D5 d => "5"%char :: show_uint d
  | Decimal.D6 d => "6"%char :: show_uint d
  | Decimal.D7 d => "7"%char :: show_uint d
  | Decimal.D8 d => "8"%char :: show_uint d
  | Decimal.D9 d => "9"%char :: show_uint d
  end.

Definition show_N (n : N) : pystr := show_uint (N.to_uint n).

(** A decimal digit, as the function that appends it in front. *)
Definition digit_of c : option (Decimal.uint -> Decimal.uint) :=
  if decide (c = "0"%char) then Some Decimal.D0 else
  if decide (c = "1"%char) then Some Decimal.D1 else
  if decide (c = "2"%char) then Some Decimal.D2 else
  if decide (c = "3"%char) then Some Decimal.D3 else
  if decide (c = "4"%char) then Some Decimal.D4 else
  if decide (c = "5"%char) then Some Decimal.D5 else
  if decide (c = "6"%char) then Some Decimal.D6 else
  if decide (c = "7"%char) then Some Decimal.D7 else
  if decide (c = "8"%char) then Some Decimal.D8 else
  if decide (c = "9"%char) then Some Decimal.D9 else None.

Definition is_digit c : bool :=
  match digit_of c with Some _ => true | None => false end.

(** The digits read, [None] when another character occurs. *)
Fixpoint uint_of_str s : option Decimal.uint :=
  match s with
  | [] => Some Decimal.Nil
  | c :: s' =>
      match digit_of c, uint_of_str s' with
      | Some f, Some d => Some (f d)
      | _, _ => None
      end
  end.

(** [int(s)] of a string of digits ([ValueError] for anything else). *)
Definition int_of_digits s : py N :=
  match s with
  | [] => Err ValueError
  | _ => let! d := or_raise ValueError (uint_of_str s) in Ok (N.of_uint d)
  end.

(** The longest prefix of [s] whose characters satisfy [f], and the rest:
    what a greedy [x*] of a regular expression takes first. *)
Fixpoint span (f : ascii -> bool) s : pystr * pystr :=
  match s with
  | [] => ([], [])
  | a :: s' => if f a then let '(l, r) := span f s' in (a :: l, r) else ([], s)
  end.

(** What a regular expression takes at the head of a string, and the rest: a
    literal, [[0-9]+], [[^ ]+]. *)
Definition take_lit p s : option pystr :=
  if startswith s p then Some (drop (length p) s) else None.

Definition take_some (f : ascii -> bool) s : option (pystr * pystr) :=
  match span f s with ([], _) => None | (d, r) => Some (d, r) end.

Definition take_digits s : option (pystr * pystr) := take_some is_digit s.

Definition take_word s : option (pystr * pystr) :=
  take_some (fun c => negb (bool_decide (c = " "%char))) s.

(** [[a-zA-Z0-9_]] *)
Definition word_char (c : ascii) : bool :=
  let n := Z.of_nat (nat_of_ascii c) in
  (((97 <=? n) && (n <=? 122)) || ((65 <=? n) && (n <=? 90)) || ((48 <=? n) && (n <=? 57)) || (n =? 95))%Z.

(** [a <= b] of two strings, as [sort] compares them. *)
Fixpoint str_leb s p : bool :=
  match s, p with
  | [], _ => true
  | _ :: _, [] => false
  | a :: s', b :: p' =>
      if (N_of_ascii a =? N_of_ascii b)%N then str_leb s' p' else (N_of_ascii a <? N_of_ascii b)%N
  end.

(** [s.upper()] of ASCII letters *)
Definition str_upper s : pystr :=
  (fun c => let n := nat_of_ascii c in
     if ((97 <=? n) && (n <=? 122))%nat then ascii_of_nat (n - 32) else c) <$> s.

(** [%d] of an integer *)
Definition show_Z (z : Z) : pystr :=
  if (z <? 0)%Z then "-"%char :: show_N (Z.to_N (- z)) else show_N (Z.to_N z).

End str_methods.

(** ** [repr] of a string, of characters of 8 bits *)

Definition hex_char (n : nat) : ascii := default "0"%char ($"0123456789abcdef" !! n).

Definition repr_char (quote c : ascii) : pystr :=
  let n := nat_of_ascii c in
  if bool_decide (c = quote) || bool_decide (c = "\"%char) then ["\"%char; c]
  else if decide (c = NL) then $"\n"
  else if decide (c = "013"%char) then $"\r"
  else if decide (c = "009"%char) then $"\t"
  else if ((n <? 32) || ((127 <=? n) && (n <? 161)) || (n =? 173))%nat then $"\x" ++ [hex_char (n / 16); hex_char (n mod 16)]
  else [c].

Definition py_repr (s : pystr) : pystr :=
  let quote := if bool_decide ("'"%char ∈ s) && negb (bool_decide ("034"%char ∈ s))
               then "034"%char else "'"%char in
  [quote] ++ (s ≫= repr_char quote) ++ [quote].

(** [repr] of a list of strings *)
Definition repr_list (l : list pystr) : pystr := $"[" ++ join $", " (py_repr <$> l) ++ $"]".

(** ** Lemmas and automation *)

Create HintDb pytools discriminated.
#[export] Hint Constants Opaque : pytools.
#[export] Hint Variables Opaque : pytools.

(** Splits the [Ok] outcomes of a chain of binds in the hypotheses. *)
Ltac inv_ok :=
  repeat match goal with
  | H : Ok _ = Ok _ |- _ => injection H as H
  | H : Err _ = Err _ |- _ => injection H as H
  | H : Ok _ = Err _ |- _ => discriminate H
  | H : Err _ = Ok _ |- _ => discriminate H
  | H : rbind ?m _ = Ok _ |- _ =>
      let E := fresh "E" in
      destruct m eqn:E; cbn [rbind] in H
  end.

(** Decides every [decide] and [if] of the goal, closing the easy cases. *)
Ltac case_all :=
  repeat (first [case_decide | case_match]; simplify_eq; try done).

Section result_lemmas.
Context {E A B : Type}.
Implicit Types (m : result E A) (k : A -> result E B).

Lemma rbind_Ok m k b :
  rbind m k = Ok b <-> exists a, m = Ok a /\ k a = Ok b.
Proof. destruct m; cbn; split; [eauto| |done|]; by intros (? & [= ->] & ?). Qed.

Lemma rbind_Err m k e :
  rbind m k = Err e <-> m = Err e \/ exists a, m = Ok a /\ k a = Err e.
Proof.
  destruct m; cbn; split; eauto.
  - by intros [?|(? & [= ->] & ?)].
  - intros [= ->]. by left.
  - by intros [[= ->]|(? & ? & ?)].
Qed.

Lemma raise_unless_Ok b (e : E) u : raise_unless b e = Ok u <-> b = true.
Proof. by destruct b, u. Qed.

Lemma or_raise_Ok (e : E) (o : option A) a : or_raise e o = Ok a <-> o = Some a.
Proof. destruct o; cbn; split; congruence. Qed.

Lemma or_raise_Err (e e' : E) (o : option A) :
  or_raise e o = Err e' <-> o = None /\ e = e'.
Proof. destruct o; cbn; intuition congruence. Qed.

End result_lemmas.

Section for_each_lemmas.
Context {E S A : Type}.
Implicit Types (f : S -> A -> result E S) (l : list A).

Lemma for_each_app f l1 l2 s :
  for_each f (l1 ++ l2) s = rbind (for_each f l1 s) (for_each f l2).
Proof.
  revert s. induction l1 as [|x l1 IH]; intros s; [done|].
  cbn. destruct (f s x); cbn; auto.
Qed.

(** The invariant rule of a loop: [P done s] holds of the elements already
    visited and the state reached. *)
Lemma for_each_ind f (P : list A -> S -> Prop) l s s' :
  P [] s ->
  (forall l1 x l2 s1 s2, l = l1 ++ x :: l2 -> P l1 s1 -> f s1 x = Ok s2 ->
     P (l1 ++ [x]) s2) ->
  for_each f l s = Ok s' -> P l s'.
Proof.
  intros H0 Hstep.
  cut (forall l2 l1 s1, l = l1 ++ l2 -> P l1 s1 ->
    for_each f l2 s1 = Ok s' -> P l s').
  { intros H H1. by apply (H l [] s). }
  induction l2 as [|x l2 IH]; intros l1 s1 -> HP Hf.
  - cbn in Hf. rewrite app_nil_r. by inv_ok; subst.
  - cbn in Hf. inv_ok. eapply (IH (l1 ++ [x])); eauto.
    by rewrite <- app_assoc.
Qed.

(** The total variant: when the invariant makes every body succeed, so does
    the loop. *)
Lemma for_each_total f (P : list A -> S -> Prop) l s :
  P [] s ->
  (forall l1 x l2 s1, l = l1 ++ x :: l2 -> P l1 s1 ->
     exists s2, f s1 x = Ok s2 /\ P (l1 ++ [x]) s2) ->
  exists s', for_each f l s = Ok s' /\ P l s'.
Proof.
  intros H0 Hstep.
  cut (forall l2 l1 s1, l = l1 ++ l2 -> P l1 s1 ->
    exists s', for_each f l2 s1 = Ok s' /\ P l s').
  { intros H. by apply (H l [] s). }
  induction l2 as [|x l2 IH]; intros l1 s1 -> HP.
  - exists s1. by rewrite app_nil_r.
  - destruct (Hstep l1 x l2 s1 eq_refl HP) as (s2 & Hf & HP2).
    cbn. rewrite Hf. cbn. apply (IH (l1 ++ [x])); [|done].
    by rewrite <- app_assoc.
Qed.

Lemma for_each_ext f g l s :
  (forall s x, x ∈ l -> f s x = g s x) -> for_each f l s = for_each g l s.
Proof.
  revert s. induction l as [|x l IH]; intros s H; [done|]. cbn.
  rewrite H by set_solver. destruct (g s x); cbn; [|done].
  apply IH. intros. apply H. set_solver.
Qed.

End for_each_lemmas.

Section while_lemmas.
Context {S : Type} (cond : S -> bool) (body : S -> S).

(** Partial correctness: an invariant, and the negated condition on exit. *)
Lemma while_loop_inv (I : S -> Prop) fuel s s' :
  I s -> (forall s, I s -> cond s = true -> I (body s)) ->
  while_loop fuel cond body s = Some s' -> I s' /\ cond s' = false.
Proof.
  intros HI Hb. revert s HI. induction fuel as [|n IH]; intros s HI; cbn;
    destruct (cond s) eqn:Hc; intros; simplify_eq; eauto.
Qed.

(** Termination: a measure the body decreases bounds the iterations. *)
Lemma while_loop_total (I : S -> Prop) (m : S -> nat) fuel s :
  I s -> (forall s, I s -> cond s = true -> I (body s) /\ m (body s) < m s) ->
  m s <= fuel -> exists s', while_loop fuel cond body s = Some s'.
Proof.
  intros HI Hb. revert s HI.
  induction fuel as [|n IH]; intros s HI Hm; cbn; destruct (cond s) eqn:Hc; eauto.
  - destruct (Hb s HI Hc). lia.
  - destruct (Hb s HI Hc). apply IH; [done|lia].
Qed.

(** More fuel does not change a result. *)
Lemma while_loop_more fuel fuel' s s' :
  while_loop fuel cond body s = Some s' -> fuel <= fuel' ->
  while_loop fuel' cond body s = Some s'.
Proof.
  revert fuel' s. induction fuel as [|n IH]; intros fuel' s H Hle;
    destruct fuel' as [|n']; cbn in *; destruct (cond s); try done; [lia|].
  apply IH; [done|lia].
Qed.

End while_lemmas.

Section seq_lemmas.
Context {A : Type}.
Implicit Types l : list A.

Lemma py_get_lookup l i :
  (0 <= i)%Z -> py_get l i = or_raise IndexError (l !! Z.to_nat i).
Proof.
  intros Hi. unfold py_get, py_len.
  rewrite (proj2 (Z.ltb_ge i 0)) by lia.
  destruct (i <? Z.of_nat (length l))%Z eqn:Hl.
  - rewrite (proj2 (Z.leb_le 0 i)) by lia. done.
  - rewrite andb_false_r. apply Z.ltb_ge in Hl.
    by rewrite lookup_ge_None_2 by lia.
Qed.

(** [l[-i]] counts from the end. *)
Lemma py_get_neg l (i : nat) :
  py_get l (- Z.of_nat (S i)) = or_raise IndexError (reverse l !! i).
Proof.
  unfold py_get, py_len. rewrite (proj2 (Z.ltb_lt _ 0)) by lia.
  destruct (decide (i < length l)) as [Hi|Hi].
  - rewrite (proj2 (Z.leb_le _ _)), (proj2 (Z.ltb_lt _ _)) by lia. cbn [andb].
    rewrite reverse_lookup by done. do 2 f_equal. lia.
  - rewrite (lookup_ge_None_2 (reverse l) i) by (rewrite length_reverse; lia).
    rewrite (proj2 (Z.leb_gt _ _)) by lia. done.
Qed.

Lemma py_bound_nat l (i : nat) : py_bound l (Z.of_nat i) = i `min` length l.
Proof.
  unfold py_bound, py_len. rewrite (proj2 (Z.ltb_ge _ 0)) by lia. lia.
Qed.

Lemma py_slice_nat l (a b : nat) :
  py_slice l (Z.of_nat a) (Z.of_nat b) = take (b - a) (drop a l).
Proof.
  unfold py_slice. rewrite !py_bound_nat.
  destruct (decide (a <= length l)).
  - rewrite (Nat.min_l a) by done.
    destruct (decide (b <= length l)); [by rewrite Nat.min_l|].
    rewrite Nat.min_r by lia.
    rewrite !take_ge; try done; rewrite length_drop; lia.
  - rewrite (drop_ge l a) by lia.
    rewrite drop_ge by lia. by rewrite !take_nil.
Qed.

Lemma py_insert_perm l i x : py_insert l i x ≡ₚ x :: l.
Proof.
  unfold py_insert. rewrite <- Permutation_middle. by rewrite take_drop.
Qed.

Lemma length_py_insert l i x : length (py_insert l i x) = S (length l).
Proof. by rewrite (Permutation_length (py_insert_perm l i x)). Qed.

End seq_lemmas.

Section sort_lemmas.
Context {A : Type} (le : A -> A -> bool).
Implicit Types l : list A.

Lemma sort_insert_perm x l : sort_insert le x l ≡ₚ x :: l.
Proof.
  induction l as [|y l IH]; cbn; [done|]. destruct (le x y); [done|]. rewrite IH. constructor.
Qed.

Lemma py_sort_perm l : py_sort le l ≡ₚ l.
Proof. induction l as [|x l IH]; cbn; [done|]. rewrite sort_insert_perm. by constructor. Qed.

Lemma elem_of_py_sort x l : x ∈ py_sort le l <-> x ∈ l.
Proof. by rewrite py_sort_perm. Qed.

Lemma py_sort_sorted l :
  (forall x y, le x y = true \/ le y x = true) ->
  (forall x y z, le x y = true -> le y z = true -> le x z = true) ->
  StronglySorted (fun x y => le x y = true) (py_sort le l).
Proof.
  intros Htot Htr. induction l as [|x l IH]; cbn; [constructor|].
  fold (py_sort le l). revert IH. generalize (py_sort le l). intros s IH.
  induction IH as [|y l' Hl' IH Hy]; cbn; [repeat constructor|].
  destruct (le x y) eqn:Hxy.
  - constructor; [by constructor|]. constructor; [done|]. eapply Forall_impl; [done|]. eauto.
  - constructor; [done|]. rewrite sort_insert_perm. constructor; [|done].
    destruct (Htot x y); congruence.
Qed.

(** Elements that compare equal keep their order. *)
Lemma py_sort_stable (f : A -> bool) l :
  (forall x y, f x = true -> f y = true -> le x y = true) ->
  filter (fun x => f x = true) (py_sort le l) = filter (fun x => f x = true) l.
Proof.
  intros Hf.
  assert (forall x l, filter (fun x => f x = true) (sort_insert le x l) =
    filter (fun x => f x = true) (x :: l)) as Hins.
  { intros x l0. induction l0 as [|y l0 IH]; cbn [sort_insert]; [done|].
    destruct (le x y) eqn:Hxy; [done|]. rewrite filter_cons, IH, !filter_cons.
    destruct (decide (f y = true)), (decide (f x = true)); try done.
    rewrite Hf in Hxy; done. }
  induction l as [|x l IH]; cbn [py_sort foldr]; [done|]. rewrite Hins, !filter_cons. fold (py_sort le l).
  by rewrite IH.
Qed.

Lemma py_sort_id l : StronglySorted (fun x y => le x y = true) l -> py_sort le l = l.
Proof.
  induction 1 as [|x l Hl IH Hx]; [done|]. cbn. fold (py_sort le l). rewrite IH.
  destruct l as [|y l]; [done|]. cbn. apply Forall_cons in Hx as [-> _]. done.
Qed.

End sort_lemmas.

Lemma py_sort_ext {A} (f g : A -> A -> bool) l :
  (forall x y, f x y = g x y) -> py_sort f l = py_sort g l.
Proof.
  intros Hfg. induction l as [|x l IH]; [done|]. cbn. fold (py_sort f l) (py_sort g l).
  rewrite IH. generalize (py_sort g l) as s. induction s as [|y s IHs]; [done|]. cbn.
  by rewrite Hfg, IHs.
Qed.

(** Two orders of the same elements sort to the same list. *)
Lemma py_sort_unique {A} (le : A -> A -> bool) l l' :
  (forall x y, le x y = true \/ le y x = true) ->
  (forall x y z, le x y = true -> le y z = true -> le x z = true) ->
  (forall x y, le x y = true -> le y x = true -> x = y) ->
  l ≡ₚ l' -> py_sort le l = py_sort le l'.
Proof.
  intros Htot Htr Hanti Hp.
  assert (AntiSymm (=) (fun x y => le x y = true)) by (intros x y; apply Hanti).
  apply (StronglySorted_unique (fun x y => le x y = true)); [by apply py_sort_sorted..|].
  by rewrite !py_sort_perm.
Qed.

Lemma list_filter_all {A} (P : A -> Prop) `{forall x, Decision (P x)} l : Forall P l -> filter P l = l.
Proof. induction 1 as [|x l Hx _ IH]; [done|]. rewrite filter_cons, decide_True by done. by rewrite IH. Qed.

Section str_lemmas.
Implicit Types (c : ascii) (s p : pystr).

Lemma join_readlines s : mjoin (readlines s) = s.
Proof.
  induction s as [|c s IH]; [done|]. cbn [readlines]. case_decide as Hc.
  - subst. cbn. by f_equal.
  - rewrite <- IH at 2. by destruct (readlines s).
Qed.

Lemma str_leb_total s p : str_leb s p = true \/ str_leb p s = true.
Proof.
  revert p. induction s as [|a s IH]; intros [|b p]; cbn; auto.
  destruct (N.eqb_spec (N_of_ascii a) (N_of_ascii b)) as [->|Hne]; [by rewrite N.eqb_refl|].
  rewrite (proj2 (N.eqb_neq _ _)) by done. rewrite !N.ltb_lt. lia.
Qed.

Lemma str_leb_trans s p q : str_leb s p = true -> str_leb p q = true -> str_leb s q = true.
Proof.
  revert p q. induction s as [|a s IH]; intros [|b p] [|c q]; cbn; try done.
  destruct (N.eqb_spec (N_of_ascii a) (N_of_ascii b)), (N.eqb_spec (N_of_ascii b) (N_of_ascii c)),
    (N.eqb_spec (N_of_ascii a) (N_of_ascii c)); rewrite ?N.ltb_lt; try lia; [|lia..]. by apply IH.
Qed.

Lemma str_leb_antisym s p : str_leb s p = true -> str_leb p s = true -> s = p.
Proof.
  revert p. induction s as [|a s IH]; intros [|b p]; cbn; try done.
  destruct (N.eqb_spec (N_of_ascii a) (N_of_ascii b)) as [He|Hne].
  - rewrite He, N.eqb_refl. intros H1 H2. f_equal; [|by apply IH].
    by rewrite <- (ascii_N_embedding a), He, ascii_N_embedding.
  - rewrite (proj2 (N.eqb_neq _ _)) by done. rewrite !N.ltb_lt. lia.
Qed.

(** The order in which strings come does not matter to [sort]. *)
Lemma sort_strings_perm l l' : l ≡ₚ l' -> py_sort str_leb l = py_sort str_leb l'.
Proof. apply py_sort_unique; [apply str_leb_total|apply str_leb_trans|apply str_leb_antisym]. Qed.

Lemma startswith_app p s : startswith (p ++ s) p = true.
Proof. induction p as [|a p IH]; cbn; [done|]. by rewrite decide_True. Qed.

Lemma startswith_spec s p : startswith s p = true <-> exists r, s = p ++ r.
Proof.
  split; [|intros [r ->]; apply startswith_app].
  revert s. induction p as [|b p IH]; intros [|a s]; cbn; try done; eauto.
  case_decide; [|done]. subst. intros [r ->]%IH. by exists r.
Qed.

Lemma split_once_Some c s l r :
  split_once c s = Some (l, r) <-> s = l ++ c :: r /\ c ∉ l.
Proof.
  revert l. induction s as [|a s IH]; intros l; cbn.
  { split; [done|]. intros [H _]. by apply app_cons_not_nil in H. }
  case_decide as Hac; subst.
  - split; [intros [= <- <-]; split; [done|apply not_elem_of_nil]|].
    intros [H1 H2]. destruct l as [|x l]; cbn in *; [congruence|].
    injection H1 as <- _. set_solver.
  - split.
    + destruct (split_once c s) as [[l' r']|]; [|done]. intros [= <- <-].
      destruct (proj1 (IH l') eq_refl) as [-> ?]. split; [done|set_solver].
    + intros [H1 H2]. destruct l as [|x l]; cbn in *; [congruence|].
      injection H1 as <- ->. by rewrite (proj2 (IH l)) by set_solver.
Qed.

Lemma split_once_None c s : split_once c s = None <-> c ∉ s.
Proof.
  induction s as [|a s IH]; cbn; [set_solver|].
  case_decide; [set_solver|].
  destruct (split_once c s) as [[l r]|]; set_solver.
Qed.

Lemma split_on_no c s : c ∉ s -> split_on c s = [s].
Proof.
  induction s as [|a s IH]; intros H; cbn; [done|].
  rewrite decide_False by set_solver. rewrite IH; set_solver.
Qed.

Lemma split_on_app c s1 s2 :
  c ∉ s1 -> split_on c (s1 ++ c :: s2) = s1 :: split_on c s2.
Proof.
  induction s1 as [|a s1 IH]; intros H; cbn; [by rewrite decide_True|].
  rewrite decide_False by set_solver. by rewrite IH by set_solver.
Qed.

Lemma split_on_nonempty c s : split_on c s <> [].
Proof. destruct s; cbn; [done|]. by repeat case_match. Qed.

(** [c.join(s.split(c)) == s] *)
Lemma join_split_on c s : join [c] (split_on c s) = s.
Proof.
  induction s as [|a s IH]; cbn; [done|]. case_decide; subst; cbn.
  - destruct (split_on c s) eqn:E; [by destruct (split_on_nonempty c s)|].
    cbn in *. by rewrite IH.
  - destruct (split_on c s) as [|w ws] eqn:E; cbn in *; [by subst|].
    destruct ws; cbn in *; by rewrite <- IH.
Qed.

Lemma uint_of_show d : uint_of_str (show_uint d) = Some d.
Proof. induction d; cbn [show_uint uint_of_str]; try done; by rewrite IHd. Qed.

Lemma show_uint_digits d : Forall (fun c => is_digit c = true) (show_uint d).
Proof. induction d; cbn; constructor; done. Qed.

Lemma show_N_digits n : Forall (fun c => is_digit c = true) (show_N n).
Proof. apply show_uint_digits. Qed.

Lemma show_N_nonempty n : show_N n <> [].
Proof.
  unfold show_N. intros H.
  assert (N.to_uint n = Decimal.Nil) as H' by (by destruct (N.to_uint n)).
  pose proof (DecimalN.Unsigned.of_to n) as Hn. rewrite H' in Hn. cbn in Hn.
  by subst.
Qed.

(** [int("%d" % n) == n] *)
Lemma int_of_show_N n : int_of_digits (show_N n) = Ok n.
Proof.
  unfold int_of_digits. pose proof (show_N_nonempty n) as Hne.
  destruct (show_N n) eqn:E; [done|]. rewrite <- E. unfold show_N.
  rewrite uint_of_show. cbn. by rewrite DecimalN.Unsigned.of_to.
Qed.

Lemma span_app f s1 s2 :
  Forall (fun c => f c = true) s1 ->
  match s2 with [] => True | c :: _ => f c = false end ->
  span f (s1 ++ s2) = (s1, s2).
Proof.
  intros H1 H2. induction H1 as [|c s1 Hc _ IH]; cbn.
  - destruct s2; cbn; [done|]. by rewrite H2.
  - by rewrite Hc, IH.
Qed.

Lemma span_spec f s l r :
  span f s = (l, r) ->
  s = l ++ r /\ Forall (fun c => f c = true) l /\
  match r with [] => True | c :: _ => f c = false end.
Proof.
  revert l. induction s as [|a s IH]; intros l; cbn; [intros; by simplify_eq|].
  destruct (f a) eqn:Ha.
  - destruct (span f s) as [l' r']. intros; simplify_eq.
    destruct (IH l' eq_refl) as (-> & ? & ?). eauto.
  - intros; simplify_eq. eauto.
Qed.

Lemma take_lit_app p s : take_lit p (p ++ s) = Some s.
Proof. unfold take_lit. by rewrite startswith_app, drop_app_length. Qed.

Lemma take_some_app f w p s :
  w <> [] -> Forall (fun c => f c = true) w ->
  match p ++ s with c :: _ => f c = false | [] => True end ->
  take_some f (w ++ p ++ s) = Some (w, p ++ s).
Proof. intros Hw Hf Hp. unfold take_some. rewrite span_app by done. by destruct w. Qed.

Lemma take_some_Some f s w r :
  take_some f s = Some (w, r) -> w <> [] /\ s = w ++ r /\ Forall (fun c => f c = true) w.
Proof.
  unfold take_some. destruct (span f s) as [l r'] eqn:Hs. apply span_spec in Hs as (-> & Hl & _).
  destruct l; [done|]. by intros [= <- <-].
Qed.

(** A numeral before a literal that starts with another character. *)
Lemma take_digits_app n p s :
  match p with c :: _ => is_digit c = false | [] => False end ->
  take_digits (show_N n ++ p ++ s) = Some (show_N n, p ++ s).
Proof.
  intros Hp. apply take_some_app; [apply show_N_nonempty|apply show_N_digits|by destruct p].
Qed.

Lemma int_of_digits_Ok d :
  d <> [] -> Forall (fun c => is_digit c = true) d -> exists n, int_of_digits d = Ok n.
Proof.
  intros Hd Hall. destruct d as [|c l]; [done|]. unfold int_of_digits.
  assert (exists u, uint_of_str (c :: l) = Some u) as [u Hu]; [|rewrite Hu; cbn; eauto].
  clear Hd. induction Hall as [|c' l' Hc _ [u IH]]; [by eexists|]. cbn [uint_of_str].
  unfold is_digit in Hc. rewrite IH. destruct (digit_of c'); [eauto|done].
Qed.

End str_lemmas.

(** ** Lines, substrings and spaces *)

Lemma str_contains_app_l s p q : str_contains s p = true -> str_contains (s ++ q) p = true.
Proof.
  induction s as [|a s IH]; cbn [str_contains app].
  - rewrite orb_false_r. rewrite startswith_spec. intros [r Hr]. symmetry in Hr.
    apply app_nil in Hr as [-> ->]. by destruct q.
  - rewrite !orb_true_iff. intros [H|H]; [|by right; apply IH].
    left. apply startswith_spec in H as [r Hr]. apply startswith_spec.
    exists (r ++ q). by rewrite (app_comm_cons s q a), Hr, <- app_assoc.
Qed.

Lemma str_contains_refl p : str_contains p p = true.
Proof.
  assert (startswith p p = true) as H by (apply startswith_spec; exists []; by rewrite app_nil_r).
  destruct p; cbn [str_contains]; by rewrite H.
Qed.

Lemma str_contains_char c s : str_contains s [c] = true <-> c ∈ s.
Proof.
  induction s as [|a s IH]; cbn [str_contains].
  - cbn. split; [done|]. intros H. by apply list.elem_of_nil in H.
  - rewrite orb_true_iff, IH, list.elem_of_cons.
    assert (startswith (a :: s) [c] = true <-> c = a) as ->; [|done].
    rewrite startswith_spec. split; [intros [r Hr]; by inversion Hr|intros ->; by exists s].
Qed.

(** Lines end where the text does or with a newline. *)
Lemma readlines_app s t :
  readlines (s ++ NL :: t) = readlines (s ++ [NL]) ++ readlines t.
Proof.
  induction s as [|c s IH]; cbn [app readlines].
  - by rewrite !decide_True.
  - case_decide; [by rewrite IH|]. rewrite IH.
    destruct (readlines (s ++ [NL])) as [|l ls] eqn:E; [|done].
    pose proof (join_readlines (s ++ [NL])) as Hj. rewrite E in Hj. by destruct s.
Qed.

Lemma readlines_line s t l ls :
  NL ∉ s -> readlines t = l :: ls -> readlines (s ++ t) = (s ++ l) :: ls.
Proof.
  intros Hs Ht. induction s as [|c s IH]; [done|]. apply not_elem_of_cons in Hs as [Hc Hs].
  cbn [app readlines]. rewrite decide_False by done. by rewrite IH.
Qed.

Lemma readlines_nl s : Forall (fun l => exists l', l = l' ++ [NL]) (readlines (s ++ [NL])).
Proof.
  induction s as [|c s IH]; cbn [app readlines].
  - rewrite decide_True by done. repeat constructor. by exists [].
  - case_decide as Hc.
    + constructor; [|done]. by exists [].
    + destruct (readlines (s ++ [NL])) as [|l ls] eqn:E.
      * pose proof (join_readlines (s ++ [NL])) as Hj. rewrite E in Hj. by destruct s.
      * apply Forall_cons in IH as [[l' ->] IH]. constructor; [|done]. by exists (c :: l').
Qed.

Definition no_space_ends (s : pystr) : Prop :=
  (forall c, head s = Some c -> is_ws c = false) /\ (forall c, last s = Some c -> is_ws c = false).

Lemma lstrip_id s : (forall c, head s = Some c -> is_ws c = false) -> lstrip s = s.
Proof. destruct s as [|c s]; cbn; [done|]. intros H. by rewrite H. Qed.

Lemma strip_spaces s t : no_space_ends s -> Forall (fun c => is_ws c = true) t -> strip (s ++ t) = s.
Proof.
  intros [Hh Hl] Ht. unfold strip. destruct s as [|c s].
  { cbn [app]. clear -Ht. induction Ht as [|d t Hd Ht IH]; [done|]. cbn [lstrip]. by rewrite Hd. }
  rewrite (lstrip_id ((c :: s) ++ t)) by exact Hh. rewrite reverse_app.
  assert (Forall (fun c => is_ws c = true) (reverse t)) as Ht' by (by apply Forall_reverse).
  assert (lstrip (reverse t ++ reverse (c :: s)) = lstrip (reverse (c :: s))) as ->.
  { induction Ht' as [|d t' Hd Ht' IH]; cbn [app lstrip]; [done|]. by rewrite Hd. }
  rewrite lstrip_id, reverse_involutive; [done|]. intros d. rewrite head_reverse. apply Hl.
Qed.

Lemma strip_id s : no_space_ends s -> strip s = s.
Proof. intros H. rewrite <- (right_id_L [] (++) s) at 1. by apply strip_spaces. Qed.

Lemma digit_not_space c : is_digit c = true -> is_ws c = false.
Proof. by destruct c as [[] [] [] [] [] [] [] []]. Qed.

Create Rewrite HintDb pylen.
#[export] Hint Rewrite @length_app @length_cons @length_drop @length_take
  @length_py_insert : pylen.

#[global] Arguments startswith : simpl never.
#[global] Arguments endswith : simpl never.
#[global] Arguments py_get : simpl never.
#[global] Arguments py_slice : simpl never.
#[global] Arguments py_from : simpl never.
#[global] Arguments py_upto : simpl never.
