(* ===== verification/StateM.v ===== *)
(** * Computations on a state that may raise

    A method that assigns attributes and may raise half-way is a function from the
    state to the state it leaves and its result: what was assigned before the
    exception stays assigned. *)

From S2P Require Import Prelude.

(** ** The monad *)

Definition stM (S A : Type) : Type := S -> S * py A.

Section monad.
Context {S : Type}.

Definition mret {A} (a : A) : stM S A := fun s => (s, Ok a).

Definition gbind {A B} (m : stM S A) (k : A -> stM S B) : stM S B := fun s =>
  match m s with (s', Ok a) => k a s' | (s', Err e) => (s', Err e) end.

(** Reading an attribute; one that may not be assigned yet; a pure computation; an
    assignment. *)
Definition mget {A} (f : S -> A) : stM S A := fun s => (s, Ok (f s)).
Definition mattr {A} (f : S -> option A) : stM S A := fun s => (s, or_raise AttributeError (f s)).
Definition mlift {A} (r : py A) : stM S A := fun s => (s, r).
Definition mset (f : S -> S) : stM S () := fun s => (f s, Ok tt).

(** [for x in l: body(x)] *)
Fixpoint mfor {A} (body : A -> stM S ()) (l : list A) : stM S () :=
  match l with
  | [] => mret tt
  | x :: l' => gbind (body x) (fun _ => mfor body l')
  end.

(** The same with a local variable that the body updates. *)
Fixpoint mfold {A B} (body : B -> A -> stM S B) (b : B) (l : list A) : stM S B :=
  match l with
  | [] => mret b
  | x :: l' => gbind (body b x) (fun b' => mfold body b' l')
  end.

(** [try: m finally: fin] *)
Definition mfinally {A} (m : stM S A) (fin : stM S ()) : stM S A := fun s =>
  let '(s', r) := m s in
  match fin s' with (s'', Ok _) => (s'', r) | (s'', Err e) => (s'', Err e) end.

End monad.

Notation "'do!' x ':=' m 'in' k" := (gbind m (fun x => k))
  (at level 200, x name, m at level 100, k at level 200) : py_scope.
Notation "'do!' ' p ':=' m 'in' k" := (gbind m (fun p => k))
  (at level 200, p strict pattern, m at level 100, k at level 200) : py_scope.
Notation "m >>> k" := (gbind m (fun _ => k)) (at level 90, right associativity) : py_scope.

(** ** Equal computations *)

Section laws.
Context {W : Type}.

Lemma gbind_ext {A B} (m m' : stM W A) (k k' : A -> stM W B) w :
  m w = m' w -> (forall a w, k a w = k' a w) -> gbind m k w = gbind m' k' w.
Proof. intros Hm Hk. unfold gbind. rewrite Hm. destruct (m' w) as [w' [a|e]]; auto. Qed.

Lemma gbind_assoc {A B C} (m : stM W A) (k : A -> stM W B) (h : B -> stM W C) w :
  gbind (gbind m k) h w = gbind m (fun a => gbind (k a) h) w.
Proof. unfold gbind. by destruct (m w) as [w' [a|e]]. Qed.

Lemma mfinally_ext {A} (m m' : stM W A) fin w : m w = m' w -> mfinally m fin w = mfinally m' fin w.
Proof. intros E. unfold mfinally. by rewrite E. Qed.

Lemma mfold_app {A B} (body : B -> A -> stM W B) b l1 l2 w :
  mfold body b (l1 ++ l2) w = gbind (mfold body b l1) (fun b' => mfold body b' l2) w.
Proof.
  revert b w. induction l1 as [|x l1 IH]; intros b w; [done|]. cbn [app mfold]. rewrite gbind_assoc.
  apply gbind_ext; [done|]. intros b' w'. apply IH.
Qed.

(** ** Computations that return

    [m] does not raise, and what it returns satisfies [P]. *)

Definition returns {A} (m : stM W A) (P : A -> Prop) : Prop :=
  forall w, exists w' a, m w = (w', Ok a) /\ P a.

Lemma returns_bind {A B} (m : stM W A) (k : A -> stM W B) P Q :
  returns m P -> (forall a, P a -> returns (k a) Q) -> returns (gbind m k) Q.
Proof.
  intros Hm Hk w. destruct (Hm w) as (w' & a & E & Ha). unfold gbind. rewrite E. by apply Hk.
Qed.

Lemma returns_ret {A} (a : A) (P : A -> Prop) : P a -> returns (mret a) P.
Proof. intros Ha w. by exists w, a. Qed.

Lemma returns_weaken {A} (m : stM W A) (P Q : A -> Prop) :
  returns m P -> (forall a, P a -> Q a) -> returns m Q.
Proof. intros Hm HPQ w. destruct (Hm w) as (w' & a & E & Ha). eauto. Qed.

Lemma returns_for {A} (body : A -> stM W ()) l :
  (forall x, returns (body x) (fun _ => True)) -> returns (mfor body l) (fun _ => True).
Proof.
  intros Hb. induction l as [|x l IH]; [by apply returns_ret|].
  eapply returns_bind; [apply Hb|]. by intros ? _.
Qed.

End laws.

(** ** What a computation keeps, whether it raises or not *)

Definition preserves {S A} (I : S -> Prop) (m : stM S A) : Prop := forall s, I s -> I (fst (m s)).

Section preserves.
Context {S : Type} (I : S -> Prop).

Lemma preserves_bind {A B} (m : stM S A) (k : A -> stM S B) :
  preserves I m -> (forall a, preserves I (k a)) -> preserves I (gbind m k).
Proof.
  intros Hm Hk s Hs. unfold gbind. specialize (Hm s Hs). destruct (m s) as [s' [a|e]]; [|done].
  by apply Hk.
Qed.

Lemma preserves_ret {A} (a : A) : preserves I (mret a).
Proof. by intros s. Qed.

Lemma preserves_get {A} (f : S -> A) : preserves I (mget f).
Proof. by intros s. Qed.

Lemma preserves_lift {A} (r : py A) : preserves I (mlift r).
Proof. by intros s. Qed.

Lemma preserves_attr {A} (f : S -> option A) : preserves I (mattr f).
Proof. by intros s. Qed.

Lemma preserves_set f : (forall s, I s -> I (f s)) -> preserves I (mset f).
Proof. intros H s. apply H. Qed.

Lemma preserves_for {A} (body : A -> stM S ()) l :
  (forall x, preserves I (body x)) -> preserves I (mfor body l).
Proof.
  intros Hb. induction l as [|x l IH]; [apply preserves_ret|].
  apply preserves_bind; [apply Hb|done].
Qed.

Lemma preserves_fold {A B} (body : B -> A -> stM S B) b l :
  (forall b x, preserves I (body b x)) -> preserves I (mfold body b l).
Proof.
  intros Hb. revert b. induction l as [|x l IH]; intros b; [apply preserves_ret|].
  apply preserves_bind; [apply Hb|]. intros b'. apply IH.
Qed.

End preserves.

(** Follows the structure of a handler; what is left are the assignments and
    the calls that have a lemma. *)
Ltac follow_step :=
  match goal with
  | |- preserves _ (mret _) => apply preserves_ret
  | |- preserves _ (mget _) => apply preserves_get
  | |- preserves _ (mlift _) => apply preserves_lift
  | |- preserves _ (mattr _) => apply preserves_attr
  | |- preserves _ (mset _) => apply preserves_set; intros ? ?
  | |- preserves _ (gbind _ _) => apply preserves_bind; [|intros ?]
  | |- preserves _ (mfor _ _) => apply preserves_for; intros ?
  | |- preserves _ (mfold _ _ _) => apply preserves_fold; intros ? ?
  | |- preserves _ (if ?b then _ else _) => destruct b
  | |- preserves _ (let '_ := ?p in _) => destruct p
  | |- preserves _ (let _ := _ in _) => cbv zeta
  end.

Ltac follow := repeat follow_step.

(** ** Computations that agree

    They leave the same state, and both raise the same or return related results. *)

Definition agrees {S A B} (R : A -> B -> Prop) (m : stM S A) (m' : stM S B) : Prop :=
  forall s, fst (m s) = fst (m' s) /\
    match snd (m s), snd (m' s) with
    | Ok a, Ok b => R a b
    | Err e, Err e' => e = e'
    | _, _ => False
    end.

Section agrees.
Context {S : Type}.

Lemma agrees_bind {A B C D} R Q (m : stM S A) (m' : stM S B) (k : A -> stM S C) (k' : B -> stM S D) :
  agrees R m m' -> (forall a b, R a b -> agrees Q (k a) (k' b)) -> agrees Q (gbind m k) (gbind m' k').
Proof.
  intros Hm Hk s. destruct (Hm s) as [E H]. unfold gbind. destruct (m s) as [s1 [a|e]], (m' s) as [s2 [b|e']];
    cbn in *; try done; subst. by apply Hk.
Qed.

Lemma agrees_ret {A B} (R : A -> B -> Prop) a b : R a b -> agrees R (mret a) (mret b : stM S B).
Proof. by intros H s. Qed.

Lemma agrees_refl {A} (m : stM S A) : agrees eq m m.
Proof. intros s. split; [done|]. by destruct (snd (m s)). Qed.

Lemma agrees_eq {A} (m m' : stM S A) s : agrees eq m m' -> m s = m' s.
Proof.
  intros H. destruct (H s) as [E H']. destruct (m s) as [s1 [a|e]], (m' s) as [s2 [b|e']]; cbn in *; try done; by subst.
Qed.

Lemma agrees_finally {A B} R (m : stM S A) (m' : stM S B) fin fin' :
  agrees R m m' -> (forall s, fin s = fin' s) -> agrees R (mfinally m fin) (mfinally m' fin').
Proof.
  intros Hm Hf s. destruct (Hm s) as [E H]. unfold mfinally. destruct (m s) as [s1 r], (m' s) as [s2 r'].
  cbn in *. subst. rewrite Hf. by destruct (fin' s2) as [s3 []].
Qed.

End agrees.

(** ** Runs that end well

    From a state where [P] holds, [m] does not raise, and [Q] holds of what it returns
    and of the state it leaves. *)

Definition runs {S A} (P : S -> Prop) (m : stM S A) (Q : A -> S -> Prop) : Prop :=
  forall s, P s -> exists s' a, m s = (s', Ok a) /\ Q a s'.

Section runs.
Context {S : Type}.

Lemma runs_bind {A B} (m : stM S A) (k : A -> stM S B) P Q R :
  runs P m Q -> (forall a, runs (Q a) (k a) R) -> runs P (gbind m k) R.
Proof.
  intros Hm Hk s Hs. destruct (Hm s Hs) as (s' & a & E & Ha). unfold gbind. rewrite E. by apply Hk.
Qed.

Lemma runs_ret {A} (a : A) (P : S -> Prop) (Q : A -> S -> Prop) : (forall s, P s -> Q a s) -> runs P (mret a) Q.
Proof. intros H s Hs. by exists s, a; auto. Qed.

Lemma runs_get {A} (f : S -> A) P : runs P (mget f) (fun a s => P s /\ a = f s).
Proof. intros s Hs. by exists s, (f s). Qed.

Lemma runs_set (f : S -> S) (P Q : S -> Prop) : (forall s, P s -> Q (f s)) -> runs P (mset f) (fun _ => Q).
Proof. intros H s Hs. exists (f s), tt. auto. Qed.

Lemma runs_lift {A} (r : py A) a (P : S -> Prop) : r = Ok a -> runs P (mlift r) (fun b s => P s /\ b = a).
Proof. intros -> s Hs. by exists s, a. Qed.

Lemma runs_weaken {A} (m : stM S A) (P P' : S -> Prop) (Q Q' : A -> S -> Prop) :
  runs P m Q -> (forall s, P' s -> P s) -> (forall a s, Q a s -> Q' a s) -> runs P' m Q'.
Proof.
  intros Hm HP HQ s Hs. destruct (Hm s (HP s Hs)) as (s' & a & E & Ha). eauto.
Qed.

(** A loop, with what holds after each part of the list. *)
Lemma runs_fold {A B} (body : B -> A -> stM S B) l (I : list A -> B -> S -> Prop) b :
  (forall done x todo b, l = done ++ x :: todo -> runs (I done b) (body b x) (fun b' => I (done ++ [x]) b')) ->
  runs (I [] b) (mfold body b l) (fun b' => I l b').
Proof.
  intros Hbody. enough (forall todo done b, l = done ++ todo ->
    runs (I done b) (mfold body b todo) (fun b' => I l b')) as H by by apply (H l [] b).
  induction todo as [|x todo IH]; intros done b' ->; cbn.
  - apply runs_ret. intros s. by rewrite (right_id_L [] (++)).
  - eapply runs_bind; [by apply (Hbody done x todo)|]. intros b''. apply IH. by rewrite <- (assoc_L (++)).
Qed.

End runs.

(** ** Runs that may raise

    From a state where [P] holds, [m] returns and [Q] holds of the result and the state,
    or it raises and [R] holds of the state. *)

Definition triple {S A} (P : S -> Prop) (m : stM S A) (Q : A -> S -> Prop) (R : S -> Prop) : Prop :=
  forall s, P s -> match m s with (s', Ok a) => Q a s' | (s', Err _) => R s' end.

Section triple.
Context {S : Type}.

Lemma triple_bind {A B} (m : stM S A) (k : A -> stM S B) P Q Q' R :
  triple P m Q R -> (forall a, triple (Q a) (k a) Q' R) -> triple P (gbind m k) Q' R.
Proof.
  intros Hm Hk s Hs. specialize (Hm s Hs). unfold gbind. destruct (m s) as [s' [a|e]]; [|done]. by apply Hk.
Qed.

Lemma triple_ret {A} (a : A) (P : S -> Prop) (Q : A -> S -> Prop) R : (forall s, P s -> Q a s) -> triple P (mret a) Q R.
Proof. intros H s. apply H. Qed.

Lemma triple_set (f : S -> S) (P Q R : S -> Prop) : (forall s, P s -> Q (f s)) -> triple P (mset f) (fun _ => Q) R.
Proof. intros H s. apply H. Qed.

Lemma triple_get {A} (f : S -> A) P R : triple P (mget f) (fun a s => P s /\ a = f s) R.
Proof. by intros s Hs. Qed.

(** A computation that reads the state and may raise. *)
Lemma triple_read {A} (f : S -> py A) (P R : S -> Prop) :
  (forall s e, P s -> f s = Err e -> R s) -> triple P (fun s => (s, f s)) (fun a s => P s /\ f s = Ok a) R.
Proof.
  intros H s Hs. generalize (H s). destruct (f s) as [a|e] eqn:E; [done|]. intros H'. by apply (H' e).
Qed.

Lemma triple_weaken {A} (m : stM S A) (P P' : S -> Prop) (Q Q' : A -> S -> Prop) (R R' : S -> Prop) :
  triple P m Q R -> (forall s, P' s -> P s) -> (forall a s, Q a s -> Q' a s) -> (forall s, R s -> R' s) ->
  triple P' m Q' R'.
Proof.
  intros Hm HP HQ HR s Hs. specialize (Hm s (HP s Hs)). destruct (m s) as [s' [a|e]]; auto.
Qed.

Lemma triple_for {A} (body : A -> stM S ()) l (I R : S -> Prop) :
  (forall x, x ∈ l -> triple I (body x) (fun _ => I) R) -> triple I (mfor body l) (fun _ => I) R.
Proof.
  induction l as [|x l IH]; intros Hb; cbn; [by apply triple_ret|].
  eapply triple_bind; [apply Hb; by left|]. intros []. apply IH. intros y Hy. apply Hb. by right.
Qed.

Lemma triple_fold {A B} (body : B -> A -> stM S B) l (I : list A -> B -> S -> Prop) R b :
  (forall done x todo b, l = done ++ x :: todo ->
     triple (I done b) (body b x) (fun b' => I (done ++ [x]) b') R) ->
  triple (I [] b) (mfold body b l) (fun b' => I l b') R.
Proof.
  intros Hbody. enough (forall todo done b, l = done ++ todo ->
    triple (I done b) (mfold body b todo) (fun b' => I l b') R) as H by by apply (H l [] b).
  induction todo as [|x todo IH]; intros done b' ->; cbn.
  - apply triple_ret. intros s. by rewrite (right_id_L [] (++)).
  - eapply triple_bind; [by apply (Hbody done x todo)|]. intros b''. apply IH. by rewrite <- (assoc_L (++)).
Qed.

(** Without an exception it runs to its end. *)
Lemma triple_runs {A} (m : stM S A) (P : S -> Prop) (Q : A -> S -> Prop) :
  triple P m Q (fun _ => False) -> runs P m Q.
Proof. intros H s Hs. specialize (H s Hs). destruct (m s) as [s' [a|e]]; [eauto|done]. Qed.

Lemma triple_preserves {A} (m : stM S A) (I : S -> Prop) :
  triple I m (fun _ => I) I <-> preserves I m.
Proof. unfold triple, preserves. split; intros H s Hs; specialize (H s Hs); destruct (m s) as [s' [a|e]]; exact H. Qed.

End triple.
