(* ===== verification/PyDict.v ===== *)
(** * Python dictionaries

    What the modelled code uses of a [dict]: the class [PyDict] states it as an
    interface, so that a client's theorems hold whatever order the interpreter
    enumerates the keys in (Python 2 promises none, and the order may depend on
    the history of the dictionary).  Two implementations discharge it: [adict],
    insertion ordered like the [dict] of Python 3.7, and [gmap], which
    enumerates its keys in an order of its own. *)

From S2P Require Import Prelude.

Class PyDict (K : Type) (D : Type -> Type) := {
  d_empty : forall {V}, D V;
  d_get : forall {V}, D V -> K -> option V;          (* d.get(k), has_key *)
  d_set : forall {V}, K -> V -> D V -> D V;          (* d[k] = v *)
  d_del : forall {V}, K -> D V -> D V;               (* del d[k] *)
  d_keys : forall {V}, D V -> list K                 (* d.keys() *)
}.

#[export] Hint Mode PyDict - ! : typeclass_instances.

Class PyDictLaws (K : Type) (D : Type -> Type) `{EqDecision K, PyDict K D} := {
  d_get_empty : forall V k, d_get (d_empty : D V) k = None;
  d_get_set : forall V k k' (v : V) (d : D V),
    d_get (d_set k v d) k' = if decide (k = k') then Some v else d_get d k';
  d_get_del : forall V k k' (d : D V),
    d_get (d_del k d) k' = if decide (k = k') then None else d_get d k';
  d_keys_nodup : forall V (d : D V), NoDup (d_keys d);
  d_keys_spec : forall V (d : D V) k, k ∈ d_keys d <-> is_Some (d_get d k)
}.

(** [d[k]] and [del d[k]] raise [KeyError] on a missing key. *)
Definition d_item `{PyDict K D} {V} (d : D V) (k : K) : py V :=
  or_raise KeyError (d_get d k).

Definition d_delitem `{PyDict K D} {V} (k : K) (d : D V) : py (D V) :=
  match d_get d k with
  | Some _ => Ok (d_del k d)
  | None => Err KeyError
  end.

(** Building a dictionary from its items, in order. *)
Definition d_of_list `{PyDict K D} {V} (l : list (K * V)) : D V :=
  foldl (fun d kv => d_set kv.1 kv.2 d) d_empty l.

Definition d_size `{PyDict K D} {V} (d : D V) : nat := length (d_keys d).

Section derived.
Context `{PyDictLaws K D}.

Lemma d_get_set_eq {V} k (v : V) (d : D V) : d_get (d_set k v d) k = Some v.
Proof. by rewrite d_get_set, decide_True. Qed.

Lemma d_get_set_ne {V} k k' (v : V) (d : D V) :
  k <> k' -> d_get (d_set k v d) k' = d_get d k'.
Proof. intros. by rewrite d_get_set, decide_False. Qed.

Lemma d_get_del_ne {V} k k' (d : D V) :
  k <> k' -> d_get (d_del k d) k' = d_get d k'.
Proof. intros. by rewrite d_get_del, decide_False. Qed.

Lemma d_item_Ok {V} (d : D V) k v : d_item d k = Ok v <-> d_get d k = Some v.
Proof. apply or_raise_Ok. Qed.

Lemma d_keys_set {V} k (v : V) (d : D V) k' :
  k' ∈ d_keys (d_set k v d) <-> k' = k \/ k' ∈ d_keys d.
Proof.
  rewrite !d_keys_spec, d_get_set. case_decide; subst; split; eauto.
  intros [->|]; [done|done].
Qed.

Lemma d_keys_del {V} k (d : D V) k' :
  k' ∈ d_keys (d_del k d) <-> k' <> k /\ k' ∈ d_keys d.
Proof.
  rewrite !d_keys_spec, d_get_del. case_decide; subst; split.
  - by intros [? ?].
  - by intros [? _].
  - eauto.
  - by intros [_ ?].
Qed.

Lemma d_keys_del_perm {V} k (d : D V) :
  k ∈ d_keys d -> d_keys d ≡ₚ k :: d_keys (d_del k d).
Proof.
  intros Hk. apply NoDup_Permutation.
  - apply d_keys_nodup.
  - constructor; [|apply d_keys_nodup]. rewrite d_keys_del. naive_solver.
  - intros x. rewrite elem_of_cons, d_keys_del.
    destruct (decide (x = k)); naive_solver.
Qed.

Lemma d_keys_nil {V} (d : D V) : d_keys d = [] <-> forall k, d_get d k = None.
Proof.
  split.
  - intros Hd k. destruct (d_get d k) eqn:E; [|done].
    assert (k ∈ d_keys d) as Hk by (rewrite d_keys_spec; eauto).
    rewrite Hd in Hk. by apply elem_of_nil in Hk.
  - intros Hd. destruct (d_keys d) as [|k l] eqn:E; [done|].
    assert (k ∈ d_keys d) as Hk by (rewrite E; left).
    rewrite d_keys_spec, Hd in Hk. by destruct Hk.
Qed.

End derived.

(** ** Insertion-ordered dictionaries *)

Module AList.

Fixpoint aget {K V} `{EqDecision K} (l : list (K * V)) (k : K) : option V :=
  match l with
  | [] => None
  | (k', v) :: l' => if decide (k' = k) then Some v else aget l' k
  end.

(** Replaces the value in place, or appends a new item. *)
Fixpoint aset {K V} `{EqDecision K} (k : K) (v : V) (l : list (K * V))
  : list (K * V) :=
  match l with
  | [] => [(k, v)]
  | (k', v') :: l' =>
      if decide (k' = k) then (k, v) :: l' else (k', v') :: aset k v l'
  end.

Fixpoint adel {K V} `{EqDecision K} (k : K) (l : list (K * V)) : list (K * V) :=
  match l with
  | [] => []
  | (k', v') :: l' => if decide (k' = k) then adel k l' else (k', v') :: adel k l'
  end.

Section lemmas.
Context {K V : Type} `{EqDecision K}.
Implicit Types l : list (K * V).

Lemma aset_keys k v l x : x ∈ (aset k v l).*1 <-> x = k \/ x ∈ l.*1.
Proof.
  induction l as [|[k' v'] l IH]; cbn; [set_solver|].
  case_decide; subst; cbn; rewrite ?elem_of_cons, ?IH; tauto.
Qed.

Lemma aset_nodup k v l : NoDup l.*1 -> NoDup (aset k v l).*1.
Proof.
  induction l as [|[k' v'] l IH]; cbn; intros Hl; [constructor; set_solver|].
  apply list.NoDup_cons in Hl as [Hk Hl]. case_decide; subst; cbn.
  - by constructor.
  - constructor; [|auto]. rewrite aset_keys. naive_solver.
Qed.

Lemma adel_keys k l x : x ∈ (adel k l).*1 -> x ∈ l.*1.
Proof.
  induction l as [|[k' v'] l IH]; cbn; [done|].
  case_decide; cbn; rewrite ?elem_of_cons; tauto.
Qed.

Lemma adel_nodup k l : NoDup l.*1 -> NoDup (adel k l).*1.
Proof.
  induction l as [|[k' v'] l IH]; cbn; intros Hl; [done|].
  apply list.NoDup_cons in Hl as [Hk Hl]. case_decide; cbn; [auto|].
  constructor; [|auto]. intros ?%adel_keys. done.
Qed.

Lemma aget_aset k k' v l :
  aget (aset k v l) k' = if decide (k = k') then Some v else aget l k'.
Proof.
  induction l as [|[k'' v''] l IH]; cbn; [done|].
  destruct (decide (k'' = k)); subst; cbn; [by destruct (decide (k = k'))|].
  rewrite IH. destruct (decide (k'' = k')), (decide (k = k')); congruence.
Qed.

Lemma aget_adel k k' l :
  aget (adel k l) k' = if decide (k = k') then None else aget l k'.
Proof.
  induction l as [|[k'' v''] l IH]; cbn; [by case_decide|].
  destruct (decide (k'' = k)); subst; cbn.
  - rewrite IH. by destruct (decide (k = k')).
  - rewrite IH. destruct (decide (k'' = k')), (decide (k = k')); congruence.
Qed.

Lemma aget_keys l k : k ∈ l.*1 <-> is_Some (aget l k).
Proof.
  induction l as [|[k' v'] l IH]; cbn.
  - split; [by intros ?%elem_of_nil|by intros [? ?]].
  - rewrite elem_of_cons, IH. case_decide; subst; [by split; eauto|].
    split; [intros [|]; congruence|tauto].
Qed.

End lemmas.
End AList.

(** An insertion-ordered dictionary: its items, no key twice. *)
Record adict (K V : Type) `{EqDecision K} : Type := ADict {
  items : list (K * V);
  items_nodup : NoDup items.*1
}.
Arguments ADict {K V _} _ _.
Arguments items {K V _} _.
Arguments items_nodup {K V _} _.

Section adict_instance.
Context {K : Type} `{EqDecision K}.

#[export] Instance adict_dict : PyDict K (fun V => adict K V) := {
  d_empty V := ADict [] (NoDup_nil_2 (A := K));
  d_get V d k := AList.aget (items d) k;
  d_set V k v d :=
    ADict (AList.aset k v (items d)) (AList.aset_nodup k v _ (items_nodup d));
  d_del V k d := ADict (AList.adel k (items d)) (AList.adel_nodup k _ (items_nodup d));
  d_keys V d := (items d).*1
}.

#[export] Instance adict_laws : PyDictLaws K (fun V => adict K V).
Proof.
  split; intros; cbn.
  - done.
  - apply AList.aget_aset.
  - apply AList.aget_adel.
  - apply items_nodup.
  - apply AList.aget_keys.
Qed.

End adict_instance.

(** ** Dictionaries in the key order of a [gmap] *)

Section gmap_instance.
Context {K : Type} `{Countable K}.

#[export] Instance gmap_dict : PyDict K (fun V => gmap K V) := {
  d_empty V := ∅;
  d_get V d k := d !! k;
  d_set V k v d := <[k := v]> d;
  d_del V k d := delete k d;
  d_keys V d := (map_to_list d).*1
}.

#[export] Instance gmap_laws : PyDictLaws K (fun V => gmap K V).
Proof.
  split; intros; cbn.
  - apply lookup_empty.
  - by rewrite lookup_insert.
  - by rewrite lookup_delete.
  - apply NoDup_fst_map_to_list.
  - rewrite list_elem_of_fmap. split.
    + intros ([k' v] & -> & Hv%elem_of_map_to_list). eauto.
    + intros [v Hv]. exists (k, v). by rewrite elem_of_map_to_list.
Qed.

End gmap_instance.

(** ** Dictionaries of strings that keep the order of insertion *)

Fixpoint dict_set (k v : pystr) (d : list (pystr * pystr)) : list (pystr * pystr) :=
  match d with
  | [] => [(k, v)]
  | (k', v') :: d' => if decide (k' = k) then (k, v) :: d' else (k', v') :: dict_set k v d'
  end.

Fixpoint dict_get (k : pystr) (d : list (pystr * pystr)) : option pystr :=
  match d with
  | [] => None
  | (k', v) :: d' => if decide (k' = k) then Some v else dict_get k d'
  end.

(** [d.update(d')] *)
Definition dict_update (d d' : list (pystr * pystr)) : list (pystr * pystr) :=
  foldl (fun d kv => dict_set kv.1 kv.2 d) d d'.

Lemma dict_get_set k v k' d :
  dict_get k' (dict_set k v d) = if decide (k = k') then Some v else dict_get k' d.
Proof.
  induction d as [|[k0 v0] d IH]; cbn; [done|].
  destruct (decide (k0 = k)) as [->|Hk]; cbn; [by repeat case_decide|].
  rewrite IH. repeat case_decide; congruence.
Qed.

Lemma dict_get_None k d : k ∉ d.*1 -> dict_get k d = None.
Proof.
  induction d as [|[k' v] d IH]; cbn; [done|]. intros Hk. rewrite decide_False by set_solver.
  apply IH. set_solver.
Qed.

(** The values of [d'], over those of [d]. *)
Lemma dict_get_update k d d' :
  NoDup d'.*1 ->
  dict_get k (dict_update d d') = match dict_get k d' with Some v => Some v | None => dict_get k d end.
Proof.
  unfold dict_update. revert d. induction d' as [|[k' v] d' IH]; intros d Hnd; cbn; [done|].
  apply NoDup_cons in Hnd as [Hk Hnd]. rewrite IH by done. rewrite dict_get_set.
  case_decide as E; [|done]. subst k'. by rewrite dict_get_None.
Qed.
