(* ===== verification/OsPath.v ===== *)
(** * POSIX paths: the functions of [os.path] the code uses *)

From S2P Require Import Prelude.

(** [os.path.join(a, b)] *)
Definition os_path_join (a b : pystr) : pystr :=
  if startswith b $"/" then b
  else if bool_decide (a = []) || endswith a $"/" then a ++ b
  else a ++ $"/" ++ b.

(** [os.path.basename(p)]: what follows the last slash. *)
Definition os_path_basename (p : pystr) : pystr :=
  default [] (last (split_on "/"%char p)).

(** [os.path.split(p)]: what the last slash separates; the slashes at the end of the head
    are dropped unless it is all slashes. *)
Definition is_slash (c : ascii) : bool := bool_decide (c = "/"%char).

Definition os_path_split (p : pystr) : pystr * pystr :=
  let '(tail, head) := span (fun c => negb (is_slash c)) (reverse p) in
  (reverse (if forallb is_slash head then head else snd (span is_slash head)), reverse tail).

Lemma split_on_app_sep c s1 s2 : split_on c (s1 ++ c :: s2) = split_on c s1 ++ split_on c s2.
Proof.
  induction s1 as [|a s1 IH]; cbn; [by rewrite decide_True|].
  case_decide; [by rewrite IH|]. rewrite IH.
  destruct (split_on c s1) as [|w ws] eqn:E; [by apply split_on_nonempty in E|]. done.
Qed.

Lemma os_path_basename_no_sep p : "/"%char ∉ p -> os_path_basename p = p.
Proof. intros Hp. unfold os_path_basename. by rewrite split_on_no. Qed.

Lemma os_path_basename_app a b : os_path_basename (a ++ "/"%char :: b) = os_path_basename b.
Proof.
  unfold os_path_basename. rewrite split_on_app_sep.
  destruct (split_on "/"%char b) as [|w ws] eqn:E; [by apply split_on_nonempty in E|].
  by rewrite last_app_cons.
Qed.

Lemma endswith_spec s p : endswith s p = true <-> exists r, s = r ++ p.
Proof.
  unfold endswith. rewrite startswith_spec. split; intros [r Hr].
  - exists (reverse r). by rewrite <- (reverse_involutive s), Hr, reverse_app, reverse_involutive.
  - exists (reverse r). by rewrite Hr, reverse_app.
Qed.

(** Joining a relative path keeps its last component. *)
Lemma os_path_basename_join a b :
  startswith b $"/" = false -> os_path_basename (os_path_join a b) = os_path_basename b.
Proof.
  intros Hb. unfold os_path_join. rewrite Hb.
  destruct (bool_decide (a = []) || endswith a $"/") eqn:Ha.
  - apply orb_true_iff in Ha as [->%bool_decide_eq_true|[r ->]%endswith_spec]; [done|].
    rewrite <- (assoc_L app). apply os_path_basename_app.
  - apply os_path_basename_app.
Qed.

(** ** Normal forms: [normpath], [abspath], [relpath]

    The two leading slashes that POSIX keeps apart are kept as the code of
    [posixpath] keeps them. *)

Definition norm_comp (absolute : bool) (comps : list pystr) (comp : pystr) : list pystr :=
  if bool_decide (comp = []) || bool_decide (comp = $".") then comps
  else if negb (bool_decide (comp = $"..")) ||
          (negb absolute && bool_decide (comps = [])) ||
          bool_decide (last comps = Some $"..") then comps ++ [comp]
  else removelast comps.

Definition os_path_normpath (p : pystr) : pystr :=
  let slashes :=
    if startswith p ($"//") && negb (startswith p ($"///")) then $"//"
    else if startswith p ($"/") then $"/" else [] in
  let comps := foldl (norm_comp (startswith p ($"/"))) [] (split_on "/"%char p) in
  let r := slashes ++ join ($"/") comps in
  if decide (r = []) then $"." else r.

Definition os_path_abspath (cwd p : pystr) : pystr := os_path_normpath (os_path_join cwd p).

Fixpoint common_prefix_len (l1 l2 : list pystr) : nat :=
  match l1, l2 with
  | a :: l1', b :: l2' => if decide (a = b) then S (common_prefix_len l1' l2') else 0
  | _, _ => 0
  end.

(** [os.path.relpath(path, start)] *)
Definition os_path_relpath (cwd path start : pystr) : py pystr :=
  if decide (path = []) then Err ValueError else
  let comps p := filter (fun w => w <> []) (split_on "/"%char (os_path_abspath cwd p)) in
  let i := common_prefix_len (comps start) (comps path) in
  let rel := replicate (length (comps start) - i) ($"..") ++ drop i (comps path) in
  if decide (rel = []) then Ok ($".") else Ok (join ($"/") rel).

Example relpath_build :
  os_path_relpath ($"/ns") ($"build/examples/tcp") ($"build") = Ok ($"examples/tcp").
Proof. vm_compute. reflexivity. Qed.

Example relpath_up :
  os_path_relpath ($"/ns") ($"/ns/./src//a/../b") ($"build/x") = Ok ($"../../src/b").
Proof. vm_compute. reflexivity. Qed.
