(* ===== verification/PyFloat.v ===== *)
(** * Floats as exact rationals

    The conversions of a float that the code uses: [int], [round], and the formats
    [%.nf] and [%.ng].  A float is the rational it stands for; the results are those of
    the exact number, as C and Python round them. *)

From Stdlib Require Import QArith Qround Qabs Qpower Lqa DecimalFacts DecimalN.
From S2P Require Import Prelude.

(** [int(q)] drops the fraction. *)
Definition int (q : Q) : Z := Z.quot (Qnum q) (Zpos (Qden q)).

Definition toQ (n : N) : Q := inject_Z (Z.of_N n).

Definition pow10 (n : nat) : Z := 10 ^ Z.of_nat n.

(** To the nearest integer, ties to even, of a number that is not negative. *)
Definition round_half_even (q : Q) : Z :=
  let f := Qfloor q in
  let rest := (q - inject_Z f)%Q in
  match (rest ?= 1 # 2)%Q with
  | Lt => f
  | Gt => f + 1
  | Eq => if Z.even f then f else f + 1
  end.

(** [round(q, dp)] of Python 2: ties away from zero. *)
Definition round_to (dp : nat) (q : Q) : Q :=
  let m := Qfloor (Qabs q * inject_Z (pow10 dp) + (1 # 2))%Q in
  let r := (inject_Z m / inject_Z (pow10 dp))%Q in
  if Qle_bool 0 q then r else (- r)%Q.

Definition zero_digit : ascii := "0"%char.

(** The last [n] digits of a number, with zeros before. *)
Definition pad (n : nat) (s : pystr) : pystr := replicate (n - length s) zero_digit ++ s.

Definition minus_sign (q : Q) : pystr := if Qle_bool 0 q then [] else $"-".

(** [m / 10^dp] with [dp] decimals. *)
Definition decimals (dp : nat) (m : Z) : pystr :=
  match dp with
  | O => show_N (Z.to_N m)
  | _ => show_N (Z.to_N (m / pow10 dp)) ++ $"." ++ pad dp (show_N (Z.to_N (m mod pow10 dp)))
  end.

(** ["%.<dp>f" % q] *)
Definition show_fixed (dp : nat) (q : Q) : pystr :=
  minus_sign q ++ decimals dp (round_half_even (Qabs q * inject_Z (pow10 dp))%Q).

(** ** Powers of ten *)

(** The number of decimal digits. *)
Definition digits (n : Z) : Z := Z.of_nat (length (show_N (Z.to_N n))).

(** 10 to an integer. *)
Definition q10 (e : Z) : Q := if Z.leb 0 e then inject_Z (10 ^ e) else (1 / inject_Z (10 ^ (- e)))%Q.

(** The integer part of the logarithm of a positive number. *)
Definition floor_log10 (q : Q) : Z :=
  (if Qle_bool 1 q then digits (Qfloor q) - 1 else - digits (Qceiling (1 / q)%Q - 1))%Z.

(** ** [%g] *)

Definition drop_zeros (s : pystr) : pystr :=
  if str_contains s $"." then
    let r := snd (span (fun c => Ascii.eqb c zero_digit) (reverse s)) in
    reverse (match r with "."%char :: r' => r' | _ => r end)
  else s.

Definition show_exponent (e : Z) : pystr :=
  (if Z.leb 0 e then $"e+" else $"e-") ++ pad 2 (show_N (Z.to_N (Z.abs e))).

(** ["%.<p>g" % q] *)
Definition show_general (p : nat) (q : Q) : pystr :=
  let p := Z.max 1 (Z.of_nat p) in
  if Qeq_bool q 0 then minus_sign q ++ $"0"
  else
    let a := Qabs q in
    let e := floor_log10 a in
    let m := round_half_even (a * q10 (p - 1 - e))%Q in
    let '(e, m) := (if Z.leb (10 ^ p) m then (e + 1, 10 ^ (p - 1)) else (e, m))%Z in
    minus_sign q ++
    (if Z.leb (-4) e && Z.ltb e p then
       drop_zeros (show_fixed (Z.to_nat (p - 1 - e)) (inject_Z m * q10 (e - (p - 1)))%Q)
     else drop_zeros (decimals (Z.to_nat (p - 1)) m) ++ show_exponent e).

(** ** Lemmas *)

Lemma int_floor q : (0 <= q)%Q -> int q = Qfloor q.
Proof.
  destruct q as [n d]. unfold Qle, int, Qfloor. cbn. intros H. apply Z.quot_div_nonneg; lia.
Qed.

Lemma int_bounds q : (0 <= q)%Q -> (inject_Z (int q) <= q)%Q /\ (q < inject_Z (int q + 1))%Q.
Proof.
  intros H. rewrite int_floor by done. split; [apply Qfloor_le|]. apply Qlt_floor.
Qed.

Lemma round_half_even_near q :
  (0 <= q)%Q -> (Qabs (inject_Z (round_half_even q) - q) <= 1 # 2)%Q.
Proof.
  intros Hq. unfold round_half_even. pose proof (Qfloor_le q) as H1. pose proof (Qlt_floor q) as H2.
  rewrite inject_Z_plus in H2. apply Qabs_Qle_condition.
  destruct (q - inject_Z (Qfloor q) ?= 1 # 2)%Q eqn:E; [apply Qeq_alt in E|apply Qlt_alt in E|apply Qgt_alt in E].
  - destruct (Z.even _); rewrite ?inject_Z_plus; change (inject_Z 1) with 1%Q in *; split; lra.
  - split; lra.
  - rewrite inject_Z_plus. change (inject_Z 1) with 1%Q in *. split; lra.
Qed.

Lemma show_fixed_nonneg dp q : (0 <= q)%Q ->
  exists m, show_fixed dp q = decimals dp m /\ (Qabs (inject_Z m - q * inject_Z (pow10 dp)) <= 1 # 2)%Q.
Proof.
  intros Hq. exists (round_half_even (Qabs q * inject_Z (pow10 dp))%Q). unfold show_fixed, minus_sign.
  rewrite (proj2 (Qle_bool_iff 0 q) Hq). split; [done|].
  assert (0 <= Qabs q * inject_Z (pow10 dp))%Q as H0.
  { apply Qmult_le_0_compat; [apply Qabs_nonneg|]. change 0%Q with (inject_Z 0). rewrite <- Zle_Qle.
    unfold pow10. lia. }
  pose proof (round_half_even_near _ H0) as H. generalize dependent (round_half_even (Qabs q * inject_Z (pow10 dp))%Q).
  intros m H. by rewrite (Qabs_pos q Hq) in H.
Qed.

(** ** Logarithms *)

Lemma of_uint_acc_bounds d acc :
  (Z.pos acc * 10 ^ Z.of_nat (length (show_uint d)) <= Z.pos (Pos.of_uint_acc d acc) <
   (Z.pos acc + 1) * 10 ^ Z.of_nat (length (show_uint d)))%Z.
Proof.
  revert acc. induction d as [|d IH|d IH|d IH|d IH|d IH|d IH|d IH|d IH|d IH|d IH]; intros acc; cbn [show_uint Pos.of_uint_acc length];
    [cbn; lia|rewrite Nat2Z.inj_succ, Z.pow_succ_r by lia..];
    match goal with |- context [Pos.of_uint_acc d ?a] => specialize (IH a) end;
    pose proof (Z.pow_pos_nonneg 10 (Z.of_nat (length (show_uint d)))); nia.
Qed.

(** The number of digits of a positive number. *)
Lemma digits_bounds n : (0 < n)%Z -> (10 ^ (digits n - 1) <= n < 10 ^ digits n)%Z.
Proof.
  intros Hn. unfold digits, show_N. set (d := N.to_uint (Z.to_N n)).
  assert (N.of_uint d = Z.to_N n) as Hd by apply Unsigned.of_to.
  assert (Decimal.unorm d = d) as Hu by (rewrite <- Unsigned.to_of; by rewrite Hd).
  assert (forall k l, (1 <= Z.pos k <= 9)%Z -> N.pos (Pos.of_uint_acc l k) = Z.to_N n ->
    let L := Z.of_nat (S (length (show_uint l))) in (10 ^ (L - 1) <= n < 10 ^ L)%Z) as H.
  { intros k l Hk Hl. cbv zeta. rewrite Nat2Z.inj_succ. unfold Z.succ. rewrite Z.add_simpl_r, Z.pow_add_r, Z.pow_1_r by lia.
    pose proof (of_uint_acc_bounds l k). pose proof (Z.pow_pos_nonneg 10 (Z.of_nat (length (show_uint l)))).
    assert (n = Z.pos (Pos.of_uint_acc l k)) as -> by lia. nia. }
  destruct d as [|d|d|d|d|d|d|d|d|d|d]; cbn [show_uint length]; cbn in Hd; [lia| |by (eapply H; [|exact Hd]; lia)..].
  exfalso. unfold Decimal.unorm in Hu. destruct (Decimal.nzhead (Decimal.D0 d)) eqn:E; try done.
  - injection Hu as <-. cbn in Hd. lia.
  - by apply nzhead_nonzero in E.
Qed.

Lemma q10_nonneg e : (0 <= e)%Z -> q10 e = inject_Z (10 ^ e).
Proof. intros H. unfold q10. by rewrite (proj2 (Z.leb_le 0 e) H). Qed.

Lemma q10_pos e : (0 < q10 e)%Q.
Proof.
  unfold q10. destruct (Z.leb_spec 0 e) as [H|H].
  - change 0%Q with (inject_Z 0). rewrite <- Zlt_Qlt. apply Z.pow_pos_nonneg; lia.
  - assert (0 < inject_Z (10 ^ - e))%Q as Hp.
    { change 0%Q with (inject_Z 0). rewrite <- Zlt_Qlt. apply Z.pow_pos_nonneg; lia. }
    apply Qlt_shift_div_l; lra.
Qed.

Lemma q10_power e : (q10 e == Qpower 10 e)%Q.
Proof.
  unfold q10. change 10%Q with (inject_Z 10). destruct (Z.leb_spec 0 e) as [H|H].
  - by apply Zpower_Qpower.
  - rewrite Zpower_Qpower by lia. rewrite Qpower_opp. unfold Qdiv. rewrite Qinv_involutive. ring.
Qed.

Lemma q10_add e k : (q10 (e + k) == q10 e * q10 k)%Q.
Proof. rewrite !q10_power. by apply Qpower_plus. Qed.

Lemma q10_opp e : (q10 (- e) == / q10 e)%Q.
Proof. rewrite !q10_power. apply Qpower_opp. Qed.

Lemma floor_log10_spec q : (0 < q)%Q -> (q10 (floor_log10 q) <= q)%Q /\ (q < q10 (floor_log10 q + 1))%Q.
Proof.
  intros Hq. unfold floor_log10. destruct (Qle_bool 1 q) eqn:E.
  - apply Qle_bool_iff in E. assert (1 <= Qfloor q)%Z as Hf by (rewrite <- (Qfloor_Z 1); by apply Qfloor_resp_le).
    destruct (digits_bounds (Qfloor q)) as [H1 H2]; [lia|].
    assert (1 <= digits (Qfloor q))%Z as Hd.
    { destruct (Z.lt_ge_cases (digits (Qfloor q)) 1) as [Hlt|]; [|done].
      assert (digits (Qfloor q) = 0)%Z as E0 by (unfold digits in *; lia). rewrite E0 in H2. cbn in H2. lia. }
    rewrite Z.sub_add, !q10_nonneg by lia. split.
    + apply Qle_trans with (inject_Z (Qfloor q)); [rewrite <- Zle_Qle; lia|apply Qfloor_le].
    + apply Qlt_le_trans with (inject_Z (Qfloor q + 1)); [apply Qlt_floor|rewrite <- Zle_Qle; lia].
  - assert (q < 1)%Q as H1 by (apply Qnot_le_lt; intros H%Qle_bool_iff; by rewrite H in E).
    set (m := (Qceiling (1 / q) - 1)%Z). set (d := digits m).
    assert (1 < 1 / q)%Q as Hinv by (apply Qlt_shift_div_l; lra).
    pose proof (Qle_ceiling (1 / q)) as Hc1. pose proof (Qceiling_lt (1 / q)) as Hc2.
    assert (0 < m)%Z as Hm.
    { assert (inject_Z 1 < inject_Z (Qceiling (1 / q)))%Q as H by (change (inject_Z 1) with 1%Q; lra).
      rewrite <- Zlt_Qlt in H. unfold m. lia. }
    destruct (digits_bounds m Hm) as [H2 H3]. fold d in H2, H3.
    assert (1 <= d)%Z as Hd.
    { destruct (Z.lt_ge_cases d 1) as [Hlt|]; [|done]. assert (d = 0)%Z as E0 by (unfold d, digits in *; lia).
      rewrite E0 in H3. cbn in H3. lia. }
    replace (- d + 1)%Z with (- (d - 1))%Z by lia. rewrite !q10_opp, !q10_nonneg by lia.
    assert (1 / q <= inject_Z (10 ^ d))%Q as Hle.
    { apply Qle_trans with (inject_Z (m + 1)); [|rewrite <- Zle_Qle; lia]. unfold m. by rewrite Z.sub_add. }
    assert (inject_Z (10 ^ (d - 1)) < 1 / q)%Q as Hlt.
    { apply Qle_lt_trans with (inject_Z m); [rewrite <- Zle_Qle; lia|done]. }
    assert (1 <= inject_Z (10 ^ (d - 1)))%Q as Hone.
    { change 1%Q with (inject_Z 1). rewrite <- Zle_Qle. pose proof (Z.pow_pos_nonneg 10 (d - 1)). lia. }
    assert (1 / q * q == 1)%Q as Eq by (field; lra).
    generalize dependent (1 / q)%Q. intros r **. split.
    + assert (/ inject_Z (10 ^ d) * inject_Z (10 ^ d) == 1)%Q as Ei by (rewrite Qmult_comm; apply Qmult_inv_r; lra).
      assert (0 < / inject_Z (10 ^ d))%Q by (apply Qinv_lt_0_compat; lra).
      generalize dependent (/ inject_Z (10 ^ d))%Q. intros i **. nra.
    + assert (/ inject_Z (10 ^ (d - 1)) * inject_Z (10 ^ (d - 1)) == 1)%Q as Ei by (rewrite Qmult_comm; apply Qmult_inv_r; lra).
      assert (0 < / inject_Z (10 ^ (d - 1)))%Q by (apply Qinv_lt_0_compat; lra).
      generalize dependent (/ inject_Z (10 ^ (d - 1)))%Q. intros i **. nra.
Qed.

Example show_fixed_half : show_fixed 0 (1 # 2) = $"0" /\ show_fixed 2 (1 # 3) = $"0.33" /\ show_fixed 1 (-5 # 4) = $"-1.2".
Proof. by vm_compute. Qed.

Example show_general_examples :
  show_general 3 (1234 # 1) = $"1.23e+03" /\ show_general 3 (1 # 8) = $"0.125" /\ show_general 2 (1 # 100000) = $"1e-05" /\
  show_general 3 (100 # 1) = $"100" /\ show_general 2 (999 # 1000) = $"1" /\ show_general 6 (3 # 2) = $"1.5".
Proof. by vm_compute. Qed.

(** ** Formats of integers *)

#[export] Instance round_half_even_proper : Proper (Qeq ==> eq) round_half_even.
Proof. intros q r E. unfold round_half_even. rewrite (Qfloor_comp _ _ E). by setoid_rewrite E. Qed.

#[export] Instance show_fixed_proper dp : Proper (Qeq ==> eq) (show_fixed dp).
Proof.
  intros q r E. unfold show_fixed, minus_sign. f_equal.
  - assert (Qle_bool 0 q = Qle_bool 0 r) as -> by (apply Bool.eq_true_iff_eq; rewrite !Qle_bool_iff; by rewrite E). done.
  - f_equal. by rewrite E.
Qed.

Lemma round_half_even_Z z : round_half_even (inject_Z z) = z.
Proof.
  unfold round_half_even. rewrite Qfloor_Z. assert (inject_Z z - inject_Z z == 0)%Q as E by ring. by rewrite E.
Qed.

Lemma pad_zero n : pad n (show_N 0) = if decide (n = 0)%nat then $"0" else replicate n zero_digit.
Proof.
  unfold pad. change (show_N 0) with $"0". destruct n as [|n]; [done|]. rewrite decide_False by done.
  cbn [length list_ascii_of_string]. rewrite Nat.sub_1_r. cbn [Nat.pred].
  change $"0" with [zero_digit]. by rewrite <- replicate_cons_app.
Qed.

Lemma decimals_Z dp z : (0 <= z)%Z ->
  decimals dp (z * pow10 dp) = show_N (Z.to_N z) ++ (if decide (dp = 0)%nat then [] else $"." ++ replicate dp zero_digit).
Proof.
  intros Hz. unfold decimals. destruct dp as [|dp]; [by rewrite app_nil_r, Z.mul_1_r|].
  assert (0 < pow10 (S dp))%Z by (unfold pow10; lia). rewrite Z.div_mul, Z.mod_mul by lia. by rewrite pad_zero, !decide_False.
Qed.

Lemma show_fixed_Z dp z : (0 <= z)%Z ->
  show_fixed dp (inject_Z z) = show_N (Z.to_N z) ++ (if decide (dp = 0)%nat then [] else $"." ++ replicate dp zero_digit).
Proof.
  intros Hz. unfold show_fixed, minus_sign. rewrite (proj2 (Qle_bool_iff 0 _)) by (change 0%Q with (inject_Z 0); by rewrite <- Zle_Qle).
  rewrite Qabs_pos by (change 0%Q with (inject_Z 0); by rewrite <- Zle_Qle). rewrite <- inject_Z_mult, round_half_even_Z.
  by apply decimals_Z.
Qed.

Lemma digits_unique n e : (0 < n)%Z -> (0 <= e)%Z -> (10 ^ e <= n < 10 ^ (e + 1))%Z -> digits n = (e + 1)%Z.
Proof.
  intros Hn He [H1 H2]. destruct (digits_bounds n Hn) as [H3 H4].
  assert (10 ^ (digits n - 1) < 10 ^ (e + 1))%Z as H5 by lia. assert (10 ^ e < 10 ^ digits n)%Z as H6 by lia.
  apply Z.pow_lt_mono_r_iff in H5; [|lia..]. apply Z.pow_lt_mono_r_iff in H6; [|unfold digits in *; lia..]. lia.
Qed.

Lemma floor_log10_Z n : (0 < n)%Z -> floor_log10 (inject_Z n) = (digits n - 1)%Z.
Proof.
  intros Hn. unfold floor_log10. rewrite Qfloor_Z.
  rewrite (proj2 (Qle_bool_iff 1 _)) by (change 1%Q with (inject_Z 1); rewrite <- Zle_Qle; lia). done.
Qed.

Lemma digits_pos n : (0 < n)%Z -> (1 <= digits n)%Z.
Proof.
  intros Hn. destruct (digits_bounds n Hn). destruct (Z.lt_ge_cases (digits n) 1) as [Hlt|]; [|done].
  assert (digits n = 0)%Z as E0 by (unfold digits in *; lia). rewrite E0 in *. cbn in *. lia.
Qed.

Lemma drop_zeros_Z n k : drop_zeros (show_N n ++ (if decide (k = 0)%nat then [] else $"." ++ replicate k zero_digit)) = show_N n.
Proof.
  unfold drop_zeros. assert ("."%char ∉ show_N n) as Hno.
  { intros Hin. pose proof (show_N_digits n) as Hd. rewrite Forall_forall in Hd. by specialize (Hd _ Hin). }
  case_decide; [rewrite app_nil_r; by destruct (str_contains _ _) eqn:E; [apply str_contains_char in E|]|].
  change $"." with ["."%char]. cbn [app]. rewrite (proj2 (str_contains_char _ _)) by set_solver.
  rewrite reverse_app, reverse_cons, reverse_replicate. rewrite <- app_assoc.
  rewrite span_app; [|by apply Forall_forall; intros c [-> _]%elem_of_replicate|done].
  change (reverse (reverse (show_N n)) = show_N n). by rewrite reverse_involutive.
Qed.

Lemma Qabs_Z z : (0 <= z)%Z -> Qabs (inject_Z z) = inject_Z z.
Proof. intros Hz. unfold Qabs, inject_Z. by rewrite Z.abs_eq. Qed.

Lemma show_general_Z p n : (0 < p)%nat -> (0 <= n < 10 ^ Z.of_nat p)%Z -> show_general p (inject_Z n) = show_N (Z.to_N n).
Proof.
  intros Hp [Hn Hlt]. unfold show_general. destruct (decide (n = 0%Z)) as [->|Hz]; [done|].
  assert (Qeq_bool (inject_Z n) 0 = false) as -> by (apply not_true_iff_false; rewrite Qeq_bool_iff; change 0%Q with (inject_Z 0); rewrite inject_Z_injective; lia).
  assert (0 <= inject_Z n)%Q as Hq by (change 0%Q with (inject_Z 0); by rewrite <- Zle_Qle).
  unfold minus_sign. rewrite (proj2 (Qle_bool_iff 0 _) Hq), Qabs_Z, floor_log10_Z by lia. cbn [app].
  rewrite (Z.max_r 1) by lia. set (e := (digits n - 1)%Z).
  destruct (digits_bounds n) as [Hd1 Hd2]; [lia|]. pose proof (digits_pos n ltac:(lia)) as Hd.
  assert (digits n <= Z.of_nat p)%Z as Hdp.
  { assert (10 ^ (digits n - 1) < 10 ^ Z.of_nat p)%Z as H by lia. apply Z.pow_lt_mono_r_iff in H; lia. }
  set (k := Z.to_nat (Z.of_nat p - 1 - e)). assert (Z.of_nat p - 1 - e = Z.of_nat k)%Z as Ek by (unfold k, e; lia).
  rewrite Ek, q10_nonneg by lia. rewrite <- inject_Z_mult, round_half_even_Z.
  assert (n * 10 ^ Z.of_nat k < 10 ^ Z.of_nat p)%Z as Hm.
  { replace (Z.of_nat p) with (digits n + Z.of_nat k)%Z by (unfold e in Ek; lia). rewrite Z.pow_add_r by lia.
    pose proof (Z.pow_pos_nonneg 10 (Z.of_nat k)). nia. }
  rewrite (proj2 (Z.leb_gt _ _) Hm). rewrite Ek, Nat2Z.id.
  assert ((-4 <=? e)%Z && (e <? Z.of_nat p)%Z = true) as -> by (apply andb_true_iff; split; [apply Z.leb_le|apply Z.ltb_lt]; unfold e; lia).
  assert (inject_Z (n * 10 ^ Z.of_nat k) * q10 (e - (Z.of_nat p - 1)) == inject_Z n)%Q as ->.
  { replace (e - (Z.of_nat p - 1))%Z with (- Z.of_nat k)%Z by lia. rewrite q10_opp, q10_nonneg, inject_Z_mult by lia.
    rewrite <- Qmult_assoc, Qmult_inv_r; [ring|]. change 0%Q with (inject_Z 0). rewrite inject_Z_injective.
    pose proof (Z.pow_pos_nonneg 10 (Z.of_nat k)). lia. }
  rewrite show_fixed_Z by done. apply drop_zeros_Z.
Qed.

(** A number too large for its precision has an exponent. *)
Lemma show_general_large p n : (0 < p)%nat -> (10 ^ Z.of_nat p <= n)%Z ->
  exists s e, show_general p (inject_Z n) = s ++ $"e+" ++ pad 2 (show_N (Z.to_N e)) /\ (Z.of_nat p <= e <= digits n)%Z.
Proof.
  intros Hp Hn. assert (0 < 10 ^ Z.of_nat p)%Z by lia. unfold show_general.
  assert (Qeq_bool (inject_Z n) 0 = false) as -> by (apply not_true_iff_false; rewrite Qeq_bool_iff; change 0%Q with (inject_Z 0); rewrite inject_Z_injective; lia).
  assert (0 <= inject_Z n)%Q as Hq by (change 0%Q with (inject_Z 0); rewrite <- Zle_Qle; lia).
  unfold minus_sign. rewrite (proj2 (Qle_bool_iff 0 _) Hq), Qabs_Z, floor_log10_Z by lia. cbn [app].
  rewrite (Z.max_r 1) by lia. destruct (digits_bounds n) as [Hd1 Hd2]; [lia|].
  assert (Z.of_nat p < digits n)%Z as Hpd.
  { assert (10 ^ Z.of_nat p < 10 ^ digits n)%Z as H0 by lia. apply Z.pow_lt_mono_r_iff in H0; unfold digits in *; lia. }
  case_match; case_match; simplify_eq;
    (rewrite (proj2 (andb_false_iff _ _)) by (right; apply Z.ltb_ge; lia)); unfold show_exponent;
    (rewrite (proj2 (Z.leb_le 0 _)) by lia); eexists _, _; (split; [by rewrite Z.abs_eq by lia|lia]).
Qed.
