(* ===== verification/FnMatch.v ===== *)
(** * File name patterns: [fnmatch.filter]

    Patterns of [*], [?], [[seq]], [[!seq]] and literal characters, as the
    standard library reads them, on POSIX where case matters. *)

From S2P Require Import Prelude.

(** A set is its ranges of characters, and whether it is negated. *)
Inductive token :=
| PStar
| PAny
| PSet (negated : bool) (ranges : list (ascii * ascii))
| PLit (c : ascii).

(** The characters and ranges between brackets. *)
Fixpoint set_ranges (s : pystr) : list (ascii * ascii) :=
  match s with
  | a :: "-"%char :: b :: s' => (a, b) :: set_ranges s'
  | a :: s' => (a, a) :: set_ranges s'
  | [] => []
  end.

(** The set opened by a bracket: what is before the closing bracket, which does
    not count at the first place, and what is after it. *)
Definition take_set (s : pystr) : option (bool * pystr * pystr) :=
  let '(neg, s) := match s with "!"%char :: s' => (true, s') | _ => (false, s) end in
  match s with
  | "]"%char :: s' =>
      match split_once "]"%char s' with
      | Some (l, r) => Some (neg, "]"%char :: l, r)
      | None => None
      end
  | _ => match split_once "]"%char s with Some (l, r) => Some (neg, l, r) | None => None end
  end.

(** [fuel] bounds the length of the pattern. *)
Fixpoint translate (fuel : nat) (s : pystr) : list token :=
  match fuel, s with
  | S fuel', c :: s' =>
      if decide (c = "*"%char) then PStar :: translate fuel' s'
      else if decide (c = "?"%char) then PAny :: translate fuel' s'
      else if decide (c = "["%char) then
        match take_set s' with
        | Some (neg, l, r) => PSet neg (set_ranges l) :: translate fuel' r
        | None => PLit c :: translate fuel' s'
        end
      else PLit c :: translate fuel' s'
  | _, _ => []
  end.

Definition in_ranges (c : ascii) (rs : list (ascii * ascii)) : bool :=
  existsb (fun '(a, b) => (N_of_ascii a <=? N_of_ascii c)%N && (N_of_ascii c <=? N_of_ascii b)%N) rs.

Definition token_char (t : token) (c : ascii) : bool :=
  match t with
  | PStar => false
  | PAny => true
  | PSet neg rs => xorb neg (in_ranges c rs)
  | PLit a => bool_decide (c = a)
  end.

Fixpoint match_tokens (ts : list token) : pystr -> bool :=
  match ts with
  | [] => fun s => bool_decide (s = [])
  | PStar :: ts' =>
      fix star (s : pystr) : bool :=
        match_tokens ts' s || match s with [] => false | _ :: s' => star s' end
  | t :: ts' => fun s => match s with c :: s' => token_char t c && match_tokens ts' s' | [] => false end
  end.

Definition fnmatch (name pat : pystr) : bool := match_tokens (translate (length pat) pat) name.

Definition fnmatch_filter (names : list pystr) (pat : pystr) : list pystr :=
  filter (fun n => fnmatch n pat = true) names.

(** ** The pattern language *)

Inductive matches : list token -> pystr -> Prop :=
| m_nil : matches [] []
| m_star ts s1 s2 : matches ts s2 -> matches (PStar :: ts) (s1 ++ s2)
| m_char t ts c s : token_char t c = true -> matches ts s -> matches (t :: ts) (c :: s).

Lemma matches_star ts s :
  matches (PStar :: ts) s <-> exists s1 s2, s = s1 ++ s2 /\ matches ts s2.
Proof.
  split; [|intros (s1 & s2 & -> & ?); by constructor].
  intros H. inversion H; subst; [by eauto|done].
Qed.

Lemma match_tokens_spec ts s : match_tokens ts s = true <-> matches ts s.
Proof.
  revert s. induction ts as [|t ts IH]; intros s.
  - cbn. rewrite bool_decide_eq_true. split; [intros ->; constructor|by inversion 1].
  - assert (t = PStar \/ t <> PStar) as [->|Ht] by (destruct t; auto).
    + induction s as [|c s IHs]; cbn [match_tokens]; rewrite orb_true_iff, IH, matches_star.
      * split; [intros [H|?]; [by exists [], []|done]|].
        intros (s1 & s2 & Heq & Hm). symmetry in Heq. apply app_nil in Heq as [-> ->]. by left.
      * fold (match_tokens (PStar :: ts)). rewrite IHs, matches_star. split.
        -- intros [H|(s1 & s2 & -> & Hm)]; [by exists [], (c :: s)|by exists (c :: s1), s2].
        -- intros (s1 & s2 & Heq & Hm). destruct s1 as [|c' s1].
           ++ left. cbn in Heq. by subst.
           ++ right. injection Heq as -> ->. eauto.
    + assert (match_tokens (t :: ts) s =
        match s with c :: s' => token_char t c && match_tokens ts s' | [] => false end) as ->
        by by destruct t.
      destruct s as [|c s].
      * split; [done|]. by inversion 1; subst.
      * rewrite andb_true_iff, IH. split; [intros [? ?]; by constructor|].
        inversion 1; subst; first [done|by split].
Qed.

Lemma fnmatch_literal name pat :
  Forall (fun c => c ∉ ["*"; "?"; "["]%char) pat -> (fnmatch name pat = true <-> name = pat).
Proof.
  unfold fnmatch. intros Hp. rewrite match_tokens_spec.
  assert (translate (length pat) pat = PLit <$> pat) as ->.
  { induction Hp as [|c pat Hc _ IH]; [done|]. cbn [length translate].
    rewrite !decide_False by set_solver. by rewrite IH. }
  clear Hp. revert name. induction pat as [|c pat IH]; intros name; cbn.
  - split; [by inversion 1|intros ->; constructor].
  - split.
    + inversion 1 as [|?|? ? c' s Hc Hs]; subst. cbn in Hc. apply bool_decide_eq_true in Hc as ->.
      f_equal. by apply IH.
    + intros ->. constructor; [by apply bool_decide_eq_true|by apply IH].
Qed.

Example fnmatch_ranges :
  fnmatch ($"ns3.33-tcp-bulk-debug") ($"ns3.3[0-35]-tcp-*-de?ug") = true /\
  fnmatch ($"a]b") ($"a[]]b") = true /\ fnmatch ($"a[b") ($"a[b") = true /\
  fnmatch ($"axb") ($"a[!a-m]b") = true /\ fnmatch ($"acb") ($"a[!a-m]b") = false.
Proof. vm_compute. auto. Qed.
