(* ===== verification/ElementTree.v ===== *)
(** * The trees of [xml.etree.ElementTree]

    An element has a tag, attributes, a text and children; what the code reads of it. *)

From S2P Require Import Prelude.

Inductive element :=
| Elem (tag : pystr) (attrib : list (pystr * pystr)) (text : option pystr) (children : list element).

Definition elem_tag (e : element) : pystr := let '(Elem tag _ _ _) := e in tag.
Definition elem_text (e : element) : option pystr := let '(Elem _ _ text _) := e in text.
Definition elem_attrib (e : element) : list (pystr * pystr) := let '(Elem _ attrib _ _) := e in attrib.
Definition elem_children (e : element) : list element := let '(Elem _ _ _ children) := e in children.

Definition findall (tag : pystr) (e : element) : list element :=
  filter (fun c => elem_tag c = tag) (elem_children e).

Definition find (tag : pystr) (e : element) : option element := head (findall tag e).

(** [e.find(tag).text]: [find] gives [None] when there is no such child. *)
Definition find_text (tag : pystr) (e : element) : py (option pystr) :=
  let! c := or_raise AttributeError (find tag e) in Ok (elem_text c).

Definition get_attrib (k : pystr) (e : element) : option pystr :=
  snd <$> head (filter (fun p => p.1 = k) (elem_attrib e)).

(** Induction over the elements of a tree. *)
Lemma element_ind' (P : element -> Prop) :
  (forall tag attrib text children, Forall P children -> P (Elem tag attrib text children)) ->
  forall e, P e.
Proof.
  intros H. fix IH 1. intros [tag attrib text children]. apply H.
  induction children as [|c l IHl]; constructor; [apply IH|exact IHl].
Qed.
