(* ===== verification/RadSeq.v ===== *)
(** * bindings/python/rad_util.py: sequences, strings and dictionaries

    [reverse], [transpose], [permutations], [uniquify], [reverse_dict],
    [find_common_fixes], [is_rotated] and [get_args], with the theorems that
    say what each computes.  The module runs under Python 2. *)

From S2P Require Import Prelude PyDict.

(** ** Definitions *)

(** [str_list = list(s); str_list.reverse(); ''.join(str_list)] *)
Definition reverse_str (input_string : pystr) : pystr :=
  let str_list := input_string in
  let str_list := reverse str_list in
  join [] ((fun c => [c]) <$> str_list).

(** [zip( *rows)]: as many tuples as the shortest row has items. *)
Fixpoint zip_star {A} (rows : list (list A)) : list (list A) :=
  match rows with
  | [] => []
  | [r] => (fun x => [x]) <$> r
  | r :: rows' => zip_with cons r (zip_star rows')
  end.

Definition transpose {A} (matrix : list (list A)) : list (list A) :=
  zip_star matrix.

Fixpoint permutations {A} (input_list : list A) : list (list A) :=
  match input_list with
  | item :: (_ :: _) as rest =>
      (* for sub_list in sub_lists: for i in range(len(input_list)): ... *)
      sub_list ← permutations rest;
      (fun i => py_insert sub_list i item) <$> seq 0 (length input_list)
  | _ => [input_list]
  end.

Section uniquify.
Context {A : Type} {D : Type -> Type} `{PyDict A D, EqDecision A}.

(** Whether [hash(x)] succeeds; [x in d] raises [TypeError] otherwise. *)
Variable hashable : A -> bool.

Definition uniquify_in (d : D Z) (x : A) : py bool :=
  if hashable x then Ok (bool_decide (is_Some (d_get d x))) else Err TypeError.

(** [[x for x in seq if (x not in d) and not d.__setitem__(x, 0)]] *)
Definition uniquify_ordered (l : list A) : py (list A) :=
  let! '(_, out) := for_each (fun '(d, out) x =>
        let! seen := uniquify_in d x in
        if seen : bool then Ok (d, out) else Ok (d_set x 0%Z d, out ++ [x]))
      l (d_empty : D Z, []) in
  Ok out.

(** [for x in seq: d[x] = 0], then [d.keys()] *)
Definition uniquify_unordered (l : list A) : py (list A) :=
  let! d := for_each (fun (d : D Z) x =>
        if hashable x then Ok (d_set x 0%Z d) else Err TypeError)
      l (d_empty : D Z) in
  Ok (d_keys d).

(** The [except TypeError] branch. *)
Definition uniquify_slow (l : list A) : list A :=
  foldl (fun result x => if decide (x ∈ result) then result else result ++ [x])
    [] l.

Definition uniquify (l : list A) (preserve_order : bool) : py (list A) :=
  match (if preserve_order then uniquify_ordered l else uniquify_unordered l) with
  | Ok r => Ok r
  | Err TypeError => Ok (uniquify_slow l)
  | Err e => Err e
  end.

End uniquify.

Section reverse_dict.
Context {K V : Type} {DK DV : Type -> Type} `{PyDict K DK, PyDict V DV}.

(** [d.items()] in the order of the keys. *)
Definition d_items (d : DK V) : list (K * V) :=
  omap (fun k => (fun v => (k, v)) <$> d_get d k) (d_keys d).

Definition reverse_dict (d : DK V) : DV K :=
  foldl (fun result kv => d_set kv.2 kv.1 result) d_empty (d_items d).

End reverse_dict.

Section find_common_fixes.
Implicit Types s : pystr.

(** [while i < common_len: if s1[i] != s2[i]: break ...], [n] being the
    iterations left. *)
Fixpoint common_prefix_loop (n i : nat) s1 s2 (prefix : pystr) : py pystr :=
  match n with
  | 0 => Ok prefix
  | S n' =>
      let! a := py_get s1 (Z.of_nat i) in
      let! b := py_get s2 (Z.of_nat i) in
      if decide (a <> b) then Ok prefix
      else common_prefix_loop n' (S i) s1 s2 (prefix ++ [a])
  end.

(** The same from the end: [s1[-i] != s2[-i]], [i] from 1. *)
Fixpoint common_suffix_loop (n i : nat) s1 s2 (suffix : pystr) : py pystr :=
  match n with
  | 0 => Ok suffix
  | S n' =>
      let! a := py_get s1 (- Z.of_nat i) in
      let! b := py_get s2 (- Z.of_nat i) in
      if decide (a <> b) then Ok suffix
      else common_suffix_loop n' (S i) s1 s2 (suffix ++ [a])
  end.

Definition find_common_fixes s1 s2 : py (pystr * pystr) :=
  let common_len := length s1 `min` length s2 in
  let! prefix := common_prefix_loop common_len 0 s1 s2 [] in
  let! suffix := common_suffix_loop common_len 1 s1 s2 [] in
  Ok (prefix, reverse suffix).

End find_common_fixes.

Section is_rotated.
Context {A : Type} `{EqDecision A}.

Definition is_rotated (seq1 seq2 : list A) : py bool :=
  if decide (length seq1 <> length seq2) then Ok false else
  let! head_item := py_get seq2 0 in
  let start_indexes :=
    filter (fun index1 => seq1 !! index1 = Some head_item)
      (seq 0 (length seq1)) in
  let double_seq1 := seq1 ++ seq1 in
  Ok (existsb (fun index1 =>
        bool_decide (py_slice double_seq1 (Z.of_nat index1)
                       (Z.of_nat (index1 + length seq1)) = seq2))
      start_indexes).

End is_rotated.

(** What [get_args] stores: the value of an option, or the list of the other
    arguments. *)
Inductive argval : Type :=
| ArgNone
| ArgStr (s : pystr)
| ArgList (l : list pystr).

(** [re.sub(r'^-+', '', arg)] *)
Fixpoint strip_dashes (arg : pystr) : pystr :=
  match arg with
  | c :: arg' => if decide (c = "-"%char) then strip_dashes arg' else arg
  | [] => []
  end.

(** The key and the value an option is stored under. *)
Definition get_args_option (arg : pystr) : py (pystr * argval) :=
  let parts := split_on "="%char (strip_dashes arg) in
  let! key := py_get parts 0 in
  if decide (length parts = 2)
  then let! value := py_get parts 1 in Ok (key, ArgStr value)
  else Ok (key, ArgNone).

Definition get_args `{PyDict pystr D} (argv : list pystr) : py (D argval) :=
  let! '(d, args) := for_each (fun '(d, args) arg =>
      if startswith arg $"-"
      then let! '(k, v) := get_args_option arg in Ok (d_set k v d, args)
      else Ok (d, args ++ [arg]))
    argv (d_empty : D argval, []) in
  Ok (d_set $"args" (ArgList args) d).

(** ** Rotations *)

Section rotation.
Context {A : Type}.
Implicit Types l : list A.

Definition rotation l1 l2 : Prop := exists k, k <= length l1 /\ l2 = drop k l1 ++ take k l1.

Lemma rotation_alt l1 l2 : rotation l1 l2 <-> exists a b, l1 = a ++ b /\ l2 = b ++ a.
Proof.
  split.
  - intros (k & _ & ->). exists (take k l1), (drop k l1). by rewrite take_drop.
  - intros (a & b & -> & ->). exists (length a). rewrite length_app. split; [lia|].
    by rewrite drop_app_length, take_app_length.
Qed.

#[export] Instance rotation_equiv : Equivalence rotation.
Proof.
  split.
  - intros l. rewrite rotation_alt. exists [], l. by rewrite app_nil_r.
  - intros l1 l2. rewrite !rotation_alt. intros (a & b & -> & ->). eauto.
  - intros l1 l2 l3. rewrite !rotation_alt.
    intros (a & b & -> & ->) (c & d & Hcd & ->).
    destruct (decide (length c <= length b)) as [Hle|Hgt].
    + assert (exists e, b = c ++ e /\ d = e ++ a) as (e & -> & ->).
      { clear -Hcd Hle. revert c Hcd Hle.
        induction b as [|x b IH]; intros [|y c] Hcd Hle; cbn in *; eauto; [lia|].
        injection Hcd as <- Hcd. destruct (IH c Hcd) as (e & -> & ->); [lia|].
        by exists e. }
      exists (a ++ c), e. by rewrite !app_assoc.
    + assert (exists e, c = b ++ e /\ a = e ++ d) as (e & -> & ->).
      { clear -Hcd Hgt. revert c Hcd Hgt.
        induction b as [|x b IH]; intros c Hcd Hgt; cbn in *; [by exists c|].
        destruct c as [|y c]; cbn in *; [lia|].
        injection Hcd as <- Hcd. destruct (IH c Hcd) as (e & -> & ->); [lia|].
        by exists e. }
      exists e, (d ++ b). by rewrite !app_assoc.
Qed.

Lemma rotation_perm l1 l2 : rotation l1 l2 -> l1 ≡ₚ l2.
Proof. rewrite rotation_alt. intros (a & b & -> & ->). apply Permutation_app_comm. Qed.

Lemma rotation_length l1 l2 : rotation l1 l2 -> length l1 = length l2.
Proof. intros H. by rewrite (rotation_perm _ _ H). Qed.

(** A rotation of a non-empty list can start strictly inside it. *)
Lemma rotation_lt l1 l2 :
  l1 <> [] -> rotation l1 l2 -> exists k, k < length l1 /\ l2 = drop k l1 ++ take k l1.
Proof.
  intros Hne (k & Hk & ->). destruct (decide (k = length l1)) as [->|].
  - exists 0. rewrite drop_ge, take_ge by lia. split; [destruct l1; [done|cbn; lia]|].
    by rewrite drop_0, take_0, app_nil_r.
  - exists k. split; [lia|done].
Qed.

End rotation.

(** ** Lemmas and theorems *)

Lemma join_singletons (s : pystr) : join [] ((fun c => [c]) <$> s) = s.
Proof.
  induction s as [|c [|c' s] IH]; cbn in *; [done|done|]. by rewrite IH.
Qed.

Lemma reverse_str_reverse s : reverse_str s = reverse s.
Proof. apply join_singletons. Qed.

(** *** Transposition *)

Lemma zip_star_lookup {A} (rows : list (list A)) j :
  rows <> [] -> zip_star rows !! j = mapM (fun r => r !! j) rows.
Proof.
  induction rows as [|r rows IH]; intros Hne; [done|].
  destruct rows as [|r' rows].
  - cbn. rewrite list_lookup_fmap. by destruct (r !! j).
  - change (zip_star (r :: r' :: rows)) with (zip_with cons r (zip_star (r' :: rows))).
    rewrite lookup_zip_with, IH by done. cbn [mapM].
    destruct (r !! j); cbn; [|done].
    by destruct (mapM (fun r => r !! j) (r' :: rows)).
Qed.

(** [transpose(matrix)] on a matrix with at least one row: its [j]-th row
    is the [j]-th column of the matrix, present exactly when every row of the
    matrix has a [j]-th item ([zip] truncates to the shortest row). *)
Theorem transpose_column {A} (matrix : list (list A)) j :
  matrix <> [] -> transpose matrix !! j = mapM (fun row => row !! j) matrix.
Proof. apply zip_star_lookup. Qed.

Lemma transpose_column_witness :
  transpose [[1; 2; 3]; [4; 5; 6]] !! 1 = Some [2; 5].
Proof. rewrite (transpose_column [[1; 2; 3]; [4; 5; 6]] 1); done. Defined.

(** *** Permutations *)

Lemma permutations_cons {A} (x y : A) l :
  permutations (x :: y :: l) =
  (permutations (y :: l) ≫= fun sub_list =>
     (fun i => py_insert sub_list i x) <$> seq 0 (length (x :: y :: l))).
Proof. done. Qed.

Lemma permutations_perm {A} (l p : list A) : p ∈ permutations l -> p ≡ₚ l.
Proof.
  revert p. induction l as [|x [|y l] IH]; intros p; [set_solver..|].
  rewrite permutations_cons, list_elem_of_bind.
  intros (sub & Hp & Hsub%IH). apply list_elem_of_fmap in Hp as (i & -> & _).
  by rewrite py_insert_perm, Hsub.
Qed.

Lemma permutations_complete {A} (l p : list A) : p ≡ₚ l -> p ∈ permutations l.
Proof.
  revert p. induction l as [|x [|y l] IH]; intros p Hp.
  - apply Permutation_nil_r in Hp as ->. set_solver.
  - apply Permutation_singleton_r in Hp as ->. set_solver.
  - rewrite permutations_cons, list_elem_of_bind.
    assert (x ∈ p) as (l1 & l2 & ->)%list_elem_of_split by (rewrite Hp; left).
    exists (l1 ++ l2). split.
    + apply list_elem_of_fmap. exists (length l1). unfold py_insert.
      rewrite take_app_length, drop_app_length. split; [done|].
      apply elem_of_seq. apply Permutation_length in Hp.
      rewrite length_app in Hp. cbn in *. lia.
    + apply IH. apply (Permutation_cons_inv (a := x)). by rewrite Permutation_middle.
Qed.

(** [permutations(l)] lists exactly the rearrangements of [l]. *)
Theorem permutations_spec {A} (l p : list A) : p ∈ permutations l <-> p ≡ₚ l.
Proof. split; [apply permutations_perm|apply permutations_complete]. Qed.

Lemma permutations_each_length {A} (l p : list A) :
  p ∈ permutations l -> length p = length l.
Proof. intros Hp. by rewrite (permutations_perm _ _ Hp). Qed.

Lemma length_bind_const {A B} (f : A -> list B) l n :
  (forall x, x ∈ l -> length (f x) = n) -> length (l ≫= f) = length l * n.
Proof.
  intros Hf. induction l as [|x l IH]; [done|]. cbn.
  rewrite length_app, Hf, IH by set_solver. done.
Qed.

(** [permutations(l)] has [len(l)!] entries (repetitions included when
    items repeat). *)
Theorem permutations_length {A} (l : list A) :
  length (permutations l) = Factorial.fact (length l).
Proof.
  induction l as [|x [|y l] IH]; [done..|].
  rewrite permutations_cons.
  rewrite (length_bind_const _ _ (length (x :: y :: l))).
  - rewrite IH. cbn [length Factorial.fact]. lia.
  - intros sub _. by rewrite length_fmap, length_seq.
Qed.

(** *** Removing duplicates *)

Section uniquify_facts.
Context {A : Type} {D : Type -> Type} `{PyDictLaws A D}.
Implicit Types (hashable : A -> bool) (l : list A).

Lemma uniquify_slow_app l1 l2 :
  uniquify_slow (l1 ++ l2) =
  foldl (fun r x => if decide (x ∈ r) then r else r ++ [x]) (uniquify_slow l1) l2.
Proof. apply foldl_app. Qed.

Lemma uniquify_slow_spec l :
  NoDup (uniquify_slow l) /\ (forall x, x ∈ uniquify_slow l <-> x ∈ l).
Proof.
  induction l as [|x l [IHn IHe]] using rev_ind; [by split; [constructor|]|].
  rewrite uniquify_slow_app. cbn. case_decide as Hx.
  - split; [done|]. intros y. rewrite IHe, elem_of_app, list_elem_of_singleton.
    rewrite IHe in Hx. naive_solver.
  - split.
    + apply list.NoDup_app. split; [done|]. split; [|apply NoDup_singleton].
      intros y Hy ->%list_elem_of_singleton. done.
    + intros y. by rewrite !elem_of_app, IHe.
Qed.

Lemma uniquify_ordered_Ok hashable l :
  Forall (fun x => hashable x = true) l ->
  uniquify_ordered (D := D) hashable l = Ok (uniquify_slow l).
Proof.
  intros Hh. unfold uniquify_ordered.
  destruct (for_each_total
    (fun '(d, out) x => let! seen := uniquify_in hashable d x in
       if seen : bool then Ok (d, out) else Ok (d_set x 0%Z d, out ++ [x]))
    (fun done_ st => st.2 = uniquify_slow done_ /\
       forall x, is_Some (d_get (st.1 : D Z) x) <-> x ∈ uniquify_slow done_)
    l (d_empty, [])) as ([d out] & Hf & Hout & _).
  - split; [done|]. intros x. cbn. rewrite d_get_empty.
    split; [by intros [? ?]|by intros ?%elem_of_nil].
  - intros l1 x l2 [d out] -> [Hout Hd]. cbn in *. subst out.
    apply Forall_app in Hh as [_ [Hx _]%list.Forall_cons]. unfold uniquify_in.
    rewrite Hx, uniquify_slow_app. cbn. case_decide as Hin.
    + rewrite bool_decide_true by by apply Hd. eauto.
    + rewrite bool_decide_false by by rewrite Hd. eexists (_, _).
      split; [done|]. split; [done|]. intros y. cbn.
      rewrite d_get_set, elem_of_app, list_elem_of_singleton, <- Hd.
      case_decide; subst; naive_solver.
  - cbn in Hout. subst. by rewrite Hf.
Qed.

Lemma uniquify_unordered_Ok hashable l :
  Forall (fun x => hashable x = true) l ->
  exists r, uniquify_unordered (D := D) hashable l = Ok r /\
    NoDup r /\ forall x, x ∈ r <-> x ∈ l.
Proof.
  intros Hh. unfold uniquify_unordered.
  destruct (for_each_total
    (fun (d : D Z) x => if hashable x then Ok (d_set x 0%Z d) else Err TypeError)
    (fun done_ d => forall x, is_Some (d_get d x) <-> x ∈ done_)
    l d_empty) as (d & Hf & Hd).
  - intros x. rewrite d_get_empty.
    split; [by intros [? ?]|by intros ?%elem_of_nil].
  - intros l1 x l2 d -> Hd. apply Forall_app in Hh as [_ [Hx _]%list.Forall_cons].
    rewrite Hx. eexists. split; [done|]. intros y.
    rewrite d_get_set, elem_of_app, list_elem_of_singleton, <- Hd.
    case_decide; subst; naive_solver.
  - rewrite Hf. cbn. eexists. split; [done|]. split; [apply d_keys_nodup|].
    intros x. by rewrite d_keys_spec.
Qed.

(** An unhashable item makes both fast paths raise [TypeError]. *)
Lemma for_each_unhashable {S} (f : S -> A -> py S) hashable l s :
  (forall s x, hashable x = false -> f s x = Err TypeError) ->
  (forall s x, hashable x = true -> exists s', f s x = Ok s') ->
  ~ Forall (fun x => hashable x = true) l -> for_each f l s = Err TypeError.
Proof.
  intros Hbad Hok. revert s. induction l as [|x l IH]; intros s Hn; cbn.
  { by destruct Hn. }
  destruct (hashable x) eqn:Hx.
  - destruct (Hok s x Hx) as [s' ->]. cbn. apply IH. intros Hl. apply Hn.
    by constructor.
  - by rewrite Hbad.
Qed.

Lemma uniquify_ordered_Err hashable l :
  ~ Forall (fun x => hashable x = true) l ->
  uniquify_ordered (D := D) hashable l = Err TypeError.
Proof.
  intros Hn. unfold uniquify_ordered.
  rewrite (for_each_unhashable _ hashable); [done| | |done].
  - intros [d out] x Hx. unfold uniquify_in. by rewrite Hx.
  - intros [d out] x Hx. unfold uniquify_in. rewrite Hx. cbn. case_match; eauto.
Qed.

Lemma uniquify_unordered_Err hashable l :
  ~ Forall (fun x => hashable x = true) l ->
  uniquify_unordered (D := D) hashable l = Err TypeError.
Proof.
  intros Hn. unfold uniquify_unordered.
  rewrite (for_each_unhashable _ hashable); [done| | |done].
  - intros d x Hx. by rewrite Hx.
  - intros d x Hx. rewrite Hx. eauto.
Qed.

(** [uniquify] never raises, whatever items are hashable: with
    [preserve_order] the fast path over a dictionary and the quadratic
    fallback return the same list, the first occurrences in order; without it
    the result still holds every item of the sequence exactly once. *)
Theorem uniquify_spec hashable l :
  uniquify (D := D) hashable l true = Ok (uniquify_slow l) /\
  (NoDup (uniquify_slow l) /\ forall x, x ∈ uniquify_slow l <-> x ∈ l) /\
  exists r, uniquify (D := D) hashable l false = Ok r /\ r ≡ₚ uniquify_slow l.
Proof.
  destruct (uniquify_slow_spec l) as [Hn He]. unfold uniquify.
  destruct (decide (Forall (fun x => hashable x = true) l)) as [Hh|Hh].
  - rewrite uniquify_ordered_Ok by done. split_and!; [done..|].
    destruct (uniquify_unordered_Ok hashable l Hh) as (r & -> & Hr & Hre).
    exists r. split; [done|]. apply NoDup_Permutation; [done..|].
    intros x. by rewrite Hre, He.
  - rewrite uniquify_ordered_Err, uniquify_unordered_Err by done. eauto 6.
Qed.

End uniquify_facts.

Lemma uniquify_spec_witness :
  uniquify (D := fun V => gmap nat V) (fun x => negb (x =? 3)) [2; 3; 2; 1; 3] true = Ok [2; 3; 1].
Proof.
  destruct (uniquify_spec (D := fun V => gmap nat V) (fun x => negb (x =? 3)) [2; 3; 2; 1; 3])
    as (H & _).
  rewrite H. vm_compute. reflexivity.
Defined.

(** *** Common prefix and suffix *)

(** [p] is the longest list that begins both [l1] and [l2]. *)
Definition longest_common_prefix {A} (l1 l2 p : list A) : Prop :=
  p `prefix_of` l1 /\ p `prefix_of` l2 /\
  forall q, q `prefix_of` l1 -> q `prefix_of` l2 -> q `prefix_of` p.

Lemma common_prefix_loop_spec n i s1 s2 acc :
  n + i = length s1 `min` length s2 ->
  exists p, common_prefix_loop n i s1 s2 acc = Ok (acc ++ p) /\
    longest_common_prefix (drop i s1) (drop i s2) p.
Proof.
  revert i acc. induction n as [|n IH]; intros i acc Hn; cbn.
  - exists []. rewrite app_nil_r. split; [done|]. split_and!; [apply prefix_nil..|].
    intros q Hq1%prefix_length Hq2%prefix_length.
    rewrite length_drop in *. destruct q; [apply prefix_nil|cbn in *; lia].
  - destruct (lookup_lt_is_Some_2 s1 i) as [a Ha]; [lia|].
    destruct (lookup_lt_is_Some_2 s2 i) as [b Hb]; [lia|].
    rewrite !py_get_lookup, !Nat2Z.id, Ha, Hb by lia. cbn.
    rewrite (drop_S s1 a i), (drop_S s2 b i) by done.
    case_decide as Hab.
    + exists []. rewrite app_nil_r. split; [done|]. split_and!; [apply prefix_nil..|].
      intros [|x q] Hq1 Hq2; [apply prefix_nil|].
      apply prefix_cons_inv_1 in Hq1, Hq2. congruence.
    + subst a.
      destruct (IH (S i) (acc ++ [b])) as (p & Hp & H1 & H2 & H3); [lia|].
      exists (b :: p). rewrite Hp, <- app_assoc. split; [done|].
      split_and!; [by apply prefix_cons..|].
      intros [|x q] Hq1 Hq2; [apply prefix_nil|].
      pose proof (prefix_cons_inv_1 _ _ _ _ Hq1) as ->.
      apply prefix_cons_inv_2 in Hq1, Hq2. apply prefix_cons. auto.
Qed.

Lemma common_suffix_loop_reverse n i s1 s2 acc :
  common_suffix_loop n (S i) s1 s2 acc =
  common_prefix_loop n i (reverse s1) (reverse s2) acc.
Proof.
  revert i acc. induction n as [|n IH]; intros i acc; [done|].
  unfold common_suffix_loop, common_prefix_loop; fold common_suffix_loop.
  fold common_prefix_loop. rewrite !py_get_neg, !py_get_lookup, !Nat2Z.id by lia.
  destruct (reverse s1 !! i), (reverse s2 !! i); cbn; try done.
  case_decide; [done|apply IH].
Qed.

(** [find_common_fixes(s1, s2)] never raises and returns the longest
    common prefix of the two strings together with their longest common
    suffix (the two may overlap). *)
Theorem find_common_fixes_longest s1 s2 :
  exists prefix suffix, find_common_fixes s1 s2 = Ok (prefix, suffix) /\
    longest_common_prefix s1 s2 prefix /\
    longest_common_prefix (reverse s1) (reverse s2) (reverse suffix).
Proof.
  unfold find_common_fixes. rewrite common_suffix_loop_reverse.
  destruct (common_prefix_loop_spec (length s1 `min` length s2) 0 s1 s2 [])
    as (p & Hp & Hlp); [lia|].
  destruct (common_prefix_loop_spec (length s1 `min` length s2) 0
    (reverse s1) (reverse s2) []) as (q & Hq & Hlq).
  { rewrite !length_reverse. lia. }
  rewrite Hp, Hq. cbn. exists p, (reverse q). by rewrite reverse_involutive.
Qed.

(** *** Rotation test *)

Lemma double_slice {A} (l : list A) k :
  k <= length l ->
  py_slice (l ++ l) (Z.of_nat k) (Z.of_nat (k + length l)) = drop k l ++ take k l.
Proof.
  intros Hk. rewrite py_slice_nat, drop_app_le by done.
  rewrite take_app. rewrite length_drop. rewrite take_ge by (rewrite length_drop; lia).
  do 2 f_equal. lia.
Qed.

Lemma is_rotated_value {A} `{EqDecision A} (seq1 seq2 : list A) :
  is_rotated seq1 seq2 =
  match seq1, seq2 with
  | [], [] => Err IndexError
  | _, _ => Ok (bool_decide (Exists (fun k => seq2 = drop k seq1 ++ take k seq1)
                              (seq 0 (length seq1))))
  end.
Proof.
  unfold is_rotated. case_decide as Hlen.
  - assert (bool_decide (Exists (fun k => seq2 = drop k seq1 ++ take k seq1)
      (seq 0 (length seq1))) = false) as ->.
    { apply bool_decide_false. rewrite list.Exists_exists. intros (k & _ & ->).
      rewrite length_app, length_drop, length_take in Hlen. lia. }
    by destruct seq1, seq2.
  - destruct seq1 as [|a seq1], seq2 as [|b seq2]; try done.
    set (l1 := a :: seq1) in *. set (l2 := b :: seq2) in *.
    replace (py_get l2 0) with (Ok b : py A) by done. cbn [rbind]. f_equal.
    apply eq_true_iff_eq. rewrite bool_decide_eq_true, List.existsb_exists.
    rewrite list.Exists_exists. split.
    + intros (k & Hk & Heq%bool_decide_eq_true). apply list_elem_of_In in Hk.
      apply list_elem_of_filter in Hk as [_ Hk]. exists k. split; [done|].
      apply elem_of_seq in Hk. rewrite <- Heq. apply double_slice. lia.
    + intros (k & Hk & Heq). pose proof Hk as [_ Hlt]%elem_of_seq. exists k. split.
      * apply list_elem_of_In, list_elem_of_filter. split; [|done].
        destruct (lookup_lt_is_Some_2 l1 k) as [x Hx]; [lia|].
        rewrite (drop_S l1 x k Hx) in Heq. rewrite Hx. by injection Heq as <- _.
      * apply bool_decide_eq_true. rewrite double_slice by lia. done.
Qed.

Lemma is_rotated_rotation {A} `{EqDecision A} (seq1 seq2 : list A) :
  seq2 <> [] ->
  exists b, is_rotated seq1 seq2 = Ok b /\ (b = true <-> rotation seq1 seq2).
Proof.
  intros Hne. rewrite is_rotated_value. destruct seq2 as [|b seq2]; [done|].
  eexists. split; [by destruct seq1|].
  rewrite bool_decide_eq_true, list.Exists_exists. split.
  - intros (k & Hk%elem_of_seq & Heq). exists k. split; [lia|done].
  - intros Hr. destruct (rotation_lt seq1 (b :: seq2)) as (k & Hk & Heq); [|done|].
    + intros ->. by apply rotation_length in Hr.
    + exists k. split; [|done]. apply elem_of_seq. lia.
Qed.

(** [is_rotated(seq1, seq2)] answers whether the one is a rotation of the
    other; it raises [IndexError] on two empty sequences, and only there. *)
Theorem is_rotated_spec {A} `{EqDecision A} (seq1 seq2 : list A) :
  match is_rotated seq1 seq2 with
  | Ok b => (b = true <-> rotation seq1 seq2) /\ (seq1 <> [] \/ seq2 <> [])
  | Err e => e = IndexError /\ seq1 = [] /\ seq2 = []
  end.
Proof.
  destruct seq2 as [|y seq2].
  - rewrite is_rotated_value. destruct seq1 as [|x seq1]; [done|].
    split; [|by left]. rewrite bool_decide_eq_true. split.
    + intros (k & _ & Hk)%list.Exists_exists. by exists 0; destruct (decide (k <= 0));
        apply (f_equal length) in Hk; rewrite length_app, length_drop, length_take in Hk;
        cbn in Hk; lia.
    + intros Hr. by apply rotation_length in Hr.
  - destruct (is_rotated_rotation seq1 (y :: seq2)) as (b & -> & Hb); [done|].
    split; [done|by right].
Qed.

(** *** Command-line arguments *)

Lemma get_args_option_Ok arg : exists k v, get_args_option arg = Ok (k, v).
Proof.
  unfold get_args_option.
  destruct (split_on "="%char (strip_dashes arg)) as [|w ws] eqn:E.
  { by destruct (split_on_nonempty "="%char (strip_dashes arg)). }
  change (py_get (w :: ws) 0) with (Ok w : py pystr). cbn [rbind].
  case_decide as Hlen; [|eauto]. destruct ws as [|w' ws]; [done|].
  rewrite py_get_lookup by lia. cbn. eauto.
Qed.

(** The options of a command line with their values, in order. *)
Definition options_of (argv : list pystr) : list (pystr * argval) :=
  omap (fun arg => if startswith arg $"-"
                   then match get_args_option arg with Ok kv => Some kv | Err _ => None end
                   else None) argv.

Definition last_option_of (k : pystr) (argv : list pystr) : option (pystr * argval) :=
  last (filter (fun kv : pystr * argval => kv.1 = k) (options_of argv)).

Lemma last_option_of_option k argv arg k' v :
  startswith arg $"-" = true -> get_args_option arg = Ok (k', v) ->
  last_option_of k (argv ++ [arg]) =
  if decide (k' = k) then Some (k', v) else last_option_of k argv.
Proof.
  intros Hs Hk. unfold last_option_of, options_of. rewrite omap_app.
  cbn [omap list_omap]. rewrite Hs, Hk, filter_app, filter_cons, filter_nil. cbn.
  case_decide; [by rewrite last_snoc|by rewrite app_nil_r].
Qed.

Lemma last_option_of_plain k argv arg :
  startswith arg $"-" = false ->
  last_option_of k (argv ++ [arg]) = last_option_of k argv.
Proof.
  intros Hs. unfold last_option_of, options_of. rewrite omap_app.
  cbn [omap list_omap]. by rewrite Hs, app_nil_r.
Qed.

(** [get_args] never raises; under ['args'] it stores the arguments
    without a leading dash, in order, and under every other key the value of
    the last option given with that key. *)
Theorem get_args_spec `{PyDictLaws pystr D} (argv : list pystr) :
  exists d : D argval, get_args (D := D) argv = Ok d /\
    d_get (D := D) d $"args" =
      Some (ArgList (filter (fun a => startswith a $"-" = false) argv)) /\
    forall k, k <> $"args" ->
      d_get (D := D) d k = snd <$> last_option_of k argv.
Proof.
  unfold get_args.
  destruct (for_each_total
    (fun '(d, args) arg =>
      if startswith arg $"-"
      then let! '(k, v) := get_args_option arg in Ok (d_set k v d, args)
      else Ok (d, args ++ [arg]))
    (fun done_ st =>
       st.2 = filter (fun a => startswith a $"-" = false) done_ /\
       forall k, d_get (D := D) st.1 k = snd <$> last_option_of k done_)
    argv (d_empty, [])) as ([d args] & Hf & Hargs & Hd).
  - split; [done|]. intros k. apply d_get_empty.
  - intros l1 arg l2 [d args] -> [Hargs Hd]. cbn [fst snd] in *. subst args.
    rewrite filter_app, filter_cons, filter_nil.
    destruct (startswith arg $"-") eqn:Hs.
    + destruct (get_args_option_Ok arg) as (k & v & Hk). rewrite Hk.
      eexists (_, _). split; [done|]. split; [cbn; by rewrite app_nil_r|].
      intros k'. cbn [fst]. rewrite d_get_set, (last_option_of_option _ _ _ k v) by done.
      by repeat case_decide.
    + eexists (_, _). split; [done|]. split; [done|]. intros k'.
      by rewrite last_option_of_plain.
  - cbn in *. rewrite Hf. cbn. eexists. split; [done|]. split.
    + by rewrite d_get_set_eq, Hargs.
    + intros k Hk. by rewrite d_get_set_ne by congruence.
Qed.

(** *** Reversing a dictionary *)

Section reverse_dict_facts.
Context {K V : Type} {DK DV : Type -> Type}.
Context `{PyDictLaws K DK, PyDictLaws V DV}.

Lemma elem_of_d_items (d : DK V) k v : (k, v) ∈ d_items d <-> d_get d k = Some v.
Proof.
  unfold d_items. rewrite list_elem_of_omap. split.
  - intros (k' & Hk & Heq). destruct (d_get d k') eqn:E; cbn in Heq; congruence.
  - intros Hd. exists k. rewrite d_keys_spec, Hd. split; [eauto|done].
Qed.

Lemma reverse_items_spec (l : list (K * V)) v :
  match d_get (foldl (fun (r : DV K) kv => d_set kv.2 kv.1 r) d_empty l) v with
  | Some k => (k, v) ∈ l
  | None => forall k, (k, v) ∉ l
  end.
Proof.
  induction l as [|[k' v'] l IH] using rev_ind; cbn.
  { rewrite d_get_empty. intros k. apply not_elem_of_nil. }
  rewrite foldl_app. cbn. rewrite d_get_set. case_decide; [set_solver|].
  destruct (d_get _ v); [set_solver|]. intros k Hk.
  apply elem_of_app in Hk as [Hk|[= -> ->]%list_elem_of_singleton]; [|done].
  by apply (IH k).
Qed.

(** [reverse_dict(d)]: a value of [d] is mapped to one of the keys that
    hold it, and nothing else is a key of the result (with distinct values it
    is the inverse map). *)
Theorem reverse_dict_spec (d : DK V) v :
  match d_get (reverse_dict (DV := DV) d) v with
  | Some k => d_get d k = Some v
  | None => forall k, d_get d k <> Some v
  end.
Proof.
  pose proof (reverse_items_spec (d_items d) v) as Hr.
  unfold reverse_dict. destruct (d_get _ v).
  - by apply elem_of_d_items.
  - intros k Hk. by apply (Hr k), elem_of_d_items.
Qed.

End reverse_dict_facts.
