(* ===== verification/RadInt.v ===== *)
(** * bindings/python/rad_util.py: integers and binary strings

    [int2bin], [bin2int], [gcf], [lcm], [reduce_fraction], [lsb],
    [gray_encode], [random_vec], [binary_range] and [round_grid] on Python
    integers, under Python 2 (where [/] on integers is floor division and
    [hex] of a long integer ends in [L]). *)

From Stdlib Require Import Btauto.
From S2P Require Import Prelude.

Open Scope Z_scope.

(** ** Definitions *)

(** *** Hexadecimal and binary strings *)

Definition hex_digit (d : N) : ascii :=
  match d with
  | 0 => "0" | 1 => "1" | 2 => "2" | 3 => "3"
  | 4 => "4" | 5 => "5" | 6 => "6" | 7 => "7"
  | 8 => "8" | 9 => "9" | 10 => "a" | 11 => "b"
  | 12 => "c" | 13 => "d" | 14 => "e" | _ => "f"
  end%N%char.

(** The hexadecimal digits of [n] before [acc], most significant first. *)
Fixpoint hex_digits (fuel : nat) (n : N) (acc : pystr) : pystr :=
  let acc := hex_digit (n mod 16) :: acc in
  match fuel with
  | O => acc
  | S fuel => if decide (n / 16 = 0)%N then acc else hex_digits fuel (n / 16)%N acc
  end.

(** Python 2's [hex]: a long integer, one outside the 64-bit range, has a
    trailing [L]. *)
Definition hex (i : Z) : pystr :=
  (if i <? 0 then $"-0x" else $"0x") ++
  hex_digits (N.size_nat (Z.abs_N i)) (Z.abs_N i) [] ++
  (if (- 2 ^ 63 <=? i) && (i <? 2 ^ 63) then [] else $"L").

(** [s.lower()] on an ASCII string. *)
Definition lower_char (c : ascii) : ascii :=
  let n := N_of_ascii c in
  if ((65 <=? n) && (n <=? 90))%N then ascii_of_N (n + 32) else c.

(** The dictionary [hex2bin]; [None] for a character that is no key of it. *)
Definition hex2bin (c : ascii) : option pystr :=
  match c with
  | "0" => Some $"0000" | "1" => Some $"0001" | "2" => Some $"0010"
  | "3" => Some $"0011" | "4" => Some $"0100" | "5" => Some $"0101"
  | "6" => Some $"0110" | "7" => Some $"0111" | "8" => Some $"1000"
  | "9" => Some $"1001" | "a" => Some $"1010" | "b" => Some $"1011"
  | "c" => Some $"1100" | "d" => Some $"1101" | "e" => Some $"1110"
  | "f" => Some $"1111" | _ => None
  end%char.

(** [s.lower().replace('l', '')] *)
Definition lower_no_l (s : pystr) : pystr :=
  filter (fun c => c <> "l"%char) (lower_char <$> s).

Definition int2bin (i n : Z) : py pystr :=
  (* ''.join([hex2bin[x] for x in hex(i).lower().replace('l','')[2:]]) *)
  let digits := py_from (lower_no_l (hex i)) 2 in
  let! parts := or_raise KeyError (mapM hex2bin digits) in
  let result := join [] parts in
  if bool_decide ("1"%char ∈ py_upto result (- n)) then Err ValueError else
  let result := py_from result (- n) in
  Ok (replicate (Z.to_nat (n - py_len result)) "0"%char ++ result).

(** The value of a string of binary digits; [None] for another character. *)
Fixpoint bin_digits (acc : Z) (s : pystr) : option Z :=
  match s with
  | [] => Some acc
  | c :: s' =>
      if decide (c = "0"%char) then bin_digits (2 * acc) s'
      else if decide (c = "1"%char) then bin_digits (2 * acc + 1) s'
      else None
  end.

(** [int(s, 2)]: blanks around, a sign and a [0b] prefix are accepted. *)
Definition bin2int (bin_string : pystr) : py Z :=
  let s := strip bin_string in
  let '(sign, s) :=
    match s with
    | "-"%char :: s' => (-1, s')
    | "+"%char :: s' => (1, s')
    | _ => (1, s)
    end in
  let s := if startswith s $"0b" || startswith s $"0B" then drop 2 s else s in
  match s with
  | [] => Err ValueError
  | _ => let! v := or_raise ValueError (bin_digits 0 s) in Ok (sign * v)
  end.

(** *** Arithmetic *)

(** The loop of [gcf] on integers: [abs(remainder) > epsilon] holds of every
    non-zero one.  [|min(a, b)|] iterations are enough: each replaces the
    remainder by one of smaller magnitude. *)
Definition gcf_loop (fuel : nat) (a b : Z) : option (Z * Z) :=
  while_loop fuel (fun '(_, remainder) => negb (remainder =? 0))
    (fun '(result, remainder) => (remainder, result mod remainder)) (Z.max a b, Z.min a b).

Definition gcf (a b : Z) : option Z :=
  (fun st => Z.abs st.1) <$> gcf_loop (Z.abs_nat (Z.min a b)) a b.

Definition lcm (a b : Z) : option Z :=
  (fun denom => if denom =? 0 then 0 else a * (b / denom)) <$> gcf a b.

(** [x / y] on integers. *)
Definition py_floordiv (x y : Z) : py Z :=
  if y =? 0 then Err ZeroDivisionError else Ok (x / y).

Definition reduce_fraction (fraction : Z * Z) : option (py (Z * Z)) :=
  let '(numerator, denominator) := fraction in
  (fun common_factor =>
     let common_factor := Z.abs common_factor in
     let! n := py_floordiv numerator common_factor in
     let! d := py_floordiv denominator common_factor in
     Ok (n, d)) <$> gcf numerator denominator.

Definition lsb (x : Z) (n : N) : Z := Z.land x (2 ^ Z.of_N n - 1).

Definition gray_encode (i : Z) : Z := Z.lxor i (Z.shiftr i 1).

(** [round_grid] of integers; [add_one] is not assigned on every path. *)
Definition round_grid (value grid mode : Z) : py Z :=
  if grid =? 0 then Err ZeroDivisionError else
  let off_grid := value mod grid in
  let add_one :=
    if mode =? 0 then Some (if grid <=? 2 * off_grid then 1 else 0)
    else if (mode =? 1) && negb (off_grid =? 0) then Some 1
    else if (mode =? -1) && negb (off_grid =? 0) then Some 0
    else None in
  let! add_one := or_raise UnboundLocalError add_one in
  Ok ((value / grid + add_one) * grid).

(** *** Enumerating binary strings *)

(** The inner loop of [binary_range]: from position [i], the digits that
    carry flip and the first that does not stops it. *)
Definition ripple_cond (bits : nat) : nat * list ascii * list Z -> bool :=
  fun '(i, _, toggle) => (i <? bits)%nat && bool_decide (toggle !! i = Some 1).

Definition ripple_body : nat * list ascii * list Z -> nat * list ascii * list Z :=
  fun '(i, v, toggle) =>
    if bool_decide (v !! i = Some "0"%char)
    then (S i, <[i := "1"%char]> v, <[S i := 0]> toggle)
    else (S i, <[i := "0"%char]> v, <[S i := 1]> toggle).

Definition toggle_init (bits : nat) : list Z := 1 :: replicate bits 0.

Definition range_cond (bits : nat) : list pystr * list ascii * list Z -> bool :=
  fun '(_, _, toggle) => bool_decide (toggle !! bits <> Some 1).

(** The outer loop's body: emit the number, then count up.  The inner loop
    runs at most [bits] times. *)
Definition range_body (bits : nat)
  : list pystr * list ascii * list Z -> list pystr * list ascii * list Z :=
  fun '(l, v, _) =>
    let l := l ++ [reverse v] in
    match while_loop bits (ripple_cond bits) ripple_body (0%nat, v, toggle_init bits) with
    | Some (_, v, toggle) => (l, v, toggle)
    | None => (l, v, toggle_init bits)
    end.

Definition binary_range (bits : nat) : option (list pystr) :=
  (fun st => st.1.1) <$>
  while_loop (2 ^ bits) (range_cond bits) (range_body bits)
    ([], replicate bits "0"%char, toggle_init bits).

(** *** Random vectors *)

(** [random_vec], the results of [int(2**10 * random.random())] being the list
    [draws] (integers from 0 to 1023; a missing draw ends the list). *)
Definition random_vec (draws : list Z) (bits : nat) (max_value : option Z)
  : py pystr :=
  let! vector := for_each (fun vector i => let! s := int2bin i 10 in Ok (vector ++ s))
    (take (bits / 10 + 1) draws) [] in
  let largest := 2 ^ Z.of_nat bits - 1 in
  let! vector :=
    match max_value with
    | Some m =>
        if negb (m =? 0) && (m <? largest) then
          let! v := bin2int vector in
          let! q := py_floordiv v largest in
          int2bin (q * m) (Z.of_nat bits)
        else Ok vector
    | None => Ok vector
    end in
  Ok (py_slice vector 0 (Z.of_nat bits)).

(** ** Binary strings and their value *)

Definition is_bin (s : pystr) : Prop := Forall (fun c => c = "0"%char \/ c = "1"%char) s.

Fixpoint bin_val (s : pystr) : Z :=
  match s with
  | [] => 0
  | c :: s' => (if decide (c = "1"%char) then 2 ^ py_len s' else 0) + bin_val s'
  end.

Lemma py_len_cons {A} (x : A) l : py_len (x :: l) = py_len l + 1.
Proof. unfold py_len. rewrite length_cons. lia. Qed.

Lemma py_len_app {A} (l1 l2 : list A) : py_len (l1 ++ l2) = py_len l1 + py_len l2.
Proof. unfold py_len. rewrite length_app. lia. Qed.

Lemma py_len_nonneg {A} (l : list A) : 0 <= py_len l.
Proof. unfold py_len. lia. Qed.

#[local] Hint Resolve py_len_nonneg : core.

Lemma bin_val_app s1 s2 : bin_val (s1 ++ s2) = bin_val s1 * 2 ^ py_len s2 + bin_val s2.
Proof.
  induction s1 as [|c s1 IH]; cbn [app bin_val]; [lia|].
  rewrite IH, py_len_app, Z.pow_add_r by done. case_decide; lia.
Qed.

Lemma bin_val_bound s : 0 <= bin_val s < 2 ^ py_len s.
Proof.
  induction s as [|c s IH]; cbn [bin_val]; [done|].
  rewrite py_len_cons, Z.pow_add_r by done. case_decide; lia.
Qed.

Lemma bin_val_zero s : bin_val s = 0 <-> "1"%char ∉ s.
Proof.
  induction s as [|c s IH]; cbn [bin_val]; [by split; [intros; set_solver|]|].
  rewrite not_elem_of_cons, <- IH. pose proof (bin_val_bound s).
  pose proof (Z.pow_pos_nonneg 2 (py_len s) ltac:(lia) ltac:(done)).
  case_decide; subst; split; intros; try lia; [tauto|split; [congruence|lia]].
Qed.

Lemma bin_val_replicate0 n : bin_val (replicate n "0"%char) = 0.
Proof. apply bin_val_zero. intros [? _]%elem_of_replicate. done. Qed.

Lemma bin_val_replicate1 n : bin_val (replicate n "1"%char) = 2 ^ Z.of_nat n - 1.
Proof.
  induction n as [|n IH]; [done|]. cbn [replicate bin_val]. unfold py_len.
  rewrite length_replicate, IH, decide_True by done.
  rewrite Nat2Z.inj_succ, Z.pow_succ_r by lia. lia.
Qed.

Lemma is_bin_app s1 s2 : is_bin (s1 ++ s2) <-> is_bin s1 /\ is_bin s2.
Proof. apply Forall_app. Qed.

Lemma is_bin_replicate0 n : is_bin (replicate n "0"%char).
Proof. apply Forall_replicate. by left. Qed.

(** A binary string is determined by its length and its value. *)
Lemma bin_val_inj s1 s2 :
  is_bin s1 -> is_bin s2 -> py_len s1 = py_len s2 -> bin_val s1 = bin_val s2 -> s1 = s2.
Proof.
  intros H1. revert s2.
  induction H1 as [|c s1 Hc H1 IH]; intros [|d s2] H2 Hl Hv; try done.
  apply Forall_cons in H2 as [Hd H2]. rewrite !py_len_cons in Hl.
  cbn [bin_val] in Hv.
  pose proof (bin_val_bound s1) as Hb1. pose proof (bin_val_bound s2) as Hb2.
  assert (py_len s1 = py_len s2) as Hl' by lia. rewrite Hl' in Hv, Hb1.
  destruct Hc as [-> | ->], Hd as [-> | ->]; repeat case_decide; try done;
    try (f_equal; apply IH; [done|done|]); lia.
Qed.

Lemma bin_digits_val acc s :
  is_bin s -> bin_digits acc s = Some (acc * 2 ^ py_len s + bin_val s).
Proof.
  intros Hs. revert acc. induction Hs as [|c s Hc _ IH]; intros acc.
  - change (py_len []) with 0. cbn [bin_digits bin_val]. f_equal. lia.
  - rewrite py_len_cons, Z.pow_add_r by done.
    destruct Hc as [-> | ->]; cbn [bin_digits bin_val];
      repeat case_decide; try done; rewrite IH; f_equal; lia.
Qed.

Lemma lstrip_not_ws s : Forall (fun c => is_ws c = false) s -> lstrip s = s.
Proof. intros [|c s' Hc _]; cbn; [done|by rewrite Hc]. Qed.

Lemma strip_not_ws s : Forall (fun c => is_ws c = false) s -> strip s = s.
Proof.
  intros Hs. unfold strip.
  rewrite (lstrip_not_ws s), lstrip_not_ws by by rewrite ?Forall_reverse.
  apply reverse_involutive.
Qed.

Lemma bin2int_bin s : is_bin s -> s <> [] -> bin2int s = Ok (bin_val s).
Proof.
  intros Hs Hne. unfold bin2int.
  rewrite strip_not_ws by (eapply Forall_impl; [done|]; by intros c [-> | ->]).
  assert (startswith s $"0b" || startswith s $"0B" = false) as Hp.
  { destruct Hs as [|a ? Ha [|b ? Hb Hs]]; [done| |];
      destruct Ha as [-> | ->]; try done; by destruct Hb as [-> | ->]. }
  pose proof (bin_digits_val 0 s Hs) as Hd.
  destruct s as [|c s]; [done|].
  assert (c = "0"%char \/ c = "1"%char) as Hc by by apply Forall_cons in Hs as [? _].
  transitivity (let! v := or_raise ValueError (bin_digits 0 (c :: s)) in Ok (1 * v) : py Z).
  { destruct Hc as [-> | ->]; by rewrite Hp. }
  rewrite Hd. cbn [or_raise rbind]. f_equal. lia.
Qed.

(** *** From hexadecimal digits to bits *)

Definition nibble (d : N) : pystr := default [] (hex2bin (hex_digit d)).

#[export] Instance is_bin_dec s : Decision (is_bin s).
Proof. unfold is_bin. apply _. Defined.

(** A decidable fact about the sixteen digits is checked by evaluation. *)
Lemma lt16_decide (P : N -> Prop) `{forall d, Decision (P d)} d :
  bool_decide (Forall P (N.of_nat <$> seq 0 16)) = true -> (d < 16)%N -> P d.
Proof.
  intros HP%bool_decide_eq_true Hd. rewrite Forall_forall in HP.
  apply HP, list_elem_of_fmap.
  exists (N.to_nat d). rewrite N2Nat.id, elem_of_seq. split; [done|lia].
Qed.

Lemma nibble_bin d : (d < 16)%N -> is_bin (nibble d).
Proof. by apply (lt16_decide (fun d => is_bin (nibble d))). Qed.

Lemma nibble_val d :
  (d < 16)%N -> py_len (nibble d) = 4 /\ bin_val (nibble d) = Z.of_N d.
Proof.
  by apply (lt16_decide (fun d => py_len (nibble d) = 4 /\ bin_val (nibble d) = Z.of_N d)).
Qed.

Lemma hex2bin_digit d : (d < 16)%N -> hex2bin (hex_digit d) = Some (nibble d).
Proof. by apply (lt16_decide (fun d => hex2bin (hex_digit d) = Some (nibble d))). Qed.

(** Hexadecimal digits are lower case already and are no [l]. *)
Lemma hex_digit_lower d :
  (d < 16)%N -> lower_char (hex_digit d) = hex_digit d /\ hex_digit d <> "l"%char.
Proof.
  by apply (lt16_decide
    (fun d => lower_char (hex_digit d) = hex_digit d /\ hex_digit d <> "l"%char)).
Qed.

Definition horner (ds : list N) : Z := foldl (fun v d => 16 * v + Z.of_N d) 0 ds.

Lemma horner_snoc ds d : horner (ds ++ [d]) = 16 * horner ds + Z.of_N d.
Proof. unfold horner. by rewrite foldl_app. Qed.

Lemma hex_digits_spec fuel n acc :
  Z.of_N n < 16 ^ (Z.of_nat fuel + 1) ->
  exists ds, hex_digits fuel n acc = (hex_digit <$> ds) ++ acc /\
    ds <> [] /\ Forall (fun d => d < 16)%N ds /\ horner ds = Z.of_N n.
Proof.
  revert n acc. induction fuel as [|fuel IH]; intros n acc Hn; cbn [hex_digits].
  - exists [n mod 16]%N. split_and!; [done|done| |].
    + constructor; [|done]. apply N.mod_lt. done.
    + rewrite Z.add_0_l in Hn. rewrite N.mod_small by lia. unfold horner. cbn. lia.
  - case_decide as H0.
    + exists [n mod 16]%N. split_and!; [done|done| |].
      * constructor; [|done]. apply N.mod_lt. done.
      * apply N.div_small_iff in H0; [|done]. rewrite N.mod_small by done.
        unfold horner. cbn. lia.
    + destruct (IH (n / 16)%N (hex_digit (n mod 16) :: acc)) as (ds & Hds & Hne & Hlt & Hv).
      { rewrite N2Z.inj_div. apply Z.div_lt_upper_bound; [lia|].
        replace (Z.of_nat (S fuel) + 1) with (1 + (Z.of_nat fuel + 1)) in Hn by lia.
        rewrite Z.pow_add_r in Hn by lia. lia. }
      exists (ds ++ [n mod 16]%N). split_and!.
      * by rewrite Hds, fmap_app, <- app_assoc.
      * by destruct ds.
      * apply Forall_app. split; [done|]. constructor; [|done]. by apply N.mod_lt.
      * rewrite horner_snoc, Hv, N2Z.inj_div, N2Z.inj_mod.
        pose proof (Z.div_mod (Z.of_N n) 16). lia.
Qed.

Lemma nibbles_val ds :
  Forall (fun d => d < 16)%N ds ->
  is_bin (mjoin (nibble <$> ds)) /\
  py_len (mjoin (nibble <$> ds)) = 4 * py_len ds /\
  bin_val (mjoin (nibble <$> ds)) = horner ds.
Proof.
  induction ds as [|d ds IH] using rev_ind; intros Hds.
  { by split_and!; [constructor| |]. }
  apply Forall_app in Hds as [Hds [Hd _]%Forall_cons].
  destruct (IH Hds) as (Hb & Hl & Hv), (nibble_val d Hd) as [Hl' Hv'].
  rewrite fmap_app, join_app. cbn [fmap list_fmap mjoin list_join]. rewrite app_nil_r.
  rewrite is_bin_app, py_len_app, bin_val_app, horner_snoc, Hl, Hv, Hl', Hv', py_len_app.
  split_and!; [done|by apply nibble_bin|change (py_len [d]) with 1; lia|lia].
Qed.

Lemma join_nil_mjoin (l : list pystr) : join [] l = mjoin l.
Proof.
  induction l as [|w [|w' l] IH]; cbn in *; [done|by rewrite app_nil_r|].
  by rewrite IH.
Qed.

Lemma N_lt_16_pow_size n : Z.of_N n < 16 ^ (Z.of_nat (N.size_nat n) + 1).
Proof.
  pose proof (N.size_gt n) as Hs.
  assert (N.size n = N.of_nat (N.size_nat n)) as Hsz.
  { destruct n as [|p]; [done|]. cbn [N.size N.size_nat]. clear Hs.
    induction p; cbn [Pos.size Pos.size_nat]; lia. }
  rewrite Hsz in Hs. apply N2Z.inj_lt in Hs. rewrite N2Z.inj_pow, nat_N_Z in Hs.
  eapply Z.lt_le_trans; [done|]. change (Z.of_N 2) with 2.
  change 16 with (2 ^ 4). rewrite <- Z.pow_mul_r by lia.
  apply Z.pow_le_mono_r; lia.
Qed.

Lemma lower_no_l_app s1 s2 : lower_no_l (s1 ++ s2) = lower_no_l s1 ++ lower_no_l s2.
Proof. unfold lower_no_l. by rewrite fmap_app, filter_app. Qed.

Lemma lower_no_l_digits ds :
  Forall (fun d => d < 16)%N ds -> lower_no_l (hex_digit <$> ds) = hex_digit <$> ds.
Proof.
  unfold lower_no_l. induction 1 as [|d ds Hd _ IH]; [done|].
  destruct (hex_digit_lower d Hd) as [Hl Hn]. cbn [fmap list_fmap] in *.
  by rewrite filter_cons, Hl, decide_True, IH.
Qed.

Lemma py_from_app {A} (l1 l2 : list A) : py_from (l1 ++ l2) (py_len l1) = l2.
Proof.
  unfold py_from. unfold py_len. rewrite py_bound_nat, length_app, Nat.min_l by lia.
  apply drop_app_length.
Qed.

(** The digits [int2bin] maps, for a non-negative [i]. *)
Lemma hex_payload i :
  0 <= i ->
  exists ds, py_from (lower_no_l (hex i)) 2 = hex_digit <$> ds /\
    ds <> [] /\ Forall (fun d => d < 16)%N ds /\ horner ds = i.
Proof.
  intros Hi. unfold hex. rewrite (proj2 (Z.ltb_ge i 0)) by done.
  destruct (hex_digits_spec _ (Z.abs_N i) [] (N_lt_16_pow_size _)) as (ds & -> & Hne & Hlt & Hv).
  exists ds. split_and!; [|done|done|rewrite Hv; lia].
  rewrite app_nil_r, !lower_no_l_app, lower_no_l_digits by done.
  assert (forall b : bool, lower_no_l (if b then [] else $"L") = []) as -> by by intros [].
  rewrite app_nil_r. apply (py_from_app $"0x").
Qed.

Lemma mapM_hex2bin ds :
  Forall (fun d => d < 16)%N ds -> mapM hex2bin (hex_digit <$> ds) = Some (nibble <$> ds).
Proof.
  induction 1 as [|d ds Hd _ IH]; [done|]. cbn [fmap list_fmap mapM].
  by rewrite hex2bin_digit, IH.
Qed.

(** ** The theorems *)

(** What [hex] and [hex2bin] make of a non-negative integer, before the
    length is adjusted. *)
Lemma int2bin_payload i :
  0 <= i ->
  exists parts, mapM hex2bin (py_from (lower_no_l (hex i)) 2) = Some parts /\
    is_bin (join [] parts) /\ join [] parts <> [] /\ bin_val (join [] parts) = i.
Proof.
  intros Hi. destruct (hex_payload i Hi) as (ds & -> & Hne & Hlt & Hv).
  exists (nibble <$> ds). rewrite mapM_hex2bin, join_nil_mjoin by done.
  destruct (nibbles_val ds Hlt) as (Hb & Hl & Hbv).
  split_and!; [done|done| |lia]. intros H0. rewrite H0 in Hl.
  destruct ds; [done|]. rewrite py_len_cons in Hl. pose proof (py_len_nonneg ds).
  change (py_len []) with 0 in Hl. lia.
Qed.

Lemma bin_split r n :
  is_bin r -> 0 < n ->
  let k := Z.to_nat (Z.max 0 (py_len r - n)) in
  py_upto r (- n) = take k r /\ py_from r (- n) = drop k r /\
  ("1"%char ∈ take k r <-> 2 ^ n <= bin_val r) /\
  py_len (drop k r) <= n /\
  ("1"%char ∉ take k r -> bin_val (drop k r) = bin_val r).
Proof.
  intros Hr Hn k. unfold py_upto, py_from.
  assert (py_bound r (- n) = k) as ->.
  { unfold py_bound, k. rewrite (proj2 (Z.ltb_lt _ 0)) by lia. do 2 f_equal. lia. }
  pose proof (bin_val_app (take k r) (drop k r)) as Hv. rewrite take_drop in Hv.
  pose proof (bin_val_bound (take k r)) as Ht. pose proof (bin_val_bound (drop k r)) as Hd.
  assert (py_len (drop k r) = Z.min n (py_len r)) as Hl.
  { unfold k, py_len. rewrite length_drop. lia. }
  assert ("1"%char ∈ take k r <-> bin_val (take k r) <> 0) as H1.
  { rewrite bin_val_zero. split; [tauto|]. apply dec_stable. }
  split_and!; [done|done| |lia|].
  - rewrite H1. destruct (decide (n <= py_len r)) as [Hle|Hgt].
    + rewrite Z.min_l in Hl by lia. rewrite Hl in *. split; intros; nia.
    + assert (k = 0%nat) as -> by (unfold k; lia). rewrite take_0. cbn [bin_val].
      split; [done|]. rewrite drop_0 in Hd. rewrite drop_0 in Hl.
      pose proof (Z.pow_lt_mono_r 2 (py_len r) n). intros. lia.
  - rewrite <- bin_val_zero. intros H0. rewrite H0 in Hv. lia.
Qed.

Lemma int2bin_value i n :
  0 <= i < 2 ^ n -> 0 < n ->
  exists s, int2bin i n = Ok s /\ py_len s = n /\ is_bin s /\ bin_val s = i.
Proof.
  intros [Hi Hlt] Hn. unfold int2bin.
  destruct (int2bin_payload i Hi) as (parts & -> & Hb & Hne & Hv). cbn [or_raise rbind].
  set (r := join [] parts) in *. destruct (bin_split r n Hb Hn) as (-> & -> & H1 & Hl & Hv').
  set (k := Z.to_nat (Z.max 0 (py_len r - n))) in *. rewrite Hv in H1.
  assert ("1"%char ∉ take k r) as Hno by (rewrite H1; lia).
  rewrite bool_decide_false by done. eexists. split; [done|]. split_and!.
  - rewrite py_len_app. unfold py_len at 1. rewrite length_replicate. lia.
  - rewrite is_bin_app. split; [apply is_bin_replicate0|]. by apply Forall_drop.
  - by rewrite bin_val_app, bin_val_replicate0, Hv', Hv.
Qed.

Lemma int2bin_overflow i n : 0 < n -> 2 ^ n <= i -> int2bin i n = Err ValueError.
Proof.
  intros Hn Hlt. assert (0 <= i) as Hi by lia. unfold int2bin.
  destruct (int2bin_payload i Hi) as (parts & -> & Hb & Hne & Hv). cbn [or_raise rbind].
  destruct (bin_split _ n Hb Hn) as (-> & -> & H1 & _ & _). rewrite Hv in H1.
  rewrite bool_decide_true; [done|]. by apply H1.
Qed.

Lemma bin_nonempty (s : pystr) : 0 < py_len s -> s <> [].
Proof. by intros ? ->. Qed.

(** [int2bin(i, n)] for a positive width: a non-negative [i] below [2**n]
    gives the string of exactly [n] binary digits that [bin2int] reads back
    as [i], a larger one raises [ValueError]. *)
Theorem int2bin_roundtrip i n :
  0 <= i -> 0 < n ->
  if decide (i < 2 ^ n)
  then exists s, int2bin i n = Ok s /\ py_len s = n /\ is_bin s /\ bin2int s = Ok i
  else int2bin i n = Err ValueError.
Proof.
  intros Hi Hn. case_decide as Hlt; [|apply int2bin_overflow; lia].
  destruct (int2bin_value i n) as (s & -> & Hl & Hb & <-); [lia|done|].
  exists s. split_and!; [done..|]. apply bin2int_bin; [done|]. apply bin_nonempty. lia.
Qed.

Lemma int2bin_roundtrip_witness :
  exists s, int2bin 123 8 = Ok s /\ py_len s = 8 /\ is_bin s /\ bin2int s = Ok 123.
Proof. apply (int2bin_roundtrip 123 8); lia. Defined.

(** [int2bin] outside that domain: a negative integer raises [KeyError]
    (its [hex] has a sign), and with width 0 nothing is truncated or checked,
    so that even a positive integer comes back in full. *)
Theorem int2bin_out_of_domain i n :
  (i < 0 -> int2bin i n = Err KeyError) /\
  (0 <= i -> exists s, int2bin i 0 = Ok s /\ bin2int s = Ok i).
Proof.
  split.
  - intros Hi. unfold int2bin, hex. rewrite (proj2 (Z.ltb_lt i 0)) by done.
    rewrite lower_no_l_app.
    replace (lower_no_l $"-0x") with ($"-0" ++ $"x") by done.
    rewrite <- app_assoc. rewrite (py_from_app $"-0"). done.
  - intros Hi. unfold int2bin.
    destruct (int2bin_payload i Hi) as (parts & -> & Hb & Hne & Hv). cbn [or_raise rbind].
    set (r := join [] parts) in *.
    assert (py_bound r (- 0) = 0%nat) as Hb0.
    { unfold py_bound. change (- 0 <? 0) with false. pose proof (py_len_nonneg r). lia. }
    unfold py_upto, py_from. rewrite Hb0, take_0, drop_0.
    rewrite bool_decide_false by apply not_elem_of_nil.
    rewrite Z2Nat.nonpos by (pose proof (py_len_nonneg r); lia).
    exists r. split; [done|]. rewrite bin2int_bin by done. by f_equal.
Qed.

Lemma int2bin_out_of_domain_witness :
  int2bin (-5) 8 = Err KeyError /\ exists s, int2bin 5 0 = Ok s /\ bin2int s = Ok 5.
Proof. split; apply (int2bin_out_of_domain _ 8); lia. Defined.

(** *** Greatest common factor *)

Lemma gcf_step a b : b <> 0 -> Z.gcd b (a mod b) = Z.gcd a b.
Proof. intros Hb. rewrite Z.gcd_comm, Z.gcd_mod by done. apply Z.gcd_comm. Qed.

Lemma gcf_loop_gcd a b :
  exists r, gcf_loop (Z.abs_nat (Z.min a b)) a b = Some (r, 0) /\ Z.abs r = Z.gcd a b.
Proof.
  unfold gcf_loop.
  destruct (while_loop_total (fun '(_, remainder) => negb (remainder =? 0))
    (fun '(result, remainder) => (remainder, result mod remainder))
    (fun _ => True) (fun st => Z.abs_nat st.2) (Z.abs_nat (Z.min a b))
    (Z.max a b, Z.min a b)) as [[r m] Hw]; [done| |done|].
  - intros [x y] _ Hy%negb_true_iff%Z.eqb_neq. split; [done|]. cbn.
    destruct (decide (0 < y)).
    + pose proof (Z.mod_pos_bound x y). lia.
    + pose proof (Z.mod_neg_bound x y). lia.
  - exists r. rewrite Hw.
    apply (while_loop_inv _ _ (fun st => Z.gcd st.1 st.2 = Z.gcd a b)) in Hw as [Hg Hm].
    + cbn in Hg. apply negb_false_iff, Z.eqb_eq in Hm as ->.
      by rewrite Z.gcd_0_r in Hg.
    + cbn. destruct (Z.max_spec a b) as [[? ->]|[? ->]], (Z.min_spec a b) as [[? ->]|[? ->]];
        try done; try apply Z.gcd_comm; f_equal; lia.
    + intros [x y] Hg Hy%negb_true_iff%Z.eqb_neq. cbn in *. by rewrite gcf_step.
Qed.

(** [gcf(a, b)] on integers terminates within [|min(a, b)|] iterations
    and is the greatest common divisor, whatever the signs. *)
Theorem gcf_gcd a b : gcf a b = Some (Z.gcd a b).
Proof. unfold gcf. destruct (gcf_loop_gcd a b) as (r & -> & Hr). cbn. by rewrite Hr. Qed.

(** [lcm(a, b)] is the least common multiple with the sign of [a * b]
    (so negative for arguments of opposite signs), and 0 when one is 0. *)
Theorem lcm_lcm a b : lcm a b = Some (Z.sgn a * Z.sgn b * Z.lcm a b).
Proof.
  unfold lcm. rewrite gcf_gcd. cbn. f_equal. case_match eqn:E.
  - apply Z.eqb_eq, Z.gcd_eq_0 in E as [-> ->]. done.
  - unfold Z.lcm. set (q := b / Z.gcd a b). rewrite Z.abs_mul.
    assert (Z.sgn b * Z.abs q = q) as Hq.
    { destruct (Z.gcd_divide_r a b) as [q' Hq']. apply Z.eqb_neq in E.
      assert (q = q') as -> by (unfold q; rewrite Hq' at 1; by apply Z.div_mul).
      pose proof (Z.gcd_nonneg a b). rewrite Hq', Z.sgn_mul.
      rewrite (Z.sgn_pos (Z.gcd a b)) by lia. lia. }
    rewrite <- Hq at 1. rewrite <- (Z.abs_sgn a) at 1. lia.
Qed.

(** [reduce_fraction((n, d))] divides both by their greatest common
    divisor, which leaves coprime numbers in the same ratio; [(0, 0)] raises
    [ZeroDivisionError]. *)
Theorem reduce_fraction_spec n d :
  if decide (n = 0 /\ d = 0)
  then reduce_fraction (n, d) = Some (Err ZeroDivisionError)
  else exists n' d', reduce_fraction (n, d) = Some (Ok (n', d')) /\
    n * d' = n' * d /\ Z.gcd n' d' = 1 /\ (n = n' * Z.gcd n d) /\ (d = d' * Z.gcd n d).
Proof.
  unfold reduce_fraction. rewrite gcf_gcd. cbn [fmap option_fmap option_map].
  rewrite (Z.abs_eq (Z.gcd n d)) by apply Z.gcd_nonneg.
  unfold py_floordiv. case_decide as H0; [by destruct H0 as [-> ->]|].
  assert (Z.gcd n d <> 0) as Hg by (intros Hg%Z.gcd_eq_0; tauto).
  rewrite (proj2 (Z.eqb_neq _ _)) by done. cbn [rbind]. do 2 eexists. split; [done|].
  destruct (Z.gcd_divide_l n d) as [p Hp], (Z.gcd_divide_r n d) as [q Hq].
  assert (n / Z.gcd n d = p) as Hpe by (rewrite Hp at 1; by apply Z.div_mul).
  assert (d / Z.gcd n d = q) as Hqe by (rewrite Hq at 1; by apply Z.div_mul).
  pose proof (Z.gcd_div_gcd n d (Z.gcd n d) Hg eq_refl) as H1.
  rewrite Hpe, Hqe in *. split_and!; [nia|done..].
Qed.

(** *** Bits *)

(** [lsb(x, n)] keeps the [n] low bits: the remainder modulo [2**n]. *)
Theorem lsb_mod x n : lsb x n = x mod 2 ^ Z.of_N n.
Proof.
  unfold lsb. rewrite <- Z.land_ones by lia. f_equal. rewrite Z.ones_equiv. lia.
Qed.

Lemma gray_encode_lxor a b :
  Z.lxor (gray_encode a) (gray_encode b) = gray_encode (Z.lxor a b).
Proof.
  unfold gray_encode. rewrite Z.shiftr_lxor. apply Z.bits_inj'. intros n _.
  rewrite !Z.lxor_spec. btauto.
Qed.

(** Counting up flips the trailing ones and the zero above them. *)
Lemma lxor_succ i :
  0 <= i -> exists k, 0 <= k /\ Z.lxor i (i + 1) = 2 ^ (k + 1) - 1.
Proof.
  intros Hi. destruct i as [|p|]; [by exists 0| |done]. clear Hi.
  change (Z.pos p + 1) with (Z.pos (p + 1)). rewrite Pos.add_1_r.
  change (Z.lxor (Z.pos p) (Z.pos (Pos.succ p))) with (Z.of_N (Pos.lxor p (Pos.succ p))).
  induction p as [p (k & Hk & IH)|p _|].
  - exists (k + 1). split; [lia|].
    rewrite (Z.pow_add_r 2 (k + 1)) by lia.
    change (Pos.lxor p~1 (Pos.succ p~1)) with (N.succ_double (Pos.lxor p (Pos.succ p))).
    rewrite N.succ_double_spec. lia.
  - exists 0. split; [done|].
    change (Pos.lxor p~0 (Pos.succ p~0)) with (N.succ_double (N.lxor (N.pos p) (N.pos p))).
    by rewrite N.lxor_nilpotent.
  - by exists 1.
Qed.

Lemma gray_encode_ones k : 0 <= k -> gray_encode (2 ^ (k + 1) - 1) = 2 ^ k.
Proof.
  intros Hk. unfold gray_encode.
  rewrite Z.shiftr_div_pow2, Z.pow_1_r, Z.pow_add_r, Z.pow_1_r by lia.
  replace ((2 ^ k * 2 - 1) / 2) with (Z.ones k).
  - replace (2 ^ k * 2 - 1) with (2 ^ k + Z.ones k) by (rewrite Z.ones_equiv; lia).
    rewrite Z.add_nocarry_lxor.
    + rewrite Z.lxor_assoc, Z.lxor_nilpotent. apply Z.lxor_0_r.
    + rewrite Z.land_ones by done. apply Z.mod_same. lia.
  - rewrite Z.ones_equiv. apply (Z.div_unique _ 2 _ 1); lia.
Qed.

(** [gray_encode] is a Gray code of the natural numbers: the codes of
    consecutive integers differ in exactly one bit, and distinct integers have
    distinct codes. *)
Theorem gray_encode_gray i j :
  0 <= i -> 0 <= j ->
  (exists k, 0 <= k /\ Z.lxor (gray_encode i) (gray_encode (i + 1)) = 2 ^ k) /\
  (gray_encode i = gray_encode j -> i = j).
Proof.
  intros Hi Hj. split.
  - rewrite gray_encode_lxor. destruct (lxor_succ i Hi) as (k & Hk & ->).
    exists k. split; [done|]. by apply gray_encode_ones.
  - intros Heq. apply Z.lxor_eq.
    assert (gray_encode (Z.lxor i j) = 0) as H0.
    { by rewrite <- gray_encode_lxor, Heq, Z.lxor_nilpotent. }
    assert (0 <= Z.lxor i j) as Hn by by apply Z.lxor_nonneg.
    unfold gray_encode in H0. apply Z.lxor_eq in H0.
    rewrite Z.shiftr_div_pow2, Z.pow_1_r in H0 by done.
    pose proof (Z.div_lt (Z.lxor i j) 2). lia.
Qed.

Lemma gray_encode_gray_witness :
  exists k, 0 <= k /\ Z.lxor (gray_encode 5) (gray_encode (5 + 1)) = 2 ^ k.
Proof. apply (gray_encode_gray 5 0); lia. Defined.

(** *** Rounding to a grid *)

(** [round_grid(value, grid)] on integers with a positive grid: mode 0
    gives the nearest multiple (the upper one on a tie), mode 1 the least
    multiple above and mode -1 the greatest below a value off the grid; in
    modes 1 and -1 a value already on the grid raises [UnboundLocalError]. *)
Theorem round_grid_spec value grid :
  0 < grid ->
  (exists r, round_grid value grid 0 = Ok r /\ (grid | r) /\
     - grid < 2 * (r - value) <= grid) /\
  (value mod grid = 0 ->
     round_grid value grid 1 = Err UnboundLocalError /\
     round_grid value grid (-1) = Err UnboundLocalError) /\
  (value mod grid <> 0 ->
     (exists r, round_grid value grid 1 = Ok r /\ (grid | r) /\
        value < r < value + grid) /\
     exists r, round_grid value grid (-1) = Ok r /\ (grid | r) /\
        value - grid < r < value).
Proof.
  intros Hg. unfold round_grid. rewrite (proj2 (Z.eqb_neq grid 0)) by lia.
  pose proof (Z.div_mod value grid ltac:(lia)). pose proof (Z.mod_pos_bound value grid Hg).
  cbn [Z.eqb Pos.eqb andb]. split_and!.
  - case_match eqn:E; cbn [or_raise rbind]; eexists; (split; [done|]);
      (split; [apply Z.divide_factor_r|]); [apply Z.leb_le in E|apply Z.leb_gt in E]; nia.
  - intros ->. done.
  - intros Hne. rewrite (proj2 (Z.eqb_neq _ _)) by done. cbn [negb or_raise rbind].
    split; eexists; (split; [done|]); (split; [apply Z.divide_factor_r|]); nia.
Qed.

Lemma round_grid_spec_witness :
  round_grid 10 5 1 = Err UnboundLocalError.
Proof. apply (round_grid_spec 10 5); [lia|done]. Defined.

(** *** Enumerating binary strings *)

Section binary_range_facts.
Variable bits : nat.

(** The ripple passes over the ones, clearing them and moving the carry. *)
Lemma ripple_ones m fuel pre rest toggle :
  length toggle = S bits -> (length pre + m <= bits)%nat ->
  toggle !! length pre = Some 1 ->
  (forall j, (length pre < j)%nat -> toggle !! j <> Some 1) ->
  exists toggle', length toggle' = S bits /\ toggle' !! (length pre + m)%nat = Some 1 /\
    (forall j, (length pre + m < j)%nat -> toggle' !! j <> Some 1) /\
    while_loop (m + fuel) (ripple_cond bits) ripple_body
      (length pre, pre ++ replicate m "1"%char ++ rest, toggle) =
    while_loop fuel (ripple_cond bits) ripple_body
      ((length pre + m)%nat, pre ++ replicate m "0"%char ++ rest, toggle').
Proof.
  revert pre toggle. induction m as [|m IH]; intros pre toggle Hl Hm H1 H0.
  { exists toggle. rewrite Nat.add_0_r. done. }
  cbn [replicate app].
  destruct (IH (pre ++ ["0"%char]) (<[S (length pre) := 1]> toggle))
    as (toggle' & Hl' & H1' & H0' & Hw).
  - by rewrite length_insert.
  - rewrite length_app. cbn. lia.
  - rewrite length_app, Nat.add_1_r, list_lookup_insert_eq by lia. done.
  - intros j Hj. rewrite length_app in Hj. cbn in Hj.
    rewrite list_lookup_insert_ne by lia. apply H0. lia.
  - rewrite length_app, Nat.add_1_r in *. exists toggle'.
    replace (length pre + S m)%nat with (S (length pre) + m)%nat by lia.
    split_and!; [done..|]. rewrite <- (assoc_L app) in Hw. cbn [app] in Hw.
    rewrite <- (assoc_L app) in Hw. cbn [app] in Hw. rewrite <- Hw.
    cbn [Nat.add while_loop]. unfold ripple_cond at 1. rewrite bool_decide_true by done.
    rewrite (proj2 (Nat.ltb_lt _ _)) by lia. cbn [andb]. f_equal. cbn [ripple_body].
    rewrite bool_decide_false by by rewrite list_lookup_middle.
    by rewrite insert_app_r_alt, Nat.sub_diag by lia.
Qed.

(** Any binary string, least significant digit first, is a run of ones ended
    by a zero or by the end. *)
Lemma bin_split_ones v :
  is_bin v -> exists m rest, v = replicate m "1"%char ++ rest /\
    (rest = [] \/ exists rest', rest = "0"%char :: rest').
Proof.
  induction 1 as [|c v [-> | ->] _ IH].
  - by exists 0%nat, []; eauto.
  - exists 0%nat, ("0"%char :: v). eauto.
  - destruct IH as (m & rest & -> & H). by exists (S m), rest.
Qed.

Lemma toggle_init_spec :
  length (toggle_init bits) = S bits /\ toggle_init bits !! 0%nat = Some 1 /\
  forall j, (0 < j)%nat -> toggle_init bits !! j <> Some 1.
Proof.
  unfold toggle_init. split_and!; [cbn; by rewrite length_replicate|done|].
  intros [|j] Hj; [lia|]. cbn. intros [? _]%lookup_replicate. done.
Qed.

(** The value of digits stored least significant first. *)
Lemma rev_val_cons c v :
  bin_val (reverse (c :: v)) =
  2 * bin_val (reverse v) + (if decide (c = "1"%char) then 1 else 0).
Proof.
  rewrite reverse_cons, bin_val_app. change (py_len [c]) with 1. cbn [bin_val].
  change (py_len []) with 0. rewrite Z.pow_1_r, Z.pow_0_r. lia.
Qed.

Lemma rev_val_run m c v :
  bin_val (reverse (replicate m c ++ v)) =
  bin_val (reverse v) * 2 ^ Z.of_nat m + bin_val (replicate m c).
Proof.
  rewrite reverse_app, bin_val_app, reverse_replicate. unfold py_len.
  by rewrite length_replicate.
Qed.

(** The loop ends where the toggle ahead is not set. *)
Lemma ripple_stop fuel i v toggle :
  (toggle !! i <> Some 1) ->
  while_loop fuel (ripple_cond bits) ripple_body (i, v, toggle) = Some (i, v, toggle).
Proof.
  intros Hi. assert (ripple_cond bits (i, v, toggle) = false) as Hc.
  { unfold ripple_cond. by rewrite bool_decide_false, andb_false_r. }
  destruct fuel; cbn [while_loop]; by rewrite Hc.
Qed.

(** One more step flips the zero above the ones and stops. *)
Lemma ripple_zero fuel m pre rest toggle :
  length pre = m -> length toggle = S bits -> (m < bits)%nat -> toggle !! m = Some 1 ->
  while_loop (S fuel) (ripple_cond bits) ripple_body (m, pre ++ "0"%char :: rest, toggle) =
    Some (S m, pre ++ "1"%char :: rest, <[S m := 0]> toggle).
Proof.
  intros <- Ht Hm H1. cbn [while_loop]. unfold ripple_cond at 1.
  rewrite bool_decide_true by done. rewrite (proj2 (Nat.ltb_lt _ _)) by lia.
  cbn [andb ripple_body]. rewrite bool_decide_true by by rewrite list_lookup_middle.
  rewrite insert_app_r_alt, Nat.sub_diag by lia. cbn [insert list_insert].
  apply ripple_stop. by rewrite list_lookup_insert_eq by lia.
Qed.

(** The inner loop adds one to the number [v] spells, and sets the last
    toggle exactly when it overflows. *)
Lemma ripple_increment v :
  is_bin v -> length v = bits ->
  exists i v' toggle,
    while_loop bits (ripple_cond bits) ripple_body (0%nat, v, toggle_init bits) =
      Some (i, v', toggle) /\
    is_bin v' /\ length v' = bits /\
    (toggle !! bits = Some 1 <-> bin_val (reverse v) + 1 = 2 ^ Z.of_nat bits) /\
    (toggle !! bits <> Some 1 -> bin_val (reverse v') = bin_val (reverse v) + 1).
Proof.
  intros Hv Hl. destruct toggle_init_spec as (Ht & H1 & H0).
  destruct (bin_split_ones v Hv) as (m & rest & -> & Hrest).
  rewrite length_app, length_replicate in Hl. apply is_bin_app in Hv as [_ Hv].
  destruct (ripple_ones m (bits - m) [] rest (toggle_init bits))
    as (t' & Ht' & H1' & H0' & Hw); [done|cbn; lia|done|done|].
  cbn [app length Nat.add] in *. replace (m + (bits - m))%nat with bits in Hw by lia.
  rewrite Hw, rev_val_run, bin_val_replicate1. destruct Hrest as [-> |[rest' ->]].
  - cbn [length] in Hl. rewrite Nat.add_0_r in Hl. subst m.
    rewrite Nat.sub_diag. cbn [while_loop]. unfold ripple_cond. rewrite Nat.ltb_irrefl.
    cbn [andb]. do 3 eexists. split; [done|]. rewrite app_nil_r.
    split_and!; [apply is_bin_replicate0|apply length_replicate| |done].
    change (bin_val (reverse [])) with 0. split; [lia|done].
  - cbn [length] in Hl. replace (bits - m)%nat with (S (length rest')) by lia.
    rewrite ripple_zero by (first [apply length_replicate|done|lia]).
    assert (<[S m := 0]> t' !! bits <> Some 1) as Hov.
    { destruct (decide (S m = bits)) as [<-|].
      - rewrite list_lookup_insert_eq by lia. done.
      - rewrite list_lookup_insert_ne by done. apply H0'. lia. }
    do 3 eexists. split; [done|]. apply Forall_cons in Hv as [_ Hv].
    rewrite rev_val_run, bin_val_replicate0, !rev_val_cons.
    change (if decide ("1" = "1")%char then 1 else 0) with 1.
    change (if decide ("0" = "1")%char then 1 else 0) with 0.
    split_and!; [| |split; [done|]|intros _; lia].
    + rewrite is_bin_app. split; [apply is_bin_replicate0|]. constructor; [by right|done].
    + rewrite length_app, length_replicate. cbn. lia.
    + intros Hfull. exfalso.
      pose proof (bin_val_bound (reverse rest')) as Hb. unfold py_len in Hb.
      rewrite length_reverse in Hb. rewrite <- Hl in Hfull.
      replace (Z.of_nat (m + S (length rest'))) with (Z.of_nat (length rest') + 1 + Z.of_nat m)
        in Hfull by lia.
      rewrite !Z.pow_add_r in Hfull by lia. nia.
Qed.

(** What the outer loop has emitted: the [k] first numbers, [v] spelling the
    next one unless the last toggle says that there is none. *)
Definition range_inv (st : list pystr * list ascii * list Z) : Prop :=
  let '(l, v, toggle) := st in
  is_bin v /\ length v = bits /\
  (forall i s, l !! i = Some s ->
     is_bin s /\ length s = bits /\ bin_val s = Z.of_nat i) /\
  (if decide (toggle !! bits = Some 1) then length l = (2 ^ bits)%nat
   else bin_val (reverse v) = Z.of_nat (length l) /\ (length l < 2 ^ bits)%nat).

Lemma range_body_inv st :
  range_inv st -> range_cond bits st = true ->
  range_inv (range_body bits st) /\
  length (range_body bits st).1.1 = S (length st.1.1).
Proof.
  destruct st as [[l v] toggle]. intros (Hb & Hl & Hall & Hst) Hc.
  cbn in Hc. apply bool_decide_eq_true in Hc. rewrite decide_False in Hst by done.
  destruct Hst as [Hv Hlt]. cbn [range_body].
  destruct (ripple_increment v Hb Hl) as (i & v' & t' & -> & Hb' & Hl' & Hov & Hinc).
  cbn [range_inv fst]. rewrite length_app, Nat.add_1_r. split; [|done].
  split_and!; [done|done| |].
  - intros j s [Hj|[Hge Hj]]%lookup_app_Some; [eauto|].
    apply list_lookup_singleton_Some in Hj as [Hj <-].
    split_and!; [by apply Forall_reverse|by rewrite length_reverse|]. rewrite Hv. lia.
  - case_decide as Ht.
    + apply Hov in Ht. rewrite Hv in Ht. apply Nat2Z.inj. rewrite Nat2Z.inj_pow. lia.
    + assert (Hno := proj2 (not_iff_compat Hov)). rewrite Hinc by done. split; [lia|].
      assert (bin_val (reverse v) + 1 <> 2 ^ Z.of_nat bits) as Hne by tauto.
      apply Nat2Z.inj_lt. apply Nat2Z.inj_lt in Hlt. rewrite Nat2Z.inj_pow in *. lia.
Qed.

Lemma binary_range_values :
  (0 < bits)%nat ->
  exists l, binary_range bits = Some l /\ length l = (2 ^ bits)%nat /\
    forall i s, l !! i = Some s ->
      is_bin s /\ length s = bits /\ bin_val s = Z.of_nat i.
Proof.
  intros Hbits. unfold binary_range.
  assert (range_inv ([], replicate bits "0"%char, toggle_init bits)) as H0.
  { cbn [range_inv]. split_and!; [apply is_bin_replicate0|apply length_replicate|done|].
    destruct toggle_init_spec as (_ & _ & Ht). rewrite decide_False by by apply Ht.
    rewrite reverse_replicate, bin_val_replicate0. split; [done|].
    apply Nat.neq_0_lt_0, Nat.pow_nonzero. done. }
  destruct (while_loop_total (range_cond bits) (range_body bits) range_inv
    (fun st => 2 ^ bits - length st.1.1)%nat (2 ^ bits) _ H0) as [[[l v] t] Hw].
  { intros st Hst Hc. destruct (range_body_inv st Hst Hc) as [Hst' Hl']. split; [done|].
    destruct st as [[l v] t]. destruct Hst as (_ & _ & _ & Hd). cbn in Hc.
    apply bool_decide_eq_true in Hc. rewrite decide_False in Hd by done.
    cbn [fst] in *. lia. }
  { cbn [fst length]. lia. }
  destruct (while_loop_inv _ _ range_inv _ _ _ H0 (fun st H Hc => proj1 (range_body_inv st H Hc)) Hw)
    as [(_ & _ & Hall & Hd) Hc].
  rewrite Hw. exists l. cbn in Hc. apply bool_decide_eq_false in Hc. apply dec_stable in Hc.
  rewrite decide_True in Hd by done. done.
Qed.

End binary_range_facts.

(** [binary_range(bits)] terminates; for a positive width it returns
    the [2**bits] strings that [int2bin] gives for 0, 1, ... in this order, and
    for width 0 it returns the empty list (not the one empty string). *)
Theorem binary_range_spec bits :
  exists l, binary_range bits = Some l /\
  (bits = 0%nat -> l = []) /\
  (bits <> 0%nat -> length l = (2 ^ bits)%nat /\
     forall i s, l !! i = Some s -> int2bin (Z.of_nat i) (Z.of_nat bits) = Ok s).
Proof.
  destruct (decide (bits = 0)%nat) as [->|Hne]; [by exists []|].
  destruct (binary_range_values bits) as (l & Hl & Hlen & Hall); [lia|].
  exists l. split_and!; [done|done|]. intros _. split; [done|]. intros i s Hi.
  destruct (Hall i s Hi) as (Hb & Hs & Hv).
  apply lookup_lt_Some in Hi as Hlt. rewrite Hlen in Hlt.
  apply Nat2Z.inj_lt in Hlt. rewrite Nat2Z.inj_pow in Hlt. change (Z.of_nat 2) with 2 in Hlt.
  destruct (int2bin_value (Z.of_nat i) (Z.of_nat bits)) as (s' & -> & Hs' & Hb' & Hv'); [lia..|].
  f_equal. apply bin_val_inj; [done|done| |congruence]. unfold py_len in *. lia.
Qed.

(** *** Random vectors *)

Lemma int2bin_draws draws vector :
  Forall (fun d => 0 <= d < 1024) draws -> is_bin vector ->
  exists v, for_each (fun vector i => let! s := int2bin i 10 in Ok (vector ++ s)) draws vector
    = Ok v /\ is_bin v /\ length v = (length vector + 10 * length draws)%nat.
Proof.
  intros Hd. revert vector. induction Hd as [|d draws Hd _ IH]; intros vector Hv; cbn [for_each].
  { exists vector. cbn. split_and!; [done|done|lia]. }
  destruct (int2bin_value d 10) as (s & -> & Hl & Hb & _); [done|done|]. cbn [rbind].
  destruct (IH (vector ++ s)) as (v & -> & Hbv & Hlv); [by apply is_bin_app|].
  exists v. split_and!; [done|done|]. rewrite Hlv, length_app. cbn [length].
  unfold py_len in Hl. lia.
Qed.

(** [random_vec(bits)] without a maximum returns exactly [bits] binary
    digits, whatever the random numbers drawn. *)
Theorem random_vec_length draws bits :
  (bits / 10 < length draws)%nat -> Forall (fun d => 0 <= d < 1024) draws ->
  exists v, random_vec draws bits None = Ok v /\ is_bin v /\ length v = bits.
Proof.
  intros Hlen Hd. unfold random_vec.
  destruct (int2bin_draws (take (bits / 10 + 1) draws) []) as (v & -> & Hb & Hl);
    [by apply Forall_take|constructor|]. cbn [rbind].
  eexists. split; [done|]. change 0 with (Z.of_nat 0). rewrite py_slice_nat.
  split; [by apply Forall_take|].
  rewrite drop_0, !length_take, Hl, length_take, Nat.sub_0_r. cbn [length].
  pose proof (Nat.div_mod bits 10). pose proof (Nat.mod_upper_bound bits 10). lia.
Qed.

Lemma random_vec_length_witness :
  exists v, random_vec [1000; 7] 15 None = Ok v /\ is_bin v /\ length v = 15%nat.
Proof. apply random_vec_length; [vm_compute; lia|repeat constructor; lia]. Defined.

(** With a maximum the scaled number may not fit the width. *)
Example random_vec_max_value :
  random_vec [1000; 7; 1023] 15 (Some 30000) = Err ValueError.
Proof. vm_compute. reflexivity. Qed.
