(* ===== verification/RadMath.v ===== *)
(** * [bindings/python/rad_util.py], on numbers

    [polygon_area], [pt2str], [quantile], [trim], [nice_units], [float_range] and
    [getmodule].  As in the rest of [rad_util.py] the division of integers is that of
    Python 2; floats are exact. *)

From Stdlib Require Import QArith Qround Qabs Lqa.
From S2P Require Import Prelude PyFloat.

(** ** [polygon_area] *)

Definition scale (precision : Z) (p : Q * Q) : Z * Z :=
  (int (p.1 * inject_Z precision), int (p.2 * inject_Z precision)).

(** The first point is added at the end unless it is the last one. *)
Definition close_polygon (points : list (Z * Z)) : py (list (Z * Z)) :=
  let! last := py_get points (-1) in
  let! first := py_get points 0 in
  Ok (if decide (last = first) then points else points ++ [first]).

(** The loop over the edges. *)
Fixpoint shoelace (area : Z) (points : list (Z * Z)) : Z :=
  match points with
  | p :: ((q :: _) as points') => shoelace (area + q.1 * p.2 - q.2 * p.1)%Z points'
  | _ => area
  end.

(** The list of points is changed: it is scaled, and closed. *)
Definition polygon_area (points_list : list (Q * Q)) (precision : Z) : list (Z * Z) * py Q :=
  let scaled := scale precision <$> points_list in
  match close_polygon scaled with
  | Err e => (scaled, Err e)
  | Ok points =>
      (points,
       let! _ := raise_unless (negb (Z.eqb precision 0)) ZeroDivisionError in
       Ok (inject_Z (Z.abs (shoelace 0 points / 2)) / inject_Z (precision ^ 2))%Q)
  end.

Definition pt2str {A} (str : A -> pystr) (point : A * A) : pystr :=
  $"(" ++ str point.1 ++ $", " ++ str point.2 ++ $")".

(** ** [quantile] and [trim] *)

Definition quantile (l : list Q) (p : Q) : py Q :=
  let l_sort := py_sort Qle_bool l in
  let n := py_len l in
  let r := (1 + inject_Z (n - 1) * p)%Q in
  let i := int r in
  let f := (r - inject_Z i)%Q in
  if Z.ltb i n then
    let! a := py_get l_sort (i - 1) in
    let! b := py_get l_sort i in
    Ok ((1 - f) * a + f * b)%Q
  else py_get l_sort (i - 1).

(** The median is computed and not used. *)
Definition median (l_sort : list Q) : py Q :=
  let index := (py_len l_sort / 2)%Z in
  if Z.eqb (py_len l_sort mod 2) 0 then
    let! a := py_get l_sort index in
    let! b := py_get l_sort (index - 1) in
    Ok ((a + b) / 2)%Q
  else py_get l_sort index.

Definition in_interval (i q1 q3 x : Q) : bool := Qle_bool (q1 - i) x && Qle_bool x (q3 + i).

Definition trim (l : list Q) : py (list Q) :=
  let l_sort := py_sort Qle_bool l in
  let! _ := median l_sort in
  let! q1 := quantile l_sort (1 # 4) in
  let! q3 := quantile l_sort (3 # 4) in
  let iqr := (q3 - q1)%Q in
  let iqr_extra := (iqr * (3 # 2))%Q in
  Ok (filter (fun x => in_interval iqr_extra q1 q3 x = true) l_sort).

(** ** [nice_units] *)

Inductive number := Int (z : Z) | Float (q : Q).

Definition val (n : number) : Q := match n with Int z => inject_Z z | Float q => q end.

(** [a / b]: of two integers, rounded down. *)
Definition div (a b : number) : number :=
  match a, b with
  | Int a, Int b => Int (a / b)
  | _, _ => Float (val a / val b)
  end.

(** A multiplier, and the short and the full name of the prefix. *)
Notation prefix := (number * (pystr * pystr))%type.

Definition si_prefixes : list prefix :=
  [(Float (q10 24), ($"Y", $"yotta")); (Float (q10 21), ($"Z", $"zetta")); (Float (q10 18), ($"E", $"exa"));
   (Float (q10 15), ($"P", $"peta")); (Float (q10 12), ($"T", $"tera")); (Float (q10 9), ($"G", $"giga"));
   (Float (q10 6), ($"M", $"mega")); (Float (q10 3), ($"k", $"kilo")); (Float (q10 (-3)), ($"m", $"milli"));
   (Float (q10 (-6)), ($"u", $"micro")); (Float (q10 (-9)), ($"n", $"nano")); (Float (q10 (-12)), ($"p", $"pico"));
   (Float (q10 (-15)), ($"f", $"femto")); (Float (q10 (-18)), ($"a", $"atto")); (Float (q10 (-21)), ($"z", $"zepto"));
   (Float (q10 (-24)), ($"y", $"yocto"))].

Definition extra_prefixes : list prefix :=
  [(Float (q10 2), ($"h", $"hecto")); (Float (q10 1), ($"da", $"deka"));
   (Float (q10 (-1)), ($"d", $"deci")); (Float (q10 (-2)), ($"c", $"centi"))].

Definition bin_prefixes : list prefix :=
  [(Int (2 ^ 10), ($"K", $"kilo")); (Int (2 ^ 20), ($"M", $"mega")); (Int (2 ^ 30), ($"G", $"mega"));
   (Int (2 ^ 40), ($"T", $"tera")); (Int (2 ^ 50), ($"P", $"peta")); (Int (2 ^ 60), ($"E", $"exa"))].

(** The prefixes by the sorted keys. *)
Definition prefixes_of (mode : pystr) (use_extra_prefixes : bool) : list prefix :=
  let si := si_prefixes ++ (if use_extra_prefixes then extra_prefixes else []) in
  let prefixes := (if decide (mode = $"bin") then bin_prefixes else si) ++ [(Int 1, ([], []))] in
  py_sort (fun a b => Qle_bool (val a.1) (val b.1)) prefixes.

Definition Qltb (a b : Q) : bool := negb (Qle_bool b a).

(** The first multiplier that is not greater than the value, while the next one is. *)
Fixpoint find_multiplier (value : Q) (i : nat) (multipliers : list Q) : option nat :=
  match multipliers with
  | lower :: ((upper :: _) as multipliers') =>
      if Qle_bool lower value && Qltb value upper then Some i else find_multiplier value (S i) multipliers'
  | _ => None
  end.

Definition multiplier_index (value : Q) (multipliers : list Q) : py nat :=
  let! first := py_get multipliers 0 in
  let! last := py_get multipliers (-1) in
  if Qltb value first then Ok 0
  else if Qle_bool last value then Ok (length multipliers - 1)
  else or_raise UnboundLocalError (find_multiplier value 0 multipliers).

Definition nice_units (value : number) (dp : nat) (sigfigs : option nat) (suffix space : pystr)
    (use_extra_prefixes use_full_name : bool) (mode : pystr) : py pystr :=
  let prefixes := prefixes_of mode use_extra_prefixes in
  let! mult_i := multiplier_index (val value) ((fun p : prefix => val p.1) <$> prefixes) in
  let! p := or_raise IndexError (prefixes !! mult_i) in
  let new_value := div value p.1 in
  let '(p, new_value) :=
    match sigfigs, prefixes !! S mult_i with
    | None, Some next =>
        if Qeq_bool (round_to dp (val new_value)) (round_to dp (val (div next.1 p.1)))
        then (next, div value next.1) else (p, new_value)
    | _, _ => (p, new_value)
    end in
  let str_value :=
    match sigfigs with None => show_fixed dp (val new_value) | Some n => show_general n (val new_value) end in
  Ok (str_value ++ space ++ (if use_full_name then p.2.2 else p.2.1) ++ suffix).

(** ** [float_range] *)

Fixpoint float_range_loop (fuel : nat) (cur stop step : Q) : option (list Q) :=
  match fuel with
  | O => None
  | S fuel =>
      if Qltb cur stop then cons cur <$> float_range_loop fuel (cur + step) stop step
      else Some []
  end.

Definition float_range (fuel : nat) (start : Q) (stop step : option Q) : option (list Q) :=
  let '(start, stop) := match stop with None => (0%Q, start) | Some stop => (start, stop) end in
  float_range_loop fuel start stop (default 1%Q step).

(** ** [getmodule] *)

(** An object: the module of the globals it has when it is a function, and the same of the
    values of its dictionary, in their order. *)
Record pyobj := { func_globals : option pystr; dict_values : option (list (option pystr)) }.

Definition getmodule {M} (modules : gmap pystr M) (obj : pyobj) : py M :=
  let! module_name :=
    match func_globals obj with
    | Some name => Ok name
    | None =>
        let! items := or_raise AttributeError (dict_values obj) in
        or_raise ValueError (head (omap id items))
    end in
  or_raise KeyError (modules !! module_name).

Example nice_units_doc : nice_units (Float (2 * q10 (-11))) 0 None [] $" " false false $"si" = Ok $"20 p".
Proof. by vm_compute. Qed.

(** Zero and negative numbers, the name of 2 to the 30, and an integer number of bytes. *)
Example nice_units_odd :
  nice_units (Int 0) 0 None [] $" " false false $"si" = Ok $"0 y" /\
  nice_units (Int (-1)) 0 None [] $" " false false $"si" = Ok $"-1000000000000000000000000 y" /\
  nice_units (Int (2 ^ 30)) 0 None [] $" " false true $"bin" = Ok $"1 mega" /\
  nice_units (Int 1536) 1 None [] $" " false false $"bin" = Ok $"1.0 K".
Proof. by vm_compute. Qed.

Example polygon_area_doc :
  snd (polygon_area [(0, 0); (0, 1); (1, 1); (1, 2); (2, 2); (2, 0); (0, 0)]%Q 100) = Ok (30000 # 10000)%Q.
Proof. by vm_compute. Qed.

(** ** The area *)

Definition edge (p q : Z * Z) : Z := (q.1 * p.2 - q.2 * p.1)%Z.

Lemma shoelace_step a p q ps : shoelace a (p :: q :: ps) = shoelace (a + q.1 * p.2 - q.2 * p.1) (q :: ps).
Proof. done. Qed.

Lemma shoelace_acc a ps : shoelace a ps = (a + shoelace 0 ps)%Z.
Proof.
  revert a. induction ps as [|p [|q ps] IH]; intros a; [cbn; lia..|].
  rewrite !shoelace_step, IH, (IH (0 + _ - _)%Z). lia.
Qed.

Lemma shoelace_cons p q ps : shoelace 0 (p :: q :: ps) = (edge p q + shoelace 0 (q :: ps))%Z.
Proof. rewrite shoelace_step, shoelace_acc. unfold edge. lia. Qed.

Lemma shoelace_app l1 x l2 : shoelace 0 (l1 ++ x :: l2) = (shoelace 0 (l1 ++ [x]) + shoelace 0 (x :: l2))%Z.
Proof.
  induction l1 as [|p [|q l1] IH]; cbn [app]; [done| |].
  - rewrite !shoelace_cons. cbn. lia.
  - cbn [app] in IH. rewrite !shoelace_cons, IH. lia.
Qed.

Lemma shoelace_reverse ps : shoelace 0 (reverse ps) = (- shoelace 0 ps)%Z.
Proof.
  induction ps as [|p [|q ps] IH]; [done..|].
  rewrite reverse_cons, reverse_cons, <- (assoc_L (++)). cbn [app].
  rewrite shoelace_app, <- reverse_cons, IH, !shoelace_cons. unfold edge. cbn. lia.
Qed.

(** Twice the signed area of a closed polygon. *)
Definition cyclic (ps : list (Z * Z)) : Z :=
  match ps with [] => 0 | p :: _ => shoelace 0 (ps ++ [p]) end.

Lemma cyclic_rotate l1 l2 : cyclic (l1 ++ l2) = cyclic (l2 ++ l1).
Proof.
  destruct l1 as [|a l1], l2 as [|b l2]; rewrite ?(right_id_L [] (++)); try done.
  unfold cyclic. cbn [app]. rewrite <- !(assoc_L (++)). cbn [app].
  change (a :: l1 ++ b :: l2 ++ [a]) with ((a :: l1) ++ b :: l2 ++ [a]).
  change (b :: l2 ++ a :: l1 ++ [b]) with ((b :: l2) ++ a :: l1 ++ [b]).
  rewrite (shoelace_app (a :: l1) b (l2 ++ [a])), (shoelace_app (b :: l2) a (l1 ++ [b])). cbn [app]. lia.
Qed.

Lemma cyclic_reverse ps : cyclic (reverse ps) = (- cyclic ps)%Z.
Proof.
  destruct ps as [|p ps]; [done|]. rewrite reverse_cons, cyclic_rotate. unfold cyclic. cbn [app].
  rewrite <- shoelace_reverse. f_equal. by rewrite reverse_cons, reverse_app.
Qed.

Lemma close_polygon_spec ps : ps <> [] ->
  exists points, close_polygon ps = Ok points /\ shoelace 0 points = cyclic ps.
Proof.
  intros Hne. destruct (exists_last Hne) as (l & q & E). destruct ps as [|p ps]; [done|].
  assert (py_get (p :: ps) (-1) = Ok q) as Hq.
  { change (-1)%Z with (- Z.of_nat 1)%Z. by rewrite py_get_neg, E, reverse_snoc. }
  assert (py_get (p :: ps) 0 = Ok p) as Hp by by rewrite py_get_lookup.
  unfold close_polygon. rewrite Hq, Hp. cbn [rbind]. eexists. split; [done|]. unfold cyclic.
  case_decide as Hd; [|done]. subst q. rewrite E, <- (assoc_L (++)). cbn [app].
  rewrite (shoelace_app l p [p]), shoelace_cons. unfold edge. cbn. lia.
Qed.

(** Twice the signed area of the triangles from a point to the edges. *)
Fixpoint fan (o : Z * Z) (ps : list (Z * Z)) : Z :=
  match ps with
  | p :: ((q :: _) as ps') => edge (p.1 - o.1, p.2 - o.2)%Z (q.1 - o.1, q.2 - o.2)%Z + fan o ps'
  | _ => 0
  end.

Lemma fan_shoelace o p ps q : last (p :: ps) = Some q ->
  fan o (p :: ps) = (shoelace 0 (p :: ps) + edge o p - edge o q)%Z.
Proof.
  revert p. induction ps as [|p' ps IH]; intros p E.
  - injection E as <-. cbn. lia.
  - rewrite shoelace_cons. change (fan o (p :: p' :: ps)) with
      (edge (p.1 - o.1, p.2 - o.2) (p'.1 - o.1, p'.2 - o.2) + fan o (p' :: ps))%Z.
    rewrite IH by done. unfold edge. cbn. lia.
Qed.

Lemma cyclic_fan p ps : cyclic (p :: ps) = fan p (p :: ps).
Proof.
  destruct (last (p :: ps)) as [q|] eqn:E; [|by apply last_None in E].
  rewrite (fan_shoelace p p ps q E). unfold cyclic.
  apply last_Some in E as [l ->]. rewrite <- (assoc_L (++)). cbn [app].
  rewrite (shoelace_app l q [p]), shoelace_cons. unfold edge. cbn. lia.
Qed.

Lemma polygon_area_cyclic points precision :
  points <> [] -> precision <> 0%Z ->
  snd (polygon_area points precision) =
    Ok (inject_Z (Z.abs (cyclic (scale precision <$> points) / 2)) / inject_Z (precision ^ 2))%Q.
Proof.
  intros Hne Hp. unfold polygon_area.
  destruct (close_polygon_spec (scale precision <$> points)) as (ps & -> & ->); [by destruct points|].
  apply Z.eqb_neq in Hp. by rewrite Hp.
Qed.

(** The area is that of the triangles from the first point, of the points scaled to
    integers, and half of an odd number is rounded down.  It does not depend on the point
    the polygon starts with; of the points in reverse order the sum is the opposite, which
    gives the same area when it is even. *)
Theorem polygon_area_spec points points' precision p ps :
  points ++ points' <> [] -> precision <> 0%Z -> scale precision <$> (points ++ points') = p :: ps ->
  let area s := Ok (inject_Z (Z.abs (s / 2)) / inject_Z (precision ^ 2))%Q in
  snd (polygon_area (points ++ points') precision) = area (fan p (p :: ps)) /\
  snd (polygon_area (points' ++ points) precision) = area (fan p (p :: ps)) /\
  snd (polygon_area (reverse (points ++ points')) precision) = area (- fan p (p :: ps))%Z /\
  (Z.Even (fan p (p :: ps)) -> area (- fan p (p :: ps))%Z = area (fan p (p :: ps)) :> py Q).
Proof.
  intros Hne Hp E area.
  assert (cyclic (scale precision <$> (points ++ points')) = fan p (p :: ps)) as Ec by (rewrite E; apply cyclic_fan).
  split_and!.
  - rewrite polygon_area_cyclic, Ec by done. done.
  - rewrite polygon_area_cyclic; [|by intros [-> ->]%app_eq_nil|done].
    rewrite fmap_app, cyclic_rotate, <- fmap_app, Ec. done.
  - rewrite polygon_area_cyclic; [|intros Hn; by rewrite <- (reverse_involutive (_ ++ _)), Hn in Hne|done].
    rewrite fmap_reverse, cyclic_reverse, Ec. done.
  - intros [k Hk]. unfold area. do 3 f_equal. rewrite Hk.
    replace (- (2 * k))%Z with (2 * - k)%Z by lia. rewrite !(Z.mul_comm 2), !Z.div_mul by lia. lia.
Qed.

(** ** Sorted lists of numbers *)

Definition Qle_true (x y : Q) : Prop := Qle_bool x y = true.

#[export] Instance Qle_true_dec x y : Decision (Qle_true x y).
Proof. unfold Qle_true. apply _. Defined.

Lemma sort_Q_sorted l : StronglySorted Qle_true (py_sort Qle_bool l).
Proof.
  apply py_sort_sorted.
  - intros x y. rewrite !Qle_bool_iff. destruct (Qlt_le_dec x y); [left; by apply Qlt_le_weak|by right].
  - intros x y z. rewrite !Qle_bool_iff. apply Qle_trans.
Qed.

Lemma sorted_lookup s i j a b :
  StronglySorted Qle_true s -> s !! i = Some a -> s !! j = Some b -> i <= j -> (a <= b)%Q.
Proof.
  intros Hs. revert i j. induction Hs as [|x s Hs IH Hx]; intros i j Ha Hb Hij; [done|].
  destruct i as [|i], j as [|j]; cbn in *; simplify_eq; [apply Qle_refl| |lia|by eapply IH; eauto with lia].
  apply Qle_bool_iff. rewrite Forall_forall in Hx. by apply Hx, list_elem_of_lookup_2 with j.
Qed.

(** How many numbers are at most, and at least, a number. *)
Definition count_le (c : Q) (l : list Q) : nat := length (filter (fun x => Qle_true x c) l).
Definition count_ge (c : Q) (l : list Q) : nat := length (filter (fun x => Qle_true c x) l).

Lemma count_le_sorted s i x c :
  StronglySorted Qle_true s -> s !! i = Some x -> (x <= c)%Q -> S i <= count_le c s.
Proof.
  intros Hs Hi Hc. unfold count_le. rewrite <- (take_drop (S i) s), filter_app, length_app.
  rewrite list_filter_all; [rewrite length_take; apply lookup_lt_Some in Hi; lia|].
  apply Forall_forall. intros y Hy. apply list_elem_of_lookup in Hy as [j Hj].
  apply lookup_take_Some in Hj as [Hj Hlt]. apply Qle_bool_iff.
  eapply Qle_trans; [|exact Hc]. eapply (sorted_lookup s j i); eauto with lia.
Qed.

Lemma count_ge_sorted s i x c :
  StronglySorted Qle_true s -> s !! i = Some x -> (c <= x)%Q -> length s - i <= count_ge c s.
Proof.
  intros Hs Hi Hc. unfold count_ge. rewrite <- (take_drop i s) at 2. rewrite filter_app, length_app.
  rewrite (list_filter_all _ (drop i s)); [rewrite length_drop; lia|].
  apply Forall_forall. intros y Hy. apply list_elem_of_lookup in Hy as [j Hj].
  rewrite lookup_drop in Hj. apply Qle_bool_iff.
  eapply Qle_trans; [exact Hc|]. eapply (sorted_lookup s i (i + j)); eauto with lia.
Qed.

Lemma count_le_above s i x c :
  StronglySorted Qle_true s -> s !! i = Some x -> (c < x)%Q -> count_le c s <= i.
Proof.
  intros Hs Hi Hc. unfold count_le. rewrite <- (take_drop i s), filter_app, length_app.
  assert (filter (fun x => Qle_true x c) (drop i s) = []) as ->.
  { apply elem_of_nil_inv. intros y Hy. apply list_elem_of_filter in Hy as [Hyc Hy].
    apply list_elem_of_lookup in Hy as [j Hj]. rewrite lookup_drop in Hj. apply Qle_bool_iff in Hyc.
    pose proof (sorted_lookup s i (i + j) x y Hs Hi Hj ltac:(lia)). lra. }
  cbn. pose proof (length_filter (fun x => Qle_true x c) (take i s)) as H. rewrite length_take in H. lia.
Qed.

Lemma sort_Q_le l l' i a b :
  l ≡ₚ l' -> py_sort Qle_bool l !! i = Some a -> py_sort Qle_bool l' !! i = Some b -> (a <= b)%Q.
Proof.
  intros Hp Ha Hb. destruct (Qlt_le_dec b a) as [Hlt|]; [|done]. exfalso.
  pose proof (count_le_above _ i a b (sort_Q_sorted l) Ha Hlt) as H1.
  pose proof (count_le_sorted _ i b b (sort_Q_sorted l') Hb (Qle_refl b)) as H2.
  unfold count_le in *. rewrite (py_sort_perm Qle_bool l), Hp, <- (py_sort_perm Qle_bool l') in H1. lia.
Qed.

(** ** The quantile *)

(** The rank, its integer part and its fraction. *)
Definition rank (n : nat) (p : Q) : Q := (1 + inject_Z (Z.of_nat n - 1) * p)%Q.

Lemma rank_bounds n p : 0 < n -> (0 <= p <= 1)%Q -> (1 <= rank n p <= inject_Z (Z.of_nat n))%Q.
Proof.
  intros Hn [H0 H1]. unfold rank. assert (0 <= inject_Z (Z.of_nat n - 1))%Q as H.
  { change 0%Q with (inject_Z 0). rewrite <- Zle_Qle. lia. }
  assert (inject_Z (Z.of_nat n) == inject_Z (Z.of_nat n - 1) + 1)%Q as E.
  { change 1%Q with (inject_Z 1). rewrite <- inject_Z_plus. f_equiv. lia. }
  rewrite E. generalize dependent (inject_Z (Z.of_nat n - 1)). intros m Hm _. split; nra.
Qed.

(** The quantile lies between the two values around the rank. *)
Lemma quantile_at l p :
  l <> [] -> (0 <= p <= 1)%Q ->
  exists i a b f, let s := py_sort Qle_bool l in
    s !! i = Some a /\ (s !! S i = Some b \/ (b = a /\ f == 0 /\ S i = length l))%Q /\
    (rank (length l) p == inject_Z (Z.of_nat (S i)) + f)%Q /\ (0 <= f < 1)%Q /\
    exists x, quantile l p = Ok x /\ (x == (1 - f) * a + f * b)%Q.
Proof.
  intros Hne Hp. assert (0 < length l) as Hn by (destruct l; [done|cbn; lia]).
  pose proof (rank_bounds _ _ Hn Hp) as [Hr1 Hr2]. unfold quantile, py_len. fold (rank (length l) p).
  set (r := rank (length l) p) in *. set (s := py_sort Qle_bool l).
  assert (length s = length l) as Hlen by (unfold s; by rewrite py_sort_perm).
  destruct (int_bounds r) as [Hi1 Hi2]; [lra|].
  assert (1 <= int r <= Z.of_nat (length l))%Z as Hir.
  { split.
    - assert (inject_Z 1 < inject_Z (int r + 1))%Q as H by (change (inject_Z 1) with 1%Q; lra).
      rewrite <- Zlt_Qlt in H. lia.
    - assert (inject_Z (int r) <= inject_Z (Z.of_nat (length l)))%Q as H by lra. by rewrite <- Zle_Qle in H. }
  rewrite inject_Z_plus in Hi2. change (inject_Z 1) with 1%Q in Hi2.
  set (i := Z.to_nat (int r - 1)). assert (int r = Z.of_nat (S i)) as Ei by lia.
  destruct (lookup_lt_is_Some_2 s i) as [a Ha]; [lia|].
  assert (py_get s (int r - 1) = Ok a) as Ga.
  { rewrite py_get_lookup by lia. replace (Z.to_nat (int r - 1)) with i by lia. by rewrite Ha. }
  destruct (Z.ltb_spec (int r) (Z.of_nat (length l))) as [Hlt|Hge].
  - destruct (lookup_lt_is_Some_2 s (S i)) as [b Hb]; [lia|].
    exists i, a, b, (r - inject_Z (int r))%Q. split; [done|]. split; [by left|]. rewrite Ei.
    split; [ring|]. rewrite <- Ei. split; [lra|]. rewrite Ga. cbn [rbind].
    assert (py_get s (int r) = Ok b) as Gb.
    { rewrite py_get_lookup by lia. replace (Z.to_nat (int r)) with (S i) by lia. by rewrite Hb. }
    rewrite Gb. cbn [rbind]. eexists. split; [done|reflexivity].
  - assert (int r = Z.of_nat (length l)) as E by lia.
    exists i, a, a, (r - inject_Z (int r))%Q. split; [done|].
    assert (r - inject_Z (int r) == 0)%Q as E0 by (rewrite E in *; lra).
    split; [right; split; [done|split; [done|lia]]|]. rewrite <- Ei. split; [ring|]. split; [lra|].
    rewrite Ga. eexists. split; [done|]. rewrite E0. ring.
Qed.

Lemma between_le f a b : (0 <= f < 1)%Q -> (a <= b)%Q -> (a <= (1 - f) * a + f * b <= b)%Q.
Proof. intros [H0 H1] H. split; nra. Qed.

(** The value after a value of a sorted list, or the value itself, is at least it. *)
Lemma next_le l i (a b : Q) (P : Prop) :
  py_sort Qle_bool l !! i = Some a -> py_sort Qle_bool l !! S i = Some b \/ (b = a /\ P) -> (a <= b)%Q.
Proof.
  intros Ha [Hb|[-> _]]; [|apply Qle_refl]. eapply sorted_lookup; [apply sort_Q_sorted|exact Ha|exact Hb|lia].
Qed.

Lemma quantile_mono l l' p p' x x' :
  l ≡ₚ l' -> l <> [] -> (0 <= p)%Q -> (p <= p')%Q -> (p' <= 1)%Q ->
  quantile l p = Ok x -> quantile l' p' = Ok x' -> (x <= x')%Q.
Proof.
  intros Hl Hne H0 Hp H1 Hx Hx'.
  assert (l' <> []) as Hne' by (intros ->; by apply Permutation_nil_r in Hl).
  assert (0 <= p <= 1)%Q as B by lra. assert (0 <= p' <= 1)%Q as B' by lra.
  destruct (quantile_at l p Hne B) as (i & a & b & f & Ha & Hb & Er & Hf & y & Ey & Vy).
  destruct (quantile_at l' p' Hne' B') as (i' & a' & b' & f' & Ha' & Hb' & Er' & Hf' & y' & Ey' & Vy').
  rewrite Hx in Ey. rewrite Hx' in Ey'. simplify_eq. rewrite Vy, Vy'.
  assert (rank (length l) p <= rank (length l') p')%Q as Hr.
  { rewrite <- Hl. unfold rank. assert (0 <= inject_Z (Z.of_nat (length l) - 1))%Q as Hm.
    { change 0%Q with (inject_Z 0). rewrite <- Zle_Qle. destruct l; [done|cbn [length]; lia]. }
    revert Hm. generalize (inject_Z (Z.of_nat (length l) - 1)). intros m Hm. nra. }
  assert (a <= b)%Q as Hab by (eapply next_le; eauto).
  assert (a' <= b')%Q as Hab' by (eapply next_le; eauto).
  pose proof (between_le f a b Hf Hab). pose proof (between_le f' a' b' Hf' Hab').
  assert (i <= i') as Hi.
  { assert (inject_Z (Z.of_nat (S i)) < inject_Z (Z.of_nat (S i') + 1))%Q as H'.
    { rewrite inject_Z_plus. change (inject_Z 1) with 1%Q. lra. }
    rewrite <- Zlt_Qlt in H'. lia. }
  assert (length (py_sort Qle_bool l') = length l) as Hlen by (by rewrite py_sort_perm, <- Hl).
  destruct (decide (i = i')) as [->|Hne1].
  - pose proof (sort_Q_le l l' i' a a' Hl Ha Ha').
    destruct Hb as [Hb|(-> & Ef & EL)].
    + destruct Hb' as [Hb'|(-> & Ef' & EL)].
      * pose proof (sort_Q_le l l' (S i') b b' Hl Hb Hb'). rewrite Er, Er' in Hr. nra.
      * apply lookup_lt_Some in Hb. rewrite py_sort_perm in Hb. rewrite Hl in Hb. lia.
    + assert ((1 - f) * a + f * a == a)%Q as -> by ring. lra.
  - assert (b <= a')%Q; [|lra]. destruct Hb as [Hb|(-> & Ef & EL)].
    + destruct (lookup_lt_is_Some_2 (py_sort Qle_bool l') (S i)) as [c Hc].
      { apply lookup_lt_Some in Ha'. lia. }
      pose proof (sort_Q_le l l' (S i) b c Hl Hb Hc).
      pose proof (sorted_lookup _ (S i) i' c a' (sort_Q_sorted l') Hc Ha' ltac:(lia)). lra.
    + apply lookup_lt_Some in Ha'. lia.
Qed.

Lemma int_unique (z : Z) (q : Q) : (0 <= q)%Q -> (inject_Z z <= q)%Q -> (q < inject_Z z + 1)%Q -> int q = z.
Proof.
  intros H0 H1 H2. destruct (int_bounds q H0) as [H3 H4].
  assert (inject_Z z < inject_Z (int q + 1))%Q as H5 by lra.
  assert (inject_Z (int q) < inject_Z (z + 1))%Q as H6.
  { rewrite inject_Z_plus. change (inject_Z 1) with 1%Q. lra. }
  rewrite <- Zlt_Qlt in *. lia.
Qed.

Lemma count_le_sort c l : count_le c (py_sort Qle_bool l) = count_le c l.
Proof. unfold count_le. by rewrite py_sort_perm. Qed.

Lemma count_ge_sort c l : count_ge c (py_sort Qle_bool l) = count_ge c l.
Proof. unfold count_ge. by rewrite py_sort_perm. Qed.

Lemma quantile_nil p : quantile [] p = Err IndexError.
Proof.
  unfold quantile. assert (forall k, py_get (@nil Q) k = Err IndexError) as H.
  { intros k. unfold py_get, py_len. cbn [length]. repeat case_match; try done; lia. }
  cbv zeta. destruct (Z.ltb _ _); by rewrite !H.
Qed.

(** The quantile exists for every list that is not empty.  At least [i] of the numbers are
    at most the quantile, where [i] is the integer part of its rank, and at least
    [n - i] of them are at least it.  It does not depend on the order of the list, and it
    grows with [p].  Of the empty list the access raises IndexError. *)
Theorem quantile_spec l l' p p' :
  l <> [] -> (0 <= p)%Q -> (p <= p')%Q -> (p' <= 1)%Q -> l ≡ₚ l' ->
  exists x x' y, quantile l p = Ok x /\ quantile l' p = Ok x' /\ quantile l p' = Ok y /\
    Z.to_nat (int (rank (length l) p)) <= count_le x l /\
    length l - Z.to_nat (int (rank (length l) p)) <= count_ge x l /\
    (x == x')%Q /\ (x <= y)%Q /\ quantile [] p = Err IndexError.
Proof.
  intros Hne H0 Hp H1 Hl.
  assert (l' <> []) as Hne' by (intros ->; by apply Permutation_nil_r in Hl).
  assert (0 <= p <= 1)%Q as B by lra. assert (0 <= p' <= 1)%Q as B' by lra.
  destruct (quantile_at l p Hne B) as (i & a & b & f & Ha & Hb & Er & Hf & x & Ex & Vx).
  destruct (quantile_at l' p Hne' B) as (_ & _ & _ & _ & _ & _ & _ & _ & x' & Ex' & _).
  destruct (quantile_at l p' Hne B') as (_ & _ & _ & _ & _ & _ & _ & _ & y & Ey & _).
  assert (int (rank (length l) p) = Z.of_nat (S i)) as Hi.
  { destruct (rank_bounds (length l) p); [destruct l; [done|cbn; lia]|done|]. apply int_unique; lra. }
  assert (a <= b)%Q as Hab by (eapply next_le; eauto).
  pose proof (between_le f a b Hf Hab) as [Hax Hxb].
  exists x, x', y. rewrite Hi, Nat2Z.id. split_and!; try done.
  - rewrite <- count_le_sort. eapply count_le_sorted; [apply sort_Q_sorted|exact Ha|by rewrite Vx].
  - destruct Hb as [Hb|(_ & _ & EL)]; [|lia].
    rewrite <- count_ge_sort, <- (py_sort_perm Qle_bool l) at 1.
    eapply count_ge_sorted; [apply sort_Q_sorted|exact Hb|by rewrite Vx].
  - assert (p <= 1)%Q by lra. pose proof (Qle_refl p).
    apply Qle_antisym; [by apply (quantile_mono l l' p p)|].
    symmetry in Hl. by apply (quantile_mono l' l p p).
  - eapply (quantile_mono l l p p'); eauto.
  - apply quantile_nil.
Qed.

(** ** Trimming *)

Lemma sort_Q_idemp l : py_sort Qle_bool (py_sort Qle_bool l) = py_sort Qle_bool l.
Proof. apply py_sort_id, sort_Q_sorted. Qed.

Lemma quantile_sort l p : quantile (py_sort Qle_bool l) p = quantile l p.
Proof.
  unfold quantile, py_len. rewrite sort_Q_idemp.
  by replace (length (py_sort Qle_bool l)) with (length l) by by rewrite py_sort_perm.
Qed.

Lemma median_ok (s : list Q) : s <> [] -> exists m, median s = Ok m.
Proof.
  intros Hne. unfold median. assert (0 < py_len s)%Z by (unfold py_len; destruct s; [done|cbn; lia]).
  assert (forall k, (0 <= k < py_len s)%Z -> exists x, py_get s k = Ok x) as G.
  { intros k Hk. rewrite py_get_lookup by lia. unfold py_len in Hk.
    destruct (lookup_lt_is_Some_2 s (Z.to_nat k)) as [x ->]; [lia|]. by exists x. }
  assert (0 <= py_len s / 2 < py_len s)%Z as Hk by (pose proof (Z.div_mod (py_len s) 2); pose proof (Z.mod_pos_bound (py_len s) 2); lia).
  destruct (Z.eqb_spec (py_len s mod 2) 0) as [E|E]; [|by apply G].
  destruct (G _ Hk) as [a ->]. destruct (G (py_len s / 2 - 1)%Z) as [b ->].
  { pose proof (Z.div_mod (py_len s) 2). lia. }
  cbn [rbind]. by eexists.
Qed.

(** When the quartiles are between the same two numbers, there are at most two. *)
Lemma rank_small (l : list Q) (f g : Q) i j :
  l <> [] -> j <= i -> (0 <= f < 1)%Q -> (0 <= g < 1)%Q ->
  (rank (length l) (1 # 4) == inject_Z (Z.of_nat (S i)) + f)%Q ->
  (rank (length l) (3 # 4) == inject_Z (Z.of_nat (S j)) + g)%Q ->
  (i = 0 /\ j = 0) /\ ((f == 0 /\ g == 0) \/ (f == 1 # 4 /\ g == 3 # 4))%Q.
Proof.
  intros Hne Hji Hf Hg. unfold rank. set (m := (Z.of_nat (length l) - 1)%Z). intros Er Er'.
  assert (inject_Z (Z.of_nat (S j)) <= inject_Z (Z.of_nat (S i)))%Q by (rewrite <- Zle_Qle; lia).
  assert (inject_Z m < 2)%Q as Hm by lra. change 2%Q with (inject_Z 2) in Hm. rewrite <- Zlt_Qlt in Hm.
  assert (0 <= m)%Z by (unfold m; destruct l; [done|cbn [length]; lia]).
  assert (inject_Z (Z.of_nat (S i)) < inject_Z 2)%Q as Hi.
  { change (inject_Z 2) with 2%Q. assert (inject_Z m <= 1)%Q; [|lra]. change 1%Q with (inject_Z 1). rewrite <- Zle_Qle. lia. }
  rewrite <- Zlt_Qlt in Hi. assert (i = 0 /\ j = 0) as [-> ->] by lia. split; [done|].
  change (inject_Z (Z.of_nat 1)) with 1%Q in *.
  assert (m = 0 \/ m = 1)%Z as [E|E] by lia; rewrite E in *; unfold inject_Z in Er, Er'; [left|right]; split; lra.
Qed.

(** Some number lies between the quartiles, or the list is so short that all are kept. *)
Lemma quartiles_keep l q1 q3 :
  l <> [] -> quantile l (1 # 4) = Ok q1 -> quantile l (3 # 4) = Ok q3 ->
  exists x, x ∈ py_sort Qle_bool l /\ in_interval ((q3 - q1) * (3 # 2)) q1 q3 x = true.
Proof.
  intros Hne H1 H3.
  assert (q1 <= q3)%Q as Hq by (eapply (quantile_mono l l (1 # 4) (3 # 4)); try done; lra).
  destruct (quantile_at l (1 # 4) Hne ltac:(lra)) as (i & a & b & f & Ha & Hb & Er & Hf & y & Ey & Vy).
  destruct (quantile_at l (3 # 4) Hne ltac:(lra)) as (j & c & d & g & Hc & Hd & Er' & Hg & z & Ez & Vz).
  rewrite H1 in Ey. rewrite H3 in Ez. injection Ey as <-. injection Ez as <-.
  assert (a <= b)%Q as Hab by (eapply next_le; eauto).
  assert (c <= d)%Q as Hcd by (eapply next_le; eauto).
  pose proof (between_le f a b Hf Hab). pose proof (between_le g c d Hg Hcd).
  exists c. split; [by eapply list_elem_of_lookup_2|]. unfold in_interval.
  rewrite andb_true_iff, !Qle_bool_iff. split; [|lra].
  destruct (Nat.lt_ge_cases i j) as [Hij|Hij].
  - destruct Hb as [Hb|(_ & _ & EL)].
    + pose proof (sorted_lookup _ (S i) j b c (sort_Q_sorted l) Hb Hc Hij). lra.
    + apply lookup_lt_Some in Hc. rewrite py_sort_perm in Hc. lia.
  - destruct (rank_small l f g i j) as [[-> ->] Hfg]; try done.
    rewrite Ha in Hc. injection Hc as <-. destruct Hfg as [[Ef Eg]|[Ef Eg]].
    + rewrite Ef, Eg in *. lra.
    + destruct Hb as [Hb|(_ & Ef' & _)]; [|lra]. destruct Hd as [Hd|(_ & Eg' & _)]; [|lra].
      rewrite Hb in Hd. injection Hd as <-. rewrite Vy, Vz, Ef, Eg. lra.
Qed.

Lemma sorted_filter (P : Q -> Prop) `{!forall x, Decision (P x)} l :
  StronglySorted Qle_true l -> StronglySorted Qle_true (filter P l).
Proof.
  induction 1 as [|x l Hl IH Hx]; [constructor|]. rewrite filter_cons. case_decide; [|done].
  constructor; [done|]. rewrite Forall_forall in *. intros y [_ Hy]%list_elem_of_filter. by apply Hx.
Qed.

(** Trimming gives the numbers of the list, in order, that are not further from the
    quartiles than one and a half times the distance between the quartiles: those between
    the quartiles are kept, and of a list that is not empty something is. *)
Theorem trim_spec l :
  l <> [] ->
  exists q1 q3 kept, quantile l (1 # 4) = Ok q1 /\ quantile l (3 # 4) = Ok q3 /\ (q1 <= q3)%Q /\
    trim l = Ok kept /\ kept <> [] /\ StronglySorted Qle_true kept /\
    kept ≡ₚ filter (fun x => in_interval ((q3 - q1) * (3 # 2)) q1 q3 x = true) l /\
    (forall x, x ∈ l -> (q1 <= x <= q3)%Q -> x ∈ kept) /\ trim [] = Err IndexError.
Proof.
  intros Hne. destruct (quantile_at l (1 # 4) Hne ltac:(lra)) as (_ & _ & _ & _ & _ & _ & _ & _ & q1 & E1 & _).
  destruct (quantile_at l (3 # 4) Hne ltac:(lra)) as (_ & _ & _ & _ & _ & _ & _ & _ & q3 & E3 & _).
  assert (q1 <= q3)%Q as Hq by (eapply (quantile_mono l l (1 # 4) (3 # 4)); try done; lra).
  destruct (median_ok (py_sort Qle_bool l)) as [m Em].
  { intros E. apply Hne, Permutation_nil_r. by rewrite <- (py_sort_perm Qle_bool l), E. }
  exists q1, q3, (filter (fun x => in_interval ((q3 - q1) * (3 # 2)) q1 q3 x = true) (py_sort Qle_bool l)).
  split_and!; try done.
  - unfold trim. rewrite Em, !quantile_sort, E1, E3. cbn [rbind]. reflexivity.
  - destruct (quartiles_keep l q1 q3 Hne E1 E3) as (x & Hx & Hin). intros E.
    assert (x ∈ @nil Q) as H; [|by apply not_elem_of_nil in H].
    rewrite <- E. by apply list_elem_of_filter.
  - apply sorted_filter, sort_Q_sorted.
  - by rewrite py_sort_perm.
  - intros x Hx Hx13. apply list_elem_of_filter. rewrite elem_of_py_sort. split; [|done].
    unfold in_interval. rewrite andb_true_iff, !Qle_bool_iff. lra.
Qed.

(** ** The prefix of a number *)

Definition pow10Q (dp : nat) : Q := inject_Z (pow10 dp).

Lemma pow10Q_pos dp : (1 <= pow10Q dp)%Q.
Proof. unfold pow10Q, pow10. change 1%Q with (inject_Z 1). rewrite <- Zle_Qle. lia. Qed.

Lemma int_near (k z : Z) : (inject_Z z - 1 < inject_Z k)%Q -> (z <= k)%Z.
Proof.
  intros H. assert (inject_Z (z - 1) < inject_Z k)%Q as H'.
  { unfold Zminus. rewrite inject_Z_plus, inject_Z_opp. change (inject_Z 1) with 1%Q. lra. }
  rewrite <- Zlt_Qlt in H'. lia.
Qed.

Lemma Qfloor_unique (z : Z) (q : Q) : (inject_Z z <= q)%Q -> (q < inject_Z z + 1)%Q -> Qfloor q = z.
Proof.
  intros H1 H2. pose proof (Qfloor_le q). pose proof (Qlt_floor q).
  assert (z <= Qfloor q)%Z by (rewrite <- (Qfloor_Z z); by apply Qfloor_resp_le).
  assert (inject_Z (Qfloor q) < inject_Z (z + 1))%Q as H4.
  { rewrite inject_Z_plus. change (inject_Z 1) with 1%Q. lra. }
  rewrite <- Zlt_Qlt in H4. lia.
Qed.

Lemma round_to_nonneg dp q : (0 <= q)%Q ->
  (round_to dp q == inject_Z (Qfloor (q * pow10Q dp + (1 # 2))) / pow10Q dp)%Q.
Proof.
  intros H. unfold round_to. rewrite (proj2 (Qle_bool_iff 0 q) H). fold (pow10Q dp).
  by rewrite (Qfloor_comp _ _ (Qplus_comp _ _ (Qmult_comp _ _ (Qabs_pos q H) _ _ (Qeq_refl _)) _ _ (Qeq_refl (1 # 2)))).
Qed.

(** A number below 1000 is rounded to 1000 when it is at most half a digit away. *)
Lemma rounds_to_1000 dp x r :
  (0 <= x)%Q -> (x < 1000)%Q -> (r == 1000)%Q ->
  Qeq_bool (round_to dp x) (round_to dp r) = true <-> (1000 * pow10Q dp <= x * pow10Q dp + (1 # 2))%Q.
Proof.
  intros H0 H1 Hr. pose proof (pow10Q_pos dp) as HP.
  rewrite Qeq_bool_iff, !round_to_nonneg by lra.
  assert (Qfloor (r * pow10Q dp + (1 # 2)) = 1000 * pow10 dp)%Z as ->.
  { apply Qfloor_unique; rewrite Hr, inject_Z_mult; fold (pow10Q dp); change (inject_Z 1000) with 1000%Q; lra. }
  set (m := Qfloor _). pose proof (Qfloor_le (x * pow10Q dp + (1 # 2))) as L1.
  pose proof (Qlt_floor (x * pow10Q dp + (1 # 2))) as L2. fold m in L1, L2.
  unfold Qdiv. rewrite Qmult_inj_r.
  2: { intros E. pose proof (Qmult_inv_r (pow10Q dp)) as E'. rewrite E in E'. lra. }
  rewrite inject_Z_mult. fold (pow10Q dp). change (inject_Z 1000) with 1000%Q.
  split; intros H; [lra|].
  assert (m = 1000 * pow10 dp)%Z as ->; [|by rewrite inject_Z_mult].
  apply Qfloor_unique; rewrite inject_Z_mult; fold (pow10Q dp); change (inject_Z 1000) with 1000%Q; [done|nra].
Qed.

(** Each multiplier is a thousand times the one before. *)
Fixpoint thousands (l : list prefix) : bool :=
  match l with
  | p :: ((next :: _) as l') =>
      Qeq_bool (val (div next.1 p.1)) 1000 && Qeq_bool (val next.1) (1000 * val p.1) &&
      Qltb 0 (val p.1) && thousands l'
  | _ => true
  end.

Lemma thousands_lookup l i p next : thousands l = true -> l !! i = Some p -> l !! S i = Some next ->
  (val (div next.1 p.1) == 1000 /\ val next.1 == 1000 * val p.1 /\ 0 < val p.1)%Q.
Proof.
  revert i. induction l as [|p' [|n' l] IH]; intros i Ht Hp Hn; [done|by destruct i|].
  change (thousands (p' :: n' :: l)) with (Qeq_bool (val (div n'.1 p'.1)) 1000 && Qeq_bool (val n'.1) (1000 * val p'.1) &&
      Qltb 0 (val p'.1) && thousands (n' :: l)) in Ht.
  rewrite !andb_true_iff, !Qeq_bool_iff in Ht. destruct Ht as [[[H1 H2] H3] Ht].
  destruct i as [|i]; [|by eapply IH; eauto].
  cbn in Hp, Hn. simplify_eq. split_and!; [done..|]. unfold Qltb in H3. rewrite negb_true_iff in H3.
  apply Qnot_le_lt. intros H%Qle_bool_iff. by rewrite H in H3.
Qed.

Lemma Qltb_iff a b : Qltb a b = true <-> (a < b)%Q.
Proof.
  unfold Qltb. rewrite negb_true_iff. split.
  - intros H. apply Qnot_le_lt. intros H'%Qle_bool_iff. by rewrite H' in H.
  - intros H. destruct (Qle_bool b a) eqn:E; [|done]. apply Qle_bool_iff in E. lra.
Qed.

Lemma find_multiplier_some v n ms a b :
  head ms = Some a -> last ms = Some b -> (a <= v)%Q -> (v < b)%Q ->
  exists k lo hi, find_multiplier v n ms = Some (n + k) /\ ms !! k = Some lo /\ ms !! S k = Some hi /\
    (lo <= v)%Q /\ (v < hi)%Q.
Proof.
  revert n a. induction ms as [|m [|m' ms] IH]; intros n a Ha Hb Hav Hvb; [done|cbn in *; simplify_eq; lra|].
  injection Ha as <-. cbn [find_multiplier]. fold (find_multiplier v (S n) (m' :: ms)).
  assert (Qle_bool m v = true) as -> by by apply Qle_bool_iff. cbn [andb].
  destruct (Qltb v m') eqn:E.
  - apply Qltb_iff in E. exists 0, m, m'. rewrite Nat.add_0_r. done.
  - assert (m' <= v)%Q. { apply Qnot_lt_le. intros H%Qltb_iff. by rewrite H in E. }
    destruct (IH (S n) m') as (k & lo & hi & H1 & H2 & H3 & H4); [done..|].
    exists (S k), lo, hi. rewrite <- Nat.add_succ_comm. done.
Qed.

(** The digits of a number from 1 up to one that is not rounded to 1000; [x] is at least
    one, or within half a thousandth of a digit of it. *)
Lemma mantissa_bounds dp x :
  (pow10Q dp - (1 # 2000) <= x * pow10Q dp)%Q ->
  exists k, show_fixed dp x = decimals dp k /\ (Qabs (inject_Z k - x * pow10Q dp) <= 1 # 2)%Q /\ (pow10 dp <= k)%Z /\
    ((x * pow10Q dp + (1 # 2) < 1000 * pow10Q dp)%Q -> (k < 1000 * pow10 dp)%Z).
Proof.
  intros Hx. pose proof (pow10Q_pos dp) as HP. assert (0 <= x)%Q as H0 by nra.
  destruct (show_fixed_nonneg dp x H0) as (k & E & H). fold (pow10Q dp) in H.
  exists k. split; [done|]. split; [done|]. apply Qabs_Qle_condition in H as [L R]. split.
  - apply int_near. fold (pow10Q dp). lra.
  - intros Hlt. rewrite Zlt_Qlt, inject_Z_mult. fold (pow10Q dp). change (inject_Z 1000) with 1000%Q. lra.
Qed.

Lemma val_div_float v n : val (div (Float v) n) = (v / val n)%Q.
Proof. by destruct n. Qed.

Definition multipliers (prefixes : list prefix) : list Q := (fun p : prefix => val p.1) <$> prefixes.

Lemma multiplier_index_some v ps first last_p :
  head ps = Some first -> last ps = Some last_p -> (val first.1 <= v)%Q ->
  exists i p, multiplier_index v (multipliers ps) = Ok i /\ ps !! i = Some p /\ (val p.1 <= v)%Q /\
    (forall next, ps !! S i = Some next -> (v < val next.1)%Q).
Proof.
  intros Hf Hl Hv. unfold multiplier_index.
  assert (py_get (multipliers ps) 0 = Ok (val first.1)) as ->.
  { unfold multipliers. rewrite py_get_lookup by lia. destruct ps; [done|]. by injection Hf as ->. }
  assert (py_get (multipliers ps) (-1) = Ok (val last_p.1)) as ->.
  { apply last_Some in Hl as [l ->]. unfold multipliers. change (-1)%Z with (- Z.of_nat 1)%Z.
    by rewrite py_get_neg, fmap_app, reverse_app. }
  cbn [rbind]. destruct (Qltb v (val first.1)) eqn:E; [apply Qltb_iff in E; lra|].
  destruct (Qle_bool (val last_p.1) v) eqn:E'.
  - apply Qle_bool_iff in E'. eexists _, last_p. split; [done|]. unfold multipliers. rewrite length_fmap.
    apply last_Some in Hl as [l ->]. rewrite length_app. cbn [length].
    replace (length l + 1 - 1) with (length l) by lia. split; [by apply list_lookup_middle|]. split; [done|].
    intros next Hn%lookup_lt_Some. rewrite length_app in Hn. cbn in Hn. lia.
  - assert (v < val last_p.1)%Q as Hlt by (apply Qnot_le_lt; intros H%Qle_bool_iff; by rewrite H in E').
    destruct (find_multiplier_some v 0 (multipliers ps) (val first.1) (val last_p.1)) as (k & lo & hi & -> & Hlo & Hhi & H1 & H2);
      [unfold multipliers; destruct ps; [done|by injection Hf as ->]|unfold multipliers; apply last_Some in Hl as [l ->]; rewrite fmap_app; apply last_snoc|done..|].
    apply list_lookup_fmap_Some in Hlo as (p & -> & Ep). apply list_lookup_fmap_Some in Hhi as (n & -> & En).
    exists k, p. split; [done|]. split; [done|]. split; [done|].
    intros next Hn. pose proof (eq_trans (eq_sym En) Hn) as E1. by injection E1 as <-.
Qed.

(** The table of the prefixes without the extra ones. *)
Definition si_table : list prefix :=
  Eval vm_compute in py_sort (fun a b => Qle_bool (val a.1) (val b.1)) (si_prefixes ++ [(Int 1, ([], []))]).

Lemma mantissa_shown dp v (p : prefix) (ps : list prefix) (rest : prefix -> pystr) :
  p ∈ ps -> (pow10Q dp - (1 # 2000) <= v / val p.1 * pow10Q dp)%Q ->
  (v / val p.1 * pow10Q dp + (1 # 2) < 1000 * pow10Q dp)%Q \/ p.2.2 = $"yotta" ->
  exists p0 k, p0 ∈ ps /\
    Ok (show_fixed dp (val (div (Float v) p.1)) ++ rest p) = Ok (decimals dp k ++ rest p0) :> py pystr /\
    (Qabs (inject_Z k - v / val p0.1 * inject_Z (pow10 dp)) <= 1 # 2)%Q /\
    (pow10 dp <= k)%Z /\ ((k < 1000 * pow10 dp)%Z \/ p0.2.2 = $"yotta").
Proof.
  intros Hp Hx Hy. destruct (mantissa_bounds dp _ Hx) as (k & E & H1 & H2 & H3).
  exists p, k. rewrite val_div_float, E. split; [done|]. split; [done|]. split; [done|]. split; [done|].
  destruct Hy as [Hy|Hy]; [left; by apply H3|by right].
Qed.

(** A number of at least a yocto is written with the prefix that leaves a number that reads
    between 1 and 1000: the digits written are those of the number divided by the
    multiplier of the prefix, rounded, and they are at least one unit, and less than a
    thousand units unless the prefix is the last one. *)
Theorem nice_units_spec dp suffix space full mode v :
  mode <> $"bin" -> (q10 (-24) <= v)%Q ->
  exists p k, p ∈ prefixes_of mode false /\
    nice_units (Float v) dp None suffix space false full mode =
      Ok (decimals dp k ++ space ++ (if full then p.2.2 else p.2.1) ++ suffix) /\
    (Qabs (inject_Z k - v / val p.1 * inject_Z (pow10 dp)) <= 1 # 2)%Q /\
    (pow10 dp <= k)%Z /\ ((k < 1000 * pow10 dp)%Z \/ p.2.2 = $"yotta").
Proof.
  intros Hm Hv. assert (prefixes_of mode false = si_table) as ET.
  { unfold prefixes_of. rewrite decide_False by done. by vm_compute. }
  unfold nice_units. rewrite ET. fold (multipliers si_table). cbn [val].
  destruct (multiplier_index_some v si_table (Float (q10 (-24)), ($"y", $"yocto")) (Float (q10 24), ($"Y", $"yotta")))
    as (i & p & -> & Hp & Hpv & Hnext); [by vm_compute..|done|].
  cbn [rbind]. rewrite Hp. cbn [or_raise rbind].
  pose proof (pow10Q_pos dp) as HP.
  assert (0 < val p.1)%Q as Hp0.
  { assert (Forall (fun p : prefix => Qltb 0 (val p.1) = true) si_table) as H by by repeat constructor.
    rewrite Forall_lookup in H. by apply Qltb_iff, (H i). }
  assert (1 <= v / val p.1)%Q as H1 by (apply Qle_shift_div_l; lra).
  assert (p ∈ si_table) as Hin by by eapply list_elem_of_lookup_2.
  set (rest := fun p : prefix => space ++ (if full then p.2.2 else p.2.1) ++ suffix).
  destruct (si_table !! S i) as [next|] eqn:En.
  - destruct (thousands_lookup si_table i p next) as (Hr & Hn & _); [by vm_compute|done..|].
    specialize (Hnext next eq_refl).
    assert (v / val p.1 < 1000)%Q as H1000 by (apply Qlt_shift_div_r; lra).
    rewrite val_div_float. destruct (Qeq_bool _ _) eqn:Eq.
    + apply rounds_to_1000 in Eq; [|lra..|done].
      assert (v / val next.1 == v / val p.1 / 1000)%Q as Ev by (rewrite Hn; field; lra).
      assert (v / val p.1 * pow10Q dp < 1000 * pow10Q dp)%Q by nra.
      apply (mantissa_shown dp v next si_table rest);
        [by eapply list_elem_of_lookup_2|rewrite Ev|left; rewrite Ev];
        generalize dependent (v / val p.1)%Q; intros x **; 
        assert (x / 1000 * pow10Q dp == x * pow10Q dp * (1 # 1000))%Q as -> by field; lra.
    + apply (mantissa_shown dp v p si_table rest); [done|nra|left].
      apply Qnot_le_lt. intros H. apply (rounds_to_1000 dp _ (val (div next.1 p.1))) in H; [|lra..|done].
      by rewrite H in Eq.
  - apply (mantissa_shown dp v p si_table rest); [done|nra|right].
    do 17 (destruct i as [|i]; [by cbn in Hp, En; simplify_eq|]). done.
Qed.

(** ** The range of floats *)

Lemma inject_S n : (inject_Z (Z.of_nat (S n)) == 1 + inject_Z (Z.of_nat n))%Q.
Proof. rewrite Nat2Z.inj_succ. unfold Z.succ. rewrite inject_Z_plus. change (inject_Z 1) with 1%Q. ring. Qed.

Lemma float_range_loop_step fuel cur stop step :
  float_range_loop (S fuel) cur stop step =
    if Qltb cur stop then cons cur <$> float_range_loop fuel (cur + step) stop step else Some [].
Proof. done. Qed.

Lemma float_range_loop_spec n fuel cur stop step :
  (stop <= cur + inject_Z (Z.of_nat n) * step)%Q -> n < fuel ->
  exists l, float_range_loop fuel cur stop step = Some l /\ length l <= n /\
    (stop <= cur + inject_Z (Z.of_nat (length l)) * step)%Q /\
    forall k x, l !! k = Some x -> (x == cur + inject_Z (Z.of_nat k) * step)%Q /\ (x < stop)%Q.
Proof.
  revert fuel cur. induction n as [|n IH]; intros [|fuel] cur H Hf; try lia; rewrite float_range_loop_step.
  - change (inject_Z (Z.of_nat 0)) with 0%Q in H. destruct (Qltb cur stop) eqn:E; [apply Qltb_iff in E; lra|].
    exists []. split; [done|]. split; [done|]. cbn [length]. by change (inject_Z (Z.of_nat 0)) with 0%Q.
  - destruct (Qltb cur stop) eqn:E.
    + apply Qltb_iff in E. destruct (IH fuel (cur + step)%Q) as (l & -> & Hl & Hs & Hk); [rewrite inject_S in H; lra|lia|].
      exists (cur :: l). split; [done|]. cbn [length]. split; [lia|]. split; [rewrite inject_S; lra|].
      intros [|k] x Hx; cbn in Hx; simplify_eq; [by change (inject_Z (Z.of_nat 0)) with 0%Q; split; [ring|]|].
      apply Hk in Hx as [Hx Hlt]. split; [|done]. rewrite Hx, inject_S. ring.
    + exists []. split; [done|]. split; [cbn; lia|]. split; [|done].
      assert (stop <= cur)%Q by (apply Qnot_lt_le; intros H'%Qltb_iff; by rewrite H' in E).
      cbn [length]. change (inject_Z (Z.of_nat 0)) with 0%Q. lra.
Qed.

Lemma float_range_loop_stuck fuel cur stop step :
  (step <= 0)%Q -> (cur < stop)%Q -> float_range_loop fuel cur stop step = None.
Proof.
  intros Hs. revert cur. induction fuel as [|fuel IH]; intros cur Hc; [done|]. rewrite float_range_loop_step.
  rewrite (proj2 (Qltb_iff _ _) Hc), IH by lra. done.
Qed.

(** A range with a positive step ends: it is the numbers from the start, a step apart, that
    are less than the stop.  With a step that is not positive, of a start below the stop,
    it never ends. *)
Theorem float_range_spec start stop step fuel :
  (0 < step)%Q -> Z.to_nat (Qceiling ((stop - start) / step)) < fuel ->
  exists l, float_range fuel start (Some stop) (Some step) = Some l /\
    (forall k x, l !! k = Some x -> (x == start + inject_Z (Z.of_nat k) * step)%Q /\ (x < stop)%Q) /\
    (stop <= start + inject_Z (Z.of_nat (length l)) * step)%Q /\
    ((start < stop)%Q -> forall step' fuel', (step' <= 0)%Q -> float_range fuel' start (Some stop) (Some step') = None).
Proof.
  intros Hs Hf.   destruct (float_range_loop_spec (Z.to_nat (Qceiling ((stop - start) / step))) fuel start stop step) as (l & E & _ & Hl & Hk); [|done|].
  { pose proof (Qle_ceiling ((stop - start) / step)) as Hc.
    assert (inject_Z (Qceiling ((stop - start) / step)) <= inject_Z (Z.of_nat (Z.to_nat (Qceiling ((stop - start) / step)))))%Q as Hz
      by (rewrite <- Zle_Qle; lia).
    assert ((stop - start) / step * step == stop - start)%Q as E by (field; lra).
    generalize dependent ((stop - start) / step)%Q. intros q _ Hq Hz E. nra. }
  exists l. unfold float_range. cbn [default]. do 3 (split; [done|]).
  intros Hlt step' fuel' Hs'. by apply float_range_loop_stuck.
Qed.

Lemma float_range_spec_witness :
  exists l, float_range 20 1 (Some (13 # 10)) (Some (1 # 10)) = Some l /\
    (forall k x, l !! k = Some x -> (x == 1 + inject_Z (Z.of_nat k) * (1 # 10))%Q /\ (x < 13 # 10)%Q) /\
    (13 # 10 <= 1 + inject_Z (Z.of_nat (length l)) * (1 # 10))%Q /\
    ((1 < 13 # 10)%Q -> forall step' fuel', (step' <= 0)%Q -> float_range fuel' 1 (Some (13 # 10)) (Some step') = None).
Proof. apply (float_range_spec 1 (13 # 10) (1 # 10) 20); [lra|vm_compute; lia]. Defined.

Lemma nice_units_spec_witness :
  exists p k, p ∈ prefixes_of $"si" false /\
    nice_units (Float (9999 # 10)) 0 None $"s" $" " false true $"si" =
      Ok (decimals 0 k ++ $" " ++ p.2.2 ++ $"s") :> py _ /\
    (Qabs (inject_Z k - (9999 # 10) / val p.1 * inject_Z (pow10 0)) <= 1 # 2)%Q /\
    (pow10 0 <= k)%Z /\ ((k < 1000 * pow10 0)%Z \/ p.2.2 = $"yotta").
Proof.
  apply (nice_units_spec 0 $"s" $" " true $"si" (9999 # 10)); [by intros ?|]. by apply Qle_bool_iff; vm_compute.
Defined.

Lemma quantile_spec_witness :
  exists x x' y, quantile [3; 1; 2; 5]%Q (1 # 2) = Ok x /\ quantile [5; 3; 2; 1]%Q (1 # 2) = Ok x' /\
    quantile [3; 1; 2; 5]%Q (3 # 4) = Ok y /\ Z.to_nat (int (rank 4 (1 # 2))) <= count_le x [3; 1; 2; 5]%Q /\
    4 - Z.to_nat (int (rank 4 (1 # 2))) <= count_ge x [3; 1; 2; 5]%Q /\ (x == x')%Q /\ (x <= y)%Q /\
    quantile [] (1 # 2) = Err IndexError.
Proof.
  apply (quantile_spec [3; 1; 2; 5]%Q [5; 3; 2; 1]%Q (1 # 2) (3 # 4)); [done|lra..|].
  apply (Permutation_trans (l' := [5; 3; 1; 2]%Q)); [symmetry; apply (Permutation_cons_append [3; 1; 2]%Q 5%Q)|].
  do 2 constructor. constructor.
Defined.

Lemma trim_spec_witness :
  exists q1 q3 kept, quantile [1; 2; 3; 100]%Q (1 # 4) = Ok q1 /\ quantile [1; 2; 3; 100]%Q (3 # 4) = Ok q3 /\ (q1 <= q3)%Q /\
    trim [1; 2; 3; 100]%Q = Ok kept /\ kept <> [] /\ StronglySorted Qle_true kept /\
    kept ≡ₚ filter (fun x => in_interval ((q3 - q1) * (3 # 2)) q1 q3 x = true) [1; 2; 3; 100]%Q /\
    (forall x, x ∈ [1; 2; 3; 100]%Q -> (q1 <= x <= q3)%Q -> x ∈ kept) /\ trim [] = Err IndexError.
Proof. by apply (trim_spec [1; 2; 3; 100]%Q). Defined.

Lemma polygon_area_spec_witness :
  let points := [(0, 0); (2, 0)]%Q in let points' := [(2, 1); (0, 1)]%Q in
  let ps := [(0, 0); (20, 0); (20, 10); (0, 10)]%Z in
  let area s := Ok (inject_Z (Z.abs (s / 2)) / inject_Z (10 ^ 2))%Q in
  snd (polygon_area (points ++ points') 10) = area (fan (0, 0)%Z ps) /\
  snd (polygon_area (points' ++ points) 10) = area (fan (0, 0)%Z ps) /\
  snd (polygon_area (reverse (points ++ points')) 10) = area (- fan (0, 0)%Z ps)%Z /\
  (Z.Even (fan (0, 0)%Z ps) -> area (- fan (0, 0)%Z ps)%Z = area (fan (0, 0)%Z ps) :> py Q).
Proof.
  apply (polygon_area_spec [(0, 0); (2, 0)]%Q [(2, 1); (0, 1)]%Q 10 (0, 0)%Z [(20, 0); (20, 10); (0, 10)]%Z); by vm_compute.
Defined.
