(* ===== verification/TopSort.v ===== *)
(** * [bindings/python/topsort.py]: dependency sorting and cycle finding

    [topsort], [topsort_levels] with [topsort_levels_core], and [find_cycles],
    over any dictionary of the class [PyDict]: the results hold whatever order
    the interpreter enumerates keys in.  A generator is the list of what it
    yields, with how it ends. *)

From S2P Require Import Prelude PyDict RadSeq.

Open Scope Z_scope.

(** ** Definitions *)

Section definitions.
Context {A : Type} `{EqDecision A} {D : Type -> Type} `{PyDict A D}.

(** What the sorts raise.  [topsort] puts its partial answer first in the
    details of [CycleError]; [topsort_levels_core] has none to put. *)
Inductive topsort_exn : Type :=
| CycleError (answer : option (list A)) (num_parents : D Z) (children : D (list A))
| Raised (e : exn).

Definition raising {B} (m : py B) : result topsort_exn B :=
  match m with Ok b => Ok b | Err e => Err (Raised e) end.

(** [d[k] += n] *)
Definition d_add (n : Z) (k : A) (d : D Z) : py (D Z) :=
  let! v := d_item d k in Ok (d_set k (v + n) d).

(** [if not d.has_key(k): d[k] = 0] *)
Definition d_init (k : A) (d : D Z) : D Z :=
  match d_get d k with Some _ => d | None => d_set k 0 d end.

(** One pair of the list: count the parent, record the child. *)
Definition count_pair (st : D Z * D (list A)) (pair : A * A)
  : py (D Z * D (list A)) :=
  let '(num_parents, children) := st in
  let '(parent, child) := pair in
  let num_parents := d_init child (d_init parent num_parents) in
  let! num_parents := d_add 1 child num_parents in
  Ok (num_parents, d_set parent (default [] (d_get children parent) ++ [child]) children).

Definition count_pairs (pairlist : list (A * A)) : py (D Z * D (list A)) :=
  for_each count_pair pairlist (d_empty, d_empty).

(** [[x for x in num_parents.keys() if num_parents[x] == 0]] *)
Definition without_parent (num_parents : D Z) : list A :=
  filter (fun x => d_get num_parents x = Some 0) (d_keys num_parents).

(** The inner loop of [topsort]: a child left without parents joins the
    answer. *)
Definition knock (st : list A * D Z) (child : A) : py (list A * D Z) :=
  let '(answer, num_parents) := st in
  let! num_parents := d_add (-1) child num_parents in
  let! n := d_item num_parents child in
  Ok (if decide (n = 0) then answer ++ [child] else answer, num_parents).

Definition topsort_state : Type := list A * D Z * D (list A).

Definition topsort_body (st : topsort_state) (parent : A) : py topsort_state :=
  let '(answer, num_parents, children) := st in
  let! num_parents := d_delitem parent num_parents in
  match d_get children parent with
  | Some cs =>
      let! '(answer, num_parents) := for_each knock cs (answer, num_parents) in
      Ok (answer, num_parents, d_del parent children)
  | None => Ok (answer, num_parents, children)
  end.

(** [for parent in answer], where the answer grows in the loop: position [i]
    is read again after each body. *)
Fixpoint topsort_loop (fuel : nat) (i : nat) (st : topsort_state)
  : option (py topsort_state) :=
  match st.1.1 !! i with
  | None => Some (Ok st)
  | Some parent =>
      match fuel with
      | O => None
      | S fuel' =>
          match topsort_body st parent with
          | Ok st' => topsort_loop fuel' (S i) st'
          | Err e => Some (Err e)
          end
      end
  end.

(** Every element enters the answer at most once, so that the number of keys
    bounds the iterations. *)
Definition topsort (pairlist : list (A * A)) : option (result topsort_exn (list A)) :=
  match count_pairs pairlist with
  | Err e => Some (Err (Raised e))
  | Ok (num_parents, children) =>
      (fun r =>
         let! '(answer, num_parents, children) := raising r in
         if decide (d_keys num_parents = [])
         then Ok answer
         else Err (CycleError (Some answer) num_parents children)) <$>
      topsort_loop (d_size num_parents) 0
        (without_parent num_parents, num_parents, children)
  end.

(** The body of the loop over a level in [topsort_levels_core]. *)
Definition level_body (st : D Z * D (list A)) (level_parent : A)
  : py (D Z * D (list A)) :=
  let '(num_parents, children) := st in
  let! num_parents := d_delitem level_parent num_parents in
  match d_get children level_parent with
  | Some cs =>
      let! num_parents := for_each (fun d c => d_add (-1) c d) cs num_parents in
      Ok (num_parents, d_del level_parent children)
  | None => Ok (num_parents, children)
  end.

(** The levels yielded, and whether the generator ends by [StopIteration]
    ([Ok]) or by an exception.  Each round removes a key. *)
Fixpoint topsort_levels_core (fuel : nat) (num_parents : D Z) (children : D (list A))
  : option (list (list A) * result topsort_exn ()) :=
  let level_parents := without_parent num_parents in
  if decide (level_parents = []) then
    Some ([], if decide (d_keys num_parents = []) then Ok tt
              else Err (CycleError None num_parents children))
  else
    match fuel with
    | O => None
    | S fuel' =>
        match for_each level_body level_parents (num_parents, children) with
        | Ok (num_parents, children) =>
            (fun '(levels, r) => (level_parents :: levels, r)) <$>
            topsort_levels_core fuel' num_parents children
        | Err e => Some ([level_parents], Err (Raised e))
        end
    end.

Definition topsort_levels (pairlist : list (A * A))
  : option (list (list A) * result topsort_exn ()) :=
  match count_pairs pairlist with
  | Err e => Some ([], Err (Raised e))
  | Ok (num_parents, children) =>
      topsort_levels_core (d_size num_parents) num_parents children
  end.

(** The search for a duplicate of [cycle] among those found, with its
    [break]. *)
Fixpoint is_dup_of (cycles : list (list A)) (cycle : list A) : py bool :=
  match cycles with
  | [] => Ok false
  | other_cycle :: cycles' =>
      let! b := is_rotated other_cycle cycle in
      if b then Ok true else is_dup_of cycles' cycle
  end.

(** The stack of paths (top first), the cycles found and the nodes visited. *)
Definition cycles_state : Type := list (list A) * list (list A) * list A.

(** [path.index(child)] *)
Definition py_index (child : A) (path : list A) : py nat :=
  or_raise ValueError (fst <$> list_find (fun x => x = child) path).

Definition follow_child (path : list A) (st : cycles_state) (child : A)
  : py cycles_state :=
  let '(paths, cycles, visited_nodes) := st in
  if decide (child ∈ path) then
    let! i := py_index child path in
    let cycle := py_from path (Z.of_nat i) in
    let! is_dup := is_dup_of cycles cycle in
    Ok (paths, if is_dup : bool then cycles else cycles ++ [cycle], visited_nodes)
  else Ok ((path ++ [child]) :: paths, cycles, child :: visited_nodes).

(** One iteration of [while paths]; a node that is no key has no children. *)
Definition follow_path (parent_children : D (list A)) (path : list A)
    (st : cycles_state) : py cycles_state :=
  let! parent := py_get path (-1) in
  match d_get parent_children parent with
  | None => Ok st
  | Some children => for_each (follow_child path) children st
  end.

Fixpoint follow_paths (parent_children : D (list A)) (fuel : nat) (st : cycles_state)
  : option (py cycles_state) :=
  let '(paths, cycles, visited_nodes) := st in
  match paths with
  | [] => Some (Ok st)
  | path :: paths' =>
      match fuel with
      | O => None
      | S fuel' =>
          match follow_path parent_children path (paths', cycles, visited_nodes) with
          | Ok st' => follow_paths parent_children fuel' st'
          | Err e => Some (Err e)
          end
      end
  end.

(** [for parent in parent_children] *)
Fixpoint follow_roots (parent_children : D (list A)) (fuel : nat) (roots : list A)
    (cycles : list (list A)) (visited_nodes : list A) : option (py (list (list A))) :=
  match roots with
  | [] => Some (Ok cycles)
  | parent :: roots' =>
      if decide (parent ∈ visited_nodes)
      then follow_roots parent_children fuel roots' cycles visited_nodes
      else
        match follow_paths parent_children fuel ([[parent]], cycles, visited_nodes) with
        | Some (Ok (_, cycles, visited_nodes)) =>
            follow_roots parent_children fuel roots' cycles visited_nodes
        | Some (Err e) => Some (Err e)
        | None => None
        end
  end.

(** The cycles [find_cycles] yields, in order. *)
Definition find_cycles (parent_children : D (list A)) (fuel : nat)
  : option (py (list (list A))) :=
  follow_roots parent_children fuel (d_keys parent_children) [] [].

End definitions.

Arguments topsort_exn A D : clear implicits.

Definition pairs_1 : list (nat * nat) :=
  [(1, 2); (3, 4); (5, 6); (1, 3); (1, 5); (1, 6); (2, 5)]%nat.
Example topsort_doctest :
  topsort (D := fun V => adict nat V) pairs_1 = Some (Ok [1; 2; 3; 5; 4; 6]%nat).
Proof. reflexivity. Qed.
Example topsort_levels_doctest :
  topsort_levels (D := fun V => adict nat V) pairs_1 =
    Some ([[1]; [2; 3]; [4; 5]; [6]]%nat, Ok tt).
Proof. reflexivity. Qed.
Example find_cycles_diamond :
  find_cycles (D := fun V => adict nat V)
    (d_of_list [(1, [2; 3]); (2, [4]); (3, [4]); (4, [1; 2])]%nat) 20 =
    Some (Ok [[1; 3; 4]; [4; 2]; [1; 2; 4]]%nat).
Proof. reflexivity. Qed.

(** ** Chains of a relation *)

Section chains.
Context {A : Type} (R : relation A).
Implicit Types l : list A.

Fixpoint chain l : Prop :=
  match l with
  | x :: (y :: _) as l' => R x y /\ chain l'
  | _ => True
  end.

Lemma chain_cons x l : chain (x :: l) <-> match l with [] => True | y :: _ => R x y end /\ chain l.
Proof. destruct l; cbn; tauto. Qed.

Lemma chain_app l1 x l2 : chain (l1 ++ x :: l2) <-> chain (l1 ++ [x]) /\ chain (x :: l2).
Proof.
  induction l1 as [|y l1 IH]; [cbn; tauto|].
  change (chain ((y :: l1) ++ x :: l2)) with (chain (y :: (l1 ++ x :: l2))).
  change (chain ((y :: l1) ++ [x])) with (chain (y :: (l1 ++ [x]))).
  rewrite (chain_cons y (l1 ++ _)), (chain_cons y (l1 ++ [x])), IH.
  destruct l1; cbn [app]; tauto.
Qed.

Lemma chain_tc x l y : chain (x :: l) -> y ∈ l -> tc R x y.
Proof.
  revert x. induction l as [|z l IH]; intros x; [set_solver|].
  rewrite chain_cons. intros [Hxz Hl] Hy. apply elem_of_cons in Hy as [->|Hy].
  - by apply tc_once.
  - eapply tc_l; [done|]. by apply IH.
Qed.


(** A chain that repeats an element closes a cycle. *)
Lemma chain_dup_tc `{EqDecision A} l : chain l -> ~ NoDup l -> exists x, tc R x x.
Proof.
  induction l as [|x l IH]; intros Hc Hd.
  - destruct Hd. constructor.
  - destruct (decide (x ∈ l)) as [Hx|Hx].
    + exists x. by eapply chain_tc.
    + apply IH; [by apply chain_cons in Hc as [_ ?]|]. intros Hl. by apply Hd; constructor.
Qed.

Lemma tc_flip x y : tc (flip R) x y -> tc R y x.
Proof. induction 1 as [x y Hxy|x y z Hxy _ IH]; [by apply tc_once|]. by eapply tc_r. Qed.

(** In a finite set where everything has a successor there is a cycle. *)
Lemma finite_cycle `{EqDecision A} (U : list A) :
  U <> [] -> (forall x, x ∈ U -> exists y, y ∈ U /\ R x y) -> exists x, tc R x x.
Proof.
  intros Hne Hs.
  assert (forall n, exists l, length l = S n /\ chain l /\ l ⊆ U) as Hl.
  { intros n. cut (forall x, x ∈ U -> exists l, length l = S n /\ chain l /\ l ⊆ U /\ head l = Some x).
    { destruct U as [|u U]; [done|]. intros Hx. destruct (Hx u) as (l & ? & ? & ? & _); [left|eauto]. }
    induction n as [|n IH]; intros x Hx.
    - exists [x]. cbn. split_and!; [done|done|set_solver|done].
    - destruct (Hs x Hx) as (y & Hy & Hxy). destruct (IH y Hy) as (l & Hn & Hc & Hi & Hh).
      exists (x :: l). split_and!; [cbn; lia| |set_solver|done].
      apply chain_cons. by destruct l; simplify_eq/=. }
  destruct (Hl (length U)) as (l & Hn & Hc & Hi).
  apply (chain_dup_tc l Hc). intros Hd.
  pose proof (submseteq_length l U (NoDup_submseteq _ _ Hd Hi)). lia.
Qed.

End chains.

(** ** The pair graph *)

Section pairs.
Context {A : Type} `{EqDecision A}.
Variable E : list (A * A).
Implicit Types (x y : A) (P l : list A).

Definition edge x y : Prop := (x, y) ∈ E.
Definition elements : list A := E.*1 ++ E.*2.

(** The children of [x], and how many pairs give [x] a parent outside [P]. *)
Definition kids x : list A := (filter (fun e => e.1 = x) E).*2.
Definition open_parents P x : nat := length (filter (fun e => e.2 = x /\ e.1 ∉ P) E).
Definition occ x l : nat := length (filter (fun y => y = x) l).

Lemma edge_elements x y : edge x y -> x ∈ elements /\ y ∈ elements.
Proof.
  intros He. unfold elements. rewrite !elem_of_app, !list_elem_of_fmap.
  split; [left|right]; by exists (x, y).
Qed.

Lemma elem_of_kids x y : y ∈ kids x <-> edge x y.
Proof.
  unfold kids, edge. rewrite list_elem_of_fmap. split.
  - intros ([a b] & -> & [Ha Hin]%list_elem_of_filter). cbn in *. by subst.
  - intros He. exists (x, y). split; [done|]. by apply list_elem_of_filter.
Qed.

Lemma elem_of_elements x : x ∈ elements -> exists y, edge x y \/ edge y x.
Proof.
  unfold elements. rewrite elem_of_app, !list_elem_of_fmap.
  intros [([a b] & -> & Hin)|([a b] & -> & Hin)]; cbn; eauto.
Qed.

Lemma occ_cons x y l : occ x (y :: l) = ((if decide (y = x) then 1 else 0) + occ x l)%nat.
Proof. unfold occ. rewrite filter_cons. by case_decide. Qed.

Lemma occ_app x l1 l2 : occ x (l1 ++ l2) = (occ x l1 + occ x l2)%nat.
Proof. unfold occ. by rewrite filter_app, length_app. Qed.

Lemma occ_pos x l : x ∈ l -> (0 < occ x l)%nat.
Proof.
  induction l as [|y l IH]; [set_solver|]. rewrite occ_cons. intros [->|Hx]%elem_of_cons.
  - rewrite decide_True by done. lia.
  - specialize (IH Hx). lia.
Qed.

Lemma occ_not_in x l : x ∉ l -> occ x l = 0%nat.
Proof.
  induction l as [|y l IH]; [done|]. rewrite occ_cons, elem_of_cons. intros Hx.
  rewrite decide_False, IH; naive_solver.
Qed.

Lemma open_parents_zero P x : open_parents P x = 0%nat <-> forall y, edge y x -> y ∈ P.
Proof.
  unfold open_parents. rewrite length_zero_iff_nil. split.
  - intros Hf y He. apply dec_stable. intros Hy.
    assert ((y, x) ∈ filter (fun e => e.2 = x /\ e.1 ∉ P) E) as Hin
      by by apply list_elem_of_filter.
    rewrite Hf in Hin. by apply elem_of_nil in Hin.
  - intros Hall. apply elem_of_nil_inv. intros [y z]. rewrite list_elem_of_filter. cbn.
    intros [[-> Hy] Hin]. by apply Hy, Hall.
Qed.

Lemma open_parents_perm P P' x : P ≡ₚ P' -> open_parents P x = open_parents P' x.
Proof.
  intros HP. unfold open_parents. f_equal. apply list_filter_iff. intros e. by rewrite HP.
Qed.

End pairs.

(** Accounting for one more parent. *)
Lemma open_parents_snoc {A} `{EqDecision A} (E : list (A * A)) P p x :
  p ∉ P -> open_parents E P x = (open_parents E (P ++ [p]) x + occ x (kids E p))%nat.
Proof.
  intros Hp. unfold kids, open_parents. induction E as [|[a b] E IH]; [done|].
  rewrite !filter_cons. cbn [fst snd].
  destruct (decide (a = p)) as [->|Hap].
  - cbn [fmap list_fmap snd]. rewrite occ_cons.
    rewrite (decide_False (P := b = x /\ p ∉ P ++ [p])) by set_solver.
    destruct (decide (b = x)) as [->|Hbx].
    + rewrite decide_True by done. cbn [length]. lia.
    + rewrite decide_False by tauto. lia.
  - destruct (decide (b = x /\ a ∉ P)) as [Hc|Hc].
    + rewrite decide_True by set_solver. cbn [length]. lia.
    + rewrite decide_False by set_solver. lia.
Qed.

(** ** Counting and uncounting parents *)

Section counting.
Context {A : Type} {D : Type -> Type} `{PyDictLaws A D}.
Implicit Types (x p : A) (P : list A) (num_parents : D Z) (children : D (list A)).

(** The dictionaries describe the graph [E] with the parents [P] removed. *)
Definition counted (E : list (A * A)) P num_parents children : Prop :=
  (forall x, d_get num_parents x =
     if decide (x ∈ elements E /\ x ∉ P) then Some (Z.of_nat (open_parents E P x)) else None) /\
  (forall x, d_get children x =
     if decide (x ∉ P /\ kids E x <> []) then Some (kids E x) else None).

(** What is removed is closed under parents. *)
Definition closed (E : list (A * A)) P : Prop := forall x y, edge E x y -> y ∈ P -> x ∈ P.

Lemma d_get_init k d x :
  d_get (d_init k d : D Z) x = if decide (x = k) then Some (default 0 (d_get d k)) else d_get d x.
Proof.
  unfold d_init. destruct (d_get d k) eqn:E.
  - case_decide; subst; [done|done].
  - rewrite d_get_set. cbn. repeat case_decide; congruence.
Qed.

Lemma d_add_Ok n k v (d : D Z) :
  d_get d k = Some v -> d_add n k d = Ok (d_set k (v + n) d).
Proof. unfold d_add, d_item. by intros ->. Qed.

Lemma elements_snoc (E : list (A * A)) a b x :
  x ∈ elements (E ++ [(a, b)]) <-> x ∈ elements E \/ x = a \/ x = b.
Proof. unfold elements. rewrite !fmap_app. set_solver. Qed.

Lemma kids_snoc (E : list (A * A)) a b x :
  kids (E ++ [(a, b)]) x = kids E x ++ if decide (a = x) then [b] else [].
Proof.
  unfold kids. rewrite filter_app, fmap_app, filter_cons. cbn [fst].
  by case_decide.
Qed.

Lemma open_parents_snoc_edge (E : list (A * A)) a b x :
  open_parents (E ++ [(a, b)]) [] x =
  (open_parents E [] x + if decide (b = x) then 1 else 0)%nat.
Proof.
  unfold open_parents. rewrite filter_app, length_app, filter_cons. cbn [fst snd].
  repeat case_decide; try done; set_solver.
Qed.

Lemma open_parents_outside (E : list (A * A)) P x :
  x ∉ elements E -> open_parents E P x = 0%nat.
Proof. rewrite open_parents_zero. intros Hx y Hy. by apply edge_elements in Hy as [_ ?]. Qed.

Lemma count_pair_counted (E : list (A * A)) np ch a b :
  counted E [] np ch ->
  exists st, count_pair (np, ch) (a, b) = Ok st /\ counted (E ++ [(a, b)]) [] st.1 st.2.
Proof.
  intros [Hnp Hch].
  assert (forall x, default 0 (d_get np x) = Z.of_nat (open_parents E [] x)) as Hdef.
  { intros x. rewrite Hnp. case_decide as Hx; [done|]. cbn.
    rewrite open_parents_outside; [done|]. set_solver. }
  assert (forall x, default [] (d_get ch x) = kids E x) as Hkids.
  { intros x. rewrite Hch. case_decide as Hx; [done|]. cbn.
    destruct (kids E x); [done|]. set_solver. }
  cbn [count_pair].
  erewrite d_add_Ok by by rewrite d_get_init, decide_True.
  cbn [rbind]. eexists. split; [done|]. cbn [fst snd]. split; intros x.
  - rewrite d_get_set, open_parents_snoc_edge. destruct (decide (b = x)) as [->|Hbx].
    + rewrite decide_True by (rewrite elements_snoc; set_solver). f_equal.
      rewrite d_get_init. case_decide; subst; cbn [from_option id];
        rewrite Hdef; lia.
    + rewrite !d_get_init, decide_False by done. case_decide as Hax; subst.
      * rewrite decide_True by (rewrite elements_snoc; set_solver). f_equal. rewrite Hdef. lia.
      * rewrite Hnp. rewrite Nat.add_0_r.
        repeat case_decide; try done; rewrite elements_snoc in *; exfalso; naive_solver.
  - rewrite d_get_set, kids_snoc. case_decide as Hax; subst.
    + rewrite decide_True by (split; [set_solver|]; by destruct (kids E x)).
      by rewrite Hkids.
    + rewrite app_nil_r. apply Hch.
Qed.

Lemma count_pairs_counted (E : list (A * A)) :
  exists np ch, count_pairs E = Ok (np, ch) /\ counted E [] np ch.
Proof.
  destruct (for_each_total count_pair (fun E st => counted E [] st.1 st.2) E
    (d_empty, d_empty)) as ([np ch] & Hf & Hc).
  - split; intros x; cbn; by rewrite d_get_empty.
  - intros l1 [a b] l2 [np ch] -> HP. by apply count_pair_counted.
  - by exists np, ch.
Qed.

(** The elements left without parents. *)
Lemma elem_of_without_parent (E : list (A * A)) P np ch x :
  counted E P np ch ->
  x ∈ without_parent np <-> x ∈ elements E /\ x ∉ P /\ open_parents E P x = 0%nat.
Proof.
  intros [Hnp _]. unfold without_parent.
  rewrite list_elem_of_filter, d_keys_spec, Hnp. case_decide as Hx.
  - split; [intros [[= ?] _]; split_and!; [tauto|tauto|lia]|intros (_ & _ & ->); eauto].
  - split; [by intros [? _]|tauto].
Qed.

Lemma counted_keys (E : list (A * A)) P np ch x :
  counted E P np ch -> x ∈ d_keys np <-> x ∈ elements E /\ x ∉ P.
Proof.
  intros [Hnp _]. rewrite d_keys_spec, Hnp. case_decide; split; try done; eauto.
Qed.

(** Removing [p]: the counts while its children are visited. *)
Definition knocked (E : list (A * A)) P p (cs : list A) num_parents : Prop :=
  forall x, d_get num_parents x =
    if decide (x ∈ elements E /\ x ∉ P ++ [p])
    then Some (Z.of_nat (open_parents E P x) - Z.of_nat (occ x cs)) else None.

Lemma knocked_next (E : list (A * A)) P p c cs1 cs2 np :
  closed E P -> p ∉ P -> open_parents E P p = 0%nat ->
  kids E p = cs1 ++ c :: cs2 -> knocked E P p cs1 np ->
  (c ∈ elements E /\ c ∉ P ++ [p]) /\
  exists n, d_get np c = Some (Z.of_nat n + 1) /\
    d_add (-1) c np = Ok (d_set c (Z.of_nat n) np) /\
    Z.of_nat n = Z.of_nat (open_parents E P c) - Z.of_nat (occ c (cs1 ++ [c])) /\
    knocked E P p (cs1 ++ [c]) (d_set c (Z.of_nat n) np).
Proof.
  intros Hcl Hp Hz Hk Hnp.
  assert (edge E p c) as He by (apply elem_of_kids; rewrite Hk; set_solver).
  assert (c ∈ elements E /\ c ∉ P ++ [p]) as Hc.
  { split; [by apply edge_elements in He as [_ ?]|]. rewrite elem_of_app, list_elem_of_singleton.
    intros [Hc|Hc]; [by apply Hp, (Hcl p c)|]. subst c.
    rewrite open_parents_zero in Hz. by apply Hp, Hz. }
  split; [done|].
  pose proof (open_parents_snoc E P p c Hp) as Hs. rewrite Hk, occ_app, occ_cons in Hs.
  rewrite decide_True in Hs by done.
  assert (occ c (cs1 ++ [c]) = S (occ c cs1)) as Ho.
  { rewrite occ_app, occ_cons, decide_True by done. unfold occ at 2. cbn. lia. }
  exists (open_parents E P c - occ c (cs1 ++ [c]))%nat.
  assert (d_get np c = Some (Z.of_nat (open_parents E P c - occ c (cs1 ++ [c])) + 1)) as Hget.
  { rewrite Hnp, decide_True by done. f_equal. lia. }
  split_and!; [done| |lia|].
  - erewrite d_add_Ok by done. do 2 f_equal. lia.
  - intros x. rewrite d_get_set. destruct (decide (c = x)) as [<-|Hcx].
    + rewrite decide_True by done. f_equal. lia.
    + rewrite Hnp, occ_app, occ_cons, (decide_False (P := c = x)) by done.
      change (occ x []) with 0%nat.
      case_decide; [|done]. f_equal. lia.
Qed.

Lemma knocked_start (E : list (A * A)) P p np ch :
  counted E P np ch -> p ∈ elements E -> p ∉ P ->
  d_delitem p np = Ok (d_del p np) /\ knocked E P p [] (d_del p np) /\
  d_get ch p = if decide (kids E p <> []) then Some (kids E p) else None.
Proof.
  intros [Hnp Hch] Hp HpP. split_and!.
  - unfold d_delitem. by rewrite Hnp, decide_True.
  - intros x. rewrite d_get_del. unfold occ; cbn. case_decide; subst.
    + rewrite decide_False; [done|]. set_solver.
    + rewrite Hnp. repeat case_decide; try done; [f_equal; lia|set_solver..].
  - rewrite Hch. repeat case_decide; tauto.
Qed.

Lemma knocked_end (E : list (A * A)) P p np ch ch' :
  counted E P np ch -> p ∉ P -> forall np',
  knocked E P p (kids E p) np' ->
  (forall x, d_get ch' x = if decide (x = p) then None else d_get ch x) ->
  counted E (P ++ [p]) np' ch'.
Proof.
  intros [_ Hch] Hp np' Hk Hch'. split; intros x.
  - rewrite Hk. case_decide; [|done]. f_equal. rewrite (open_parents_snoc E P p) by done. lia.
  - rewrite Hch', Hch. repeat case_decide; set_solver.
Qed.

Lemma closed_snoc (E : list (A * A)) P p :
  closed E P -> open_parents E P p = 0%nat -> closed E (P ++ [p]).
Proof.
  rewrite open_parents_zero. intros Hcl Hp x y He. rewrite !elem_of_app, list_elem_of_singleton.
  intros [Hy| ->]; left; eauto.
Qed.

(** What is left when no element is free contains a cycle. *)
Lemma stuck_cycle (E : list (A * A)) P np ch :
  counted E P np ch -> (forall x, x ∈ elements E -> x ∉ P -> open_parents E P x <> 0%nat) ->
  d_keys np <> [] -> exists x, tc (edge E) x x.
Proof.
  intros Hc Hall Hne.
  destruct (finite_cycle (flip (edge E)) (d_keys np) Hne) as [x Hx].
  - intros x Hx. rewrite counted_keys in Hx by done. destruct Hx as [Hx HxP].
    specialize (Hall x Hx HxP).
    destruct (filter (fun e => e.2 = x /\ e.1 ∉ P) E) as [|[a b] l] eqn:Hf.
    { unfold open_parents in Hall. by rewrite Hf in Hall. }
    assert ((a, b) ∈ filter (fun e => e.2 = x /\ e.1 ∉ P) E) as Hin by (rewrite Hf; left).
    apply list_elem_of_filter in Hin as [[Hb Ha] Hin]. cbn in *. subst.
    exists a. split; [|done]. rewrite counted_keys by done. split; [|done].
    by apply edge_elements in Hin as [? _].
  - exists x. apply tc_flip in Hx. exact Hx.
Qed.

End counting.

(** ** [topsort] *)

Section topsort_facts.
Context {A : Type} {D : Type -> Type} `{PyDictLaws A D}.
Variable E : list (A * A).
Implicit Types (x p : A) (P answer : list A) (num_parents : D Z) (children : D (list A)).

(** Every parent comes before each of its children. *)
Definition ordered answer : Prop :=
  forall k x y, answer !! k = Some y -> edge E x y -> x ∈ take k answer.

Lemma ordered_snoc answer c :
  ordered answer -> (forall x, edge E x c -> x ∈ answer) -> ordered (answer ++ [c]).
Proof.
  intros Ho Hc k x y Hk He. apply lookup_app_Some in Hk as [Hk|[Hge Hk]].
  - apply lookup_lt_Some in Hk as Hlt. rewrite take_app_le by lia. by eapply Ho.
  - apply list_lookup_singleton_Some in Hk as [Hk <-].
    assert (k = length answer) as -> by lia. rewrite take_app_length. auto.
Qed.

Section knock.
Variables (P : list A) (p : A) (answer0 : list A).
Hypothesis Hclosed : closed E P.
Hypothesis Hp : p ∉ P.
Hypothesis Hfree : open_parents E P p = 0%nat.
Hypothesis Hsub : P ++ [p] ⊆ answer0.
Hypothesis Hanswer0 :
  forall x, x ∈ answer0 <-> x ∈ elements E /\ open_parents E P x = 0%nat.

Definition knock_inv (cs : list A) (st : list A * D Z) : Prop :=
  knocked E P p cs st.2 /\ (exists new, st.1 = answer0 ++ new) /\ NoDup st.1 /\ ordered st.1 /\
  forall x, x ∈ st.1 <-> x ∈ answer0 \/ (x ∈ cs /\ open_parents E P x = occ x cs).

Lemma knock_step cs1 c cs2 st :
  kids E p = cs1 ++ c :: cs2 -> knock_inv cs1 st ->
  exists st', knock st c = Ok st' /\ knock_inv (cs1 ++ [c]) st'.
Proof.
  destruct st as [answer np]. intros Hk (Hnp & [new Ha] & Hnd & Ho & Hin). cbn [fst snd] in *.
  subst answer.
  destruct (knocked_next E P p c cs1 cs2 np Hclosed Hp Hfree Hk Hnp)
    as ([Hcel Hc] & n & Hget & Hadd & Hn & Hnp').
  cbn [knock]. rewrite Hadd. cbn [rbind]. unfold d_item. rewrite d_get_set_eq. cbn [or_raise rbind].
  assert (forall x, occ x (cs1 ++ [c]) = (occ x cs1 + if decide (c = x) then 1 else 0)%nat) as Hocc.
  { intros x. rewrite occ_app, occ_cons. change (occ x []) with 0%nat. lia. }
  pose proof (Hocc c) as Hoc. rewrite decide_True in Hoc by done.
  assert (c ∉ answer0 ++ new) as Hnew.
  { rewrite Hin, Hanswer0. intros [[_ ?]|[_ ?]]; lia. }
  assert (forall x, x <> c -> x ∈ answer0 ++ new <->
    x ∈ answer0 \/ (x ∈ cs1 ++ [c] /\ open_parents E P x = occ x (cs1 ++ [c]))) as Hother.
  { intros x Hx. rewrite Hin, Hocc, (decide_False (P := c = x)), Nat.add_0_r by congruence.
    set_solver. }
  eexists. split; [done|]. case_decide as Hz; cbn [fst snd].
  - split_and!; [done|exists (new ++ [c]); apply (app_assoc_reverse answer0)| | |].
    + apply NoDup_app. split_and!; [done| |by apply NoDup_singleton]. set_solver.
    + apply ordered_snoc; [done|]. intros x He. apply elem_of_app. left. apply Hsub.
      assert (open_parents E (P ++ [p]) c = 0%nat) as H0c; [|by eapply open_parents_zero in H0c].
      pose proof (open_parents_snoc E P p c Hp) as Hs. rewrite Hk, occ_app, occ_cons in Hs.
      rewrite decide_True in Hs by done. lia.
    + intros x. destruct (decide (x = c)) as [->|Hx].
      * split; [intros _; right|set_solver]. split; [set_solver|lia].
      * rewrite <- Hother by done. set_solver.
  - split_and!; [done|by exists new|done|done|].
    intros x. destruct (decide (x = c)) as [->|Hx]; [|by apply Hother].
    split; [done|]. rewrite Hanswer0. intros [[_ ?]|[_ ?]]; lia.
Qed.

End knock.

Definition topsort_inv (i : nat) (st : topsort_state (A := A) (D := D)) : Prop :=
  let '(answer, num_parents, children) := st in
  let P := take i answer in
  NoDup answer /\ ordered answer /\ counted E P num_parents children /\ closed E P /\
  forall x, x ∈ answer <-> x ∈ elements E /\ open_parents E P x = 0%nat.

Lemma topsort_body_inv i answer np ch p :
  topsort_inv i (answer, np, ch) -> answer !! i = Some p ->
  exists st, topsort_body (answer, np, ch) p = Ok st /\ topsort_inv (S i) st.
Proof.
  intros (Hnd & Ho & Hc & Hcl & Hin) Hi.
  assert (take (S i) answer = take i answer ++ [p]) as HS by by apply take_S_r.
  assert (p ∉ take i answer) as Hp.
  { rewrite <- (take_drop (S i) answer), HS in Hnd. apply NoDup_app in Hnd as [Hnd _].
    apply NoDup_app in Hnd as (_ & Hd & _). set_solver. }
  assert (p ∈ answer) as Hpa by by eapply list_elem_of_lookup_2.
  apply Hin in Hpa as [Hpe Hp0].
  destruct (knocked_start E _ p np ch Hc Hpe Hp) as (Hdel & Hk & Hch).
  cbn [topsort_body]. rewrite Hdel. cbn [rbind].
  assert (take i answer ++ [p] ⊆ answer) as Hsub.
  { rewrite <- HS. intros x. rewrite <- (take_drop (S i) answer) at 2. set_solver. }
  destruct (for_each_total knock (knock_inv (take i answer) p answer) (kids E p)
    (answer, d_del p np)) as ([answer' np'] & Hf & Hk' & [new Ha] & Hnd' & Ho' & Hin').
  { split_and!; [done|exists []; by rewrite app_nil_r|done|done|]. set_solver. }
  { intros. by eapply knock_step. }
  cbn [fst snd] in *. subst answer'.
  assert (forall ch', (forall x, d_get ch' x = if decide (x = p) then None else d_get ch x) ->
    topsort_inv (S i) (answer ++ new, np', ch')) as Hfin.
  { intros ch' Hch'. cbn [topsort_inv].
    assert (take (S i) (answer ++ new) = take i answer ++ [p]) as ->.
    { rewrite take_app_le; [done|]. apply lookup_lt_Some in Hi. lia. }
    split_and!; [done|done|by eapply knocked_end|by apply closed_snoc|].
    intros x. rewrite Hin', Hin, (open_parents_snoc E _ p x) by done.
    destruct (decide (x ∈ kids E p)) as [Hx|Hx].
    - assert (edge E p x) as [_ ?]%edge_elements by by apply elem_of_kids.
      pose proof (occ_pos x _ Hx). intuition lia.
    - rewrite (occ_not_in x _ Hx), Nat.add_0_r. tauto. }
  rewrite Hch. case_decide as Hkids.
  - rewrite Hf. cbn [rbind]. eexists. split; [done|]. apply Hfin.
    intros x. rewrite d_get_del. repeat case_decide; congruence.
  - rewrite Hkids in Hf. cbn in Hf. injection Hf as Ha <-.
    eexists. split; [done|].
    assert (new = []) as -> by (apply (app_inv_head answer); by rewrite app_nil_r).
    rewrite app_nil_r in Hfin. apply Hfin. intros x. case_decide; [|done]. by subst.
Qed.

Lemma topsort_loop_spec fuel i st (np0 : D Z) (ch0 : D (list A)) :
  counted E [] np0 ch0 -> topsort_inv i st -> (d_size np0 <= fuel + i)%nat ->
  exists answer np ch, topsort_loop fuel i st = Some (Ok (answer, np, ch)) /\
    NoDup answer /\ ordered answer /\ counted E answer np ch /\
    forall x, x ∈ answer <-> x ∈ elements E /\ open_parents E answer x = 0%nat.
Proof.
  intros Hc0. revert i st. induction fuel as [|fuel IH]; intros i [[answer np] ch] Hinv Hle.
  all: pose proof Hinv as (Hnd & Ho & Hc & Hcl & Hin).
  all: assert (length answer <= d_size np0)%nat as Hlen
    by (apply submseteq_length, NoDup_submseteq; [done|]; intros x [Hx _]%Hin;
        apply (counted_keys E [] np0 ch0); [done|]; set_solver).
  all: cbn [topsort_loop fst]; destruct (answer !! i) as [p|] eqn:Hi.
  - apply lookup_lt_Some in Hi. lia.
  - apply lookup_ge_None in Hi. rewrite take_ge in * by lia. naive_solver.
  - destruct (topsort_body_inv i answer np ch p Hinv Hi) as (st' & -> & Hst').
    apply IH; [done|lia].
  - apply lookup_ge_None in Hi. rewrite take_ge in * by lia. naive_solver.
Qed.

Lemma topsort_start (np : D Z) (ch : D (list A)) :
  counted E [] np ch -> topsort_inv 0 (without_parent np, np, ch).
Proof.
  intros Hc. cbn [topsort_inv]. rewrite take_0.
  assert (forall x, x ∈ without_parent np <-> x ∈ elements E /\ open_parents E [] x = 0%nat) as Hin.
  { intros x. rewrite (elem_of_without_parent E [] np ch) by done. set_solver. }
  split_and!; [apply NoDup_filter, d_keys_nodup| |done|intros x y _; set_solver|done].
  intros k x y Hk He. apply list_elem_of_lookup_2, Hin in Hk as [_ Hk].
  rewrite open_parents_zero in Hk. by apply Hk in He; apply elem_of_nil in He.
Qed.

(** An order of the elements rules out a cycle. *)
Lemma ordered_acyclic answer x :
  ordered answer -> (forall x, x ∈ elements E -> x ∈ answer) -> NoDup answer ->
  ~ tc (edge E) x x.
Proof.
  intros Ho Hall Hnd.
  assert (forall x y, tc (edge E) x y -> forall k, answer !! k = Some y -> x ∈ take k answer) as Htc.
  { intros a b Hab. induction Hab as [a b Hab|a c b Hac _ IH]; intros k Hk; [by eapply Ho|].
    specialize (IH k Hk). apply elem_of_take in IH as (j & Hj & Hjk).
    pose proof (Ho j a c Hj Hac) as Ha. apply elem_of_take in Ha as (i & Hi & Hij).
    apply elem_of_take. exists i. split; [done|lia]. }
  intros Hx. assert (x ∈ elements E) as Hxe.
  { inversion Hx as [? ? He|? ? ? He]; by apply edge_elements in He as [? _]. }
  apply Hall, list_elem_of_lookup in Hxe as [k Hk].
  pose proof (Htc x x Hx k Hk) as Hin. apply elem_of_take in Hin as (j & Hj & Hjk).
  pose proof (NoDup_lookup _ _ _ _ Hnd Hj Hk). lia.
Qed.

End topsort_facts.

(** The order found, or the cycle that prevents one. *)
Lemma topsort_sorts {A} {D : Type -> Type} `{PyDictLaws A D} (pairlist : list (A * A)) :
  exists r, topsort (D := D) pairlist = Some r /\
  match r with
  | Ok answer =>
      NoDup answer /\ (forall x, x ∈ answer <-> x ∈ elements pairlist) /\
      (forall x y, (x, y) ∈ pairlist -> exists i j,
         answer !! i = Some x /\ answer !! j = Some y /\ (i < j)%nat) /\
      ~ (exists x, tc (edge pairlist) x x)
  | Err (CycleError (Some answer) num_parents children) =>
      NoDup answer /\ ordered pairlist answer /\
      (forall x, x ∈ d_keys num_parents <-> x ∈ elements pairlist /\ x ∉ answer) /\
      (forall x y, x ∈ d_keys children /\ y ∈ default [] (d_get children x) <->
         (x, y) ∈ pairlist /\ x ∉ answer) /\
      exists x, tc (edge pairlist) x x
  | Err _ => False
  end.
Proof.
  destruct (count_pairs_counted (D := D) pairlist) as (np0 & ch0 & Hcount & Hc0).
  unfold topsort. rewrite Hcount.
  destruct (topsort_loop_spec pairlist (d_size np0) 0 _ np0 ch0 Hc0 (topsort_start _ _ _ Hc0))
    as (answer & np & ch & -> & Hnd & Ho & Hc & Hin); [lia|].
  cbn [fmap option_fmap option_map raising rbind]. eexists. split; [done|].
  case_decide as Hkeys.
  - assert (forall x, x ∈ elements pairlist -> x ∈ answer) as Hall.
    { intros x Hx. apply dec_stable. intros Hxa.
      assert (x ∈ d_keys np) as Hk by by apply (counted_keys pairlist answer np ch).
      rewrite Hkeys in Hk. by apply elem_of_nil in Hk. }
    split_and!; [done| | |].
    + intros x. split; [by intros [? _]%Hin|apply Hall].
    + intros x y He. apply edge_elements in He as Hel. destruct Hel as [_ Hy].
      apply Hall, list_elem_of_lookup in Hy as [j Hj]. pose proof (Ho j x y Hj He) as Hx.
      apply elem_of_take in Hx as (i & Hi & Hij). by exists i, j.
    + intros [x Hx]. by eapply ordered_acyclic in Hx.
  - split_and!; [done|done|by intros; eapply counted_keys| |].
    + intros x y. rewrite d_keys_spec, (proj2 Hc x).
      change ((x, y) ∈ pairlist) with (edge pairlist x y). rewrite <- elem_of_kids.
      case_decide as Hx.
      * cbn. split; [tauto|]. intros [? _]. split; [by eexists|done].
      * split; [by intros [[? ?] _]|]. intros [Hy Hxa]. exfalso. apply Hx. split; [done|].
        intros Hk. rewrite Hk in Hy. by apply elem_of_nil in Hy.
    + eapply stuck_cycle; [done| |done].
      intros x Hx Hxa H0x. by apply Hxa, Hin.
Qed.

(** C4 - [topsort] terminates.  Either it returns the elements of the pairs, each
    once and every parent before its children, and the pairs have no cycle; or
    they have one and it raises [CycleError] (never another exception), whose
    details are the elements that no cycle precedes, in such an order, and the
    parent counts and children of the others. *)
Theorem topsort_spec {A} {D : Type -> Type} `{PyDictLaws A D} (pairlist : list (A * A)) :
  exists r, topsort (D := D) pairlist = Some r /\
  match r with
  | Ok answer =>
      NoDup answer /\ (forall x, x ∈ answer <-> x ∈ elements pairlist) /\
      (forall x y, (x, y) ∈ pairlist -> exists i j,
         answer !! i = Some x /\ answer !! j = Some y /\ (i < j)%nat) /\
      ~ (exists x, tc (edge pairlist) x x)
  | Err (CycleError (Some answer) num_parents children) =>
      NoDup answer /\ ordered pairlist answer /\
      (forall x, x ∈ d_keys num_parents <-> x ∈ elements pairlist /\ x ∉ answer) /\
      (forall x y, x ∈ d_keys children /\ y ∈ default [] (d_get children x) <->
         (x, y) ∈ pairlist /\ x ∉ answer) /\
      exists x, tc (edge pairlist) x x
  | Err _ => False
  end.
Proof. apply topsort_sorts. Qed.

Lemma topsort_spec_witness :
  exists r, topsort (D := fun V => gmap nat V) [(1, 2); (2, 3); (3, 2)]%nat = Some r /\
  exists a n c, r = Err (CycleError a n c).
Proof.
  destruct (topsort_spec (D := fun V => gmap nat V) [(1, 2); (2, 3); (3, 2)]%nat) as (r & Hr & H).
  exists r. split; [done|]. destruct r as [answer|[a n c|e]]; [|by exists a, n, c|done].
  exfalso. destruct H as (_ & _ & _ & Hno). apply Hno. exists 2%nat.
  apply (tc_l _ _ 3%nat); [|apply tc_once]; apply (list_elem_of_lookup_2 _ 1) || apply (list_elem_of_lookup_2 _ 2); done.
Defined.

(** ** [topsort_levels] *)

Section levels_facts.
Context {A : Type} {D : Type -> Type} `{PyDictLaws A D}.
Variable E : list (A * A).
Implicit Types (x p : A) (P L : list A) (num_parents : D Z) (children : D (list A)).

Lemma open_parents_mono P P' x :
  P ⊆ P' -> open_parents E P x = 0%nat -> open_parents E P' x = 0%nat.
Proof. rewrite !open_parents_zero. auto. Qed.

Lemma level_body_counted P p (np : D Z) (ch : D (list A)) :
  counted E P np ch -> closed E P -> p ∈ elements E -> p ∉ P -> open_parents E P p = 0%nat ->
  exists st, level_body (np, ch) p = Ok st /\ counted E (P ++ [p]) st.1 st.2.
Proof.
  intros Hc Hcl Hpe Hp Hp0.
  destruct (knocked_start E P p np ch Hc Hpe Hp) as (Hdel & Hk & Hch).
  cbn [level_body]. rewrite Hdel. cbn [rbind].
  destruct (for_each_total (fun d c => d_add (-1) c d) (fun cs d => knocked E P p cs d) (kids E p)
    (d_del p np)) as (np' & Hf & Hk'); [done| |].
  { intros cs1 c cs2 d Hcs Hd.
    destruct (knocked_next E P p c cs1 cs2 d) as (_ & n & _ & -> & _ & ?); eauto. }
  rewrite Hch. case_decide as Hkids.
  - rewrite Hf. cbn [rbind]. eexists. split; [done|]. cbn [fst snd]. eapply knocked_end; [done..|].
    intros x. rewrite d_get_del. repeat case_decide; congruence.
  - rewrite Hkids in Hf. cbn in Hf. injection Hf as <-.
    eexists. split; [done|]. cbn [fst snd]. eapply knocked_end; [done..|].
    intros x. case_decide; [|done]. by subst.
Qed.

Lemma level_counted P L (np : D Z) (ch : D (list A)) :
  counted E P np ch -> closed E P -> NoDup L ->
  (forall x, x ∈ L -> x ∈ elements E /\ x ∉ P /\ open_parents E P x = 0%nat) ->
  exists np' ch', for_each level_body L (np, ch) = Ok (np', ch') /\
    counted E (P ++ L) np' ch' /\ closed E (P ++ L).
Proof.
  intros Hc Hcl Hnd HL.
  destruct (for_each_total level_body
    (fun L1 st => counted E (P ++ L1) st.1 st.2 /\ closed E (P ++ L1)) L (np, ch))
    as ([np' ch'] & Hf & Hc' & Hcl').
  - by rewrite app_nil_r.
  - intros L1 p L2 [np1 ch1] -> [Hc1 Hcl1]. destruct (HL p) as (Hpe & HpP & Hp0); [set_solver|].
    apply NoDup_app in Hnd as (_ & Hd & _).
    assert (p ∉ P ++ L1) as Hp by (rewrite elem_of_app; intros [?|?]; [done|]; by eapply Hd; [|left]).
    apply (open_parents_mono P (P ++ L1)) in Hp0; [|set_solver].
    destruct (level_body_counted (P ++ L1) p np1 ch1) as (st & Hst & Hc2); [done..|].
    exists st. rewrite (assoc_L app). split_and!; [done|done|by apply closed_snoc].
  - by exists np', ch'.
Qed.

(** The levels found from [P] on: each is what is free at its turn. *)
Definition levels_from P (levels : list (list A)) : Prop :=
  forall k L, levels !! k = Some L ->
    let Pk := P ++ mjoin (take k levels) in
    L <> [] /\ NoDup L /\ forall x, x ∈ L <-> x ∈ elements E /\ x ∉ Pk /\ open_parents E Pk x = 0%nat.

Lemma levels_core_spec fuel P (np : D Z) (ch : D (list A)) :
  counted E P np ch -> closed E P -> (d_size np <= fuel)%nat ->
  exists levels np' ch', topsort_levels_core fuel np ch =
      Some (levels, if decide (d_keys np' = []) then Ok tt else Err (CycleError None np' ch')) /\
    levels_from P levels /\ counted E (P ++ mjoin levels) np' ch' /\ without_parent np' = [].
Proof.
  revert P np ch. induction fuel as [|fuel IH]; intros P np ch Hc Hcl Hle;
    cbn [topsort_levels_core]; case_decide as HL.
  1, 3: by exists [], np, ch; rewrite app_nil_r; split_and!; [done|intros ? ? ?|done|done].
  - exfalso. apply HL. unfold d_size in Hle. unfold without_parent.
    destruct (d_keys np); [done|cbn in Hle; lia].
  - assert (forall x, x ∈ without_parent np <->
      x ∈ elements E /\ x ∉ P /\ open_parents E P x = 0%nat) as HinL
      by (intros x; by apply (elem_of_without_parent E P np ch)).
    set (L := without_parent np) in *.
    assert (NoDup L) as HndL by (apply NoDup_filter, d_keys_nodup).
    destruct (level_counted P L np ch) as (np1 & ch1 & -> & Hc1 & Hcl1); [done|done|done| |].
    { intros x. by rewrite HinL. }
    destruct (IH (P ++ L) np1 ch1 Hc1 Hcl1) as (levels & np2 & ch2 & -> & Hlev & Hc2 & Hw).
    { assert (d_size np1 < d_size np)%nat; [|lia]. destruct L as [|p L'] eqn:HLe; [done|].
      apply (submseteq_length (p :: d_keys np1)), NoDup_submseteq.
      - constructor; [|apply d_keys_nodup]. rewrite (counted_keys E (P ++ p :: L') np1 ch1) by done. set_solver.
      - intros x [->|Hx]%elem_of_cons.
        + apply (counted_keys E P np ch); [done|]. destruct (HinL p) as [Hp _].
          destruct Hp as (? & ? & _); [left|done].
        + apply (counted_keys E P np ch); [done|].
          apply (counted_keys E (P ++ p :: L') np1 ch1) in Hx; [|done]. set_solver. }
    exists (L :: levels), np2, ch2. cbn [fmap option_fmap option_map mjoin list_join].
    split_and!; [done| | |done].
    + intros [|k] L' Hk; cbn [take mjoin list_join].
      * injection Hk as <-. rewrite app_nil_r. done.
      * specialize (Hlev k L' Hk). cbn zeta in Hlev. by rewrite <- (assoc_L app) in Hlev.
    + by rewrite (assoc_L app).
Qed.

Lemma levels_nodup P levels : levels_from P levels -> NoDup (mjoin levels).
Proof.
  induction levels as [|L levels IH] using rev_ind; intros Hl; [constructor|].
  rewrite join_app. cbn [mjoin list_join]. rewrite app_nil_r.
  destruct (Hl (length levels) L) as (_ & Hnd & HL).
  { by rewrite list_lookup_middle. }
  rewrite take_app_length in HL. apply NoDup_app. split_and!; [|set_solver|done].
  apply IH. intros k L' Hk. apply lookup_lt_Some in Hk as Hlt.
  specialize (Hl k L'). rewrite lookup_app_l, take_app_le in Hl by lia. auto.
Qed.

(** Each parent of an element of level [k] is in an earlier level, and above
    level 0 one is in level [k - 1]. *)
Lemma levels_parents levels k L x :
  levels_from [] levels -> levels !! k = Some L -> x ∈ L ->
  (forall y, edge E y x -> exists j L', (j < k)%nat /\ levels !! j = Some L' /\ y ∈ L') /\
  (k = 0%nat \/ exists y L', edge E y x /\ levels !! (k - 1)%nat = Some L' /\ y ∈ L').
Proof.
  intros Hl Hk Hx. destruct (Hl k L Hk) as (_ & _ & HL). cbn [app] in HL.
  apply HL in Hx as (Hxe & HxP & Hx0). rewrite open_parents_zero in Hx0. split.
  - intros y Hy%Hx0. apply list_elem_of_join in Hy as (L' & Hy & HL').
    apply elem_of_take in HL' as (j & Hj & Hjk). by exists j, L'.
  - destruct k as [|k]; [by left|right]. rewrite Nat.sub_1_r. cbn [pred].
    destruct (lookup_lt_is_Some_2 levels k) as [L' HL'].
    { apply lookup_lt_Some in Hk. lia. }
    destruct (Hl k L' HL') as (_ & _ & Hin). cbn [app] in Hin.
    rewrite (take_S_r levels k L') in HxP, Hx0 by done.
    rewrite join_app in HxP, Hx0. cbn [mjoin list_join] in HxP, Hx0. rewrite app_nil_r in HxP, Hx0.
    assert (open_parents E (mjoin (take k levels)) x <> 0%nat) as Hne.
    { intros H0x. apply HxP, elem_of_app. right. apply Hin. set_solver. }
    destruct (filter (fun e => e.2 = x /\ e.1 ∉ mjoin (take k levels)) E) as [|[y z] l] eqn:Hf.
    { unfold open_parents in Hne. by rewrite Hf in Hne. }
    assert ((y, z) ∈ filter (fun e => e.2 = x /\ e.1 ∉ mjoin (take k levels)) E) as Hyz
      by (rewrite Hf; left).
    apply list_elem_of_filter in Hyz as [[Hz Hy] Hyz]. cbn in *. subst z.
    exists y, L'. split_and!; [done|done|]. specialize (Hx0 y Hyz).
    apply elem_of_app in Hx0 as [?|?]; [by exfalso; apply Hy|done].
Qed.

End levels_facts.

(** C17 - [topsort_levels] terminates and puts no element twice in its levels, none
    of which is empty; an element of level [k] has all its parents in earlier
    levels, and one of them in level [k - 1] unless [k] is 0 (so that [k] is
    the length of the longest chain of ancestors).  The generator ends normally
    exactly when the pairs have no cycle, all elements then being in a level;
    otherwise it ends by [CycleError]. *)
Theorem topsort_levels_spec {A} {D : Type -> Type} `{PyDictLaws A D} (pairlist : list (A * A)) :
  exists levels r, topsort_levels (D := D) pairlist = Some (levels, r) /\
  NoDup (mjoin levels) /\ [] ∉ levels /\
  (forall k L x, levels !! k = Some L -> x ∈ L ->
    (forall y, (y, x) ∈ pairlist -> exists j L', (j < k)%nat /\ levels !! j = Some L' /\ y ∈ L') /\
    (k = 0%nat \/ exists y L', (y, x) ∈ pairlist /\ levels !! (k - 1)%nat = Some L' /\ y ∈ L')) /\
  match r with
  | Ok _ => (forall x, x ∈ elements pairlist -> x ∈ mjoin levels) /\
      ~ (exists x, tc (edge pairlist) x x)
  | Err (CycleError None num_parents _) =>
      (forall x, x ∈ d_keys num_parents <-> x ∈ elements pairlist /\ x ∉ mjoin levels) /\
      exists x, tc (edge pairlist) x x
  | Err _ => False
  end.
Proof.
  destruct (count_pairs_counted (D := D) pairlist) as (np & ch & Hcount & Hc).
  unfold topsort_levels. rewrite Hcount.
  destruct (levels_core_spec pairlist (d_size np) [] np ch Hc) as
    (levels & np' & ch' & -> & Hl & Hc' & Hw); [intros ? ? _; set_solver|done|].
  exists levels. eexists. split; [done|]. cbn [app] in Hc'.
  split_and!; [by eapply levels_nodup| |by intros; eapply levels_parents|].
  { intros [k Hk]%list_elem_of_lookup. by destruct (Hl k [] Hk). }
  assert (forall x, x ∈ elements pairlist -> x ∉ mjoin levels ->
    open_parents pairlist (mjoin levels) x <> 0%nat) as Hstuck.
  { intros x Hx Hxl H0x.
    assert (x ∈ without_parent np') as Hin by by rewrite elem_of_without_parent.
    rewrite Hw in Hin. by apply elem_of_nil in Hin. }
  case_decide as Hkeys.
  - assert (forall x, x ∈ elements pairlist -> x ∈ mjoin levels) as Hall.
    { intros x Hx. apply dec_stable. intros Hxl.
      assert (x ∈ d_keys np') as Hk by by rewrite counted_keys.
      rewrite Hkeys in Hk. by apply elem_of_nil in Hk. }
    split; [done|]. intros [x Hx].
    assert (forall x y, tc (edge pairlist) x y -> forall k L, levels !! k = Some L -> y ∈ L ->
      exists j L', (j < k)%nat /\ levels !! j = Some L' /\ x ∈ L') as Htc.
    { intros a b Hab. induction Hab as [a b Hab|a c b Hac _ IH]; intros k L Hk Hb.
      - by eapply (levels_parents pairlist levels k L b); eauto.
      - destruct (IH k L Hk Hb) as (j & L' & Hj & HL' & Hc1).
        destruct (proj1 (levels_parents pairlist levels j L' c Hl HL' Hc1) a Hac)
          as (i & L'' & Hi & ? & ?). exists i, L''. split_and!; [lia|done|done]. }
    assert (exists k L, levels !! k = Some L /\ x ∈ L) as (k & L & Hk & HxL).
    { assert (x ∈ mjoin levels) as Hxl.
      { apply Hall. inversion Hx as [? ? He|? ? ? He]; by apply edge_elements in He as [? _]. }
      apply list_elem_of_join in Hxl as (L & HxL & [k Hk]%list_elem_of_lookup). eauto. }
    revert L Hk HxL. induction (lt_wf k) as [k _ IH]. intros L Hk HxL.
    destruct (Htc x x Hx k L Hk HxL) as (j & L' & Hj & HL' & HxL'). by eapply IH.
  - split; [by intros; eapply counted_keys|]. by eapply stuck_cycle.
Qed.

Lemma topsort_levels_spec_witness :
  exists levels r,
    topsort_levels (D := fun V => gmap nat V) [(1, 2); (1, 3); (2, 3)]%nat = Some (levels, r) /\
    NoDup (mjoin levels).
Proof.
  destruct (topsort_levels_spec (D := fun V => gmap nat V) [(1, 2); (1, 3); (2, 3)]%nat)
    as (levels & r & Hr & Hnd & _).
  exists levels, r. split; [exact Hr|exact Hnd].
Defined.

(** ** [find_cycles] *)

Section cycles_facts.
Context {A : Type} {D : Type -> Type} `{PyDictLaws A D}.
Variable parent_children : D (list A).
Implicit Types (x y : A) (path c : list A) (paths cycles : list (list A)).

Definition child_of x y : Prop := exists cs, d_get parent_children x = Some cs /\ y ∈ cs.

(** An elementary cycle: no node twice, each node a child of the one before
    and the first of the last. *)
Definition elementary c : Prop :=
  NoDup c /\ match c with [] => False | a :: _ => chain child_of (c ++ [a]) end.

Definition recorded cycles c : Prop := exists c', c' ∈ cycles /\ rotation c' c.

Definition good_cycles cycles : Prop :=
  (forall c, c ∈ cycles -> elementary c) /\
  (forall i j c c', (i < j)%nat -> cycles !! i = Some c -> cycles !! j = Some c' ->
     ~ rotation c c').

Lemma chain_last x l y : chain child_of ((l ++ [x]) ++ [y]) -> child_of x y.
Proof. rewrite <- (assoc_L app). cbn [app]. rewrite chain_app. by intros [_ [? _]]. Qed.

Lemma elementary_rotation c c' : rotation c c' -> elementary c -> elementary c'.
Proof.
  rewrite rotation_alt. intros (a & b & -> & ->) [Hnd Hc].
  destruct b as [|y b]; [by rewrite app_nil_r in *|]. destruct a as [|x a].
  { rewrite app_nil_r. done. }
  split; [by rewrite (Permutation_app_comm (y :: b) (x :: a))|].
  cbn [app] in *. rewrite <- (assoc_L app). cbn [app].
  rewrite <- (assoc_L app) in Hc. cbn [app] in Hc.
  apply (chain_app _ (x :: a) y) in Hc as [Hc1 Hc2].
  apply (chain_app _ (y :: b) x). by split.
Qed.

Lemma is_dup_of_spec cycles c :
  c <> [] -> exists b, is_dup_of cycles c = Ok b /\ (b = true <-> recorded cycles c).
Proof.
  intros Hne. induction cycles as [|o cycles (b & IH & Hb)]; cbn [is_dup_of].
  { exists false. split; [done|]. split; [done|]. by intros (? & ?%elem_of_nil & _). }
  destruct (is_rotated_rotation o c Hne) as (b' & -> & Hb'). cbn [rbind].
  assert (recorded (o :: cycles) c <-> rotation o c \/ recorded cycles c) as Hrec.
  { unfold recorded. setoid_rewrite elem_of_cons. naive_solver. }
  destruct b'; [exists true|exists b]; rewrite Hrec; split; try done; try naive_solver.
Qed.

Lemma good_cycles_snoc cycles c :
  good_cycles cycles -> elementary c -> ~ recorded cycles c -> good_cycles (cycles ++ [c]).
Proof.
  intros [He Hr] Hc Hno. split.
  - intros c'. rewrite elem_of_app, list_elem_of_singleton. intros [?| ->]; auto.
  - intros i j c1 c2 Hij Hi Hj. apply lookup_app_Some in Hj as [Hj|[Hge Hj]].
    + apply lookup_lt_Some in Hj as Hlt. rewrite lookup_app_l in Hi by lia. eauto.
    + apply list_lookup_singleton_Some in Hj as [Hj <-].
      rewrite lookup_app_l in Hi by lia. intros Hrot. apply Hno. exists c1.
      split; [by eapply list_elem_of_lookup_2|done].
Qed.

Lemma recorded_app cycles more c : recorded cycles c -> recorded (cycles ++ more) c.
Proof. intros (c' & ? & ?). exists c'. split; [set_solver|done]. Qed.

Lemma py_index_spec path pre x suf :
  x ∉ pre -> path = pre ++ x :: suf ->
  py_index x path = Ok (length pre) /\ py_from path (Z.of_nat (length pre)) = x :: suf.
Proof.
  intros Hx ->. split.
  - unfold py_index.
    rewrite (proj2 (list_find_Some _ (pre ++ x :: suf) (length pre) x)); [done|].
    split_and!; [by rewrite list_lookup_middle|done|]. intros j y Hj Hlt ->. apply Hx.
    rewrite lookup_app_l in Hj by done. by eapply list_elem_of_lookup_2.
  - unfold py_from. rewrite py_bound_nat, length_app, Nat.min_l by lia. apply drop_app_length.
Qed.

(** The paths the search follows. *)
Definition simple_path (r : A) path : Prop :=
  head path = Some r /\ chain child_of path /\ NoDup path.

Definition closes path c : Prop :=
  exists pre x, path = pre ++ c /\ last path = Some x /\
    match c with [] => False | y :: _ => child_of x y end.

Lemma closes_elementary r path c : simple_path r path -> closes path c -> elementary c.
Proof.
  intros (_ & Hch & Hnd) (pre & x & -> & Hl & Hc). destruct c as [|y c]; [done|].
  apply chain_app in Hch as [_ Hch]. apply NoDup_app in Hnd as (_ & _ & Hnd).
  split; [done|]. rewrite last_app_cons in Hl.
  apply last_Some in Hl as [l Hl]. rewrite Hl in *. rewrite <- (assoc_L app). cbn [app].
  apply chain_app. split; [done|]. by cbn.
Qed.

Section follow.
Variables (r : A) (path : list A) (node : A) (children : list A).
Hypothesis Hpath : simple_path r path.
Hypothesis Hlast : last path = Some node.
Hypothesis Hnode : d_get parent_children node = Some children.

(** After some of the children: the paths pushed, the cycles found. *)
Definition follow_inv (st0 : cycles_state (A := A)) (cs : list A) (st : cycles_state (A := A)) : Prop :=
  let '(paths0, cycles0, visited0) := st0 in
  let '(paths, cycles, visited) := st in
  (exists new, paths = new ++ paths0 /\ (length new <= length cs)%nat /\
     forall p, p ∈ new <-> exists x, x ∈ cs /\ x ∉ path /\ p = path ++ [x]) /\
  (exists more, cycles = cycles0 ++ more) /\ good_cycles cycles /\
  (forall x suf, x ∈ cs -> closes path (x :: suf) -> recorded cycles (x :: suf)) /\
  (forall x, x ∈ visited -> x ∈ visited0 \/ x ∈ cs).

Lemma follow_child_inv st0 cs1 x cs2 st :
  children = cs1 ++ x :: cs2 -> follow_inv st0 cs1 st ->
  exists st', follow_child path st x = Ok st' /\ follow_inv st0 (cs1 ++ [x]) st'.
Proof.
  destruct st0 as [[paths0 cycles0] visited0], st as [[paths cycles] visited].
  intros Hcs ((new & -> & Hlen & Hnew) & [more ->] & Hgood & Hrec & Hvis).
  assert (child_of node x) as He by (exists children; split; [done|rewrite Hcs; set_solver]).
  cbn [follow_child]. case_decide as Hx.
  - destruct (list_elem_of_split_l _ _ Hx) as (pre & suf & Hsplit & Hpre).
    destruct (py_index_spec path pre x suf Hpre Hsplit) as [-> Hfrom]. cbn [rbind]. rewrite Hfrom.
    assert (closes path (x :: suf)) as Hcl by (exists pre, node; by split_and!).
    destruct (is_dup_of_spec (cycles0 ++ more) (x :: suf)) as (b & -> & Hb); [done|]. cbn [rbind].
    assert (forall suf', closes path (x :: suf') -> suf' = suf) as Huniq.
    { intros suf' (pre' & _ & Hp' & _). destruct Hpath as (_ & _ & Hnd). rewrite Hsplit in Hp', Hnd.
      assert (x ∉ pre') as Hpre'.
      { rewrite Hp' in Hnd. apply NoDup_app in Hnd as (_ & Hd & _). intros Hin. eapply Hd; [done|left]. }
      destruct (py_index_spec _ pre' x suf' Hpre' Hp') as [Hi1 Hf1].
      destruct (py_index_spec _ pre x suf Hpre eq_refl) as [Hi2 Hf2]. congruence. }
    eexists. split; [done|]. cbn [follow_inv]. split_and!.
    + exists new. rewrite length_app. split_and!; [done|lia|]. intros p. rewrite Hnew.
      setoid_rewrite elem_of_app. setoid_rewrite list_elem_of_singleton. naive_solver.
    + destruct b; [by exists more|]. exists (more ++ [x :: suf]). by rewrite (assoc_L app).
    + destruct b; [done|]. apply good_cycles_snoc; [done|by eapply closes_elementary|].
      intros ?%Hb. done.
    + intros y suf'. rewrite elem_of_app, list_elem_of_singleton. intros [Hy| ->] Hcy.
      * destruct b; [by apply Hrec|by apply recorded_app, Hrec].
      * rewrite (Huniq suf' Hcy). destruct b; [by apply Hb|].
        exists (x :: suf). split; [set_solver|reflexivity].
    + intros y Hy. rewrite elem_of_app. destruct (Hvis y Hy); auto.
  - eexists. split; [done|]. cbn [follow_inv]. split_and!.
    + exists ((path ++ [x]) :: new). rewrite length_app. cbn [length app]. split_and!; [done|lia|].
      intros p. rewrite elem_of_cons, Hnew.
      setoid_rewrite elem_of_app. setoid_rewrite list_elem_of_singleton. naive_solver.
    + by exists more.
    + done.
    + intros y suf. rewrite elem_of_app, list_elem_of_singleton. intros [Hy| ->] Hcy; [by apply Hrec|].
      destruct Hcy as (pre & _ & Hp & _). exfalso. apply Hx. rewrite Hp. set_solver.
    + intros y. rewrite elem_of_cons, elem_of_app, list_elem_of_singleton.
      intros [->|Hy]; [by auto|]. destruct (Hvis y Hy); auto.
Qed.

End follow.

Lemma follow_path_spec r path paths cycles visited :
  simple_path r path -> good_cycles cycles ->
  exists new more visited', follow_path parent_children path (paths, cycles, visited) =
    Ok (new ++ paths, cycles ++ more, visited') /\ good_cycles (cycles ++ more) /\
  (forall p, p ∈ new <-> exists x y, last path = Some y /\ child_of y x /\ x ∉ path /\ p = path ++ [x]) /\
  (forall c, closes path c -> recorded (cycles ++ more) c) /\
  (forall x, x ∈ visited' -> x ∈ visited \/ exists y, last path = Some y /\ child_of y x) /\
  (forall y cs, last path = Some y -> d_get parent_children y = Some cs -> (length new <= length cs)%nat).
Proof.
  intros Hpath Hgood. pose proof Hpath as (Hh & _ & _).
  destruct (last path) as [node|] eqn:Hl; [|apply last_None in Hl; by subst].
  assert (py_get path (-1) = Ok node) as Hget.
  { change (-1) with (- Z.of_nat 1). rewrite py_get_neg. apply last_Some in Hl as [l ->]. by rewrite reverse_snoc. }
  unfold follow_path. rewrite Hget. cbn [rbind].
  destruct (d_get parent_children node) as [children|] eqn:Hn.
  - destruct (for_each_total (follow_child path) (follow_inv path (paths, cycles, visited)) children
      (paths, cycles, visited)) as ([[paths' cycles'] visited'] & -> & Hinv).
    + cbn [follow_inv]. split_and!; [|by exists []; rewrite app_nil_r|done|set_solver|by auto].
      exists []. split_and!; [done|cbn; lia|]. set_solver.
    + intros. by eapply follow_child_inv.
    + destruct Hinv as ((new & -> & Hlen & Hnew) & [more ->] & Hg & Hrec & Hvis).
      exists new, more, visited'. split_and!; [done|done| | | |].
      * intros p. rewrite Hnew. unfold child_of. split.
        -- intros (x & Hx & Hxp & ->). exists x, node. split_and!; eauto.
        -- intros (x & y & [= <-] & (cs & Hcs & Hx) & Hxp & ->). simplify_eq. eauto.
      * intros c Hc. pose proof Hc as (pre & y & _ & Hy & Hcc). rewrite Hl in Hy.
        injection Hy as <-. destruct c as [|x c]; [done|]. apply Hrec; [|done].
        destruct Hcc as (cs & Hcs & Hx). by simplify_eq.
      * intros x Hx. destruct (Hvis x Hx); [by left|right]. exists node. unfold child_of. eauto.
      * intros y cs [= <-] Hcs. by simplify_eq.
  - exists [], [], visited. cbn [app]. rewrite !app_nil_r. split_and!; [done|done| | |by auto|].
    + intros p. split; [by intros ?%elem_of_nil|]. intros (x & y & [= <-] & (? & ? & _) & _). congruence.
    + intros c (pre & y & _ & Hy & Hcc). destruct c as [|x c]; [done|].
      destruct Hcc as (? & ? & _). congruence.
    + intros. simplify_eq.
Qed.

(** *** Termination *)

Definition all_nodes : list A :=
  d_keys parent_children ++
  mjoin ((fun k => default [] (d_get parent_children k)) <$> d_keys parent_children).

Definition path_bound : nat := (S (length all_nodes)) ^ length all_nodes.

Definition weight paths : nat :=
  sum_list_with (fun p => (S (length all_nodes)) ^ (length all_nodes - length p))%nat paths.

Lemma child_of_nodes x y : child_of x y -> x ∈ d_keys parent_children /\ y ∈ all_nodes.
Proof.
  intros (cs & Hcs & Hy). assert (x ∈ d_keys parent_children) as Hx.
  { apply d_keys_spec. eauto. }
  split; [done|]. apply elem_of_app. right. apply list_elem_of_join. exists cs. split; [done|].
  apply list_elem_of_fmap. exists x. by rewrite Hcs.
Qed.

Lemma children_length x cs : d_get parent_children x = Some cs -> (length cs <= length all_nodes)%nat.
Proof.
  intros Hcs. unfold all_nodes. rewrite length_app, length_join, <- list_fmap_compose.
  assert (x ∈ d_keys parent_children) as Hx by (apply d_keys_spec; eauto).
  induction (d_keys parent_children) as [|k l IH]; [set_solver|]. cbn.
  apply elem_of_cons in Hx as [<-|Hx]; [rewrite Hcs; cbn; lia|]. specialize (IH Hx). cbn in IH. lia.
Qed.

Lemma simple_path_length r path :
  r ∈ d_keys parent_children -> simple_path r path -> (length path <= length all_nodes)%nat.
Proof.
  intros Hr (Hh & Hc & Hnd). apply submseteq_length, NoDup_submseteq; [done|].
  destruct path as [|x path]; [done|]. injection Hh as ->.
  intros y [->|Hy]%elem_of_cons; [by apply elem_of_app; left|].
  pose proof (chain_tc child_of r path y Hc Hy) as Ht. clear -Ht H0.
  induction Ht as [x y He|]; [by apply child_of_nodes in He as [_ ?]|done].
Qed.

Lemma simple_path_snoc r path x y :
  simple_path r path -> last path = Some y -> child_of y x -> x ∉ path ->
  simple_path r (path ++ [x]).
Proof.
  intros (Hh & Hc & Hnd) Hl He Hx. split_and!.
  - by destruct path.
  - apply last_Some in Hl as [l ->]. rewrite <- (assoc_L app). cbn [app]. apply chain_app.
    by split; [|cbn].
  - apply NoDup_app. split_and!; [done|set_solver|apply NoDup_singleton].
Qed.

Lemma weight_app ps ps' : weight (ps ++ ps') = (weight ps + weight ps')%nat.
Proof. unfold weight. induction ps; cbn; lia. Qed.

(** The paths pushed weigh less than the path popped. *)
Lemma weight_new path (new : list (list A)) :
  (length new <= length all_nodes)%nat ->
  (forall p, p ∈ new -> length p = S (length path) /\ (length p <= length all_nodes)%nat) ->
  (weight new < S (length all_nodes) ^ (length all_nodes - length path))%nat.
Proof.
  intros Hlen Hnew. set (N := length all_nodes) in *.
  assert (weight new <= length new * S N ^ (N - S (length path)))%nat as Hw.
  { clear Hlen. unfold weight. fold N. induction new as [|p new IH]; [cbn; lia|].
    destruct (Hnew p) as [Hp _]; [left|]. cbn [sum_list_with length]. rewrite Hp.
    specialize (IH (fun q Hq => Hnew q (list_elem_of_further _ _ _ Hq))). lia. }
  destruct new as [|p new].
  - cbn. apply Nat.neq_0_lt_0, Nat.pow_nonzero. done.
  - destruct (Hnew p) as [Hp Hp']; [left|].
    replace (N - length path)%nat with (S (N - S (length path))) by lia.
    rewrite Nat.pow_succ_r'. pose proof (Nat.pow_nonzero (S N) (N - S (length path))) as Hnz. nia.
Qed.

(** *** The search from one root *)

Definition search_inv (r : A) (visited0 : list A) (st : cycles_state (A := A)) : Prop :=
  let '(paths, cycles, visited) := st in
  good_cycles cycles /\ (forall p, p ∈ paths -> simple_path r p) /\
  (forall q, simple_path r q -> (exists p, p ∈ paths /\ p `prefix_of` q) \/
     forall c, closes q c -> recorded cycles c) /\
  (forall x, x ∈ visited -> x ∈ visited0 \/ rtc child_of r x).

Lemma simple_path_reach r path x : simple_path r path -> last path = Some x -> rtc child_of r x.
Proof.
  intros (Hh & Hc & _) Hl. destruct path as [|y path]; [done|]. injection Hh as ->.
  destruct path as [|z path].
  - injection Hl as ->. reflexivity.
  - apply tc_rtc, (chain_tc _ _ (z :: path)); [done|].
    apply last_Some in Hl as [l Hl]. destruct l as [|? l]; [done|]. injection Hl as _ ->. set_solver.
Qed.

Lemma follow_paths_spec r visited0 fuel paths cycles visited :
  r ∈ d_keys parent_children ->
  search_inv r visited0 (paths, cycles, visited) -> (weight paths <= fuel)%nat ->
  exists more visited', follow_paths parent_children fuel (paths, cycles, visited) =
    Some (Ok ([], cycles ++ more, visited')) /\
    search_inv r visited0 ([], cycles ++ more, visited').
Proof.
  intros Hr. revert paths cycles visited. induction fuel as [|fuel IH]; intros paths cycles visited
    Hinv Hle; destruct paths as [|path paths]; cbn [follow_paths].
  1, 3: by exists [], visited; rewrite app_nil_r.
  - exfalso. cbn in Hle. pose proof (Nat.pow_nonzero (S (length all_nodes)) (length all_nodes - length path)).
    cbn in *. lia.
  - destruct Hinv as (Hgood & Hps & Hall & Hvis).
    assert (simple_path r path) as Hpath by (apply Hps; left).
    destruct (follow_path_spec r path paths cycles visited Hpath Hgood)
      as (new & more & visited' & -> & Hgood' & Hnew & Hrec & Hvis' & Hlen).
    assert (forall p, p ∈ new -> simple_path r p /\ length p = S (length path)) as Hnews.
    { intros p (x & y & Hy & He & Hx & ->)%Hnew. split; [by eapply simple_path_snoc|].
      rewrite length_app. cbn. lia. }
    destruct (IH (new ++ paths) (cycles ++ more) visited') as (more' & vis' & -> & Hfin).
    + split_and!; [done| | |].
      * intros p [Hp|Hp]%elem_of_app; [by apply Hnews|apply Hps; by right].
      * intros q Hq. destruct (Hall q Hq) as [(p & Hp & Hpq)|Hc].
        2: { right. intros c Hcl. by apply recorded_app, Hc. }
        apply elem_of_cons in Hp as [->|Hp].
        2: { left. exists p. split; [set_solver|done]. }
        destruct Hpq as [[|x rest] ->]; [by right; rewrite app_nil_r|left].
        exists (path ++ [x]). split; [|exists rest; by rewrite <- (assoc_L app)].
        apply elem_of_app. left. apply Hnew. destruct Hq as (_ & Hch & Hnd).
        apply chain_app in Hch as [Hch _].
        destruct (last path) as [y|] eqn:Hl.
        -- exists x, y. apply last_Some in Hl as [l ->]. apply chain_last in Hch.
           apply NoDup_app in Hnd as (_ & Hd & _). split_and!; [done|done| |done].
           intros Hx. eapply Hd; [done|left].
        -- apply last_None in Hl as ->. by destruct Hpath.
      * intros x Hx. destruct (Hvis' x Hx) as [Hx'|(y & Hy & He)]; [auto|right].
        eapply rtc_r; [by eapply simple_path_reach|done].
    + rewrite weight_app. cbn in Hle.
      assert (weight new < S (length all_nodes) ^ (length all_nodes - length path))%nat as Hw.
      { apply weight_new.
        - destruct (last path) as [y|] eqn:Hl.
          + destruct (d_get parent_children y) as [cs|] eqn:Hcs.
            * etrans; [by eapply Hlen|by eapply children_length].
            * destruct new as [|p new]; [cbn; lia|]. destruct (proj1 (Hnew p)) as (x & y' & [= <-] & (? & ? & _) & _);
                [left|congruence].
          + destruct new as [|p new]; [cbn; lia|]. destruct (proj1 (Hnew p)) as (x & y' & ? & _); [left|done].
        - intros p Hp. destruct (Hnews p Hp) as [Hsp ->]. split; [done|].
          destruct (Hnews p Hp) as [_ <-]. by eapply simple_path_length. }
      unfold weight in *. cbn in *. lia.
    + exists (more ++ more'), vis'. by rewrite (assoc_L app).
Qed.


(** A cycle the root reaches is closed by some simple path from the root. *)
Lemma reach_simple r x c :
  rtc child_of r x -> x ∈ c ->
  exists q v, head (q ++ [v]) = Some r /\ chain child_of (q ++ [v]) /\ NoDup q /\
    (forall y, y ∈ q -> y ∉ c) /\ v ∈ c.
Proof.
  intros Hr Hx. induction Hr as [x|r r2 x He _ IH].
  { exists [], x. split_and!; [done|done|constructor|set_solver|done]. }
  destruct (decide (r ∈ c)) as [Hrc|Hrc].
  { exists [], r. split_and!; [done|done|constructor|set_solver|done]. }
  destruct (IH Hx) as (q & v & Hh & Hc & Hnd & Hq & Hv).
  destruct (decide (r ∈ q)) as [Hrq|Hrq].
  - apply list_elem_of_split in Hrq as (a & b & ->). exists (r :: b), v.
    rewrite <- (assoc_L app) in Hc. cbn [app] in Hc. apply chain_app in Hc as [_ Hc].
    apply NoDup_app in Hnd as (_ & _ & Hnd). split_and!; [done|done|done|set_solver|done].
  - exists (r :: q), v. split_and!; [done| |by constructor| |done].
    + change ((r :: q) ++ [v]) with (r :: (q ++ [v])). apply chain_cons. split; [|done].
      destruct (q ++ [v]); by simplify_eq/=.
    + intros y [->|Hy]%elem_of_cons; auto.
Qed.

Lemma search_complete r visited0 cycles visited x c :
  search_inv r visited0 ([], cycles, visited) -> rtc child_of r x -> elementary c -> x ∈ c ->
  recorded cycles c.
Proof.
  intros (_ & _ & Hall & _) Hr Hc Hx.
  destruct (reach_simple r x c Hr Hx) as (q & v & Hh & Hch & Hnd & Hq & Hv).
  apply list_elem_of_split in Hv as (a & b & ->).
  assert (rotation (a ++ v :: b) (v :: b ++ a)) as Hrot by (apply rotation_alt; by exists a, (v :: b)).
  destruct (elementary_rotation _ _ Hrot Hc) as [Hnd' Hch'].
  assert (simple_path r (q ++ v :: b ++ a)) as Hsp.
  { split_and!.
    - by destruct q.
    - apply chain_app. split; [done|]. destruct (b ++ a) as [|y l] eqn:Hba; [done|].
      change (v :: y :: l) with ([v] ++ y :: l) in Hch'.
      destruct (exists_last (l := y :: l)) as (l' & z & Hl); [done|].
      rewrite Hl in *. change ((v :: l' ++ [z]) ++ [v]) with (v :: (l' ++ [z]) ++ [v]) in Hch'.
      change (([v] ++ l' ++ [z]) ++ [v]) with ((v :: l' ++ [z]) ++ [v]) in Hch'.
      change (v :: l' ++ [z]) with ((v :: l') ++ [z]) in *.
      rewrite <- (assoc_L app) in Hch'. cbn [app] in Hch'.
      apply (chain_app _ (v :: l') z) in Hch' as [Hch' _]. done.
    - apply NoDup_app. split_and!; [done| |done].
      intros y Hy Hy'. eapply Hq; [done|]. set_solver. }
  destruct (Hall _ Hsp) as [(p & Hp & _)|Hrec]; [by apply elem_of_nil in Hp|].
  destruct (Hrec (v :: b ++ a)) as (c' & Hc' & Hrot').
  - destruct (exists_last (l := v :: b ++ a)) as (l & z & Hl); [done|].
    exists q, z. split_and!; [done| |].
    + by rewrite Hl, app_assoc, last_snoc.
    + rewrite Hl in Hch'. by eapply chain_last.
  - exists c'. split; [done|]. by rewrite Hrot', Hrot.
Qed.

(** *** All roots *)

Definition roots_inv (done : list A) cycles (visited : list A) : Prop :=
  good_cycles cycles /\
  forall x c, x ∈ done \/ x ∈ visited -> elementary c -> x ∈ c -> recorded cycles c.

Lemma follow_roots_spec fuel roots done cycles visited :
  d_keys parent_children = done ++ roots -> (path_bound <= fuel)%nat ->
  roots_inv done cycles visited ->
  exists cycles' visited', follow_roots parent_children fuel roots cycles visited = Some (Ok cycles') /\
    roots_inv (done ++ roots) cycles' visited'.
Proof.
  intros Hkeys Hfuel. revert done cycles visited Hkeys.
  induction roots as [|r roots IH]; intros done cycles visited Hkeys [Hgood Hrec]; cbn [follow_roots].
  { exists cycles, visited. by rewrite app_nil_r. }
  assert (done ++ r :: roots = (done ++ [r]) ++ roots) as Hd by by rewrite <- (assoc_L app).
  rewrite Hd in *. case_decide as Hv.
  - apply IH; [done|]. split; [done|]. intros x c Hx. apply Hrec.
    rewrite elem_of_app, list_elem_of_singleton in Hx. destruct Hx as [[Hx| ->]|Hx]; auto.
  - assert (r ∈ d_keys parent_children) as Hr by (rewrite Hkeys; set_solver).
    destruct (follow_paths_spec r visited fuel [[r]] cycles visited Hr) as (more & vis' & -> & Hinv).
    + split_and!; [done| | |by auto].
      * intros p ->%list_elem_of_singleton. split_and!; [done|done|apply NoDup_singleton].
      * intros q (Hh & _). left. exists [r]. split; [set_solver|].
        destruct q as [|x q]; [done|]. injection Hh as ->. by exists q.
    + etrans; [|done]. unfold weight, path_bound. cbn.
      rewrite Nat.add_0_r. apply Nat.pow_le_mono_r; lia.
    + apply IH; [done|]. pose proof Hinv as (Hgood' & _ & _ & Hvis). split; [done|].
      intros x c Hx Hc Hxc.
      assert (rtc child_of r x \/ x ∈ done \/ x ∈ visited) as [Hreach|Hold].
      { rewrite elem_of_app, list_elem_of_singleton in Hx. destruct Hx as [[Hx| ->]|Hx]; auto.
        - left. reflexivity.
        - destruct (Hvis x Hx); auto. }
      * by eapply search_complete.
      * apply recorded_app. by eapply Hrec.
Qed.

Lemma elementary_key x c : elementary (x :: c) -> x ∈ d_keys parent_children.
Proof.
  intros [_ Hc]. cbn [app] in Hc. apply chain_cons in Hc as [Hc _].
  destruct (c ++ [x]) as [|y l] eqn:E; [by destruct c|]. by apply child_of_nodes in Hc as [? _].
Qed.

(** More fuel does not change a result. *)
Lemma follow_paths_more n m st r :
  (n <= m)%nat -> follow_paths parent_children n st = Some r ->
  follow_paths parent_children m st = Some r.
Proof.
  revert st m. induction n as [|n IH]; intros [[paths cs] vs] m Hnm;
    destruct paths as [|path paths]; destruct m as [|m]; cbn [follow_paths]; try done; try lia.
  destruct (follow_path parent_children path (paths, cs, vs)); [|done]. apply IH. lia.
Qed.

Lemma follow_roots_more n m roots cycles visited r :
  (n <= m)%nat -> follow_roots parent_children n roots cycles visited = Some r ->
  follow_roots parent_children m roots cycles visited = Some r.
Proof.
  intros Hle. revert cycles visited.
  induction roots as [|root roots IH]; intros cs vs; cbn [follow_roots]; [done|].
  case_decide; [apply IH|].
  destruct (follow_paths parent_children n ([[root]], cs, vs)) as [o|] eqn:Ho; [|done].
  rewrite (follow_paths_more _ m _ _ Hle Ho). destruct o as [[[ps cs'] vs']|e]; [apply IH|done].
Qed.

End cycles_facts.

(** C5 - [find_cycles] terminates without an exception on every dictionary (some
    children may be no keys).  Each list it yields is an elementary cycle, no
    two of them are rotations of one another, and every elementary cycle of
    the graph is yielded up to rotation. *)
Theorem find_cycles_spec {A} {D : Type -> Type} `{PyDictLaws A D} (parent_children : D (list A)) :
  exists cycles,
    (forall fuel, (path_bound parent_children <= fuel)%nat ->
       find_cycles parent_children fuel = Some (Ok cycles)) /\
    (forall c, c ∈ cycles -> elementary parent_children c) /\
    (forall i j c c', (i < j)%nat -> cycles !! i = Some c -> cycles !! j = Some c' ->
       ~ rotation c c') /\
    (forall c, elementary parent_children c -> exists c', c' ∈ cycles /\ rotation c' c).
Proof.
  assert (forall fuel, (path_bound parent_children <= fuel)%nat -> exists cycles visited,
    find_cycles parent_children fuel = Some (Ok cycles) /\
    roots_inv parent_children (d_keys parent_children) cycles visited) as Hrun.
  { intros fuel Hle. apply (follow_roots_spec parent_children fuel (d_keys parent_children) [] [] []);
      [done|done|]. split; [split|].
    - intros c Hc. by apply elem_of_nil in Hc.
    - intros i j c c' _ Hi. done.
    - intros x c [Hx|Hx]; by apply elem_of_nil in Hx. }
  destruct (Hrun (path_bound parent_children)) as (cycles & visited & Hf & [[He Hr] Hrec]); [done|].
  exists cycles. split_and!; [|done|done|].
  - intros fuel Hle. destruct (Hrun fuel Hle) as (cycles' & _ & Hf' & _). rewrite Hf'.
    pose proof (follow_roots_more parent_children _ fuel _ _ _ _ Hle Hf) as Hm.
    unfold find_cycles in Hf'. congruence.
  - intros [|x c] Hc; [by destruct Hc|]. apply (Hrec x); [left|done|left].
    by eapply elementary_key.
Qed.

Lemma find_cycles_spec_witness :
  exists cycles, (forall fuel,
    (path_bound (D := fun V => adict nat V) (d_of_list [(1, [2]); (2, [1; 3])]%nat) <= fuel)%nat ->
    find_cycles (D := fun V => adict nat V) (d_of_list [(1, [2]); (2, [1; 3])]%nat) fuel =
      Some (Ok cycles)).
Proof.
  destruct (find_cycles_spec (D := fun V => adict nat V) (d_of_list [(1, [2]); (2, [1; 3])]%nat))
    as (cycles & Hf & _).
  exists cycles. exact Hf.
Defined.
