(* ===== verification/BindScan.v ===== *)
(** * [bindings/python/ns3modulescan-modular.py] and [ns3modulescan.py]: what is wrapped

    The hooks called for each declaration the parser of C++ finds: they annotate it for
    the generator of the bindings.  The declarations and the functions on C++ names are
    those of pygccxml and parameters; the table of annotations is shared, and the hooks
    change it. *)

From S2P Require Import Prelude StateM PyDict OsPath.

(** ** [get_ns3_relative_path] *)

(** [os.path.join( *l )] *)
Definition join_all (l : list pystr) : py pystr :=
  match l with
  | [] => Err TypeError
  | a :: l => Ok (foldl os_path_join a l)
  end.

Fixpoint relative_loop (fuel : nat) (head : pystr) (l : list pystr) : option (py pystr) :=
  match fuel with
  | O => None
  | S fuel =>
      match head with
      | [] => Some (Err AssertionError)
      | _ =>
          let '(new_head, tail) := os_path_split head in
          if decide (new_head = head) then Some (Err ValueError)
          else if decide (tail = $"ns3") then Some (join_all l)
          else relative_loop fuel new_head (tail :: l)
      end
  end.

(** Each round shortens the path. *)
Definition get_ns3_relative_path (path : pystr) : py (option pystr) :=
  match path with
  | [] => Ok None
  | _ => let! r := default (Err OutOfFuel) (relative_loop (S (length path)) path []) in Ok (Some r)
  end.

(** The one of [ns3modulescan.py] does not see that it has come to the root. *)
Fixpoint relative_loop_gccxml (fuel : nat) (head : pystr) (l : list pystr) : option (py pystr) :=
  match fuel with
  | O => None
  | S fuel =>
      match head with
      | [] => Some (Err AssertionError)
      | _ =>
          let '(head, tail) := os_path_split head in
          if decide (tail = $"ns3") then Some (join_all l) else relative_loop_gccxml fuel head (tail :: l)
      end
  end.

(** ** Annotations *)

(** The annotations of parameters, by their names. *)
Abbreviation params := (list (pystr * list (pystr * pystr))).

(** A value: None, True, a string, or the annotations of the parameters. *)
Inductive annotation := ANone | ATrue | AStr (s : pystr) | AParams (ps : params).

Abbreviation annotations := (list (pystr * annotation)).

(** [d.update(d')] *)
Definition update {V} (d d' : list (pystr * V)) : list (pystr * V) := foldl (fun d kv => AList.aset kv.1 kv.2 d) d d'.

Definition type_annotations : list (pystr * annotations) :=
  [($"::ns3::AttributeChecker", [($"automatic_type_narrowing", AStr $"true"); ($"allow_subclassing", AStr $"false")]);
   ($"::ns3::AttributeValue", [($"automatic_type_narrowing", AStr $"true"); ($"allow_subclassing", AStr $"false")]);
   ($"::ns3::CommandLine", [($"allow_subclassing", AStr $"true")]);
   ($"::ns3::NscTcpL4Protocol", [($"ignore", AStr $"true")]);
   ($"ns3::RandomVariable::RandomVariable(ns3::RandomVariableBase const & variable) [constructor]", [($"ignore", ANone)]);
   ($"ns3::RandomVariableBase * ns3::RandomVariable::Peek() const [member function]", [($"ignore", ANone)]);
   ($"void ns3::RandomVariable::GetSeed(uint32_t * seed) const [member function]",
     [($"params", AParams [($"seed", [($"direction", $"out"); ($"array_length", $"6")])])]);
   ($"bool ns3::TypeId::LookupAttributeByName(std::string name, ns3::TypeId::AttributeInformation * info) const [member function]",
     [($"params", AParams [($"info", [($"transfer_ownership", $"false")])])]);
   ($"static bool ns3::TypeId::LookupByNameFailSafe(std::string name, ns3::TypeId * tid) [member function]", [($"ignore", ANone)]);
   ($"bool ns3::TraceSourceAccessor::ConnectWithoutContext(ns3::ObjectBase * obj, ns3::CallbackBase const & cb) const [member function]",
     [($"params", AParams [($"obj", [($"transfer_ownership", $"false")])])]);
   ($"bool ns3::TraceSourceAccessor::Connect(ns3::ObjectBase * obj, std::string context, ns3::CallbackBase const & cb) const [member function]",
     [($"params", AParams [($"obj", [($"transfer_ownership", $"false")])])]);
   ($"bool ns3::TraceSourceAccessor::DisconnectWithoutContext(ns3::ObjectBase * obj, ns3::CallbackBase const & cb) const [member function]",
     [($"params", AParams [($"obj", [($"transfer_ownership", $"false")])])]);
   ($"bool ns3::TraceSourceAccessor::Disconnect(ns3::ObjectBase * obj, std::string context, ns3::CallbackBase const & cb) const [member function]",
     [($"params", AParams [($"obj", [($"transfer_ownership", $"false")])])]);
   ($"bool ns3::AttributeAccessor::Set(ns3::ObjectBase * object, ns3::AttributeValue const & value) const [member function]",
     [($"params", AParams [($"object", [($"transfer_ownership", $"false")])])]);
   ($"ns3::EmpiricalVariable::EmpiricalVariable(ns3::RandomVariableBase const & variable) [constructor]", [($"ignore", ANone)]);
   ($"static ns3::AttributeList * ns3::AttributeList::GetGlobal() [member function]", [($"caller_owns_return", AStr $"false")]);
   ($"void ns3::CommandLine::Parse(int argc, char * * argv) const [member function]", [($"ignore", ANone)]);
   ($"extern void ns3::PythonCompleteConstruct(ns3::Ptr<ns3::Object> object, ns3::TypeId typeId, ns3::AttributeList const & attributes) [free function]",
     [($"ignore", ANone)]);
   ($"ns3::Ptr<ns3::Ipv4RoutingProtocol> ns3::Ipv4ListRouting::GetRoutingProtocol(uint32_t index, int16_t & priority) const [member function]",
     [($"params", AParams [($"priority", [($"direction", $"out")])])]);
   ($"ns3::Ipv4RoutingTableEntry * ns3::GlobalRouter::GetInjectedRoute(uint32_t i) [member function]",
     [($"params", AParams [($"return", [($"caller_owns_return", $"false")])])]);
   ($"ns3::Ipv4RoutingTableEntry * ns3::Ipv4GlobalRouting::GetRoute(uint32_t i) const [member function]",
     [($"params", AParams [($"return", [($"caller_owns_return", $"false")])])]);
   ($"::ns3::TestCase", [($"ignore", AStr $"true")]);
   ($"::ns3::TestRunner", [($"ignore", AStr $"true")]);
   ($"::ns3::TestSuite", [($"ignore", AStr $"true")])].

(** ** Declarations *)

(** The classes of pygccxml the hooks ask for; the other callables and the other
    declarations. *)
Inductive decl_kind := Class | Enumeration | FreeFunction | MemberFunction | Constructor | OtherCallable | OtherDecl.

#[export] Instance decl_kind_eq_dec : EqDecision decl_kind.
Proof. solve_decision. Defined.

(** The name of a member's class; [decl_string]; [str] of the declaration; its file. *)
Record declaration := {
  kind : decl_kind; name : pystr; parent_name : pystr; decl_string : pystr; text : pystr; file_name : pystr
}.

Definition is_function (d : declaration) : bool := bool_decide (kind d ∈ [FreeFunction; MemberFunction; Constructor]).

Definition is_callable (d : declaration) : bool := is_function d || bool_decide (kind d = OtherCallable).

(** What a hook changes: the shared table, the two dictionaries it is given, and the default
    values of the arguments of the declaration. *)
Record scan := {
  table : list (pystr * annotations);
  global_annotations : annotations;
  parameter_annotations : params;
  default_values : list (option pystr)
}.

Definition set_table (t : list (pystr * annotations)) (s : scan) : scan :=
  {| table := t; global_annotations := global_annotations s; parameter_annotations := parameter_annotations s; default_values := default_values s |}.
Definition set_globals (f : annotations -> annotations) (s : scan) : scan :=
  {| table := table s; global_annotations := f (global_annotations s); parameter_annotations := parameter_annotations s; default_values := default_values s |}.
Definition set_params (f : params -> params) (s : scan) : scan :=
  {| table := table s; global_annotations := global_annotations s; parameter_annotations := f (parameter_annotations s); default_values := default_values s |}.
Definition set_defaults (f : list (option pystr) -> list (option pystr)) (s : scan) : scan :=
  {| table := table s; global_annotations := global_annotations s; parameter_annotations := parameter_annotations s; default_values := f (default_values s) |}.

Definition annotate (k : pystr) (v : annotation) : stM scan () := mset (set_globals (AList.aset k v)).

(** ** The parts the two hooks share *)

(** [Simulator::Schedule*] and [Simulator::Run] are wrapped by hand. *)
Definition ignore_simulator (d : declaration) : stM scan () :=
  (if decide (kind d = MemberFunction /\ parent_name d = $"Simulator" /\ startswith (name d) $"Schedule" = true)
   then annotate $"ignore" ANone else mret tt) >>>
  (if decide (kind d = MemberFunction /\ parent_name d = $"Simulator" /\ name d = $"Run")
   then annotate $"ignore" ATrue else mret tt).

Definition name_get_object (template_args : list pystr) (d : declaration) : stM scan () :=
  if decide (kind d = MemberFunction /\ parent_name d = $"Object" /\ name d = $"GetObject" /\ template_args = [$"ns3::Object"])
  then annotate $"template_instance_names" (AStr $"ns3::Object=>GetObject") else mret tt.

Definition fix_default (v : option pystr) : option pystr :=
  if decide (v = Some $"ns3::MilliSeconds( )") then Some $"ns3::MilliSeconds(0)"
  else if decide (v = Some $"ns3::Seconds( )") then Some $"ns3::Seconds(0)"
  else v.

Definition fix_defaults (d : declaration) : stM scan () :=
  if is_callable d then mset (set_defaults (fmap fix_default)) else mret tt.

(** What a hook begins with, after the header was found. *)
Definition prelude (comment : pystr) (template_args : list pystr) (d : declaration) : stM scan () :=
  annotate $"pygen_comment" (AStr comment) >>>
  name_get_object template_args d >>>
  ignore_simulator d >>>
  fix_defaults d.

(** The classes that are handled by their names: whether the hook returns there. *)
Definition special_class (d : declaration) : stM scan bool :=
  if startswith (decl_string d) $"::ns3::SimpleRefCount<" then
    annotate $"incref_method" (AStr $"Ref") >>>
    annotate $"decref_method" (AStr $"Unref") >>>
    annotate $"peekref_method" (AStr $"GetReferenceCount") >>>
    annotate $"automatic_type_narrowing" (AStr $"true") >>> mret true
  else if existsb (startswith (decl_string d)) [$"::ns3::Callback<"; $"::ns3::TracedCallback<"; $"::ns3::Ptr<"] then
    annotate $"ignore" ANone >>> mret true
  else mret false.

Definition annotate_class (d : declaration) : stM scan () :=
  do! t := mget table in
  match AList.aget t (decl_string d) with
  | Some a => mset (set_globals (fun g => update g a))
  | None => mret tt
  end.

(** The annotations of the parameters are taken out of the table. *)
Definition take_params (key : pystr) (kv : pystr * annotation) : stM scan () :=
  if decide (kv.1 = $"params") then
    match kv.2 with
    | AParams ps =>
        mset (set_params (fun p => update p ps)) >>>
        mset (fun s => set_table (AList.aset key (AList.adel $"params" (default [] (AList.aget (table s) key))) (table s)) s)
    | _ => mlift (Err TypeError)
    end
  else mret tt.

Definition annotate_function (d : declaration) : stM scan () :=
  if is_function d then
    do! t := mget table in
    match AList.aget t (text d) with
    | None => mret tt
    | Some a =>
        mfor (take_params (text d)) a >>>
        mset (fun s => set_globals (fun g => update g (default [] (AList.aget (table s) (text d)))) s)
    end
  else mret tt.

(** ** [pre_scan_hook] of [ns3modulescan.py] *)

Section hooks.
(** Of [pygccxml.declarations.templates], the arguments and the parts of an instance, and
    whether a name is one; the file of a declaration found by its name, None when it has no
    location. *)
Context (templates_args : pystr -> list pystr) (templates_split : pystr -> pystr * list pystr)
  (is_instantiation : pystr -> bool) (find_location : pystr -> option pystr).

Definition pre_scan_rest (d : declaration) : stM scan () :=
  do! done_ := (if decide (kind d = Class) then special_class d else mret false) in
  if done_ : bool then mret tt
  else
    (if decide (kind d = Class) then annotate_class d else mret tt) >>>
    if decide (kind d = FreeFunction /\ name d = $"PeekPointer") then annotate $"ignore" ANone
    else annotate_function d.

(** None while the path is still being cut. *)
Definition pre_scan_hook (fuel : nat) (demangled_name : pystr) (d : declaration) : option (stM scan ()) :=
  match relative_loop_gccxml fuel (file_name d) [] with
  | None => None
  | Some (Err e) => Some (mlift (Err e))
  | Some (Ok header) =>
      Some (prelude (header ++ $": " ++ text d) (templates_args demangled_name) d >>> pre_scan_rest d)
  end.

(** ** [PreScanHook] *)

Context (headers_map : gmap pystr pystr) (module : pystr).

Definition header_module (h : option pystr) : py pystr := or_raise KeyError (h ≫= fun h => headers_map !! h).

(** The modules of the arguments of a template that are declared in ns-3. *)
Fixpoint template_modules (params : list pystr) : py (list pystr) :=
  match params with
  | [] => Ok []
  | p :: params =>
      match find_location p with
      | None => template_modules params
      | Some file =>
          match get_ns3_relative_path file with
          | Err ValueError => template_modules params
          | Err e => Err e
          | Ok h => let! m := header_module h in let! ms := template_modules params in Ok (m :: ms)
          end
      end
  end.

(** An instance of a template belongs to this module when one of its arguments does. *)
Definition class_module (definition_module : pystr) (d : declaration) : py pystr :=
  if is_instantiation (decl_string d) then
    let! ms := template_modules (templates_split (name d)).2 in
    Ok (if decide (module ∈ ms) then module else definition_module)
  else Ok definition_module.

Definition dash_to_underscore (s : pystr) : pystr := (fun c => if decide (c = "-"%char) then "_"%char else c) <$> s.

(** The class part: the module found, and whether the hook returns there. *)
Definition hook_class (definition_module : pystr) (d : declaration) : stM scan (pystr * bool) :=
  if decide (kind d = Class) then
    do! m := mlift (class_module definition_module d) in
    (if decide (m <> module) then annotate $"import_from_module" (AStr ($"ns." ++ dash_to_underscore m)) else mret tt) >>>
    do! done_ := special_class d in
    if done_ : bool then mret (m, true) else annotate_class d >>> mret (m, false)
  else mret (definition_module, false).

Definition hook_rest (definition_module : pystr) (d : declaration) : stM scan () :=
  do! '(definition_module, done_) := hook_class definition_module d in
  if done_ : bool then mret tt
  else
    (if decide (kind d = Enumeration /\ definition_module <> module)
     then annotate $"import_from_module" (AStr ($"ns." ++ definition_module)) else mret tt) >>>
    if decide (kind d = FreeFunction /\ (definition_module <> module \/ name d = $"PeekPointer")) then annotate $"ignore" ANone
    else annotate_function d.

Definition hook_body (header definition_module : pystr) (d : declaration) : stM scan () :=
  prelude (header ++ $" (module " ++ py_repr definition_module ++ $"): " ++ text d) (templates_args (text d)) d >>>
  hook_rest definition_module d.

(** The hook ignores what is not declared in ns-3. *)
Definition PreScanHook_call (d : declaration) : stM scan () :=
  match get_ns3_relative_path (file_name d) with
  | Err ValueError | Ok None | Ok (Some []) => mret tt
  | Err e => mlift (Err e)
  | Ok (Some h) =>
      do! definition_module := mlift (header_module (Some h)) in
      hook_body h definition_module d
  end.

(** ** [scan_callback_classes] *)

(** The classes of the namespace, by their names and [decl_string]; a list of strings is
    shown as Python does. *)
Fixpoint callback_lines (classes : list (pystr * pystr)) : py (list pystr) :=
  match classes with
  | [] => Ok []
  | (name, decl_string) :: classes =>
      if startswith name $"Callback<" then
        let! _ := raise_unless (is_instantiation decl_string) AssertionError in
        let! lines := callback_lines classes in
        Ok (($"    " ++ repr_list (templates_split decl_string).2 ++ $"," ++ [NL]) :: lines)
      else callback_lines classes
  end.

Definition scan_callback_classes (classes : list (pystr * pystr)) : py pystr :=
  let! lines := callback_lines classes in
  Ok ($"callback_classes = [" ++ [NL] ++ mjoin lines ++ $"]" ++ [NL]).

End hooks.

(** ** Paths *)

Lemma split_no_sep t : "/"%char ∉ t -> os_path_split t = ([], t).
Proof.
  intros Ht. unfold os_path_split. rewrite <- (right_id_L [] (++) (reverse t)).
  rewrite (span_app _ (reverse t) []); [cbn; by rewrite reverse_involutive| |done].
  apply Forall_forall. intros c Hc. rewrite elem_of_reverse in Hc. unfold is_slash. rewrite negb_true_iff, bool_decide_eq_false. by intros ->.
Qed.

Lemma split_slash h t : "/"%char ∉ t ->
  os_path_split (h ++ "/"%char :: t) =
  (if forallb is_slash (reverse h) then h ++ $"/" else reverse (snd (span is_slash (reverse h))), t).
Proof.
  intros Ht. unfold os_path_split. rewrite reverse_app, reverse_cons, <- (assoc_L (++)).
  rewrite (span_app _ (reverse t)); [| |done].
  - rewrite reverse_involutive. cbn [app forallb is_slash]. change (is_slash "/") with true. cbn [andb].
    destruct (forallb is_slash (reverse h)); [by rewrite reverse_cons, reverse_involutive|].
    cbn [span]. change (is_slash "/") with true. cbn iota. by destruct (span is_slash (reverse h)).
  - apply Forall_forall. intros c Hc. rewrite elem_of_reverse in Hc. unfold is_slash. rewrite negb_true_iff, bool_decide_eq_false. by intros ->.
Qed.

(** A head that does not end with a slash. *)
Lemma split_head h c t : c <> "/"%char -> "/"%char ∉ t -> os_path_split ((h ++ [c]) ++ "/"%char :: t) = (h ++ [c], t).
Proof.
  intros Hc Ht. rewrite split_slash by done. rewrite reverse_snoc. cbn [forallb span].
  assert (is_slash c = false) as -> by by apply bool_decide_eq_false. cbn [andb snd]. by rewrite reverse_cons, reverse_involutive.
Qed.

(** The name of a directory or a file, other than [ns3]. *)
Definition plain (n : pystr) : Prop := n <> [] /\ "/"%char ∉ n /\ n <> $"ns3".

(** A path and names below it. *)
Definition below (base : pystr) (names : list pystr) : pystr := base ++ (names ≫= fun n => "/"%char :: n).

Definition ends_open (base : pystr) : Prop := exists h c, base = h ++ [c] /\ c <> "/"%char.

Lemma plain_ends p n : n <> [] -> "/"%char ∉ n -> ends_open (p ++ n).
Proof.
  intros Hne Hn. destruct n as [|c n _] using rev_ind; [done|]. exists (p ++ n), c. rewrite <- (assoc_L (++)). split; [done|].
  intros ->. apply Hn. set_solver.
Qed.

Lemma below_snoc base names n : below base (names ++ [n]) = below base names ++ "/"%char :: n.
Proof. unfold below. rewrite bind_app. cbn. by rewrite (right_id_L [] (++)), (assoc_L (++)). Qed.

Lemma below_ends base names : ends_open base -> Forall plain names -> ends_open (below base names).
Proof.
  intros Hb Hn. destruct names as [|n names _] using rev_ind; [unfold below; cbn; by rewrite (right_id_L [] (++))|].
  rewrite below_snoc. apply Forall_app in Hn as [_ Hn]. apply Forall_singleton in Hn as (H1 & H2 & _).
  change ("/"%char :: n) with ($"/" ++ n). rewrite (assoc_L (++)). by apply plain_ends.
Qed.

Lemma below_step base names n : ends_open base -> Forall plain names -> plain n ->
  exists c r, below base (names ++ [n]) = c :: r /\ os_path_split (below base (names ++ [n])) = (below base names, n) /\
    below base names <> below base (names ++ [n]).
Proof.
  intros Hb Hn (_ & Hs & _). rewrite below_snoc. destruct (below_ends base names Hb Hn) as (h & c & -> & Hc).
  assert (exists c' r, (h ++ [c]) ++ "/"%char :: n = c' :: r) as (c' & r & E) by (destruct h; cbn; by eexists _, _).
  exists c', r. split; [done|]. split; [by apply split_head|].
  intros H. apply (f_equal length) in H. rewrite !length_app in H. cbn in H. lia.
Qed.

(** The loops go up to the base. *)
Lemma relative_loop_below base names l fuel : ends_open base -> Forall plain names ->
  relative_loop (length names + fuel) (below base names) l = relative_loop fuel base (names ++ l) /\
  relative_loop_gccxml (length names + fuel) (below base names) l = relative_loop_gccxml fuel base (names ++ l).
Proof.
  intros Hb. revert l. induction names as [|n names IH] using rev_ind; intros l Hn.
  - unfold below. cbn. by rewrite (right_id_L [] (++)).
  - apply Forall_app in Hn as [Hn [Hn1 _]%Forall_cons].
    destruct (below_step base names n Hb Hn Hn1) as (c & r & E & Hs & Hne). destruct Hn1 as (_ & _ & Hns).
    rewrite length_app. replace (length names + length [n] + fuel) with (S (length names + fuel)) by (cbn; lia).
    cbn [relative_loop relative_loop_gccxml]. rewrite E, <- E, Hs, !decide_False by done.
    rewrite <- (assoc_L (++)). by apply IH.
Qed.

Lemma join_all_names n names : Forall plain (n :: names) -> join_all (n :: names) = Ok (join $"/" (n :: names)).
Proof.
  intros Hn. unfold join_all. f_equal. apply Forall_cons in Hn as [(H1 & H2 & _) Hn].
  assert (ends_open n) as Ho by by apply (plain_ends [] n). clear H1 H2.
  assert (forall base, ends_open base -> foldl os_path_join base names = below base names) as H.
  { clear n Ho. induction Hn as [|n names (H1 & H2 & _) Hn IH]; intros base Ho; [unfold below; cbn; by rewrite (right_id_L [] (++))|].
    cbn [foldl]. assert (os_path_join base n = base ++ "/"%char :: n) as ->.
    { unfold os_path_join. destruct (startswith n $"/") eqn:E.
      - apply startswith_spec in E as [r ->]. exfalso. apply H2. by left.
      - destruct Ho as (h & c & -> & Hc). rewrite bool_decide_eq_false_2 by (by intros [_ ?]%app_eq_nil).
        destruct (endswith (h ++ [c]) $"/") eqn:E2; [|done].
        apply endswith_spec in E2 as [r Er]. apply app_inj_tail in Er as [_ ->]. done. }
    rewrite IH; [|change ("/"%char :: n) with ($"/" ++ n); rewrite (assoc_L (++)); by apply plain_ends].
    unfold below. cbn [mbind list_bind]. by rewrite <- (assoc_L (++)). }
  rewrite H by done. clear H Ho. induction Hn as [|m names _ Hn IH] in n |- *; [unfold below; cbn; by rewrite (right_id_L [] (++))|].
  unfold below in *. cbn [mbind list_bind]. change (join $"/" (n :: m :: names)) with (n ++ "/"%char :: join $"/" (m :: names)).
  rewrite <- (IH m). by rewrite <- app_comm_cons.
Qed.

Lemma split_prefix p h t : os_path_split p = (h, t) -> exists z, p = h ++ z ++ t.
Proof.
  unfold os_path_split. destruct (span _ (reverse p)) as [tail head] eqn:E. apply span_spec in E as (E & _ & _).
  intros [= <- <-]. apply (f_equal reverse) in E. rewrite reverse_involutive, reverse_app in E. subst p.
  case_match; [by exists []|]. destruct (span is_slash head) as [a b] eqn:E2. apply span_spec in E2 as (-> & _ & _).
  exists (reverse a). by rewrite reverse_app, <- (assoc_L (++)).
Qed.

(** At a directory [ns3]. *)
Lemma split_ns3 pre : pre = [] \/ (exists p, pre = p ++ $"/") ->
  exists h, os_path_split (pre ++ $"ns3") = (h, $"ns3") /\ h <> pre ++ $"ns3".
Proof.
  intros H. assert (exists h, os_path_split (pre ++ $"ns3") = (h, $"ns3")) as [h E].
  { destruct H as [->|[p ->]]; [by eexists|]. rewrite <- (assoc_L (++)). eexists. by apply split_slash, (bool_decide_unpack _). }
  exists h. split; [done|]. intros ->. apply split_prefix in E as [z E]. apply (f_equal length) in E. rewrite !length_app in E. cbn in E. lia.
Qed.

(** A path is cut within as many rounds as it has characters, and one more. *)
Lemma relative_loop_total fuel head l : length head < fuel -> exists r, relative_loop fuel head l = Some r /\ r <> Err OutOfFuel.
Proof.
  revert head l. induction fuel as [|fuel IH]; intros head l Hf; [lia|]. cbn [relative_loop].
  destruct head as [|c head]; [by eexists|]. destruct (os_path_split (c :: head)) as [h t] eqn:E.
  case_decide as H1; [by eexists|]. case_decide as H2; [eexists; split; [done|by destruct l]|].
  apply IH. apply split_prefix in E as [z E]. destruct (decide (length h = S (length head))) as [Heq|Hne].
  - exfalso. apply H1. assert (z ++ t = []) as Hz by (apply length_zero_iff_nil; apply (f_equal length) in E; rewrite length_app in E; cbn in E; lia).
    rewrite E, Hz. by rewrite (right_id_L [] (++)).
  - apply (f_equal length) in E. rewrite length_app in E. cbn [length] in *. lia.
Qed.

Lemma below_length base names : length names + length base <= length (below base names).
Proof.
  unfold below. rewrite length_app. enough (length names <= length (names ≫= fun n => "/"%char :: n)) by lia.
  induction names as [|n names IH]; [done|]. change (mbind (fun n => "/"%char :: n) (n :: names)) with (("/"%char :: n) ++ (names ≫= fun n => "/"%char :: n)).
  rewrite length_app. cbn [length]. lia.
Qed.

Lemma get_below base names : ends_open base -> Forall plain names ->
  exists k, get_ns3_relative_path (below base names) =
    let! r := default (Err OutOfFuel) (relative_loop (S (S k)) base names) in Ok (Some r).
Proof.
  intros Hb Hn. pose proof (below_length base names) as Hl. assert (0 < length base) as Hb0.
  { destruct Hb as (h & c & -> & _). rewrite length_app. cbn. lia. }
  exists (length (below base names) - length names - 1). unfold get_ns3_relative_path.
  destruct (below base names) as [|c r] eqn:E; [cbn in Hl; lia|]. rewrite <- E in *.
  replace (S (length (below base names))) with (length names + S (S (length (below base names) - length names - 1))) by lia.
  destruct (relative_loop_below base names [] (S (S (length (below base names) - length names - 1))) Hb Hn) as [-> _].
  by rewrite (right_id_L [] (++)).
Qed.

Lemma split_root n : "/"%char ∉ n -> os_path_split ($"/" ++ n) = ($"/", n).
Proof. intros Hn. by apply (split_slash [] n). Qed.

Lemma root_stuck fuel l : relative_loop_gccxml fuel $"/" l = None.
Proof. revert l. induction fuel as [|fuel IH]; intros l; [done|]. apply (IH ([] :: l)). Qed.

Lemma gccxml_more fuel k head l r : relative_loop_gccxml fuel head l = Some r -> relative_loop_gccxml (fuel + k) head l = Some r.
Proof.
  revert head l. induction fuel as [|fuel IH]; intros head l; [done|]. cbn [relative_loop_gccxml Nat.add].
  destruct head as [|c head]; [done|]. destruct (os_path_split (c :: head)) as [h t]. case_decide; [done|]. apply IH.
Qed.

(** Of a path below a directory [ns3] it is what follows the last one; the directory itself
    has no relative path (TypeError), and a path without one is refused, with ValueError when
    it is absolute and AssertionError otherwise.  It always ends; the loop of
    [ns3modulescan.py] does not end on an absolute path without such a directory. *)
Theorem get_ns3_relative_path_spec pre names n :
  Forall plain names -> pre = [] \/ (exists p, pre = p ++ $"/") -> plain n ->
  get_ns3_relative_path (below (pre ++ $"ns3") names) =
    match names with [] => Err TypeError | _ => Ok (Some (join $"/" names)) end /\
  get_ns3_relative_path (below ($"/" ++ n) names) = Err ValueError /\
  (forall fuel, relative_loop_gccxml fuel (below ($"/" ++ n) names) [] = None) /\
  get_ns3_relative_path (below n names) = Err AssertionError /\
  (forall path, get_ns3_relative_path path <> Err OutOfFuel).
Proof.
  intros Hn Hpre Hp. pose proof Hp as (H1 & H2 & H3). split_and!.
  - assert (ends_open (pre ++ $"ns3")) as Ho by by (apply plain_ends; [|apply (bool_decide_unpack _)]).
    destruct (get_below (pre ++ $"ns3") names Ho Hn) as [k ->]. destruct (split_ns3 pre Hpre) as (h & Hs & Hne).
    cbn [relative_loop]. rewrite Hs, decide_False by done. cbn [default].
    destruct (pre ++ $"ns3") as [|c r] eqn:E; [by apply app_eq_nil in E as [_ ?]|].
    rewrite decide_True by done. destruct names as [|m names]; [done|]. by rewrite join_all_names.
  - destruct (get_below ($"/" ++ n) names) as [k ->]; [by apply plain_ends|done|]. cbn [relative_loop].
    rewrite split_root by done. cbn [app list_ascii_of_string]. rewrite decide_False by (intros [=]; by destruct n).
    rewrite decide_False by done. done.
  - intros fuel. destruct (relative_loop_gccxml fuel _ _) as [r|] eqn:E; [|done].
    apply (gccxml_more _ (S (length names))) in E. replace (fuel + S (length names)) with (length names + S fuel) in E by lia.
    destruct (relative_loop_below ($"/" ++ n) names [] (S fuel)) as [_ Hg]; [by apply plain_ends|done|]. rewrite Hg in E. clear Hg.
    cbn [relative_loop_gccxml] in E. rewrite split_root in E by done. cbn [app list_ascii_of_string] in E.
    by rewrite decide_False, root_stuck in E by done.
  - destruct (get_below n names) as [k ->]; [by apply (plain_ends [])|done|]. cbn [relative_loop].
    rewrite split_no_sep by done. destruct n as [|c n]; [done|]. by rewrite !decide_False by done.
  - intros path. unfold get_ns3_relative_path. destruct path as [|c path]; [done|].
    destruct (relative_loop_total (S (length (c :: path))) (c :: path) []) as (r & -> & Hr); [lia|]. cbn [default]. by destruct r; [|intros [= ->]].
Qed.

(** ** The shared table *)

Definition params_ok (a : annotations) : Prop :=
  NoDup a.*1 /\ forall v, AList.aget a $"params" = Some v -> exists ps, v = AParams ps.

Definition table_ok (t : list (pystr * annotations)) : Prop := forall key a, AList.aget t key = Some a -> params_ok a.

(** The annotations of the parameters the table has for a declaration, and the table without
    them. *)
Definition params_of (t : list (pystr * annotations)) (key : pystr) : params :=
  match AList.aget t key ≫= fun a => AList.aget a $"params" with Some (AParams ps) => ps | _ => [] end.

Definition strip (key : pystr) (t : list (pystr * annotations)) : list (pystr * annotations) :=
  match AList.aget t key with
  | Some a => if decide (is_Some (AList.aget a $"params")) then AList.aset key (AList.adel $"params" a) t else t
  | None => t
  end.

Lemma aget_strip key t key' :
  AList.aget (strip key t) key' =
  match AList.aget t key' with Some a => Some (if decide (key = key') then AList.adel $"params" a else a) | None => None end.
Proof.
  assert (forall a : annotations, AList.aget a $"params" = None -> AList.adel $"params" a = a) as Hdel.
  { intros a. induction a as [|[k v] a IH]; [done|]. cbn [AList.aget AList.adel]. case_decide; [done|]. intros Ha. by rewrite IH. }
  unfold strip. destruct (AList.aget t key) as [a|] eqn:E; [case_decide as Hp|].
  - rewrite AList.aget_aset. case_decide; [by subst; rewrite E|]. by destruct (AList.aget t key').
  - destruct (AList.aget t key') as [a'|] eqn:E'; [|done]. case_decide; [|done]. subst. rewrite E in E'. injection E' as <-.
    rewrite Hdel; [done|]. by apply eq_None_not_Some.
  - destruct (AList.aget t key') eqn:E'; [|done]. case_decide; [congruence|done].
Qed.

Lemma aget_adel_params (a : annotations) k : AList.aget (AList.adel $"params" a) k = if decide (k = $"params") then None else AList.aget a k.
Proof. rewrite AList.aget_adel. by repeat case_decide. Qed.

Lemma params_of_strip key t key' : params_of (strip key t) key' = if decide (key = key') then [] else params_of t key'.
Proof.
  unfold params_of. rewrite aget_strip. destruct (AList.aget t key') as [a|]; [|by case_decide].
  case_decide; [|done]. cbn [mbind option_bind]. by rewrite aget_adel_params, decide_True.
Qed.

Lemma strip_ok key t : table_ok t -> table_ok (strip key t).
Proof.
  intros Ht key' a. rewrite aget_strip. destruct (AList.aget t key') as [a'|] eqn:E; [|done]. intros [= <-].
  destruct (Ht _ _ E) as [H1 H2]. case_decide; [|done]. split; [by apply AList.adel_nodup|].
  intros v. by rewrite aget_adel_params, decide_True.
Qed.

Lemma aget_update {V} (d d' : list (pystr * V)) k : NoDup d'.*1 ->
  AList.aget (update d d') k = match AList.aget d' k with Some v => Some v | None => AList.aget d k end.
Proof.
  unfold update. revert d. induction d' as [|[k' v] d' IH]; intros d Hnd; [done|]. cbn [foldl AList.aget fst snd].
  apply NoDup_cons in Hnd as [Hk Hnd]. rewrite IH by done. rewrite AList.aget_aset.
  case_decide as E; [|done]. subst k'. destruct (AList.aget d' k) eqn:E; [|done]. exfalso. apply Hk, AList.aget_keys. by eexists.
Qed.

(** The loop over the annotations of a function. *)
Lemma take_params_for key a s :
  NoDup a.*1 -> (forall v, AList.aget a $"params" = Some v -> exists ps, v = AParams ps) ->
  mfor (take_params key) a s =
  (match AList.aget a $"params" with
   | Some (AParams ps) =>
       set_table (AList.aset key (AList.adel $"params" (default [] (AList.aget (table s) key))) (table s))
         (set_params (fun p => update p ps) s)
   | _ => s
   end, Ok tt).
Proof.
  revert s. induction a as [|[k v] a IH]; intros s Hnd Hv; [done|].
  apply NoDup_cons in Hnd as [Hk Hnd]. cbn [mfor AList.aget] in *. unfold take_params at 1. cbn [fst snd] in *.
  destruct (decide (k = $"params")) as [->|Hne].
  - destruct (Hv v eq_refl) as [ps ->].
    assert (AList.aget a $"params" = None) as Hnone.
    { destruct (AList.aget a $"params") eqn:E; [|done]. exfalso. apply Hk, AList.aget_keys. by eexists. }
    unfold gbind, mset. rewrite IH; [by rewrite Hnone|done|by rewrite Hnone].
  - unfold gbind, mret. by apply IH.
Qed.

Lemma annotate_function_spec d s : table_ok (table s) ->
  exists s', annotate_function d s = (s', Ok tt) /\
    table s' = (if is_function d then strip (text d) (table s) else table s) /\
    parameter_annotations s' = (if is_function d then update (parameter_annotations s) (params_of (table s) (text d)) else parameter_annotations s) /\
    (is_function d = true -> forall a k v, AList.aget (table s) (text d) = Some a -> k <> $"params" ->
       AList.aget a k = Some v -> AList.aget (global_annotations s') k = Some v).
Proof.
  intros Ht. unfold annotate_function. destruct (is_function d); [|by exists s].
  unfold gbind at 1, mget, strip, params_of. destruct (AList.aget (table s) (text d)) as [a|] eqn:E; [|by exists s].
  destruct (Ht _ _ E) as [Hnd Hps]. unfold gbind. rewrite take_params_for by done. cbn [mbind option_bind].
  destruct (AList.aget a $"params") as [v|] eqn:Ep.
  - destruct (Hps v eq_refl) as [ps ->]. rewrite !E. rewrite decide_True by by eexists.
    eexists. split; [reflexivity|]. cbn [table parameter_annotations global_annotations set_table set_globals set_params default from_option].
    split; [done|]. split; [done|]. intros _ a' k v [= <-] Hk Hv. rewrite AList.aget_aset, decide_True by done. unfold default, from_option, id.
    rewrite aget_update by by apply AList.adel_nodup. rewrite aget_adel_params, decide_False by done. by rewrite Hv.
  - rewrite decide_False by by intros []. eexists. split; [reflexivity|].
    cbn [table parameter_annotations global_annotations set_globals]. split; [done|]. split; [done|].
    intros _ a' k v [= <-] Hk Hv. rewrite E. unfold default, from_option, id. rewrite aget_update by done. by rewrite Hv.
Qed.

(** ** What a hook does to the table *)

(** A part of a hook that returns and only annotates. *)
Definition quiet (m : stM scan ()) : Prop := forall s, exists s', m s = (s', Ok tt) /\
  table s' = table s /\ parameter_annotations s' = parameter_annotations s.

Lemma quiet_ret : quiet (mret tt).
Proof. intros s. by exists s. Qed.

Lemma quiet_annotate k v : quiet (annotate k v).
Proof. intros s. by eexists. Qed.

Lemma quiet_then m (k : stM scan ()) s : quiet m ->
  exists s1, gbind m (fun _ => k) s = k s1 /\ table s1 = table s /\ parameter_annotations s1 = parameter_annotations s.
Proof. intros Hm. destruct (Hm s) as (s1 & E & H). exists s1. unfold gbind. by rewrite E. Qed.

Lemma quiet_seq m m' : quiet m -> quiet m' -> quiet (m >>> m').
Proof.
  intros H H' s. destruct (quiet_then m m' s H) as (s1 & -> & <- & <-). apply H'.
Qed.

Ltac quiet := repeat first [case_decide | apply quiet_seq | apply quiet_annotate | apply quiet_ret].

Lemma quiet_prelude c l d : quiet (prelude c l d).
Proof.
  unfold prelude, name_get_object, ignore_simulator, fix_defaults. quiet.
  all: destruct (is_callable d); [intros s; by eexists|apply quiet_ret].
Qed.

Section hook_spec.
Context (templates_args : pystr -> list pystr) (templates_split : pystr -> pystr * list pystr)
  (is_instantiation : pystr -> bool) (find_location : pystr -> option pystr) (headers_map : gmap pystr pystr) (module : pystr).

Notation hook_body := (hook_body templates_args templates_split is_instantiation find_location headers_map module).
Notation hook_class := (hook_class templates_split is_instantiation find_location headers_map module).
Notation hook := (PreScanHook_call templates_args templates_split is_instantiation find_location headers_map module).

(** The functions the hook gets to the table with: declared in ns-3, and a free one in this
    module. *)
Definition handled (d : declaration) : bool :=
  match get_ns3_relative_path (file_name d) with
  | Ok (Some ((_ :: _) as h)) =>
      match headers_map !! h with
      | Some m => is_function d && negb (bool_decide (kind d = FreeFunction /\ (m <> module \/ name d = $"PeekPointer")))
      | None => false
      end
  | _ => false
  end.

Definition same_tables (s s' : scan) : Prop := table s' = table s /\ parameter_annotations s' = parameter_annotations s.

Lemma hook_class_keeps m d s : same_tables s (fst (hook_class m d s)).
Proof.
  assert (preserves (same_tables s) (hook_class m d)) as H; [|by apply H].
  unfold hook_class. case_decide; [|apply preserves_ret].
  assert (forall k v, preserves (same_tables s) (annotate k v)) as Ha by (intros k v; apply preserves_set; by intros s1).
  apply preserves_bind; [apply preserves_lift|intros m'].
  apply preserves_bind; [case_decide; [apply Ha|apply preserves_ret]|intros _].
  apply preserves_bind.
  - unfold special_class. repeat case_match; repeat (apply preserves_bind; [apply Ha|intros _]); apply preserves_ret.
  - intros [|]; [apply preserves_ret|]. apply preserves_bind; [|intros _; apply preserves_ret].
    unfold annotate_class. apply preserves_bind; [apply preserves_get|intros t].
    destruct (AList.aget t (decl_string d)); [apply preserves_set; by intros s1|apply preserves_ret].
Qed.

Lemma hook_class_function m d s : is_function d = true -> hook_class m d s = (s, Ok (m, false)).
Proof.
  intros Hf. unfold hook_class. rewrite decide_False; [done|]. intros Hk. unfold is_function in Hf. by rewrite Hk in Hf.
Qed.

(** What a call leaves of the table, and the annotations of parameters it gives. *)
Definition call_tables (d : declaration) (taken : bool) (s s' : scan) : Prop :=
  table s' = (if taken then strip (text d) (table s) else table s) /\
  parameter_annotations s' = (if taken then update (parameter_annotations s) (params_of (table s) (text d)) else parameter_annotations s) /\
  (taken = true -> forall a k v, AList.aget (table s) (text d) = Some a -> k <> $"params" ->
     AList.aget a k = Some v -> AList.aget (global_annotations s') k = Some v).

Lemma hook_body_tables h m d s s' : table_ok (table s) -> hook_body h m d s = (s', Ok tt) ->
  call_tables d (is_function d && negb (bool_decide (kind d = FreeFunction /\ (m <> module \/ name d = $"PeekPointer")))) s s'.
Proof.
  intros Ht. unfold hook_body.
  destruct (quiet_then _ (hook_rest templates_split is_instantiation find_location headers_map module m d) s
    (quiet_prelude (h ++ $" (module " ++ py_repr m ++ $"): " ++ text d) (templates_args (text d)) d)) as (s1 & -> & E1 & E2).
  unfold call_tables. rewrite <- E1, <- E2. rewrite <- E1 in Ht. clear E1 E2 s. unfold hook_rest, gbind at 1.
  destruct (is_function d) eqn:Hf.
  - rewrite hook_class_function by done. rewrite decide_False by (intros [Hk _]; unfold is_function in Hf; by rewrite Hk in Hf).
    unfold gbind, mret. case_decide as Hi.
    + rewrite bool_decide_eq_true_2 by done. by intros [= <-].
    + rewrite bool_decide_eq_false_2 by done. destruct (annotate_function_spec d s1 Ht) as (s2 & -> & H1 & H2 & H3).
      rewrite Hf in *. intros [= <-]. split; [done|]. split; [done|]. intros _. by apply H3.
  - pose proof (hook_class_keeps m d s1) as [K1 K2]. destruct (hook_class m d s1) as [s2 [[m' done_]|e]]; [|done].
    cbn [fst andb] in *. rewrite <- K1, <- K2. destruct done_; [by intros [= <-]|].
    destruct (quiet_then (if decide (kind d = Enumeration /\ m' <> module) then annotate $"import_from_module" (AStr ($"ns." ++ m')) else mret tt)
      (if decide (kind d = FreeFunction /\ (m' <> module \/ name d = $"PeekPointer")) then annotate $"ignore" ANone else annotate_function d) s2)
      as (s3 & -> & <- & <-); [quiet|].
    rewrite decide_False by (intros [Hk _]; unfold is_function in Hf; by rewrite Hk in Hf).
    unfold annotate_function. rewrite Hf. by intros [= <-].
Qed.

Lemma hook_tables d s s' : table_ok (table s) -> hook d s = (s', Ok tt) -> call_tables d (handled d) s s'.
Proof.
  intros Ht. unfold PreScanHook_call, handled.
  destruct (get_ns3_relative_path (file_name d)) as [[[|c h]|]|e]; [by intros [= <-]| |by intros [= <-]|by destruct e; intros [= <-]].
  unfold gbind, mlift, header_module. cbn [mbind option_bind].
  destruct (headers_map !! (c :: h)) as [m|]; [|done]. cbn [or_raise]. by apply hook_body_tables.
Qed.

(** ** Scanning *)

(** The declarations in turn, each with empty dictionaries. *)
Fixpoint scan_all (t : list (pystr * annotations)) (ds : list (declaration * list (option pystr))) : py (list scan) :=
  match ds with
  | [] => Ok []
  | (d, defaults) :: ds =>
      match hook d {| table := t; global_annotations := []; parameter_annotations := []; default_values := defaults |} with
      | (s, Ok _) => let! r := scan_all (table s) ds in Ok (s :: r)
      | (_, Err e) => Err e
      end
  end.

(** Whether the table has already been asked for this text. *)
Definition asked (key : pystr) (ds : list declaration) : bool := existsb (fun d => handled d && bool_decide (text d = key)) ds.

(** In a scan the annotations of the parameters of a function are given to the first
    declaration with its text only, since the hook takes them out of the table it shares
    with the other calls; the other annotations of the table are given each time. *)
Theorem scan_all_spec t ds rs i d s :
  table_ok t -> scan_all t ds = Ok rs -> ds.*1 !! i = Some d -> rs !! i = Some s ->
  parameter_annotations s = (if handled d && negb (asked (text d) (take i ds.*1)) then update [] (params_of t (text d)) else []) /\
  (handled d = true -> forall a k v, AList.aget t (text d) = Some a -> k <> $"params" ->
     AList.aget a k = Some v -> AList.aget (global_annotations s) k = Some v).
Proof.
  revert t rs i. induction ds as [|[d0 defaults] ds IH]; intros t rs i Ht; cbn [scan_all fmap list_fmap fst]; [by intros _ ?|].
  set (s0 := {| table := t; global_annotations := []; parameter_annotations := []; default_values := defaults |}).
  destruct (hook d0 s0) as [s1 [[]|e]] eqn:E; [|done]. intros Hr. apply rbind_Ok in Hr as (r & Hr & [= <-]).
  pose proof (hook_tables d0 s0 s1 Ht E) as (H1 & H2 & H3). cbn [s0 table parameter_annotations] in *.
  destruct i as [|i]; cbn [lookup list_lookup].
  - intros [= <-] [= <-]. cbn [take asked existsb negb]. rewrite andb_true_r. split; [exact H2|exact H3].
  - intros Hd Hs. assert (table_ok (table s1)) as Ht1 by (rewrite H1; destruct (handled d0); [by apply strip_ok|done]).
    destruct (IH (table s1) r i Ht1 Hr Hd Hs) as [I1 I2]. cbn [take asked existsb]. split.
    + rewrite I1, H1. destruct (handled d0); cbn [andb orb]; [|done]. rewrite params_of_strip.
      case_bool_decide as Et; cbn [orb negb]; [|by rewrite decide_False].
      rewrite decide_True, andb_false_r by done. by case_match.
    + intros Hh a k v Ha Hk Hv. rewrite H1 in I2.
      destruct (handled d0); [|by apply (I2 Hh a)].
      apply (I2 Hh (if decide (text d0 = text d) then AList.adel $"params" a else a)); [by rewrite aget_strip, Ha|done|].
      case_decide; [by rewrite aget_adel_params, decide_False|done].
Qed.

End hook_spec.

(** ** The two hooks *)

(** For the declarations of one module the hook of [ns3modulescan-modular.py] does what that
    of [ns3modulescan.py] does: they begin alike, with other comments, and what follows is the
    same. *)
Theorem hooks_agree templates_split is_instantiation find_location headers_map module d :
  class_module templates_split is_instantiation find_location headers_map module module d = Ok module ->
  forall s, hook_rest templates_split is_instantiation find_location headers_map module module d s = pre_scan_rest d s.
Proof.
  intros Hm s. unfold hook_rest, pre_scan_rest, hook_class. destruct (decide (kind d = Class)) as [Hk|Hk].
  - rewrite Hm. unfold gbind, mlift, mret. rewrite (decide_False (P := module <> module)) by tauto.
    rewrite Hk. destruct (special_class d s) as [s1 [[]|]]; try done.
    destruct (annotate_class d s1) as [s2 [[]|]]; try done.
  - unfold gbind, mret. rewrite (decide_False (P := kind d = Enumeration /\ module <> module)) by tauto.
    repeat case_decide; naive_solver.
Qed.

(** ** The table of the bindings *)

Lemma table_ok_list (t : list (pystr * annotations)) :
  Forall (fun kv => NoDup kv.2.*1 /\ forallb (fun av : pystr * annotation =>
    match av.2 with AParams _ => true | _ => negb (bool_decide (av.1 = $"params")) end) kv.2 = true) t -> table_ok t.
Proof.
  intros Ht key a Ha. assert ((key, a) ∈ t) as Hin.
  { clear Ht. induction t as [|[k b] t IH]; [done|]. cbn [AList.aget] in Ha. case_decide; [subst; injection Ha as ->; by left|right; auto]. }
  rewrite Forall_forall in Ht. destruct (Ht _ Hin) as [Hnd Hall]. cbn [snd] in *. split; [done|]. clear Ha Hin Hnd.
  intros v. induction a as [|[k w] a IH]; [done|]. cbn [AList.aget forallb fst snd] in *. apply andb_true_iff in Hall as [Hw Hall].
  case_decide as Hk; [|by apply IH]. intros [= ->]. destruct v as [| |?|ps]; [..|by exists ps]; by rewrite Hk in Hw.
Qed.

Lemma type_annotations_ok : table_ok type_annotations.
Proof.
  apply table_ok_list. assert (forall l : list pystr, bool_decide (NoDup l) = true -> NoDup l) as Hnd by (intros l; apply bool_decide_eq_true_1).
  repeat (constructor; [split; [apply Hnd; vm_compute; reflexivity|vm_compute; reflexivity]|]). constructor.
Qed.

Definition get_seed : declaration := {|
  kind := MemberFunction; name := $"GetSeed"; parent_name := $"RandomVariable"; decl_string := $"::ns3::RandomVariable::GetSeed";
  text := $"void ns3::RandomVariable::GetSeed(uint32_t * seed) const [member function]"; file_name := $"/ns/build/ns3/random-variable.h" |}.

Definition demo_headers : gmap pystr pystr := {[ $"random-variable.h" := $"core"; $"wifi-mac.h" := $"point-to-point" ]}.

Definition demo_scan (ds : list declaration) : py (list scan) :=
  scan_all (fun _ => []) (fun s => (s, [])) (fun _ => false) (fun _ => None) demo_headers $"core" type_annotations ((fun d => (d, [])) <$> ds).

Example scanned_twice :
  match demo_scan [get_seed; get_seed] with
  | Ok [a; b] => (parameter_annotations a, parameter_annotations b)
  | _ => ([], [])
  end = ([($"seed", [($"direction", $"out"); ($"array_length", $"6")])], []).
Proof. vm_compute. reflexivity. Qed.

(** The module of a class of another module is a Python name, that of an enumeration is not. *)
Example other_module :
  let d k := {| kind := k; name := $"X"; parent_name := $"ns3"; decl_string := $"::ns3::X"; text := $"ns3::X"; file_name := $"/ns/build/ns3/wifi-mac.h" |} in
  match demo_scan [d Class; d Enumeration] with
  | Ok [a; b] => (AList.aget (global_annotations a) $"import_from_module", AList.aget (global_annotations b) $"import_from_module")
  | _ => (None, None)
  end = (Some (AStr $"ns.point_to_point"), Some (AStr $"ns.point-to-point")).
Proof. vm_compute. reflexivity. Qed.

Example callbacks :
  scan_callback_classes (fun s => (s, [$"void"; $"ns3::Ptr<ns3::Packet>"])) (fun _ => true) [($"Callback<void>", $"::ns3::Callback<void>"); ($"Node", $"::ns3::Node")] =
  Ok ($"callback_classes = [" ++ [NL] ++ $"    ['void', 'ns3::Ptr<ns3::Packet>']," ++ [NL] ++ $"]" ++ [NL]).
Proof. vm_compute. reflexivity. Qed.

Lemma get_ns3_relative_path_spec_witness :
  get_ns3_relative_path $"/ns/build/ns3/random-variable.h" = Ok (Some $"random-variable.h") /\
  get_ns3_relative_path $"/usr/random-variable.h" = Err ValueError /\
  (forall fuel, relative_loop_gccxml fuel $"/usr/random-variable.h" [] = None) /\
  get_ns3_relative_path $"usr/random-variable.h" = Err AssertionError /\
  (forall path, get_ns3_relative_path path <> Err OutOfFuel).
Proof.
  assert (forall n, bool_decide (n <> [] /\ "/"%char ∉ n /\ n <> $"ns3") = true -> plain n) as Hp by (intros n; apply bool_decide_eq_true_1).
  apply (get_ns3_relative_path_spec $"/ns/build/" [$"random-variable.h"] $"usr").
  - constructor; [apply Hp; vm_compute; reflexivity|constructor].
  - right. by exists $"/ns/build".
  - apply Hp. vm_compute. reflexivity.
Defined.

Lemma scan_all_spec_witness :
  match demo_scan [get_seed; get_seed] with
  | Ok rs => forall s, rs !! 1 = Some s -> parameter_annotations s = []
  | Err _ => False
  end.
Proof.
  destruct (demo_scan [get_seed; get_seed]) as [rs|e] eqn:E; [|vm_compute in E; discriminate].
  intros s Hs. unfold demo_scan in E.
  destruct (scan_all_spec _ _ _ _ _ _ _ _ _ 1 get_seed s type_annotations_ok E eq_refl Hs) as [-> _].
  vm_compute. reflexivity.
Defined.

Lemma hooks_agree_witness : forall s,
  hook_rest (fun s => (s, [])) (fun _ => false) (fun _ => None) demo_headers $"core" $"core" get_seed s = pre_scan_rest get_seed s.
Proof. apply hooks_agree. reflexivity. Defined.
