(* ===== verification/BindSections.v ===== *)
(** * [bindings/python/ns3modulescan.py]: the sections of the bindings

    Each module of ns-3 gets a section, in an order by their dependencies that
    [topsort.py] finds, and a declaration the section of the module of its header.  The
    keys of the dictionary of modules are sorted in place: this is Python 2 code. *)

From S2P Require Import Prelude PyDict OsPath TopSort BindScan.

(** The modules: their dependencies and their headers. *)
Abbreviation modules := (list (pystr * (list pystr * list pystr))).

(** The pairs of a dependency and a module, the modules in order. *)
Definition module_graph (ns3_modules : modules) : list (pystr * pystr) :=
  py_sort str_leb ns3_modules.*1 ≫= fun name =>
    match AList.aget ns3_modules name with
    | Some (deps, _) => (fun dep => (dep, name)) <$> py_sort str_leb deps
    | None => []
    end.

Definition section_name (ns3_module : pystr) : pystr := $"ns3_module_" ++ dash_to_underscore ns3_module.

(** The sections with their files, the section of each header, the place of each section. *)
Record sections := {
  section_files : list (pystr * pystr);
  section_headers : gmap pystr pystr;
  section_precendences : gmap pystr Z
}.

Definition add_section (dirname : pystr) (ns3_modules : modules) (st : sections) (x : nat * pystr) : py sections :=
  let '(prec, ns3_module) := x in
  let section := section_name ns3_module in
  let file := os_path_join dirname (section ++ $".py") in
  let! '(_, headers) := or_raise KeyError (AList.aget ns3_modules ns3_module) in
  Ok {| section_files := section_files st ++ [(section, file)];
        section_headers := foldl (fun m h => <[h := section]> m) (section_headers st) headers;
        section_precendences := <[section := Z.of_nat prec]> (section_precendences st) |}.

Definition no_sections (pygen_file_name : pystr) : sections :=
  {| section_files := [($"__main__", pygen_file_name)]; section_headers := ∅; section_precendences := ∅ |}.

(** The part of [ns3_module_scan] before the parser. *)
Definition module_sections {D : Type -> Type} `{PyDict pystr D} (pygen_file_name : pystr) (ns3_modules : modules) :
    option (result (@topsort_exn pystr D) sections) :=
  (fun r => let! sorted_ns3_modules := r in
     raising (for_each (add_section (os_path_split pygen_file_name).1 ns3_modules) (imap pair sorted_ns3_modules) (no_sections pygen_file_name)))
  <$> topsort (D := D) (module_graph ns3_modules).

(** [MyPygenClassifier] *)
Definition classify (st : sections) (file_name : pystr) : pystr :=
  default $"__main__" (section_headers st !! os_path_basename file_name).

Definition get_section_precedence (st : sections) (section : pystr) : py Z :=
  if decide (section = $"__main__") then Ok (-1)%Z else or_raise KeyError (section_precendences st !! section).

(** ** The sections follow the dependencies *)

Section spec.
Context {D : Type -> Type} `{!PyDict pystr D, !PyDictLaws pystr D}.
Context (pygen_file_name : pystr) (ns3_modules : modules).

(** The headers of a module. *)
Definition headers_of (m : pystr) : list pystr := default [] (snd <$> AList.aget ns3_modules m).

(** [m] depends on [d]; and [m] depends on another module or another on it. *)
Definition depends (m d : pystr) : Prop := exists deps hs, AList.aget ns3_modules m = Some (deps, hs) /\ d ∈ deps.
Definition linked (m : pystr) : Prop := exists d, depends m d \/ depends d m.

(** Every dependency is a module, no two modules that depend have the same section, and a
    header is of one module. *)
Record well_formed : Prop := {
  wf_known : forall m d, depends m d -> is_Some (AList.aget ns3_modules d);
  wf_sections : forall m m', linked m -> linked m' -> section_name m = section_name m' -> m = m';
  wf_headers : forall m m' h, h ∈ headers_of m -> h ∈ headers_of m' -> m = m'
}.

Lemma elem_of_graph d m : (d, m) ∈ module_graph ns3_modules <-> depends m d.
Proof.
  unfold module_graph, depends. rewrite list_elem_of_bind. split.
  - intros (name & Hin & _). destruct (AList.aget ns3_modules name) as [[deps hs]|] eqn:E; [|by apply not_elem_of_nil in Hin].
    apply list_elem_of_fmap in Hin as (dep & [= -> ->] & Hd). rewrite elem_of_py_sort in Hd. by exists deps, hs.
  - intros (deps & hs & E & Hd). exists m. rewrite E. split; [apply list_elem_of_fmap; exists d; by rewrite elem_of_py_sort|].
    rewrite elem_of_py_sort. apply AList.aget_keys. by eexists.
Qed.

Lemma elem_of_linked m : m ∈ elements (module_graph ns3_modules) <-> linked m.
Proof.
  split.
  - intros [d [Hd|Hd]]%elem_of_elements; exists d; unfold edge in Hd; rewrite elem_of_graph in Hd; auto.
  - intros [d [Hd|Hd]]; apply elem_of_graph, edge_elements in Hd; tauto.
Qed.

Lemma cyclic_graph : (exists m, tc (edge (module_graph ns3_modules)) m m) <-> (exists m, tc depends m m).
Proof.
  split; intros [m Hm]; exists m; apply tc_flip; (eapply (tc_congruence id); [|exact Hm]); intros x y Hxy;
    unfold flip, edge, id in *; [by rewrite elem_of_graph in Hxy|by rewrite elem_of_graph].
Qed.

Lemma linked_known m : well_formed -> linked m -> is_Some (AList.aget ns3_modules m).
Proof. intros Hwf [d [(deps & hs & E & _)|Hd]]; [by eexists|by apply (wf_known Hwf d)]. Qed.

(** After the sections of some modules. *)
Record sections_of (ms : list pystr) (st : sections) : Prop := {
  so_precedence : forall i m, ms !! i = Some m -> section_precendences st !! section_name m = Some (Z.of_nat i);
  so_headers : forall m h, m ∈ ms -> h ∈ headers_of m -> section_headers st !! h = Some (section_name m);
  so_only : forall h, is_Some (section_headers st !! h) -> exists m, m ∈ ms /\ h ∈ headers_of m
}.

Lemma insert_headers (s : pystr) (hs : list pystr) (m : gmap pystr pystr) (h : pystr) :
  foldl (fun m h => <[h := s]> m) m hs !! h = if decide (h ∈ hs) then Some s else m !! h.
Proof.
  revert m. induction hs as [|h0 hs IH]; intros m; [done|]. cbn [foldl]. rewrite IH.
  destruct (decide (h ∈ hs)), (decide (h ∈ h0 :: hs)) as [Hin|Hin]; try set_solver.
  - apply list.elem_of_cons in Hin as [->|]; [|done]. by rewrite lookup_insert_eq.
  - by rewrite lookup_insert_ne by set_solver.
Qed.

Lemma add_section_of dirname ms st m :
  well_formed -> sections_of ms st -> NoDup (ms ++ [m]) -> (forall x, x ∈ ms ++ [m] -> linked x) ->
  exists st', add_section dirname ns3_modules st (length ms, m) = Ok st' /\ sections_of (ms ++ [m]) st'.
Proof.
  intros Hwf [Hp Hh Ho] Hnd Hin. unfold add_section. destruct (linked_known m Hwf) as [[deps hs] Hm]; [apply Hin; set_solver|].
  rewrite Hm. cbn [or_raise rbind]. eexists. split; [reflexivity|].
  assert (headers_of m = hs) as Ehs by (unfold headers_of; by rewrite Hm). rewrite <- Ehs. clear Hm Ehs.
  assert (m ∉ ms) as Hnew by (apply NoDup_app in Hnd as (_ & Hnd & _); set_solver).
  split; cbn [section_precendences section_headers].
  - intros i x Hi. apply lookup_app_Some in Hi as [Hi|[Hi Hx]].
    + rewrite lookup_insert_ne; [by apply Hp|]. intros E. apply Hnew.
      apply list_elem_of_lookup_2 in Hi. apply (wf_sections Hwf) in E; [by subst|apply Hin; set_solver..].
    + apply list_lookup_singleton_Some in Hx as [Hx ->]. rewrite lookup_insert_eq. do 2 f_equal. lia.
  - intros x h Hx Hhx. rewrite insert_headers. case_decide as Hd.
    + by rewrite (wf_headers Hwf m x h Hd Hhx).
    + apply elem_of_app in Hx as [Hx|Hx%list_elem_of_singleton]; [by apply Hh|by subst].
  - intros h. rewrite insert_headers. case_decide as Hd; [exists m; set_solver|].
    intros (x & Hx & Hhx)%Ho. exists x. set_solver.
Qed.

Lemma add_sections dirname order : well_formed -> NoDup order -> (forall x, x ∈ order -> linked x) ->
  exists st, for_each (add_section dirname ns3_modules) (imap pair order) (no_sections pygen_file_name) = Ok st /\ sections_of order st.
Proof.
  intros Hwf. induction order as [|m order IH] using rev_ind; intros Hnd Hin.
  - eexists. split; [reflexivity|]. split; cbn; [done|by intros m h ?%not_elem_of_nil|]. intros h [s Hs]. by rewrite lookup_empty in Hs.
  - destruct IH as (st & E & Hst); [by apply NoDup_app in Hnd as (? & _)|set_solver|].
    rewrite imap_app, for_each_app, E. cbn [rbind imap for_each]. rewrite Nat.add_0_r.
    destruct (add_section_of dirname order st m Hwf Hst Hnd Hin) as (st' & -> & H'). by exists st'.
Qed.

(** C33 - The sections are found exactly when the dependencies have no cycle.  Then a module comes
    after those it depends on, and a header is in the section of its module; but a module that
    depends on none and that none depends on has no section, and its declarations are those
    of the main one. *)
Theorem module_sections_spec dir h :
  well_formed -> "/"%char ∉ h ->
  exists r, module_sections (D := D) pygen_file_name ns3_modules = Some r /\
  match r with
  | Ok st =>
      ~ (exists m, tc depends m m) /\
      (forall d m, depends m d -> exists i j,
         get_section_precedence st (section_name d) = Ok i /\ get_section_precedence st (section_name m) = Ok j /\ (0 <= i < j)%Z) /\
      (forall m, h ∈ headers_of m ->
         classify st (dir ++ $"/" ++ h) =
         if decide (m ∈ elements (module_graph ns3_modules)) then section_name m else $"__main__") /\
      (forall m, m ∈ elements (module_graph ns3_modules) <-> linked m) /\
      get_section_precedence st $"__main__" = Ok (-1)%Z
  | Err (CycleError _ _ _) => exists m, tc depends m m
  | Err (Raised _) => False
  end.
Proof.
  intros Hwf Hh. destruct (topsort_sorts (D := D) (module_graph ns3_modules)) as (r & Et & Hr).
  unfold module_sections. rewrite Et. cbn [fmap option_fmap option_map]. eexists. split; [reflexivity|].
  destruct r as [order|[[answer|] np ch|e]]; cbn [rbind]; [|by apply cyclic_graph; destruct Hr as (_ & _ & _ & _ & ?)|done..].
  destruct Hr as (Hnd & Hin & Hord & Hac).
  destruct (add_sections (os_path_split pygen_file_name).1 order Hwf Hnd) as (st & -> & [Hp Hhs Ho]); [by intros x Hx%Hin; apply elem_of_linked|].
  cbn [raising]. split; [by rewrite <- cyclic_graph|]. split; [|split; [|split; [apply elem_of_linked|done]]].
  - assert (forall i m, order !! i = Some m -> get_section_precedence st (section_name m) = Ok (Z.of_nat i)) as Hg.
    { intros i m Hi. unfold get_section_precedence. rewrite decide_False by done. by rewrite (Hp i m Hi). }
    intros d m Hdm%elem_of_graph. destruct (Hord d m Hdm) as (i & j & Hi & Hj & Hij). exists (Z.of_nat i), (Z.of_nat j).
    split; [by apply Hg|]. split; [by apply Hg|]. lia.
  - intros m Hm. unfold classify. cbn [app list_ascii_of_string]. rewrite os_path_basename_app, os_path_basename_no_sep by done.
    case_decide as Hel; [by rewrite (Hhs m h) by (try done; by apply Hin)|].
    destruct (section_headers st !! h) eqn:Es; [|done]. destruct (Ho h) as (m' & Hm' & Hh'); [by eexists|].
    exfalso. apply Hel. rewrite (wf_headers Hwf m m' h Hm Hh'). by apply Hin.
Qed.

End spec.

(** ** Four modules *)

Definition demo_modules : modules :=
  [($"wifi", ([$"network"; $"core"], [$"wifi-mac.h"])); ($"core", ([], [$"object.h"]));
   ($"network", ([$"core"], [$"node.h"; $"packet.h"])); ($"alone", ([], [$"alone.h"]))].

Notation pdict := (fun V => adict pystr V).

Example demo_sections :
  match module_sections (D := pdict) $"/b/ns3.py" demo_modules with
  | Some (Ok st) => (section_files st, classify st $"/ns/packet.h", classify st $"/ns/alone.h",
                     get_section_precedence st $"ns3_module_wifi")
  | _ => ([], [], [], Err KeyError)
  end =
  ([($"__main__", $"/b/ns3.py"); ($"ns3_module_core", $"/b/ns3_module_core.py");
    ($"ns3_module_network", $"/b/ns3_module_network.py"); ($"ns3_module_wifi", $"/b/ns3_module_wifi.py")],
   $"ns3_module_network", $"__main__", Ok 2%Z).
Proof. vm_compute. reflexivity. Qed.

Lemma demo_well_formed : well_formed demo_modules.
Proof.
  assert (elements (module_graph demo_modules) = [$"core"; $"core"; $"network"; $"network"; $"wifi"; $"wifi"]) as Eg by by vm_compute.
  assert (forall h m, h ∈ headers_of demo_modules m -> (m, h) ∈ [($"wifi", $"wifi-mac.h"); ($"core", $"object.h"); ($"network", $"node.h");
    ($"network", $"packet.h"); ($"alone", $"alone.h")]) as Hh.
  { intros h m. unfold headers_of, demo_modules. cbn [AList.aget]. repeat case_decide; subst; cbn; set_solver. }
  split.
  - intros m d Hd%elem_of_graph%edge_elements. destruct Hd as [Hm _]. revert Hm. rewrite Eg. intros Hm.
    repeat (apply list.elem_of_cons in Hm as [->|Hm]; [by vm_compute; eexists|]). by apply not_elem_of_nil in Hm.
  - intros m m' Hm%elem_of_linked Hm'%elem_of_linked. revert Hm Hm'. rewrite Eg. intros Hm Hm'.
    repeat (apply list.elem_of_cons in Hm as [->|Hm];
      [repeat (apply list.elem_of_cons in Hm' as [->|Hm']; [by vm_compute|]); by apply not_elem_of_nil in Hm'|]). by apply not_elem_of_nil in Hm.
  - intros m m' h H1%Hh H2%Hh.
    repeat (apply list.elem_of_cons in H1 as [[= -> ->]|H1];
      [repeat (apply list.elem_of_cons in H2 as [H2|H2]; [by injection H2|]); by apply not_elem_of_nil in H2|]). by apply not_elem_of_nil in H1.
Qed.

Lemma module_sections_spec_witness :
  exists r, module_sections (D := pdict) $"/b/ns3.py" demo_modules = Some r /\
    match r with
    | Ok st => classify st ($"/ns" ++ $"/" ++ $"packet.h") = $"ns3_module_network"
    | Err _ => False
    end.
Proof.
  destruct (module_sections_spec (D := pdict) $"/b/ns3.py" demo_modules $"/ns" $"packet.h" demo_well_formed) as (r & E & Hr);
    [by apply (bool_decide_unpack _)|].
  exists r. split; [exact E|]. destruct r as [st|[]]; [|by vm_compute in E..].
  destruct Hr as (_ & _ & Hc & _). rewrite (Hc $"network"); [reflexivity|]. vm_compute. right. left.
Defined.
