(* ===== verification/CheckStyle.v ===== *)
(** * [utils/check-style.py]: the style checker

    The patch data ([PatchChunkLine], [PatchChunk], [Patch]), the parser of
    unified diffs, the filter that puts trailing blanks back, and the check
    itself ([indent], [indent_files], [run_as_main]) over a store of files.
    The programs it runs ([uncrustify], [patch]) and [difflib.unified_diff] are
    parameters. *)

From S2P Require Import Prelude.

Open Scope Z_scope.

(** ** Definitions *)

(** *** The configuration of [uncrustify] *)

Definition quote_char : ascii := "034"%char.

(** A block of a triple-quoted string: an end of line, then its lines. *)
Definition config_text (ls : list pystr) : pystr :=
  [NL] ++ mjoin ((fun l => l ++ [NL]) <$> ls).

Definition level2 : pystr := config_text
  [$"nl_if_brace=Add"; $"nl_brace_else=Add"; $"nl_elseif_brace=Add"; $"nl_else_brace=Add";
   $"nl_while_brace=Add"; $"nl_do_brace=Add"; $"nl_for_brace=Add"; $"nl_brace_while=Add";
   $"nl_switch_brace=Add"; $"nl_after_case=True"; $"nl_namespace_brace=ignore";
   $"nl_after_brace_open=True"; $"nl_class_leave_one_liners=False";
   $"nl_enum_leave_one_liners=False"; $"nl_func_leave_one_liners=False";
   $"nl_if_leave_one_liners=False"; $"nl_class_colon=Ignore"; $"nl_before_access_spec=2";
   $"nl_after_access_spec=0"; $"indent_access_spec=-indent_columns";
   $"nl_after_semicolon=True"; $"pos_class_colon=Lead"; $"pos_class_comma=Trail";
   $"indent_constr_colon=true"; $"pos_bool=Lead"; $"nl_class_init_args=Add";
   $"nl_template_class=Add"; $"nl_class_brace=Add"; $"# does not work very well";
   $"nl_func_type_name=Ignore"; $"nl_func_scope_name=Ignore";
   $"nl_func_type_name_class=Ignore"; $"nl_func_proto_type_name=Ignore"; $"# function\n(";
   $"nl_func_paren=Remove"; $"nl_fdef_brace=Add"; $"nl_struct_brace=Add"; $"nl_enum_brace=Add";
   $"nl_union_brace=Add"; $"mod_full_brace_do=Add"; $"mod_full_brace_for=Add";
   $"mod_full_brace_if=Add"; $"mod_full_brace_while=Add"; $"mod_full_brace_for=Add";
   $"mod_remove_extra_semicolon=True"; $"# max code width"; $"#code_width=128";
   $"#ls_for_split_full=True"; $"#ls_func_split_full=True";
   $"nl_cpp_lambda_leave_one_liners=True"].

Definition level1 : pystr := config_text
  [$"# extra spaces here and there"; $"sp_brace_typedef=Add"; $"sp_enum_assign=Add";
   $"sp_before_sparen=Add"; $"sp_after_semi_for=Add"; $"sp_arith=Add"; $"sp_assign=Add";
   $"sp_compare=Add"; $"sp_func_class_paren=Add"; $"sp_after_type=Add"; $"sp_type_func=Add";
   $"sp_angle_paren=Add"].

Definition level0 : pystr := config_text
  [$"sp_func_proto_paren=Add"; $"sp_func_def_paren=Add"; $"sp_func_call_paren=Add";
   $"sp_after_semi_for=Ignore"; $"sp_before_sparen=Ignore"; $"sp_before_ellipsis=Remove";
   $"sp_type_func=Ignore"; $"sp_after_type=Ignore"; $"nl_class_leave_one_liners=True";
   $"nl_enum_leave_one_liners=True"; $"nl_func_leave_one_liners=True";
   $"nl_assign_leave_one_liners=True"; $"nl_collapse_empty_body=True";
   $"nl_getset_leave_one_liners=True"; $"nl_if_leave_one_liners=True"; $"nl_fdef_brace=Ignore";
   $"# finally, indentation configuration"; $"indent_with_tabs=0"; $"indent_namespace=false";
   $"indent_columns=2"; $"indent_brace=2"; $"indent_case_brace=indent_columns";
   $"indent_class=true"; $"indent_class_colon=True"; $"indent_switch_case=indent_columns";
   $"# alignment"; $"indent_align_assign=False"; $"align_left_shift=True";
   $"# comment reformating disabled"; $"cmt_reflow_mode=1 # do not touch comments at all";
   $"cmt_indent_multi=False # really, do not touch them";
   $"disable_processing_cmt= " ++ [quote_char] ++ $" *NS_CHECK_STYLE_OFF*" ++ [quote_char] ++ $"";
   $"enable_processing_cmt=  " ++ [quote_char] ++ $" *NS_CHECK_STYLE_ON*" ++ [quote_char] ++ $""].

Definition uncrustify_config_file (level : Z) : pystr :=
  level0 ++ (if level >=? 1 then level1 else []) ++ (if level >=? 2 then level2 else []).

(** *** Lines of a chunk *)

(** The type of a line is a number; 0 is what the constructor leaves. *)
Definition SRC : Z := 1.
Definition DST : Z := 2.
Definition BOTH : Z := 3.

Record PatchChunkLine := { pl_type : Z; pl_line : pystr }.

#[export] Instance PatchChunkLine_eq_dec : EqDecision PatchChunkLine.
Proof. solve_decision. Defined.

Definition PatchChunkLine_init : PatchChunkLine := {| pl_type := 0; pl_line := [] |}.
Definition set_src (line : pystr) (_ : PatchChunkLine) := {| pl_type := SRC; pl_line := line |}.
Definition set_dst (line : pystr) (_ : PatchChunkLine) := {| pl_type := DST; pl_line := line |}.
Definition set_both (line : pystr) (_ : PatchChunkLine) := {| pl_type := BOTH; pl_line := line |}.
Definition append_to_line (s : pystr) (l : PatchChunkLine) :=
  {| pl_type := pl_type l; pl_line := pl_line l ++ s |}.
Definition is_src (l : PatchChunkLine) : bool := (pl_type l =? SRC) || (pl_type l =? BOTH).
Definition is_dst (l : PatchChunkLine) : bool := (pl_type l =? DST) || (pl_type l =? BOTH).

(** What [write] appends to the file: one line, without its end. *)
Definition line_write (l : PatchChunkLine) : py pystr :=
  if pl_type l =? SRC then Ok ($"-" ++ pl_line l)
  else if pl_type l =? DST then Ok ($"+" ++ pl_line l)
  else if pl_type l =? BOTH then Ok ($" " ++ pl_line l)
  else Err (BareException $"invalid patch").

(** *** Chunks and patches

    The line objects of a chunk are in its list and nowhere else, so that
    [src()] and [dst()], which share those of type [BOTH], return positions in
    this list: an update through the one is seen through the other. *)

Record PatchChunk := { ck_lines : list PatchChunkLine; ck_src_pos : N; ck_dst_pos : N }.

Definition PatchChunk_init (src_pos dst_pos : pystr) : py PatchChunk :=
  let! s := int_of_digits src_pos in
  let! d := int_of_digits dst_pos in
  Ok {| ck_lines := []; ck_src_pos := s; ck_dst_pos := d |}.

Definition add_line (line : PatchChunkLine) (c : PatchChunk) : PatchChunk :=
  {| ck_lines := ck_lines c ++ [line]; ck_src_pos := ck_src_pos c; ck_dst_pos := ck_dst_pos c |}.

(** The positions of the lines that satisfy [f]. *)
Fixpoint positions (f : PatchChunkLine -> bool) (i : nat) (ls : list PatchChunkLine) : list nat :=
  match ls with
  | [] => []
  | l :: ls' => if f l then i :: positions f (S i) ls' else positions f (S i) ls'
  end.

Definition src (ls : list PatchChunkLine) : list nat := positions is_src 0 ls.
Definition dst (ls : list PatchChunkLine) : list nat := positions is_dst 0 ls.
Definition src_len (c : PatchChunk) : nat := length (src (ck_lines c)).
Definition dst_len (c : PatchChunk) : nat := length (dst (ck_lines c)).

Definition write_lines : list PatchChunkLine -> py (list pystr) := fun ls =>
  for_each (fun out l => let! s := line_write l in Ok (out ++ [s])) ls [].

Definition chunk_header (c : PatchChunk) : pystr :=
  $"@@ -" ++ show_N (ck_src_pos c) ++ $"," ++ show_N (N.of_nat (src_len c)) ++ $" +" ++
  show_N (ck_dst_pos c) ++ $"," ++ show_N (N.of_nat (dst_len c)) ++ $" @@".

Definition chunk_write (c : PatchChunk) : py (list pystr) :=
  let! ls := write_lines (ck_lines c) in Ok (chunk_header c :: ls).

Record Patch := { p_src : pystr; p_dst : pystr; p_chunks : list PatchChunk }.

Definition Patch_init : Patch := {| p_src := []; p_dst := []; p_chunks := [] |}.
Definition add_chunk (c : PatchChunk) (p : Patch) : Patch :=
  {| p_src := p_src p; p_dst := p_dst p; p_chunks := p_chunks p ++ [c] |}.
Definition patch_set_src (s : pystr) (p : Patch) : Patch :=
  {| p_src := s; p_dst := p_dst p; p_chunks := p_chunks p |}.
Definition patch_set_dst (s : pystr) (p : Patch) : Patch :=
  {| p_src := p_src p; p_dst := s; p_chunks := p_chunks p |}.

Definition patch_write (p : Patch) : py (list pystr) :=
  for_each (fun out c => let! ls := chunk_write c in Ok (out ++ ls)) (p_chunks p)
    [$"--- " ++ p_src p; $"+++ " ++ p_dst p].

(** *** Parsing *)

(** [re.compile('^PREFIX(.star)$').search(line)] with [.star] any number of
    characters other than an end of line: [$] also matches before a final one. *)
Definition search_rest (prefix line : pystr) : option pystr :=
  if startswith line prefix then
    let '(m, r) := span (fun c => negb (bool_decide (c = NL))) (drop (length prefix) line) in
    if decide (r = [] \/ r = [NL]) then Some m else None
  else None.

(** The groups 1 and 3 of
    ['^@@ -([0-9]+),([0-9]+) \+([0-9]+),([0-9]+) @@']. *)
Definition search_chunk_start (line : pystr) : option (pystr * pystr) :=
  r ← take_lit $"@@ -" line; '(g1, r) ← take_digits r;
  r ← take_lit $"," r; '(_, r) ← take_digits r;
  r ← take_lit $" +" r; '(g3, r) ← take_digits r;
  r ← take_lit $"," r; '(_, r) ← take_digits r;
  _ ← take_lit $" @@" r; Some (g1, g3).

(** The parser's variables: the patches, the patch being read (a position) and
    the chunk being read (a patch and a position in it). *)
Record parser := {
  ps_patchset : list Patch;
  ps_patch : option nat;
  ps_chunk : option (nat * nat)
}.

Definition parser_init : parser := {| ps_patchset := []; ps_patch := None; ps_chunk := None |}.

(** [current_patch.method()]; [None] has no such attribute. *)
Definition on_patch (f : Patch -> Patch) (st : parser) : py parser :=
  let! i := or_raise AttributeError (ps_patch st) in
  Ok {| ps_patchset := alter f i (ps_patchset st); ps_patch := ps_patch st; ps_chunk := ps_chunk st |}.

Definition update_chunk (f : PatchChunk -> PatchChunk) (j : nat) (p : Patch) : Patch :=
  {| p_src := p_src p; p_dst := p_dst p; p_chunks := alter f j (p_chunks p) |}.

(** [current_chunk.add_line(l)]; the variable is not bound before the first
    chunk. *)
Definition on_chunk (f : PatchChunk -> PatchChunk) (st : parser) : py parser :=
  let! '(i, j) := or_raise UnboundLocalError (ps_chunk st) in
  Ok {| ps_patchset := alter (update_chunk f j) i (ps_patchset st);
        ps_patch := ps_patch st; ps_chunk := ps_chunk st |}.

Definition new_patch (source : pystr) (st : parser) : parser :=
  {| ps_patchset := ps_patchset st ++ [patch_set_src source Patch_init];
     ps_patch := Some (length (ps_patchset st)); ps_chunk := ps_chunk st |}.

Definition new_chunk (g1 g3 : pystr) (st : parser) : py parser :=
  let! c := PatchChunk_init g1 g3 in
  let! i := or_raise AttributeError (ps_patch st) in
  let j := length (default [] (p_chunks <$> ps_patchset st !! i)) in
  Ok {| ps_patchset := alter (add_chunk c) i (ps_patchset st);
        ps_patch := ps_patch st; ps_chunk := Some (i, j) |}.

(** The body of the loop, its searches in the code's order. *)
Definition parse_line (st : parser) (line : pystr) : py parser :=
  match search_rest $"--- " line with
  | Some g => Ok (new_patch g st)
  | None =>
  match search_rest $"+++ " line with
  | Some g => on_patch (patch_set_dst g) st
  | None =>
  match search_chunk_start line with
  | Some (g1, g3) => new_chunk g1 g3 st
  | None =>
  match search_rest $"-" line with
  | Some g => on_chunk (add_line (set_src g PatchChunkLine_init)) st
  | None =>
  match search_rest $"+" line with
  | Some g => on_chunk (add_line (set_dst g PatchChunkLine_init)) st
  | None =>
  match search_rest $" " line with
  | Some g => on_chunk (add_line (set_both g PatchChunkLine_init)) st
  | None => Err (BareException [])
  end end end end end end.

Definition parse_patchset (generator : list pystr) : py (list Patch) :=
  let! st := for_each parse_line generator parser_init in Ok (ps_patchset st).

(** *** Putting trailing blanks back *)

Definition is_blank (c : ascii) : bool := bool_decide (c = " "%char \/ c = "009"%char).

(** The groups of ['^(.star)([ \t]+)$'] searched in the line of a chunk (which
    has no end of line): the first group is greedy and leaves one blank. *)
Definition search_trailing (line : pystr) : option (pystr * pystr) :=
  match reverse line with
  | b :: r => if is_blank b then Some (reverse r, [b]) else None
  | [] => None
  end.

(** The body of the innermost loop: [srcs] and [dsts] are the lists [src] and
    [dst] of the chunk. *)
Definition restore_blank (srcs dsts : list nat) (ls : list PatchChunkLine) (i : nat)
  : py (list PatchChunkLine) :=
  let! p := or_raise IndexError (srcs !! i) in
  let! q := or_raise IndexError (dsts !! i) in
  let! s := or_raise IndexError (ls !! p) in
  let! d := or_raise IndexError (ls !! q) in
  match search_trailing (pl_line s) with
  | Some (g1, g2) =>
      Ok (if decide (g1 = pl_line d) then alter (append_to_line g2) q ls else ls)
  | None => Ok ls
  end.

(** The loop over the source lines; [false] says that an exception left it,
    with the updates made so far. *)
Fixpoint restore_lines (srcs dsts : list nat) (ixs : list nat) (ls : list PatchChunkLine)
  : list PatchChunkLine * bool :=
  match ixs with
  | [] => (ls, true)
  | i :: ixs' =>
      match restore_blank srcs dsts ls i with
      | Ok ls' => restore_lines srcs dsts ixs' ls'
      | Err _ => (ls, false)
      end
  end.

Definition restore_chunk (c : PatchChunk) : PatchChunk * bool :=
  let srcs := src (ck_lines c) in
  let '(ls, completed) :=
    restore_lines srcs (dst (ck_lines c)) (seq 0 (length srcs)) (ck_lines c) in
  ({| ck_lines := ls; ck_src_pos := ck_src_pos c; ck_dst_pos := ck_dst_pos c |}, completed).

(** [except: return patchset] leaves both loops. *)
Fixpoint restore_until {A} (f : A -> A * bool) (l : list A) : list A * bool :=
  match l with
  | [] => ([], true)
  | x :: l' =>
      let '(x, completed) := f x in
      if completed : bool
      then let '(l', completed) := restore_until f l' in (x :: l', completed)
      else (x :: l', false)
  end.

Definition restore_patch (p : Patch) : Patch * bool :=
  let '(cs, completed) := restore_until restore_chunk (p_chunks p) in
  ({| p_src := p_src p; p_dst := p_dst p; p_chunks := cs |}, completed).

Definition remove_trailing_whitespace_changes (patch_generator : list pystr) : py (list Patch) :=
  let! patchset := parse_patchset patch_generator in
  Ok (restore_until restore_patch patchset).1.

(** *** The check *)

Section check.
(** [uncrustify cfg text] is what the program writes for the configuration and
    the text, or the exception starting it raises; [unified_diff] is that of
    [difflib]; [patch diff text] is what the program leaves in the file. *)
Variable uncrustify : pystr -> pystr -> py pystr.
Variable unified_diff : list pystr -> list pystr -> pystr -> pystr -> list pystr.
Variable patch : pystr -> pystr -> pystr.

(** A file written line by line. *)
Definition file_text (ls : list pystr) : pystr := mjoin ((fun l => l ++ [NL]) <$> ls).

(** What [indent] leaves in the temporary file [output] for the text of the
    file [source].  [diff] is a generator: writing it out for debugging
    exhausts it. *)
Definition indent (source output text : pystr) (debug : bool) (level : Z) : py pystr :=
  let! formatted :=
    match uncrustify (uncrustify_config_file level) text with
    | Err OSError => Err (BareException $"uncrustify not installed")
    | r => r
    end in
  let diff := unified_diff (readlines text) (readlines formatted) source output in
  let diff := if debug then [] else diff in
  let! final_diff :=
    if level <? 3 then
      let! patchset := remove_trailing_whitespace_changes diff in
      match patchset with
      | [] => Ok []
      | p :: _ => let! ls := patch_write p in Ok (file_text ls)
      end
    else Ok (join [] diff) in
  Ok (patch final_diff text).

Implicit Types (fs : gmap pystr pystr).

(** [output]: each file with the text [indent] leaves for it.  The names of
    the temporary files come from [tempfile]. *)
Variable mkstemp : pystr -> pystr.

Definition indent_outputs fs (files : list pystr) (debug : bool) (level : Z)
  : py (list (pystr * pystr)) :=
  for_each (fun output f =>
    let! text := or_raise OSError (fs !! f) in
    let! d := indent f (mkstemp f) text debug level in
    Ok (output ++ [(f, d)])) files [].

(** The result, the files after and what is printed. *)
Definition indent_files fs (files : list pystr) (diff debug : bool) (level : Z) (inplace : bool)
  : py (bool * gmap pystr pystr * list pystr) :=
  let! output := indent_outputs fs files debug level in
  if inplace then
    Ok (true, foldl (fun fs '(f, d) => <[f := d]> fs) fs output, [])
  else
    let failed := filter (fun '(f, d) => fs !! f <> Some d) output in
    if decide (0 < length failed)%nat then
      Ok (false, fs,
        if diff then
          mjoin ((fun '(f, d) =>
            unified_diff (readlines (default [] (fs !! f))) (readlines d) f (mkstemp f)) <$> failed)
        else
          ($"Found " ++ show_N (N.of_nat (length failed)) ++ $" badly indented files:") ::
          ((fun '(f, _) => $"  " ++ f) <$> failed))
    else Ok (true, fs, []).

Record options := {
  opt_debug : bool; opt_level : Z; opt_git : bool; opt_file : pystr;
  opt_diff : bool; opt_in_place : bool
}.

(** The exit status, the files after and what is printed; [git_files] is what
    [git_modified_files] returns. *)
Definition run_as_main fs (git_files : list pystr) (o : options)
  : py (Z * gmap pystr pystr * list pystr) :=
  let! '(style_is_correct, fs, out) :=
    if opt_git o
    then indent_files fs git_files (opt_diff o) (opt_debug o) (opt_level o) (opt_in_place o)
    else if negb (bool_decide (opt_file o = [])) then
      match fs !! opt_file o with
      | None => Ok (false, fs, [$"file " ++ opt_file o ++ $" does not exist"])
      | Some _ =>
          indent_files fs [opt_file o] (opt_diff o) (opt_debug o) (opt_level o) (opt_in_place o)
      end
    else Ok (false, fs, []) in
  Ok (if style_is_correct : bool then 0 else 1, fs, out).

End check.

(** The file names that [git diff --name-only] gives and the root directory that
    [git rev-parse] gives, as [git_modified_files] reads them. *)
Definition git_modified_files (root_dir : pystr) (lines : list pystr) : list pystr :=
  let files_changed := strip <$> lines in
  let files_changed :=
    filter (fun item => endswith item $".h" || endswith item $".cc" = true) files_changed in
  (fun filename => py_upto root_dir (-1) ++ $"/" ++ strip filename) <$> files_changed.

(** ** Reading what was written *)

Lemma startswith_snoc s p c : c ∉ p -> startswith (s ++ [c]) p = startswith s p.
Proof.
  intros Hc. apply eq_true_iff_eq. rewrite !startswith_spec. split; intros [r Hr].
  - destruct r as [|y r _] using rev_ind.
    + rewrite app_nil_r in Hr. exfalso. apply Hc. rewrite <- Hr. set_solver.
    + rewrite app_assoc in Hr. apply app_inj_tail in Hr as [-> _]. eauto.
  - exists (r ++ [c]). by rewrite Hr, app_assoc.
Qed.

Definition no_NL (s : pystr) : Prop := NL ∉ s.

Lemma span_no_NL s r :
  no_NL s -> (r = [] \/ r = [NL]) ->
  span (fun c => negb (bool_decide (c = NL))) (s ++ r) = (s, r).
Proof.
  intros Hs Hr. apply span_app.
  - apply Forall_forall. intros c Hc. apply negb_true_iff, bool_decide_eq_false. by intros ->.
  - destruct Hr as [-> | ->]; done.
Qed.

(** A line that was written: its text, then the end of line. *)
Lemma search_rest_hit p s : no_NL s -> search_rest p (p ++ s ++ [NL]) = Some s.
Proof.
  intros Hs. unfold search_rest. rewrite startswith_app, drop_app_length.
  rewrite span_no_NL by auto. by rewrite decide_True by auto.
Qed.

Lemma search_rest_miss p s : startswith s p = false -> search_rest p s = None.
Proof. unfold search_rest. by intros ->. Qed.

Lemma search_chunk_header c r :
  search_chunk_start (chunk_header c ++ r) =
  Some (show_N (ck_src_pos c), show_N (ck_dst_pos c)).
Proof.
  unfold search_chunk_start, chunk_header. rewrite <- !(assoc_L app).
  repeat (first [rewrite take_lit_app | rewrite take_digits_app by done]; cbn [mbind option_bind]).
  done.
Qed.

(** What the parser can read back: no end of line in a text, and no deleted or
    added line that looks like a file header. *)
Definition line_ok (l : PatchChunkLine) : Prop :=
  no_NL (pl_line l) /\
  ((pl_type l = SRC /\ startswith (pl_line l) $"-- " = false) \/
   (pl_type l = DST /\ startswith (pl_line l) $"++ " = false) \/
   pl_type l = BOTH).

Definition chunk_ok (c : PatchChunk) : Prop := Forall line_ok (ck_lines c).

Definition patch_ok (p : Patch) : Prop :=
  no_NL (p_src p) /\ no_NL (p_dst p) /\ Forall chunk_ok (p_chunks p).

#[export] Instance line_ok_dec l : Decision (line_ok l).
Proof. unfold line_ok, no_NL. apply _. Defined.
#[export] Instance chunk_ok_dec c : Decision (chunk_ok c).
Proof. unfold chunk_ok. apply _. Defined.
#[export] Instance patch_ok_dec p : Decision (patch_ok p).
Proof. unfold patch_ok, no_NL. apply _. Defined.

Definition ended (ls : list pystr) : list pystr := (fun l => l ++ [NL]) <$> ls.

(** The parser inside the last patch, with its last chunk being read. *)
Definition reading (P : list Patch) (p : Patch) (chunk : option (nat * nat)) : parser :=
  {| ps_patchset := P ++ [p]; ps_patch := Some (length P); ps_chunk := chunk |}.

Lemma alter_last {A} (f : A -> A) (l : list A) x : alter f (length l) (l ++ [x]) = l ++ [f x].
Proof. induction l as [|y l IH]; cbn; [done|]. unfold alter in *. cbn in *. by rewrite IH. Qed.

Lemma parse_body_line P p c l :
  line_ok l ->
  exists s, line_write l = Ok s /\
  parse_line (reading P (add_chunk c p) (Some (length P, length (p_chunks p)))) (s ++ [NL]) =
  Ok (reading P (add_chunk (add_line l c) p) (Some (length P, length (p_chunks p)))).
Proof.
  destruct l as [t s]. intros [Hs Ht]. cbn [pl_type pl_line] in *.
  assert (forall l, on_chunk (add_line l)
    (reading P (add_chunk c p) (Some (length P, length (p_chunks p)))) =
    Ok (reading P (add_chunk (add_line l c) p) (Some (length P, length (p_chunks p))))) as Hon.
  { intros l. unfold on_chunk, reading. cbn. do 2 f_equal. rewrite alter_last.
    unfold update_chunk, add_chunk. cbn. by rewrite alter_last. }
  destruct Ht as [[-> Hp]|[[-> Hp]| ->]]; unfold line_write; cbn [pl_type pl_line Z.eqb Pos.eqb SRC DST BOTH];
    eexists; (split; [done|]); unfold parse_line; rewrite <- (assoc_L app).
  - rewrite search_rest_miss by (etrans; [|exact Hp]; apply (startswith_snoc s $"-- "); by apply (bool_decide_eq_true_1 (NL ∉ _))).
    rewrite (search_rest_miss $"+++ ") by done.
    change (search_chunk_start ($"-" ++ s ++ [NL])) with (@None (pystr * pystr)).
    rewrite search_rest_hit by done. apply Hon.
  - rewrite (search_rest_miss $"--- ") by done.
    rewrite search_rest_miss by (etrans; [|exact Hp]; apply (startswith_snoc s $"++ "); by apply (bool_decide_eq_true_1 (NL ∉ _))).
    change (search_chunk_start ($"+" ++ s ++ [NL])) with (@None (pystr * pystr)).
    rewrite (search_rest_miss $"-") by done. rewrite search_rest_hit by done. apply Hon.
  - rewrite !search_rest_miss by done.
    change (search_chunk_start ($" " ++ s ++ [NL])) with (@None (pystr * pystr)).
    rewrite search_rest_hit by done. apply Hon.
Qed.

Lemma for_each_write {A B} (f : A -> py B) (l : list A) (out : list B) out' :
  for_each (fun out x => let! s := f x in Ok (out ++ [s])) l out = Ok out' <->
  exists ss, Forall2 (fun x s => f x = Ok s) l ss /\ out' = out ++ ss.
Proof.
  revert out. induction l as [|x l IH]; intros out; cbn [for_each].
  - split; [intros [= <-]; exists []; by rewrite app_nil_r|].
    intros (ss & Hss%Forall2_nil_inv_l & ->). subst. by rewrite app_nil_r.
  - split.
    + intros H. destruct (f x) as [s|] eqn:Hx; [|done]. cbn [rbind] in H.
      apply IH in H as (ss & Hss & ->). exists (s :: ss). rewrite <- (assoc_L app).
      split; [by constructor|done].
    + intros (ss & Hss & ->). apply Forall2_cons_inv_l in Hss as (s & ss' & Hx & Hss & ->).
      rewrite Hx. cbn [rbind]. apply IH. exists ss'. by rewrite <- (assoc_L app).
Qed.

Lemma write_lines_ok ls :
  Forall line_ok ls ->
  exists out, write_lines ls = Ok out /\ Forall2 (fun l s => line_write l = Ok s) ls out.
Proof.
  intros Hls. unfold write_lines.
  assert (exists ss, Forall2 (fun l s => line_write l = Ok s) ls ss) as [ss Hss].
  { induction Hls as [|l ls Hl _ [ss IH]]; [by exists []|].
    destruct (parse_body_line [] Patch_init {| ck_lines := []; ck_src_pos := 0; ck_dst_pos := 0 |} l Hl)
      as (s & Hs & _). exists (s :: ss). by constructor. }
  exists ss. split; [|done]. apply for_each_write. by exists ss.
Qed.

Lemma parse_header P p ch c :
  parse_line (reading P p ch) (chunk_header c ++ [NL]) =
  Ok (reading P (add_chunk {| ck_lines := []; ck_src_pos := ck_src_pos c; ck_dst_pos := ck_dst_pos c |} p)
        (Some (length P, length (p_chunks p)))).
Proof.
  unfold parse_line. rewrite !search_rest_miss by done. rewrite search_chunk_header.
  unfold new_chunk, PatchChunk_init. rewrite !int_of_show_N. cbn [rbind].
  unfold reading. cbn [ps_patchset ps_patch ps_chunk or_raise rbind].
  by rewrite list_lookup_middle, alter_last by done.
Qed.

Lemma parse_chunk P p ch c :
  chunk_ok c ->
  exists out, chunk_write c = Ok out /\
  for_each parse_line (ended out) (reading P p ch) =
    Ok (reading P (add_chunk c p) (Some (length P, length (p_chunks p)))).
Proof.
  intros Hc. destruct (write_lines_ok (ck_lines c) Hc) as (ss & Hw & Hss).
  exists (chunk_header c :: ss). unfold chunk_write. rewrite Hw. split; [done|].
  unfold ended. cbn [fmap list_fmap for_each]. rewrite parse_header. cbn [rbind].
  assert (forall c0 ls, Forall line_ok ls -> Forall2 (fun l s => line_write l = Ok s) ls ss ->
    for_each parse_line ((fun l => l ++ [NL]) <$> ss)
      (reading P (add_chunk c0 p) (Some (length P, length (p_chunks p)))) =
    Ok (reading P (add_chunk {| ck_lines := ck_lines c0 ++ ls; ck_src_pos := ck_src_pos c0;
                                ck_dst_pos := ck_dst_pos c0 |} p) (Some (length P, length (p_chunks p))))) as Hloop.
  { clear. intros c0 ls Hok Hss. revert c0. induction Hss as [|l s ls ss Hl _ IH]; intros c0; cbn [fmap list_fmap for_each].
    - rewrite app_nil_r. by destruct c0.
    - apply Forall_cons in Hok as [Hl' Hok].
      destruct (parse_body_line P p c0 l Hl') as (s' & Hs' & Hpl).
      rewrite Hl in Hs'. injection Hs' as <-. rewrite Hpl. cbn [rbind]. rewrite IH by done. cbn. by rewrite <- (assoc_L app). }
  rewrite (Hloop _ (ck_lines c)) by done. by destruct c.
Qed.

Lemma parse_chunks P p ch cs out0 :
  Forall chunk_ok cs ->
  exists out ch', for_each (fun out c => let! ls := chunk_write c in Ok (out ++ ls)) cs out0 = Ok (out0 ++ out) /\
  for_each parse_line (ended out) (reading P p ch) =
    Ok (reading P {| p_src := p_src p; p_dst := p_dst p; p_chunks := p_chunks p ++ cs |} ch').
Proof.
  intros Hcs. revert p ch out0. induction Hcs as [|c cs Hc _ IH]; intros p ch out0; cbn [for_each].
  - exists [], ch. rewrite !app_nil_r. split; [done|]. by destruct p.
  - destruct (parse_chunk P p ch c Hc) as (o1 & -> & Hp). cbn [rbind].
    destruct (IH (add_chunk c p) (Some (length P, length (p_chunks p))) (out0 ++ o1))
      as (o2 & ch' & -> & Hp2).
    exists (o1 ++ o2), ch'. rewrite (assoc_L app). split; [done|].
    unfold ended in *. rewrite fmap_app, for_each_app, Hp. cbn [rbind]. rewrite Hp2.
    cbn. by rewrite <- (assoc_L app).
Qed.

Lemma parse_patch st p :
  patch_ok p ->
  exists out ch, patch_write p = Ok out /\
  for_each parse_line (ended out) st = Ok (reading (ps_patchset st) p ch).
Proof.
  intros (Hs & Hd & Hcs). unfold patch_write.
  set (p0 := {| p_src := p_src p; p_dst := p_dst p; p_chunks := [] |}).
  destruct (parse_chunks (ps_patchset st) p0 (ps_chunk st) (p_chunks p)
    [$"--- " ++ p_src p; $"+++ " ++ p_dst p] Hcs) as (out & ch & -> & Hp).
  exists ([$"--- " ++ p_src p; $"+++ " ++ p_dst p] ++ out), ch. split; [done|].
  unfold ended in *. cbn [app fmap list_fmap for_each].
  assert (parse_line st (($"--- " ++ p_src p) ++ [NL]) = Ok (new_patch (p_src p) st)) as ->.
  { unfold parse_line. rewrite <- (assoc_L app). by rewrite search_rest_hit. }
  cbn [rbind].
  assert (parse_line (new_patch (p_src p) st) (($"+++ " ++ p_dst p) ++ [NL]) =
    Ok (reading (ps_patchset st) p0 (ps_chunk st))) as ->.
  { unfold parse_line. rewrite <- (assoc_L app). rewrite search_rest_miss by done.
    rewrite search_rest_hit by done. unfold on_patch, new_patch, reading. cbn.
    by rewrite alter_last. }
  cbn [rbind]. rewrite Hp. by destruct p.
Qed.

(** The lines of a whole patch set. *)
Definition patchset_write (ps : list Patch) : py (list pystr) :=
  for_each (fun out p => let! ls := patch_write p in Ok (out ++ ls)) ps [].

(** C15 - A patch set that was written is read back as it was (its hunk lengths are
    recomputed), provided no text holds an end of line and no deleted line
    starts with "-- " nor an added one with "++ ", which the parser takes for
    file headers. *)
Theorem parse_write_roundtrip ps :
  Forall patch_ok ps ->
  exists out, patchset_write ps = Ok out /\ parse_patchset (ended out) = Ok ps.
Proof.
  intros Hps. unfold patchset_write, parse_patchset.
  assert (forall out0 st, exists out st', for_each (fun out p => let! ls := patch_write p in Ok (out ++ ls)) ps out0
      = Ok (out0 ++ out) /\ for_each parse_line (ended out) st = Ok st' /\
      ps_patchset st' = ps_patchset st ++ ps) as Hloop.
  { induction Hps as [|p ps Hp _ IH]; intros out0 st; cbn [for_each].
    - exists [], st. rewrite !app_nil_r. done.
    - destruct (parse_patch st p Hp) as (o1 & ch & -> & H1). cbn [rbind].
      destruct (IH (out0 ++ o1) (reading (ps_patchset st) p ch)) as (o2 & st' & -> & H2 & Hst).
      exists (o1 ++ o2), st'. rewrite (assoc_L app). split; [done|].
      unfold ended in *. rewrite fmap_app, for_each_app, H1. cbn [rbind]. split; [done|].
      rewrite Hst. cbn. by rewrite <- (assoc_L app). }
  destruct (Hloop [] parser_init) as (out & st' & Hw & Hp & Hst).
  exists out. split; [done|]. rewrite Hp. cbn [rbind]. by rewrite Hst.
Qed.

Definition sample_patch : Patch :=
  {| p_src := $"a.cc"; p_dst := $"b.cc"; p_chunks := [
     {| ck_lines := [{| pl_type := 1; pl_line := $"x = 1; " |};
                     {| pl_type := 2; pl_line := $"x = 1;" |};
                     {| pl_type := 3; pl_line := $"}" |}];
        ck_src_pos := 1; ck_dst_pos := 10 |}] |}.

Lemma parse_write_roundtrip_witness :
  exists out, patchset_write [sample_patch] = Ok out /\
    parse_patchset (ended out) = Ok [sample_patch].
Proof.
  apply parse_write_roundtrip. apply (bool_decide_eq_true_1 (Forall patch_ok _)).
  vm_compute. reflexivity.
Defined.

(** ** Which diffs the parser refuses *)

Inductive line_kind := KSource | KDest | KChunk | KBody | KOther.

(** The first search of the loop that succeeds. *)
Definition kind_of (line : pystr) : line_kind :=
  if search_rest $"--- " line then KSource else
  if search_rest $"+++ " line then KDest else
  if search_chunk_start line then KChunk else
  if search_rest $"-" line then KBody else
  if search_rest $"+" line then KBody else
  if search_rest $" " line then KBody else KOther.

(** The error of a sequence of lines, knowing whether a file header and whether
    a hunk header came before. *)
Fixpoint first_error (in_patch in_chunk : bool) (ks : list line_kind) : option exn :=
  match ks with
  | [] => None
  | KSource :: ks' => first_error true in_chunk ks'
  | KDest :: ks' => if in_patch then first_error in_patch in_chunk ks' else Some AttributeError
  | KChunk :: ks' => if in_patch then first_error in_patch true ks' else Some AttributeError
  | KBody :: ks' => if in_chunk then first_error in_patch in_chunk ks' else Some UnboundLocalError
  | KOther :: _ => Some (BareException [])
  end.

Lemma new_chunk_Ok line g1 g3 st :
  search_chunk_start line = Some (g1, g3) ->
  exists c, new_chunk g1 g3 st =
    (let! i := or_raise AttributeError (ps_patch st) in
     let j := length (default [] (p_chunks <$> ps_patchset st !! i)) in
     Ok {| ps_patchset := alter (add_chunk c) i (ps_patchset st);
           ps_patch := ps_patch st; ps_chunk := Some (i, j) |}).
Proof.
  unfold search_chunk_start. intros H.
  destruct (take_lit $"@@ -" line) as [r|]; [|done]. cbn [mbind option_bind] in H.
  destruct (take_digits r) as [[d1 r1]|] eqn:H1; [|done]. cbn [mbind option_bind] in H.
  destruct (take_lit $"," r1) as [r2|]; [|done]. cbn [mbind option_bind] in H.
  destruct (take_digits r2) as [[d2 r3]|]; [|done]. cbn [mbind option_bind] in H.
  destruct (take_lit $" +" r3) as [r4|]; [|done]. cbn [mbind option_bind] in H.
  destruct (take_digits r4) as [[d3 r5]|] eqn:H3; [|done]. cbn [mbind option_bind] in H.
  destruct (take_lit $"," r5) as [r6|]; [|done]. cbn [mbind option_bind] in H.
  destruct (take_digits r6) as [[d4 r7]|]; [|done]. cbn [mbind option_bind] in H.
  destruct (take_lit $" @@" r7); [|done]. cbn in H. injection H as <- <-.
  apply take_some_Some in H1 as (Hd1 & _ & Hf1), H3 as (Hd3 & _ & Hf3).
  destruct (int_of_digits_Ok d1 Hd1 Hf1) as [n1 Hn1], (int_of_digits_Ok d3 Hd3 Hf3) as [n3 Hn3].
  unfold new_chunk, PatchChunk_init. rewrite Hn1, Hn3. cbn [rbind]. eauto.
Qed.

Definition bound {A} (o : option A) : bool := match o with Some _ => true | None => false end.

Lemma parse_line_kind st line ks :
  match parse_line st line with
  | Ok st' => first_error (bound (ps_patch st)) (bound (ps_chunk st)) (kind_of line :: ks) =
      first_error (bound (ps_patch st')) (bound (ps_chunk st')) ks
  | Err e => first_error (bound (ps_patch st)) (bound (ps_chunk st)) (kind_of line :: ks) = Some e
  end.
Proof.
  assert (forall f, match on_chunk f st with
    | Ok st' => first_error (bound (ps_patch st)) (bound (ps_chunk st)) (KBody :: ks) =
        first_error (bound (ps_patch st')) (bound (ps_chunk st')) ks
    | Err e => first_error (bound (ps_patch st)) (bound (ps_chunk st)) (KBody :: ks) = Some e
    end) as Hbody.
  { intros f. unfold on_chunk. by destruct (ps_chunk st) as [[i j]|] eqn:Hc; cbn; rewrite ?Hc. }
  unfold parse_line, kind_of.
  destruct (search_rest $"--- " line); [done|].
  destruct (search_rest $"+++ " line).
  { unfold on_patch. by destruct (ps_patch st) eqn:Hp; cbn; rewrite ?Hp. }
  destruct (search_chunk_start line) as [[g1 g3]|] eqn:Hcs.
  { destruct (new_chunk_Ok line g1 g3 st Hcs) as [c ->].
    by destruct (ps_patch st) eqn:Hp; cbn; rewrite ?Hp. }
  destruct (search_rest $"-" line); [apply Hbody|].
  destruct (search_rest $"+" line); [apply Hbody|].
  destruct (search_rest $" " line); [apply Hbody|done].
Qed.

(** [parse_patchset] succeeds exactly on the diffs without an unknown line whose
    second file header or hunk header follows a first file header and whose
    body lines follow a hunk header.  The first line that breaks this decides
    the exception: [AttributeError] for a header, [UnboundLocalError] for a
    body line, a bare [Exception] for an unknown line. *)
Theorem parse_patchset_errors lines :
  match parse_patchset lines with
  | Ok _ => first_error false false (kind_of <$> lines) = None
  | Err e => first_error false false (kind_of <$> lines) = Some e
  end.
Proof.
  unfold parse_patchset.
  assert (forall st, match for_each parse_line lines st with
    | Ok _ => first_error (bound (ps_patch st)) (bound (ps_chunk st)) (kind_of <$> lines) = None
    | Err e => first_error (bound (ps_patch st)) (bound (ps_chunk st)) (kind_of <$> lines) = Some e
    end) as Hall.
  { induction lines as [|line lines IH]; intros st; [done|]. cbn [for_each fmap list_fmap].
    pose proof (parse_line_kind st line (kind_of <$> lines)) as Hk.
    destruct (parse_line st line) as [st'|e]; cbn [rbind]; rewrite Hk; [apply IH|done]. }
  specialize (Hall parser_init). by destruct (for_each parse_line lines parser_init).
Qed.

(** A hunk of one line, whose range [difflib] writes without its length, is
    refused. *)
Example parse_single_line_hunk :
  parse_patchset [$"--- a"; $"+++ b"; $"@@ -1 +1 @@"; $"-x "; $"+x"] = Err (BareException []).
Proof. vm_compute. reflexivity. Qed.

(** A deleted line that starts with "-- " begins a new file. *)
Example parse_deleted_dashes :
  (let! ps := parse_patchset
     [$"--- a"; $"+++ b"; $"@@ -1,2 +1,1 @@"; $"--- old"; $" x"] in
   Ok (map p_src ps)) = (Ok [$"a"; $"old"] : py (list pystr)).
Proof. vm_compute. reflexivity. Qed.

(** ** What the filter changes *)

Section positions.
Variable f : PatchChunkLine -> bool.

Lemma elem_of_positions i ls q :
  q ∈ positions f i ls <-> exists l, (i <= q)%nat /\ ls !! (q - i)%nat = Some l /\ f l = true.
Proof.
  revert i. induction ls as [|l ls IH]; intros i; cbn [positions].
  - split; [by intros ?%elem_of_nil|]. by intros (l & _ & ? & _).
  - assert (q ∈ positions f (S i) ls <->
      exists l', (i < q)%nat /\ (l :: ls) !! (q - i)%nat = Some l' /\ f l' = true) as Hrest.
    { rewrite IH. split; intros (l' & Hq & Hl & Hf); exists l'; (split; [lia|]); (split; [|done]).
      - by replace (q - i)%nat with (S (q - S i)) by lia.
      - by replace (q - i)%nat with (S (q - S i)) in Hl by lia. }
    destruct (f l) eqn:Hl; rewrite ?elem_of_cons, Hrest; split.
    + intros [->|(l' & ? & ? & ?)]; [exists l; rewrite Nat.sub_diag; split_and!; [lia|done|done]|].
      exists l'. split_and!; [lia|done|done].
    + intros (l' & Hq & Hl' & Hf). destruct (decide (q = i)) as [->|]; [by left|right].
      exists l'. split_and!; [lia|done|done].
    + intros (l' & ? & ? & ?). exists l'. split_and!; [lia|done|done].
    + intros (l' & Hq & Hl' & Hf). exists l'. split_and!; [|done|done].
      destruct (decide (q = i)) as [->|]; [|lia]. rewrite Nat.sub_diag in Hl'. cbn in Hl'. congruence.
Qed.

Lemma positions_nodup i ls : NoDup (positions f i ls).
Proof.
  revert i. induction ls as [|l ls IH]; intros i; cbn [positions]; [constructor|].
  destruct (f l); [|done]. constructor; [|done].
  rewrite elem_of_positions. intros (l' & ? & _). lia.
Qed.

Lemma positions_lookup ls i q :
  positions f 0 ls !! i = Some q -> exists l, ls !! q = Some l /\ f l = true.
Proof.
  intros Hq%list_elem_of_lookup_2. apply elem_of_positions in Hq as (l & _ & Hl & Hf).
  rewrite Nat.sub_0_r in Hl. eauto.
Qed.

End positions.

(** A line of the result: the line itself, or one more blank after it. *)
Definition extended (l l' : PatchChunkLine) : Prop :=
  pl_type l' = pl_type l /\
  (pl_line l' = pl_line l \/ exists b, is_blank b = true /\ pl_line l' = pl_line l ++ [b]).

Lemma search_trailing_Some line g1 g2 :
  search_trailing line = Some (g1, g2) <->
  exists b, is_blank b = true /\ g2 = [b] /\ line = g1 ++ [b].
Proof.
  unfold search_trailing. split.
  - destruct (reverse line) as [|b r] eqn:Hr; [done|]. destruct (is_blank b) eqn:Hb; [|done].
    intros [= <- <-]. exists b. split_and!; [done|done|].
    by rewrite <- (reverse_involutive line), Hr, reverse_cons.
  - intros (b & Hb & -> & ->). rewrite reverse_snoc, Hb. by rewrite reverse_involutive.
Qed.

(** What becomes of the destination line [d] paired with the source line [s]. *)
Definition restored (s d : PatchChunkLine) : PatchChunkLine :=
  match search_trailing (pl_line s) with
  | Some (g1, g2) => if decide (g1 = pl_line d) then append_to_line g2 d else d
  | None => d
  end.

Lemma restored_extended s d : extended d (restored s d).
Proof.
  unfold restored. destruct (search_trailing (pl_line s)) as [[g1 g2]|] eqn:Hs.
  - case_decide; [|by split; [|left]]. apply search_trailing_Some in Hs as (b & Hb & -> & _).
    split; [done|]. right. by exists b.
  - by split; [|left].
Qed.

Lemma restore_blank_Ok srcs dsts ls i p q s d :
  srcs !! i = Some p -> dsts !! i = Some q -> ls !! p = Some s -> ls !! q = Some d ->
  restore_blank srcs dsts ls i = Ok (<[q := restored s d]> ls).
Proof.
  intros Hp Hq Hs Hd. unfold restore_blank. rewrite Hp. cbn [or_raise rbind].
  rewrite Hq. cbn [or_raise rbind]. rewrite Hs. cbn [or_raise rbind]. rewrite Hd.
  cbn [or_raise rbind]. unfold restored.
  destruct (search_trailing (pl_line s)) as [[g1 g2]|]; [case_decide|]; f_equal.
  - apply list_eq. intros k. destruct (decide (k = q)) as [->|].
    + rewrite list_lookup_alter_eq, Hd, list_lookup_insert_eq; [done|]. by eapply lookup_lt_Some.
    + by rewrite list_lookup_alter_ne, list_lookup_insert_ne by done.
  - by rewrite list_insert_id.
  - by rewrite list_insert_id.
Qed.

Lemma restore_blank_inv srcs dsts ls ls' i :
  restore_blank srcs dsts ls i = Ok ls' ->
  exists p q s d, srcs !! i = Some p /\ dsts !! i = Some q /\ ls !! p = Some s /\ ls !! q = Some d /\
    ls' = <[q := restored s d]> ls.
Proof.
  intros H. destruct (srcs !! i) as [p|] eqn:Hp; [|unfold restore_blank in H; by rewrite Hp in H].
  destruct (dsts !! i) as [q|] eqn:Hq; [|unfold restore_blank in H; by rewrite Hp, Hq in H].
  destruct (ls !! p) as [s|] eqn:Hs;
    [|unfold restore_blank in H; rewrite Hp in H; cbn [or_raise rbind] in H; rewrite Hq in H;
      cbn [or_raise rbind] in H; by rewrite Hs in H].
  destruct (ls !! q) as [d|] eqn:Hd;
    [|unfold restore_blank in H; rewrite Hp in H; cbn [or_raise rbind] in H; rewrite Hq in H;
      cbn [or_raise rbind] in H; rewrite Hs in H; cbn [or_raise rbind] in H; by rewrite Hd in H].
  rewrite (restore_blank_Ok _ _ _ _ p q s d Hp Hq Hs Hd) in H. injection H as <-.
  by exists p, q, s, d.
Qed.

(** Each destination line is visited once, so that it gains at most one
    blank. *)
Lemma restore_lines_extended srcs dsts ixs ls :
  NoDup dsts -> NoDup ixs -> forall k l, ls !! k = Some l ->
  exists l', (restore_lines srcs dsts ixs ls).1 !! k = Some l' /\ extended l l' /\
    ((forall i, i ∈ ixs -> dsts !! i <> Some k) -> l' = l).
Proof.
  intros Hnd Hix. revert ls. induction Hix as [|i ixs Hi _ IH]; intros ls k l Hk; cbn [restore_lines].
  { exists l. split_and!; [done|by split; [|left]|done]. }
  destruct (restore_blank srcs dsts ls i) as [ls'|e] eqn:Hr.
  2: { exists l. split_and!; [done|by split; [|left]|done]. }
  apply restore_blank_inv in Hr as (p & q & s & d & Hp & Hq & Hs & Hd & ->).
  destruct (decide (k = q)) as [->|Hkq].
  - destruct (IH (<[q := restored s d]> ls) q (restored s d)) as (l' & Hl' & _ & Hsame).
    { apply list_lookup_insert_eq. by eapply lookup_lt_Some. }
    assert (l' = restored s d) as ->.
    { apply Hsame. intros j Hj Hjq. apply Hi. by rewrite (NoDup_lookup _ _ _ _ Hnd Hq Hjq). }
    exists (restored s d). simplify_eq. split_and!; [done|apply restored_extended|].
    intros Hno. exfalso. by apply (Hno i); [left|].
  - destruct (IH (<[q := restored s d]> ls) k l) as (l' & Hl' & He & Hsame).
    { by rewrite list_lookup_insert_ne. }
    exists l'. split_and!; [done|done|]. intros Hno. apply Hsame. intros j Hj. apply Hno. by right.
Qed.

(** A chunk after the filter: the same lines but for blanks put after
    destination lines. *)
Definition chunk_extended (c c' : PatchChunk) : Prop :=
  ck_src_pos c' = ck_src_pos c /\ ck_dst_pos c' = ck_dst_pos c /\
  Forall2 (fun l l' => extended l l' /\ (is_dst l = false -> l' = l)) (ck_lines c) (ck_lines c').

Lemma restore_lines_length srcs dsts ixs ls :
  length (restore_lines srcs dsts ixs ls).1 = length ls.
Proof.
  revert ls. induction ixs as [|i ixs IH]; intros ls; cbn [restore_lines]; [done|].
  destruct (restore_blank srcs dsts ls i) as [ls'|e] eqn:Hr; [|done].
  apply restore_blank_inv in Hr as (p & q & s & d & _ & _ & _ & _ & ->).
  by rewrite IH, length_insert.
Qed.

Lemma restore_chunk_extended c : chunk_extended c (restore_chunk c).1.
Proof.
  unfold restore_chunk.
  pose proof (restore_lines_extended (src (ck_lines c)) (dst (ck_lines c))
    (seq 0 (length (src (ck_lines c)))) (ck_lines c) (positions_nodup _ _ _) (NoDup_seq _ _)) as Hext.
  pose proof (restore_lines_length (src (ck_lines c)) (dst (ck_lines c))
    (seq 0 (length (src (ck_lines c)))) (ck_lines c)) as Hlen.
  destruct (restore_lines _ _ _ _) as [ls completed]. cbn [fst] in *.
  split_and!; [done|done|]. cbn [ck_lines]. apply Forall2_same_length_lookup_2; [done|].
  intros k l l' Hl Hl'. destruct (Hext k l Hl) as (l'' & Hl'' & He & Hsame). simplify_eq.
  split; [done|]. intros Hd. apply Hsame. intros i _ Hi.
  apply positions_lookup in Hi as (l2 & Hl2 & Hf). congruence.
Qed.

Lemma restore_until_Forall2 {A} (f : A -> A * bool) (R : A -> A -> Prop) l :
  (forall x, R x x) -> (forall x, R x (f x).1) -> Forall2 R l (restore_until f l).1.
Proof.
  intros Hrefl Hf. induction l as [|x l IH]; cbn [restore_until]; [constructor|].
  specialize (Hf x). destruct (f x) as [x' [|]]; cbn [fst] in *.
  - destruct (restore_until f l) as [l' b]; cbn [fst] in *. by constructor.
  - constructor; [done|]. clear IH. induction l; by constructor.
Qed.

(** The relation between a patch and what the filter makes of it. *)
Definition patch_extended (p p' : Patch) : Prop :=
  p_src p' = p_src p /\ p_dst p' = p_dst p /\ Forall2 chunk_extended (p_chunks p) (p_chunks p').

Lemma extended_refl l : extended l l.
Proof. by split; [|left]. Qed.

Lemma chunk_extended_refl c : chunk_extended c c.
Proof.
  split_and!; [done|done|]. induction (ck_lines c); constructor; [|done].
  by split; [apply extended_refl|].
Qed.

(** [remove_trailing_whitespace_changes] keeps the patches, the hunks with
    their positions and the lines with their types: a line of type [SRC] stays
    as it is and another one at most gains a single blank at its end. *)
Theorem remove_trailing_extends lines :
  match parse_patchset lines, remove_trailing_whitespace_changes lines with
  | Ok ps, Ok ps' => Forall2 patch_extended ps ps'
  | Err e, Err e' => e = e'
  | _, _ => False
  end.
Proof.
  unfold remove_trailing_whitespace_changes. destruct (parse_patchset lines) as [ps|e]; [|done].
  cbn [rbind]. apply restore_until_Forall2.
  - intros p. split_and!; [done|done|]. induction (p_chunks p); constructor; [|done].
    apply chunk_extended_refl.
  - intros p. unfold restore_patch.
    pose proof (restore_until_Forall2 restore_chunk chunk_extended (p_chunks p)
      chunk_extended_refl restore_chunk_extended) as Hcs.
    by destruct (restore_until restore_chunk (p_chunks p)) as [cs b].
Qed.

(** *** Hunks that replace lines one for one *)

(** The [i]-th source line is either the [i]-th destination line itself or of
    type [SRC]: no context line is paired with another line. *)
Definition aligned (ls : list PatchChunkLine) : Prop :=
  forall i p q s, src ls !! i = Some p -> dst ls !! i = Some q -> ls !! p = Some s ->
    p = q \/ pl_type s = SRC.

Lemma restored_self d : restored d d = d.
Proof.
  unfold restored. destruct (search_trailing (pl_line d)) as [[g1 g2]|] eqn:Hs; [|done].
  apply search_trailing_Some in Hs as (b & _ & _ & Hd). case_decide as Hg; [|done].
  apply (f_equal length) in Hd. rewrite length_app, Hg in Hd. cbn in Hd. lia.
Qed.

(** What pairing means, in terms of the two texts. *)
Lemma restored_line s d :
  pl_line (restored s d) =
  if decide (Exists (fun b => pl_line s = pl_line d ++ [b]) [" "; "009"]%char)
  then pl_line s else pl_line d.
Proof.
  unfold restored. destruct (search_trailing (pl_line s)) as [[g1 g2]|] eqn:Hs.
  - apply search_trailing_Some in Hs as (b & Hb & -> & Hline). rewrite Hline.
    unfold is_blank in Hb. apply bool_decide_eq_true in Hb.
    case_decide as Hg; [rewrite decide_True|rewrite decide_False].
    + by rewrite Hg.
    + rewrite Hg. destruct Hb as [-> | ->]; [left|right; left]; done.
    + done.
    + rewrite list.Exists_exists. intros (c & _ & Hc). apply app_inj_tail in Hc as [? _]. done.
  - case_decide as He; [|done]. exfalso. rewrite list.Exists_exists in He.
    destruct He as (b & Hb & Hline).
    assert (search_trailing (pl_line s) = Some (pl_line d, [b])) as Hs'; [|congruence].
    apply search_trailing_Some. exists b. split_and!; [|done|done].
    unfold is_blank. apply bool_decide_eq_true. set_solver.
Qed.

Section aligned_chunk.
Variable ls : list PatchChunkLine.
Hypothesis Haligned : aligned ls.

(** The lines [lsc] reached so far agree with [ls] where a later pair looks. *)
Lemma restore_lines_aligned ixs lsc :
  NoDup ixs -> length lsc = length ls ->
  (forall i, i ∈ ixs -> exists p q, src ls !! i = Some p /\ dst ls !! i = Some q /\
     lsc !! p = ls !! p /\ lsc !! q = ls !! q) ->
  exists ls', restore_lines (src ls) (dst ls) ixs lsc = (ls', true) /\ length ls' = length ls /\
    (forall i p q s d, i ∈ ixs -> src ls !! i = Some p -> dst ls !! i = Some q ->
       ls !! p = Some s -> ls !! q = Some d -> ls' !! q = Some (restored s d)) /\
    (forall k, (forall i, i ∈ ixs -> dst ls !! i <> Some k) -> ls' !! k = lsc !! k).
Proof.
  intros Hix. revert lsc. induction Hix as [|i ixs Hi _ IH]; intros lsc Hlen Hall; cbn [restore_lines].
  { exists lsc. split_and!; [done|done|set_solver|done]. }
  destruct (Hall i) as (p & q & Hp & Hq & Hlp & Hlq); [left|].
  destruct (positions_lookup _ _ _ _ Hp) as (s & Hs & Hsf), (positions_lookup _ _ _ _ Hq) as (d & Hd & Hdf).
  rewrite (restore_blank_Ok _ _ _ _ p q s d) by congruence.
  assert (forall j q', j ∈ ixs -> dst ls !! j = Some q' -> q' <> q) as Hother.
  { intros j q' Hj Hq' ->. apply Hi.
    by rewrite (NoDup_lookup _ _ _ _ (positions_nodup is_dst 0 ls) Hq Hq'). }
  destruct (IH (<[q := restored s d]> lsc)) as (ls' & Hr & Hlen' & Hin & Hout).
  - by rewrite length_insert.
  - intros j Hj. destruct (Hall j) as (p' & q' & Hp' & Hq' & Hlp' & Hlq'); [by right|].
    exists p', q'. rewrite !list_lookup_insert_ne; [done| |].
    + intros ->. by eapply Hother.
    + intros ->. destruct (positions_lookup _ _ _ _ Hp') as (s' & Hs' & _).
      destruct (Haligned j p' q' s' Hp' Hq' Hs') as [->|Ht]; [by eapply Hother|].
      rewrite Hd in Hs'. injection Hs' as <-. unfold is_dst in Hdf. by rewrite Ht in Hdf.
  - exists ls'. split_and!; [done|done| |].
    + intros j p' q' s' d' Hj Hp' Hq' Hs' Hd'. apply elem_of_cons in Hj as [->|Hj]; [|by eapply Hin].
      simplify_eq. rewrite Hout by (intros j Hj Hjq; by eapply Hother).
      rewrite list_lookup_insert_eq; [done|]. apply lookup_lt_Some in Hd. lia.
    + intros k Hk. rewrite Hout by (intros j Hj; apply Hk; by right).
      apply list_lookup_insert_ne. intros ->. by apply (Hk i); [left|].
Qed.

End aligned_chunk.

(** On a hunk that pairs no context line with another line and has as many
    destination lines as source lines, the filter does what it is for: a
    destination line that differs from its source line by one trailing blank
    less becomes the source line, and nothing else changes. *)
Theorem restore_chunk_aligned c :
  aligned (ck_lines c) -> (src_len c <= dst_len c)%nat ->
  exists ls', restore_chunk c =
      ({| ck_lines := ls'; ck_src_pos := ck_src_pos c; ck_dst_pos := ck_dst_pos c |}, true) /\
    (forall i p q s d, src (ck_lines c) !! i = Some p -> dst (ck_lines c) !! i = Some q ->
       ck_lines c !! p = Some s -> ck_lines c !! q = Some d ->
       ls' !! q = Some {| pl_type := pl_type d;
         pl_line := if decide (Exists (fun b => pl_line s = pl_line d ++ [b]) [" "; "009"]%char)
                    then pl_line s else pl_line d |}) /\
    (forall k s, ck_lines c !! k = Some s -> is_src s = true -> ls' !! k = Some s).
Proof.
  intros Ha Hle. unfold restore_chunk.
  destruct (restore_lines_aligned (ck_lines c) Ha (seq 0 (length (src (ck_lines c)))) (ck_lines c))
    as (ls' & Hr & Hlen & Hin & Hout); [apply NoDup_seq|done| |].
  { intros i Hi%elem_of_seq. unfold src_len, dst_len in Hle.
    destruct (lookup_lt_is_Some_2 (src (ck_lines c)) i) as [p Hp]; [lia|].
    destruct (lookup_lt_is_Some_2 (dst (ck_lines c)) i) as [q Hq]; [lia|].
    by exists p, q. }
  rewrite Hr. exists ls'. split_and!; [done| |].
  - intros i p q s d Hp Hq Hs Hd. rewrite (Hin i p q s d); try done.
    + rewrite <- restored_line. pose proof (restored_extended s d) as [Ht _].
      f_equal. rewrite <- Ht. by destruct (restored s d).
    + apply elem_of_seq. apply lookup_lt_Some in Hp. lia.
  - intros k s Hk Hs. destruct (decide (k ∈ dst (ck_lines c))) as [Hkd|Hkd].
    + assert (k ∈ src (ck_lines c)) as Hks.
      { apply elem_of_positions. exists s. rewrite Nat.sub_0_r. split_and!; [lia|done|done]. }
      apply list_elem_of_lookup in Hks as [i Hi]. apply lookup_lt_Some in Hi as Hlt.
      destruct (lookup_lt_is_Some_2 (dst (ck_lines c)) i) as [q Hq]; [unfold src_len, dst_len in Hle; lia|].
      apply elem_of_positions in Hkd as (s' & _ & Hs' & Hd'). rewrite Nat.sub_0_r in Hs'. simplify_eq.
      destruct (Ha i k q s Hi Hq Hk) as [->|Ht].
      * rewrite (Hin i q q s s); try done; [by rewrite restored_self|].
        apply elem_of_seq. lia.
      * unfold is_dst in Hd'. by rewrite Ht in Hd'.
    + rewrite Hout; [done|]. intros i _ Hi. apply Hkd. by eapply list_elem_of_lookup_2.
Qed.

Lemma restore_chunk_aligned_witness :
  exists ls', (restore_chunk {| ck_lines := [{| pl_type := 1; pl_line := $"x " |};
      {| pl_type := 2; pl_line := $"x" |}; {| pl_type := 3; pl_line := $"y" |}];
    ck_src_pos := 1; ck_dst_pos := 1 |}).1 = {| ck_lines := ls'; ck_src_pos := 1; ck_dst_pos := 1 |} /\
    ls' !! 1%nat = Some {| pl_type := 2; pl_line := $"x " |}.
Proof.
  destruct (restore_chunk_aligned {| ck_lines := [{| pl_type := 1; pl_line := $"x " |};
      {| pl_type := 2; pl_line := $"x" |}; {| pl_type := 3; pl_line := $"y" |}];
    ck_src_pos := 1; ck_dst_pos := 1 |}) as (ls' & Hr & Hin & _).
  - intros [|[|i]] p q s Hp Hq; cbn in *; simplify_eq; [|by left]. intros [= <-]. by right.
  - vm_compute. lia.
  - exists ls'. split; [by rewrite Hr|]. by apply (Hin 0%nat 0%nat 1%nat _ _ eq_refl eq_refl eq_refl eq_refl).
Defined.

(** Only one trailing blank is put back, so that a line that lost two stays
    changed. *)
Example two_blanks_not_restored :
  restored {| pl_type := 1; pl_line := $"x  " |} {| pl_type := 2; pl_line := $"x" |} =
  {| pl_type := 2; pl_line := $"x" |}.
Proof. vm_compute. reflexivity. Qed.

(** On a hunk that deletes a line, a context line can be changed on its source
    side as well, so that the patch no longer matches the file. *)
Example context_line_changed :
  (restore_chunk {| ck_lines := [{| pl_type := 1; pl_line := $"a " |};
      {| pl_type := 3; pl_line := $"a" |}]; ck_src_pos := 1; ck_dst_pos := 1 |}) =
  ({| ck_lines := [{| pl_type := 1; pl_line := $"a " |};
      {| pl_type := 3; pl_line := $"a " |}]; ck_src_pos := 1; ck_dst_pos := 1 |}, false).
Proof. vm_compute. reflexivity. Qed.

(** ** The check *)

Section check_facts.
Variable uncrustify : pystr -> pystr -> py pystr.
Variable unified_diff : list pystr -> list pystr -> pystr -> pystr -> list pystr.
Variable patch : pystr -> pystr -> pystr.
Variable mkstemp : pystr -> pystr.
Implicit Types (fs : gmap pystr pystr).

Lemma indent_outputs_spec fs files debug level output :
  indent_outputs uncrustify unified_diff patch mkstemp fs files debug level = Ok output <->
  Forall2 (fun f fd => fd.1 = f /\ exists text, fs !! f = Some text /\
    indent uncrustify unified_diff patch f (mkstemp f) text debug level = Ok fd.2) files output.
Proof.
  unfold indent_outputs.
  set (step := fun f => let! text := or_raise OSError (fs !! f) in
    let! d := indent uncrustify unified_diff patch f (mkstemp f) text debug level in Ok (f, d)).
  rewrite (for_each_ext _ (fun out f => let! s := step f in Ok (out ++ [s]))).
  2: { intros out f _. unfold step. destruct (fs !! f); cbn [or_raise rbind]; [|done].
       by destruct (indent _ _ _ _ _ _ _ _). }
  rewrite for_each_write. split.
  - intros (ss & Hss & ->). cbn [app]. eapply Forall2_impl; [done|]. unfold step.
    intros f fd Hf. apply rbind_Ok in Hf as (text & Ht%or_raise_Ok & Hf).
    apply rbind_Ok in Hf as (d & Hd & [= <-]). eauto.
  - intros Hall. exists output. split; [|done]. eapply Forall2_impl; [done|].
    intros f [f' d] (Hf & text & Ht & Hd). cbn [fst snd] in *. subst f'. unfold step. rewrite Ht. cbn [or_raise rbind]. by rewrite Hd.
Qed.

Lemma indent_files_check fs files diff debug level b fs' out :
  indent_files uncrustify unified_diff patch mkstemp fs files diff debug level false = Ok (b, fs', out) ->
  fs' = fs /\ (b = true <-> forall f, f ∈ files -> exists text, fs !! f = Some text /\
    indent uncrustify unified_diff patch f (mkstemp f) text debug level = Ok text).
Proof.
  unfold indent_files. intros H. apply rbind_Ok in H as (output & Hout & H).
  apply indent_outputs_spec in Hout.
  assert (filter (fun '(f, d) => fs !! f <> Some d) output = [] <->
    forall f, f ∈ files -> exists text, fs !! f = Some text /\
      indent uncrustify unified_diff patch f (mkstemp f) text debug level = Ok text) as Hiff.
  { clear H. induction Hout as [|f [f' d] files output (Hf & text & Ht & Hd) _ IH];
      cbn [fst snd] in *; [|subst f'].
    - split; [set_solver|done].
    - rewrite filter_cons. destruct (decide (fs !! f <> Some d)) as [Hne|Heq].
      + split; [done|]. intros Hall. destruct (Hall f) as (t & Ht' & Hi); [left|]. congruence.
      + apply dec_stable in Heq. rewrite IH. split.
        * intros Hall f' [->|Hf]%elem_of_cons; [|by apply Hall]. exists text. split; [done|]. congruence.
        * intros Hall f' Hf. apply Hall. by right. }
  rewrite <- Hiff. case_decide as Hlen; injection H as <- <- <-; (split; [done|]).
  - split; [done|]. intros Hf. rewrite Hf in Hlen. cbn in Hlen. lia.
  - split; [|done]. intros _. destruct (filter _ output); [done|]. cbn in Hlen. lia.
Qed.

(** Without [--in-place] no file changes, and the exit status is 0 exactly
    when files were given and [indent] leaves each of them as it is. *)
Theorem check_exit_status fs git_files o code fs' out :
  run_as_main uncrustify unified_diff patch mkstemp fs git_files o = Ok (code, fs', out) ->
  opt_in_place o = false ->
  fs' = fs /\
  (code = 0 <-> (opt_git o = true \/ opt_file o <> []) /\
    forall f, f ∈ (if opt_git o then git_files else [opt_file o]) -> exists text, fs !! f = Some text /\
      indent uncrustify unified_diff patch f (mkstemp f) text (opt_debug o) (opt_level o) = Ok text).
Proof.
  intros H Hin. unfold run_as_main in H. apply rbind_Ok in H as ([[b fs1] out1] & H & Hcode).
  assert (code = (if b then 0 else 1) /\ fs' = fs1) as [-> ->] by (by injection Hcode).
  assert ((if b then 0 else 1) = 0 <-> b = true) as -> by by destruct b.
  destruct (opt_git o) eqn:Hg; [|destruct (bool_decide (opt_file o = [])) eqn:Hf]; rewrite ?Hin in H.
  - apply indent_files_check in H as [-> ->]. naive_solver.
  - cbn [negb] in H. injection H as <- <- <-. apply bool_decide_eq_true in Hf.
    split; [done|]. split; [done|]. by intros [[?|?] _].
  - apply bool_decide_eq_false in Hf. cbn [negb] in H. destruct (fs !! opt_file o) eqn:Hfs.
    + apply indent_files_check in H as [-> ->]. naive_solver.
    + injection H as <- <- <-. split; [done|]. split; [done|]. intros [_ Hall].
      destruct (Hall (opt_file o)) as (t & Ht & _); [left|]. congruence.
Qed.

(** With [--debug] the generator of the diff is written to a file and is empty
    when the filter reads it: below level 3 the patch is empty, so that every
    file is found correct and none is changed, whatever its style. *)
Theorem debug_finds_nothing fs files diff level :
  (forall text, patch [] text = text) ->
  (forall cfg text, exists out, uncrustify cfg text = Ok out) ->
  (forall f, f ∈ files -> is_Some (fs !! f)) -> level < 3 ->
  indent_files uncrustify unified_diff patch mkstemp fs files diff true level false = Ok (true, fs, []).
Proof.
  intros Hpatch Hun Hfiles Hlevel.
  assert (forall f text, indent uncrustify unified_diff patch f (mkstemp f) text true level = Ok text) as Hid.
  { intros f text. unfold indent. destruct (Hun (uncrustify_config_file level) text) as [out ->].
    cbn [rbind]. rewrite (proj2 (Z.ltb_lt level 3)) by done. cbn [remove_trailing_whitespace_changes].
    change (remove_trailing_whitespace_changes []) with (Ok [] : py (list Patch)). cbn [rbind].
    by rewrite Hpatch. }
  assert (exists output, indent_outputs uncrustify unified_diff patch mkstemp fs files true level = Ok output)
    as [output Hout].
  { exists ((fun f => (f, default [] (fs !! f))) <$> files). apply indent_outputs_spec.
    clear Hlevel. induction files as [|f files IH]; constructor.
    - split; [done|]. destruct (Hfiles f) as [text Ht]; [left|]. exists text. split; [done|].
      rewrite Hid. cbn. by rewrite Ht.
    - apply IH. intros. apply Hfiles. by right. }
  destruct (indent_files uncrustify unified_diff patch mkstemp fs files diff true level false)
    as [[[b fs'] out]|e] eqn:Hrun.
  - pose proof Hrun as Hr. apply indent_files_check in Hr as [-> Hb].
    assert (b = true) as ->.
    { apply Hb. intros f Hf. destruct (Hfiles f Hf) as [text Ht]. exists text. by split. }
    unfold indent_files in Hrun. rewrite Hout in Hrun. cbn [rbind] in Hrun.
    case_decide; by simplify_eq.
  - exfalso. unfold indent_files in Hrun. rewrite Hout in Hrun. cbn [rbind] in Hrun.
    by case_decide.
Qed.

End check_facts.

Lemma debug_finds_nothing_witness :
  indent_files (fun _ _ => Ok $"int x;") (fun _ _ _ _ => [$"--- a"]) (fun _ t => t) (fun f => f)
    {[ $"a.cc" := $"int  x;" ]} [$"a.cc"] false true 0 false =
  Ok (true, {[ $"a.cc" := $"int  x;" ]}, []).
Proof.
  apply debug_finds_nothing; [done|by eexists| |lia].
  intros f ->%list_elem_of_singleton. by eexists.
Defined.

Lemma check_exit_status_witness :
  exists code fs' out,
    run_as_main (fun _ t => Ok t) (fun _ _ _ _ => []) (fun _ t => t) (fun f => f)
      {[ $"a.cc" := $"int x;" ]} []
      {| opt_debug := false; opt_level := 0; opt_git := false; opt_file := $"a.cc";
         opt_diff := false; opt_in_place := false |} = Ok (code, fs', out) /\ code = 0.
Proof.
  do 3 eexists. split; [vm_compute; reflexivity|].
  eapply (check_exit_status (fun _ t => Ok t) (fun _ _ _ _ => []) (fun _ t => t) (fun f => f)
      {[ $"a.cc" := $"int x;" ]} []
      {| opt_debug := false; opt_level := 0; opt_git := false; opt_file := $"a.cc";
         opt_diff := false; opt_in_place := false |}); [vm_compute; reflexivity|done|].
  split; [by right|]. cbn. intros f ->%list_elem_of_singleton. exists $"int x;". by split.
Defined.
