(* ===== verification/Timeline.v ===== *)
(** * [utils/grid.py], the data: ranges, events, timelines, colours, the reader

    The classes [DataRange], [EventString], [EventInt], [TimelineDataRange],
    [TimelineEvent], [Timeline], [Timelines], [Color] and [Colors], and
    [read_data].  The module imports PyGTK and uses [has_key] and
    [sort(cmp)], so that it runs under Python 2 only; times are the integers
    [read_data] reads and [/] on them is floor division. *)

From S2P Require Import Prelude PyDict.

Open Scope Z_scope.

(** ** Definitions *)

Record DataRange := { dr_start : Z; dr_end : Z; dr_value : pystr }.

(** [EventString] and [EventInt] differ in the type of their value. *)
Record Event (V : Type) := { ev_at : Z; ev_value : V }.
Arguments ev_at {V} _.
Arguments ev_value {V} _.
Arguments Build_Event {V} _ _.

#[export] Instance DataRange_eq_dec : EqDecision DataRange.
Proof. solve_decision. Defined.
#[export] Instance Event_eq_dec {V} `{EqDecision V} : EqDecision (Event V).
Proof. solve_decision. Defined.

Definition ranges_cmp (a b : DataRange) : Z :=
  let diff := dr_start a - dr_start b in
  if diff <? 0 then -1 else if diff >? 0 then 1 else 0.

Definition events_cmp {V} (a b : Event V) : Z :=
  let diff := ev_at a - ev_at b in
  if diff <? 0 then -1 else if diff >? 0 then 1 else 0.

(** *** Series of ranges *)

Record TimelineDataRange := { rg_name : pystr; rg_ranges : list DataRange }.

Definition TimelineDataRange_init (name : pystr) : TimelineDataRange :=
  {| rg_name := name; rg_ranges := [] |}.

(** The loop of [__search], from the bounds [l] and [u]. *)
Fixpoint range_search (fuel : nat) (ranges : list DataRange) (key l u : Z) : py Z :=
  if l <=? u then
    match fuel with
    | O => Err OutOfFuel
    | S fuel' =>
        let i := (l + u) / 2 in
        let! r := py_get ranges i in
        if (key >=? dr_start r) && (key <=? dr_end r) then Ok i
        else if key <? dr_start r then range_search fuel' ranges key l (i - 1)
        else range_search fuel' ranges key (i + 1) u
    end
  else Ok (-1).

Definition rg_search (self : TimelineDataRange) (key : Z) : py Z :=
  range_search (length (rg_ranges self)) (rg_ranges self) key 0 (py_len (rg_ranges self) - 1).

Definition add_range (r : DataRange) (self : TimelineDataRange) : TimelineDataRange :=
  {| rg_name := rg_name self; rg_ranges := rg_ranges self ++ [r] |}.

Definition get_ranges (self : TimelineDataRange) (start end_ : Z) : py (list DataRange) :=
  let! s := rg_search self start in
  let! e := rg_search self end_ in
  Ok (if (s =? -1) && (e =? -1) then []
      else if s =? -1 then py_slice (rg_ranges self) 0 (e + 1)
      else if e =? -1 then py_slice (rg_ranges self) s (py_len (rg_ranges self))
      else py_slice (rg_ranges self) s (e + 1)).

Definition get_ranges_bounds (self : TimelineDataRange) (start end_ : Z) : py (Z * Z) :=
  let! s := rg_search self start in
  let! e := rg_search self end_ in
  Ok (if (s =? -1) && (e =? -1) then (0, 0)
      else if s =? -1 then (0, e + 1)
      else if e =? -1 then (s, py_len (rg_ranges self))
      else (s, e + 1)).

Definition rg_sort (self : TimelineDataRange) : TimelineDataRange :=
  {| rg_name := rg_name self;
     rg_ranges := py_sort (fun a b => ranges_cmp a b <=? 0) (rg_ranges self) |}.

Definition rg_get_bounds (self : TimelineDataRange) : py (Z * Z) :=
  if py_len (rg_ranges self) >? 0 then
    let! lo := py_get (rg_ranges self) 0 in
    let! hi := py_get (rg_ranges self) (py_len (rg_ranges self) - 1) in
    Ok (dr_start lo, dr_end hi)
  else Ok (0, 0).

(** *** Series of events *)

Record TimelineEvent (V : Type) := { te_name : pystr; te_events : list (Event V) }.
Arguments te_name {V} _.
Arguments te_events {V} _.
Arguments Build_TimelineEvent {V} _ _.

Section events.
Context {V : Type}.
Implicit Types (self : TimelineEvent V).

Definition TimelineEvent_init (name : pystr) : TimelineEvent V :=
  {| te_name := name; te_events := [] |}.

Fixpoint event_search (fuel : nat) (events : list (Event V)) (key l u : Z) : py Z :=
  if l <=? u then
    match fuel with
    | O => Err OutOfFuel
    | S fuel' =>
        let i := (l + u) / 2 in
        let! ev := py_get events i in
        if key =? ev_at ev then Ok i
        else if key <? ev_at ev then event_search fuel' events key l (i - 1)
        else event_search fuel' events key (i + 1) u
    end
  else Ok l.

Definition te_search self (key : Z) : py Z :=
  event_search (length (te_events self)) (te_events self) key 0 (py_len (te_events self) - 1).

Definition add_event (event : Event V) self : TimelineEvent V :=
  {| te_name := te_name self; te_events := te_events self ++ [event] |}.

Definition get_events_bounds self (start end_ : Z) : py (Z * Z) :=
  let! s := te_search self start in
  let! e := te_search self end_ in
  Ok (s, e + 1).

Definition get_events self (start end_ : Z) : py (list (Event V)) :=
  let! s := te_search self start in
  let! e := te_search self end_ in
  Ok (py_slice (te_events self) s (e + 1)).

Definition te_sort self : TimelineEvent V :=
  {| te_name := te_name self;
     te_events := py_sort (fun a b => events_cmp a b <=? 0) (te_events self) |}.

Definition te_get_bounds self : py (Z * Z) :=
  if py_len (te_events self) >? 0 then
    let! lo := py_get (te_events self) 0 in
    let! hi := py_get (te_events self) (-1) in
    Ok (ev_at lo, ev_at hi)
  else Ok (0, 0).

End events.

(** *** Finding an element by name, or appending a new one

    The methods return a reference into a list; a caller's update of the
    object is an update at the position returned. *)
Section named.
Context {A : Type} (name_of : A -> pystr) (init : pystr -> A).

Definition get_or_add (name : pystr) (l : list A) : list A * nat :=
  match list_find (fun x => name_of x = name) l with
  | Some (i, _) => (l, i)
  | None => (l ++ [init name], length l)
  end.

(** [get(name)] followed by the update [f] of the object it returns. *)
Definition with_named (name : pystr) (f : A -> A) (l : list A) : list A :=
  let '(l, i) := get_or_add name l in alter f i l.

End named.

Record Timeline := {
  tl_name : pystr;
  tl_ranges : list TimelineDataRange;
  tl_event_str : list (TimelineEvent pystr);
  tl_event_int : list (TimelineEvent Z)
}.

Definition Timeline_init (name : pystr) : Timeline :=
  {| tl_name := name; tl_ranges := []; tl_event_str := []; tl_event_int := [] |}.

(** [self.get_range(name)], updated by [f], and its two analogues. *)
Definition with_range (name : pystr) (f : TimelineDataRange -> TimelineDataRange) (self : Timeline)
  : Timeline :=
  {| tl_name := tl_name self;
     tl_ranges := with_named rg_name TimelineDataRange_init name f (tl_ranges self);
     tl_event_str := tl_event_str self; tl_event_int := tl_event_int self |}.

Definition with_event_str (name : pystr) (f : TimelineEvent pystr -> TimelineEvent pystr)
    (self : Timeline) : Timeline :=
  {| tl_name := tl_name self; tl_ranges := tl_ranges self;
     tl_event_str := with_named te_name TimelineEvent_init name f (tl_event_str self);
     tl_event_int := tl_event_int self |}.

Definition with_event_int (name : pystr) (f : TimelineEvent Z -> TimelineEvent Z)
    (self : Timeline) : Timeline :=
  {| tl_name := tl_name self; tl_ranges := tl_ranges self; tl_event_str := tl_event_str self;
     tl_event_int := with_named te_name TimelineEvent_init name f (tl_event_int self) |}.

Definition tl_sort (self : Timeline) : Timeline :=
  {| tl_name := tl_name self; tl_ranges := rg_sort <$> tl_ranges self;
     tl_event_str := te_sort <$> tl_event_str self;
     tl_event_int := te_sort <$> tl_event_int self |}.

(** One step of the loops of [get_bounds]. *)
Definition widen (b b' : Z * Z) : Z * Z :=
  (if b'.1 <? b.1 then b'.1 else b.1, if b'.2 >? b.2 then b'.2 else b.2).

Definition widen_by {A} (f : A -> py (Z * Z)) (b : Z * Z) (x : A) : py (Z * Z) :=
  let! b' := f x in Ok (widen b b').

Definition tl_get_bounds (self : Timeline) : py (Z * Z) :=
  let! b := for_each (widen_by rg_get_bounds) (tl_ranges self) (0, 0) in
  let! b := for_each (widen_by te_get_bounds) (tl_event_str self) b in
  for_each (widen_by te_get_bounds) (tl_event_int self) b.

(** *** All timelines *)

Definition Timelines : Type := list Timeline.

(** [timelines.get(name)], updated by [f]. *)
Definition with_timeline (name : pystr) (f : Timeline -> Timeline) (self : Timelines) : Timelines :=
  with_named tl_name Timeline_init name f self.

Definition Timelines_sort (self : Timelines) : Timelines := tl_sort <$> self.

Definition Timelines_get_bounds (self : Timelines) : py (Z * Z) :=
  for_each (widen_by tl_get_bounds) self (0, 0).

Definition get_all_range_values `{PyDict pystr D} (self : Timelines) : list pystr :=
  let values := tl ← self; rg ← tl_ranges tl; dr_value <$> rg_ranges rg in
  d_keys (foldl (fun d v => d_set v 1 d) (d_empty : D Z) values).

(** *** Colours

    [default_colors] is an attribute of the class: all its instances take from
    the same list.  A colour is its three components. *)

Definition Color : Type := Z * Z * Z.

Definition default_colors : list Color :=
  [(1, 0, 0); (0, 1, 0); (0, 0, 1); (1, 1, 0); (1, 0, 1); (0, 1, 1)].

Section colors.
Context {D : Type -> Type} `{PyDict pystr D}.

Definition colors_add (name : pystr) (color : Color) (colors : D Color) : D Color :=
  d_set name color colors.

(** [lookup]: the class list and the instance before and after. *)
Definition colors_lookup (st : list Color * D Color) (name : pystr)
  : py (list Color * D Color * option Color) :=
  let '(defaults, colors) := st in
  let! '(defaults, colors) :=
    match d_get colors name with
    | Some _ => Ok (defaults, colors)
    | None =>
        let! color := py_get defaults (-1) in
        Ok (py_upto defaults (-1), colors_add name color colors)
    end in
  Ok (defaults, colors, d_get colors name).

(** *** Reading a file *)

Definition match_range (line : pystr) : option (pystr * pystr * pystr * pystr * pystr) :=
  r ← take_lit $"range " line; '(g1, r) ← take_word r;
  r ← take_lit $" " r; '(g2, r) ← take_word r;
  r ← take_lit $" " r; '(g3, r) ← take_word r;
  r ← take_lit $" " r; '(g4, r) ← take_digits r;
  r ← take_lit $" " r; '(g5, _) ← take_digits r;
  Some (g1, g2, g3, g4, g5).

Definition match_event_str (line : pystr) : option (pystr * pystr * pystr * pystr) :=
  r ← take_lit $"event-str " line; '(g1, r) ← take_word r;
  r ← take_lit $" " r; '(g2, r) ← take_word r;
  r ← take_lit $" " r; '(g3, r) ← take_word r;
  r ← take_lit $" " r; '(g4, _) ← take_digits r;
  Some (g1, g2, g3, g4).

Definition match_event_int (line : pystr) : option (pystr * pystr * pystr * pystr) :=
  r ← take_lit $"event-int " line; '(g1, r) ← take_word r;
  r ← take_lit $" " r; '(g2, r) ← take_word r;
  r ← take_lit $" " r; '(g3, r) ← take_digits r;
  r ← take_lit $" " r; '(g4, _) ← take_digits r;
  Some (g1, g2, g3, g4).

(** The value of a hexadecimal digit of either case. *)
Definition hex_value (c : ascii) : option Z :=
  let n := Z.of_nat (nat_of_ascii c) in
  if (48 <=? n) && (n <=? 57) then Some (n - 48)
  else if (97 <=? n) && (n <=? 102) then Some (n - 87)
  else if (65 <=? n) && (n <=? 70) then Some (n - 55)
  else None.

(** [[a-fA-F0-9]{2,2}], as the integer it spells. *)
Definition take_hex2 (s : pystr) : option (Z * pystr) :=
  match s with
  | c :: d :: r => h ← hex_value c; l ← hex_value d; Some (16 * h + l, r)
  | _ => None
  end.

Definition match_color (line : pystr) : option (pystr * Z * Z * Z) :=
  r ← take_lit $"color " line; '(g1, r) ← take_word r;
  r ← take_lit $" #" r; '(r1, r) ← take_hex2 r; '(g, r) ← take_hex2 r; '(b, _) ← take_hex2 r;
  Some (g1, r1, g, b).

(** The body of the loop over the lines.  [r / 255] is floor division. *)
Definition read_line (st : D Color * Timelines) (line : pystr) : py (D Color * Timelines) :=
  let '(colors, timelines) := st in
  match match_range line with
  | Some (g1, g2, g3, g4, g5) =>
      let! start := int_of_digits g4 in
      let! end_ := int_of_digits g5 in
      let data_range := {| dr_start := Z.of_N start; dr_end := Z.of_N end_; dr_value := g3 |} in
      Ok (colors, with_timeline g1 (with_range g2 (add_range data_range)) timelines)
  | None =>
  match match_event_str line with
  | Some (g1, g2, g3, g4) =>
      let! at_ := int_of_digits g4 in
      let event := {| ev_at := Z.of_N at_; ev_value := g3 |} in
      Ok (colors, with_timeline g1 (with_event_str g2 (add_event event)) timelines)
  | None =>
  match match_event_int line with
  | Some (g1, g2, g3, g4) =>
      let! value := int_of_digits g3 in
      let! at_ := int_of_digits g4 in
      let event := {| ev_at := Z.of_N at_; ev_value := Z.of_N value |} in
      Ok (colors, with_timeline g1 (with_event_int g2 (add_event event)) timelines)
  | None =>
  match match_color line with
  | Some (g1, r, g, b) => Ok (colors_add g1 (r / 255, g / 255, b / 255) colors, timelines)
  | None => Ok (colors, timelines)
  end end end end.

Definition read_data (lines : list pystr) : py (D Color * Timelines) :=
  let! '(colors, timelines) := for_each read_line lines (d_empty, []) in
  Ok (colors, Timelines_sort timelines).

End colors.

(** ** Searching *)

(** Filtering a list cut in two by position. *)
Section filter_cut.
Context {A : Type} (P : A -> Prop) `{forall x, Decision (P x)}.

Lemma filter_all (l : list A) : (forall x, x ∈ l -> P x) -> filter P l = l.
Proof.
  induction l as [|x l IH]; intros Hl; [done|]. rewrite filter_cons, decide_True, IH; set_solver.
Qed.

Lemma filter_none (l : list A) : (forall x, x ∈ l -> ~ P x) -> filter P l = [].
Proof.
  induction l as [|x l IH]; intros Hl; [done|]. rewrite filter_cons, decide_False, IH; set_solver.
Qed.

Lemma filter_slice (l : list A) a b :
  (a <= b)%nat ->
  (forall i x, l !! i = Some x -> P x <-> (a <= i < b)%nat) ->
  filter P l = take (b - a) (drop a l).
Proof.
  intros Hab HP. rewrite <- (take_drop a l) at 1. rewrite <- (take_drop (b - a) (drop a l)) at 1.
  rewrite !filter_app, (filter_none (take a l)), (filter_none (drop (b - a) _)), filter_all;
    [by rewrite app_nil_r|intros x Hx..].
  - apply list_elem_of_lookup in Hx as [i Hi]. apply lookup_take_Some in Hi as [Hi Hlt].
    rewrite lookup_drop in Hi. apply (HP _ _ Hi). lia.
  - apply list_elem_of_lookup in Hx as [i Hi]. rewrite !lookup_drop in Hi.
    rewrite (HP _ _ Hi). lia.
  - apply list_elem_of_lookup in Hx as [i Hi]. apply lookup_take_Some in Hi as [Hi Hlt].
    rewrite (HP _ _ Hi). lia.
Qed.

End filter_cut.

(** The middle of an interval of indices. *)
Lemma middle_bounds l u : l <= u -> l <= (l + u) / 2 <= u.
Proof. intros. split; [apply Z.div_le_lower_bound|apply Z.div_le_upper_bound]; lia. Qed.

Lemma py_get_Some {A} (l : list A) i x :
  0 <= i -> l !! Z.to_nat i = Some x -> py_get l i = Ok x.
Proof. intros Hi Hx. by rewrite py_get_lookup, Hx. Qed.

Section range_search.
Variable ranges : list DataRange.

Definition within (key : Z) (r : DataRange) : Prop := dr_start r <= key <= dr_end r.

(** Disjoint ranges in increasing order. *)
Definition disjoint_sorted : Prop :=
  (forall r, r ∈ ranges -> dr_start r <= dr_end r) /\
  forall i j a b, ranges !! i = Some a -> ranges !! j = Some b -> (i < j)%nat ->
    dr_end a < dr_start b.

Lemma range_search_spec fuel key l u :
  disjoint_sorted -> 0 <= l -> u < py_len ranges -> u - l + 1 <= Z.of_nat fuel ->
  (forall i r, ranges !! i = Some r -> Z.of_nat i < l -> dr_end r < key) ->
  (forall i r, ranges !! i = Some r -> u < Z.of_nat i -> key < dr_start r) ->
  (exists i r, range_search fuel ranges key l u = Ok (Z.of_nat i) /\
     ranges !! i = Some r /\ within key r) \/
  (range_search fuel ranges key l u = Ok (-1) /\ forall r, r ∈ ranges -> ~ within key r).
Proof.
  intros [Hwf Hd] Hl. revert l u Hl. induction fuel as [|fuel IH]; intros l u Hl Hu Hf Hlow Hhigh;
    cbn [range_search]; destruct (l <=? u) eqn:Hlu; (apply Z.leb_le in Hlu || apply Z.leb_gt in Hlu); [lia| | |].
  1, 3: right; split; [done|]; intros r [i Hi]%list_elem_of_lookup [Hs He];
    destruct (decide (Z.of_nat i < l)) as [Hil|Hil];
    [specialize (Hlow i r Hi Hil); lia|specialize (Hhigh i r Hi); lia].
  pose proof (middle_bounds l u Hlu) as Hm. set (m := (l + u) / 2) in *.
  destruct (lookup_lt_is_Some_2 ranges (Z.to_nat m)) as [r Hr]; [unfold py_len in Hu; lia|].
  rewrite (py_get_Some _ _ r) by (done || lia). cbn [rbind].
  destruct ((key >=? dr_start r) && (key <=? dr_end r)) eqn:Hin.
  - left. exists (Z.to_nat m), r. rewrite Z2Nat.id by lia. unfold within.
    apply andb_true_iff in Hin as [Hs He]. split_and!; [done|done|lia|lia].
  - destruct (key <? dr_start r) eqn:Hk.
    + apply IH; [done|lia|lia|done|]. intros i r' Hi Hmi. apply Z.ltb_lt in Hk.
      destruct (decide (i = Z.to_nat m)) as [->|Hne]; [by simplify_eq|].
      pose proof (Hd _ _ _ _ Hr Hi) as Hlt. pose proof (Hwf r (list_elem_of_lookup_2 _ _ _ Hr)). lia.
    + apply Z.ltb_ge in Hk. apply andb_false_iff in Hin as [Hin|Hin]; [lia|].
      apply Z.leb_gt in Hin. apply IH; [lia|done|lia| |done].
      intros i r' Hi Hmi. destruct (decide (i = Z.to_nat m)) as [->|Hne]; [by simplify_eq|].
      pose proof (Hd _ _ _ _ Hi Hr) as Hlt. pose proof (Hwf r (list_elem_of_lookup_2 _ _ _ Hr)). lia.
Qed.

End range_search.

Lemma rg_search_spec self key :
  disjoint_sorted (rg_ranges self) ->
  (exists i r, rg_search self key = Ok (Z.of_nat i) /\ rg_ranges self !! i = Some r /\ within key r) \/
  (rg_search self key = Ok (-1) /\ forall r, r ∈ rg_ranges self -> ~ within key r).
Proof.
  intros Hd. apply range_search_spec; [done|lia|lia| | |].
  - unfold py_len. lia.
  - intros. lia.
  - intros i r Hi%lookup_lt_Some. unfold py_len. lia.
Qed.

(** A range that contains [key] cuts the others by position. *)
Lemma within_cut ranges :
  disjoint_sorted ranges -> forall key i r, ranges !! i = Some r -> within key r ->
  Exists (within key) ranges /\
  (forall j a, ranges !! j = Some a -> (key <= dr_end a <-> (i <= j)%nat)) /\
  (forall j a, ranges !! j = Some a -> (dr_start a <= key <-> (j <= i)%nat)).
Proof.
  intros [Hwf Hlt] key i r Hi Hw.
  split; [apply list.Exists_exists; exists r; split; [by eapply list_elem_of_lookup_2|done]|].
  unfold within in Hw. split; intros j a Ha;
    pose proof (Hwf a (list_elem_of_lookup_2 _ _ _ Ha));
    destruct (lt_eq_lt_dec i j) as [[Hij| <-]|Hij]; simplify_eq; try lia;
    [pose proof (Hlt _ _ _ _ Hi Ha Hij)|pose proof (Hlt _ _ _ _ Ha Hi Hij)|
     pose proof (Hlt _ _ _ _ Hi Ha Hij)|pose proof (Hlt _ _ _ _ Ha Hi Hij)]; lia.
Qed.

(** C18 - [TimelineDataRange] with disjoint ranges in order: [get_ranges(start, end)]
    returns exactly the ranges that meet the interval when both ends lie in
    some range.  When only [start] does it returns every range from there on,
    those after [end] included; when only [end] does, every range up to there;
    and when neither does, nothing, even if ranges lie between.
    [get_ranges_bounds] gives the positions of what [get_ranges] returns. *)
Theorem get_ranges_spec self start end_ :
  disjoint_sorted (rg_ranges self) -> start <= end_ ->
  exists l lo hi, get_ranges self start end_ = Ok l /\
    get_ranges_bounds self start end_ = Ok (lo, hi) /\ py_slice (rg_ranges self) lo hi = l /\
    let hit key := Exists (within key) (rg_ranges self) in
    (hit start -> hit end_ ->
       l = filter (fun r => start <= dr_end r /\ dr_start r <= end_) (rg_ranges self)) /\
    (hit start -> ~ hit end_ -> l = filter (fun r => start <= dr_end r) (rg_ranges self)) /\
    (~ hit start -> hit end_ -> l = filter (fun r => dr_start r <= end_) (rg_ranges self)) /\
    (~ hit start -> ~ hit end_ -> l = []).
Proof.
  intros Hd Hse. unfold get_ranges, get_ranges_bounds.
  pose proof (within_cut (rg_ranges self) Hd) as Hcut.
  assert (forall key, (forall r, r ∈ rg_ranges self -> ~ within key r) ->
    ~ Exists (within key) (rg_ranges self)) as Hmiss.
  { intros key Hno (r & Hr & Hw)%list.Exists_exists. by eapply Hno. }
  destruct (rg_search_spec self start Hd) as [(i & r & -> & Hi & Hw)|[-> Hno]];
    destruct (rg_search_spec self end_ Hd) as [(j & r' & -> & Hj & Hw')|[-> Hno']]; cbn [rbind].
  - destruct (Hcut start i r Hi Hw) as (Hs & Hge & _), (Hcut end_ j r' Hj Hw') as (He & _ & Hle).
    rewrite !(proj2 (Z.eqb_neq _ (-1))) by lia. cbn [andb].
    do 3 eexists. split_and!; [done|done|done| |done|done|done]. intros _ _.
    replace (Z.of_nat j + 1) with (Z.of_nat (S j)) by lia. rewrite py_slice_nat. symmetry.
    apply filter_slice.
    + assert (i <= j)%nat; [|lia]. apply (Hge j r' Hj). unfold within in Hw'. lia.
    + intros k a Ha. rewrite (Hge k a Ha), (Hle k a Ha). lia.
  - destruct (Hcut start i r Hi Hw) as (Hs & Hge & _). specialize (Hmiss end_ Hno').
    rewrite (proj2 (Z.eqb_neq (Z.of_nat i) (-1))) by lia. cbn [andb Z.eqb Pos.eqb].
    do 3 eexists. split_and!; [done|done|done|done| |done|done]. intros _ _. unfold py_len.
    rewrite py_slice_nat. symmetry. apply filter_slice; [apply lookup_lt_Some in Hi; lia|].
    intros k a Ha. rewrite (Hge k a Ha). apply lookup_lt_Some in Ha. lia.
  - destruct (Hcut end_ j r' Hj Hw') as (He & _ & Hle). specialize (Hmiss start Hno).
    rewrite (proj2 (Z.eqb_neq (Z.of_nat j) (-1))) by lia. cbn [andb Z.eqb Pos.eqb].
    do 3 eexists. split_and!; [done|done|done|done|done| |done]. intros _ _.
    replace (Z.of_nat j + 1) with (Z.of_nat (S j)) by lia. change 0 with (Z.of_nat 0).
    rewrite py_slice_nat. symmetry. apply filter_slice; [lia|].
    intros k a Ha. rewrite (Hle k a Ha). lia.
  - specialize (Hmiss start Hno) as Hms. specialize (Hmiss end_ Hno') as Hme. cbn [andb Z.eqb Pos.eqb].
    do 3 eexists. split_and!; [done|done| |done|done|done|done].
    unfold py_slice. by rewrite Nat.sub_diag.
Qed.

Definition sample_ranges : TimelineDataRange :=
  {| rg_name := $"mac"; rg_ranges :=
     [{| dr_start := 10; dr_end := 20; dr_value := $"tx" |};
      {| dr_start := 30; dr_end := 40; dr_value := $"rx" |};
      {| dr_start := 50; dr_end := 60; dr_value := $"tx" |}] |}.

Lemma sample_ranges_sorted : disjoint_sorted (rg_ranges sample_ranges).
Proof.
  split.
  - intros r Hr. cbn in Hr. rewrite !elem_of_cons, elem_of_nil in Hr.
    destruct Hr as [->|[->|[->|[]]]]; cbn; lia.
  - intros [|[|[|i]]] [|[|[|j]]] a b Ha Hb Hij; cbn in *; simplify_eq; cbn; lia.
Qed.

(** Between two gaps the range inside is not returned. *)
Lemma get_ranges_spec_witness : get_ranges sample_ranges 25 45 = Ok [].
Proof.
  destruct (get_ranges_spec sample_ranges 25 45 sample_ranges_sorted) as
    (l & lo & hi & Hl & _ & _ & _ & _ & _ & Hno); [lia|]. rewrite Hl. f_equal.
  apply Hno; rewrite list.Exists_exists; cbn;
    intros (r & Hr & Hw); unfold within in Hw; rewrite !elem_of_cons, elem_of_nil in Hr;
    destruct Hr as [->|[->|[->|[]]]]; cbn in Hw; lia.
Defined.

Section event_search.
Context {V : Type}.
Implicit Types (events : list (Event V)).

(** Events in strictly increasing order of time. *)
Definition times_sorted events : Prop :=
  forall i j a b, events !! i = Some a -> events !! j = Some b -> (i < j)%nat -> ev_at a < ev_at b.

(** The position where [key] is, or would be inserted. *)
Definition rank events (key : Z) : nat := length (filter (fun e => ev_at e < key) events).

Lemma rank_cut events key k :
  (k <= length events)%nat ->
  (forall i e, events !! i = Some e -> (ev_at e < key <-> (i < k)%nat)) -> rank events key = k.
Proof.
  intros Hk Hcut. unfold rank. rewrite (filter_slice (fun e => ev_at e < key) events 0 k); [|lia|].
  - rewrite drop_0, Nat.sub_0_r, length_take. lia.
  - intros i e He. rewrite (Hcut i e He). lia.
Qed.

Lemma event_search_rank fuel events key l u :
  times_sorted events -> 0 <= l -> u < py_len events -> l <= u + 1 -> u - l + 1 <= Z.of_nat fuel ->
  (forall i e, events !! i = Some e -> Z.of_nat i < l -> ev_at e < key) ->
  (forall i e, events !! i = Some e -> u < Z.of_nat i -> key < ev_at e) ->
  event_search fuel events key l u = Ok (Z.of_nat (rank events key)).
Proof.
  intros Hd. revert l u. induction fuel as [|fuel IH]; intros l u Hl Hu Hlu1 Hf Hlow Hhigh;
    cbn [event_search]; destruct (l <=? u) eqn:Hlu; (apply Z.leb_le in Hlu || apply Z.leb_gt in Hlu); [lia| | |].
  1, 3: rewrite (rank_cut events key (Z.to_nat l)); [f_equal; lia|unfold py_len in Hu; lia|];
    intros i e He; split; intros Hi;
    [destruct (decide (Z.of_nat i < l)) as [Hil|Hil]; [lia|]; specialize (Hhigh i e He); lia
    |apply (Hlow i e He); lia].
  pose proof (middle_bounds l u Hlu) as Hm. set (m := (l + u) / 2) in *.
  destruct (lookup_lt_is_Some_2 events (Z.to_nat m)) as [e He]; [unfold py_len in Hu; lia|].
  rewrite (py_get_Some _ _ e) by (done || lia). cbn [rbind].
  assert (forall i e', events !! i = Some e' -> Z.of_nat i < m -> ev_at e' < ev_at e) as Hbelow.
  { intros i e' He' Hi. apply (Hd i (Z.to_nat m)); [done|done|lia]. }
  assert (forall i e', events !! i = Some e' -> m < Z.of_nat i -> ev_at e < ev_at e') as Habove.
  { intros i e' He' Hi. apply (Hd (Z.to_nat m) i); [done|done|lia]. }
  destruct (key =? ev_at e) eqn:Hk.
  - apply Z.eqb_eq in Hk. rewrite (rank_cut events key (Z.to_nat m)); [f_equal; lia| |].
    + apply lookup_lt_Some in He. lia.
    + intros i e' He'. destruct (decide (i = Z.to_nat m)) as [->|Hne]; [simplify_eq; lia|].
      pose proof (Hbelow i e' He'). pose proof (Habove i e' He'). lia.
  - apply Z.eqb_neq in Hk. destruct (key <? ev_at e) eqn:Hlt.
    + apply Z.ltb_lt in Hlt. apply IH; [lia|lia|lia|lia|done|]. intros i e' He' Hi.
      destruct (decide (i = Z.to_nat m)) as [->|Hne]; [by simplify_eq|].
      pose proof (Habove i e' He'). lia.
    + apply Z.ltb_ge in Hlt. apply IH; [lia|lia|lia|lia| |done]. intros i e' He' Hi.
      destruct (decide (i = Z.to_nat m)) as [->|Hne]; [simplify_eq; lia|].
      pose proof (Hbelow i e' He'). lia.
Qed.

Lemma te_search_rank (self : TimelineEvent V) key :
  times_sorted (te_events self) -> te_search self key = Ok (Z.of_nat (rank (te_events self) key)).
Proof.
  intros Hs. apply event_search_rank; [done|lia|lia| | | |]; unfold py_len; [lia|lia|lia|].
  intros i e Hi%lookup_lt_Some. lia.
Qed.

Lemma rank_lookup events key i e :
  times_sorted events -> events !! i = Some e -> (ev_at e < key <-> (i < rank events key)%nat).
Proof.
  intros Hs. unfold rank. revert i e. induction events as [|a events IH]; intros i e Hi; [done|].
  assert (times_sorted events) as Hs'.
  { intros j k b c Hb Hc Hjk. apply (Hs (S j) (S k)); [done|done|lia]. }
  rewrite filter_cons. destruct (decide (ev_at a < key)) as [Ha|Ha].
  - destruct i as [|i]; cbn in Hi; [simplify_eq; cbn; lia|]. rewrite (IH Hs' i e Hi). cbn. lia.
  - rewrite filter_none.
    + cbn. split; [|lia]. destruct i as [|i]; [cbn in Hi; simplify_eq; lia|].
      pose proof (Hs 0%nat (S i) a e eq_refl Hi). lia.
    + intros b [j Hj]%list_elem_of_lookup. pose proof (Hs 0%nat (S j) a b eq_refl Hj). lia.
Qed.

Lemma rank_at events j e :
  times_sorted events -> events !! j = Some e -> rank events (ev_at e) = j.
Proof.
  intros Hs Hj. apply rank_cut; [apply lookup_lt_Some in Hj; lia|]. intros k e' He'.
  pose proof (Hs j k e e' Hj He'). pose proof (Hs k j e' e He' Hj).
  destruct (decide (k = j)) as [->|]; [simplify_eq; lia|lia].
Qed.

(** [TimelineEvent] with events in strictly increasing order:
    [get_events(start, end)] returns the events of the interval, and the first
    one after it when there is none at [end] itself. *)
Theorem get_events_spec (self : TimelineEvent V) start end_ :
  times_sorted (te_events self) -> start <= end_ ->
  get_events self start end_ =
  Ok (filter (fun e => start <= ev_at e /\ ev_at e <= end_) (te_events self) ++
      if decide (Exists (fun e => ev_at e = end_) (te_events self)) then []
      else take 1 (filter (fun e => end_ < ev_at e) (te_events self))).
Proof.
  intros Hs Hse. unfold get_events. rewrite !te_search_rank by done. cbn [rbind]. f_equal.
  set (evs := te_events self) in *. replace (Z.of_nat (rank evs end_) + 1) with (Z.of_nat (S (rank evs end_))) by lia.
  rewrite py_slice_nat.
  assert (forall key, (rank evs key <= length evs)%nat) as Hlen by (intros; apply length_filter).
  assert (rank evs start <= rank evs end_)%nat as Hle.
  { destruct (decide (rank evs start <= rank evs end_)%nat) as [|Hgt]; [done|].
    destruct (lookup_lt_is_Some_2 evs (rank evs end_)) as [e He]; [specialize (Hlen start); lia|].
    pose proof (proj2 (rank_lookup evs start _ e Hs He)). pose proof (rank_lookup evs end_ _ e Hs He). lia. }
  case_decide as Hend.
  - rewrite app_nil_r. symmetry.
    apply list.Exists_exists in Hend as (e0 & [j Hj]%list_elem_of_lookup & Hat).
    rewrite <- Hat in *. rewrite (rank_at evs j e0 Hs Hj) in *.
    apply filter_slice; [lia|]. intros i e He.
    pose proof (rank_lookup evs start i e Hs He).
    pose proof (Hs i j e e0 He Hj). pose proof (Hs j i e0 e Hj He).
    destruct (decide (i = j)) as [->|]; [simplify_eq; lia|lia].
  - assert (forall i e, evs !! i = Some e -> (ev_at e <= end_ <-> (i < rank evs end_)%nat)) as Hcut.
    { intros i e He. rewrite <- (rank_lookup evs end_ i e Hs He). split; [|lia]. intros Hat.
      destruct (decide (ev_at e = end_)) as [Heq|]; [|lia]. exfalso. apply Hend, list.Exists_exists.
      exists e. split; [by eapply list_elem_of_lookup_2|done]. }
    rewrite (filter_slice _ evs (rank evs start) (rank evs end_)); [|done|].
    + rewrite (filter_slice (fun e => end_ < ev_at e) evs (rank evs end_) (length evs)); [|done|].
      * rewrite take_take, <- (take_drop (rank evs end_ - rank evs start) (drop (rank evs start) evs)) at 1.
        rewrite drop_drop, take_app. rewrite !take_take, length_take, length_drop.
        specialize (Hlen end_).
        replace (S (rank evs end_) - rank evs start)%nat with (S (rank evs end_ - rank evs start)) by lia.
        rewrite Nat.min_r by lia. replace (S _ - _)%nat with 1%nat by lia.
        replace (rank evs start + (rank evs end_ - rank evs start))%nat with (rank evs end_) by lia.
        f_equal. destruct (decide (rank evs end_ < length evs)%nat).
        -- by rewrite Nat.min_l by lia.
        -- rewrite (drop_ge evs) by lia. by rewrite !take_nil.
      * intros i e He. pose proof (Hcut i e He). apply lookup_lt_Some in He. lia.
    + intros i e He. pose proof (Hcut i e He). pose proof (rank_lookup evs start i e Hs He). lia.
Qed.

End event_search.

Definition sample_events : TimelineEvent Z :=
  {| te_name := $"queue"; te_events :=
     [{| ev_at := 5; ev_value := 1 |}; {| ev_at := 10; ev_value := 2 |};
      {| ev_at := 15; ev_value := 3 |}] |}.

(** The event at 15 is returned for an interval that ends at 12. *)
Lemma get_events_spec_witness :
  get_events sample_events 8 12 =
  Ok [{| ev_at := 10; ev_value := 2 |}; {| ev_at := 15; ev_value := 3 |}].
Proof.
  rewrite get_events_spec; [vm_compute; reflexivity| |lia].
  intros [|[|[|i]]] [|[|[|j]]] a b Ha Hb Hij; cbn in *; simplify_eq; cbn; lia.
Defined.

(** ** Bounds *)

Lemma widen_contains b b' :
  (widen b b').1 <= b.1 /\ b.2 <= (widen b b').2 /\
  (widen b b').1 <= b'.1 /\ b'.2 <= (widen b b').2.
Proof.
  unfold widen. destruct b as [lo hi], b' as [lo' hi']. cbn [fst snd].
  destruct (lo' <? lo) eqn:H1, (hi' >? hi) eqn:H2; lia.
Qed.

Lemma widen_min b b' c : c <= b.1 -> c <= b'.1 -> c <= (widen b b').1.
Proof. unfold widen. intros. cbn. by case_match. Qed.

(** The loops of [get_bounds] over parts that have bounds. *)
Lemma widen_all {A} (f : A -> py (Z * Z)) l b0 :
  (forall x, x ∈ l -> exists b, f x = Ok b) ->
  exists b, for_each (widen_by f) l b0 = Ok b /\ b.1 <= b0.1 /\ b0.2 <= b.2 /\
    (forall x b', x ∈ l -> f x = Ok b' -> b.1 <= b'.1 /\ b'.2 <= b.2) /\
    (forall c, c <= b0.1 -> (forall x b', x ∈ l -> f x = Ok b' -> c <= b'.1) -> c <= b.1).
Proof.
  revert b0. induction l as [|x l IH]; intros b0 Hf; cbn [for_each].
  - exists b0. split_and!; [done|lia|lia|set_solver|done].
  - destruct (Hf x) as [bx Hx]; [left|]. unfold widen_by at 1. rewrite Hx. cbn [rbind].
    pose proof (widen_contains b0 bx) as Hw.
    destruct (IH (widen b0 bx)) as (b & Hb & Hlo & Hhi & Hall & Hmin).
    { intros y Hy. apply Hf. by right. }
    exists b. split_and!; [done|lia|lia| |].
    + intros y b' [->|Hy]%elem_of_cons Hyb; [assert (bx = b') as <- by congruence; lia|]. by eapply Hall.
    + intros c Hc Hcs. apply Hmin; [|intros y b' Hy; apply Hcs; by right].
      apply widen_min; [done|]. apply (Hcs x); [left|done].
Qed.

Lemma py_len_pos {A} (x : A) l : (py_len (x :: l) >? 0) = true.
Proof. apply Z.gtb_lt. unfold py_len. rewrite length_cons. lia. Qed.

Lemma py_get_0 {A} (x : A) l : py_get (x :: l) 0 = Ok x.
Proof. done. Qed.

Lemma py_get_last {A} (l : list A) x : py_get (l ++ [x]) (py_len (l ++ [x]) - 1) = Ok x.
Proof.
  unfold py_len. rewrite length_app. cbn [length]. apply py_get_Some; [lia|].
  replace (Z.to_nat _) with (length l) by lia. by apply list_lookup_middle.
Qed.

Lemma py_get_m1 {A} (l : list A) x : py_get (l ++ [x]) (-1) = Ok x.
Proof. change (-1) with (- Z.of_nat 1). rewrite py_get_neg. by rewrite reverse_snoc. Qed.

Lemma rg_get_bounds_spec self :
  exists lo hi, rg_get_bounds self = Ok (lo, hi) /\
  (disjoint_sorted (rg_ranges self) -> forall r, r ∈ rg_ranges self -> lo <= dr_start r /\ dr_end r <= hi) /\
  ((forall r, r ∈ rg_ranges self -> 0 <= dr_start r) -> 0 <= lo).
Proof.
  unfold rg_get_bounds. destruct (rg_ranges self) as [|a l] eqn:Hl.
  { exists 0, 0. split_and!; [done|set_solver|done]. }
  destruct (exists_last (l := a :: l)) as (l' & z & Hz); [done|].
  rewrite py_len_pos.
  rewrite py_get_0. cbn [rbind]. rewrite Hz, py_get_last. cbn [rbind].
  exists (dr_start a), (dr_end z). split_and!; [done| |].
  - intros [Hwf Hlt] r [i Hi]%list_elem_of_lookup.
    assert (a ∈ l' ++ [z]) as Ha by (rewrite <- Hz; left).
    assert (z ∈ l' ++ [z]) as Hzin by set_solver.
    pose proof (Hwf a Ha). pose proof (Hwf z Hzin). split.
    + destruct i as [|i]; [rewrite <- Hz in Hi; injection Hi as <-; lia|].
      rewrite <- Hz in Hi, Hlt. pose proof (Hlt 0%nat (S i) a r eq_refl Hi). lia.
    + destruct (decide (i = length l')) as [->|Hne].
      * rewrite list_lookup_middle in Hi by done. injection Hi as ->. lia.
      * apply lookup_lt_Some in Hi as Hil. rewrite length_app in Hil. cbn in Hil.
        pose proof (Hlt i (length l') r z Hi) as H'.
        rewrite list_lookup_middle in H' by done. specialize (H' eq_refl).
        assert (dr_start z <= dr_end z) by lia. lia.
  - intros Hpos. apply Hpos. rewrite <- Hz. left.
Qed.

Lemma te_get_bounds_spec {V} (self : TimelineEvent V) :
  exists lo hi, te_get_bounds self = Ok (lo, hi) /\
  (times_sorted (te_events self) -> forall e, e ∈ te_events self -> lo <= ev_at e <= hi) /\
  ((forall e, e ∈ te_events self -> 0 <= ev_at e) -> 0 <= lo).
Proof.
  unfold te_get_bounds. destruct (te_events self) as [|a l] eqn:Hl.
  { exists 0, 0. split_and!; [done|set_solver|done]. }
  destruct (exists_last (l := a :: l)) as (l' & z & Hz); [done|].
  rewrite py_len_pos.
  rewrite py_get_0. cbn [rbind]. rewrite Hz, py_get_m1. cbn [rbind].
  exists (ev_at a), (ev_at z). split_and!; [done| |].
  - intros Hs e [i Hi]%list_elem_of_lookup. split.
    + destruct i as [|i]; [rewrite <- Hz in Hi; injection Hi as <-; lia|].
      rewrite <- Hz in Hi, Hs. pose proof (Hs 0%nat (S i) a e eq_refl Hi). lia.
    + destruct (decide (i = length l')) as [->|Hne].
      * rewrite list_lookup_middle in Hi by done. injection Hi as ->. lia.
      * apply lookup_lt_Some in Hi as Hil. rewrite length_app in Hil. cbn in Hil.
        pose proof (Hs i (length l') e z Hi) as H'.
        rewrite list_lookup_middle in H' by done. specialize (H' eq_refl). lia.
  - intros Hpos. apply Hpos. rewrite <- Hz. left.
Qed.

(** All series of a timeline are in order. *)
Definition tl_sorted (self : Timeline) : Prop :=
  (forall rg, rg ∈ tl_ranges self -> disjoint_sorted (rg_ranges rg)) /\
  (forall te, te ∈ tl_event_str self -> times_sorted (te_events te)) /\
  (forall te, te ∈ tl_event_int self -> times_sorted (te_events te)).

(** Some range or event of the timeline lies from [a] to [b]. *)
Definition occurs (self : Timeline) (a b : Z) : Prop :=
  (exists rg r, rg ∈ tl_ranges self /\ r ∈ rg_ranges rg /\ a = dr_start r /\ b = dr_end r) \/
  (exists te e, te ∈ tl_event_str self /\ e ∈ te_events te /\ a = ev_at e /\ b = ev_at e) \/
  (exists te e, te ∈ tl_event_int self /\ e ∈ te_events te /\ a = ev_at e /\ b = ev_at e).

Lemma tl_get_bounds_spec self :
  exists lo hi, tl_get_bounds self = Ok (lo, hi) /\ lo <= 0 <= hi /\
  (tl_sorted self -> forall a b, occurs self a b -> lo <= a /\ b <= hi) /\
  ((forall a b, occurs self a b -> 0 <= a) -> lo = 0).
Proof.
  unfold tl_get_bounds.
  destruct (widen_all rg_get_bounds (tl_ranges self) (0, 0)) as (b1 & -> & Hlo1 & Hhi1 & Hall1 & Hmin1).
  { intros x _. destruct (rg_get_bounds_spec x) as (lo & hi & -> & _). eauto. }
  cbn [rbind fst snd] in *.
  destruct (widen_all te_get_bounds (tl_event_str self) b1) as (b2 & -> & Hlo2 & Hhi2 & Hall2 & Hmin2).
  { intros x _. destruct (te_get_bounds_spec x) as (lo & hi & -> & _). eauto. }
  cbn [rbind].
  destruct (widen_all te_get_bounds (tl_event_int self) b2) as ([lo hi] & -> & Hlo3 & Hhi3 & Hall3 & Hmin3).
  { intros x _. destruct (te_get_bounds_spec x) as (lo & hi & -> & _). eauto. }
  cbn [fst snd] in *. exists lo, hi. split_and!; [done|lia|lia| |].
  - intros (Hr & Hes & Hei) a b [(rg & r & Hrg & Hin & -> & ->)|[(te & e & Hte & Hin & -> & ->)|
      (te & e & Hte & Hin & -> & ->)]].
    + destruct (rg_get_bounds_spec rg) as (lo' & hi' & Hb & Hin' & _).
      pose proof (Hall1 rg _ Hrg Hb). specialize (Hin' (Hr rg Hrg) r Hin). cbn in *. lia.
    + destruct (te_get_bounds_spec te) as (lo' & hi' & Hb & Hin' & _).
      pose proof (Hall2 te _ Hte Hb). specialize (Hin' (Hes te Hte) e Hin). cbn in *. lia.
    + destruct (te_get_bounds_spec te) as (lo' & hi' & Hb & Hin' & _).
      pose proof (Hall3 te _ Hte Hb). specialize (Hin' (Hei te Hte) e Hin). cbn in *. lia.
  - intros Hpos. assert (0 <= lo); [|lia].
    apply Hmin3; [apply Hmin2; [apply Hmin1; [done|]|]|].
    + intros rg b' Hrg Hb. destruct (rg_get_bounds_spec rg) as (lo' & hi' & Hb' & _ & Hp).
      rewrite Hb in Hb'. injection Hb' as ->. apply Hp. intros r Hr. apply (Hpos _ (dr_end r)).
      left. by exists rg, r.
    + intros te b' Hte Hb. destruct (te_get_bounds_spec te) as (lo' & hi' & Hb' & _ & Hp).
      rewrite Hb in Hb'. injection Hb' as ->. apply Hp. intros e He. apply (Hpos _ (ev_at e)).
      right; left. by exists te, e.
    + intros te b' Hte Hb. destruct (te_get_bounds_spec te) as (lo' & hi' & Hb' & _ & Hp).
      rewrite Hb in Hb'. injection Hb' as ->. apply Hp. intros e He. apply (Hpos _ (ev_at e)).
      right; right. by exists te, e.
Qed.

(** [Timelines.get_bounds] never fails; what it returns contains 0 and, when the
    series are in order, every range and every event.  The lower bound does
    not follow the data: it is 0 whenever no time is negative. *)
Theorem Timelines_get_bounds_spec (self : Timelines) :
  exists lo hi, Timelines_get_bounds self = Ok (lo, hi) /\ lo <= 0 <= hi /\
  ((forall tl, tl ∈ self -> tl_sorted tl) ->
     forall tl a b, tl ∈ self -> occurs tl a b -> lo <= a /\ b <= hi) /\
  ((forall tl a b, tl ∈ self -> occurs tl a b -> 0 <= a) -> lo = 0).
Proof.
  unfold Timelines_get_bounds.
  destruct (widen_all tl_get_bounds self (0, 0)) as ([lo hi] & -> & Hlo & Hhi & Hall & Hmin).
  { intros x _. destruct (tl_get_bounds_spec x) as (lo & hi & -> & _). eauto. }
  cbn [fst snd] in *. exists lo, hi. split_and!; [done|lia|lia| |].
  - intros Hs tl a b Htl Hab. destruct (tl_get_bounds_spec tl) as (lo' & hi' & Hb & _ & Hin & _).
    pose proof (Hall tl _ Htl Hb). specialize (Hin (Hs tl Htl) a b Hab). cbn in *. lia.
  - intros Hpos. assert (0 <= lo); [|lia]. apply Hmin; [done|]. intros tl b' Htl Hb.
    destruct (tl_get_bounds_spec tl) as (lo' & hi' & Hb' & _ & _ & Hp).
    rewrite Hb in Hb'. injection Hb' as ->. rewrite Hp; [done|]. intros a b Hab. by eapply Hpos.
Qed.

(** ** Finding or adding by name *)

Section named_facts.
Context {A : Type} (name_of : A -> pystr) (init : pystr -> A).
Implicit Types (l : list A) (n m : pystr).

(** The object a name stands for: the first of that name. *)
Fixpoint named n l : option A :=
  match l with
  | [] => None
  | x :: l' => if decide (name_of x = n) then Some x else named n l'
  end.

Lemma with_named_nil n f : with_named name_of init n f [] = [f (init n)].
Proof. done. Qed.

Lemma with_named_cons n f x l :
  with_named name_of init n f (x :: l) =
  if decide (name_of x = n) then f x :: l else x :: with_named name_of init n f l.
Proof.
  unfold with_named, get_or_add. cbn [list_find]. case_decide; [done|].
  destruct (list_find _ l) as [[i y]|]; done.
Qed.

Hypothesis init_name : forall n, name_of (init n) = n.

Lemma named_with_named n m f l :
  (forall x, name_of (f x) = name_of x) ->
  named m (with_named name_of init n f l) =
  if decide (m = n) then Some (f (default (init n) (named n l))) else named m l.
Proof.
  intros Hf. induction l as [|x l IH].
  - rewrite with_named_nil. cbn [named]. rewrite Hf, init_name.
    repeat case_decide; simplify_eq; done.
  - rewrite with_named_cons. cbn [named].
    destruct (decide (name_of x = n)) as [Hx|Hx]; cbn [named]; rewrite ?Hf, ?IH.
    + repeat case_decide; simplify_eq; done.
    + repeat case_decide; simplify_eq; done.
Qed.

Lemma names_with_named n f l :
  (forall x, name_of (f x) = name_of x) ->
  name_of <$> with_named name_of init n f l =
  if decide (n ∈ name_of <$> l) then name_of <$> l else (name_of <$> l) ++ [n].
Proof.
  intros Hf. induction l as [|x l IH]; [cbn; by rewrite Hf, init_name|].
  rewrite with_named_cons. cbn [fmap list_fmap]. fold (name_of <$> l).
  destruct (decide (name_of x = n)) as [<-|Hx]; cbn [fmap list_fmap].
  - rewrite decide_True by left. by rewrite Hf.
  - rewrite IH. destruct (decide (n ∈ name_of <$> l)) as [Hn|Hn].
    + by rewrite decide_True by by right.
    + rewrite decide_False; [done|]. intros [?|?]%elem_of_cons; congruence.
Qed.

(** No name is used twice. *)
Lemma with_named_unique n f l :
  (forall x, name_of (f x) = name_of x) -> NoDup (name_of <$> l) ->
  NoDup (name_of <$> with_named name_of init n f l).
Proof.
  intros Hf Hnd. rewrite names_with_named by done. case_decide as Hn; [done|].
  apply NoDup_app. split_and!; [done| |apply NoDup_singleton].
  intros m Hm Hmn. apply list_elem_of_singleton in Hmn as ->. done.
Qed.

Lemma named_fmap (g : A -> A) n l :
  (forall x, name_of (g x) = name_of x) -> named n (g <$> l) = g <$> named n l.
Proof.
  intros Hg. induction l as [|x l IH]; cbn [fmap list_fmap named]; [done|].
  rewrite Hg. case_decide; [done|]. apply IH.
Qed.

End named_facts.

(** ** What a file leaves in the timelines *)

Section series.
Context {B C : Type} (parts : Timeline -> list B) (name_of : B -> pystr) (content : B -> list C).

(** The series [n] of the timeline [t]. *)
Definition series (tls : Timelines) (t n : pystr) : list C :=
  default [] (tl ← named tl_name t tls; b ← named name_of n (parts tl); Some (content b)).

Lemma series_other t f tls t' n :
  (forall tl, tl_name (f tl) = tl_name tl) -> (forall tl, parts (f tl) = parts tl) ->
  parts (Timeline_init t) = [] ->
  series (with_timeline t f tls) t' n = series tls t' n.
Proof.
  intros Hn Hp Hinit. unfold series, with_timeline. rewrite named_with_named by done.
  case_decide as Ht; [|done]. subst t'. cbn [mbind option_bind]. rewrite Hp.
  destruct (named tl_name t tls); cbn; [done|]. by rewrite Hinit.
Qed.

Lemma series_add init t n (f : Timeline -> Timeline) (g : B -> B) (c : C) tls t' n' :
  (forall tl, tl_name (f tl) = tl_name tl) ->
  (forall tl, parts (f tl) = with_named name_of init n g (parts tl)) ->
  (forall m, name_of (init m) = m) -> (forall b, name_of (g b) = name_of b) ->
  (forall b, content (g b) = content b ++ [c]) -> content (init n) = [] ->
  parts (Timeline_init t) = [] ->
  series (with_timeline t f tls) t' n' =
  series tls t' n' ++ if decide (t = t' /\ n = n') then [c] else [].
Proof.
  intros Hfn Hp Hin Hgn Hg Hinit Hti. unfold series, with_timeline. rewrite named_with_named by done.
  destruct (decide (t' = t)) as [->|Ht]; [|rewrite decide_False by naive_solver; by rewrite app_nil_r].
  cbn [mbind option_bind]. rewrite Hp, named_with_named by done.
  assert (default [] (tl ← named tl_name t tls; b ← named name_of n' (parts tl); Some (content b)) =
    default [] (b ← named name_of n' (parts (default (Timeline_init t) (named tl_name t tls)));
                Some (content b))) as ->.
  { destruct (named tl_name t tls); cbn; [done|]. by rewrite Hti. }
  destruct (decide (n' = n)) as [->|Hn'].
  - rewrite decide_True by done. cbn [mbind option_bind default]. rewrite Hg.
    destruct (named name_of n _); cbn; [done|]. by rewrite Hinit.
  - rewrite decide_False by naive_solver. by rewrite app_nil_r.
Qed.

Lemma series_fmap (h : Timeline -> Timeline) (k : B -> B) (srt : list C -> list C) tls t n :
  (forall tl, tl_name (h tl) = tl_name tl) -> (forall tl, parts (h tl) = k <$> parts tl) ->
  (forall b, name_of (k b) = name_of b) -> (forall b, content (k b) = srt (content b)) -> srt [] = [] ->
  series (h <$> tls) t n = srt (series tls t n).
Proof.
  intros Hh Hp Hk Hc H0. unfold series. rewrite named_fmap by done.
  destruct (named tl_name t tls) as [tl|]; cbn; [|done].
  rewrite Hp, named_fmap by done. destruct (named name_of n (parts tl)); cbn; [apply Hc|done].
Qed.

End series.

Definition ranges_of := series tl_ranges rg_name rg_ranges.
Definition events_str_of := series tl_event_str te_name te_events.
Definition events_int_of := series tl_event_int te_name te_events.

(** What one line says about a series. *)
Definition int_of (g : pystr) : option Z :=
  match int_of_digits g with Ok n => Some (Z.of_N n) | Err _ => None end.

Definition line_range (t n : pystr) (line : pystr) : option DataRange :=
  '(g1, g2, g3, g4, g5) ← match_range line; a ← int_of g4; b ← int_of g5;
  if decide (g1 = t /\ g2 = n) then Some {| dr_start := a; dr_end := b; dr_value := g3 |} else None.

Definition line_event_str (t n : pystr) (line : pystr) : option (Event pystr) :=
  '(g1, g2, g3, g4) ← match_event_str line; a ← int_of g4;
  if decide (g1 = t /\ g2 = n) then Some {| ev_at := a; ev_value := g3 |} else None.

Definition line_event_int (t n : pystr) (line : pystr) : option (Event Z) :=
  '(g1, g2, g3, g4) ← match_event_int line; v ← int_of g3; a ← int_of g4;
  if decide (g1 = t /\ g2 = n) then Some {| ev_at := a; ev_value := v |} else None.

(** Takes the regular expressions apart. *)
Ltac inv_match H :=
  repeat match type of H with
  | mbind _ ?m = Some _ =>
      let E := fresh "E" in destruct m as [?|] eqn:E; cbn [mbind option_bind] in H; [|discriminate H];
      match type of E with
      | _ = Some ?p => match type of p with prod _ _ => destruct p | _ => idtac end
      end; cbn [mbind option_bind] in H
  end.

Lemma take_lit_Some p s r : take_lit p s = Some r -> s = p ++ r.
Proof.
  unfold take_lit. destruct (startswith s p) eqn:Hs; [|done]. intros [= <-].
  apply startswith_spec in Hs as [r ->]. by rewrite drop_app_length.
Qed.

Lemma int_of_take_digits s d r : take_digits s = Some (d, r) -> exists n, int_of_digits d = Ok n.
Proof. intros Hd. apply take_some_Some in Hd as (? & _ & ?). by apply int_of_digits_Ok. Qed.

Lemma match_range_Some line g1 g2 g3 g4 g5 :
  match_range line = Some (g1, g2, g3, g4, g5) ->
  (exists r, line = $"range " ++ r) /\ (exists a, int_of_digits g4 = Ok a) /\
  exists b, int_of_digits g5 = Ok b.
Proof.
  unfold match_range. intros H. inv_match H. simplify_eq.
  split; [eexists; by apply take_lit_Some|]. by split; eapply int_of_take_digits.
Qed.

Lemma match_event_str_Some line g1 g2 g3 g4 :
  match_event_str line = Some (g1, g2, g3, g4) ->
  (exists r, line = $"event-str " ++ r) /\ exists a, int_of_digits g4 = Ok a.
Proof.
  unfold match_event_str. intros H. inv_match H. simplify_eq.
  split; [eexists; by apply take_lit_Some|]. by eapply int_of_take_digits.
Qed.

Lemma match_event_int_Some line g1 g2 g3 g4 :
  match_event_int line = Some (g1, g2, g3, g4) ->
  (exists r, line = $"event-int " ++ r) /\ (exists a, int_of_digits g3 = Ok a) /\
  exists b, int_of_digits g4 = Ok b.
Proof.
  unfold match_event_int. intros H. inv_match H. simplify_eq.
  split; [eexists; by apply take_lit_Some|]. by split; eapply int_of_take_digits.
Qed.

Definition names_unique (tls : Timelines) : Prop :=
  NoDup (tl_name <$> tls) /\
  forall tl, tl ∈ tls -> NoDup (rg_name <$> tl_ranges tl) /\
    NoDup (te_name <$> tl_event_str tl) /\ NoDup (te_name <$> tl_event_int tl).

(** A property of the timelines that an update and a new timeline keep. *)
Lemma with_timeline_all (P : Timeline -> Prop) t f tls :
  P (Timeline_init t) -> (forall tl, P tl -> P (f tl)) -> (forall tl, tl ∈ tls -> P tl) ->
  forall tl, tl ∈ with_timeline t f tls -> P tl.
Proof.
  intros Hi Hf. unfold with_timeline. induction tls as [|x tls IH]; intros Hall tl.
  - rewrite with_named_nil. intros ->%list_elem_of_singleton. auto.
  - rewrite with_named_cons. case_decide; intros [->|Htl]%elem_of_cons.
    + apply Hf, Hall. by left.
    + apply Hall. by right.
    + apply Hall. by left.
    + apply IH; [|done]. intros y Hy. apply Hall. by right.
Qed.

Section read_data.
Context {D : Type -> Type} `{PyDict pystr D}.

(** What the loop over the lines has done. *)
Definition read_inv (lines : list pystr) (st : D Color * Timelines) : Prop :=
  names_unique st.2 /\ forall t n,
  ranges_of st.2 t n = omap (line_range t n) lines /\
  events_str_of st.2 t n = omap (line_event_str t n) lines /\
  events_int_of st.2 t n = omap (line_event_int t n) lines.

Lemma int_of_Ok g a : int_of_digits g = Ok a -> int_of g = Some (Z.of_N a).
Proof. unfold int_of. by intros ->. Qed.

Lemma names_unique_step t f tls :
  names_unique tls -> (forall tl, tl_name (f tl) = tl_name tl) ->
  (forall tl, NoDup (rg_name <$> tl_ranges tl) /\ NoDup (te_name <$> tl_event_str tl) /\
     NoDup (te_name <$> tl_event_int tl) ->
   NoDup (rg_name <$> tl_ranges (f tl)) /\ NoDup (te_name <$> tl_event_str (f tl)) /\
     NoDup (te_name <$> tl_event_int (f tl))) ->
  names_unique (with_timeline t f tls).
Proof.
  intros [Hn Hin] Hf Hstep. split; [by apply with_named_unique|].
  apply with_timeline_all; [|done|done]. split_and!; constructor.
Qed.

(** The prefixes of the four regular expressions exclude one another. *)
Lemma match_exclusive line :
  (match_range line <> None -> match_event_str line = None /\ match_event_int line = None) /\
  (match_event_str line <> None -> match_range line = None /\ match_event_int line = None) /\
  (match_event_int line <> None -> match_range line = None /\ match_event_str line = None).
Proof.
  assert (forall p q r, p ++ r = line -> startswith (p ++ r) q = false -> take_lit q line = None) as Hno.
  { intros p q r <- Hs. unfold take_lit. by rewrite Hs. }
  split_and!; intros Hm.
  - destruct (match_range line) as [[[[[? ?] ?] ?] ?]|] eqn:Hr; [|done].
    apply match_range_Some in Hr as ([r Hr] & _). unfold match_event_str, match_event_int.
    rewrite !(Hno $"range " _ r) by done. done.
  - destruct (match_event_str line) as [[[[? ?] ?] ?]|] eqn:Hr; [|done].
    apply match_event_str_Some in Hr as ([r Hr] & _). unfold match_range, match_event_int.
    rewrite !(Hno $"event-str " _ r) by done. done.
  - destruct (match_event_int line) as [[[[? ?] ?] ?]|] eqn:Hr; [|done].
    apply match_event_int_Some in Hr as ([r Hr] & _). unfold match_range, match_event_str.
    rewrite !(Hno $"event-int " _ r) by done. done.
Qed.

Lemma omap_snoc {X Y} (f : X -> option Y) (l : list X) x :
  omap f (l ++ [x]) = omap f l ++ (match f x with Some y => [y] | None => [] end).
Proof. rewrite omap_app. cbn. by destruct (f x). Qed.

Lemma read_line_inv lines st line :
  read_inv lines st -> exists st', read_line st line = Ok st' /\ read_inv (lines ++ [line]) st'.
Proof.
  destruct st as [colors tls]. intros [Hu Hs]. cbn [snd] in *.
  destruct (match_exclusive line) as (Hex1 & Hex2 & Hex3).
  unfold read_line, read_inv. setoid_rewrite omap_snoc.
  destruct (match_range line) as [[[[[g1 g2] g3] g4] g5]|] eqn:Hr.
  { destruct (Hex1 ltac:(done)) as [Hn2 Hn3].
    pose proof (match_range_Some _ _ _ _ _ _ Hr) as (_ & [a Ha] & [b Hb]).
    rewrite Ha, Hb. cbn [rbind]. eexists. split; [done|]. split.
    - apply names_unique_step; [done|done|]. intros tl (? & ? & ?). split_and!; [|done|done].
      by apply with_named_unique.
    - intros t n. destruct (Hs t n) as (<- & <- & <-). cbn [snd].
      unfold line_range, line_event_str, line_event_int. rewrite Hr, Hn2, Hn3. cbn [mbind option_bind].
      rewrite (int_of_Ok _ _ Ha), (int_of_Ok _ _ Hb). cbn [mbind option_bind]. rewrite !app_nil_r.
      split_and!; [|by apply series_other|by apply series_other].
      etrans; [by eapply (series_add _ _ _ TimelineDataRange_init g1 g2)|]. by case_decide. }
  destruct (match_event_str line) as [[[[g1 g2] g3] g4]|] eqn:He.
  { destruct (Hex2 ltac:(done)) as [_ Hn3].
    pose proof (match_event_str_Some _ _ _ _ _ He) as (_ & [a Ha]).
    rewrite Ha. cbn [rbind]. eexists. split; [done|]. split.
    - apply names_unique_step; [done|done|]. intros tl (? & ? & ?). split_and!; [done| |done].
      by apply with_named_unique.
    - intros t n. destruct (Hs t n) as (<- & <- & <-). cbn [snd].
      unfold line_range, line_event_str, line_event_int. rewrite Hr, He, Hn3. cbn [mbind option_bind].
      rewrite (int_of_Ok _ _ Ha). cbn [mbind option_bind]. rewrite !app_nil_r.
      split_and!; [by apply series_other| |by apply series_other].
      etrans; [by eapply (series_add _ _ _ TimelineEvent_init g1 g2)|]. by case_decide. }
  destruct (match_event_int line) as [[[[g1 g2] g3] g4]|] eqn:Hi.
  { pose proof (match_event_int_Some _ _ _ _ _ Hi) as (_ & [a Ha] & [b Hb]).
    rewrite Ha, Hb. cbn [rbind]. eexists. split; [done|]. split.
    - apply names_unique_step; [done|done|]. intros tl (? & ? & ?). split_and!; [done|done|].
      by apply with_named_unique.
    - intros t n. destruct (Hs t n) as (<- & <- & <-). cbn [snd].
      unfold line_range, line_event_str, line_event_int. rewrite Hr, He, Hi. cbn [mbind option_bind].
      rewrite (int_of_Ok _ _ Ha), (int_of_Ok _ _ Hb). cbn [mbind option_bind]. rewrite !app_nil_r.
      split_and!; [by apply series_other|by apply series_other|].
      etrans; [by eapply (series_add _ _ _ TimelineEvent_init g1 g2)|]. by case_decide. }
  assert (forall t n, line_range t n line = None /\ line_event_str t n line = None /\
    line_event_int t n line = None) as Hnone.
  { intros t n. unfold line_range, line_event_str, line_event_int. by rewrite Hr, He, Hi. }
  destruct (match_color line) as [[[[g1 r] g] b]|]; eexists; (split; [done|]); (split; [done|]);
    intros t n; destruct (Hnone t n) as (-> & -> & ->); rewrite !app_nil_r; apply Hs.
Qed.

(** C19 - [read_data] accepts every text.  Each name of a timeline, and each name of
    a series of one kind within a timeline, is used once, and a series holds
    what its lines say, in order of time, equal times in the order of the
    file. *)
Theorem read_data_spec (lines : list pystr) :
  exists (colors : D Color) tls, read_data lines = Ok (colors, tls) /\ names_unique tls /\
  forall t n,
    ranges_of tls t n = py_sort (fun a b => dr_start a <=? dr_start b) (omap (line_range t n) lines) /\
    events_str_of tls t n = py_sort (fun a b => ev_at a <=? ev_at b) (omap (line_event_str t n) lines) /\
    events_int_of tls t n = py_sort (fun a b => ev_at a <=? ev_at b) (omap (line_event_int t n) lines).
Proof.
  destruct (for_each_total read_line read_inv lines (d_empty : D Color, [])) as ([colors tls] & Hf & Hu & Hs).
  { split; [split; [constructor|set_solver]|done]. }
  { intros l1 x l2 st _. apply read_line_inv. }
  exists colors, (Timelines_sort tls). unfold read_data. rewrite Hf. cbn [rbind snd] in *.
  split; [done|]. split.
  - destruct Hu as [Hn Hin]. unfold Timelines_sort. split.
    + by rewrite <- list_fmap_compose.
    + intros tl (tl0 & -> & Htl)%list_elem_of_fmap. cbn. rewrite <- !list_fmap_compose. by apply Hin.
  - intros t n. destruct (Hs t n) as (<- & <- & <-).
    assert (forall x y, (x - y <? 0) = (x <? y) /\ (x - y >? 0) = (y <? x)) as Hsub by (intros; lia).
    split_and!.
    + etrans; [by eapply (series_fmap tl_ranges rg_name rg_ranges tl_sort rg_sort)|]. apply py_sort_ext.
      intros x y. unfold ranges_cmp. repeat case_match; lia.
    + etrans; [by eapply (series_fmap tl_event_str te_name te_events tl_sort te_sort)|]. apply py_sort_ext.
      intros x y. unfold events_cmp. repeat case_match; lia.
    + etrans; [by eapply (series_fmap tl_event_int te_name te_events tl_sort te_sort)|]. apply py_sort_ext.
      intros x y. unfold events_cmp. repeat case_match; lia.
Qed.

End read_data.

(** ** Colours *)

Section colors_facts.
Context {D : Type -> Type} `{PyDictLaws pystr D}.
Implicit Types (names : list pystr) (defaults : list Color) (colors : D Color).

(** Looking up names one after the other, keeping the state only. *)
Definition colors_lookups names (st : list Color * D Color) : py (list Color * D Color) :=
  for_each (fun st name => let! '(defaults, colors, _) := colors_lookup st name in Ok (defaults, colors))
    names st.

(** The names without a colour, in the order they first occur. *)
Fixpoint uncoloured (known : list pystr) names : list pystr :=
  match names with
  | [] => []
  | n :: names' =>
      if decide (n ∈ known) then uncoloured known names' else n :: uncoloured (n :: known) names'
  end.

Lemma uncoloured_ext known known' names :
  (forall n, n ∈ known <-> n ∈ known') -> uncoloured known names = uncoloured known' names.
Proof.
  revert known known'. induction names as [|n names IH]; intros known known' Hk; cbn [uncoloured]; [done|].
  destruct (decide (n ∈ known)) as [Hn|Hn].
  - rewrite decide_True by by apply Hk. by apply IH.
  - rewrite decide_False by by rewrite <- Hk. f_equal. apply IH. set_solver.
Qed.

Lemma uncoloured_unknown known names n : n ∈ uncoloured known names -> n ∉ known.
Proof.
  revert known. induction names as [|m names IH]; intros known; cbn [uncoloured]; [set_solver|].
  case_decide; [apply IH|]. intros [->|Hn]%elem_of_cons; [done|]. apply IH in Hn. set_solver.
Qed.

Lemma colors_lookup_new defaults color colors name :
  d_get colors name = None ->
  colors_lookup (defaults ++ [color], colors) name = Ok (defaults, d_set name color colors, Some color).
Proof.
  intros Hn. unfold colors_lookup. rewrite Hn. change (-1) with (- Z.of_nat 1).
  rewrite py_get_neg, reverse_snoc. cbn [lookup list_lookup or_raise rbind].
  unfold colors_add. rewrite d_get_set_eq. do 3 f_equal. unfold py_upto, py_bound, py_len.
  rewrite length_app. cbn [length]. change (- Z.of_nat 1 <? 0) with true. cbn iota.
  replace (Z.to_nat _) with (length defaults) by lia. apply take_app_length.
Qed.

(** Looking names up in any order: each name without a colour takes one from
    the end of the class list, in the order of first use, and keeps it; the
    others keep theirs.  [IndexError] is raised exactly when there are more
    new names than colours left (six for the whole program). *)
Theorem colors_lookups_spec names defaults colors :
  let new := uncoloured (d_keys colors) names in
  match colors_lookups names (defaults, colors) with
  | Ok (defaults', colors') =>
      (length new <= length defaults)%nat /\
      defaults' = take (length defaults - length new) defaults /\
      (forall k n, new !! k = Some n -> d_get colors' n = reverse defaults !! k) /\
      (forall n, n ∉ new -> d_get colors' n = d_get colors n)
  | Err e => e = IndexError /\ (length defaults < length new)%nat
  end.
Proof.
  unfold colors_lookups. revert defaults colors.
  induction names as [|n names IH]; intros defaults colors; cbn [for_each uncoloured].
  { cbn [length]. split_and!; [lia| |done|done]. by rewrite Nat.sub_0_r, take_ge by lia. }
  destruct (decide (n ∈ d_keys colors)) as [Hn|Hn].
  - apply d_keys_spec in Hn as [c Hc]. unfold colors_lookup at 1. rewrite Hc. cbn [rbind]. apply IH.
  - assert (d_get colors n = None) as Hc.
    { destruct (d_get colors n) eqn:Hc; [|done]. exfalso. apply Hn, d_keys_spec. by eexists. }
    destruct defaults as [|color defaults _] using rev_ind.
    { unfold colors_lookup at 1. rewrite Hc. cbn [rbind]. split; [done|]. cbn. lia. }
    rewrite colors_lookup_new by done. cbn [rbind].
    specialize (IH defaults (d_set n color colors)). cbv zeta in IH.
    rewrite (uncoloured_ext _ (n :: d_keys colors)) in IH.
    2: { intros m. rewrite d_keys_set. set_solver. }
    set (new := uncoloured (n :: d_keys colors) names) in *. rewrite length_app. cbn [length].
    destruct (for_each _ names (defaults, d_set n color colors)) as [[defaults' colors']|e];
      [|destruct IH as [-> ?]; split; [done|lia]].
    destruct IH as (Hlen & -> & Hnew & Hold). rewrite reverse_snoc. split_and!; [lia| | |].
    + replace (length defaults + 1 - S (length new))%nat with (length defaults - length new)%nat by lia.
      by rewrite take_app_le by lia.
    + intros [|k] m Hk; cbn in Hk; [|by apply Hnew]. injection Hk as <-.
      rewrite Hold; [by rewrite d_get_set_eq|]. intros Hm. apply uncoloured_unknown in Hm. set_solver.
    + intros m Hm. apply not_elem_of_cons in Hm as [Hmn Hm]. rewrite Hold by done.
      by apply d_get_set_ne.
Qed.

End colors_facts.

Lemma colors_lookups_spec_witness :
  exists d c, colors_lookups (D := fun V => gmap pystr V) [$"a"; $"b"; $"a"] (default_colors, ∅) =
    Ok (d, c) /\ d_get (D := fun V => gmap pystr V) c $"b" = Some (1, 0, 1).
Proof.
  destruct (colors_lookups_spec (D := fun V => gmap pystr V) [$"a"; $"b"; $"a"] default_colors ∅)
    as (_ & _ & Hnew & _).
  do 2 eexists. split; [reflexivity|]. by apply (Hnew 1%nat $"b").
Defined.

(** A colour read from a file is 0 or 1 per component: the division by 255 is
    that of integers. *)
Example read_color_truncates :
  read_data (D := fun V => adict pystr V) [$"color tx #80ff7f"] =
  Ok (d_set $"tx" (0, 1, 0) d_empty, []).
Proof. vm_compute. reflexivity. Qed.
