(* ===== verification/GridSelect.v ===== *)
(** * [grid.py]: the scales, the range shown and its selection by the mouse

    The layout of [ScaleRenderer], [TopLegendRenderer] and [TimelinesRenderer],
    the state of [GraphicRenderer] and the handlers of [GtkGraphicRenderer]
    (what is drawn is in [GridDraw]).  Numbers are those of Python 2: integers, whose
    division truncates, and floats, taken as exact rationals.  An attribute that
    is not assigned yet is [None], and reading it raises. *)

From Stdlib Require Import QArith Qround Qminmax Lqa.
From S2P Require Import Prelude StateM Timeline.

Open Scope Z_scope.

(** ** Numbers *)

Inductive num := PInt (z : Z) | PFlt (q : Q).

Definition to_q (a : num) : Q := match a with PInt z => inject_Z z | PFlt q => q end.

Definition nadd (a b : num) : num :=
  match a, b with PInt x, PInt y => PInt (x + y) | _, _ => PFlt (to_q a + to_q b) end.
Definition nsub (a b : num) : num :=
  match a, b with PInt x, PInt y => PInt (x - y) | _, _ => PFlt (to_q a - to_q b) end.
Definition nmul (a b : num) : num :=
  match a, b with PInt x, PInt y => PInt (x * y) | _, _ => PFlt (to_q a * to_q b) end.

Definition neqb (a b : num) : bool := Qeq_bool (to_q a) (to_q b).
Definition nleb (a b : num) : bool := Qle_bool (to_q a) (to_q b).
Definition nltb (a b : num) : bool := negb (nleb b a).

Definition ndiv (a b : num) : py num :=
  if neqb b (PInt 0) then Err ZeroDivisionError
  else Ok (match a, b with PInt x, PInt y => PInt (x / y) | _, _ => PFlt (to_q a / to_q b) end).

(** [a % b] *)
Definition nmod (a b : num) : py num :=
  if neqb b (PInt 0) then Err ZeroDivisionError
  else Ok (match a, b with
           | PInt x, PInt y => PInt (x mod y)
           | _, _ => PFlt (to_q a - to_q b * inject_Z (Qfloor (to_q a / to_q b)))
           end).

(** [max], [min] and [abs]: of two equal numbers the first is returned. *)
Definition nmax (a b : num) : num := if nltb a b then b else a.
Definition nmin (a b : num) : num := if nltb b a then b else a.
Definition nabs (a : num) : num := if nltb a (PInt 0) then nsub (PInt 0) a else a.

(** The truth value of a number. *)
Definition truthy (a : num) : bool := negb (neqb a (PInt 0)).

(** ** [ScaleRenderer] *)

Record ScaleRenderer := {
  sc_top : bool;
  sc_bounds : option (num * num);
  sc_delta : option num;
  sc_width : option num;
  sc_height : option num
}.

Definition ScaleRenderer_init (top : bool) : ScaleRenderer :=
  {| sc_top := top; sc_bounds := None; sc_delta := None; sc_width := None; sc_height := None |}.

Definition sc_set_bounds (lo hi : num) (self : ScaleRenderer) : ScaleRenderer :=
  {| sc_top := sc_top self; sc_bounds := Some (lo, hi); sc_delta := sc_delta self;
     sc_width := sc_width self; sc_height := sc_height self |}.

Definition get_position (self : ScaleRenderer) (x : num) : py num :=
  let! '(lo, hi) := or_raise AttributeError (sc_bounds self) in
  let! w := or_raise AttributeError (sc_width self) in
  ndiv (nmul (nsub x lo) w) (nsub hi lo).

(** [closest = 1; while (closest*10) < data_delta: closest *= 10], in at most as
    many rounds as the delta has binary digits. *)
Definition closest_power (data_delta : num) : option Z :=
  while_loop (Z.to_nat (Z.log2_up (Z.max 1 (Qceiling (to_q data_delta)))))
    (fun closest => nltb (PInt (closest * 10)) data_delta) (fun closest => closest * 10) 1.

(** The delta between two marks of a scale of this length. *)
Definition scale_delta (data_delta : num) : py Z :=
  let! closest := or_raise OutOfFuel (closest_power data_delta) in
  let! ratio := ndiv data_delta (PInt closest) in
  Ok (if neqb ratio (PInt 0) then closest
      else if neqb ratio (PInt 1) then closest / 10
      else closest).

(** [max_text_height] is the height of a text of all the letters. *)
Definition sc_layout (max_text_height width : num) (self : ScaleRenderer) : py ScaleRenderer :=
  let! '(lo, hi) := or_raise AttributeError (sc_bounds self) in
  let! delta := scale_delta (nsub hi lo) in
  let! _ := nmod lo (PInt delta) in
  let! _ := nmod hi (PInt delta) in
  Ok {| sc_top := sc_top self; sc_bounds := sc_bounds self; sc_delta := Some (PInt delta);
        sc_width := Some width; sc_height := Some (nadd max_text_height (PInt 10)) |}.

(** ** The other layouts

    [extents s] is the width and the height of a text. *)

Section layouts.
Variable extents : pystr -> num * num.

Definition alphabet : pystr :=
  $"ABCDEFGHIJKLMNOPQRSTUVWXYZabcedefghijklmnopqrstuvwxyz0123456789".

Definition max_text_height : num := snd (extents alphabet).

(** The place of one legend: [line_height], [total_height], [line_used]. *)
Definition place_legend (padding width : num) (st : num * num * num) (legend : pystr)
  : num * num * num :=
  let '(line_height, total_height, line_used) := st in
  let '(t_width, t_height) := extents legend in
  let item_width := nadd (nadd (nadd padding padding) t_width) padding in
  let item_height := nadd t_height padding in
  let line_height := if nltb line_height item_height then item_height else line_height in
  if nltb width (nadd line_used item_width) then
    (line_height, nadd total_height line_height, nadd padding item_width)
  else (line_height, total_height, nadd line_used item_width).

(** The height of the legend laid out in this width. *)
Definition legend_height (padding : num) (legends : list pystr) (width : num) : num :=
  let '(line_height, total_height, _) :=
    foldl (place_legend padding width) (PInt 0, padding, padding) legends in
  nadd total_height line_height.

Definition widest (w : num) (names : list pystr) : num :=
  foldl (fun w name => nmax w (fst (extents name))) w names.

(** The series of a time line, in the order [layout] visits them. *)
Definition series_names (tl : Timeline) : list pystr :=
  (rg_name <$> tl_ranges tl) ++ (te_name <$> tl_event_int tl) ++ (te_name <$> tl_event_str tl).

Record data_layout := { left_width : num; right_width : num; data_height : num }.

(** [TimelinesRenderer.layout] *)
Definition timelines_layout (padding : num) (timelines : Timelines) : data_layout :=
  let left_width := widest (PInt 0) (tl_name <$> timelines) in
  let right_width := widest (PInt 0) (timelines ≫= series_names) in
  let left_n_lines := PInt (py_len timelines) in
  let range_n := PInt (py_len (timelines ≫= tl_ranges)) in
  let event_n := PInt (py_len (timelines ≫= tl_event_int) + py_len (timelines ≫= tl_event_str)) in
  let left_height :=
    nadd (nmul left_n_lines max_text_height) (nmul (nsub left_n_lines (PInt 1)) padding) in
  let right_n_lines := nadd range_n event_n in
  let right_height :=
    nadd (nmul (nsub right_n_lines (PInt 1)) padding) (nmul right_n_lines max_text_height) in
  let right_data_height :=
    nadd (nadd (nmul event_n (nadd max_text_height (PInt 5))) (nmul range_n (PInt 10)))
      (nmul (nsub right_n_lines (PInt 1)) padding) in
  let height := nmax (nmax left_height right_height) right_data_height in
  {| left_width := left_width; right_width := right_width; data_height := nadd height padding |}.

(** [get_data_x_start] *)
Definition get_data_x_start (padding : num) (d : data_layout) : py num :=
  let! half := ndiv padding (PInt 2) in
  Ok (nadd (nadd (nadd (nadd half (left_width d)) padding) (right_width d)) half).

End layouts.

(** ** [GraphicRenderer] and [GtkGraphicRenderer]

    The handlers run in the main loop of GTK, which goes on after an exception:
    a handler keeps what it has assigned before it raises. *)

Record GraphicRenderer := {
  g_start : num;
  g_end : num;
  g_mid : ScaleRenderer;
  g_bot : ScaleRenderer;
  g_width : num;
  g_height : num;
  g_range : option (num * num);
  g_legend : option num;
  g_data : option data_layout
}.

Record gui := {
  graphic : GraphicRenderer;
  moving_left : bool;
  moving_right : num;
  moving_both : bool;
  moving_top : bool;
  moving_left_cur : option num;
  moving_right_cur : option num;
  moving_both_start : option num;
  moving_both_cur : option num;
  moving_top_start : option num;
  moving_top_cur : option num;
  gtk_width : option num;
  gtk_height : option num;
  force_full_redraw : bool
}.

(** A computation on the window. *)
Abbreviation M := (stM gui).

(** Assignments to the attributes. *)
Definition with_graphic (f : GraphicRenderer -> GraphicRenderer) (s : gui) : gui :=
  {| graphic := f (graphic s); moving_left := moving_left s; moving_right := moving_right s;
     moving_both := moving_both s; moving_top := moving_top s; moving_left_cur := moving_left_cur s;
     moving_right_cur := moving_right_cur s; moving_both_start := moving_both_start s;
     moving_both_cur := moving_both_cur s; moving_top_start := moving_top_start s;
     moving_top_cur := moving_top_cur s; gtk_width := gtk_width s; gtk_height := gtk_height s;
     force_full_redraw := force_full_redraw s |}.

Definition with_flags (left : bool) (right : num) (both top : bool) (s : gui) : gui :=
  {| graphic := graphic s; moving_left := left; moving_right := right;
     moving_both := both; moving_top := top; moving_left_cur := moving_left_cur s;
     moving_right_cur := moving_right_cur s; moving_both_start := moving_both_start s;
     moving_both_cur := moving_both_cur s; moving_top_start := moving_top_start s;
     moving_top_cur := moving_top_cur s; gtk_width := gtk_width s; gtk_height := gtk_height s;
     force_full_redraw := force_full_redraw s |}.

Definition set_moving_left (b : bool) (s : gui) : gui :=
  with_flags b (moving_right s) (moving_both s) (moving_top s) s.
Definition set_moving_right (v : num) (s : gui) : gui :=
  with_flags (moving_left s) v (moving_both s) (moving_top s) s.
Definition set_moving_both (b : bool) (s : gui) : gui :=
  with_flags (moving_left s) (moving_right s) b (moving_top s) s.
Definition set_moving_top (b : bool) (s : gui) : gui :=
  with_flags (moving_left s) (moving_right s) (moving_both s) b s.

Definition with_cursors (left right both_start both_cur top_start top_cur : option num) (s : gui) : gui :=
  {| graphic := graphic s; moving_left := moving_left s; moving_right := moving_right s;
     moving_both := moving_both s; moving_top := moving_top s; moving_left_cur := left;
     moving_right_cur := right; moving_both_start := both_start; moving_both_cur := both_cur;
     moving_top_start := top_start; moving_top_cur := top_cur; gtk_width := gtk_width s;
     gtk_height := gtk_height s; force_full_redraw := force_full_redraw s |}.

Definition set_moving_left_cur (x : num) (s : gui) : gui :=
  with_cursors (Some x) (moving_right_cur s) (moving_both_start s) (moving_both_cur s)
    (moving_top_start s) (moving_top_cur s) s.
Definition set_moving_right_cur (x : num) (s : gui) : gui :=
  with_cursors (moving_left_cur s) (Some x) (moving_both_start s) (moving_both_cur s)
    (moving_top_start s) (moving_top_cur s) s.
Definition set_moving_both_start (x : num) (s : gui) : gui :=
  with_cursors (moving_left_cur s) (moving_right_cur s) (Some x) (moving_both_cur s)
    (moving_top_start s) (moving_top_cur s) s.
Definition set_moving_both_cur (x : num) (s : gui) : gui :=
  with_cursors (moving_left_cur s) (moving_right_cur s) (moving_both_start s) (Some x)
    (moving_top_start s) (moving_top_cur s) s.
Definition set_moving_top_start (x : num) (s : gui) : gui :=
  with_cursors (moving_left_cur s) (moving_right_cur s) (moving_both_start s) (moving_both_cur s)
    (Some x) (moving_top_cur s) s.
Definition set_moving_top_cur (x : num) (s : gui) : gui :=
  with_cursors (moving_left_cur s) (moving_right_cur s) (moving_both_start s) (moving_both_cur s)
    (moving_top_start s) (Some x) s.

Definition set_size (w h : num) (s : gui) : gui :=
  {| graphic := graphic s; moving_left := moving_left s; moving_right := moving_right s;
     moving_both := moving_both s; moving_top := moving_top s; moving_left_cur := moving_left_cur s;
     moving_right_cur := moving_right_cur s; moving_both_start := moving_both_start s;
     moving_both_cur := moving_both_cur s; moving_top_start := moving_top_start s;
     moving_top_cur := moving_top_cur s; gtk_width := Some w; gtk_height := Some h;
     force_full_redraw := force_full_redraw s |}.

Definition set_redraw (s : gui) : gui :=
  {| graphic := graphic s; moving_left := moving_left s; moving_right := moving_right s;
     moving_both := moving_both s; moving_top := moving_top s; moving_left_cur := moving_left_cur s;
     moving_right_cur := moving_right_cur s; moving_both_start := moving_both_start s;
     moving_both_cur := moving_both_cur s; moving_top_start := moving_top_start s;
     moving_top_cur := moving_top_cur s; gtk_width := gtk_width s; gtk_height := gtk_height s;
     force_full_redraw := true |}.

(** The attributes of the renderer. *)
Definition g_set_range (l r : num) (g : GraphicRenderer) : GraphicRenderer :=
  {| g_start := g_start g; g_end := g_end g; g_mid := sc_set_bounds l r (g_mid g); g_bot := g_bot g;
     g_width := g_width g; g_height := g_height g; g_range := Some (l, r); g_legend := g_legend g;
     g_data := g_data g |}.

Definition g_set_layout (w h legend : num) (d : data_layout) (g : GraphicRenderer) : GraphicRenderer :=
  {| g_start := g_start g; g_end := g_end g; g_mid := g_mid g; g_bot := g_bot g;
     g_width := w; g_height := h; g_range := g_range g; g_legend := Some legend; g_data := Some d |}.

Definition g_set_scales (mid bot : ScaleRenderer) (g : GraphicRenderer) : GraphicRenderer :=
  {| g_start := g_start g; g_end := g_end g; g_mid := mid; g_bot := bot;
     g_width := g_width g; g_height := g_height g; g_range := g_range g; g_legend := g_legend g;
     g_data := g_data g |}.

(** [float(start)], [float(end)] *)
Definition GraphicRenderer_init (start end_ : num) : GraphicRenderer :=
  {| g_start := PFlt (to_q start); g_end := PFlt (to_q end_); g_mid := ScaleRenderer_init true;
     g_bot := sc_set_bounds start end_ (ScaleRenderer_init false); g_width := PInt 1;
     g_height := PInt 1; g_range := None; g_legend := None; g_data := None |}.

Definition gui_init (g : GraphicRenderer) : gui :=
  {| graphic := g; moving_left := false; moving_right := PInt 0; moving_both := false;
     moving_top := false; moving_left_cur := None; moving_right_cur := None;
     moving_both_start := None; moving_both_cur := None; moving_top_start := None;
     moving_top_cur := None; gtk_width := None; gtk_height := None; force_full_redraw := true |}.

Section handlers.
Variable extents : pystr -> num * num.
(** The names in the legend, and the time lines. *)
Variable legends : list pystr.
Variable timelines : Timelines.

Definition padding : num := PInt 10.

(** *** The renderer *)

Definition layout (width height : num) : M () :=
  mset (with_graphic (g_set_layout width height (legend_height extents padding legends width)
    (timelines_layout extents padding timelines))) >>>
  do! x_start := mlift (get_data_x_start padding (timelines_layout extents padding timelines)) in
  do! g := mget graphic in
  do! mid := mlift (sc_layout (max_text_height extents) (nsub width x_start) (g_mid g)) in
  mset (with_graphic (g_set_scales mid (g_bot g))) >>>
  do! bot := mlift (sc_layout (max_text_height extents) width (g_bot g)) in
  mset (with_graphic (g_set_scales mid bot)).

Definition set_range (start end_ : num) : M () :=
  do! g := mget graphic in
  mset (with_graphic (g_set_range (nmax (g_start g) (nmin start end_)) (nmin (g_end g) (nmax start end_)))) >>>
  layout (g_width g) (g_height g).

Definition get_range : M (num * num) := mattr (fun s => g_range (graphic s)).

Definition data_x_start : M num :=
  do! d := mattr (fun s => g_data (graphic s)) in
  mlift (get_data_x_start padding d).

Definition get_data_rectangle : M (num * num * num * num) :=
  do! y_start := mattr (fun s => g_legend (graphic s)) in
  do! x_start := data_x_start in
  do! width := mget (fun s => g_width (graphic s)) in
  do! d := mattr (fun s => g_data (graphic s)) in
  mret (x_start, y_start, nsub width x_start, data_height d).

Definition scale_data (x : num) : M num :=
  do! x_start := data_x_start in
  do! width := mget (fun s => g_width (graphic s)) in
  do! q := mlift (ndiv x (nsub width x_start)) in
  do! '(l, r) := get_range in
  mret (nmul q (nsub r l)).

Definition get_selection_rectangle : M (num * num * num * num) :=
  do! legend := mattr (fun s => g_legend (graphic s)) in
  do! d := mattr (fun s => g_data (graphic s)) in
  do! mid_h := mattr (fun s => sc_height (g_mid (graphic s))) in
  do! bot_h := mattr (fun s => sc_height (g_bot (graphic s))) in
  do! '(l, r) := get_range in
  do! bot := mget (fun s => g_bot (graphic s)) in
  do! x_start := mlift (get_position bot l) in
  do! x_end := mlift (get_position bot r) in
  mret (x_start, nadd (nadd (nadd legend (data_height d)) mid_h) (PInt 20), nsub x_end x_start,
        nadd bot_h (PInt 20)).

Definition scale_selection (x : num) : M num :=
  do! g := mget graphic in
  do! q := mlift (ndiv x (g_width g)) in
  mret (nmul q (nsub (g_end g) (g_start g))).

(** *** The handlers *)

Definition set_smaller_zoom : M () :=
  do! '(start, end_) := get_range in
  set_range start (nadd start (nmul (nsub end_ start) (PInt 2))) >>>
  mset set_redraw.

Definition set_bigger_zoom : M () :=
  do! '(start, end_) := get_range in
  do! half := mlift (ndiv (nsub end_ start) (PInt 2)) in
  set_range start (nadd start half) >>>
  mset set_redraw.

Definition near (a b : num) : bool := nltb (nabs (nsub a b)) (PInt 5).

(** [y < v < y + height], and the same of [x]. *)
Definition strictly_in (v y height : num) : bool := nltb y v && nltb v (nadd y height).

Definition button_press (ex ey : num) : M bool :=
  do! '(x, y, width, height) := get_selection_rectangle in
  do! '(d_x, d_y, d_width, d_height) := get_data_rectangle in
  if strictly_in ey y height && near ex x then mset (set_moving_left true) >>> mret true
  else if strictly_in ey y height && near ex (nadd x width) then
    mset (set_moving_right (PInt 1)) >>> mret true
  else if strictly_in ey y height && strictly_in ex x width then
    mset (fun s => set_moving_both_cur ex (set_moving_both_start ex (set_moving_both true s))) >>>
    mret true
  else if strictly_in ey d_y d_height && strictly_in ex d_x d_width then
    mset (fun s => set_moving_top_cur ex (set_moving_top_start ex (set_moving_top true s))) >>>
    mret true
  else mret false.

Definition button_release (ex ey : num) : M bool :=
  do! s := mget id in
  if moving_left s then
    mset (set_moving_left false) >>>
    do! cur := mattr moving_left_cur in
    do! lo := scale_selection cur in
    do! '(_, hi) := get_range in
    set_range lo hi >>> mset set_redraw >>> mret true
  else if truthy (moving_right s) then
    mset (set_moving_right (PInt 0)) >>>
    do! cur := mattr moving_right_cur in
    do! hi := scale_selection cur in
    do! '(lo, _) := get_range in
    set_range lo hi >>> mset set_redraw >>> mret true
  else if moving_both s then
    mset (set_moving_both false) >>>
    do! cur := mattr moving_both_cur in
    do! start := mattr moving_both_start in
    do! delta := scale_selection (nsub cur start) in
    do! '(lo, hi) := get_range in
    set_range (nadd lo delta) (nadd hi delta) >>> mset set_redraw >>> mret true
  else if moving_top s then mset (set_moving_top false) >>> mret false
  else mret false.

(** The last branches, which choose the shape of the pointer, are their
    condition. *)
Definition motion_notify (ex ey : num) : M bool :=
  do! '(x, y, width, height) := get_selection_rectangle in
  do! s := mget id in
  if moving_left s then
    (if nleb ex (PInt 0) then mset (set_moving_left_cur (PInt 0))
     else if nleb (nadd x width) ex then mset (set_moving_left_cur (nadd x width))
     else mset (set_moving_left_cur ex)) >>>
    do! _w := mattr gtk_width in
    mret true
  else if truthy (moving_right s) then
    do! w := mattr gtk_width in
    (if nleb w ex then mset (set_moving_right w)
     else if nltb ex x then mset (set_moving_right_cur x)
     else mset (set_moving_right_cur ex)) >>>
    mret true
  else if moving_both s then
    do! w := mattr gtk_width in
    do! start := mattr moving_both_start in
    let cur_e := nsub w (nsub (nadd x width) start) in
    let cur_s := nsub start x in
    (if nltb ex cur_s then mset (set_moving_both_cur cur_s)
     else if nltb cur_e ex then mset (set_moving_both_cur cur_e)
     else mset (set_moving_both_cur ex)) >>>
    mret true
  else if moving_top s then
    mset (set_moving_top_cur ex) >>>
    do! start := mattr moving_top_start in
    do! delta := scale_data (nsub start ex) in
    do! '(lo, hi) := get_range in
    set_range (nadd lo delta) (nadd hi delta) >>>
    mset set_redraw >>> mset (set_moving_top_start ex) >>>
    mret true
  else
    do! '(d_x, d_y, d_width, d_height) := get_data_rectangle in
    mret ((strictly_in ey y height &&
             (near ex x || near ex (nadd x width) || strictly_in ex x width)) ||
          (strictly_in ey d_y d_height && strictly_in ex d_x d_width)).

Definition size_allocate (w h : num) : M () :=
  mset (set_size w h) >>> layout w h >>> mset set_redraw.

(** What may happen to the window. *)
Inductive event :=
| Press (ex ey : num)
| Release (ex ey : num)
| Motion (ex ey : num)
| Allocate (w h : num)
| SmallerZoom
| BiggerZoom.

(** The state after the event, whether the handler raised or not. *)
Definition handle (ev : event) (s : gui) : gui :=
  match ev with
  | Press ex ey => fst (button_press ex ey s)
  | Release ex ey => fst (button_release ex ey s)
  | Motion ex ey => fst (motion_notify ex ey s)
  | Allocate w h => fst (size_allocate w h s)
  | SmallerZoom => fst (set_smaller_zoom s)
  | BiggerZoom => fst (set_bigger_zoom s)
  end.

(** [main], from the bounds of the time lines: the range shown first is in the
    middle of the length. *)
Definition start_gui (lower_bound upper_bound : num) : gui * py () :=
  (do! range_mid := mlift (ndiv (nsub upper_bound lower_bound) (PInt 2)) in
   do! range_width := mlift (ndiv (nsub upper_bound lower_bound) (PInt 10)) in
   do! half := mlift (ndiv range_width (PInt 2)) in
   set_range (nsub range_mid half) (nadd range_mid half))
  (gui_init (GraphicRenderer_init lower_bound upper_bound)).

End handlers.

(** ** Lemmas on numbers *)

Lemma nleb_spec a b : nleb a b = true <-> (to_q a <= to_q b)%Q.
Proof. apply Qle_bool_iff. Qed.

Lemma nltb_spec a b : nltb a b = true <-> (to_q a < to_q b)%Q.
Proof.
  unfold nltb, nleb. rewrite negb_true_iff. destruct (Qle_bool (to_q b) (to_q a)) eqn:E.
  - apply Qle_bool_iff in E. split; [done|]. intros H. lra.
  - split; [|done]. intros _. apply Qnot_le_lt. intros H%Qle_bool_iff. congruence.
Qed.

(** A divisor written in the code is not zero. *)
Lemma ndiv_const a b : neqb b (PInt 0) = false -> exists q, ndiv a b = Ok q.
Proof. unfold ndiv. intros ->. eauto. Qed.

Lemma nltb_false a b : nltb a b = false <-> (to_q b <= to_q a)%Q.
Proof. unfold nltb. rewrite negb_false_iff. apply nleb_spec. Qed.

Lemma nmax_spec a b :
  (to_q a <= to_q (nmax a b))%Q /\ (to_q b <= to_q (nmax a b))%Q /\ (nmax a b = a \/ nmax a b = b).
Proof.
  unfold nmax. destruct (nltb a b) eqn:E; [apply nltb_spec in E|apply nltb_false in E];
    split_and!; auto; lra.
Qed.

Lemma nmin_spec a b :
  (to_q (nmin a b) <= to_q a)%Q /\ (to_q (nmin a b) <= to_q b)%Q /\ (nmin a b = a \/ nmin a b = b).
Proof.
  unfold nmin. destruct (nltb b a) eqn:E; [apply nltb_spec in E|apply nltb_false in E];
    split_and!; auto; lra.
Qed.

(** ** What every handler keeps *)

(** The length of the data keeps its bounds, the range shown is cut to them, and
    the two scales measure what they stand for.  A range that ends before it starts is
    past an end of the data. *)
Definition shows (lo hi : num) (s : gui) : Prop :=
  g_start (graphic s) = PFlt (to_q lo) /\ g_end (graphic s) = PFlt (to_q hi) /\
  sc_bounds (g_bot (graphic s)) = Some (lo, hi) /\
  exists l r, g_range (graphic s) = Some (l, r) /\ sc_bounds (g_mid (graphic s)) = Some (l, r) /\
    (to_q lo <= to_q l)%Q /\ (to_q r <= to_q hi)%Q /\
    ((to_q l <= to_q r)%Q \/ (to_q l == to_q lo)%Q /\ (to_q r < to_q lo)%Q \/
     (to_q r == to_q hi)%Q /\ (to_q hi < to_q l)%Q).

Lemma sc_layout_bounds h w sc sc' : sc_layout h w sc = Ok sc' -> sc_bounds sc' = sc_bounds sc.
Proof.
  unfold sc_layout. destruct (sc_bounds sc) as [[lo hi]|]; [|done]. cbn [or_raise rbind].
  destruct (scale_delta _); [|done]. cbn [rbind]. do 2 (destruct (nmod _ _); [|done]; cbn [rbind]).
  by intros [= <-].
Qed.

(** A computation that only reads the renderer, which the flags of a gesture
    leave alone. *)
Definition reads {A} (m : M A) : Prop :=
  forall s s', graphic s' = graphic s -> m s' = (s', snd (m s)).

Lemma reads_bind {A B} (m : M A) (k : A -> M B) :
  reads m -> (forall a, reads (k a)) -> reads (gbind m k).
Proof.
  intros Hm Hk s s' E. unfold gbind. rewrite (Hm s s' E), (Hm s s eq_refl).
  destruct (snd (m s)); [|done]. by apply Hk.
Qed.

Lemma reads_get {A} (f : GraphicRenderer -> A) : reads (mget (fun s => f (graphic s))).
Proof. intros s s' E. unfold mget. by rewrite E. Qed.

Lemma reads_attr {A} (f : GraphicRenderer -> option A) : reads (mattr (fun s => f (graphic s))).
Proof. intros s s' E. unfold mattr. by rewrite E. Qed.

Lemma reads_lift {A} (r : py A) : reads (mlift r).
Proof. done. Qed.

Lemma reads_ret {A} (a : A) : reads (mret a).
Proof. done. Qed.

Ltac read := repeat match goal with
  | |- reads (gbind _ _) => apply reads_bind; [|intros ?]
  | |- reads (let '_ := ?p in _) => destruct p
  | |- reads (mret _) => apply reads_ret
  | |- reads (mlift _) => apply reads_lift
  | |- reads (mattr (fun s => ?f (graphic s))) => apply reads_attr
  | |- reads (mattr _) => apply (reads_attr (fun g => sc_height (g_mid g)))
  | |- reads (mattr _) => apply (reads_attr (fun g => sc_height (g_bot g)))
  | |- reads (mget _) => apply reads_get
  end.

Lemma reads_selection_rectangle : reads get_selection_rectangle.
Proof. unfold get_selection_rectangle, get_range. read. Qed.

Lemma reads_scale_selection x : reads (scale_selection x).
Proof. unfold scale_selection. read. apply (reads_get id). Qed.

Lemma to_q_nadd a b : (to_q (nadd a b) == to_q a + to_q b)%Q.
Proof. destruct a, b; cbn; [unfold Qeq; cbn; lia|done..]. Qed.

Lemma to_q_nsub a b : (to_q (nsub a b) == to_q a - to_q b)%Q.
Proof. destruct a, b; cbn; [unfold Qeq; cbn; lia|done..]. Qed.

Section within.
Variable extents : pystr -> num * num.
Variable legends : list pystr.
Variable timelines : Timelines.
Variables lo hi : num.
Hypothesis lo_hi : (to_q lo <= to_q hi)%Q.

Notation set_range := (set_range extents legends timelines).
Notation layout := (layout extents legends timelines).
Notation handle := (handle extents legends timelines).

(** [layout] changes the sizes only, also where it raises. *)
Lemma layout_keeps w h s (g := graphic s) (g' := graphic (fst (layout w h s))) :
  g_start g' = g_start g /\ g_end g' = g_end g /\ g_range g' = g_range g /\
  sc_bounds (g_mid g') = sc_bounds (g_mid g) /\ sc_bounds (g_bot g') = sc_bounds (g_bot g).
Proof.
  subst g g'. unfold GridSelect.layout, gbind, mset, mget, mlift. cbn.
  destruct (get_data_x_start _ _); [|done]. destruct (sc_layout _ _ (g_mid _)) eqn:E; [|done].
  apply sc_layout_bounds in E. cbn.
  destruct (sc_layout _ _ (g_bot _)) eqn:E'; [|done]. by apply sc_layout_bounds in E'.
Qed.

Lemma layout_shows w h : preserves (shows lo hi) (layout w h).
Proof.
  intros s (Ha & Hb & Hbot & l & r & Hr & Hm & Hin). destruct (layout_keeps w h s) as (E1 & E2 & E3 & E4 & E5).
  unfold shows. rewrite E1, E2, E3, E4, E5. eauto 10.
Qed.

(** The range [set_range] assigns, also where the layout raises. *)
Lemma set_range_range x y s :
  g_range (graphic (fst (set_range x y s))) =
  Some (nmax (g_start (graphic s)) (nmin x y), nmin (g_end (graphic s)) (nmax x y)).
Proof.
  unfold GridSelect.set_range. cbn [gbind mget mset].
  destruct (layout_keeps (g_width (graphic s)) (g_height (graphic s))
    (with_graphic (g_set_range (nmax (g_start (graphic s)) (nmin x y))
                     (nmin (g_end (graphic s)) (nmax x y))) s)) as (_ & _ & E & _ & _).
  exact E.
Qed.

Lemma set_range_from x y s :
  g_start (graphic s) = PFlt (to_q lo) -> g_end (graphic s) = PFlt (to_q hi) ->
  sc_bounds (g_bot (graphic s)) = Some (lo, hi) -> shows lo hi (fst (set_range x y s)).
Proof.
  intros Ha Hb Hbot. unfold GridSelect.set_range. cbn [gbind mget mset].
  apply layout_shows. unfold shows. cbn. rewrite Ha, Hb, Hbot. do 3 (split; [done|]).
  do 2 eexists. split; [done|]. split; [done|].
  destruct (nmin_spec x y) as (? & ? & _), (nmax_spec x y) as (? & ? & _).
  destruct (nmax_spec (PFlt (to_q lo)) (nmin x y)) as (? & ? & [E1|E1]),
    (nmin_spec (PFlt (to_q hi)) (nmax x y)) as (? & ? & [E2|E2]);
    rewrite ?E1, ?E2 in *; cbn [to_q] in *; split_and!; try done.
  - by left.
  - destruct (Qlt_le_dec (to_q (nmax x y)) (to_q lo)); [right; left; split; [lra|done]|by left].
  - destruct (Qlt_le_dec (to_q hi) (to_q (nmin x y))); [right; right; split; [lra|done]|by left].
  - left. lra.
Qed.

Lemma set_range_shows x y : preserves (shows lo hi) (set_range x y).
Proof. intros s (Ha & Hb & Hbot & _). by apply set_range_from. Qed.

Ltac follow_shows := follow; lazymatch goal with
  | |- preserves _ (GridSelect.set_range _ _ _ _ _) => apply set_range_shows
  | |- preserves _ (GridSelect.layout _ _ _ _ _) => apply layout_shows
  | |- _ => assumption
  end.

Lemma handle_shows ev s : shows lo hi s -> shows lo hi (handle ev s).
Proof.
  revert s. assert (forall A (m : M A), preserves (shows lo hi) m ->
    forall s, shows lo hi s -> shows lo hi (fst (m s))) as Hm by done.
  destruct ev; apply Hm; clear Hm.
  - unfold button_press, get_selection_rectangle, get_data_rectangle, get_range, data_x_start.
    follow_shows.
  - unfold button_release, scale_selection, get_range. follow_shows.
  - unfold motion_notify, get_selection_rectangle, get_data_rectangle, scale_data, get_range, data_x_start.
    follow_shows.
  - unfold size_allocate. follow_shows.
  - unfold set_smaller_zoom, get_range. follow_shows.
  - unfold set_bigger_zoom, get_range. follow_shows.
Qed.

Lemma start_shows : shows lo hi (fst (start_gui extents legends timelines lo hi)).
Proof.
  unfold start_gui, gbind at 1 2 3, mlift.
  repeat lazymatch goal with |- context [ndiv ?a ?b] => destruct (ndiv_const a b) as [? ->]; [done|] end.
  by apply set_range_from.
Qed.

(** *** Ranges that lie within the data *)

(** The range shown is not empty and lies within the data. *)
Definition ordered (s : gui) : Prop :=
  exists l r, g_range (graphic s) = Some (l, r) /\
    (to_q lo <= to_q l)%Q /\ (to_q l <= to_q r)%Q /\ (to_q r <= to_q hi)%Q.

(** The event moves the range as a whole: the end of a drag of the selection, a step of a
    drag of the data. *)
Definition drags (ev : event) (s : gui) : bool :=
  match ev with
  | Release _ _ => negb (moving_left s || truthy (moving_right s)) && moving_both s
  | Motion _ _ => negb (moving_left s || truthy (moving_right s) || moving_both s) && moving_top s
  | _ => false
  end.

Fixpoint dragged (evs : list event) (s : gui) : bool :=
  match evs with
  | [] => false
  | ev :: evs => drags ev s || dragged evs (handle ev s)
  end.

(** The ends [x] and [y] of a range that has a point in common with the data. *)
Definition meets (x y : num) : Prop :=
  (to_q (nmin x y) <= to_q hi)%Q /\ (to_q lo <= to_q (nmax x y))%Q.

Lemma meets_end x y :
  (to_q lo <= to_q x <= to_q hi)%Q \/ (to_q lo <= to_q y <= to_q hi)%Q -> meets x y.
Proof.
  destruct (nmin_spec x y) as (? & ? & _), (nmax_spec x y) as (? & ? & _).
  intros [[]|[]]; split; lra.
Qed.

Definition within (s : gui) : Prop := shows lo hi s /\ ordered s.

Lemma set_range_ordered x y s :
  g_start (graphic s) = PFlt (to_q lo) -> g_end (graphic s) = PFlt (to_q hi) -> meets x y ->
  ordered (fst (set_range x y s)).
Proof.
  intros Ha Hb [H1 H2]. do 2 eexists. rewrite set_range_range, Ha, Hb. split; [done|].
  destruct (nmin_spec x y) as (? & ? & _), (nmax_spec x y) as (? & ? & _).
  destruct (nmax_spec (PFlt (to_q lo)) (nmin x y)) as (? & ? & [E1|E1]), (nmin_spec (PFlt (to_q hi)) (nmax x y)) as (? & ? & [E2|E2]);
    rewrite ?E1, ?E2 in *; cbn [to_q] in *; split_and!; lra.
Qed.

Lemma set_range_within x y : meets x y -> preserves within (set_range x y).
Proof.
  intros Hm s [Hs _]. split; [by apply set_range_shows|]. destruct Hs as (? & ? & _). by apply set_range_ordered.
Qed.

Lemma layout_within w h : preserves within (layout w h).
Proof.
  intros s [Hs (l & r & E & H)]. split; [by apply layout_shows|]. exists l, r. split; [|done].
  destruct (layout_keeps w h s) as (_ & _ & E' & _). etransitivity; [exact E'|done].
Qed.

Lemma get_range_within {A} (k : num * num -> M A) :
  (forall l r, (to_q lo <= to_q l <= to_q hi)%Q -> (to_q lo <= to_q r <= to_q hi)%Q -> preserves within (k (l, r))) ->
  preserves within (gbind get_range k).
Proof.
  intros Hk s [Hs (l & r & E & ? & ? & ?)]. unfold gbind, get_range, mattr. rewrite E. cbn.
  apply Hk; [split; lra..|]. split; [done|]. exists l, r. by split_and!.
Qed.

Ltac follow_within :=
  repeat lazymatch goal with
  | |- preserves _ (gbind get_range _) => apply get_range_within; intros ? ? ? ?
  | |- preserves _ get_range => unfold get_range
  | |- preserves _ (GridSelect.set_range _ _ _ _ _) =>
      apply set_range_within, meets_end; first [by left|by right]
  | |- preserves _ (GridSelect.layout _ _ _ _ _) => apply layout_within
  | |- preserves _ _ => follow_step
  end; try done.

Lemma handle_within ev s : within s -> drags ev s = false -> within (handle ev s).
Proof.
  intros Hs Hd. assert (forall A (m : M A), preserves within m -> within (fst (m s))) as Hm by (intros A m H; by apply H).
  destruct ev as [ex ey|ex ey|ex ey|w h| |]; cbn [GridSelect.handle].
  - apply Hm. unfold button_press, get_selection_rectangle, get_data_rectangle, data_x_start. follow_within.
  - unfold button_release, gbind at 1, mget, id. cbn [drags] in Hd.
    destruct (moving_left s), (truthy (moving_right s)), (moving_both s); try discriminate Hd;
      apply Hm; cbv beta iota; unfold scale_selection; follow_within.
  - unfold motion_notify. cbn [drags] in Hd.
    unfold gbind at 1. rewrite (reads_selection_rectangle s s eq_refl).
    destruct (snd (get_selection_rectangle s)) as [[[[x y] width] height]|]; [|done].
    unfold gbind at 1, mget, id.
    destruct (moving_left s), (truthy (moving_right s)), (moving_both s), (moving_top s); try discriminate Hd;
      apply Hm; cbv beta iota; unfold get_data_rectangle, data_x_start; follow_within.
  - apply Hm. unfold size_allocate. follow_within.
  - apply Hm. unfold set_smaller_zoom. follow_within.
  - apply Hm. unfold set_bigger_zoom. follow_within.
Qed.

Lemma undragged_within evs s :
  within s -> dragged evs s = false -> within (foldl (fun s ev => handle ev s) s evs).
Proof.
  revert s. induction evs as [|ev evs IH]; intros s Hs Hd; [done|]. cbn in Hd.
  apply orb_false_iff in Hd as [Hd1 Hd2]. apply IH; [by apply handle_within|done].
Qed.

Lemma nmax_Qmax a b : (to_q (nmax a b) == Qmax (to_q a) (to_q b))%Q.
Proof.
  destruct (nmax_spec a b) as (H1 & H2 & [E|E]); rewrite E in *;
    [rewrite Q.max_l by done|rewrite Q.max_r by done]; done.
Qed.

Lemma nmin_Qmin a b : (to_q (nmin a b) == Qmin (to_q a) (to_q b))%Q.
Proof.
  destruct (nmin_spec a b) as (H1 & H2 & [E|E]); rewrite E in *;
    [rewrite Q.min_l by done|rewrite Q.min_r by done]; done.
Qed.

(** The range shown is that of [l] and [r] shifted by some [d] and cut to the data. *)
Definition shifted (l r : num) (s : gui) : Prop :=
  exists d l' r', g_range (graphic s) = Some (l', r') /\
    (to_q l' == Qmax (to_q lo) (Qmin (to_q (nadd l d)) (to_q (nadd r d))))%Q /\
    (to_q r' == Qmin (to_q hi) (Qmax (to_q (nadd l d)) (to_q (nadd r d))))%Q.

Definition still (l r : num) (s : gui) : Prop :=
  g_start (graphic s) = PFlt (to_q lo) /\ g_end (graphic s) = PFlt (to_q hi) /\ g_range (graphic s) = Some (l, r).

(** A computation that shifts the range, if it changes it. *)
Definition moved (l r : num) (s : gui) : Prop := still l r s \/ shifted l r s.
Definition moves (l r : num) {A} (m : M A) : Prop :=
  forall s, still l r s -> moved l r (fst (m s)).

Lemma moves_bind l r {A B} (m : M A) (k : A -> M B) :
  preserves (still l r) m -> (forall a, moves l r (k a)) -> moves l r (gbind m k).
Proof.
  intros Hm Hk s Hs. specialize (Hm s Hs). unfold gbind. destruct (m s) as [s' [a|e]]; [by apply Hk|by left].
Qed.

Lemma moves_get_range l r {A} (k : num * num -> M A) : moves l r (k (l, r)) -> moves l r (gbind get_range k).
Proof. intros Hk s Hs. pose proof Hs as (_ & _ & E). unfold gbind, get_range, mattr. rewrite E. by apply Hk. Qed.

Lemma moves_set_range l r d {A} (k : () -> M A) :
  (forall a, preserves (shifted l r) (k a)) -> moves l r (gbind (set_range (nadd l d) (nadd r d)) k).
Proof.
  intros Hk s (Ha & Hb & _). right.
  assert (shifted l r (fst (set_range (nadd l d) (nadd r d) s))) as Hs.
  { exists d. do 2 eexists. rewrite set_range_range, Ha, Hb. split; [done|].
    by rewrite nmax_Qmax, nmin_Qmin, nmin_Qmin, nmax_Qmax. }
  unfold gbind. destruct (set_range _ _ s) as [s' [a|e]]; [by apply Hk|done].
Qed.

Ltac follow_moves :=
  repeat lazymatch goal with
  | |- moves _ _ (gbind get_range _) => apply moves_get_range; cbv beta iota
  | |- moves _ _ (gbind (GridSelect.set_range _ _ _ _ _) _) => apply moves_set_range; intros ?
  | |- moves _ _ (gbind _ _) => apply moves_bind; [|intros ?]
  | |- preserves _ _ => follow_step
  end; try done.

Lemma drags_moves ev s l r : still l r s -> drags ev s = true ->
  moved l r (handle ev s).
Proof.
  intros Hs Hd. assert (forall A (m : M A), moves l r m -> moved l r (fst (m s))) as Hm
    by (intros A m H; by apply H).
  destruct ev as [ex ey|ex ey|ex ey|w h| |]; try discriminate Hd; cbn [drags] in Hd; cbn [GridSelect.handle].
  - unfold button_release, gbind at 1, mget, id.
    destruct (moving_left s), (truthy (moving_right s)), (moving_both s); try discriminate Hd.
    apply Hm. cbv beta iota. unfold scale_selection. follow_moves.
  - unfold motion_notify. unfold gbind at 1. rewrite (reads_selection_rectangle s s eq_refl).
    destruct (snd (get_selection_rectangle s)) as [[[[x y] width] height]|]; [|by left].
    unfold gbind at 1, mget, id.
    destruct (moving_left s), (truthy (moving_right s)), (moving_both s), (moving_top s); try discriminate Hd.
    apply Hm. cbv beta iota. follow_moves. unfold scale_data, data_x_start, get_range. follow.
Qed.

(** [a / k] for a positive number [k] of the code. *)
Lemma ndiv_between a k q : 1 <= k -> (0 <= to_q a)%Q -> ndiv a (PInt k) = Ok q -> (0 <= to_q q <= to_q a)%Q.
Proof.
  intros Hk Ha. unfold ndiv. destruct (neqb _ _); [done|]. intros [= <-].
  destruct a as [x|a]; cbn [to_q] in *.
  - change 0%Q with (inject_Z 0) in *. rewrite <- Zle_Qle in Ha. rewrite <- !Zle_Qle.
    split; [apply Z.div_pos; lia|]. apply Z.div_le_upper_bound; nia.
  - assert (1 <= inject_Z k)%Q as Hk' by (change 1%Q with (inject_Z 1); by rewrite <- Zle_Qle).
    split; [apply Qle_shift_div_l; lra|apply Qle_shift_div_r; nra].
Qed.

Lemma start_ordered : (to_q lo == 0)%Q -> ordered (fst (start_gui extents legends timelines lo hi)).
Proof.
  intros H0. unfold start_gui, gbind at 1 2 3, mlift.
  pose proof (to_q_nsub hi lo) as E.
  destruct (ndiv_const (nsub hi lo) (PInt 2)) as [mid Em]; [done|]. rewrite Em.
  destruct (ndiv_const (nsub hi lo) (PInt 10)) as [width Ew]; [done|]. rewrite Ew.
  destruct (ndiv_const width (PInt 2)) as [half Eh]; [done|]. rewrite Eh.
  apply ndiv_between in Em; [|lia|lra]. apply ndiv_between in Ew; [|lia|lra]. apply ndiv_between in Eh; [|lia|lra].
  pose proof (to_q_nsub mid half). pose proof (to_q_nadd mid half).
  destruct (nmin_spec (nsub mid half) (nadd mid half)) as (? & ? & _),
    (nmax_spec (nsub mid half) (nadd mid half)) as (? & ? & _).
  apply set_range_ordered; [done..|]. split; lra.
Qed.

End within.

(** C20 - Whatever the bounds of the data and the events that follow the start, handlers
    that raised included: a range is shown whose ends are cut to those of the data, the
    upper scale measures it and the lower one measures the data; when it ends before it
    starts it is past an end of the data.  Of data that begin at 0 the range shown first
    lies within the data, and so does the range shown after any events of which none drags
    the selection or the data as a whole; a drag shifts the range and cuts it. *)
Theorem range_stays_within extents legends timelines lo hi evs (handle := handle extents legends timelines) :
  (to_q lo <= to_q hi)%Q ->
  let s0 := fst (start_gui extents legends timelines lo hi) in
  let s := foldl (fun s ev => handle ev s) s0 evs in
  (exists l r, g_range (graphic s) = Some (l, r) /\ (to_q lo <= to_q l)%Q /\ (to_q r <= to_q hi)%Q /\
    sc_bounds (g_mid (graphic s)) = Some (l, r) /\ sc_bounds (g_bot (graphic s)) = Some (lo, hi) /\
    ((to_q l <= to_q r)%Q \/ (to_q l == to_q lo)%Q /\ (to_q r < to_q lo)%Q \/
     (to_q r == to_q hi)%Q /\ (to_q hi < to_q l)%Q)) /\
  ((to_q lo == 0)%Q -> ordered lo hi s0) /\
  (ordered lo hi s0 -> dragged extents legends timelines evs s0 = false -> ordered lo hi s) /\
  (forall ev l r, g_range (graphic s) = Some (l, r) -> drags ev s = true ->
     g_range (graphic (handle ev s)) = Some (l, r) \/ shifted lo hi l r (handle ev s)).
Proof.
  intros Hle s0 s.
  assert (shows lo hi s) as Hs.
  { subst s. generalize (start_shows extents legends timelines lo hi Hle : shows lo hi s0). generalize s0.
    induction evs as [|ev evs IH]; intros s1 Hs; [done|]. by apply IH, handle_shows. }
  pose proof Hs as (Ha & Hb & Hbot & l & r & Hr & Hm & H1 & H2 & H3). split; [by exists l, r|]. split_and!.
  - by apply start_ordered.
  - intros H0 Hd. apply undragged_within; [done| |done]. split; [by apply start_shows|done].
  - intros ev l' r' E Hd. simplify_eq.
    destruct (drags_moves extents legends timelines lo hi ev s l r ltac:(done) Hd) as [(_ & _ & ?)|?]; [by left|by right].
Qed.

(** ** The marks of a scale *)

Lemma closest_loop dd fuel k :
  0 <= k -> 10 ^ k = 1 \/ (inject_Z (10 ^ k) < to_q dd)%Q ->
  (to_q dd <= inject_Z (10 ^ k * 2 ^ Z.of_nat fuel))%Q ->
  exists k', 0 <= k' /\
    while_loop fuel (fun closest => nltb (PInt (closest * 10)) dd) (fun closest => closest * 10) (10 ^ k) =
      Some (10 ^ k') /\
    (to_q dd <= inject_Z (10 ^ k' * 10))%Q /\ (10 ^ k' = 1 \/ (inject_Z (10 ^ k') < to_q dd)%Q).
Proof.
  revert k.
  induction fuel as [|fuel IH]; intros k Hk Hlt Hq; cbn [while_loop];
    destruct (nltb _ dd) eqn:Hc;
    (apply nltb_spec in Hc || apply nltb_false in Hc); cbn [to_q] in Hc.
  - exfalso. rewrite Z.mul_1_r in Hq. pose proof (Z.pow_pos_nonneg 10 k ltac:(lia) Hk).
    apply (Qlt_irrefl (to_q dd)). eapply Qle_lt_trans; [apply Hq|]. eapply Qle_lt_trans; [|apply Hc].
    rewrite <- Zle_Qle. lia.
  - eauto.
  - assert (10 ^ k * 10 = 10 ^ (k + 1)) as E by (rewrite Z.pow_add_r by lia; lia).
    rewrite E in *. pose proof (Z.pow_pos_nonneg 2 (Z.of_nat fuel) ltac:(lia) ltac:(lia)).
    pose proof (Z.pow_pos_nonneg 10 k ltac:(lia) Hk).
    apply IH; [lia|by right|]. eapply Qle_trans; [apply Hq|]. rewrite <- Zle_Qle, Nat2Z.inj_succ, Z.pow_succ_r by lia. lia.
  - exists k. split; [done|]. split; [done|]. split; [done|]. done.
Qed.

Lemma closest_power_spec dd :
  exists k, 0 <= k /\ closest_power dd = Some (10 ^ k) /\
    (to_q dd <= inject_Z (10 ^ k * 10))%Q /\ (10 ^ k = 1 \/ (inject_Z (10 ^ k) < to_q dd)%Q).
Proof.
  apply (closest_loop dd _ 0); [done|by left|]. rewrite Z.mul_1_l.
  eapply Qle_trans; [apply Qle_ceiling|]. rewrite <- Zle_Qle.
  rewrite Z2Nat.id by apply Z.log2_up_nonneg.
  pose proof (Z.log2_up_spec (Z.max 1 (Qceiling (to_q dd)))).
  destruct (decide (Qceiling (to_q dd) <= 1)); [|lia].
  pose proof (Z.pow_pos_nonneg 2 (Z.log2_up (Z.max 1 (Qceiling (to_q dd)))) ltac:(lia) (Z.log2_up_nonneg _)).
  lia.
Qed.

Lemma neqb_spec a b : neqb a b = true <-> (to_q a == to_q b)%Q.
Proof. apply Qeq_bool_iff. Qed.

Lemma neqb_false a b : neqb a b = false <-> ~ (to_q a == to_q b)%Q.
Proof. rewrite <- neqb_spec. destruct (neqb a b); naive_solver. Qed.

Lemma neqb_int a b : neqb (PInt a) (PInt b) = (a =? b).
Proof.
  destruct (Z.eqb_spec a b) as [->|Hn]; [by apply neqb_spec|].
  apply neqb_false. intros H. by apply (proj1 (inject_Z_injective _ _)) in H.
Qed.

Lemma pow10_pos k : 0 <= k -> 0 < 10 ^ k.
Proof. apply Z.pow_pos_nonneg. lia. Qed.

Lemma scale_delta_int n :
  exists k, 0 <= k /\
    scale_delta (PInt n) = Ok (if n =? 1 then 0 else 10 ^ k) /\
    (n < 1 -> k = 0) /\ (1 < n -> 2 * 10 ^ k <= n < 20 * 10 ^ k).
Proof.
  destruct (closest_power_spec (PInt n)) as (k & Hk & Hc & Hle & Hlt). cbn [to_q] in *.
  rewrite <- Zle_Qle in Hle. rewrite <- Zlt_Qlt in Hlt. pose proof (pow10_pos k Hk) as Hpos.
  unfold scale_delta. rewrite Hc. cbn [or_raise rbind]. unfold ndiv.
  rewrite neqb_int, (proj2 (Z.eqb_neq _ 0)) by lia. cbn [rbind]. rewrite !neqb_int.
  destruct (decide (k = 0)) as [->|Hk0].
  - change (10 ^ 0) with 1 in *. rewrite Z.div_1_r. exists 0. change (10 ^ 0) with 1.
    split; [done|]. split; [|split; lia]. destruct (Z.eqb_spec n 0) as [->|]; [done|]. by destruct (n =? 1).
  - assert (10 ^ k = 10 * 10 ^ (k - 1)) as E by (rewrite <- Z.pow_succ_r by lia; f_equal; lia).
    pose proof (pow10_pos (k - 1) ltac:(lia)). destruct Hlt as [?|Hlt]; [lia|].
    rewrite (proj2 (Z.eqb_neq (n / 10 ^ k) 0)) by (intros ?%Z.div_small_iff; lia).
    rewrite (proj2 (Z.eqb_neq n 1)) by lia.
    destruct (Z.eqb_spec (n / 10 ^ k) 1) as [E1|E1].
    + exists (k - 1). split; [lia|]. split; [|split; [lia|]].
      * rewrite E at 1. by rewrite Z.mul_comm, Z.div_mul by lia.
      * pose proof (Z.mul_div_le n (10 ^ k) Hpos). pose proof (Z.mul_succ_div_gt n (10 ^ k) Hpos). lia.
    + exists k. split; [lia|]. split; [done|]. split; [lia|]. intros _.
      pose proof (Z.div_le_lower_bound n (10 ^ k) 1 Hpos ltac:(lia)).
      pose proof (Z.mul_div_le n (10 ^ k) Hpos). nia.
Qed.

Lemma scale_delta_float q :
  exists k, 0 <= k /\
    scale_delta (PFlt q) = Ok (if Qeq_bool q 1 then 0 else 10 ^ k) /\
    ((q < 1)%Q -> k = 0) /\
    ((1 < q)%Q -> (inject_Z (10 ^ k) < q)%Q /\ (q <= inject_Z (10 * 10 ^ k))%Q).
Proof.
  destruct (closest_power_spec (PFlt q)) as (k & Hk & Hc & Hle & Hlt). cbn [to_q] in *.
  pose proof (pow10_pos k Hk) as Hpos. pose proof Hpos as Hq. rewrite Zlt_Qlt in Hq.
  change (inject_Z 0) with 0%Q in Hq.
  exists k. split; [done|]. rewrite Z.mul_comm in Hle.
  assert (10 ^ k = 1 -> k = 0) as Hk0.
  { intros E. destruct (decide (k = 0)); [done|]. pose proof (Z.pow_gt_1 10 k ltac:(lia)). lia. }
  assert ((q < 1)%Q -> k = 0) as Hlow.
  { intros Hlow. destruct Hlt as [|Hlt]; [auto|]. exfalso.
    assert (inject_Z 1 <= inject_Z (10 ^ k))%Q by (rewrite <- Zle_Qle; lia).
    change (inject_Z 1) with 1%Q in *. lra. }
  split; [|split; [done|]].
  - unfold scale_delta. rewrite Hc. cbn [or_raise rbind]. unfold ndiv.
    rewrite neqb_int, (proj2 (Z.eqb_neq _ 0)) by lia. cbn [rbind].
    destruct (Qeq_bool q 1) eqn:E1.
    + apply Qeq_bool_iff in E1. assert (10 ^ k = 1) as ->.
      { destruct Hlt as [|Hlt]; [done|]. exfalso. rewrite E1 in Hlt.
        change 1%Q with (inject_Z 1) in Hlt. rewrite <- Zlt_Qlt in Hlt. lia. }
      rewrite (proj2 (neqb_false _ _)), (proj2 (neqb_spec _ _)); [done|..]; cbn; rewrite E1;
        [reflexivity|discriminate].
    + assert (~ (q == 1)%Q) as Hn by (intros ?%Qeq_bool_iff; congruence).
      destruct (neqb _ (PInt 0)) eqn:E0; [done|].
      destruct (neqb _ (PInt 1)) eqn:E; [|done].
      apply neqb_spec in E. change (q / inject_Z (10 ^ k) == 1)%Q in E. exfalso.
      assert (q == inject_Z (10 ^ k))%Q as Hqk.
      { transitivity (inject_Z (10 ^ k) * (q / inject_Z (10 ^ k)))%Q.
        - symmetry. apply Qmult_div_r. intros ?. lra.
        - rewrite E. ring. }
      destruct Hlt as [Hlt|Hlt]; [|lra]. by rewrite Hlt in Hqk.
  - intros H1. split; [|done]. destruct Hlt as [Hlt|]; [|done]. by rewrite Hlt.
Qed.

Lemma scale_delta_num len :
  exists d, scale_delta len = Ok d /\ (d = 0 <-> (to_q len == 1)%Q) /\
    ((to_q len < 1)%Q -> d = 1) /\
    ((1 < to_q len)%Q -> (exists k, 0 <= k /\ d = 10 ^ k) /\
       match len with
       | PInt n => 2 * d <= n < 20 * d
       | PFlt q => (inject_Z d < q)%Q /\ (q <= inject_Z (10 * d))%Q
       end).
Proof.
  change (to_q len == 1)%Q with (to_q len == to_q (PInt 1))%Q.
  setoid_rewrite <- (neqb_spec len (PInt 1)). destruct len as [n|q].
  - destruct (scale_delta_int n) as (k & Hk & -> & H0 & H1). pose proof (pow10_pos k Hk).
    rewrite neqb_int. cbn [to_q]. change 1%Q with (inject_Z 1). rewrite <- !Zlt_Qlt.
    eexists. split; [done|]. destruct (Z.eqb_spec n 1) as [->|]; split_and!; try lia; try done.
    + intros ?. by rewrite H0 by done.
    + eauto.
  - destruct (scale_delta_float q) as (k & Hk & -> & H0 & H1). pose proof (pow10_pos k Hk).
    change (neqb (PFlt q) (PInt 1)) with (Qeq_bool q 1). cbn [to_q].
    eexists. split; [done|]. destruct (Qeq_bool q 1) eqn:E.
    + apply Qeq_bool_iff in E. split; [done|]. split; intros ?; exfalso; lra.
    + split; [split; [lia|done]|]. split; [|eauto]. intros ?. by rewrite H0 by done.
Qed.

(** C21 - The search for the distance between two marks ends whatever the length of the
    scale.  It is 1 up to a length below 1; of an integer length above 1 it is a
    power of ten that goes into the length at least twice and less than 20 times,
    and of a float length the largest power of ten below it.  A length of 1 gives
    the distance 0, by which the layout then divides: that is the one length it
    fails on. *)
Theorem scale_layout_spec lo hi h w sc (len := nsub hi lo) :
  sc_bounds sc = Some (lo, hi) ->
  exists d, scale_delta len = Ok d /\ (d = 0 <-> (to_q len == 1)%Q) /\
    ((to_q len < 1)%Q -> d = 1) /\
    ((1 < to_q len)%Q -> (exists k, 0 <= k /\ d = 10 ^ k) /\
       match len with
       | PInt n => 2 * d <= n < 20 * d
       | PFlt q => (inject_Z d < q)%Q /\ (q <= inject_Z (10 * d))%Q
       end) /\
    sc_layout h w sc =
      (if neqb len (PInt 1) then Err ZeroDivisionError
       else Ok {| sc_top := sc_top sc; sc_bounds := Some (lo, hi); sc_delta := Some (PInt d);
                  sc_width := Some w; sc_height := Some (nadd h (PInt 10)) |}).
Proof.
  intros Hsc. destruct (scale_delta_num len) as (d & Hd & Hd0 & Hlow & Hhigh).
  exists d. do 4 (split; [done|]).
  unfold sc_layout. rewrite Hsc. cbn [or_raise rbind]. fold len. rewrite Hd. cbn [rbind].
  unfold nmod. rewrite neqb_int. destruct (neqb len (PInt 1)) eqn:E.
  - apply neqb_spec in E. by rewrite (proj2 Hd0 E).
  - apply neqb_false in E. destruct (Z.eqb_spec d 0) as [->|]; [naive_solver|]. done.
Qed.

Lemma scale_layout_spec_witness :
  let sc := sc_set_bounds (PInt 0) (PInt 15) (ScaleRenderer_init true) in
  exists d, scale_delta (PInt 15) = Ok d /\ sc_layout (PInt 9) (PInt 100) sc =
    Ok {| sc_top := true; sc_bounds := Some (PInt 0, PInt 15); sc_delta := Some (PInt d);
          sc_width := Some (PInt 100); sc_height := Some (PInt 19) |}.
Proof.
  intros sc. destruct (scale_layout_spec (PInt 0) (PInt 15) (PInt 9) (PInt 100) sc eq_refl)
    as (d & Hd & _ & _ & _ & Hl).
  exists d. split; [exact Hd|exact Hl].
Defined.

(** ** The gestures on the two ends of the selection *)

Section gestures.
Variable extents : pystr -> num * num.
Variable legends : list pystr.
Variable timelines : Timelines.

Notation set_range := (set_range extents legends timelines).
Notation handle := (handle extents legends timelines).
Notation button_release := (button_release extents legends timelines).

(** No button is down. *)
Definition idle (s : gui) : Prop :=
  moving_left s = false /\ truthy (moving_right s) = false /\ moving_both s = false /\
  moving_top s = false.

(** The range between two positions in the data, whichever comes first. *)
Definition clipped (s : gui) (x y : num) : num * num :=
  (nmax (g_start (graphic s)) (nmin x y), nmin (g_end (graphic s)) (nmax x y)).

Lemma shown_after a b s :
  g_range (graphic (fst ((set_range a b >>> mset set_redraw >>> mret true) s))) = Some (clipped s a b).
Proof.
  unfold clipped, gbind. rewrite <- (set_range_range extents legends timelines).
  by destruct (GridSelect.set_range _ _ _ a b s) as [s' [|]].
Qed.

(** The three steps of a gesture on the left end. *)
Lemma press_left s x y w h d px py :
  get_selection_rectangle s = (s, Ok (x, y, w, h)) -> get_data_rectangle s = (s, Ok d) ->
  strictly_in py y h = true -> near px x = true ->
  button_press px py s = (set_moving_left true s, Ok true).
Proof.
  intros Hsel Hdat Hin Hnear. unfold button_press, gbind. rewrite Hsel, Hdat.
  destruct d as [[[??]?]?]. by rewrite Hin, Hnear.
Qed.

Lemma press_right s x y w h d px py :
  get_selection_rectangle s = (s, Ok (x, y, w, h)) -> get_data_rectangle s = (s, Ok d) ->
  strictly_in py y h = true -> near px x = false -> near px (nadd x w) = true ->
  button_press px py s = (set_moving_right (PInt 1) s, Ok true).
Proof.
  intros Hsel Hdat Hin Hnear Hnear'. unfold button_press, gbind. rewrite Hsel, Hdat.
  destruct d as [[[??]?]?]. by rewrite Hin, Hnear, Hnear'.
Qed.

Lemma motion_left s x y w h gw mx my :
  get_selection_rectangle s = (s, Ok (x, y, w, h)) -> gtk_width s = Some gw -> moving_left s = true ->
  motion_notify extents legends timelines mx my s =
    (set_moving_left_cur (if nleb mx (PInt 0) then PInt 0
                          else if nleb (nadd x w) mx then nadd x w else mx) s, Ok true).
Proof.
  intros Hsel Hw Hm. unfold motion_notify, gbind. rewrite Hsel. unfold mget, id. rewrite Hm.
  destruct (nleb mx _); [|destruct (nleb _ mx)]; cbn; unfold mattr; cbn; by rewrite Hw.
Qed.

Lemma motion_right s x y w h gw mx my :
  get_selection_rectangle s = (s, Ok (x, y, w, h)) -> gtk_width s = Some gw ->
  moving_left s = false -> truthy (moving_right s) = true ->
  motion_notify extents legends timelines mx my s =
    ((if nleb gw mx then set_moving_right gw
      else set_moving_right_cur (if nltb mx x then x else mx)) s, Ok true).
Proof.
  intros Hsel Hw Hl Hm. unfold motion_notify, gbind. rewrite Hsel. unfold mget, id. rewrite Hl, Hm.
  unfold mattr. rewrite Hw. cbn. destruct (nleb gw mx); [|destruct (nltb mx x)]; done.
Qed.

(** A release at an end that has a position selects up to it. *)
Lemma release_left s cur v l r rx ry :
  moving_left s = true -> moving_left_cur s = Some cur ->
  snd (scale_selection cur s) = Ok v -> g_range (graphic s) = Some (l, r) ->
  g_range (graphic (fst (button_release rx ry s))) = Some (clipped s v r).
Proof.
  intros Hm Hcur Hv Hr. unfold GridSelect.button_release. unfold gbind at 1, mget, id.
  rewrite Hm. unfold gbind at 1. cbn [mset]. unfold gbind at 1, mattr at 1.
  cbn [moving_left_cur set_moving_left with_flags]. rewrite Hcur. cbn [or_raise].
  unfold gbind at 1. rewrite (reads_scale_selection cur s) by done. rewrite Hv.
  unfold gbind at 1, get_range, mattr. cbn [graphic set_moving_left with_flags]. rewrite Hr.
  exact (shown_after v r (set_moving_left false s)).
Qed.

Lemma release_right s cur v l r rx ry :
  moving_left s = false -> truthy (moving_right s) = true -> moving_right_cur s = Some cur ->
  snd (scale_selection cur s) = Ok v -> g_range (graphic s) = Some (l, r) ->
  g_range (graphic (fst (button_release rx ry s))) = Some (clipped s l v).
Proof.
  intros Hl Hm Hcur Hv Hr. unfold GridSelect.button_release. unfold gbind at 1, mget, id.
  rewrite Hl, Hm. unfold gbind at 1. cbn [mset]. unfold gbind at 1, mattr at 1.
  cbn [moving_right_cur set_moving_right with_flags]. rewrite Hcur. cbn [or_raise].
  unfold gbind at 1. rewrite (reads_scale_selection cur s) by done. rewrite Hv.
  unfold gbind at 1, get_range, mattr. cbn [graphic set_moving_right with_flags]. rewrite Hr.
  exact (shown_after l v (set_moving_right (PInt 0) s)).
Qed.

(** Without one it raises, and leaves the range. *)
Lemma release_right_unset s rx ry :
  moving_left s = false -> truthy (moving_right s) = true -> moving_right_cur s = None ->
  button_release rx ry s = (set_moving_right (PInt 0) s, Err AttributeError).
Proof.
  intros Hl Hm Hcur. unfold GridSelect.button_release. unfold gbind at 1, mget, id.
  rewrite Hl, Hm. unfold gbind at 1. cbn [mset]. unfold gbind at 1, mattr at 1.
  cbn [moving_right_cur set_moving_right with_flags]. by rewrite Hcur.
Qed.

(** Dragging the left end of the selection: the range goes from the position of the
    last motion, kept between 0 and the right end, to the old right end, in
    whichever order they are, cut to the data. *)
Theorem drag_left_spec s x y w h d gw l r px py mx my rx ry v :
  get_selection_rectangle s = (s, Ok (x, y, w, h)) ->
  get_data_rectangle s = (s, Ok d) ->
  idle s -> gtk_width s = Some gw -> g_range (graphic s) = Some (l, r) ->
  strictly_in py y h = true -> near px x = true ->
  scale_selection (if nleb mx (PInt 0) then PInt 0
                   else if nleb (nadd x w) mx then nadd x w else mx) s = (s, Ok v) ->
  let s' := foldl (fun s ev => handle ev s) s [Press px py; Motion mx my; Release rx ry] in
  g_range (graphic s') = Some (clipped s v r).
Proof.
  intros Hsel Hdat (Hl & Hr & Hb & Ht) Hw Hrange Hin Hnear Hv. cbn [foldl GridSelect.handle].
  rewrite (press_left s x y w h d) by done. cbn [fst].
  rewrite (motion_left _ x y w h gw); [|by rewrite (reads_selection_rectangle s), Hsel|done|done].
  cbn [fst].
  erewrite release_left; [done|done|done|by rewrite (reads_scale_selection _ s), Hv|done].
Qed.

(** Dragging the right end of the selection, in a gesture of one motion.  Within the
    window the range goes from the old left end to the position of the motion, at
    least the left end.  Past the right edge of the window the position is not the
    edge: it stays what the last gesture left, and when there was none the release
    raises [AttributeError] and the range stays. *)
Theorem drag_right_spec s x y w h d gw l r px py mx my rx ry :
  get_selection_rectangle s = (s, Ok (x, y, w, h)) ->
  get_data_rectangle s = (s, Ok d) ->
  idle s -> gtk_width s = Some gw -> truthy gw = true -> g_range (graphic s) = Some (l, r) ->
  strictly_in py y h = true -> near px x = false -> near px (nadd x w) = true ->
  let s1 := handle (Motion mx my) (handle (Press px py) s) in
  let cur := if nleb gw mx then moving_right_cur s else Some (if nltb mx x then x else mx) in
  match cur with
  | Some c =>
      forall v, scale_selection c s = (s, Ok v) ->
      g_range (graphic (handle (Release rx ry) s1)) = Some (clipped s l v)
  | None =>
      snd (button_release rx ry s1) = Err AttributeError /\
      g_range (graphic (handle (Release rx ry) s1)) = Some (l, r)
  end.
Proof.
  intros Hsel Hdat (Hl & Hr & Hb & Ht) Hw Htr Hrange Hin Hnear Hnear'. cbn [GridSelect.handle].
  rewrite (press_right s x y w h d) by done. cbn [fst].
  rewrite (motion_right _ x y w h gw); [|by rewrite (reads_selection_rectangle s), Hsel|done..].
  cbn [fst]. destruct (nleb gw mx).
  - destruct (moving_right_cur s) as [c|] eqn:Hc.
    + intros v Hv. erewrite release_right; [done|done|done|done|by rewrite (reads_scale_selection _ s), Hv|done].
    + by rewrite release_right_unset.
  - intros v Hv. erewrite release_right; [done|done|done|done|by rewrite (reads_scale_selection _ s), Hv|done].
Qed.

End gestures.

(** ** A window of 800 by 400 on data from 0 to 1000 *)

Definition demo_extents (s : pystr) : num * num := (PFlt (inject_Z (6 * py_len s)), PFlt 9).

Definition demo_timelines : Timelines :=
  [with_range $"r" (add_range {| dr_start := 0; dr_end := 1000; dr_value := $"v" |})
     (Timeline_init $"node")].

Definition demo_gui : gui :=
  handle demo_extents [$"v"] demo_timelines (Allocate (PInt 800) (PInt 400))
    (fst (start_gui demo_extents [$"v"] demo_timelines (PInt 0) (PInt 1000))).

Lemma drag_left_spec_witness :
  g_range (graphic (foldl (fun s ev => handle demo_extents [$"v"] demo_timelines ev s) demo_gui
    [Press (PFlt 361) (PFlt 100); Motion (PFlt 200) (PFlt 100); Release (PFlt 200) (PFlt 100)])) =
  Some (PFlt (200000 # 800), PInt 550).
Proof.
  refine (eq_trans (drag_left_spec demo_extents [$"v"] demo_timelines demo_gui
    (PInt 360) (PFlt 88) (PInt 80) (PFlt 39) (PFlt 50, PFlt 29, PFlt 750, PFlt 20) (PInt 800)
    (PInt 450) (PInt 550) (PFlt 361) (PFlt 100) (PFlt 200) (PFlt 100) (PFlt 200) (PFlt 100)
    (PFlt (200000 # 800)) _ _ _ _ _ _ _ _) _); try (split_and!); vm_compute; reflexivity.
Defined.

Lemma drag_right_spec_witness :
  let s1 := handle demo_extents [$"v"] demo_timelines (Motion (PFlt 800) (PFlt 100))
    (handle demo_extents [$"v"] demo_timelines (Press (PFlt 441) (PFlt 100)) demo_gui) in
  snd (button_release demo_extents [$"v"] demo_timelines (PFlt 800) (PFlt 100) s1) = Err AttributeError /\
  g_range (graphic (handle demo_extents [$"v"] demo_timelines (Release (PFlt 800) (PFlt 100)) s1)) =
    Some (PInt 450, PInt 550).
Proof.
  refine (drag_right_spec demo_extents [$"v"] demo_timelines demo_gui
    (PInt 360) (PFlt 88) (PInt 80) (PFlt 39) (PFlt 50, PFlt 29, PFlt 750, PFlt 20) (PInt 800)
    (PInt 450) (PInt 550) (PFlt 441) (PFlt 100) (PFlt 800) (PFlt 100) (PFlt 800) (PFlt 100)
    _ _ _ _ _ _ _ _ _); try (split_and!); vm_compute; reflexivity.
Defined.

Lemma range_stays_within_witness :
  let s0 := fst (start_gui demo_extents [$"v"] demo_timelines (PInt 0) (PInt 1000)) in
  let evs := [Allocate (PInt 800) (PInt 400); SmallerZoom; Press (PFlt 361) (PFlt 100);
              Motion (PFlt 200) (PFlt 100); Release (PFlt 200) (PFlt 100); BiggerZoom] in
  let s := foldl (fun s ev => handle demo_extents [$"v"] demo_timelines ev s) s0 evs in
  g_range (graphic s) <> g_range (graphic s0) /\ ordered (PInt 0) (PInt 1000) s.
Proof.
  intros s0 evs s. split; [intros H; vm_compute in H; discriminate H|].
  pose proof (range_stays_within demo_extents [$"v"] demo_timelines (PInt 0) (PInt 1000) evs) as H.
  cbv zeta in H. destruct H as (_ & H0 & H & _); [apply Qle_bool_imp_le; reflexivity|].
  apply H; [apply H0; reflexivity|vm_compute; reflexivity].
Defined.

(** Dragging the data far to the right turns the range shown upside down. *)
Example drag_data_past_the_start :
  g_range (graphic (foldl (fun s ev => handle demo_extents [$"v"] demo_timelines ev s) demo_gui
    [Press (PFlt 60) (PFlt 40); Motion (PFlt 7560) (PFlt 40)])) = Some (PFlt 0, PFlt (-337500 # 750)).
Proof. vm_compute. reflexivity. Qed.

(** A click on the left end, without a motion, raises. *)
Example click_left_raises :
  snd (button_release demo_extents [$"v"] demo_timelines (PFlt 361) (PFlt 100)
    (handle demo_extents [$"v"] demo_timelines (Press (PFlt 361) (PFlt 100)) demo_gui)) =
  Err AttributeError.
Proof. vm_compute. reflexivity. Qed.

(** Data of length 1 cannot be laid out. *)
Example start_length_1 :
  snd (start_gui demo_extents [$"v"] demo_timelines (PInt 0) (PInt 1)) = Err ZeroDivisionError.
Proof. vm_compute. reflexivity. Qed.
