(* ===== verification/GridDraw.v ===== *)
(** * [grid.py]: what is drawn

    The [draw] methods of the renderers, [expose] and [output_png], as the list of
    the cairo commands they issue.  A surface is the list of what was drawn on
    it; the sizes of texts are parameters. *)

From Stdlib Require Import QArith Qround Qfield Lqa.
From S2P Require Import Prelude StateM PyDict Timeline GridSelect.

Open Scope Z_scope.

(** ** Commands *)

Inductive cmd :=
| Save
| Restore_state
| Translate (x y : num)
| MoveTo (x y : num)
| LineTo (x y : num)
| RelLineTo (x y : num)
| ClosePath
| Rectangle (x y w h : num)
| SetSourceRgb (r g b : num)
| SetSourceSurface
| SetLineWidth (w : num)
| SetOperatorSource
| SetDash (dashes : list num) (offset : num)
| Clip
| Paint
| Stroke
| StrokePreserve
| Fill
| ShowText (s : pystr).

Definition black : cmd := SetSourceRgb (PInt 0) (PInt 0) (PInt 0).
Definition grey90 : cmd := SetSourceRgb (PFlt (9 # 10)) (PFlt (9 # 10)) (PFlt (9 # 10)).

(** [int(a)], towards 0. *)
Definition nint (a : num) : Z :=
  match a with PInt z => z | PFlt q => Z.quot (Qnum q) (QDen q) end.

(** [range(start, stop, step)] *)
Definition py_range (start stop step : Z) : py (list Z) :=
  if step =? 0 then Err ValueError
  else
    let n := if 0 <? step then (stop - start + step - 1) / step
             else (start - stop - step - 1) / - step in
    Ok ((fun i => start + Z.of_nat i * step) <$> seq 0 (Z.to_nat n)).

(** ** The searches, on the ends of the range shown, which may be floats *)

Fixpoint range_search_num (fuel : nat) (ranges : list DataRange) (key : num) (l u : Z) : py Z :=
  if l <=? u then
    match fuel with
    | O => Err OutOfFuel
    | S fuel' =>
        let i := (l + u) / 2 in
        let! r := py_get ranges i in
        if nleb (PInt (dr_start r)) key && nleb key (PInt (dr_end r)) then Ok i
        else if nltb key (PInt (dr_start r)) then range_search_num fuel' ranges key l (i - 1)
        else range_search_num fuel' ranges key (i + 1) u
    end
  else Ok (-1).

Definition rg_search_num (self : TimelineDataRange) (key : num) : py Z :=
  range_search_num (length (rg_ranges self)) (rg_ranges self) key 0 (py_len (rg_ranges self) - 1).

Definition get_ranges_bounds_num (self : TimelineDataRange) (start end_ : num) : py (Z * Z) :=
  let! s := rg_search_num self start in
  let! e := rg_search_num self end_ in
  Ok (if (s =? -1) && (e =? -1) then (0, 0)
      else if s =? -1 then (0, e + 1)
      else if e =? -1 then (s, py_len (rg_ranges self))
      else (s, e + 1)).

Fixpoint event_search_num {V} (fuel : nat) (events : list (Event V)) (key : num) (l u : Z) : py Z :=
  if l <=? u then
    match fuel with
    | O => Err OutOfFuel
    | S fuel' =>
        let i := (l + u) / 2 in
        let! ev := py_get events i in
        if neqb key (PInt (ev_at ev)) then Ok i
        else if nltb key (PInt (ev_at ev)) then event_search_num fuel' events key l (i - 1)
        else event_search_num fuel' events key (i + 1) u
    end
  else Ok l.

Definition te_search_num {V} (self : TimelineEvent V) (key : num) : py Z :=
  event_search_num (length (te_events self)) (te_events self) key 0 (py_len (te_events self) - 1).

Definition get_events_bounds_num {V} (self : TimelineEvent V) (start end_ : num) : py (Z * Z) :=
  let! s := te_search_num self start in
  let! e := te_search_num self end_ in
  Ok (s, e + 1).

Section drawing.
Context {D : Type -> Type} `{PyDict pystr D}.
(** Width and height of a text, and its bearing above the line. *)
Variable extents : pystr -> num * num.
Variable bearing : pystr -> num.

(** ** What drawing changes

    [palette] is the class attribute [default_colors] and the colours of the
    trace; [grey] is [grey_background]. *)

Record canvas := {
  drawn : list cmd;
  palette : list Color * D Color;
  grey : Z
}.

Definition emits (l : list cmd) : stM canvas () :=
  mset (fun s => {| drawn := drawn s ++ l; palette := palette s; grey := grey s |}).
Definition set_grey (f : Z -> Z) : stM canvas () :=
  mset (fun s => {| drawn := drawn s; palette := palette s; grey := f (grey s) |}).

(** [self.colors.lookup(name)] *)
Definition lookup_color (name : pystr) : stM canvas Color := fun s =>
  match colors_lookup (palette s) name with
  | Ok (defaults, colors, c) =>
      ({| drawn := drawn s; palette := (defaults, colors); grey := grey s |}, or_raise AttributeError c)
  | Err e => (s, Err e)
  end.

Definition source_color (c : Color) : cmd :=
  let '(r, g, b) := c in SetSourceRgb (PInt r) (PInt g) (PInt b).

(** ** [TopLegendRenderer.draw] *)

Definition draw_legend_item (padding width : num) (colors : list Color)
    (st : Z * (num * num * num)) (legend : pystr) : stM canvas (Z * (num * num * num)) :=
  let '(i, place) := st in
  let '(t_width, t_height) := extents legend in
  let item_width := nadd (nadd (nadd padding padding) t_width) padding in
  let place' := place_legend extents padding width place legend in
  let '(_, total_height, line_used) := place' in
  let x := nsub line_used item_width in
  emits [Rectangle x total_height padding padding; black; SetLineWidth (PInt 2); StrokePreserve] >>>
  do! c := mlift (py_get colors i) in
  emits [source_color c; Fill; MoveTo (nadd x (nmul padding (PInt 2))) (nadd total_height t_height);
         black; ShowText legend] >>>
  mret (i + 1, place').

Definition draw_legend (padding width : num) (legends : list pystr) (colors : list Color) : stM canvas () :=
  mfold (draw_legend_item padding width colors) (0, (PInt 0, padding, padding)) legends >>>
  mret tt.

(** ** [TimelinesRenderer] *)

Definition draw_line (x y width height : num) : stM canvas () :=
  emits [MoveTo x y; RelLineTo width height; ClosePath; SetOperatorSource; SetLineWidth (PFlt 1);
         black; Stroke].

Section series.
Variables padding start end_ : num.

(** The grey background of every other series. *)
Definition draw_background (x y width height : num) : stM canvas () :=
  do! g := mget grey in
  do! half := mlift (ndiv padding (PInt 2)) in
  if g mod 2 =? 0 then
    emits [Rectangle x (nsub y half) width (nadd height padding); grey90; Fill]
  else mret tt.

(** [int(x + (t - self.start) * width / (self.end - self.start))] *)
Definition real_x (x width t : num) : py Z :=
  let! q := ndiv (nmul (nsub t start) width) (nsub end_ start) in
  Ok (nint (nadd x q)).

Definition draw_event {V} (show : V -> pystr) (x y width : num) (last_x_drawn : Z) (event : Event V)
  : stM canvas Z :=
  do! rx := mlift (real_x x width (PInt (ev_at event))) in
  if last_x_drawn + 2 <? rx then
    emits [Rectangle (PInt rx) y (PInt 1) (PInt 1); SetSourceRgb (PInt 1) (PInt 0) (PInt 0); Stroke;
           MoveTo (PInt rx) (nadd y (max_text_height extents)); black; ShowText (show (ev_value event))] >>>
    mret rx
  else mret last_x_drawn.

Definition draw_events {V} (show : V -> pystr) (events : TimelineEvent V) (x y width height : num)
  : stM canvas () :=
  draw_background x y width height >>>
  do! '(lo, hi) := mlift (get_events_bounds_num events start end_) in
  mfold (draw_event show x y width) (nint x) (py_slice (te_events events) lo hi) >>>
  set_grey (fun g => g + 1).

Definition draw_range (x y width : num) (last_x_drawn : Z) (data_range : DataRange) : stM canvas Z :=
  let s := nmax (PInt (dr_start data_range)) start in
  let e := nmin (PInt (dr_end data_range)) end_ in
  do! x_start := mlift (real_x x width s) in
  do! x_end := mlift (real_x x width e) in
  if last_x_drawn <? x_end then
    emits [Rectangle (PInt x_start) y (PInt (x_end - x_start)) (PInt 10); black; StrokePreserve] >>>
    do! color := lookup_color (dr_value data_range) in
    emits [source_color color; Fill] >>>
    mret x_end
  else mret last_x_drawn.

Definition draw_ranges (ranges : TimelineDataRange) (x y width height : num) : stM canvas () :=
  draw_background x y width height >>>
  do! '(lo, hi) := mlift (get_ranges_bounds_num ranges start end_) in
  mfold (draw_range x y width) (nint (nsub x (PInt 1))) (py_slice (rg_ranges ranges) lo hi) >>>
  set_grey (fun g => g + 1).

(** The name of a time line or of a series. *)
Definition draw_name (x cur_y : num) (name : pystr) : stM canvas () :=
  emits [MoveTo x (nsub (nadd cur_y (max_text_height extents)) (nadd (snd (extents name)) (bearing name)));
         ShowText name].

(** One turn of the loops of [draw]: the name, the data, the next line. *)
Definition draw_row (d : data_layout) (right_x_start advance : num) (name : pystr)
    (data : num -> stM canvas ()) (cur_y : num) : stM canvas num :=
  draw_name right_x_start cur_y name >>>
  data cur_y >>>
  do! half := mlift (ndiv padding (PInt 2)) in
  let cur_y := nadd cur_y advance in
  draw_line (nsub right_x_start half) (nsub cur_y half) (nadd (right_width d) padding) (PInt 0) >>>
  mret cur_y.

(** [TimelinesRenderer.draw] *)
Definition draw_timelines (timelines : Timelines) (d : data_layout) (width : num) : stM canvas () :=
  do! half := mlift (ndiv padding (PInt 2)) in
  let text_h := max_text_height extents in
  let left_x_start := half in
  let left_x_end := nadd left_x_start (left_width d) in
  let right_x_start := nadd left_x_end padding in
  let right_x_end := nadd right_x_start (right_width d) in
  let data_x_start := nadd right_x_end half in
  let data_width := nsub width data_x_start in
  let event_height := nadd text_h (PInt 5) in
  draw_line (PInt 0) (PInt 0) width (PInt 0) >>>
  set_grey (fun _ => 1) >>>
  do! cur_y := mfold (fun cur_y timeline =>
    draw_name left_x_start cur_y (tl_name timeline) >>>
    do! cur_y := mfold (fun cur_y events =>
      draw_row d right_x_start (nadd event_height padding) (te_name events)
        (fun y => draw_events show_Z events data_x_start y data_width event_height) cur_y)
      cur_y (tl_event_int timeline) in
    do! cur_y := mfold (fun cur_y events =>
      draw_row d right_x_start (nadd event_height padding) (te_name events)
        (fun y => draw_events id events data_x_start y data_width event_height) cur_y)
      cur_y (tl_event_str timeline) in
    do! cur_y := mfold (fun cur_y ranges =>
      draw_row d right_x_start (nadd text_h padding) (rg_name ranges)
        (fun y => draw_ranges ranges data_x_start y data_width (PInt 10)) cur_y)
      cur_y (tl_ranges timeline) in
    draw_line (PInt 0) (nsub cur_y half) width (PInt 0) >>>
    mret cur_y) half timelines in
  let bot_y := nsub cur_y half in
  draw_line (nadd left_x_end half) (PInt 0) (PInt 0) bot_y >>>
  draw_line (nadd right_x_end half) (PInt 0) (PInt 0) bot_y.

End series.

(** ** [ScaleRenderer.draw] *)

(** The marks at the multiples of [delta]. *)
Definition scale_ticks (lo hi delta : num) : py (list Z) :=
  let! m := nmod lo delta in
  let start := nadd (nsub lo m) delta in
  let! m' := nmod hi delta in
  let end_ := nsub hi m' in
  py_range (nint start) (nint (nadd end_ delta)) (nint delta).

Definition tick (rx s : num) (size : Z) : list cmd :=
  [MoveTo rx (PInt 0); LineTo rx (nmul (PInt size) s); ClosePath; Stroke].

Definition draw_mark (self : ScaleRenderer) (s : num) (x : Z) : stM canvas () :=
  do! rx := mlift (get_position self (PInt x)) in
  emits (tick rx s 5) >>>
  let '(t_width, t_height) := extents (show_Z x) in
  let t_y_bearing := bearing (show_Z x) in
  let text_delta := if sc_top self then nadd t_height t_y_bearing else nsub (PInt 0) t_y_bearing in
  do! half := mlift (ndiv t_width (PInt 2)) in
  emits [MoveTo (nsub rx half) (nmul (nadd (PInt 10) text_delta) s); ShowText (show_Z x)].

Definition draw_submark (self : ScaleRenderer) (s : num) (x : Z) : stM canvas () :=
  do! rx := mlift (get_position self (PInt x)) in
  emits (tick rx s 3).

Definition draw_scale (self : ScaleRenderer) : stM canvas () :=
  do! delta := mlift (or_raise AttributeError (sc_delta self)) in
  do! '(lo, hi) := mlift (or_raise AttributeError (sc_bounds self)) in
  let s := if sc_top self then PInt (-1) else PInt 1 in
  emits [black; SetLineWidth (PFlt 1)] >>>
  do! ticks := mlift (scale_ticks lo hi delta) in
  mfor (draw_mark self s) ticks >>>
  do! delta := mlift (ndiv delta (PInt 10)) in
  if nltb (PInt 0) delta then
    do! ticks := mlift (scale_ticks lo hi delta) in
    mfor (draw_submark self s) ticks
  else mret tt.

(** ** [GraphicRenderer.draw] *)

Section graphic.
Variable legends : list pystr.
Variable legend_colors : list Color.
Variable timelines : Timelines.

Notation attr o := (mlift (or_raise AttributeError o)).

Definition draw_graphic (g : GraphicRenderer) : stM canvas () :=
  let w := g_width g in
  let zero := PInt 0 in
  emits [Save; SetSourceRgb (PInt 1) (PInt 1) (PInt 1); SetOperatorSource;
         Rectangle zero zero w (g_height g); Fill; Save] >>>
  do! legend_h := attr (g_legend g) in
  draw_legend padding w legends legend_colors >>>
  emits [Restore_state; MoveTo zero legend_h; LineTo w legend_h; ClosePath; SetLineWidth (PInt 2); black;
         Stroke; Save; Translate zero legend_h] >>>
  do! d := attr (g_data g) in
  do! '(start, end_) := attr (g_range g) in
  draw_timelines padding start end_ timelines d w >>>
  emits [Restore_state; Save] >>>
  do! x_start := mlift (get_data_x_start padding d) in
  do! mid_h := attr (sc_height (g_mid g)) in
  let height_used := nadd (nadd legend_h (data_height d)) mid_h in
  emits [Translate x_start height_used] >>>
  draw_scale (g_mid g) >>>
  emits [Restore_state;
         (* between scale and left pane *)
         MoveTo x_start height_used; RelLineTo zero (nsub zero mid_h); ClosePath; black;
         SetLineWidth (PInt 2); Stroke;
         (* below scale *)
         MoveTo zero height_used; LineTo w height_used; ClosePath; SetLineWidth (PInt 2); black; Stroke] >>>
  do! select_start := mlift (get_position (g_bot g) start) in
  do! select_end := mlift (get_position (g_bot g) end_) in
  let below := nadd height_used (PInt 20) in
  emits [MoveTo zero height_used; LineTo x_start height_used; LineTo select_start below; LineTo zero below;
         LineTo zero height_used; black; SetLineWidth (PInt 1); StrokePreserve; grey90; Fill;
         MoveTo w height_used; LineTo w below; LineTo select_end below; LineTo w height_used; black;
         SetLineWidth (PInt 1); StrokePreserve; grey90; Fill] >>>
  do! bot_h := attr (sc_height (g_bot g)) in
  let unused_height := nadd bot_h (PInt 20) in
  let bottom := nadd below unused_height in
  emits [Rectangle zero below select_start unused_height;
         Rectangle select_end below (nsub w select_end) unused_height; grey90; Fill;
         (* border around bottom scale *)
         MoveTo select_end below; LineTo w below; LineTo w bottom; LineTo zero bottom; LineTo zero below;
         LineTo select_start below; ClosePath; SetLineWidth (PInt 2); black; Stroke;
         MoveTo select_start below; LineTo select_end below; ClosePath; SetLineWidth (PInt 1); grey90; Stroke;
         (* dot borders *)
         Save; MoveTo (nmax select_start (PInt 2)) below; RelLineTo zero unused_height;
         MoveTo (nmin select_end (nsub w (PInt 2))) below; RelLineTo zero unused_height;
         SetDash [PInt 5] (PInt 0); black; SetLineWidth (PInt 1); Stroke; Restore_state;
         (* bottom scale *)
         Save; Translate zero below] >>>
  draw_scale (g_bot g) >>>
  emits [Restore_state].

(** [__x_pixel], which nothing calls. *)
Definition x_pixel (g : GraphicRenderer) (x width : num) : py num :=
  ndiv (nmul (nsub x (g_start g)) width) (nsub (g_end g) (g_start g)).

(** ** [GtkGraphicRenderer.expose] and [output_png] *)

Record window := {
  w_gui : gui;
  w_palette : list Color * D Color;
  w_buffer : option (list cmd);
  w_screen : list cmd;
  w_files : list (pystr * list cmd)
}.

Definition with_buffer (b : list cmd) (pal : list Color * D Color) (s : window) : window :=
  {| w_gui := w_gui s; w_palette := pal; w_buffer := Some b; w_screen := w_screen s; w_files := w_files s |}.
Definition with_gui (f : gui -> gui) (s : window) : window :=
  {| w_gui := f (w_gui s); w_palette := w_palette s; w_buffer := w_buffer s; w_screen := w_screen s;
     w_files := w_files s |}.
Definition on_screen (l : list cmd) : stM window () := mset (fun s =>
  {| w_gui := w_gui s; w_palette := w_palette s; w_buffer := w_buffer s; w_screen := w_screen s ++ l;
     w_files := w_files s |}).

(** [self.__data.draw(ctx)] on the buffer, after what it holds. *)
Definition draw_on_buffer (b : list cmd) : stM window () := fun s =>
  let '(c, r) := draw_graphic (graphic (w_gui s)) {| drawn := b; palette := w_palette s; grey := 0 |} in
  (with_buffer (drawn c) (palette c) s, r).

Definition drawn_done (s : gui) : gui :=
  {| graphic := graphic s; moving_left := moving_left s; moving_right := moving_right s;
     moving_both := moving_both s; moving_top := moving_top s; moving_left_cur := moving_left_cur s;
     moving_right_cur := moving_right_cur s; moving_both_start := moving_both_start s;
     moving_both_cur := moving_both_cur s; moving_top_start := moving_top_start s;
     moving_top_cur := moving_top_cur s; gtk_width := gtk_width s; gtk_height := gtk_height s;
     force_full_redraw := false |}.

(** A handler of the renderer, run on the window. *)
Definition on_gui {A} (m : stM gui A) : stM window A := fun s =>
  let '(g, r) := m (w_gui s) in (with_gui (fun _ => g) s, r).

(** A vertical line of the selection that moves. *)
Definition cursor_line (x y height : num) : list cmd :=
  [MoveTo x y; RelLineTo (PInt 0) height; ClosePath].

Definition expose (area : num * num * num * num) : stM window bool :=
  do! redraw := mget (fun s => force_full_redraw (w_gui s)) in
  (if redraw : bool then draw_on_buffer [] >>> mset (with_gui drawn_done) else mret tt) >>>
  let '(ax, ay, aw, ah) := area in
  on_screen [Rectangle ax ay aw ah; Clip] >>>
  do! _buffer := mattr w_buffer in
  on_screen [SetSourceSurface; Paint] >>>
  do! '(x, y, width, height) := on_gui get_selection_rectangle in
  do! s := mget w_gui in
  (if moving_left s then
     do! cur := mlift (or_raise AttributeError (moving_left_cur s)) in
     on_screen (cursor_line (nmax cur (PInt 2)) y height ++ [SetLineWidth (PInt 1); black; Stroke])
   else mret tt) >>>
  (if truthy (moving_right s) then
     do! cur := mlift (or_raise AttributeError (moving_right_cur s)) in
     do! w := mlift (or_raise AttributeError (gtk_width s)) in
     on_screen (cursor_line (nmin cur (nsub w (PInt 2))) y height ++ [SetLineWidth (PInt 1); black; Stroke])
   else mret tt) >>>
  (if moving_both s then
     do! cur := mlift (or_raise AttributeError (moving_both_cur s)) in
     do! start := mlift (or_raise AttributeError (moving_both_start s)) in
     let delta_x := nsub cur start in
     on_screen (cursor_line (nadd x delta_x) y height ++
                cursor_line (nadd (nadd x width) delta_x) y height ++
                [black; SetLineWidth (PInt 1); Stroke])
   else mret tt) >>>
  mret false.

(** The drawing goes to the buffer, the file is written from another surface. *)
Definition output_png (filename : pystr) : stM window () :=
  let surface : list cmd := [] in
  do! b := mattr w_buffer in
  draw_on_buffer b >>>
  mset (fun s => {| w_gui := w_gui s; w_palette := w_palette s; w_buffer := w_buffer s;
                    w_screen := w_screen s; w_files := w_files s ++ [(filename, surface)] |}).

(** ** [MainWindow] *)

(** The callback of the file dialog. *)
Definition dialog_response (filename : pystr) (response : Z) : stM window () :=
  if response =? 1 then output_png filename else mret tt.

(** What happens to the window, and the handler that runs. *)
Inductive window_event :=
| OnRenderer (ev : event)
| Expose (area : num * num * num * num)
| DialogResponse (filename : pystr) (response : Z).

Definition handle_window (ev : window_event) (s : window) : window :=
  match ev with
  | OnRenderer ev => with_gui (handle extents legends timelines ev) s
  | Expose area => fst (expose area s)
  | DialogResponse filename response => fst (dialog_response filename response s)
  end.

End graphic.
End drawing.

(** ** Lemmas on numbers *)

Lemma to_q_nmul a b : (to_q (nmul a b) == to_q a * to_q b)%Q.
Proof. destruct a, b; cbn [nmul to_q]; rewrite ?inject_Z_mult; reflexivity. Qed.

(** A quotient by a positive number, which may be rounded down. *)
Lemma ndiv_pos a b :
  (0 < to_q b)%Q -> exists q, ndiv a b = Ok q /\ (to_q q <= to_q a / to_q b)%Q /\
    ((0 <= to_q a)%Q -> (0 <= to_q q)%Q).
Proof.
  intros Hb. unfold ndiv. destruct (neqb b (PInt 0)) eqn:E.
  { apply neqb_spec in E. rewrite E in Hb. by apply Qlt_irrefl in Hb. }
  eexists. split; [done|].
  assert ((0 <= to_q a)%Q -> (0 <= to_q a / to_q b)%Q) as Hpos.
  { intros Ha. by apply Qle_shift_div_l; [|rewrite Qmult_0_l]. }
  destruct a as [x|], b as [y|]; cbn [to_q] in *; try (split; [apply Qle_refl|done]).
  change 0%Q with (inject_Z 0) in *. rewrite <- Zlt_Qlt in Hb. rewrite <- !Zle_Qle. split.
  - apply Qle_shift_div_l; [by rewrite <- (Zlt_Qlt 0)|].
    rewrite <- inject_Z_mult, <- Zle_Qle. rewrite Z.mul_comm. by apply Z.mul_div_le.
  - intros ?. by apply Z.div_pos.
Qed.

Lemma nint_spec a :
  nint a = if Qle_bool 0 (to_q a) then Qfloor (to_q a) else - Qfloor (- to_q a).
Proof.
  destruct a as [z|[n d]]; cbn [nint to_q Qnum].
  - rewrite Qfloor_Z. change (- inject_Z z)%Q with (inject_Z (- z)). rewrite Qfloor_Z.
    destruct (Qle_bool _ _); lia.
  - destruct (Qle_bool 0 (n # d)) eqn:E; unfold Qle_bool in E; cbn in E;
      [apply Z.leb_le in E|apply Z.leb_gt in E]; cbn.
    + by apply Z.quot_div_nonneg; [lia|].
    + rewrite <- (Z.opp_involutive n) at 1. rewrite Z.quot_opp_l by done. f_equal.
      by apply Z.quot_div_nonneg; [lia|].
Qed.

Lemma nint_mono a b : (to_q a <= to_q b)%Q -> nint a <= nint b.
Proof.
  intros Hab. rewrite !nint_spec.
  destruct (Qle_bool 0 (to_q a)) eqn:Ea, (Qle_bool 0 (to_q b)) eqn:Eb.
  - by apply Qfloor_resp_le.
  - apply Qle_bool_iff in Ea. assert (0 <= to_q b)%Q as H%Qle_bool_iff by lra. congruence.
  - transitivity 0.
    + assert (0 <= Qfloor (- to_q a)); [|lia]. change 0 with (Qfloor 0). apply Qfloor_resp_le.
      destruct (Qlt_le_dec (to_q a) 0) as [|H%Qle_bool_iff]; [lra|congruence].
    + change 0 with (Qfloor 0). apply Qfloor_resp_le. by apply Qle_bool_iff.
  - assert (Qfloor (- to_q b) <= Qfloor (- to_q a)); [|lia]. apply Qfloor_resp_le. lra.
Qed.

(** ** The searches end, and agree with those on integers *)

Lemma range_search_num_total fuel ranges key l u :
  0 <= l -> u < py_len ranges -> u - l < Z.of_nat fuel ->
  exists i, range_search_num fuel ranges key l u = Ok i.
Proof.
  revert l u. induction fuel as [|fuel IH]; intros l u Hl Hu Hf; cbn [range_search_num];
    destruct (Z.leb_spec l u); try (by eexists); [lia|].
  pose proof (Z.div_le_lower_bound (l + u) 2 l). pose proof (Z.div_le_upper_bound (l + u) 2 u).
  rewrite py_get_lookup by lia.
  destruct (ranges !! Z.to_nat ((l + u) / 2)) as [r|] eqn:E; [|apply lookup_ge_None_1 in E; unfold py_len in *; lia].
  cbn [or_raise rbind]. destruct (_ && _); [by eexists|]. destruct (nltb _ _); apply IH; lia.
Qed.

Lemma get_ranges_bounds_num_total self start end_ :
  exists lo hi, get_ranges_bounds_num self start end_ = Ok (lo, hi).
Proof.
  unfold get_ranges_bounds_num, rg_search_num.
  destruct (range_search_num_total (length (rg_ranges self)) (rg_ranges self) start 0
    (py_len (rg_ranges self) - 1)) as [s ->]; [lia|lia|unfold py_len; lia|].
  destruct (range_search_num_total (length (rg_ranges self)) (rg_ranges self) end_ 0
    (py_len (rg_ranges self) - 1)) as [e ->]; [lia|lia|unfold py_len; lia|].
  cbn. repeat case_match; eauto.
Qed.

Lemma nleb_int a b : nleb (PInt a) (PInt b) = (a <=? b).
Proof. cbn. unfold nleb, Qle_bool. cbn. by rewrite !Z.mul_1_r. Qed.

Lemma get_ranges_bounds_num_int self start end_ :
  get_ranges_bounds_num self (PInt start) (PInt end_) = get_ranges_bounds self start end_.
Proof.
  assert (forall fuel ranges key l u,
    range_search_num fuel ranges (PInt key) l u = range_search fuel ranges key l u) as E.
  { intros fuel ranges key. induction fuel as [|fuel IH]; intros l u; cbn; [done|].
    destruct (l <=? u); [|done]. destruct (py_get ranges _) as [r|]; [|done]. cbn [rbind].
    unfold nltb. rewrite !nleb_int, !IH, Z.geb_leb.
    by rewrite <- Z.ltb_antisym. }
  unfold get_ranges_bounds_num, get_ranges_bounds, rg_search_num, rg_search. by rewrite !E.
Qed.

(** ** The bars of a series of ranges *)

Section bars.
Context {D : Type -> Type} `{PyDictLaws pystr D}.
Variable extents : pystr -> num * num.
Variables start end_ : num.
Hypothesis nonempty : (to_q start < to_q end_)%Q.
Variables x y width : num.
Hypothesis width_nonneg : (0 <= to_q width)%Q.

Notation real_x := (real_x start end_ x width).
Notation canvas := (@canvas D).

(** A time of the range shown falls in the data pane. *)
Lemma real_x_spec t :
  exists z, real_x t = Ok z /\
    ((to_q t <= to_q end_)%Q -> z <= nint (nadd x width)) /\
    ((to_q start <= to_q t)%Q -> nint x <= z).
Proof.
  unfold GridDraw.real_x.
  assert (0 < to_q (nsub end_ start))%Q as Hlen by (rewrite to_q_nsub; lra).
  destruct (ndiv_pos (nmul (nsub t start) width) _ Hlen) as (q & -> & Hle & Hpos). cbn [rbind].
  eexists. split; [done|].
  rewrite to_q_nmul, !to_q_nsub in *. split; intros Ht; apply nint_mono; rewrite to_q_nadd.
  - rewrite to_q_nadd. apply Qplus_le_r. eapply Qle_trans; [apply Hle|].
    apply Qle_shift_div_r; [lra|]. rewrite (Qmult_comm (to_q width)). apply Qmult_le_compat_r; [lra|done].
  - assert (0 <= to_q q)%Q; [|lra]. apply Hpos. apply Qmult_le_0_compat; [lra|done].
Qed.

(** A bar: its two ends and its colour. *)
Record bar := { bar_left : Z; bar_right : Z; bar_color : Color }.

Definition bar_cmds (b : bar) : list cmd :=
  [Rectangle (PInt (bar_left b)) y (PInt (bar_right b - bar_left b)) (PInt 10); black; StrokePreserve;
   source_color (bar_color b); Fill].

(** The bar stands for the range. *)
Definition bar_of (colors : D Color) (dr : DataRange) (b : bar) : Prop :=
  real_x (nmax (PInt (dr_start dr)) start) = Ok (bar_left b) /\
  real_x (nmin (PInt (dr_end dr)) end_) = Ok (bar_right b) /\
  d_get colors (dr_value dr) = Some (bar_color b).

Definition add_drawn (l : list cmd) (s : canvas) : canvas :=
  {| drawn := drawn s ++ l; palette := palette s; grey := grey s |}.

Lemma add_drawn_app l l' s : add_drawn l' (add_drawn l s) = add_drawn (l ++ l') s.
Proof. unfold add_drawn. cbn. by rewrite (assoc_L (++)). Qed.

Lemma emits_run l s : emits l s = (add_drawn l s, Ok tt).
Proof. done. Qed.

Lemma add_drawn_nil s : add_drawn [] s = s.
Proof. destruct s. unfold add_drawn. cbn. by rewrite (right_id_L [] (++)). Qed.

Lemma lookup_color_known v c s :
  d_get (snd (palette s)) v = Some c -> lookup_color (D := D) v s = (s, Ok c).
Proof.
  intros Hc. unfold lookup_color, colors_lookup. destruct s as [dr [ds cs] g]. cbn in *.
  rewrite Hc. cbn. by rewrite Hc.
Qed.

(** One turn of the loop. *)
Lemma draw_range_step dr last s :
  is_Some (d_get (snd (palette s)) (dr_value dr)) ->
  exists b, bar_of (snd (palette s)) dr b /\
    draw_range (D := D) start end_ x y width last dr s =
      (if last <? bar_right b then (add_drawn (bar_cmds b) s, Ok (bar_right b)) else (s, Ok last)).
Proof.
  intros [c Hc].
  destruct (real_x_spec (nmax (PInt (dr_start dr)) start)) as (xs & Hs & _).
  destruct (real_x_spec (nmin (PInt (dr_end dr)) end_)) as (xe & He & _).
  exists {| bar_left := xs; bar_right := xe; bar_color := c |}. split; [done|].
  unfold draw_range, gbind, mlift. rewrite Hs, He. cbn [bar_right].
  destruct (last <? xe); [|done]. rewrite emits_run.
  rewrite (lookup_color_known _ c) by done. rewrite emits_run, add_drawn_app. done.
Qed.

(** The range ends no further right than [last], or than a bar. *)
Definition covered (colors : D Color) (last : Z) (bars : list bar) (dr : DataRange) : Prop :=
  exists b, bar_of colors dr b /\
    (bar_right b <= last \/ exists b', b' ∈ bars /\ bar_right b <= bar_right b').

(** The loop: the bars drawn go on to the right of [last], and cover every range. *)
Lemma draw_range_loop l last s :
  Forall (fun dr => is_Some (d_get (snd (palette s)) (dr_value dr))) l ->
  exists bars last',
    mfold (draw_range (D := D) start end_ x y width) last l s = (add_drawn (bars ≫= bar_cmds) s, Ok last') /\
    StronglySorted Z.lt (last :: (bar_right <$> bars)) /\
    Forall (fun b => exists dr, dr ∈ l /\ bar_of (snd (palette s)) dr b) bars /\
    Forall (covered (snd (palette s)) last bars) l.
Proof.
  revert last s. induction l as [|dr l IH]; intros last s Hl; cbn [mfold].
  - exists [], last. split_and!; try done; [|by repeat constructor].
    cbn. by rewrite add_drawn_nil.
  - apply Forall_cons in Hl as [Hdr Hl]. destruct (draw_range_step dr last s Hdr) as (b & Hb & Hstep).
    unfold gbind. rewrite Hstep. destruct (Z.ltb_spec last (bar_right b)) as [Hlt|Hle].
    + destruct (IH (bar_right b) (add_drawn (bar_cmds b) s) Hl) as (bars & last' & E & Hsort & Hin & Hcov).
      exists (b :: bars), last'. rewrite E, add_drawn_app. split; [done|]. split; [|split].
      * apply StronglySorted_inv in Hsort as Hinv. destruct Hinv as [_ Hall].
        constructor; [done|]. constructor; [done|].
        eapply Forall_impl; [exact Hall|]. intros z ?. lia.
      * constructor; [exists dr; split; [by left|done]|].
        eapply Forall_impl; [exact Hin|]. intros b' (dr' & ? & ?). exists dr'. split; [by right|done].
      * constructor; [exists b; split; [done|]; right; exists b; split; [by left|done]|].
        eapply Forall_impl; [exact Hcov|].
        intros dr' (b' & Hb' & [Hle|(b2 & ? & ?)]); exists b'; (split; [done|]); right.
        -- exists b. split; [by left|done].
        -- exists b2. split; [by right|done].
    + destruct (IH last s Hl) as (bars & last' & E & Hsort & Hin & Hcov).
      exists bars, last'. split; [done|]. split; [done|]. split.
      * eapply Forall_impl; [exact Hin|]. intros b' (dr' & ? & ?). exists dr'. split; [by right|done].
      * constructor; [exists b; auto|done].
Qed.

End bars.

Definition background (padding : num) (x y width height : num) (s_grey : Z) : list cmd :=
  if s_grey mod 2 =? 0 then
    match ndiv padding (PInt 2) with
    | Ok half => [Rectangle x (nsub y half) width (nadd height padding); grey90; Fill]
    | Err _ => []
    end
  else [].

(** Drawing a series of ranges whose values have colours never fails, and draws after
    the background one bar after the other: each is a range of the series cut to
    the range shown, in the colour of its value; their right ends increase and lie
    in the data pane; and every range among those the search selects ends under a
    bar, or before the pane. *)
Theorem draw_ranges_bars `{PyDictLaws pystr D} start end_ ranges x y width height (s : @canvas D) :
  (to_q start < to_q end_)%Q -> (0 <= to_q width)%Q ->
  Forall (fun dr => is_Some (d_get (snd (palette s)) (dr_value dr))) (rg_ranges ranges) ->
  exists bars lo hi,
    draw_ranges padding start end_ ranges x y width height s =
      ({| drawn := drawn s ++ background padding x y width height (grey s) ++ (bars ≫= bar_cmds y);
          palette := palette s; grey := grey s + 1 |}, Ok tt) /\
    get_ranges_bounds_num ranges start end_ = Ok (lo, hi) /\
    StronglySorted Z.lt (bar_right <$> bars) /\
    Forall (fun b => nint (nsub x (PInt 1)) < bar_right b <= nint (nadd x width)) bars /\
    Forall (fun b => exists dr, dr ∈ rg_ranges ranges /\
      bar_of start end_ x width (snd (palette s)) dr b) bars /\
    Forall (covered start end_ x width (snd (palette s)) (nint (nsub x (PInt 1))) bars)
      (py_slice (rg_ranges ranges) lo hi).
Proof.
  intros Hlt Hw Hcol.
  destruct (get_ranges_bounds_num_total ranges start end_) as (lo & hi & Hb).
  set (s0 := add_drawn (background padding x y width height (grey s)) s).
  assert (py_slice (rg_ranges ranges) lo hi ⊆ rg_ranges ranges) as Hsub.
  { unfold py_slice. intros dr Hdr. eapply elem_of_sublist; [exact Hdr|]. 
    etransitivity; [apply sublist_take|apply sublist_drop]. }
  destruct (draw_range_loop start end_ Hlt x y width Hw (py_slice (rg_ranges ranges) lo hi)
    (nint (nsub x (PInt 1))) s0) as (bars & last' & E & Hsort & Hin & Hcov).
  { apply Forall_forall. intros dr Hdr. rewrite Forall_forall in Hcol. by apply Hcol, Hsub. }
  exists bars, lo, hi. split; [|split; [done|]].
  - assert (draw_background padding x y width height s = (s0, Ok tt)) as Hbg.
    { unfold draw_background, gbind, mget, mlift, mret, s0, background, padding. cbn [ndiv neqb].
      destruct (grey s mod 2 =? 0); [done|]. by rewrite add_drawn_nil. }
    unfold draw_ranges. unfold gbind at 1. rewrite Hbg. unfold gbind at 1, mlift. rewrite Hb.
    unfold gbind. rewrite E. unfold set_grey, mset. cbn. by rewrite <- (assoc_L (++)).
  - apply StronglySorted_inv in Hsort as [Hsort Hall]. split; [done|]. split; [|split; [|done]].
    + apply Forall_forall. intros b Hbin. rewrite Forall_forall in Hin; rewrite Forall_forall in Hall. split.
      * apply Hall, list_elem_of_fmap. by exists b.
      * destruct (Hin b Hbin) as (dr & _ & _ & He & _).
        destruct (real_x_spec start end_ Hlt x width Hw (nmin (PInt (dr_end dr)) end_)) as (z & Hz & Hle & _).
        rewrite Hz in He. injection He as <-. apply Hle, nmin_spec.
    + eapply Forall_impl; [exact Hin|]. intros b (dr & Hdr & Hof). exists dr. split; [by apply Hsub|done].
Qed.

Definition demo_series : TimelineDataRange :=
  {| rg_name := $"r"; rg_ranges := [ {| dr_start := 0; dr_end := 40; dr_value := $"a" |};
                                     {| dr_start := 60; dr_end := 100; dr_value := $"a" |} ] |}.

Definition demo_canvas : @canvas (fun V => gmap pystr V) :=
  {| drawn := []; palette := ([], {[ $"a" := (1, 0, 0) ]}); grey := 1 |}.

(** Two bars of 20 pixels at the two ends of a pane that starts at 50. *)
Example draw_demo_series :
  drawn (fst (draw_ranges padding (PInt 20) (PInt 80) demo_series (PInt 50) (PInt 5) (PInt 60) (PInt 10)
    demo_canvas)) =
  bar_cmds (PInt 5) {| bar_left := 50; bar_right := 70; bar_color := (1, 0, 0) |} ++
  bar_cmds (PInt 5) {| bar_left := 90; bar_right := 110; bar_color := (1, 0, 0) |}.
Proof. vm_compute. reflexivity. Qed.

Lemma draw_ranges_bars_witness :
  exists bars, drawn (fst (draw_ranges padding (PInt 20) (PInt 80) demo_series
      (PInt 50) (PInt 5) (PInt 60) (PInt 10) demo_canvas)) = bars ≫= bar_cmds (PInt 5) /\
    StronglySorted Z.lt (bar_right <$> bars).
Proof.
  destruct (draw_ranges_bars (PInt 20) (PInt 80) demo_series (PInt 50) (PInt 5) (PInt 60) (PInt 10)
    demo_canvas) as (bars & lo & hi & E & _ & Hs & _).
  - reflexivity.
  - discriminate.
  - repeat constructor; eexists; vm_compute; reflexivity.
  - exists bars. split; [|exact Hs]. rewrite E. reflexivity.
Defined.

(** ** The legend *)

Section legend.
Context {D : Type -> Type} `{PyDict pystr D}.
Variable extents : pystr -> num * num.
Hypothesis extents_nonneg : forall s, (0 <= to_q (fst (extents s)))%Q /\ (0 <= to_q (snd (extents s)))%Q.
Variables padding width : num.
Hypothesis padding_nonneg : (0 <= to_q padding)%Q.

Notation place := (place_legend extents padding width).
Notation canvas := (@canvas D).

(** The height used once the current line is full. *)
Definition used (st : num * num * num) : Q :=
  let '(line_height, total_height, _) := st in (to_q total_height + to_q line_height)%Q.

Definition placed (st : num * num * num) : Prop :=
  let '(line_height, total_height, line_used) := st in
  (0 <= to_q line_height)%Q /\ (to_q padding <= to_q total_height)%Q /\ (to_q padding <= to_q line_used)%Q.

(** Where an item is drawn, once placed. *)
Definition item_at (st : num * num * num) (legend : pystr) : num * num :=
  let '(_, total_height, line_used) := st in
  (nsub line_used (nadd (nadd (nadd padding padding) (fst (extents legend))) padding), total_height).

(** The item lies right of the padding, within the width unless it is the first of
    its line, and below the padding; text and square end at [bottom] less the
    padding. *)
Definition item_fits (legend : pystr) (p : num * num) (bottom : Q) : Prop :=
  let '(x, y) := p in
  let '(t_width, t_height) := extents legend in
  (to_q padding <= to_q x)%Q /\
  ((to_q x == to_q padding)%Q \/ (to_q x + (3 * to_q padding + to_q t_width) <= to_q width)%Q) /\
  (to_q padding <= to_q y)%Q /\
  (to_q y + to_q t_height + to_q padding <= bottom)%Q.

Lemma place_fits st legend :
  placed st ->
  placed (place st legend) /\ (used st <= used (place st legend))%Q /\
  item_fits legend (item_at (place st legend) legend) (used (place st legend)).
Proof.
  destruct st as [[lh th] lu]. intros (Hlh & Hth & Hlu).
  unfold place_legend, item_at, item_fits. destruct (extents_nonneg legend) as [Hw Hh].
  destruct (extents legend) as [tw t_h] eqn:E. cbn [fst snd] in *.
  set (iw := nadd (nadd (nadd padding padding) tw) padding).
  assert (to_q iw == 3 * to_q padding + to_q tw)%Q as Hiw by (subst iw; rewrite !to_q_nadd; ring).
  set (lh' := if nltb lh (nadd t_h padding) then nadd t_h padding else lh).
  assert (to_q t_h + to_q padding <= to_q lh' /\ to_q lh <= to_q lh')%Q as [Hlh1 Hlh2].
  { subst lh'. destruct (nltb lh _) eqn:El; [apply nltb_spec in El|apply nltb_false in El];
      rewrite to_q_nadd in *; lra. }
  destruct (nltb width (nadd lu iw)) eqn:Ew; [apply nltb_spec in Ew|apply nltb_false in Ew];
    cbn [placed used fst snd]; rewrite ?to_q_nsub, ?to_q_nadd in *; rewrite ?Hiw in *;
    split_and!; lra.
Qed.

(** What [draw] issues for one item. *)
Definition item_cmds (legend : pystr) (p : num * num) (c : Color) : list cmd :=
  let '(x, y) := p in
  [Rectangle x y padding padding; black; SetLineWidth (PInt 2); StrokePreserve; source_color c; Fill;
   MoveTo (nadd x (nmul padding (PInt 2))) (nadd y (snd (extents legend))); black; ShowText legend].

Lemma draw_legend_item_step colors i st legend c (s : canvas) :
  colors !! i = Some c ->
  draw_legend_item extents padding width colors (Z.of_nat i, st) legend s =
    (add_drawn (item_cmds legend (item_at (place st legend) legend) c) s,
     Ok (Z.of_nat (S i), place st legend)).
Proof.
  intros Hc. unfold draw_legend_item, item_at. destruct (extents legend) as [tw t_h] eqn:E.
  destruct (place st legend) as [[lh th] lu] eqn:Ep. cbn [fst].
  unfold gbind, mlift, mret. rewrite emits_run.
  rewrite py_get_lookup, Nat2Z.id, Hc by lia. cbn [or_raise]. rewrite emits_run, add_drawn_app.
  rewrite Nat2Z.inj_succ. unfold item_cmds. rewrite E. done.
Qed.

Lemma draw_legend_loop legends colors i st (s : canvas) :
  placed st -> (i + length legends <= length colors)%nat ->
  exists pl,
    fst (mfold (draw_legend_item extents padding width colors) (Z.of_nat i, st) legends s) =
      add_drawn (concat (zip_with (fun l '(p, c) => item_cmds l p c) legends (zip pl (drop i colors)))) s /\
    is_ok (snd (mfold (draw_legend_item extents padding width colors) (Z.of_nat i, st) legends s)) = true /\
    (used st <= used (foldl place st legends))%Q /\
    Forall2 (fun l p => item_fits l p (used (foldl place st legends))) legends pl.
Proof.
  revert i st s. induction legends as [|l legends IH]; intros i st s Hst Hi; cbn [mfold foldl].
  - exists []. split_and!; [|done|lra|constructor]. cbn. by rewrite add_drawn_nil.
  - cbn [length] in Hi. destruct (lookup_lt_is_Some_2 colors i) as [c Hc]; [lia|].
    destruct (place_fits st l Hst) as (Hst' & Hused & Hfit).
    destruct (IH (S i) (place st l) (add_drawn (item_cmds l (item_at (place st l) l) c) s) Hst')
      as (pl & E & Eok & Hle & Hall); [lia|].
    unfold gbind. rewrite (draw_legend_item_step _ _ _ _ c) by done.
    exists (item_at (place st l) l :: pl). rewrite E. split_and!; [|done|lra|].
    + rewrite add_drawn_app. by rewrite (drop_S _ c i).
    + constructor; [|done]. revert Hfit. unfold item_fits. destruct (item_at _ _) as [x y].
      destruct (extents l). intros (? & ? & ? & ?). split_and!; try done. lra.
Qed.

(** With a colour for each, drawing the legend never fails; it draws a square and the
    name of each value, in order, at places that keep the padding on the left and
    above, that stay within the width but for a value alone on its line, and whose
    squares and texts end above the height the layout computed. *)
Theorem draw_legend_fits legends colors (s : canvas) :
  (length legends <= length colors)%nat ->
  exists pl,
    draw_legend extents padding width legends colors s =
      (add_drawn (concat (zip_with (fun l '(p, c) => item_cmds l p c) legends (zip pl colors))) s, Ok tt) /\
    Forall2 (fun l p => item_fits l p (to_q (legend_height extents padding legends width))) legends pl.
Proof.
  intros Hlen.
  destruct (draw_legend_loop legends colors 0 (PInt 0, padding, padding) s) as (pl & E & Eok & _ & Hall);
    [split_and!; apply Qle_refl|lia|].
  exists pl. split.
  - unfold draw_legend, gbind. rewrite drop_0 in E. cbn [Z.of_nat] in *.
    destruct (mfold _ _ legends s) as [s' [a|e]]; [|done]. by rewrite <- E.
  - unfold legend_height. destruct (foldl _ _ legends) as [[lh th] lu].
    eapply Forall2_impl; [exact Hall|]. cbn [used]. intros l [x y]. unfold item_fits.
    destruct (extents l). rewrite to_q_nadd. done.
Qed.

End legend.

Lemma draw_legend_fits_witness :
  exists pl, draw_legend demo_extents padding (PInt 100) [$"a"; $"b"] [(1, 0, 0); (0, 1, 0)] demo_canvas =
    (add_drawn (concat (zip_with (fun l '(p, c) => item_cmds demo_extents padding l p c) [$"a"; $"b"]
       (zip pl [(1, 0, 0); (0, 1, 0)]))) demo_canvas, Ok tt) /\ length pl = 2%nat.
Proof.
  destruct (draw_legend_fits (D := fun V => gmap pystr V) demo_extents) with (padding := padding) (width := PInt 100)
    (legends := [$"a"; $"b"]) (colors := [(1, 0, 0); (0, 1, 0)]) (s := demo_canvas) as (pl & E & Hall).
  - intros s. unfold demo_extents. cbn. split; [|discriminate]. 
    change 0%Q with (inject_Z 0). rewrite <- Zle_Qle. unfold py_len. lia.
  - discriminate.
  - cbn. lia.
  - exists pl. split; [exact E|]. by apply Forall2_length in Hall.
Defined.
