(* ===== verification/Shlex.v ===== *)
(** * [shlex.split]: the words of a command line

    The tokenizer of the standard library, in the mode [split] uses it: POSIX
    quoting, no comments, words ended by white space only. *)

From S2P Require Import Prelude.

Definition SQ : ascii := "'"%char.
Definition DQ : ascii := "034"%char.
Definition BS : ascii := "\"%char.

Definition sh_space (c : ascii) : bool := bool_decide (c ∈ [" "; "009"; "010"; "013"]%char).
Definition sh_quote (c : ascii) : bool := bool_decide (c = SQ) || bool_decide (c = DQ).

(** The state of [read_token]: between words, in a word, in quotes, after a
    backslash (with the state to go back to). *)
Inductive lex_state :=
| Between
| InWord
| InQuotes (q : ascii)
| Escaped (back : option ascii).

Definition back_to (back : option ascii) : lex_state :=
  match back with Some q => InQuotes q | None => InWord end.

(** [token] is the word read so far, [quoted] whether it had quotes: a word of
    nothing but quotes is kept. *)
Fixpoint lex (s : pystr) (st : lex_state) (token : pystr) (quoted : bool) : py (list pystr) :=
  match s with
  | [] =>
      match st with
      | Between => Ok []
      | InWord => Ok (if quoted || negb (bool_decide (token = [])) then [token] else [])
      | InQuotes _ => Err ValueError
      | Escaped _ => Err ValueError
      end
  | c :: s' =>
      match st with
      | Between =>
          if sh_space c then lex s' Between [] false
          else if bool_decide (c = BS) then lex s' (Escaped None) [] false
          else if sh_quote c then lex s' (InQuotes c) [] true
          else lex s' InWord [c] false
      | InWord =>
          if sh_space c then
            let! rest := lex s' Between [] false in
            Ok (if quoted || negb (bool_decide (token = [])) then token :: rest else rest)
          else if sh_quote c then lex s' (InQuotes c) token true
          else if bool_decide (c = BS) then lex s' (Escaped None) token quoted
          else lex s' InWord (token ++ [c]) quoted
      | InQuotes q =>
          if bool_decide (c = q) then lex s' InWord token true
          else if bool_decide (c = BS) && bool_decide (q = DQ) then lex s' (Escaped (Some q)) token true
          else lex s' (InQuotes q) (token ++ [c]) true
      | Escaped back =>
          let kept :=
            match back with
            | Some q => if bool_decide (c <> BS) && bool_decide (c <> q) then [BS] else []
            | None => []
            end in
          lex s' (back_to back) (token ++ kept ++ [c]) quoted
      end
  end.

(** [shlex.split(s)] *)
Definition shlex_split (s : pystr) : py (list pystr) := lex s Between [] false.

Example shlex_split_ex :
  shlex_split ($"./foo.py 2>&1 'a  b'c \ d" ++ dquote ++ $"\q" ++ dquote) =
  Ok [$"./foo.py"; $"2>&1"; $"a  bc"; $" d\q"].
Proof. vm_compute. reflexivity. Qed.

(** ** Quoting

    A word between single quotes, each of its own quotes between double ones. *)

Definition quote_char (c : ascii) : pystr := if decide (c = SQ) then [SQ; DQ; SQ; DQ; SQ] else [c].
Definition shlex_quote (w : pystr) : pystr := SQ :: (w ≫= quote_char) ++ [SQ].

Lemma lex_quoted w s token : lex ((w ≫= quote_char) ++ SQ :: s) (InQuotes SQ) token true = lex s InWord (token ++ w) true.
Proof.
  revert token. induction w as [|c w IH]; intros token; cbn [mbind list_bind app].
  - cbn. by rewrite (right_id_L [] (++)).
  - unfold quote_char at 1. case_decide as Hc.
    + subst c. etransitivity; [apply (IH (token ++ [SQ]))|]. by rewrite <- (assoc_L (++)).
    + cbn [app lex]. rewrite (bool_decide_eq_false_2 (c = SQ)) by done.
      rewrite (bool_decide_eq_false_2 (SQ = DQ)) by done. rewrite andb_false_r, IH. by rewrite <- (assoc_L (++)).
Qed.

Lemma lex_word w s : lex (shlex_quote w ++ s) Between [] false = lex s InWord w true.
Proof.
  unfold shlex_quote. rewrite <- app_comm_cons. cbn [lex].
  rewrite <- (assoc_L (++)). cbn [app]. apply (lex_quoted w s []).
Qed.

(** Splitting a line of quoted words gives the words back, whatever is in them. *)
Lemma shlex_split_quoted ws : shlex_split (join $" " (shlex_quote <$> ws)) = Ok ws.
Proof.
  unfold shlex_split. induction ws as [|w ws IH]; [done|].
  destruct ws as [|w' ws].
  - cbn [fmap list_fmap join]. rewrite <- (right_id_L [] (++) (shlex_quote w)), lex_word. done.
  - revert IH. set (line := join $" " (shlex_quote <$> w' :: ws)). intros IH.
    change (lex (shlex_quote w ++ " "%char :: line) Between [] false = Ok (w :: w' :: ws)).
    rewrite lex_word. cbn [lex]. by rewrite IH.
Qed.
