(* ===== verification/ShellCmd.v ===== *)
(** * [waf-tools/shellcmd.py]: pipelines of commands

    [Pipeline.parse] turns a command line into the list of its commands and
    operators, [Pipeline.run] runs it.  What the operating system does (opening
    files, starting processes and waiting for them) is a parameter that works on
    a state of its own.  [debug], which prints, is left out. *)

From S2P Require Import Prelude StateM PyDict OsPath Shlex.

Open Scope Z_scope.

(** ** Nodes *)

(** Where an output goes: a file, [Command.PIPE] or [Command.STDOUT]. *)
Inductive target := ToFile (f : pystr) | ToPipe | ToStdout.

Record Command := {
  cmd_name : pystr;
  cmd_argv : list pystr;
  cmd_stdin : option pystr;
  cmd_stdout : option target;
  cmd_stderr : option target;
  cmd_env : option (list (pystr * pystr))
}.

Inductive node :=
| NCmd (c : Command)
| NChdir (dir : option pystr)
| NPipe
| NAnd
| NOr.

Definition Command_init (name : pystr) (env : option (list (pystr * pystr))) : Command :=
  {| cmd_name := name; cmd_argv := [name]; cmd_stdin := None; cmd_stdout := None; cmd_stderr := None;
     cmd_env := env |}.

Definition add_arg (a : pystr) (c : Command) : Command :=
  {| cmd_name := cmd_name c; cmd_argv := cmd_argv c ++ [a]; cmd_stdin := cmd_stdin c;
     cmd_stdout := cmd_stdout c; cmd_stderr := cmd_stderr c; cmd_env := cmd_env c |}.
Definition set_stdin (f : pystr) (c : Command) : Command :=
  {| cmd_name := cmd_name c; cmd_argv := cmd_argv c; cmd_stdin := Some f;
     cmd_stdout := cmd_stdout c; cmd_stderr := cmd_stderr c; cmd_env := cmd_env c |}.
Definition set_stdout (t : option target) (c : Command) : Command :=
  {| cmd_name := cmd_name c; cmd_argv := cmd_argv c; cmd_stdin := cmd_stdin c;
     cmd_stdout := t; cmd_stderr := cmd_stderr c; cmd_env := cmd_env c |}.
Definition set_stderr (t : option target) (c : Command) : Command :=
  {| cmd_name := cmd_name c; cmd_argv := cmd_argv c; cmd_stdin := cmd_stdin c;
     cmd_stdout := cmd_stdout c; cmd_stderr := t; cmd_env := cmd_env c |}.

(** ** [get_abbreviated_command]: the test for [Or] is a second test for [And]. *)
Definition abbreviate (n : node) : list pystr :=
  match n with
  | NCmd c => [cmd_name c]
  | NChdir dir => [$"cd " ++ default $"None" dir]
  | NPipe => [$"|"]
  | NAnd => [$"&&"]
  | NOr => []
  end.

Definition get_abbreviated_command (pipeline : list node) : pystr := join $" " (pipeline ≫= abbreviate).

(** ** [parse] *)

(** [\s] of a regular expression, on characters of 8 bits *)
Definition re_space (c : ascii) : bool :=
  let n := Z.of_nat (nat_of_ascii c) in
  ((9 <=? n) && (n <=? 13)) || ((28 <=? n) && (n <=? 32)) || (n =? 133) || (n =? 160).

(** [^([a-zA-Z0-9_]+)=(\S+)$], where [$] also matches before a final newline *)
Definition match_env_var (token : pystr) : option (pystr * pystr) :=
  '(k, r) ← take_some word_char token;
  r ← take_lit $"=" r;
  '(v, r) ← take_some (fun c => negb (re_space c)) r;
  if bool_decide (r = []) || bool_decide (r = [NL]) then Some (k, v) else None.

Inductive pstate := BEGIN | COMMAND | CHDIR | STDERR | STDOUT | STDIN.

Record parser := {
  p_state : pstate;
  p_current : option node;
  p_pipeline : list node;
  p_env : list (pystr * pystr)
}.

Definition parser_init : parser :=
  {| p_state := BEGIN; p_current := None; p_pipeline := []; p_env := [] |}.

Definition goto (st : pstate) (n : node) (p : parser) : parser :=
  {| p_state := st; p_current := Some n; p_pipeline := p_pipeline p; p_env := p_env p |}.

(** [_commit_command] *)
Definition commit (p : parser) : py (list node) :=
  let! n := or_raise AssertionError (p_current p) in Ok (p_pipeline p ++ [n]).

(** The operator after a command: the command is committed, and the next one begins. *)
Definition operator (op : node) (p : parser) : py parser :=
  let! pipeline := commit p in
  Ok {| p_state := BEGIN; p_current := None; p_pipeline := pipeline ++ [op]; p_env := p_env p |}.

Definition is_none {A} (o : option A) : bool := match o with None => true | Some _ => false end.

(** A token at the start of a command. *)
Definition on_begin (p : parser) (token : pystr) : py parser :=
  match match_env_var token with
  | Some (k, v) =>
      Ok {| p_state := BEGIN; p_current := p_current p; p_pipeline := p_pipeline p;
            p_env := dict_set k v (p_env p) |}
  | None =>
      let! _ := raise_unless (is_none (p_current p)) AssertionError in
      if decide (token = $"cd") then
        let! _ := raise_unless (bool_decide (p_env p = [])) AssertionError in
        Ok (goto CHDIR (NChdir None) p)
      else
        let env := if bool_decide (p_env p = []) then None else Some (p_env p) in
        Ok {| p_state := COMMAND; p_current := Some (NCmd (Command_init token env));
              p_pipeline := p_pipeline p; p_env := [] |}
  end.

(** A token after the name of the command [c]. *)
Definition on_command (c : Command) (p : parser) (token : pystr) : py parser :=
  if decide (token = $">") then Ok (goto STDOUT (NCmd c) p)
  else if decide (token = $"2>") then Ok (goto STDERR (NCmd c) p)
  else if decide (token = $"2>&1") then
    let! _ := raise_unless (is_none (cmd_stderr c)) AssertionError in
    Ok (goto COMMAND (NCmd (set_stderr (Some ToStdout) c)) p)
  else if decide (token = $"<") then Ok (goto STDIN (NCmd c) p)
  else if decide (token = $"|") then
    let! _ := raise_unless (is_none (cmd_stdout c)) AssertionError in
    operator NPipe (goto COMMAND (NCmd (set_stdout (Some ToPipe) c)) p)
  else if decide (token = $"&&") then operator NAnd p
  else if decide (token = $"||") then operator NOr p
  else Ok (goto COMMAND (NCmd (add_arg token c)) p).

Definition on_chdir (dir : option pystr) (p : parser) (token : pystr) : py parser :=
  if decide (token = $"&&") then operator NAnd p
  else
    let! _ := raise_unless (is_none dir) AssertionError in
    Ok (goto CHDIR (NChdir (Some token)) p).

(** The body of the loop over the tokens. *)
Definition parse_token (p : parser) (token : pystr) : py parser :=
  match p_state p, p_current p with
  | BEGIN, _ => on_begin p token
  | COMMAND, Some (NCmd c) => on_command c p token
  | CHDIR, Some (NChdir dir) => on_chdir dir p token
  | STDOUT, Some (NCmd c) =>
      let! _ := raise_unless (is_none (cmd_stdout c)) AssertionError in
      Ok (goto COMMAND (NCmd (set_stdout (Some (ToFile token)) c)) p)
  | STDERR, Some (NCmd c) =>
      let! _ := raise_unless (is_none (cmd_stderr c)) AssertionError in
      Ok (goto COMMAND (NCmd (set_stderr (Some (ToFile token)) c)) p)
  | STDIN, Some (NCmd c) =>
      let! _ := raise_unless (is_none (cmd_stdin c)) AssertionError in
      Ok (goto COMMAND (NCmd (set_stdin token c)) p)
  | _, _ => Err AttributeError (* no state has another current command *)
  end.

(** [parse] of a list of tokens, and of a text. *)
Definition parse (tokens : list pystr) : py (list node) :=
  let! p := for_each parse_token tokens parser_init in
  commit p.

Definition parse_text (command : pystr) : py (list node) :=
  let! tokens := shlex_split command in parse tokens.

(** ** [run] *)

Section run.
(** The state of the system, its files and processes, and what it does. *)
Context {W file proc : Type}.

(** What [Popen] is given for a standard stream. *)
Inductive channel :=
| OpenFile (f : file)
| DevNull
| StdoutOf (p : proc)
| SubprocessPipe
| SubprocessStdout.

Record popen_args := {
  a_argv : list pystr;
  a_stdin : option channel;
  a_stdout : option channel;
  a_stderr : option channel;
  a_env : option (list (pystr * pystr));
  a_cwd : option pystr
}.

Variable environ : list (pystr * pystr).
Variable open_read open_write : pystr -> stM W file.
Variable close : file -> stM W ().
Variable popen : popen_args -> stM W proc.
Variable wait : proc -> stM W Z.
Variable print : pystr -> stM W ().

(** [_open_out_file] *)
Definition open_out_file (filename : pystr) : stM W channel :=
  if bool_decide (filename ∈ [$"NUL:"; $"/dev/null"]) then mret DevNull
  else do! f := open_write filename in mret (OpenFile f).

(** The status of the processes of a pipe from the statuses of each. *)
Fixpoint piped_status (last : Z) (retvals : list Z) : Z :=
  match retvals with
  | [] => 0
  | r :: rs => if r =? 0 then piped_status last rs else last
  end.

Definition exec_piped_commands (commands : list proc) : stM W Z :=
  do! retvals := mfold (fun retvals cmd => do! r := wait cmd in mret (retvals ++ [r])) [] commands in
  mret (piped_status (List.last retvals 0) retvals).

(** The local variables of [run]. *)
Record locals := {
  files_to_close : list channel;
  piped_commands : list proc;
  display : list pystr;
  piped : bool;
  cwd : pystr
}.

Definition locals_init : locals :=
  {| files_to_close := []; piped_commands := []; display := []; piped := false; cwd := $"." |}.

Definition show (l : list pystr) (st : locals) : locals :=
  {| files_to_close := files_to_close st; piped_commands := piped_commands st; display := display st ++ l;
     piped := piped st; cwd := cwd st |}.
Definition to_close (c : channel) (st : locals) : locals :=
  {| files_to_close := files_to_close st ++ [c]; piped_commands := piped_commands st; display := display st;
     piped := piped st; cwd := cwd st |}.

Definition close_files (files : list channel) : stM W () :=
  mfor (fun c => match c with OpenFile f => close f | _ => mret tt end) files.

Definition show_env (env : list (pystr * pystr)) : pystr :=
  join $" " ((fun kv => kv.1 ++ $"=" ++ kv.2) <$> env).

Definition is_nil {A} (l : list A) : bool := match l with [] => true | _ => false end.

(** The environment of a command, when it has variables. *)
Definition env_of (cmd : Command) : option (list (pystr * pystr)) :=
  match cmd_env cmd with
  | Some env => if is_nil env then None else Some env
  | None => None
  end.

Definition shown (verbose : bool) (l : list pystr) (st : locals) : locals :=
  if verbose then show l st else st.

(** From [cmd = node] to [piped_commands.append(proc)]. *)
Definition start_command (verbose : bool) (cmd : Command) (st : locals) : stM W locals :=
  let st := shown verbose
    [match env_of cmd with
     | Some env => show_env env ++ $" " ++ join $" " (cmd_argv cmd)
     | None => join $" " (cmd_argv cmd)
     end] st in
  do! '(stdin, st) :=
    (if piped st then
       do! p := mlift (py_get (piped_commands st) (-1)) in mret (Some (StdoutOf p), st)
     else match cmd_stdin cmd with
     | Some name =>
         do! f := open_read name in
         mret (Some (OpenFile f), to_close (OpenFile f) (shown verbose [$"< " ++ name] st))
     | None => mret (None, st)
     end) in
  do! '(stdout, st) :=
    match cmd_stdout cmd with
    | None => mret (None, st)
    | Some ToPipe => mret (Some SubprocessPipe, st)
    | Some (ToFile name) =>
        do! c := open_out_file name in
        mret (Some c, shown verbose [$"> " ++ name] (to_close c st))
    | Some ToStdout => mlift (Err TypeError) (* open() of a class; no command has it *)
    end in
  do! '(stderr, st) :=
    match cmd_stderr cmd with
    | None => mret (None, st)
    | Some ToPipe => mret (Some SubprocessPipe, st)
    | Some ToStdout => mret (Some SubprocessStdout, shown verbose [$"2>&1"] st)
    | Some (ToFile name) =>
        do! c := open_out_file name in
        mret (Some c, shown verbose [$"2> " ++ name] (to_close c st))
    end in
  do! p := popen {| a_argv := cmd_argv cmd; a_stdin := stdin; a_stdout := stdout; a_stderr := stderr;
                    a_env := dict_update environ <$> env_of cmd;
                    a_cwd := if decide (cwd st = $".") then None else Some (cwd st) |} in
  mret {| files_to_close := files_to_close st; piped_commands := piped_commands st ++ [p];
          display := display st; piped := piped st; cwd := cwd st |}.

(** The end of a pipe: its status, with the files closed in any case. *)
Definition finish (st : locals) : stM W Z :=
  mfinally (exec_piped_commands (piped_commands st)) (close_files (files_to_close st)).

Definition next_pipe (st : locals) : locals :=
  {| files_to_close := []; piped_commands := []; display := []; piped := false; cwd := cwd st |}.

Definition os_path_join_opt (a : pystr) (b : option pystr) : py pystr :=
  let! b := or_raise TypeError b in Ok (os_path_join a b).

(** The loop of [run].  With [verbose], the messages of the operators read
    [retval], which only the end of the pipeline assigns. *)
Fixpoint run_loop (verbose : bool) (pipeline : list node) (st : locals) : stM W (option Z) :=
  match pipeline with
  | [] => mret None
  | NChdir _ :: [] => mlift (Err IndexError)
  | NChdir dir :: NAnd :: rest =>
      do! d := mlift (os_path_join_opt (cwd st) dir) in
      run_loop verbose rest (shown verbose [$"cd " ++ default [] dir ++ $" &&"]
        {| files_to_close := files_to_close st; piped_commands := piped_commands st;
           display := display st; piped := piped st; cwd := d |})
  | NChdir _ :: _ :: _ => mlift (Err AssertionError)
  | NCmd cmd :: rest =>
      do! st := start_command verbose cmd st in
      match rest with
      | [] =>
          do! retval := mfinally
            (do! retval := exec_piped_commands (piped_commands st) in
             (if verbose then print (join $" " (display st) ++ $": exit code " ++ show_Z retval)
              else mret tt) >>>
             mret retval)
            (close_files (files_to_close st)) in
          mret (Some retval)
      | NPipe :: rest' =>
          run_loop verbose rest'
            {| files_to_close := files_to_close st; piped_commands := piped_commands st;
               display := display st ++ [$"|"]; piped := true; cwd := cwd st |}
      | NOr :: rest' =>
          do! this_retval := finish st in
          if verbose then mlift (Err UnboundLocalError)
          else if this_retval =? 0 then mret (Some this_retval)
          else run_loop verbose rest' (next_pipe st)
      | NAnd :: rest' =>
          do! this_retval := finish st in
          if verbose then mlift (Err UnboundLocalError)
          else if this_retval =? 0 then run_loop verbose rest' (next_pipe st)
          else mret (Some this_retval)
      | _ :: rest' => run_loop verbose rest' st
      end
  | _ => mlift (Err AssertionError)
  end.

Definition run (verbose : bool) (pipeline : list node) : stM W (option Z) :=
  run_loop verbose pipeline locals_init.

End run.

(** ** The pipelines [parse] returns *)

Definition operators : list pystr := [$">"; $"2>"; $"2>&1"; $"<"; $"|"; $"&&"; $"||"].

Definition env_var_ok (kv : pystr * pystr) : Prop :=
  match_env_var (kv.1 ++ $"=" ++ kv.2) = Some kv.

Definition env_ok (env : list (pystr * pystr)) : Prop := NoDup env.*1 /\ Forall env_var_ok env.

Definition cmd_ok (c : Command) : Prop :=
  cmd_name c <> $"cd" /\ match_env_var (cmd_name c) = None /\
  (exists args, cmd_argv c = cmd_name c :: args /\ Forall (fun a => a ∉ operators) args) /\
  cmd_stdout c <> Some ToStdout /\ cmd_stderr c <> Some ToPipe /\
  match cmd_env c with None => True | Some env => env <> [] /\ env_ok env end.

Definition dir_ok (dir : option pystr) : Prop := dir <> Some $"&&".

(** Commands and operators alternate, a pipe is what follows a command whose
    output it is, and a change of directory is followed by [&&] or ends the line. *)
Fixpoint wf (p : list node) : Prop :=
  match p with
  | NCmd c :: [] => cmd_ok c /\ cmd_stdout c <> Some ToPipe
  | NCmd c :: NPipe :: rest => cmd_ok c /\ cmd_stdout c = Some ToPipe /\ wf rest
  | NCmd c :: (NAnd | NOr) :: rest => cmd_ok c /\ cmd_stdout c <> Some ToPipe /\ wf rest
  | NChdir dir :: [] => dir_ok dir
  | NChdir dir :: NAnd :: rest => dir_ok dir /\ wf rest
  | _ => False
  end.

(** The tokens of a pipeline. *)
Definition unparse_target (op : pystr) (t : option target) : list pystr :=
  match t with
  | None | Some ToPipe => []
  | Some (ToFile f) => [op; f]
  | Some ToStdout => [$"2>&1"]
  end.

Definition unparse_cmd (c : Command) : list pystr :=
  ((fun kv => kv.1 ++ $"=" ++ kv.2) <$> default [] (cmd_env c)) ++ cmd_argv c ++
  match cmd_stdin c with None => [] | Some f => [$"<"; f] end ++
  unparse_target $">" (cmd_stdout c) ++ unparse_target $"2>" (cmd_stderr c).

Definition unparse_node (n : node) : list pystr :=
  match n with
  | NCmd c => unparse_cmd c
  | NChdir dir => $"cd" :: option_list dir
  | NPipe => [$"|"]
  | NAnd => [$"&&"]
  | NOr => [$"||"]
  end.

Definition unparse (p : list node) : list pystr := p ≫= unparse_node.

(** *** What the parser returns is well formed *)

(** The nodes committed so far, to be followed by a well-formed pipeline. *)
Definition open_pipe (q : list node) : Prop := forall rest, wf rest -> wf (q ++ rest).

Definition parser_ok (p : parser) : Prop :=
  open_pipe (p_pipeline p) /\
  match p_state p with
  | BEGIN => p_current p = None /\ env_ok (p_env p)
  | CHDIR => p_env p = [] /\ exists dir, p_current p = Some (NChdir dir) /\ dir_ok dir
  | _ => p_env p = [] /\
         exists c, p_current p = Some (NCmd c) /\ cmd_ok c /\ cmd_stdout c <> Some ToPipe
  end.

Lemma env_ok_set k v env : env_var_ok (k, v) -> env_ok env -> env_ok (dict_set k v env).
Proof.
  intros Hkv [Hnd Hall]. split.
  - enough (NoDup (dict_set k v env).*1 /\ forall x, x ∈ (dict_set k v env).*1 -> x = k \/ x ∈ env.*1) by tauto.
    clear Hall. induction env as [|[k' v'] env IH]; cbn in *; [split; [by apply NoDup_singleton|set_solver]|].
    apply NoDup_cons in Hnd as [Hk' Hnd]. destruct (IH Hnd) as [IH1 IH2].
    case_decide; subst; cbn; (split; [apply NoDup_cons|]); set_solver.
  - induction env as [|[k' v'] env IH]; cbn; [by repeat constructor|].
    apply Forall_cons in Hall as [? ?]. apply NoDup_cons in Hnd as [? ?].
    case_decide; constructor; auto.
Qed.

Lemma match_env_var_build k v :
  k <> [] -> Forall (fun c => word_char c = true) k ->
  v <> [] -> Forall (fun c => negb (re_space c) = true) v -> env_var_ok (k, v).
Proof.
  intros Hk Hk' Hv Hv'. unfold env_var_ok, match_env_var. cbn [fst snd].
  rewrite (take_some_app _ k $"=" v) by done. cbn [mbind option_bind].
  rewrite take_lit_app. cbn [mbind option_bind].
  pose proof (take_some_app (fun c => negb (re_space c)) v [] []) as E.
  rewrite !(right_id_L [] (++)) in E. by rewrite E.
Qed.

Lemma match_env_var_ok token k v : match_env_var token = Some (k, v) -> env_var_ok (k, v).
Proof.
  unfold match_env_var. intros H.
  apply bind_Some in H as ([k' r1] & H1 & H). apply bind_Some in H as (r2 & _ & H).
  apply bind_Some in H as ([v' r3] & H3 & H).
  apply take_some_Some in H1 as (? & _ & ?), H3 as (? & _ & ?).
  destruct (_ || _); [|done]. injection H as <- <-. by apply match_env_var_build.
Qed.

Lemma operator_ok op p q :
  operator op p = Ok q -> p_env p = [] ->
  (forall n, p_current p = Some n -> open_pipe (p_pipeline p) -> open_pipe (p_pipeline p ++ [n; op])) ->
  open_pipe (p_pipeline p) -> parser_ok q.
Proof.
  unfold operator, commit. destruct (p_current p) as [n|]; [|done]. cbn. intros [= <-] He Hn Hp.
  split; cbn; [|rewrite He; repeat constructor; constructor].
  rewrite <- (assoc_L (++)). by apply Hn.
Qed.

(** What may follow a command, or a change of directory. *)
Lemma open_cmd q c op :
  cmd_ok c -> op = NAnd \/ op = NOr -> cmd_stdout c <> Some ToPipe ->
  open_pipe q -> open_pipe (q ++ [NCmd c; op]).
Proof.
  intros Hc Hop Hs Hq rest Hrest. rewrite <- (assoc_L (++)). apply Hq. by destruct Hop as [-> | ->].
Qed.

Lemma open_cmd_pipe q c :
  cmd_ok c -> cmd_stdout c = Some ToPipe -> open_pipe q -> open_pipe (q ++ [NCmd c; NPipe]).
Proof. intros Hc Hs Hq rest Hrest. rewrite <- (assoc_L (++)). by apply Hq. Qed.

Lemma open_chdir q dir : dir_ok dir -> open_pipe q -> open_pipe (q ++ [NChdir dir; NAnd]).
Proof. intros Hd Hq rest Hrest. rewrite <- (assoc_L (++)). by apply Hq. Qed.

Lemma cmd_ok_init token env :
  token <> $"cd" -> match_env_var token = None -> env_ok env ->
  cmd_ok (Command_init token (if bool_decide (env = []) then None else Some env)).
Proof.
  intros Hcd Hm He. split_and!; try done.
  - by exists [].
  - cbn. case_bool_decide; [done|]. by split.
Qed.

Lemma cmd_ok_arg c a : cmd_ok c -> a ∉ operators -> cmd_ok (add_arg a c).
Proof.
  intros (? & ? & (args & Hargs & ?) & ? & ? & ?) Ha. split_and!; try done.
  exists (args ++ [a]). cbn. rewrite Hargs. split; [done|]. apply Forall_app. by repeat constructor.
Qed.

Lemma on_begin_ok p token q :
  on_begin p token = Ok q -> p_current p = None -> env_ok (p_env p) -> p_state p = BEGIN ->
  open_pipe (p_pipeline p) -> parser_ok q.
Proof.
  unfold on_begin. intros H Hcur Henv Hst Hp. destruct (match_env_var token) as [[k v]|] eqn:Hm.
  - injection H as <-. split; [done|]. cbn. split; [done|].
    apply env_ok_set; [by eapply match_env_var_ok|done].
  - rewrite Hcur in H. cbn in H. case_decide as Hcd.
    + case_bool_decide as He; cbn in H; [|done]. injection H as <-.
      split; [done|]. cbn. split; [done|]. by exists None.
    + injection H as <-. split; [done|]. cbn. split; [done|]. eexists. split; [done|].
      split; [by apply cmd_ok_init|done].
Qed.

Lemma on_command_ok p c token q :
  on_command c p token = Ok q -> p_current p = Some (NCmd c) -> p_env p = [] -> cmd_ok c ->
  cmd_stdout c <> Some ToPipe -> open_pipe (p_pipeline p) -> parser_ok q.
Proof.
  unfold on_command. intros H Hcur Henv Hc Hs Hp.
  pose proof Hc as (H1 & H2 & H3 & H4 & H5 & H6).
  repeat case_decide; inv_ok; subst; try (by (split; [done|]; cbn; split; [done|]; exists c)).
  - split; [done|]. cbn. split; [done|]. eexists. split; [done|]. done.
  - eapply operator_ok; [exact H|done| |done]. cbn. intros n [= <-] ?. by apply open_cmd_pipe.
  - eapply operator_ok; [exact H|done| |done]. rewrite Hcur. intros n [= <-] ?. by apply open_cmd; [|left|..].
  - eapply operator_ok; [exact H|done| |done]. rewrite Hcur. intros n [= <-] ?. by apply open_cmd; [|right|..].
  - split; [done|]. cbn. split; [done|]. eexists. split; [done|]. split; [|done].
    apply cmd_ok_arg; [done|]. unfold operators. set_solver.
Qed.

Lemma parse_token_ok p token q : parser_ok p -> parse_token p token = Ok q -> parser_ok q.
Proof.
  intros [Hp Hst] H. unfold parse_token in H. destruct (p_state p) eqn:Es.
  - destruct Hst. by eapply on_begin_ok.
  - destruct Hst as (He & c & Hcur & Hc & Hs). rewrite Hcur in H. by eapply on_command_ok.
  - destruct Hst as (He & dir & Hcur & Hd). rewrite Hcur in H. unfold on_chdir in H. case_decide.
    + eapply operator_ok; [exact H|done| |done]. rewrite Hcur. intros n [= <-] ?. by apply open_chdir.
    + inv_ok. subst q. split; [done|]. cbn. split; [done|]. eexists. split; [done|]. by intros [= ?].
  - destruct Hst as (He & c & Hcur & (? & ? & ? & ? & ? & ?) & Hs). rewrite Hcur in H. inv_ok. subst q.
    split; [done|]. cbn. split; [done|]. eexists. done.
  - destruct Hst as (He & c & Hcur & (? & ? & ? & ? & ? & ?) & Hs). rewrite Hcur in H. inv_ok. subst q.
    split; [done|]. cbn. split; [done|]. eexists. done.
  - destruct Hst as (He & c & Hcur & (? & ? & ? & ? & ? & ?) & Hs). rewrite Hcur in H. inv_ok. subst q.
    split; [done|]. cbn. split; [done|]. eexists. done.
Qed.

Lemma parse_wf tokens p : parse tokens = Ok p -> wf p.
Proof.
  unfold parse. intros H. apply rbind_Ok in H as (q & Hq & Hc).
  assert (parser_ok q) as [Hopen Hst].
  { apply (for_each_ind parse_token (fun _ => parser_ok) tokens parser_init q); [|eauto using parse_token_ok|done].
    split; [by intros rest ?|]. cbn. split; [done|]. split; constructor. }
  unfold commit in Hc. destruct (p_current q) as [n|] eqn:Hn; [|done]. cbn in Hc. injection Hc as <-.
  apply Hopen. destruct (p_state q).
  - by destruct Hst.
  - destruct Hst as (_ & c & [= ->] & ?). done.
  - destruct Hst as (_ & dir & [= ->] & ?). done.
  - destruct Hst as (_ & c & [= ->] & ?). done.
  - destruct Hst as (_ & c & [= ->] & ?). done.
  - destruct Hst as (_ & c & [= ->] & ?). done.
Qed.

(** *** What is well formed is parsed back *)

Lemma dict_set_new k v d : k ∉ d.*1 -> dict_set k v d = d ++ [(k, v)].
Proof.
  induction d as [|[k' v'] d IH]; cbn; [done|]. intros Hk.
  rewrite decide_False by set_solver. rewrite IH by set_solver. done.
Qed.

Lemma parse_env env e0 q :
  NoDup (e0 ++ env).*1 -> Forall env_var_ok env ->
  for_each parse_token ((fun kv => kv.1 ++ $"=" ++ kv.2) <$> env)
    {| p_state := BEGIN; p_current := None; p_pipeline := q; p_env := e0 |} =
  Ok {| p_state := BEGIN; p_current := None; p_pipeline := q; p_env := e0 ++ env |}.
Proof.
  revert e0. induction env as [|[k v] env IH]; intros e0 Hnd Hok.
  - cbn. by rewrite (right_id_L [] (++)).
  - apply Forall_cons in Hok as [Hkv Hok]. cbn [fmap list_fmap for_each].
    unfold parse_token at 1. cbn [p_state]. unfold on_begin. unfold env_var_ok in Hkv. rewrite Hkv.
    cbn [rbind p_current p_pipeline p_env]. rewrite dict_set_new.
    + rewrite (IH (e0 ++ [(k, v)])); [|by rewrite <- (assoc_L (++))|done].
      by rewrite <- (assoc_L (++)).
    + rewrite fmap_app in Hnd. apply NoDup_app in Hnd as (_ & Hd & _). set_solver.
Qed.

Lemma parse_args args c q :
  Forall (fun a => a ∉ operators) args ->
  for_each parse_token args {| p_state := COMMAND; p_current := Some (NCmd c); p_pipeline := q; p_env := [] |} =
  Ok {| p_state := COMMAND;
        p_current := Some (NCmd {| cmd_name := cmd_name c; cmd_argv := cmd_argv c ++ args;
          cmd_stdin := cmd_stdin c; cmd_stdout := cmd_stdout c; cmd_stderr := cmd_stderr c;
          cmd_env := cmd_env c |});
        p_pipeline := q; p_env := [] |}.
Proof.
  revert c. induction args as [|a args IH]; intros c Hargs.
  - cbn. rewrite (right_id_L [] (++)). by destruct c.
  - apply Forall_cons in Hargs as [Ha Hargs]. cbn [for_each].
    unfold parse_token at 1. cbn [p_state p_current]. unfold on_command.
    unfold operators in Ha. rewrite !not_elem_of_cons in Ha.
    destruct Ha as (H1 & H2 & H3 & H4 & H5 & H6 & H7 & _).
    rewrite !decide_False by done. unfold goto. cbn [rbind p_pipeline p_env]. rewrite IH by done. cbn.
    by rewrite <- (assoc_L (++)).
Qed.

(** The command as it is before the operator that follows it. *)
Definition before_pipe (c : Command) : Command :=
  match cmd_stdout c with Some ToPipe => set_stdout None c | _ => c end.

Lemma before_pipe_id c : cmd_stdout c <> Some ToPipe -> before_pipe c = c.
Proof. unfold before_pipe. by destruct (cmd_stdout c) as [[]|]. Qed.

Lemma parse_cmd c q :
  cmd_ok c ->
  for_each parse_token (unparse_cmd c) {| p_state := BEGIN; p_current := None; p_pipeline := q; p_env := [] |} =
  Ok {| p_state := COMMAND; p_current := Some (NCmd (before_pipe c)); p_pipeline := q; p_env := [] |}.
Proof.
  intros (Hcd & Hm & (args & Hargv & Hargs) & Hout & Herr & Henv).
  unfold unparse_cmd. rewrite for_each_app, parse_env; [|by destruct (cmd_env c) as [e|]; [apply Henv|constructor]..].
  cbn [rbind app]. rewrite for_each_app, Hargv. cbn [for_each].
  unfold parse_token at 1. cbn [p_state p_current]. unfold on_begin. rewrite Hm. cbn [is_none raise_unless rbind p_current].
  rewrite decide_False by done. cbn [rbind p_pipeline p_env]. rewrite parse_args by done.
  destruct c as [name argv sin sout serr env]. cbn in *. subst argv.
  destruct env as [e|]; [rewrite bool_decide_eq_false_2 by naive_solver|];
    destruct sin as [f|], sout as [[fo| |]|], serr as [[fe| |]|]; try done; reflexivity.
Qed.

Lemma parse_operator op token c q :
  (token, op) ∈ [($"&&", NAnd); ($"||", NOr)] ->
  parse_token {| p_state := COMMAND; p_current := Some (NCmd c); p_pipeline := q; p_env := [] |} token =
  Ok {| p_state := BEGIN; p_current := None; p_pipeline := (q ++ [NCmd c]) ++ [op]; p_env := [] |}.
Proof.
  intros [[= -> ->]|[[= -> ->]|[]%elem_of_nil]%elem_of_cons]%elem_of_cons; reflexivity.
Qed.

Lemma parse_pipe c q :
  cmd_stdout c = Some ToPipe ->
  parse_token {| p_state := COMMAND; p_current := Some (NCmd (before_pipe c)); p_pipeline := q; p_env := [] |} $"|" =
  Ok {| p_state := BEGIN; p_current := None; p_pipeline := (q ++ [NCmd c]) ++ [NPipe]; p_env := [] |}.
Proof. destruct c as [name argv sin sout serr env]. cbn. intros ->. reflexivity. Qed.

Lemma parse_chdir dir q :
  dir_ok dir ->
  for_each parse_token ($"cd" :: option_list dir)
    {| p_state := BEGIN; p_current := None; p_pipeline := q; p_env := [] |} =
  Ok {| p_state := CHDIR; p_current := Some (NChdir dir); p_pipeline := q; p_env := [] |}.
Proof.
  intros Hd. destruct dir as [d|]; [|reflexivity]. cbn [option_list].
  change (for_each parse_token [d] {| p_state := CHDIR; p_current := Some (NChdir None); p_pipeline := q; p_env := [] |} =
    Ok {| p_state := CHDIR; p_current := Some (NChdir (Some d)); p_pipeline := q; p_env := [] |}).
  cbn [for_each]. unfold parse_token, on_chdir. cbn [p_state p_current].
  rewrite decide_False; [done|]. intros ->. by apply Hd.
Qed.

Lemma parse_from p q :
  wf p ->
  (let! s := for_each parse_token (unparse p)
     {| p_state := BEGIN; p_current := None; p_pipeline := q; p_env := [] |} in commit s) = Ok (q ++ p).
Proof.
  remember (length p) as n eqn:Hn. assert (length p <= n)%nat as Hle by lia. clear Hn.
  revert p q Hle. induction n as [|n IH]; intros p q Hle Hwf; [destruct p; [done|cbn in Hle; lia]|].
  destruct p as [|[c|dir| | |] [|op rest]]; cbn [wf] in Hwf; try done; cbn [length] in Hle;
    unfold unparse; cbn [mbind list_bind unparse_node]; rewrite for_each_app.
  - destruct Hwf as [Hc Hout]. rewrite parse_cmd by done. cbn. by rewrite before_pipe_id.
  - destruct op; try done; destruct Hwf as (Hc & Hout & Hrest); rewrite parse_cmd by done;
      cbn [rbind unparse_node app for_each].
    + rewrite parse_pipe by done. cbn [rbind]. rewrite IH by (done || lia). by rewrite <- !(assoc_L (++)).
    + rewrite before_pipe_id, (parse_operator NAnd) by (done || set_solver). cbn [rbind].
      rewrite IH by (done || lia). by rewrite <- !(assoc_L (++)).
    + rewrite before_pipe_id, (parse_operator NOr) by (done || set_solver). cbn [rbind].
      rewrite IH by (done || lia). by rewrite <- !(assoc_L (++)).
  - rewrite parse_chdir by done. done.
  - destruct op; try done. destruct Hwf as [Hd Hrest]. rewrite parse_chdir by done.
    cbn [rbind unparse_node app for_each]. unfold parse_token at 1, on_chdir. cbn [p_state p_current].
    rewrite decide_True by done. cbn. rewrite IH by (done || lia). by rewrite <- !(assoc_L (++)).
Qed.

(** C22 - The pipelines [parse] returns are the well-formed ones, and no others: each is what
    it returns for the text of its own tokens, whatever characters are in them. *)
Theorem parse_roundtrip p :
  ((exists tokens, parse tokens = Ok p) <-> wf p) /\
  (wf p -> parse_text (join $" " (shlex_quote <$> unparse p)) = Ok p).
Proof.
  assert (wf p -> parse (unparse p) = Ok p) as Hback by (intros H; exact (parse_from p [] H)).
  split; [split; [intros [tokens H]; by eapply parse_wf|eauto]|].
  intros H. unfold parse_text. rewrite shlex_split_quoted. cbn. auto.
Qed.

Definition demo_cmd (name : pystr) : Command := Command_init name None.

Definition demo_pipeline : list node :=
  [NCmd (set_stdout (Some ToPipe) (set_stderr (Some ToStdout) (set_stdin $"xxx" (demo_cmd $"./foo.py"))));
   NPipe; NCmd (demo_cmd $"cat"); NAnd; NCmd (demo_cmd $"ls")].

(** The command line of [_main]. *)
Example parse_main : parse_text $"./foo.py 2>&1 < xxx | cat && ls" = Ok demo_pipeline.
Proof. vm_compute. reflexivity. Qed.

Lemma parse_roundtrip_witness :
  parse_text (join $" " (shlex_quote <$> unparse demo_pipeline)) = Ok demo_pipeline.
Proof.
  apply (proj2 (parse_roundtrip demo_pipeline)). apply (proj1 (proj1 (parse_roundtrip demo_pipeline))).
  exists (unparse demo_pipeline). vm_compute. reflexivity.
Defined.

(** A redirection without a file is dropped, and [||] is not shown. *)
Example parse_no_file : parse_text $"ls >" = Ok [NCmd (demo_cmd $"ls")].
Proof. vm_compute. reflexivity. Qed.

Example abbreviate_or : get_abbreviated_command [NCmd (demo_cmd $"a"); NOr; NCmd (demo_cmd $"b")] = $"a b".
Proof. reflexivity. Qed.

(** ** What running a pipeline means

    A command with the changes of directory before it; the commands of a pipe; and
    pipes in a chain of operators. *)

Record stage := { s_cds : list pystr; s_cmd : Command }.

Inductive chain :=
| Last (first : stage) (rest : list stage)
| AndThen (first : stage) (rest : list stage) (c : chain)
| OrElse (first : stage) (rest : list stage) (c : chain).

Definition flatten_step (s : stage) : list node :=
  (s_cds s ≫= fun d => [NChdir (Some d); NAnd]) ++ [NCmd (s_cmd s)].

Definition flatten_pipe (first : stage) (rest : list stage) : list node :=
  flatten_step first ++ (rest ≫= fun s => NPipe :: flatten_step s).

Fixpoint flatten (c : chain) : list node :=
  match c with
  | Last first rest => flatten_pipe first rest
  | AndThen first rest c => flatten_pipe first rest ++ NAnd :: flatten c
  | OrElse first rest c => flatten_pipe first rest ++ NOr :: flatten c
  end.

Section meaning.
Context {W file proc : Type}.
Variable environ : list (pystr * pystr).
Variable open_read open_write : pystr -> stM W file.
Variable close : file -> stM W ().
Variable popen : @popen_args file proc -> stM W proc.
Variable wait : proc -> stM W Z.
Variable print : pystr -> stM W ().

Notation channel := (@channel file proc).
Notation locals := (@locals file proc).
Notation start_command := (start_command environ open_read open_write popen).
Notation run_loop := (run_loop environ open_read open_write close popen wait print).
Notation run := (run environ open_read open_write close popen wait print).
Notation close_files := (close_files (proc := proc) close).

(** A file to write to, with what is opened for it: nothing for the null device. *)
Definition out_file (name : pystr) : stM W (option channel * list file) :=
  if decide (name = $"/dev/null" \/ name = $"NUL:") then mret (Some DevNull, [])
  else do! f := open_write name in mret (Some (OpenFile f), [f]).

(** A command is started in the directory [dir]: it reads the output of the command
    before it in the pipe, or its file; its outputs go where its redirections say; its
    variables are added to those of the environment. *)
Definition start_stage (dir : pystr) (input : option proc) (c : Command) : stM W (proc * list file) :=
  do! '(stdin, files_in) :=
    match input, cmd_stdin c with
    | Some p, _ => mret (Some (StdoutOf p), [])
    | None, Some name => do! f := open_read name in mret (Some (OpenFile f), [f])
    | None, None => mret (None, [])
    end in
  do! '(stdout, files_out) :=
    match cmd_stdout c with
    | None => mret (None, [])
    | Some ToPipe => mret (Some SubprocessPipe, [])
    | Some (ToFile name) => out_file name
    | Some ToStdout => mlift (Err TypeError)
    end in
  do! '(stderr, files_err) :=
    match cmd_stderr c with
    | None => mret (None, [])
    | Some ToPipe => mret (Some SubprocessPipe, [])
    | Some ToStdout => mret (Some SubprocessStdout, [])
    | Some (ToFile name) => out_file name
    end in
  do! p := popen {| a_argv := cmd_argv c; a_stdin := stdin; a_stdout := stdout; a_stderr := stderr;
                    a_env := match cmd_env c with
                             | Some (kv :: kvs) => Some (dict_update environ (kv :: kvs))
                             | _ => None
                             end;
                    a_cwd := if decide (dir = $".") then None else Some dir |} in
  mret (p, files_in ++ files_out ++ files_err).

(** The commands of a pipe are all started, each in the directory reached so far and
    reading what the last one writes: the processes, the files opened, the directory. *)
Fixpoint start_stages (dir : pystr) (input : option proc) (stages : list stage)
  : stM W (list proc * list file * pystr) :=
  match stages with
  | [] => mret ([], [], dir)
  | s :: stages =>
      let dir := foldl os_path_join dir (s_cds s) in
      do! '(p, files) := start_stage dir input (s_cmd s) in
      do! '(ps, files', dir) := start_stages dir (Some p) stages in
      mret (p :: ps, files ++ files', dir)
  end.

Fixpoint wait_all (ps : list proc) : stM W (list Z) :=
  match ps with
  | [] => mret []
  | p :: ps => do! r := wait p in do! rs := wait_all ps in mret (r :: rs)
  end.

(** Then they are waited for, in order, the files are closed, also when waiting raises, and
    the status is that of the last. *)
Definition run_pipe (first : stage) (rest : list stage) (dir : pystr) : stM W (Z * pystr) :=
  do! '(ps, files, dir) := start_stages dir None (first :: rest) in
  do! retval := mfinally (do! rs := wait_all ps in mret (List.last rs 0)) (mfor close files) in
  mret (retval, dir).

(** After [&&] the rest runs when the pipe succeeded, after [||] when it failed;
    otherwise its status is that of the whole line, whatever follows. *)
Fixpoint run_chain (c : chain) (dir : pystr) : stM W (option Z) :=
  match c with
  | Last first rest => do! '(r, _) := run_pipe first rest dir in mret (Some r)
  | AndThen first rest c =>
      do! '(r, dir) := run_pipe first rest dir in
      if r =? 0 then run_chain c dir else mret (Some r)
  | OrElse first rest c =>
      do! '(r, dir) := run_pipe first rest dir in
      if r =? 0 then mret (Some r) else run_chain c dir
  end.

(** *** The steps of the loop *)

(** What the loop does for a command and the changes of directory before it. *)
Definition start_step (v : bool) (s : stage) (st : locals) : stM W locals :=
  start_command v (s_cmd s)
    {| files_to_close := files_to_close st; piped_commands := piped_commands st;
       display := if v then display st ++ ((fun d => $"cd " ++ d ++ $" &&") <$> s_cds s) else display st;
       piped := piped st; cwd := foldl os_path_join (cwd st) (s_cds s) |}.

(** What it does for the commands of a pipe. *)
Fixpoint start_pipe (v : bool) (first : stage) (rest : list stage) (st : locals) : stM W locals :=
  do! st := start_step v first st in
  match rest with
  | [] => mret st
  | s :: rest =>
      start_pipe v s rest
        {| files_to_close := files_to_close st; piped_commands := piped_commands st;
           display := display st ++ [$"|"]; piped := true; cwd := cwd st |}
  end.

(** *** Lemmas *)

(** The status of a pipe is that of its last process. *)
Lemma piped_status_last retvals : piped_status (List.last retvals 0) retvals = List.last retvals 0.
Proof.
  enough (forall l d, piped_status d l = d \/ (piped_status d l = 0 /\ Forall (fun r => r = 0) l)) as Hs.
  { destruct (Hs retvals (List.last retvals 0)) as [|[-> Hall]]; [done|].
    induction Hall as [|r l -> Hall IH]; [done|]. destruct l; [done|]. exact IH. }
  intros l d. induction l as [|r l IH]; cbn; [by right|].
  destruct (Z.eqb_spec r 0) as [->|]; [|by left]. destruct IH as [|[? ?]]; [by left|right; auto].
Qed.

Lemma wait_all_fold ps l w :
  mfold (fun retvals p => do! r := wait p in mret (retvals ++ [r])) l ps w =
  (do! rs := wait_all ps in mret (l ++ rs)) w.
Proof.
  revert l w. induction ps as [|p ps IH]; intros l w; cbn [mfold wait_all].
  - unfold gbind, mret. by rewrite (right_id_L [] (++)).
  - rewrite !gbind_assoc. apply gbind_ext; [done|]. intros r w'.
    rewrite gbind_assoc. unfold gbind at 1. cbn [mret]. rewrite IH. apply gbind_ext; [done|].
    intros rs w''. unfold gbind, mret. by rewrite <- (assoc_L (++)).
Qed.

Lemma exec_piped_last commands w :
  exec_piped_commands wait commands w = (do! rs := wait_all commands in mret (List.last rs 0)) w.
Proof.
  unfold exec_piped_commands, gbind at 1. rewrite wait_all_fold. unfold gbind, mret.
  destruct (wait_all commands w) as [w' [rs|e]]; [|done]. cbn. by rewrite piped_status_last.
Qed.

(** The files among what is to be closed. *)
Definition real (cs : list channel) : list file :=
  omap (fun c : channel => match c with OpenFile f => Some f | _ => None end) cs.
#[local] Arguments real : simpl never.

Lemma close_real cs w : close_files cs w = mfor close (real cs) w.
Proof.
  revert w. induction cs as [|c cs IH]; intros w; [done|]. unfold ShellCmd.close_files in *.
  destruct c; cbn; try (unfold gbind; cbn; apply IH). by apply gbind_ext.
Qed.

(** The process the next command of the pipe reads from. *)
Definition reads_from (st : locals) (input : option proc) : Prop :=
  match input with
  | Some p => piped st = true /\ exists l, piped_commands st = l ++ [p]
  | None => piped st = false
  end.

(** The files opened since [st], nothing else having changed but the directory. *)
Definition opened (st : locals) (d : pystr) (fs : list file) (st' : locals) : Prop :=
  piped_commands st' = piped_commands st /\ cwd st' = d /\
  real (files_to_close st') = real (files_to_close st) ++ fs.

Lemma opened_none st d fs st' : opened st d fs st' -> opened st d (fs ++ []) st'.
Proof. by rewrite (right_id_L [] (++)). Qed.

Lemma opened_file st d fs st' c : opened st d fs st' -> opened st d (fs ++ real [c]) (to_close c st').
Proof.
  intros (E1 & E2 & E3). split_and!; [done..|]. cbn [to_close files_to_close].
  unfold real at 1. rewrite omap_app. fold (real (files_to_close st')) (real [c]).
  by rewrite E3, <- (assoc_L (++)).
Qed.

Lemma out_file_agrees name st d fs st' : opened st d fs st' ->
  agrees (fun a b => a.1 = b.1 /\ opened st d (fs ++ b.2) a.2)
    (do! c := open_out_file open_write name in mret (Some c, to_close c st')) (out_file name).
Proof.
  intros Ho w. unfold open_out_file, out_file.
  rewrite (bool_decide_ext _ (name = $"/dev/null" \/ name = $"NUL:"))
    by (rewrite !list.elem_of_cons, elem_of_nil; tauto).
  case_bool_decide as Hn; [rewrite decide_True by done|rewrite decide_False by done]; unfold gbind.
  - cbn. split_and!; try done. by apply (opened_file st d fs st' DevNull).
  - destruct (open_write name w) as [w' [f|e]]; cbn; [|done]. split_and!; try done.
    by apply (opened_file st d fs st' (OpenFile f)).
Qed.

Lemma start_stage_agrees s st input : reads_from st input ->
  agrees (fun st' r => piped_commands st' = piped_commands st ++ [r.1] /\
            real (files_to_close st') = real (files_to_close st) ++ r.2 /\
            cwd st' = foldl os_path_join (cwd st) (s_cds s))
    (start_step false s st) (start_stage (foldl os_path_join (cwd st) (s_cds s)) input (s_cmd s)).
Proof.
  intros Hin. unfold start_step, ShellCmd.start_command, start_stage. cbn [shown].
  generalize (foldl os_path_join (cwd st) (s_cds s)). intros d. destruct s as [cds c]. cbn [s_cmd].
  set (st0 := {| files_to_close := files_to_close st; piped_commands := piped_commands st;
                 display := display st; piped := piped st; cwd := d |}).
  assert (opened st d [] st0) as H0 by (split_and!; [done..|by rewrite (right_id_L [] (++))]).
  apply (agrees_bind (fun a b => a.1 = b.1 /\ opened st d b.2 a.2)).
  { destruct input as [p|]; cbn in Hin.
    - destruct Hin as (E & l & El). cbn [st0 ShellCmd.piped ShellCmd.piped_commands]. rewrite E, El.
      change (-1) with (- Z.of_nat 1). rewrite (py_get_neg _ 0), reverse_app. by apply agrees_ret.
    - cbn [st0 ShellCmd.piped]. rewrite Hin. destruct (cmd_stdin c) as [name|]; [|by apply agrees_ret].
      eapply agrees_bind; [apply agrees_refl|]. intros f ? <-. apply agrees_ret. split; [done|].
      apply (opened_file st d [] st0 (OpenFile f) H0). }
  intros [stdin st1] [stdin' f1] [E1 H1]. cbn in E1, H1. subst stdin'.
  apply (agrees_bind (fun a b => a.1 = b.1 /\ opened st d (f1 ++ b.2) a.2)).
  { destruct (cmd_stdout c) as [[name| |]|];
      [by apply out_file_agrees|apply agrees_ret; split; [done|by apply opened_none]|done
      |apply agrees_ret; split; [done|by apply opened_none]]. }
  intros [stdout st2] [stdout' f2] [E2 H2]. cbn in E2, H2. subst stdout'.
  apply (agrees_bind (fun a b => a.1 = b.1 /\ opened st d ((f1 ++ f2) ++ b.2) a.2)).
  { destruct (cmd_stderr c) as [[name| |]|];
      [by apply out_file_agrees|apply agrees_ret; split; [done|by apply opened_none]..]. }
  intros [stderr st3] [stderr' f3] [E3 H3]. cbn in E3, H3. subst stderr'. destruct H3 as (C1 & C2 & C3).
  rewrite C2. replace (dict_update environ <$> env_of c) with
    (match cmd_env c with Some (kv :: kvs) => Some (dict_update environ (kv :: kvs)) | _ => None end)
    by (unfold env_of; by destruct (cmd_env c) as [[|]|]).
  eapply agrees_bind; [apply agrees_refl|]. intros p ? <-. apply agrees_ret.
  cbn [ShellCmd.piped_commands ShellCmd.files_to_close ShellCmd.cwd fst snd].
  by rewrite C1, C3, <- (assoc_L (++)).
Qed.

Lemma start_stages_cons dir input s stages :
  start_stages dir input (s :: stages) =
  (let dir := foldl os_path_join dir (s_cds s) in
   do! '(p, files) := start_stage dir input (s_cmd s) in
   do! '(ps, files', dir) := start_stages dir (Some p) stages in
   mret (p :: ps, files ++ files', dir)).
Proof. done. Qed.

(** The processes, files and directory of a pipe. *)
Lemma start_stages_agrees first rest st input : reads_from st input ->
  agrees (fun st' r => piped_commands st' = piped_commands st ++ r.1.1 /\
            real (files_to_close st') = real (files_to_close st) ++ r.1.2 /\ cwd st' = r.2)
    (start_pipe false first rest st) (start_stages (cwd st) input (first :: rest)).
Proof.
  revert first st input. induction rest as [|s rest IH]; intros first st input Hin;
    cbn [start_pipe]; rewrite start_stages_cons; cbv zeta.
  - eapply agrees_bind; [by apply start_stage_agrees|]. intros st' [p fs] (E1 & E2 & E3) w. cbn in *.
    by rewrite (right_id_L [] (++)).
  - eapply agrees_bind; [by apply start_stage_agrees|]. intros st1 [p fs] (E1 & E2 & E3). cbn [fst snd] in *.
    set (st1' := {| files_to_close := files_to_close st1; piped_commands := piped_commands st1;
                    display := display st1 ++ [$"|"]; piped := true; cwd := cwd st1 |}).
    assert (reads_from st1' (Some p)) as Hin1 by (split; [done|by eexists]).
    specialize (IH s st1' (Some p) Hin1). intros w. specialize (IH w). cbn [st1' ShellCmd.cwd] in IH.
    rewrite E3 in IH. cbv beta iota. unfold gbind.
    generalize dependent (start_stages (foldl os_path_join (cwd st) (s_cds first)) (Some p) (s :: rest) w).
    intros [w2 [[[ps fs'] d']|e']] IH; destruct (start_pipe false s rest st1' w) as [w1 [st2|e]];
      cbn in IH |- *; try tauto.
    destruct IH as (-> & C1 & C2 & ->).
    subst st1'. cbn [ShellCmd.files_to_close ShellCmd.piped_commands] in C1, C2. rewrite C1, C2, E1, E2.
    by rewrite <- !(assoc_L (++)).
Qed.

(** The locals at the beginning of a pipe. *)
Definition pipe_init (d : pystr) : locals :=
  {| files_to_close := []; piped_commands := []; display := []; piped := false; cwd := d |}.

(** A pipe that is run to its end. *)
Lemma run_pipe_agrees first rest d :
  agrees (fun a b => a.1 = b.1 /\ cwd a.2 = b.2)
    (do! st := start_pipe false first rest (pipe_init d) in do! r := finish close wait st in mret (r, st))
    (run_pipe first rest d).
Proof.
  unfold run_pipe. eapply agrees_bind; [by apply (start_stages_agrees first rest (pipe_init d) None)|].
  intros st [[ps fs] d'] (E1 & E2 & E3). cbn in E1, E2, E3. eapply (agrees_bind eq).
  - unfold finish. apply agrees_finally.
    + intros w. rewrite exec_piped_last, E1. apply agrees_refl.
    + intros w. by rewrite close_real, E2.
  - intros r ? <-. by apply agrees_ret.
Qed.

(** What [run] does once a command has been started, before the rest of the line. *)
Definition after (v : bool) (rest : list node) (st : locals) : stM W (option Z) :=
  match rest with
  | [] =>
      do! retval := mfinally
        (do! retval := exec_piped_commands wait (piped_commands st) in
         (if v then print (join $" " (display st) ++ $": exit code " ++ show_Z retval)
          else mret tt) >>>
         mret retval)
        (close_files (files_to_close st)) in
      mret (Some retval)
  | NPipe :: rest' =>
      run_loop v rest'
        {| files_to_close := files_to_close st; piped_commands := piped_commands st;
           display := display st ++ [$"|"]; piped := true; cwd := cwd st |}
  | NOr :: rest' =>
      do! this_retval := finish close wait st in
      if v then mlift (Err UnboundLocalError)
      else if this_retval =? 0 then mret (Some this_retval)
      else run_loop v rest' (next_pipe st)
  | NAnd :: rest' =>
      do! this_retval := finish close wait st in
      if v then mlift (Err UnboundLocalError)
      else if this_retval =? 0 then run_loop v rest' (next_pipe st)
      else mret (Some this_retval)
  | _ :: rest' => run_loop v rest' st
  end.

Lemma run_step v s rest st w :
  run_loop v (flatten_step s ++ rest) st w = (do! st := start_step v s st in after v rest st) w.
Proof.
  unfold flatten_step, start_step. destruct s as [cds cmd]. cbn [s_cds s_cmd].
  rewrite <- (assoc_L (++)). revert st. induction cds as [|d cds IH]; intros st.
  - cbn [mbind list_bind app foldl fmap list_fmap]. rewrite (right_id_L [] (++)).
    destruct st, v; reflexivity.
  - cbn [mbind list_bind app ShellCmd.run_loop]. unfold gbind at 1, mlift. cbn. rewrite IH.
    unfold shown. destruct v; cbn; [|done]. by rewrite <- (assoc_L (++)).
Qed.

Lemma run_pipe_steps v first rest tail st w :
  run_loop v (flatten_pipe first rest ++ tail) st w =
  (do! st := start_pipe v first rest st in after v tail st) w.
Proof.
  revert first st w. induction rest as [|s rest IH]; intros first st w; unfold flatten_pipe.
  - cbn [mbind list_bind]. rewrite (right_id_L [] (++)), run_step. cbn [start_pipe].
    rewrite gbind_assoc. by apply gbind_ext.
  - cbn [mbind list_bind]. rewrite <- (assoc_L (++)), run_step. cbn [start_pipe].
    rewrite gbind_assoc. apply gbind_ext; [done|]. intros st' w'. cbn [app after].
    rewrite <- IH. unfold flatten_pipe. by rewrite <- (assoc_L (++)).
Qed.

Lemma start_pipe_then v first rest st (k : locals -> stM W (option Z)) w w' r :
  start_pipe v first rest st w = (w', r) ->
  gbind (start_pipe v first rest st) k w = match r with Ok st' => k st' w' | Err e => (w', Err e) end.
Proof. intros E. unfold gbind. rewrite E. by destruct r. Qed.

(** What follows a pipe. *)
Lemma after_pipe first rest d (k : Z -> locals -> stM W (option Z)) k' :
  (forall r st w, k r st w = k' (r, cwd st) w) -> forall w,
  (do! st := start_pipe false first rest (pipe_init d) in do! r := finish close wait st in k r st) w =
  gbind (run_pipe first rest d) k' w.
Proof.
  intros Hk. assert (forall a b, a.1 = b.1 /\ cwd a.2 = b.2 -> agrees eq (k a.1 a.2) (k' b)) as Hk'.
  { intros [r st] [r' d'] [E1 E2] w. cbn in *. subst. rewrite Hk. apply agrees_refl. }
  intros w. pose proof (agrees_bind _ eq _ _ (fun a => k a.1 a.2) k' (run_pipe_agrees first rest d) Hk') as H.
  apply (agrees_eq _ _ w) in H. rewrite <- H. rewrite gbind_assoc. apply gbind_ext; [done|].
  intros st w'. rewrite gbind_assoc. by apply gbind_ext.
Qed.

(** The line of a chain, from any directory. *)
Lemma run_loop_chain c d w : run_loop false (flatten c) (pipe_init d) w = run_chain c d w.
Proof.
  revert d w. induction c as [first rest|first rest c IH|first rest c IH]; intros d w; cbn [flatten run_chain].
  - rewrite <- (right_id_L [] (++) (flatten_pipe first rest)), run_pipe_steps. cbn [after].
    rewrite <- (after_pipe first rest d (fun r _ => mret (Some r))) by done.
    apply gbind_ext; [done|]. intros st w'. apply gbind_ext; [|done]. unfold finish. apply mfinally_ext.
    unfold gbind, mret. by destruct (exec_piped_commands _ _ _) as [? []].
  - rewrite run_pipe_steps. apply after_pipe. intros r st w'. destruct (r =? 0); [apply IH|done].
  - rewrite run_pipe_steps. apply after_pipe. intros r st w'. destruct (r =? 0); [done|apply IH].
Qed.

End meaning.

(** *** Every command line that can run is a chain *)

(** A change of directory names one, and a command comes last. *)
Definition runnable (p : list node) : Prop :=
  Forall (fun n => n <> NChdir None) p /\ exists c, last p = Some (NCmd c).

Definition add_cd (d : pystr) (c : chain) : chain :=
  let cd s := {| s_cds := d :: s_cds s; s_cmd := s_cmd s |} in
  match c with
  | Last first rest => Last (cd first) rest
  | AndThen first rest c => AndThen (cd first) rest c
  | OrElse first rest c => OrElse (cd first) rest c
  end.

Definition add_pipe (s : stage) (c : chain) : chain :=
  match c with
  | Last first rest => Last s (first :: rest)
  | AndThen first rest c => AndThen s (first :: rest) c
  | OrElse first rest c => OrElse s (first :: rest) c
  end.

Lemma flatten_add_cd d c : flatten (add_cd d c) = NChdir (Some d) :: NAnd :: flatten c.
Proof. by destruct c. Qed.

Lemma flatten_add_pipe s c : flatten (add_pipe s c) = flatten_step s ++ NPipe :: flatten c.
Proof.
  destruct c; cbn [add_pipe flatten]; unfold flatten_pipe; cbn [mbind list_bind];
    by rewrite <- ?(assoc_L (++)).
Qed.

Definition lone (c : Command) : stage := {| s_cds := []; s_cmd := c |}.

Lemma wf_chain p : wf p -> runnable p -> exists c, p = flatten c.
Proof.
  remember (length p) as n eqn:Hn. assert (length p <= n)%nat as Hle by lia. clear Hn.
  revert p Hle. induction n as [|n IH]; intros p Hle Hwf; [destruct p; [done|cbn in Hle; lia]|].
  destruct p as [|[c|dir| | |] [|op rest]]; cbn [wf] in Hwf; try done; cbn [length] in Hle; intros [Hd Hl].
  - by exists (Last (lone c) []).
  - assert (rest <> [] -> exists ch, rest = flatten ch) as Hrest.
    { intros Hne. apply Forall_cons in Hd as [_ Hd]. apply Forall_cons in Hd as [_ Hd].
      apply IH; [lia|destruct op; naive_solver|]. split; [done|]. by destruct rest. }
    destruct op; try done; destruct Hwf as (_ & _ & Hwf); destruct (Hrest ltac:(by intros ->)) as [ch ->].
    + exists (add_pipe (lone c) ch). by rewrite flatten_add_pipe.
    + by exists (AndThen (lone c) [] ch).
    + by exists (OrElse (lone c) [] ch).
  - destruct Hl as [c Hl]. done.
  - destruct op; try done. destruct Hwf as [_ Hwf].
    apply Forall_cons in Hd as [Hdir Hd]. apply Forall_cons in Hd as [_ Hd].
    destruct (IH rest) as [ch ->]; [lia|done|split; [done|by destruct rest]|].
    destruct dir as [d|]; [|done]. exists (add_cd d ch). by rewrite flatten_add_cd.
Qed.

(** C23 - Running a command line, not verbosely, on any system.  A line that parses, whose
    changes of directory each name one and that ends with a command, is a chain of pipes, and
    running it is what the chain means: each command of a pipe is started in the directory
    reached so far, with its redirections opened and its variables added to the environment,
    reading what the command before it writes; then they are waited for in order, the files
    opened are closed, also when waiting raises, and the status is that of the last command;
    after each pipe the line goes on or stops there with that status. *)
Theorem run_meaning command p :
  parse_text command = Ok p -> runnable p ->
  exists c, p = flatten c /\
    forall W file proc environ open_read open_write close popen wait print (w : W),
      run (file := file) (proc := proc) environ open_read open_write close popen wait print false p w =
      run_chain environ open_read open_write close popen wait c $"." w.
Proof.
  intros Hp Hr. unfold parse_text in Hp. apply rbind_Ok in Hp as (tokens & _ & Hp).
  destruct (wf_chain p) as [c ->]; [by eapply parse_wf|done|]. exists c. split; [done|].
  intros. apply run_loop_chain.
Qed.

(** *** A system that logs what is started *)

(** The commands started so far; each exits with the status its name says. *)
Definition log := list (list pystr * option pystr).

Definition demo_status (argv : list pystr) : Z :=
  if decide (head argv = Some $"false") then 1 else 0.

Definition demo_run (v : bool) (p : list node) : log * py (option Z) :=
  run (W := log) (file := ()) (proc := list pystr) []
    (fun _ => mret tt) (fun _ => mret tt) (fun _ => mret tt)
    (fun a w => (w ++ [(a_argv a, a_cwd a)], Ok (a_argv a)))
    (fun p => mret (demo_status p)) (fun _ => mret tt) v p [].

Definition demo_text (v : bool) (s : pystr) : log * py (option Z) :=
  match parse_text s with Ok p => demo_run v p | Err e => ([], Err e) end.

Lemma run_meaning_witness :
  exists c, demo_pipeline = flatten c /\
    fst (demo_run false demo_pipeline) = [([$"./foo.py"], None); ([$"cat"], None); ([$"ls"], None)].
Proof.
  destruct (run_meaning $"./foo.py 2>&1 < xxx | cat && ls" demo_pipeline) as (c & Hc & Hrun).
  - vm_compute. reflexivity.
  - split; [repeat constructor; discriminate|]. eexists. reflexivity.
  - exists c. split; [exact Hc|]. vm_compute. reflexivity.
Defined.

(** A failure stops the line at [&&] although a shell would go on after [||], and a
    success at [||] although a shell would go on after [&&]. *)
Example and_then_or : demo_text false $"false && a || b" = ([([$"false"], None)], Ok (Some 1)).
Proof. vm_compute. reflexivity. Qed.

Example or_then_and : demo_text false $"a || b && c" = ([([$"a"], None)], Ok (Some 0)).
Proof. vm_compute. reflexivity. Qed.

Example cd_keeps : demo_text false $"cd x && a && b" = ([([$"a"], Some $"./x"); ([$"b"], Some $"./x")], Ok (Some 0)).
Proof. vm_compute. reflexivity. Qed.

Example cd_last : demo_text false $"a && cd x" = ([([$"a"], None)], Err IndexError).
Proof. vm_compute. reflexivity. Qed.

Example and_last : demo_text false $"a &&" = ([], Err AssertionError).
Proof. vm_compute. reflexivity. Qed.

(** ** With [verbose] *)

Section verbose.
Context {W file proc : Type}.
Variable environ : list (pystr * pystr).
Variable open_read open_write : pystr -> stM W file.
Variable close : file -> stM W ().
Variable popen : @popen_args file proc -> stM W proc.
Variable wait : proc -> stM W Z.
Variable print : pystr -> stM W ().

(** Nothing the system is asked for fails. *)
Hypothesis open_read_ok : forall f, returns (open_read f) (fun _ => True).
Hypothesis open_write_ok : forall f, returns (open_write f) (fun _ => True).
Hypothesis close_ok : forall f, returns (close f) (fun _ => True).
Hypothesis popen_ok : forall a, returns (popen a) (fun _ => True).
Hypothesis wait_ok : forall p, returns (wait p) (fun _ => True).

Lemma returns_open_out f : returns (open_out_file (proc := proc) open_write f) (fun _ => True).
Proof.
  unfold open_out_file. case_bool_decide; [by apply returns_ret|].
  eapply returns_bind; [apply open_write_ok|]. intros ? _. by apply returns_ret.
Qed.

Lemma returns_start v cmd st :
  cmd_stdout cmd <> Some ToStdout -> (piped st = true -> piped_commands st <> []) ->
  returns (start_command environ open_read open_write popen v cmd st) (fun st' => piped_commands st' <> []).
Proof.
  intros Hout Hp. unfold start_command.
  assert (forall l st, piped_commands (shown (file := file) (proc := proc) v l st) = piped_commands st /\
    piped (shown v l st) = piped st) as Hshown by (intros; by destruct v).
  eapply (returns_bind _ _ (fun _ => True)).
  { destruct (piped (shown v _ st)) eqn:Ep.
    - destruct (Hshown [match env_of cmd with
        | Some env => show_env env ++ $" " ++ join $" " (cmd_argv cmd)
        | None => join $" " (cmd_argv cmd) end] st) as [E1 E2].
      eapply (returns_bind _ _ (fun _ => True)); [|intros ? _; by apply returns_ret].
      rewrite E1. rewrite E2 in Ep. specialize (Hp Ep).
      intros w. exists w. destruct (exists_last Hp) as (l & p & ->).
      exists p. split; [|done]. unfold mlift. change (-1) with (- Z.of_nat 1).
      rewrite (py_get_neg _ 0), reverse_app. done.
    - destruct (cmd_stdin cmd); [|by apply returns_ret].
      eapply returns_bind; [apply open_read_ok|]. intros ? _. by apply returns_ret. }
  intros [stdin st1] _. eapply (returns_bind _ _ (fun _ => True)).
  { destruct (cmd_stdout cmd) as [[f| |]|]; try done; try by apply returns_ret.
    eapply returns_bind; [apply returns_open_out|]. intros ? _. by apply returns_ret. }
  intros [stdout st2] _. eapply (returns_bind _ _ (fun _ => True)).
  { destruct (cmd_stderr cmd) as [[f| |]|]; try by apply returns_ret.
    eapply returns_bind; [apply returns_open_out|]. intros ? _. by apply returns_ret. }
  intros [stderr st3] _. eapply returns_bind; [apply popen_ok|]. intros p _. apply returns_ret.
  cbn. by destruct (piped_commands st3).
Qed.

Definition step_ok (s : stage) : Prop := cmd_stdout (s_cmd s) <> Some ToStdout.

Lemma returns_pipe v first rest st :
  step_ok first -> Forall step_ok rest -> (piped st = true -> piped_commands st <> []) ->
  returns (start_pipe environ open_read open_write popen v first rest st) (fun _ => True).
Proof.
  intros Hf Hr. revert first st Hf. induction Hr as [|s rest Hs Hr IH]; intros first st Hf Hp; cbn [start_pipe];
    eapply returns_bind; try (unfold start_step; by apply returns_start).
  - intros ? _. by apply returns_ret.
  - intros st' Hst'. by apply IH.
Qed.

Lemma returns_wait ps l :
  returns (mfold (fun retvals cmd => do! r := wait cmd in mret (retvals ++ [r])) l ps) (fun _ => True).
Proof.
  revert l. induction ps as [|p ps IH]; intros l; cbn [mfold]; [by apply returns_ret|].
  eapply (returns_bind _ _ (fun _ => True)); [|intros ? _; apply IH].
  eapply returns_bind; [apply wait_ok|]. intros ? _. by apply returns_ret.
Qed.

Lemma returns_finish st : returns (finish (file := file) close wait st) (fun _ => True).
Proof.
  assert (returns (exec_piped_commands wait (piped_commands st)) (fun _ => True)) as Hexec.
  { unfold exec_piped_commands. eapply (returns_bind _ _ (fun _ => True)); [|intros ? _; by apply returns_ret].
    apply returns_wait. }
  assert (returns (close_files (proc := proc) close (files_to_close st)) (fun _ => True)) as Hclose.
  { apply returns_for. intros []; try by apply returns_ret. apply close_ok. }
  intros w. unfold finish, mfinally. destruct (Hexec w) as (w' & r & -> & _).
  destruct (Hclose w') as (w'' & [] & -> & _). eauto.
Qed.

(** With [verbose], where opening files, starting processes and waiting for them never
    fails, a line with an [&&] or an [||] always ends in [UnboundLocalError] after
    its first pipe, whatever the pipe returned: the messages of the operators read
    a variable that only the end of the line assigns. *)
Theorem run_verbose_raises first rest c w :
  Forall step_ok (first :: rest) ->
  let raises line := snd (run environ open_read open_write close popen wait print true (flatten line) w) in
  raises (AndThen first rest c) = Err UnboundLocalError /\
  raises (OrElse first rest c) = Err UnboundLocalError.
Proof.
  intros [Hf Hr]%Forall_cons. cbn [flatten]. unfold run.
  split; rewrite run_pipe_steps; unfold gbind at 1;
    (destruct (returns_pipe true first rest locals_init Hf Hr) with (w := w) as (w1 & st & -> & _); [done|]);
    cbn [after]; unfold gbind;
    destruct (returns_finish st w1) as (w2 & r & -> & _); done.
Qed.

End verbose.

Lemma run_verbose_raises_witness :
  snd (demo_text true $"a && b") = Err UnboundLocalError /\
  snd (demo_text true $"a || b") = Err UnboundLocalError /\
  snd (demo_text true $"a | b") = Ok (Some 0).
Proof.
  assert (demo_text true $"a && b" =
    demo_run true (flatten (AndThen (lone (demo_cmd $"a")) [] (Last (lone (demo_cmd $"b")) [])))) as E1
    by (vm_compute; reflexivity).
  assert (demo_text true $"a || b" =
    demo_run true (flatten (OrElse (lone (demo_cmd $"a")) [] (Last (lone (demo_cmd $"b")) [])))) as E2
    by (vm_compute; reflexivity).
  rewrite E1, E2. unfold demo_run. split; [|split; [|vm_compute; reflexivity]].
  - apply run_verbose_raises; try (intros ? ?; eexists _, _; split; [reflexivity|exact I]).
    constructor; [discriminate|constructor].
  - apply run_verbose_raises; try (intros ? ?; eexists _, _; split; [reflexivity|exact I]).
    constructor; [discriminate|constructor].
Defined.
