(* ===== verification/WafCommand.v ===== *)
(** * [waf-tools/command.py]: the tasks that run a command line

    A task of the feature [command] parses its command line with [shellcmd.py],
    replaces [${name}], [${name[0]}] and the like in its arguments, files, directories
    and variables by the values of Python expressions, and runs it.  The nodes and the
    environment of waf are parameters, as is [eval]. *)

From S2P Require Import Prelude StateM OsPath Shlex ShellCmd.

#[local] Open Scope nat_scope.

(** ** [arg_rx] *)

(** [\w] of a regular expression on characters of 8 bits: the letters, the digits and
    fractions of Latin-1, and the underscore. *)
Definition re_word (c : ascii) : bool :=
  word_char c ||
  (let n := Z.of_nat (nat_of_ascii c) in
   bool_decide (n ∈ [170; 178; 179; 181; 185; 186; 188; 189; 190]) ||
   ((192 <=? n) && negb (n =? 215) && negb (n =? 247)))%Z.

(** A character that is no part of a match, [$$], or [${var code}]. *)
Inductive piece := Lit (c : ascii) | Dollar | Subst (var code : pystr).

(** A character of [.*?] before the first [}]. *)
Definition code_char (c : ascii) : bool := negb (bool_decide (c = "}"%char)) && negb (bool_decide (c = NL)).

(** The match of [arg_rx] at the head of a text, and the rest. *)
Definition arg_rx (s : pystr) : option (piece * pystr) :=
  match take_lit $"$$" s with
  | Some s' => Some (Dollar, s')
  | None =>
      s ← take_lit $"${" s;
      '(var, s) ← take_some re_word s;
      let '(code, s) := span code_char s in
      s ← take_lit $"}" s;
      Some (Subst var code, s)
  end.

(** The matches of a text and the characters between them. *)
Fixpoint pieces_fuel (fuel : nat) (s : pystr) : list piece :=
  match fuel, s with
  | O, _ | _, [] => []
  | S fuel, c :: s' =>
      match arg_rx s with
      | Some (p, rest) => p :: pieces_fuel fuel rest
      | None => Lit c :: pieces_fuel fuel s'
      end
  end.

(** Each piece takes a character, so that as many rounds are enough. *)
Definition pieces (s : pystr) : list piece := pieces_fuel (length s) s.

(** ** Values *)

(** What the code asks of a node of waf. *)
Record wnode := { bldpath : pystr; srcpath : pystr; bld_abspath : pystr }.

(** A string, None, or another object. *)
Inductive scalar := Str (s : pystr) | NoneV | Object.

(** What [isinstance] and [is] tell of a value. *)
Inductive value := VNode (n : wnode) | VInputs | VOutputs | VList (l : list scalar) | VScalar (x : scalar).

Fixpoint map_each {E A B} (f : A -> result E B) (l : list A) : result E (list B) :=
  match l with
  | [] => Ok []
  | x :: l => let! y := f x in let! ys := map_each f l in Ok (y :: ys)
  end.

(** What [re.sub] makes of the values its function returned: None adds nothing. *)
Fixpoint join_scalars (l : list scalar) : py pystr :=
  match l with
  | [] => Ok []
  | Str s :: l => let! r := join_scalars l in Ok (s ++ r)
  | NoneV :: l => join_scalars l
  | Object :: _ => Err TypeError
  end.

Section command.
(** The values of Python, what is known of them, and [eval] of a text in a namespace. *)
Context {V : Type} (kind : V -> value) (eval : gmap pystr V -> pystr -> py V).
Context (inputs outputs : list wnode).

(** ** [_subst_arg] *)

Definition repl_value (var : pystr) (result : value) : py scalar :=
  match result with
  | VNode n =>
      if decide (var = $"TGT") then Ok (Str (bld_abspath n))
      else if decide (var = $"SRC") then Ok (Str (srcpath n))
      else Err ValueError
  | VInputs => match inputs with [n] => Ok (Str (srcpath n)) | _ => Err ValueError end
  | VOutputs => match outputs with [n] => Ok (Str (bld_abspath n)) | _ => Err ValueError end
  | VList l => match l with [x] => Ok x | _ => Err AssertionError end
  | VScalar x => Ok x
  end.

Definition repl (namespace : gmap pystr V) (p : piece) : py scalar :=
  match p with
  | Lit c => Ok (Str [c])
  | Dollar => Ok (Str $"$")
  | Subst var code => let! result := eval namespace (var ++ code) in repl_value var (kind result)
  end.

Definition subst_pieces (namespace : gmap pystr V) (ps : list piece) : py pystr :=
  let! l := map_each (repl namespace) ps in join_scalars l.

Definition subst_arg (namespace : gmap pystr V) (arg : pystr) : py pystr := subst_pieces namespace (pieces arg).

(** ** [run] *)

Definition subst_opt (namespace : gmap pystr V) (o : option pystr) : py (option pystr) :=
  match o with
  | Some s => let! s := subst_arg namespace s in Ok (Some s)
  | None => Ok None
  end.

Definition subst_target (namespace : gmap pystr V) (t : option target) : py (option target) :=
  match t with
  | Some (ToFile f) => let! f := subst_arg namespace f in Ok (Some (ToFile f))
  | _ => Ok t
  end.

Definition subst_env (namespace : gmap pystr V) (env : option (list (pystr * pystr))) : py (option (list (pystr * pystr))) :=
  match env with
  | Some env =>
      let! env := map_each (fun kv : pystr * pystr => let! v := subst_arg namespace kv.2 in Ok (kv.1, v)) env in Ok (Some env)
  | None => Ok None
  end.

Definition subst_cmd (namespace : gmap pystr V) (c : Command) : py Command :=
  let! stdin := subst_opt namespace (cmd_stdin c) in
  let! stdout := subst_target namespace (cmd_stdout c) in
  let! stderr := subst_target namespace (cmd_stderr c) in
  let! argv := map_each (subst_arg namespace) (cmd_argv c) in
  let! env := subst_env namespace (cmd_env c) in
  Ok {| cmd_name := cmd_name c; cmd_argv := argv; cmd_stdin := stdin; cmd_stdout := stdout; cmd_stderr := stderr; cmd_env := env |}.

(** [cd] without a directory: [sub] of None. *)
Definition subst_node (namespace : gmap pystr V) (n : node) : py node :=
  match n with
  | NCmd c => let! c := subst_cmd namespace c in Ok (NCmd c)
  | NChdir (Some d) => let! d := subst_arg namespace d in Ok (NChdir (Some d))
  | NChdir None => Err TypeError
  | _ => Ok n
  end.

(** The names the expressions see: the environment of waf, over it the variables of the
    task, over them [env], [SRC] and [TGT]. *)
Definition namespace_of (merged : gmap pystr V) (variables : option (gmap pystr V)) (env SRC TGT : V) : gmap pystr V :=
  <[$"env" := env]> (<[$"SRC" := SRC]> (<[$"TGT" := TGT]> (default ∅ variables ∪ merged))).

(** The command line of a task: a text, or its tokens. *)
Inductive command_line := Text (s : pystr) | Tokens (l : list pystr).

Definition parse_command (c : command_line) : py (list node) :=
  match c with Text s => parse_text s | Tokens l => parse l end.

Definition command_run {W : Type} (shell_run : bool -> list node -> stM W (option Z)) (namespace : gmap pystr V)
    (verbose : bool) (command : command_line) : stM W (option Z) :=
  do! pipeline := mlift (parse_command command) in
  do! pipeline := mlift (map_each (subst_node namespace) pipeline) in
  shell_run verbose pipeline.

(** [__str__]: what is shown of the task. *)
Definition command_str (command : command_line) : py pystr :=
  let! pipeline := parse_command command in
  Ok ($"command (" ++ get_abbreviated_command pipeline ++ $"): " ++ join $" " (bldpath <$> inputs) ++
      (if decide (outputs = []) then [] else $" -> ") ++ join $" " (bldpath <$> outputs)).

(** ** What a task runs

    Stated without the functions above: each text of the command line becomes one text, the
    values of its pieces one after the other, and stands where it stood. *)

(** The text of the value [x] of an expression that begins with the name [var]. *)
Definition expr_text (var : pystr) (x : V) (w : pystr) : Prop :=
  match kind x with
  | VNode n => (var = $"SRC" /\ w = srcpath n) \/ (var = $"TGT" /\ w = bld_abspath n)
  | VInputs => exists n, inputs = [n] /\ w = srcpath n
  | VOutputs => exists n, outputs = [n] /\ w = bld_abspath n
  | VList l => l = [Str w] \/ (l = [NoneV] /\ w = [])
  | VScalar s => s = Str w \/ (s = NoneV /\ w = [])
  end.

Definition piece_becomes (namespace : gmap pystr V) (p : piece) (w : pystr) : Prop :=
  match p with
  | Lit c => w = [c]
  | Dollar => w = $"$"
  | Subst var code => exists x, eval namespace (var ++ code) = Ok x /\ expr_text var x w
  end.

Definition text_becomes (namespace : gmap pystr V) (s s' : pystr) : Prop :=
  exists ws, Forall2 (piece_becomes namespace) (pieces s) ws /\ s' = mjoin ws.

Definition target_becomes (namespace : gmap pystr V) (t t' : option target) : Prop :=
  match t, t' with
  | Some (ToFile f), Some (ToFile f') => text_becomes namespace f f'
  | Some ToPipe, Some ToPipe | Some ToStdout, Some ToStdout | None, None => True
  | _, _ => False
  end.

Definition variable_becomes (namespace : gmap pystr V) (kv kv' : pystr * pystr) : Prop :=
  kv'.1 = kv.1 /\ text_becomes namespace kv.2 kv'.2.

Record command_becomes (namespace : gmap pystr V) (c c' : Command) : Prop := {
  becomes_name : cmd_name c' = cmd_name c;
  becomes_argv : Forall2 (text_becomes namespace) (cmd_argv c) (cmd_argv c');
  becomes_stdin : option_Forall2 (text_becomes namespace) (cmd_stdin c) (cmd_stdin c');
  becomes_stdout : target_becomes namespace (cmd_stdout c) (cmd_stdout c');
  becomes_stderr : target_becomes namespace (cmd_stderr c) (cmd_stderr c');
  becomes_env : option_Forall2 (Forall2 (variable_becomes namespace)) (cmd_env c) (cmd_env c')
}.

Definition stage_becomes (namespace : gmap pystr V) (s s' : stage) : Prop :=
  Forall2 (text_becomes namespace) (s_cds s) (s_cds s') /\ command_becomes namespace (s_cmd s) (s_cmd s').

(** The stages of a chain, connected as they were. *)
Fixpoint chain_becomes (namespace : gmap pystr V) (c c' : chain) : Prop :=
  match c, c' with
  | Last first rest, Last first' rest' =>
      stage_becomes namespace first first' /\ Forall2 (stage_becomes namespace) rest rest'
  | AndThen first rest c, AndThen first' rest' c' | OrElse first rest c, OrElse first' rest' c' =>
      stage_becomes namespace first first' /\ Forall2 (stage_becomes namespace) rest rest' /\
      chain_becomes namespace c c'
  | _, _ => False
  end.

(** ** Substitution does not change how the commands are connected *)

Definition subst_stage (namespace : gmap pystr V) (s : stage) : py stage :=
  let! cds := map_each (subst_arg namespace) (s_cds s) in
  let! c := subst_cmd namespace (s_cmd s) in
  Ok {| s_cds := cds; s_cmd := c |}.

(** Each stage of a chain by itself. *)
Fixpoint subst_chain (namespace : gmap pystr V) (c : chain) : py chain :=
  match c with
  | Last first rest =>
      let! first := subst_stage namespace first in
      let! rest := map_each (subst_stage namespace) rest in
      Ok (Last first rest)
  | AndThen first rest c =>
      let! first := subst_stage namespace first in
      let! rest := map_each (subst_stage namespace) rest in
      let! c := subst_chain namespace c in
      Ok (AndThen first rest c)
  | OrElse first rest c =>
      let! first := subst_stage namespace first in
      let! rest := map_each (subst_stage namespace) rest in
      let! c := subst_chain namespace c in
      Ok (OrElse first rest c)
  end.

End command.

(** ** Lemmas *)

Section map_each.
Context {E A B : Type} (f : A -> result E B).

Lemma map_each_app l1 l2 :
  map_each f (l1 ++ l2) = let! a := map_each f l1 in let! b := map_each f l2 in Ok (a ++ b).
Proof.
  induction l1 as [|x l1 IH]; cbn [app map_each].
  - cbn [rbind]. by destruct (map_each f l2).
  - rewrite IH. destruct (f x); [|done]. cbn [rbind]. destruct (map_each f l1); [|done]. cbn [rbind]. by destruct (map_each f l2).
Qed.

Lemma map_each_Forall2 l l' : Forall2 (fun x y => f x = Ok y) l l' -> map_each f l = Ok l'.
Proof. induction 1 as [|x y l l' Hx _ IH]; [done|]. cbn [map_each]. by rewrite Hx, IH. Qed.

(** What [f] does is what [R] says. *)
Lemma map_each_iff (R : A -> B -> Prop) l l' :
  (forall x y, f x = Ok y <-> R x y) -> map_each f l = Ok l' <-> Forall2 R l l'.
Proof.
  intros HR. revert l'. induction l as [|x l IH]; intros l'; cbn [map_each].
  - split; [by intros [= <-]|]. by intros ->%Forall2_nil_inv_l.
  - split.
    + intros H. apply rbind_Ok in H as (y & Hy & H). apply rbind_Ok in H as (ys & Hys & [= <-]).
      constructor; [by apply HR|by apply IH].
    + intros (y & ys & Hy & Hys & ->)%Forall2_cons_inv_l. apply HR in Hy as ->. apply IH in Hys as ->. done.
Qed.

End map_each.

Section chains.
Context {V : Type} (kind : V -> value) (eval : gmap pystr V -> pystr -> py V).
Context (inputs outputs : list wnode) (ns : gmap pystr V).

Notation node_of := (subst_node kind eval inputs outputs ns).
Notation stage_of := (subst_stage kind eval inputs outputs ns).
Notation chain_of := (subst_chain kind eval inputs outputs ns).

Lemma subst_step s : map_each node_of (flatten_step s) = let! s' := stage_of s in Ok (flatten_step s').
Proof.
  destruct s as [cds cmd]. unfold flatten_step, subst_stage. cbn [s_cds s_cmd].
  induction cds as [|d cds IH]; cbn [mbind list_bind app map_each].
  - cbn [rbind subst_node]. by destruct (subst_cmd _ _ _ _ _ cmd).
  - cbn [subst_node]. destruct (subst_arg _ _ _ _ _ d) as [d'|]; [|done]. cbn [rbind]. rewrite IH.
    destruct (map_each _ cds); [|done]. cbn [rbind]. by destruct (subst_cmd _ _ _ _ _ cmd).
Qed.

Lemma subst_rest rest :
  map_each node_of (rest ≫= fun s => NPipe :: flatten_step s) =
  let! rest' := map_each stage_of rest in Ok (rest' ≫= fun s => NPipe :: flatten_step s).
Proof.
  induction rest as [|s rest IH]; [done|]. cbn [mbind list_bind]. rewrite map_each_app. cbn [map_each]. rewrite subst_step.
  cbn [subst_node rbind]. destruct (stage_of s); [|done]. cbn [rbind].
  change (list_bind _ _ _ rest) with (rest ≫= fun s => NPipe :: flatten_step s). rewrite IH. by destruct (map_each _ rest).
Qed.

Lemma subst_pipe first rest :
  map_each node_of (flatten_pipe first rest) =
  let! first' := stage_of first in let! rest' := map_each stage_of rest in Ok (flatten_pipe first' rest').
Proof.
  unfold flatten_pipe. rewrite map_each_app, subst_step, subst_rest.
  destruct (stage_of first); [|done]. cbn [rbind]. by destruct (map_each _ rest).
Qed.

Lemma subst_flatten c : map_each node_of (flatten c) = let! c' := chain_of c in Ok (flatten c').
Proof.
  induction c as [first rest|first rest c IH|first rest c IH]; cbn [flatten subst_chain];
    rewrite ?map_each_app, subst_pipe; destruct (stage_of first); try done; cbn [rbind];
    destruct (map_each _ rest); try done; cbn [rbind map_each subst_node]; rewrite IH; by destruct (chain_of c).
Qed.

Definition scalar_text (x : scalar) (w : pystr) : Prop := x = Str w \/ (x = NoneV /\ w = []).

Lemma repl_text p w : piece_becomes kind eval inputs outputs ns p w <->
  exists x, repl kind eval inputs outputs ns p = Ok x /\ scalar_text x w.
Proof.
  destruct p as [c| |var code]; cbn [piece_becomes repl]; unfold scalar_text; [naive_solver..|].
  enough (forall v, expr_text kind inputs outputs var v w <->
    exists x, repl_value inputs outputs var (kind v) = Ok x /\ scalar_text x w) as H.
  { split.
    - intros (v & E & Hv). apply H in Hv as (x & Ex & Hx). exists x. split; [|exact Hx]. by rewrite E.
    - intros (x & E & Hx). apply rbind_Ok in E as (v & Ev & E). exists v. split; [done|]. apply H. by exists x. }
  intros v. unfold expr_text, repl_value, scalar_text. destruct (kind v) as [n| | |l|x].
  - repeat case_decide; naive_solver.
  - destruct inputs as [|? []]; naive_solver.
  - destruct outputs as [|? []]; naive_solver.
  - destruct l as [|? []]; naive_solver.
  - naive_solver.
Qed.

Lemma join_scalars_iff l s : join_scalars l = Ok s <-> exists ws, Forall2 scalar_text l ws /\ s = mjoin ws.
Proof.
  revert s. induction l as [|x l IH]; intros s; cbn [join_scalars].
  - split; [intros [= <-]; by exists []|]. by intros (ws & ->%Forall2_nil_inv_l & ->).
  - split.
    + intros H. destruct x as [t| |]; [|apply IH in H as (ws & Hl & ->)|done].
      * apply rbind_Ok in H as (r & (ws & Hl & ->)%IH & [= <-]). exists (t :: ws). split; [|done]. constructor; [by left|done].
      * exists ([] :: ws). split; [|done]. constructor; [by right|done].
    + intros (ws' & (w & ws & Hx & Hl & ->)%Forall2_cons_inv_l & ->).
      destruct Hx as [->|[-> ->]]; [|apply IH; by exists ws].
      replace (join_scalars l) with (Ok (E := exn) (mjoin ws)) by (symmetry; apply IH; by exists ws). done.
Qed.

Lemma subst_arg_iff a a' :
  subst_arg kind eval inputs outputs ns a = Ok a' <-> text_becomes kind eval inputs outputs ns a a'.
Proof.
  unfold subst_arg, subst_pieces, text_becomes. generalize (pieces a). intros ps. split.
  - intros (l & Hl & (ws & Hw & ->)%join_scalars_iff)%rbind_Ok. exists ws. split; [|done].
    apply (map_each_iff _ (fun p x => repl kind eval inputs outputs ns p = Ok x)) in Hl; [|done].
    revert ws Hw. induction Hl as [|p x ps l Hp _ IH]; intros ws Hw.
    + by apply Forall2_nil_inv_l in Hw as ->.
    + apply Forall2_cons_inv_l in Hw as (w & ws' & Hx & Hw & ->). constructor; [|by apply IH].
      apply repl_text. by exists x.
  - intros (ws & Hw & ->).
    assert (exists l, map_each (repl kind eval inputs outputs ns) ps = Ok l /\ Forall2 scalar_text l ws) as (l & -> & Hl).
    { induction Hw as [|p w ps ws Hp _ (l & IH & Hl)]; [by exists []|].
      apply repl_text in Hp as (x & Ex & Hx). exists (x :: l). cbn [map_each]. rewrite Ex, IH. split; [done|by constructor]. }
    cbn [rbind]. apply join_scalars_iff. by exists ws.
Qed.

Notation text_of := (subst_arg kind eval inputs outputs ns).

Lemma subst_opt_iff o o' :
  subst_opt kind eval inputs outputs ns o = Ok o' <-> option_Forall2 (text_becomes kind eval inputs outputs ns) o o'.
Proof.
  destruct o as [s|]; cbn [subst_opt]; split.
  - intros (s' & H%subst_arg_iff & [= <-])%rbind_Ok. by constructor.
  - intros H. inversion H as [? s' Hs|]; subst. apply subst_arg_iff in Hs as ->. done.
  - intros [= <-]. constructor.
  - intros H. by inversion H.
Qed.

Lemma subst_target_iff t t' :
  subst_target kind eval inputs outputs ns t = Ok t' <-> target_becomes kind eval inputs outputs ns t t'.
Proof.
  destruct t as [[f| |]|]; cbn [subst_target target_becomes].
  - split; [intros (f' & H%subst_arg_iff & [= <-])%rbind_Ok; done|].
    destruct t' as [[f'| |]|]; try done. by intros ->%subst_arg_iff.
  - split; [by intros [= <-]|]. by destruct t' as [[]|].
  - split; [by intros [= <-]|]. by destruct t' as [[]|].
  - split; [by intros [= <-]|]. by destruct t' as [[]|].
Qed.

Lemma subst_env_iff env env' :
  subst_env kind eval inputs outputs ns env = Ok env' <->
  option_Forall2 (Forall2 (variable_becomes kind eval inputs outputs ns)) env env'.
Proof.
  assert (forall l l', map_each (fun kv : pystr * pystr => let! v := text_of kv.2 in Ok (kv.1, v)) l = Ok l' <->
    Forall2 (variable_becomes kind eval inputs outputs ns) l l') as Hl.
  { intros l l'. apply map_each_iff. intros [k v] [k' v']. unfold variable_becomes. cbn. split.
    - by intros (w & H%subst_arg_iff & [= <- <-])%rbind_Ok.
    - intros [-> ->%subst_arg_iff]. done. }
  destruct env as [l|]; cbn [subst_env]; split.
  - intros (l' & H%Hl & [= <-])%rbind_Ok. by constructor.
  - intros H. inversion H as [? l' Hs|]; subst. apply Hl in Hs as ->. done.
  - intros [= <-]. constructor.
  - intros H. by inversion H.
Qed.

Lemma subst_cmd_iff c c' :
  subst_cmd kind eval inputs outputs ns c = Ok c' <-> command_becomes kind eval inputs outputs ns c c'.
Proof.
  unfold subst_cmd. split.
  - intros H. apply rbind_Ok in H as (? & ?%subst_opt_iff & H). apply rbind_Ok in H as (? & ?%subst_target_iff & H).
    apply rbind_Ok in H as (? & ?%subst_target_iff & H). apply rbind_Ok in H as (argv & Ha & H).
    apply rbind_Ok in H as (? & ?%subst_env_iff & [= <-]).
    apply (map_each_iff _ _ _ _ subst_arg_iff) in Ha. by split.
  - intros [E Ha Hin Hout Herr Henv]. apply subst_opt_iff in Hin as ->. apply subst_target_iff in Hout as ->.
    apply subst_target_iff in Herr as ->. apply (map_each_iff _ _ _ _ subst_arg_iff) in Ha as ->.
    apply subst_env_iff in Henv as ->. cbn [rbind]. rewrite <- E. by destruct c'.
Qed.

Lemma subst_stage_iff s s' : stage_of s = Ok s' <-> stage_becomes kind eval inputs outputs ns s s'.
Proof.
  unfold subst_stage, stage_becomes. split.
  - intros H. apply rbind_Ok in H as (cds & Hc & H). apply rbind_Ok in H as (c & ?%subst_cmd_iff & [= <-]).
    by apply (map_each_iff _ _ _ _ subst_arg_iff) in Hc.
  - intros [Hc Hs]. apply (map_each_iff _ _ _ _ subst_arg_iff) in Hc as ->. apply subst_cmd_iff in Hs as ->.
    by destruct s'.
Qed.

Lemma subst_chain_iff c c' : chain_of c = Ok c' <-> chain_becomes kind eval inputs outputs ns c c'.
Proof.
  revert c'. induction c as [first rest|first rest c IH|first rest c IH]; intros c'; cbn [subst_chain chain_becomes]; split.
  1,3,5: intros H; apply rbind_Ok in H as (? & ?%subst_stage_iff & H); apply rbind_Ok in H as (? & Hr & H);
    apply (map_each_iff _ _ _ _ subst_stage_iff) in Hr; try apply rbind_Ok in H as (? & ?%IH & H); by injection H as <-.
  all: destruct c' as [first' rest'|first' rest' c'|first' rest' c']; try done; intros H;
    destruct_and? H; repeat match goal with
    | H : stage_becomes _ _ _ _ _ _ _ |- _ => apply subst_stage_iff in H as ->
    | H : Forall2 _ _ _ |- _ => apply (map_each_iff _ _ _ _ subst_stage_iff) in H as ->
    | H : chain_becomes _ _ _ _ _ _ _ |- _ => apply IH in H as ->
    end; done.
Qed.

(** C32 - Running a task.  A command line that parses, whose changes of directory each name one
    and that ends with a command, is a chain of pipes.  The task runs the chain in which each
    argument, file, directory and value of a variable has become one text, the values of its
    pieces one after the other, and stands where it stood: whatever the values, also ones
    with spaces or operators in them, they add no command, no argument and no redirection.
    That chain is given to the shell, verbosely or not, and when it is not run verbosely it
    does what the chain means.  An expression that fails or is no text, and a command line
    that does not parse, stops the task before anything is run. *)
Theorem command_run_spec command :
  match parse_command command with
  | Ok p =>
      runnable p -> (exists c, p = flatten c) /\ forall c, p = flatten c ->
        (forall c', chain_becomes kind eval inputs outputs ns c c' ->
           (forall W (shell_run : bool -> list node -> stM W (option Z)) verbose w,
              command_run kind eval inputs outputs shell_run ns verbose command w = shell_run verbose (flatten c') w) /\
           forall W file proc environ open_read open_write close popen wait print (w : W),
             command_run kind eval inputs outputs
               (run (file := file) (proc := proc) environ open_read open_write close popen wait print) ns false command w =
             run_chain environ open_read open_write close popen wait c' $"." w) /\
        (~ (exists c', chain_becomes kind eval inputs outputs ns c c') -> exists e,
           forall W (shell_run : bool -> list node -> stM W (option Z)) verbose w,
             command_run kind eval inputs outputs shell_run ns verbose command w = (w, Err e))
  | Err e => forall W shell_run verbose (w : W),
      command_run kind eval inputs outputs shell_run ns verbose command w = (w, Err e)
  end.
Proof.
  unfold command_run. destruct (parse_command command) as [p|e] eqn:E; [|done]. intros Hr.
  assert (wf p) as Hwf.
  { destruct command as [s|l]; cbn in E; [|by eapply parse_wf].
    unfold parse_text in E. apply rbind_Ok in E as (tokens & _ & E). by eapply parse_wf. }
  split; [by apply wf_chain|]. intros c ->. unfold gbind, mlift. rewrite subst_flatten. split.
  - intros c' ->%subst_chain_iff. cbn [rbind]. split; [done|]. intros. apply run_loop_chain.
  - intros Hn. destruct (chain_of c) as [c'|e] eqn:Ec; [|by exists e]. destruct Hn. exists c'. by apply subst_chain_iff.
Qed.

End chains.

(** ** Templates *)

Definition piece_text (p : piece) : pystr :=
  match p with
  | Lit c => [c]
  | Dollar => $"$$"
  | Subst var code => $"${" ++ var ++ code ++ $"}"
  end.

Definition template (ps : list piece) : pystr := ps ≫= piece_text.

(** A dollar is written twice; the code does not begin with a character of a name. *)
Definition piece_ok (p : piece) : Prop :=
  match p with
  | Lit c => c <> "$"%char
  | Dollar => True
  | Subst var code =>
      var <> [] /\ Forall (fun c => re_word c = true) var /\ Forall (fun c => code_char c = true) code /\
      match code with c :: _ => re_word c = false | [] => True end
  end.

Lemma arg_rx_lit c s : c <> "$"%char -> arg_rx (c :: s) = None.
Proof.
  intros Hc. assert (forall p, take_lit ("$"%char :: p) (c :: s) = None) as H.
  { intros p. unfold take_lit. destruct (startswith _ _) eqn:E; [|done].
    apply startswith_spec in E as [r E]. injection E as E _. congruence. }
  unfold arg_rx. change ($"$$") with ("$"%char :: $"$"). change ($"${") with ("$"%char :: $"{"). by rewrite !H.
Qed.

Lemma arg_rx_text p s : piece_ok p -> (forall c, p <> Lit c) -> arg_rx (piece_text p ++ s) = Some (p, s).
Proof.
  destruct p as [c| |var code]; [intros _ H; by destruct (H c)|done|]. intros (Hv & Hvw & Hc & Hcw) _.
  cbn [piece_text]. unfold arg_rx. rewrite <- !(assoc_L (++)).
  assert (take_lit $"$$" ($"${" ++ var ++ code ++ $"}" ++ s) = None) as -> by done.
  rewrite take_lit_app. cbn [mbind option_bind].
  rewrite (take_some_app _ var code ($"}" ++ s)) by (try done; by destruct code). cbn [mbind option_bind].
  rewrite span_app by done. by rewrite take_lit_app.
Qed.

Lemma piece_text_length p : 0 < length (piece_text p).
Proof. destruct p; cbn; lia. Qed.

(** The text of a template is read back. *)
Lemma pieces_template ps : Forall piece_ok ps -> pieces (template ps) = ps.
Proof.
  intros H. unfold pieces.
  enough (forall fuel, length (template ps) <= fuel -> pieces_fuel fuel (template ps) = ps) as Hf by by apply Hf.
  induction H as [|p ps Hp H IH]; intros fuel Hfuel; [by destruct fuel|].
  unfold template in *. cbn [mbind list_bind] in *. rewrite length_app in Hfuel.
  pose proof (piece_text_length p) as Hl. destruct fuel as [|fuel]; [lia|].
  destruct (piece_text p ++ (ps ≫= piece_text)) as [|c r] eqn:E.
  { apply app_eq_nil in E as [E _]. rewrite E in Hl. cbn in Hl. lia. }
  cbn [pieces_fuel]. rewrite <- E. assert ((exists c, p = Lit c) \/ forall c, p <> Lit c) as [[c' ->]|Hn] by (destruct p; [left; by eexists|by right..]).
  - cbn in E, Hfuel. injection E as <- <-. cbn [piece_text app]. rewrite arg_rx_lit by done. f_equal. apply IH. lia.
  - rewrite arg_rx_text by done. f_equal. apply IH. lia.
Qed.

(** The reserved words of Python, which are no names. *)
Definition keywords : list pystr :=
  [$"False"; $"None"; $"True"; $"and"; $"as"; $"assert"; $"async"; $"await"; $"break"; $"class"; $"continue"; $"def";
   $"del"; $"elif"; $"else"; $"except"; $"finally"; $"for"; $"from"; $"global"; $"if"; $"import"; $"in"; $"is";
   $"lambda"; $"nonlocal"; $"not"; $"or"; $"pass"; $"raise"; $"return"; $"try"; $"while"; $"with"; $"yield"].

Definition is_name (v : pystr) : Prop :=
  v ∉ keywords /\ Forall (fun c => word_char c = true) v /\ match v with c :: _ => is_digit c = false | [] => False end.

Lemma join_strs ws : join_scalars (Str <$> ws) = Ok (mjoin ws).
Proof. induction ws as [|w ws IH]; [done|]. cbn [fmap list_fmap join_scalars]. by rewrite IH. Qed.

Section templates.
Context {V : Type} (kind : V -> value) (eval : gmap pystr V -> pystr -> py V).
Context (inputs outputs : list wnode) (ns : gmap pystr V).

(** A name evaluates to what it is bound to. *)
Context (eval_name : forall v x, is_name v -> ns !! v = Some x -> eval ns v = Ok x).

(** What a piece of a template is replaced by. *)
Definition piece_value (p : piece) (w : pystr) : Prop :=
  match p with
  | Lit c => w = [c]
  | Dollar => w = $"$"
  | Subst var code =>
      code = [] /\ is_name var /\ exists x, ns !! var = Some x /\
      match kind x with
      | VNode n => (var = $"SRC" /\ w = srcpath n) \/ (var = $"TGT" /\ w = bld_abspath n)
      | VInputs => exists n, inputs = [n] /\ w = srcpath n
      | VOutputs => exists n, outputs = [n] /\ w = bld_abspath n
      | VList l => l = [Str w]
      | VScalar x => x = Str w
      end
  end.

Lemma repl_value_ok p w : piece_value p w -> repl kind eval inputs outputs ns p = Ok (Str w).
Proof.
  destruct p as [c| |var code]; cbn [piece_value repl]; [by intros ->|by intros ->|].
  intros (-> & Hn & x & Hx & Hv). rewrite (right_id_L [] (++)), (eval_name _ x) by done. cbn [rbind]. unfold repl_value.
  destruct (kind x); [|naive_solver..]. destruct Hv as [[-> ->]|[-> ->]]; by repeat case_decide.
Qed.

(** A template is replaced by the values of its names, and the rest of its text stays, a
    dollar written twice once; so a text whose dollars are doubled comes out as it was. *)
Theorem subst_arg_spec ps ws s :
  Forall piece_ok ps -> Forall2 piece_value ps ws ->
  subst_arg kind eval inputs outputs ns (template ps) = Ok (mjoin ws) /\
  subst_arg kind eval inputs outputs ns (s ≫= fun c => if decide (c = "$"%char) then $"$$" else [c]) = Ok s.
Proof.
  intros Hps Hws.
  assert (forall ps ws, Forall piece_ok ps -> Forall2 piece_value ps ws ->
    subst_arg kind eval inputs outputs ns (template ps) = Ok (mjoin ws)) as H.
  { clear ps ws s Hps Hws. intros ps ws Hps Hws. unfold subst_arg, subst_pieces. rewrite pieces_template by done.
    rewrite (map_each_Forall2 _ _ (Str <$> ws)); [cbn [rbind]; apply join_strs|].
    apply Forall2_fmap_r. eapply Forall2_impl; [exact Hws|]. intros p w. apply repl_value_ok. }
  split; [by apply H|].
  set (piece_of := fun c => if decide (c = "$"%char) then Dollar else Lit c).
  assert ((s ≫= fun c => if decide (c = "$"%char) then $"$$" else [c]) = template (piece_of <$> s)) as ->.
  { unfold template. induction s as [|c s IH]; [done|]. cbn [mbind list_bind fmap list_fmap].
    rewrite IH. f_equal. unfold piece_of. by case_decide. }
  rewrite (H _ ((fun c => [c]) <$> s)).
  - f_equal. clear. induction s as [|c s IH]; [done|]. cbn [fmap list_fmap mjoin list_join app]. f_equal. exact IH.
  - clear. induction s as [|c s IH]; constructor; [|done]. unfold piece_of. by case_decide.
  - clear. induction s as [|c s IH]; constructor; [|done]. unfold piece_of. case_decide; by subst.
Qed.

End templates.

(** ** A task *)

Definition demo_eval (ns : gmap pystr value) (text : pystr) : py value := or_raise KeyError (ns !! text).

Definition demo_ns : gmap pystr value :=
  namespace_of {[ $"msg" := VScalar (Str $"a && rm b") ]} None (VScalar Object) VInputs VOutputs.

Definition demo_inputs : list wnode := [{| bldpath := $"in.txt"; srcpath := $"../my in.txt"; bld_abspath := $"/b/in.txt" |}].
Definition demo_outputs : list wnode := [{| bldpath := $"out.txt"; srcpath := $"out.txt"; bld_abspath := $"/b/out.txt" |}].

Definition demo_shell (verbose : bool) (p : list node) : stM log (option Z) :=
  run (W := log) (file := ()) (proc := list pystr) []
    (fun _ => mret tt) (fun _ => mret tt) (fun _ => mret tt)
    (fun a w => (w ++ [(a_argv a, a_cwd a)], Ok (a_argv a)))
    (fun p => mret (demo_status p)) (fun _ => mret tt) verbose p.

Definition demo_task (command : pystr) : log * py (option Z) :=
  command_run id demo_eval demo_inputs demo_outputs demo_shell demo_ns false (Text command) [].

(** A value is one argument, whatever is in it. *)
Example no_injection :
  demo_task $"cat ${SRC} > ${TGT} && echo $$${msg}" =
  ([([$"cat"; $"../my in.txt"], None); ([$"echo"; $"$a && rm b"], None)], Ok (Some 0%Z)).
Proof. vm_compute. reflexivity. Qed.

(** An unknown name stops the task before anything is run. *)
Example unknown_name : demo_task $"true && echo ${MSG}" = ([], Err KeyError).
Proof. vm_compute. reflexivity. Qed.

(** What is shown of a task has the text of its command, unchanged. *)
Example shown_task :
  command_str demo_inputs demo_outputs (Text $"cat ${SRC} | wc -l") = Ok $"command (cat | wc): in.txt -> out.txt".
Proof. vm_compute. reflexivity. Qed.

(** The quotes of an expression are those of the command line: they are gone when it is
    evaluated. *)
Example quotes_lost :
  parse_command (Text $"echo ${d['k']}") = parse_command (Text $"echo ${d[k]}").
Proof. vm_compute. reflexivity. Qed.

(** The chain of the line and what it becomes. *)
Definition demo_line (first second : list pystr) : chain :=
  let cmd argv := {| cmd_name := default [] (head argv); cmd_argv := argv; cmd_stdin := None; cmd_stdout := None;
                     cmd_stderr := None; cmd_env := None |} in
  AndThen (lone (cmd first)) [] (Last (lone (cmd second)) []).

Lemma command_run_spec_witness :
  let before := demo_line [$"cat"; $"${SRC}"] [$"echo"; $"$$${msg}"] in
  let after := demo_line [$"cat"; $"../my in.txt"] [$"echo"; $"$a && rm b"] in
  demo_task $"cat ${SRC} && echo $$${msg}" =
    run_chain (file := ()) (proc := list pystr) []
      (fun _ => mret tt) (fun _ => mret tt) (fun _ => mret tt)
      (fun a (w : log) => (w ++ [(a_argv a, a_cwd a)], Ok (a_argv a))) (fun p => mret (demo_status p)) after $"." [].
Proof.
  intros before after.
  pose proof (command_run_spec id demo_eval demo_inputs demo_outputs demo_ns (Text $"cat ${SRC} && echo $$${msg}")) as H.
  assert (parse_command (Text $"cat ${SRC} && echo $$${msg}") = Ok (flatten before)) as E by (vm_compute; reflexivity).
  rewrite E in H. destruct H as [_ H].
  - split; [repeat constructor; discriminate|by eexists].
  - destruct (H before eq_refl) as [H' _]. apply (H' after). apply subst_chain_iff. vm_compute. reflexivity.
Defined.

Lemma subst_arg_spec_witness :
  subst_arg id demo_eval demo_inputs demo_outputs demo_ns $"$$x=${SRC},${msg}" = Ok $"$x=../my in.txt,a && rm b" /\
  subst_arg id demo_eval demo_inputs demo_outputs demo_ns $"$$a$$" = Ok $"$a$".
Proof.
  apply (subst_arg_spec id demo_eval demo_inputs demo_outputs demo_ns) with
    (ps := [Dollar; Lit "x"; Lit "="; Subst $"SRC" []; Lit ","; Subst $"msg" []]%char)
    (ws := [$"$"; $"x"; $"="; $"../my in.txt"; $","; $"a && rm b"]) (s := $"$a$").
  - intros v x _ Hx. unfold demo_eval. by rewrite Hx.
  - repeat (constructor; [first [done|by split_and!; [|repeat constructor..|]]|]). constructor.
  - assert (is_name $"SRC" /\ is_name $"msg") as [H1 H2].
    { split; (split; [by apply (bool_decide_unpack _); vm_compute|by split; [repeat constructor|]]). }
    repeat (constructor; [try done|]); [..|constructor].
    + exists VInputs. split; [done|]. by eexists.
    + by exists (VScalar (Str $"a && rm b")).
Defined.
