(* ===== verification/CompileDb.v ===== *)
(** * [waf-tools/clang_compilation_database.py]: the database of compile commands

    The tasks that compile a source file are collected, and after the build each writes its
    command to [compile_commands.json], over the entry of its file.  The entries of the
    file there was are JSON objects, of which the code reads the key [file]; reading and
    printing JSON is the library's. *)

From S2P Require Import Prelude PyDict OsPath Shlex.

(** ** [shlex.quote] *)

(** [[^\w@%+=:,./-]] is unsafe. *)
Definition safe_char (c : ascii) : bool :=
  word_char c || bool_decide (c ∈ ["@"; "%"; "+"; "="; ":"; ","; "."; "/"; "-"]%char).

Definition py_quote (s : pystr) : pystr :=
  match s with
  | [] => $"''"
  | _ => if forallb safe_char s then s else shlex_quote s
  end.

(** ** The tasks *)

(** The command that was run, if it was; the attribute [cwd]; the paths of the inputs. *)
Record task := { last_cmd : option (list pystr); task_cwd : option pystr; task_inputs : list pystr }.

(** Of the tasks compiled those of the classes [c] and [cxx]. *)
Definition collect_compilation_db_tasks (compiled_tasks : list (bool * task)) (clang_db : list task) : list task :=
  foldl (fun db (t : bool * task) => if t.1 then db ++ [t.2] else db) clang_db compiled_tasks.

Section database.
Context {J : Type} (json_file : J -> py pystr) (cwd variant_dir : pystr).

(** An entry: an object of the file there was, or a new one. *)
Inductive entry := Old (x : J) | New (directory command file : pystr).

Definition entry_file (e : entry) : py pystr := match e with Old x => json_file x | New _ _ f => Ok f end.

(** The key and the entry of a task, None for a task that was not run. *)
Definition task_entry (t : task) : py (option (pystr * entry)) :=
  match last_cmd t with
  | None => Ok None
  | Some cmd =>
      let directory := default variant_dir (task_cwd t) in
      let! f_node := py_get (task_inputs t) 0 in
      let! filename := os_path_relpath cwd f_node directory in
      Ok (Some (filename, New directory (join $" " (py_quote <$> cmd)) filename))
  end.

Definition add_task (clang_db : list (pystr * entry)) (t : task) : py (list (pystr * entry)) :=
  let! e := task_entry t in
  Ok (match e with Some (f, e) => AList.aset f e clang_db | None => clang_db end).

Definition add_old (clang_db : list (pystr * entry)) (x : J) : py (list (pystr * entry)) :=
  let! f := json_file x in Ok (AList.aset f (Old x) clang_db).

(** [loaded] is what [json.load] gives; a file that can not be read is an empty database. *)
Definition write_compilation_database (loaded : py (list J)) (tasks : list task) : py (list entry) :=
  let! root := match loaded with Err OSError => Ok [] | _ => loaded end in
  let! clang_db := for_each add_old root [] in
  let! clang_db := for_each add_task tasks clang_db in
  Ok clang_db.*2.

End database.
Arguments entry J : clear implicits.

(** ** Quoting *)

Lemma safe_char_lex c : safe_char c = true -> sh_space c = false /\ sh_quote c = false /\ c <> BS.
Proof.
  intros H. assert (forall c, negb (safe_char c) || (negb (sh_space c) && negb (sh_quote c) && negb (bool_decide (c = BS))) = true) as Hall.
  { intros [[] [] [] [] [] [] [] []]; vm_compute; reflexivity. }
  specialize (Hall c). rewrite H in Hall. cbn in Hall. rewrite !andb_true_iff, !negb_true_iff, bool_decide_eq_false in Hall. tauto.
Qed.

Lemma lex_safe w s token : forallb safe_char w = true -> lex (w ++ s) InWord token false = lex s InWord (token ++ w) false.
Proof.
  revert token. induction w as [|c w IH]; intros token H; cbn [app]; [by rewrite (right_id_L [] (++))|].
  cbn [forallb] in H. apply andb_true_iff in H as [Hc Hw]. destruct (safe_char_lex c Hc) as (H1 & H2 & H3).
  cbn [lex]. rewrite H1, H2, bool_decide_eq_false_2 by done. rewrite IH by done. by rewrite <- (assoc_L (++)).
Qed.

(** After a quoted word: it is there, also when it is empty. *)
Lemma lex_py_quote w s :
  exists q, lex (py_quote w ++ s) Between [] false = lex s InWord w q /\ (q || negb (bool_decide (w = [])) = true).
Proof.
  destruct w as [|c w]; [by exists true|]. unfold py_quote. destruct (forallb _ _) eqn:H.
  - exists false. split; [|done]. cbn [forallb] in H. apply andb_true_iff in H as [Hc Hw].
    destruct (safe_char_lex c Hc) as (H1 & H2 & H3). cbn [app lex]. rewrite H1, H2, bool_decide_eq_false_2 by done.
    by rewrite lex_safe.
  - exists true. split; [apply lex_word|done].
Qed.

Lemma shlex_split_py_quote ws : shlex_split (join $" " (py_quote <$> ws)) = Ok ws.
Proof.
  unfold shlex_split. induction ws as [|w ws IH]; [done|]. destruct ws as [|w' ws].
  - cbn [fmap list_fmap join]. rewrite <- (right_id_L [] (++) (py_quote w)).
    destruct (lex_py_quote w []) as (q & -> & Hq). cbn [lex]. by rewrite Hq.
  - revert IH. set (line := join $" " (py_quote <$> w' :: ws)). intros IH.
    change (lex (py_quote w ++ " "%char :: line) Between [] false = Ok (w :: w' :: ws)).
    destruct (lex_py_quote w (" "%char :: line)) as (q & -> & Hq). cbn [lex].
    change (sh_space " ") with true. cbn iota. rewrite IH. cbn [rbind]. by rewrite Hq.
Qed.

(** ** The database *)

Lemma aget_elem {K V} `{EqDecision K} (l : list (K * V)) k v : NoDup l.*1 -> (k, v) ∈ l <-> AList.aget l k = Some v.
Proof.
  induction l as [|[k' v'] l IH]; cbn [AList.aget fmap list_fmap fst]; intros Hnd.
  - split; [by intros ?%not_elem_of_nil|done].
  - apply NoDup_cons in Hnd as [Hk Hnd]. rewrite list.elem_of_cons, IH by done. case_decide as E.
    + subst k'. split; [intros [[= <-]|H]; [done|]|intros [= <-]; by left].
      exfalso. apply Hk. apply IH in H; [|done]. by apply (list_elem_of_fmap_2 fst) in H.
    + split; [intros [[= <- <-]|H]; done|by right].
Qed.

Section spec.
Context {J : Type} (json_file : J -> py pystr) (cwd variant_dir : pystr).

Notation file_of := (entry_file json_file).

(** The last entry of a file. *)
Definition latest (es : list (entry J)) (f : pystr) : option (entry J) := last (filter (fun e => file_of e = Ok f) es).

Definition new_entries (tasks : list task) : list (entry J) :=
  omap (fun t => match task_entry cwd variant_dir t with Ok (Some fe) => Some fe.2 | _ => None end) tasks.

(** The dictionary of a list of entries. *)
Record db_of (es : list (entry J)) (db : list (pystr * entry J)) : Prop := {
  db_keys : NoDup db.*1;
  db_latest : forall f, AList.aget db f = latest es f;
  db_files : forall f e, (f, e) ∈ db -> file_of e = Ok f
}.

Lemma latest_snoc es e f g : file_of e = Ok f -> latest (es ++ [e]) g = if decide (f = g) then Some e else latest es g.
Proof.
  intros He. unfold latest. rewrite filter_app, filter_cons, He. cbn [filter list_filter].
  destruct (decide (Ok f = Ok g)) as [[= ->]|Hne].
  - by rewrite decide_True, last_snoc.
  - rewrite decide_False by congruence. by rewrite (right_id_L [] (++)).
Qed.

Lemma db_set es db f e : db_of es db -> file_of e = Ok f -> db_of (es ++ [e]) (AList.aset f e db).
Proof.
  intros [Hk Hl Hf] He. assert (NoDup (AList.aset f e db).*1) as Hnd by by apply AList.aset_nodup.
  assert (forall g, AList.aget (AList.aset f e db) g = latest (es ++ [e]) g) as Hg.
  { intros g. rewrite AList.aget_aset, (latest_snoc es e f g), Hl by done. by repeat case_decide. }
  split; [done|done|]. intros g e' Hin. rewrite aget_elem, Hg, (latest_snoc es e f g He) in Hin by done.
  case_decide as E; [subst; congruence|]. rewrite <- Hl, <- aget_elem in Hin by done. by apply Hf.
Qed.

Definition task_ok (t : task) : Prop := last_cmd t = None \/ exists p, head (task_inputs t) = Some p /\ p <> [].

Lemma task_entry_ok t : task_ok t ->
  match last_cmd t with
  | None => task_entry (J := J) cwd variant_dir t = Ok None
  | Some cmd => exists f, task_entry (J := J) cwd variant_dir t =
      Ok (Some (f, New (default variant_dir (task_cwd t)) (join $" " (py_quote <$> cmd)) f))
  end.
Proof.
  unfold task_ok. intros Ht. unfold task_entry. destruct (last_cmd t) as [cmd|]; [|done].
  destruct Ht as [|(p & Hp & Hne)]; [done|]. destruct (task_inputs t) as [|q l]; [done|]. injection Hp as ->.
  change (py_get (p :: l) 0) with (Ok p : py pystr). cbn [rbind]. unfold os_path_relpath at 1.
  rewrite decide_False by done. cbv zeta. case_decide; by eexists.
Qed.

Lemma add_olds root es db : db_of es db -> Forall (fun x => is_ok (json_file x) = true) root ->
  exists db', for_each (add_old json_file) root db = Ok db' /\ db_of (es ++ (Old <$> root)) db'.
Proof.
  intros Hdb Hroot. revert es db Hdb. induction Hroot as [|x root Hx _ IH]; intros es db Hdb; cbn [for_each fmap list_fmap].
  - exists db. by rewrite (right_id_L [] (++)).
  - unfold add_old at 1. destruct (json_file x) as [f|] eqn:E; [|done]. cbn [rbind].
    destruct (IH (es ++ [Old x]) (AList.aset f (Old x) db)) as (db' & -> & H); [by apply db_set|].
    exists db'. by rewrite <- (assoc_L (++)) in H.
Qed.

Lemma add_tasks tasks es db : db_of es db -> Forall task_ok tasks ->
  exists db', for_each (add_task cwd variant_dir) tasks db = Ok db' /\ db_of (es ++ new_entries tasks) db'.
Proof.
  intros Hdb Htasks. revert es db Hdb. induction Htasks as [|t tasks Ht _ IH]; intros es db Hdb; cbn [for_each].
  - exists db. unfold new_entries. cbn. by rewrite (right_id_L [] (++)).
  - pose proof (task_entry_ok t Ht) as He. unfold add_task at 1, new_entries. cbn [omap list_omap].
    destruct (last_cmd t) as [cmd|].
    + destruct He as [f ->]. cbn [rbind snd]. destruct (IH (es ++ [New (default variant_dir (task_cwd t)) (join $" " (py_quote <$> cmd)) f])
        (AList.aset f (New (default variant_dir (task_cwd t)) (join $" " (py_quote <$> cmd)) f) db)) as (db' & -> & H); [by apply db_set|].
      exists db'. by rewrite <- (assoc_L (++)) in H.
    + rewrite He. cbn [rbind]. by apply IH.
Qed.

Lemma new_entries_elem tasks d c f : Forall task_ok tasks -> New d c f ∈ new_entries tasks ->
  exists t cmd, t ∈ tasks /\ last_cmd t = Some cmd /\ d = default variant_dir (task_cwd t) /\ shlex_split c = Ok cmd.
Proof.
  intros Hok (t & Ht & E)%list_elem_of_omap. rewrite Forall_forall in Hok. pose proof (task_entry_ok t (Hok t Ht)) as He.
  destruct (last_cmd t) as [cmd|] eqn:Ec; [|by rewrite He in E]. destruct He as [f' He]. rewrite He in E. injection E as <- <- <-.
  exists t, cmd. split_and!; try done. apply shlex_split_py_quote.
Qed.

(** C34 - The database written has one entry for each file: the one of the last task that compiled
    it, or else the last one there was; splitting the command of a new entry as a shell does
    gives back the command that was run.  A database that can not be read counts as empty. *)
Theorem write_compilation_database_spec root tasks :
  Forall (fun x => is_ok (json_file x) = true) root -> Forall task_ok tasks ->
  exists es, write_compilation_database json_file cwd variant_dir (Ok root) tasks = Ok es /\
    NoDup (file_of <$> es) /\
    (forall e, e ∈ es <-> exists f, file_of e = Ok f /\ latest ((Old <$> root) ++ new_entries tasks) f = Some e) /\
    (forall d c f, New d c f ∈ es -> exists t cmd, t ∈ tasks /\ last_cmd t = Some cmd /\
       d = default variant_dir (task_cwd t) /\ shlex_split c = Ok cmd) /\
    write_compilation_database json_file cwd variant_dir (Err OSError) tasks =
    write_compilation_database json_file cwd variant_dir (Ok []) tasks.
Proof.
  intros Hroot Htasks. unfold write_compilation_database at 1. cbn [rbind].
  destruct (add_olds root [] []) as (db1 & -> & H1); [|done|].
  { split; [constructor|done|by intros f e ?%not_elem_of_nil]. }
  cbn [rbind]. destruct (add_tasks tasks _ db1 H1 Htasks) as (db & -> & [Hk Hl Hf]). cbn [app] in Hl.
  assert (forall e, e ∈ db.*2 <-> exists f, file_of e = Ok f /\ latest ((Old <$> root) ++ new_entries tasks) f = Some e) as He.
  { intros e. rewrite list_elem_of_fmap. split.
    - intros ([f e'] & -> & Hin). exists f. split; [by apply Hf|]. by rewrite <- Hl, <- aget_elem.
    - intros (f & Hfe & Hlat). exists (f, e). split; [done|]. by rewrite aget_elem, Hl. }
  exists db.*2. split; [done|]. split; [|split; [done|split; [|done]]].
  - assert (file_of <$> db.*2 = Ok <$> db.*1) as ->.
    { rewrite <- !list_fmap_compose. apply list_fmap_ext. intros i [f e] Hi. cbn. apply Hf. by eapply list_elem_of_lookup_2. }
    by apply NoDup_fmap_2; [intros ?? [= ->]|].
  - intros d c f (f' & Hf' & Hlat)%He. apply (new_entries_elem tasks d c f); [done|].
    unfold latest in Hlat. apply last_Some in Hlat as [l Hl'].
    assert (New d c f ∈ filter (fun e => file_of e = Ok f') ((Old <$> root) ++ new_entries tasks)) as Hin by (rewrite Hl'; set_solver).
    apply list_elem_of_filter in Hin as [_ [Hin|Hin]%elem_of_app]; [|done].
    by apply list_elem_of_fmap in Hin as (? & ? & _).
Qed.

End spec.

(** ** A build *)

Definition demo_tasks : list task :=
  [{| last_cmd := Some [$"g++"; $"-DX=a b"; []; $"-c"; $"../src/a.cc"]; task_cwd := None; task_inputs := [$"/ns/src/a.cc"] |};
   {| last_cmd := None; task_cwd := None; task_inputs := [] |}].

Definition demo_db : py (list (entry pystr)) :=
  write_compilation_database (J := pystr) Ok $"/ns/build" $"/ns/build" (Ok [$"../src/a.cc"; $"../src/b.cc"]) demo_tasks.

Example demo_db_entries :
  demo_db = Ok [New $"/ns/build" $"g++ '-DX=a b' '' -c ../src/a.cc" $"../src/a.cc"; Old $"../src/b.cc"].
Proof. vm_compute. reflexivity. Qed.

Lemma write_compilation_database_spec_witness :
  exists es, demo_db = Ok es /\ NoDup (entry_file Ok <$> es) /\
    forall d c f, New d c f ∈ es -> exists t cmd, t ∈ demo_tasks /\ last_cmd t = Some cmd /\
      d = default $"/ns/build" (task_cwd t) /\ shlex_split c = Ok cmd.
Proof.
  destruct (write_compilation_database_spec (J := pystr) Ok $"/ns/build" $"/ns/build" [$"../src/a.cc"; $"../src/b.cc"] demo_tasks)
    as (es & E & Hnd & _ & Hnew & _).
  - by repeat constructor.
  - constructor; [right; by eexists|]. constructor; [by left|constructor].
  - exists es. split; [exact E|]. split; [exact Hnd|exact Hnew].
Defined.
