(* ===== verification/Regex.v ===== *)
(** * Regular expressions of the module [re]

    The part of the syntax the code uses: characters and classes, sequences,
    greedy repetitions of a class, greedy options and groups.  Matching is
    backtracking: the matches of an expression at the start of a text are listed in
    the order in which they are tried, and [re.match] takes the first. *)

From S2P Require Import Prelude.

(** [CStar p] is [p*] of a class. *)
Inductive rx :=
| Eps
| Class (p : ascii -> bool)
| CStar (p : ascii -> bool)
| Seq (a b : rx)
| Opt (a : rx)
| Group (n : nat) (a : rx).

Definition CPlus (p : ascii -> bool) : rx := Seq (Class p) (CStar p).

Definition literal (w : pystr) : rx := foldr (fun c => Seq (Class (fun d => bool_decide (d = c)))) Eps w.

Declare Scope rx_scope.
Delimit Scope rx_scope with rx.
Bind Scope rx_scope with rx.
Infix "⋅" := Seq (at level 55, right associativity) : rx_scope.

(** [.] *)
Definition dot (c : ascii) : bool := negb (bool_decide (c = NL)).

(** What the groups matched. *)
Abbreviation groups := (gmap nat pystr).

(** What a repetition may leave, the longest one first. *)
Fixpoint star_rests (p : ascii -> bool) (s : pystr) : list pystr :=
  match s with
  | [] => [[]]
  | c :: s' => if p c then star_rests p s' ++ [s] else [s]
  end.

Fixpoint matches (r : rx) (s : pystr) (g : groups) : list (pystr * groups) :=
  match r with
  | Eps => [(s, g)]
  | Class p => match s with c :: s' => if p c then [(s', g)] else [] | [] => [] end
  | CStar p => (fun s' => (s', g)) <$> star_rests p s
  | Seq a b => matches a s g ≫= fun sg => matches b sg.1 sg.2
  | Opt a => matches a s g ++ [(s, g)]
  | Group n a =>
      (fun sg => (sg.1, <[n := take (length s - length sg.1) s]> sg.2)) <$> matches a s g
  end.

(** [re.match(r, s)]: the groups of the match. *)
Definition re_match (r : rx) (s : pystr) : option groups := snd <$> head (matches r s ∅).

(** ** The language of an expression *)

Fixpoint lang (r : rx) (w : pystr) : Prop :=
  match r with
  | Eps => w = []
  | Class p => exists c, w = [c] /\ p c = true
  | CStar p => Forall (fun c => p c = true) w
  | Seq a b => exists u v, w = u ++ v /\ lang a u /\ lang b v
  | Opt a => lang a w \/ w = []
  | Group _ a => lang a w
  end.

Lemma star_rests_spec p s s' :
  s' ∈ star_rests p s <-> exists w, s = w ++ s' /\ Forall (fun c => p c = true) w.
Proof.
  induction s as [|c s IH]; cbn.
  - rewrite list_elem_of_singleton. split; [intros ->; by exists []|].
    intros (w & E & _). by destruct w, s'.
  - destruct (p c) eqn:Ep.
    + rewrite elem_of_app, list_elem_of_singleton, IH. split.
      * intros [(w & -> & Hw)| ->]; [exists (c :: w); auto|by exists []].
      * intros ([|d w] & E & Hw); [by right|left]. injection E as -> E.
        apply Forall_cons in Hw as [_ Hw]. eauto.
    + rewrite list_elem_of_singleton. split; [intros ->; by exists []|].
      intros ([|d w] & E & Hw); [done|]. injection E as -> E. apply Forall_cons in Hw as [Hd _]. congruence.
Qed.

(** Each match cuts a word of the language off the text, and each such word is
    found. *)
Lemma matches_lang r s g s' :
  (exists g', (s', g') ∈ matches r s g) <-> exists w, s = w ++ s' /\ lang r w.
Proof.
  revert s g s'. induction r as [|p|p|a IHa b IHb|a IHa|n a IHa]; intros s g s'; cbn.
  - setoid_rewrite list_elem_of_singleton. split.
    + intros [? [= -> ->]]. by exists [].
    + intros (w & -> & ->). eauto.
  - destruct s as [|c s]; cbn.
    { split; [intros [? ?%elem_of_nil]; done|]. by intros (? & ? & ? & -> & _). }
    destruct (p c) eqn:Ep.
    + setoid_rewrite list_elem_of_singleton. split.
      * intros [? [= -> ->]]. exists [c]. eauto.
      * intros (w & E & d & -> & _). injection E as -> ->. eauto.
    + split; [intros [? ?%elem_of_nil]; done|].
      intros (w & E & d & -> & Hd). injection E as -> ->. congruence.
  - setoid_rewrite list_elem_of_fmap. rewrite <- star_rests_spec. split; [by intros (? & ? & [= -> ->] & ?)|eauto].
  - setoid_rewrite list_elem_of_bind. split.
    + intros (g' & [t g1] & Hb & Ha). cbn in Hb.
      destruct (proj1 (IHa s g t)) as (u & -> & Hu); [eauto|].
      destruct (proj1 (IHb t g1 s')) as (v & -> & Hv); [eauto|].
      exists (u ++ v). rewrite (assoc_L (++)). eauto 6.
    + intros (w & -> & u & v & -> & Hu & Hv).
      destruct (proj2 (IHa ((u ++ v) ++ s') g (v ++ s'))) as [g1 H1]; [exists u; by rewrite (assoc_L (++))|].
      destruct (proj2 (IHb (v ++ s') g1 s')) as [g2 H2]; [eauto|]. exists g2, (v ++ s', g1). eauto.
  - setoid_rewrite elem_of_app. setoid_rewrite list_elem_of_singleton. split.
    + intros [g' [H|[= -> ->]]]; [|exists []; auto].
      destruct (proj1 (IHa s g s')) as (w & ? & ?); [eauto|]. eauto.
    + intros (w & E & [Hw| ->]); [|exists g; right; cbn in E; by rewrite E].
      destruct (proj2 (IHa s g s')) as [g' ?]; eauto.
  - rewrite <- (IHa s g). setoid_rewrite list_elem_of_fmap. split.
    + intros (g' & [t g1] & [= -> ->] & H). eauto.
    + intros [g1 H]. eexists _, (s', g1). eauto.
Qed.

Lemma re_match_lang r s : is_Some (re_match r s) <-> exists w s', s = w ++ s' /\ lang r w.
Proof.
  unfold re_match. split.
  - intros [g Hg]. destruct (matches r s ∅) as [|[s' g'] l] eqn:E; [done|].
    destruct (proj1 (matches_lang r s ∅ s')) as (w & -> & Hw); [exists g'; rewrite E; by left|]. eauto.
  - intros (w & s' & -> & Hw). destruct (proj2 (matches_lang r (w ++ s') ∅ s')) as [g Hg]; [eauto|].
    destruct (matches _ _ _); [by apply elem_of_nil in Hg|]. by eexists.
Qed.

(** ** The first match

    [first r s g s' g']: the first match of [r] leaves [s'] and the groups [g']. *)

Definition first (r : rx) (s : pystr) (g : groups) (s' : pystr) (g' : groups) : Prop :=
  head (matches r s g) = Some (s', g').

Lemma first_re_match r s s' g' : first r s ∅ s' g' -> re_match r s = Some g'.
Proof. unfold first, re_match. by intros ->. Qed.

Lemma first_eps s g : first Eps s g s g.
Proof. done. Qed.

Lemma first_class p c s g : p c = true -> first (Class p) (c :: s) g s g.
Proof. intros Hc. unfold first. cbn. by rewrite Hc. Qed.

Lemma first_seq a b s g s1 g1 s2 g2 :
  first a s g s1 g1 -> first b s1 g1 s2 g2 -> first (Seq a b) s g s2 g2.
Proof.
  unfold first. cbn. destruct (matches a s g) as [|x l]; [done|]. intros [= ->]. cbn.
  destruct (matches b s1 g1); [done|]. by intros [= ->].
Qed.

Lemma first_literal w s g : first (literal w) (w ++ s) g s g.
Proof.
  induction w as [|c w IH]; [done|]. eapply first_seq; [|exact IH].
  apply first_class. by apply bool_decide_eq_true.
Qed.

Lemma star_rests_first p w s :
  Forall (fun c => p c = true) w -> (forall c s', s = c :: s' -> p c = false) ->
  exists l, star_rests p (w ++ s) = s :: l.
Proof.
  intros Hw Hs. induction Hw as [|c w Hc Hw [l IH]]; cbn.
  - destruct s as [|c s]; [by eexists|]. cbn. rewrite (Hs c s) by done. by eexists.
  - rewrite Hc, IH. by eexists.
Qed.

Lemma first_star p w s g :
  Forall (fun c => p c = true) w -> (forall c s', s = c :: s' -> p c = false) ->
  first (CStar p) (w ++ s) g s g.
Proof. intros Hw Hs. unfold first. cbn. by destruct (star_rests_first p w s Hw Hs) as [l ->]. Qed.

Lemma first_plus p w s g :
  w <> [] -> Forall (fun c => p c = true) w -> (forall c s', s = c :: s' -> p c = false) ->
  first (CPlus p) (w ++ s) g s g.
Proof.
  intros Hne Hw Hs. destruct Hw as [|c w Hc Hw]; [done|].
  eapply first_seq; [by apply first_class|by apply first_star].
Qed.

Lemma first_opt a s g s' g' : first a s g s' g' -> first (Opt a) s g s' g'.
Proof. unfold first. cbn. by destruct (matches a s g). Qed.

Lemma first_opt_none a s g : matches a s g = [] -> first (Opt a) s g s g.
Proof. unfold first. cbn. by intros ->. Qed.

Lemma first_group n a w s g g' : first a (w ++ s) g s g' -> first (Group n a) (w ++ s) g s (<[n := w]> g').
Proof.
  unfold first. cbn. destruct (matches a (w ++ s) g) as [|x l]; [done|]. intros [= ->]. cbn.
  rewrite length_app. replace (_ - _) with (length w) by lia. by rewrite take_app_length.
Qed.

Lemma first_group_all n a w g g' : first a w g [] g' -> first (Group n a) w g [] (<[n := w]> g').
Proof.
  intros H. pose proof (first_group n a w [] g g') as G. rewrite (right_id_L [] (++)) in G. by apply G.
Qed.

(** Nothing matches. *)
Lemma matches_none r s g : (forall w s', s = w ++ s' -> ~ lang r w) -> matches r s g = [].
Proof.
  intros H. destruct (matches r s g) as [|[s' g'] l] eqn:E; [done|].
  destruct (proj1 (matches_lang r s g s')) as (w & Hs & Hw); [exists g'; rewrite E; by left|].
  by destruct (H w s' Hs).
Qed.

(** What a repetition tries: the longer rests, this one, the shorter ones. *)
Lemma star_rests_app p w s :
  Forall (fun c => p c = true) w -> exists l, star_rests p (w ++ s) = star_rests p s ++ l.
Proof.
  intros Hw. induction Hw as [|c w Hc Hw [l IH]]; cbn; [exists []; by rewrite (right_id_L [] (++))|].
  rewrite Hc, IH. eexists. by rewrite <- (assoc_L (++)).
Qed.

Lemma star_rests_last p s :
  exists l, star_rests p s = l ++ [s] /\ forall v, v ∈ l -> exists u, u <> [] /\ s = u ++ v.
Proof.
  induction s as [|c s (l & E & Hl)]; cbn; [exists []; by split; [|intros v ?%elem_of_nil]|].
  destruct (p c); [|exists []; by split; [|intros v ?%elem_of_nil]]. eexists. split; [done|].
  intros v [w [-> _]]%star_rests_spec. by exists (c :: w).
Qed.

Lemma list_bind_none {A B} (f : A -> list B) l : (forall x, x ∈ l -> f x = []) -> l ≫= f = [].
Proof.
  induction l as [|x l IH]; intros H; cbn; [done|].
  rewrite (H x) by (by left). apply IH. intros y Hy. apply H. by right.
Qed.

(** A repetition in a group before an expression that does not match later. *)
Lemma first_backtrack n p w s g b s2 g2 :
  w <> [] -> Forall (fun c => p c = true) w ->
  first b s (<[n := w]> g) s2 g2 ->
  (forall u v g', u <> [] -> s = u ++ v -> matches b v g' = []) ->
  first (Seq (Group n (CPlus p)) b) (w ++ s) g s2 g2.
Proof.
  intros Hne Hw Hb Hno. destruct w as [|c w]; [done|]. apply Forall_cons in Hw as [Hc Hw].
  unfold first in *. cbn. rewrite Hc. cbn. rewrite (right_id_L [] (++)).
  destruct (star_rests_app p w s Hw) as [l1 ->]. destruct (star_rests_last p s) as (l0 & -> & Hl0).
  rewrite !fmap_app, !bind_app. rewrite list_bind_none.
  - cbn. rewrite length_app. replace (S (length w + length s) - length s) with (length (c :: w)) by (cbn; lia).
    change (c :: w ++ s) with ((c :: w) ++ s). rewrite take_app_length. by destruct (matches b s _).
  - intros [v g'] Hv. rewrite <- list_fmap_compose in Hv. apply list_elem_of_fmap in Hv as (v' & [= -> ->] & Hv).
    destruct (Hl0 v' Hv) as (u & Hu & ->). by eapply Hno.
Qed.
