(* ===== verification/Versioning.v ===== *)
(** * [waf-tools/versioning.py]: the version of the build, from git

    The commands of git, the files of the tree and the form in which waf stores a
    [ConfigSet] are parameters; a [ConfigSet] is a map.  Messages are left out. *)

From S2P Require Import Prelude StateM Regex.

Open Scope rx_scope.

(** ** A set of variables: strings, or the flags of [configure] *)

Inductive value := VStr (s : pystr) | VBool (b : bool).

#[export] Instance value_eq_dec : EqDecision value.
Proof. solve_decision. Defined.

Abbreviation cset := (gmap pystr value).

(** ['"{}"'.format(s)] *)
Definition quoted (s : pystr) : value := VStr (dquote ++ s ++ dquote).

(** ** [_parse_version_tag] *)

Definition version_rx : rx :=
  literal $"ns-" ⋅ Group 1 (CPlus is_digit) ⋅ literal $"." ⋅ Group 2 (CPlus is_digit) ⋅
  Opt (Class dot ⋅ Group 3 (CPlus is_digit)) ⋅ Opt (literal $"-" ⋅ Group 4 (literal $"RC" ⋅ CPlus dot)) ⋅
  CStar dot.

(** [matches.group(n)], of a group that took part or not. *)
Definition group (n : nat) (g : groups) : pystr := default [] (g !! n).

(** The new fields, and the result. *)
Definition parse_version_tag (tag : pystr) (fields : cset) : cset * bool :=
  let safe_tag := strip tag in
  match re_match version_rx safe_tag with
  | None => (fields, false)
  | Some g =>
      let fields := <[$"VERSION_TAG" := quoted safe_tag]> fields in
      let fields := <[$"VERSION_MAJOR" := VStr (group 1 g)]> fields in
      let fields := <[$"VERSION_MINOR" := VStr (group 2 g)]> fields in
      let patch := match group 3 g with [] => $"0" | p => p end in
      let fields := <[$"VERSION_PATCH" := VStr patch]> fields in
      let fields := <[$"VERSION_RELEASE_CANDIDATE" := quoted (group 4 g)]> fields in
      (fields, true)
  end.

(** ** The tasks *)

Section versioning.
(** The text of a cache file. *)
Context {text : Type}.
Variable store : cset -> text.
Variable load : text -> py cset.

(** The fields of the task, the files, and the variables of the build. *)
Record world := {
  fields : cset;
  files : gmap pystr text;
  env : cset
}.

Definition set_fields (f : cset) (w : world) : world := {| fields := f; files := files w; env := env w |}.
Definition set_file (p : pystr) (t : text) (w : world) : world :=
  {| fields := fields w; files := <[p := t]> (files w); env := env w |}.
Definition set_env (e : cset) (w : world) : world := {| fields := fields w; files := files w; env := e |}.

Definition put_field (k : pystr) (v : value) : stM world () :=
  mset (fun w => set_fields (<[k := v]> (fields w)) w).

Definition _parse_version_tag (tag : pystr) : stM world bool := fun w =>
  let '(f, b) := parse_version_tag tag (fields w) in (set_fields f w, Ok b).

(** What a derived class overrides, and what is relied on: only the fields
    change. *)
Class version_info := {
  _find_closest_tag : stM world ();
  _find_closest_ns3_tag : stM world ();
  tag_fields_only files0 env0 :
    preserves (fun w => files w = files0 /\ env w = env0) _find_closest_tag;
  ns3_tag_fields_only files0 env0 :
    preserves (fun w => files w = files0 /\ env w = env0) _find_closest_ns3_tag
}.

(** The base class: its methods do nothing. *)
#[refine] Instance ns3_version_info : version_info := {
  _find_closest_tag := mret tt;
  _find_closest_ns3_tag := mret tt
}.
Proof. all: intros; follow. Defined.

(** The cache file below the directory of the module, and whether it can be
    written. *)
Variable cache_path : pystr.
Variable writable : bool.

Definition run_body `{version_info} : stM world () :=
  _find_closest_tag >>>
  do! f := mget fields in
  (match f !! $"VERSION_TAG" with None => _find_closest_ns3_tag | Some _ => mret tt end) >>>
  do! f := mget fields in
  mlift (raise_unless writable OSError) >>>
  mset (set_file cache_path (store f)) >>>
  mset (fun w => set_env (f ∪ env w) w).

(** The status: an exception is logged. *)
Definition run `{version_info} : stM world Z := fun w =>
  match run_body w with (w, Ok _) => (w, Ok 0%Z) | (w, Err _) => (w, Ok 1%Z) end.

(** ** Tags from git

    The output of a command, or what it writes on its standard error; [None] when
    it could not be started. *)

Variable cmd_and_log : list pystr -> result (option pystr) pystr.

(** [except Exception as e: raise Exception(e.stderr.strip())] *)
Definition git_output (cmd : list pystr) : py pystr :=
  match cmd_and_log cmd with
  | Ok out => Ok out
  | Err (Some stderr) => Err (BareException (strip stderr))
  | Err None => Err AttributeError
  end.

Definition is_hex (c : ascii) : bool :=
  is_digit c || bool_decide (c ∈ $"abcdef") || bool_decide (c ∈ $"ABCDEF").

Definition describe_rx : rx :=
  Group 1 (CPlus dot) ⋅ literal $"-" ⋅ Group 2 (CPlus is_digit) ⋅ literal $"-" ⋅
  Group 3 (literal $"g" ⋅ CPlus is_hex) ⋅ Opt (literal $"-" ⋅ Group 4 (literal $"dirty")).

Definition describe_cmd : list pystr := [$"git"; $"describe"; $"--tags"; $"--dirty"; $"--long"].

Definition git_find_closest_tag : stM world () :=
  do! out := mlift (git_output describe_cmd) in
  match re_match describe_rx out with
  | None => mlift (Err ValueError)
  | Some g =>
      put_field $"CLOSEST_TAG" (quoted (group 1 g)) >>>
      put_field $"VERSION_TAG_DISTANCE" (VStr (group 2 g)) >>>
      put_field $"VERSION_COMMIT_HASH" (quoted (group 3 g)) >>>
      put_field $"VERSION_DIRTY_FLAG" (VStr (match group 4 g with [] => $"0" | _ => $"1" end)) >>>
      do! _ := _parse_version_tag (group 1 g) in
      mret tt
  end.

Definition ns3_tag_cmd : list pystr :=
  [$"git"; $"describe"; $"--tags"; $"--abbrev=0"; $"--match"; $"ns-3*"; $"HEAD"].

Definition git_find_closest_ns3_tag : stM world () :=
  do! out := mlift (git_output ns3_tag_cmd) in
  do! result := _parse_version_tag (strip out) in
  if result : bool then mret tt else mlift (Err ValueError).

Lemma parse_fields_only files0 env0 tag :
  preserves (fun w => files w = files0 /\ env w = env0) (_parse_version_tag tag).
Proof. intros w Hw. unfold _parse_version_tag. by destruct (parse_version_tag _ _). Qed.

#[refine] Instance git_ns3_version_info : version_info := {
  _find_closest_tag := git_find_closest_tag;
  _find_closest_ns3_tag := git_find_closest_ns3_tag
}.
Proof.
  - intros files0 env0. unfold git_find_closest_tag, put_field. follow; solve [done|apply parse_fields_only].
  - intros files0 env0. unfold git_find_closest_ns3_tag. follow; apply parse_fields_only.
Defined.

(** ** [generate_version_defines]

    The tasks made, with those each runs after. *)

Definition truthy (v : option value) : bool :=
  match v with Some (VStr (_ :: _)) | Some (VBool true) => true | _ => false end.

Definition generate_version_defines (env : cset) : list (pystr * list pystr) :=
  if truthy (env !! $"HAVE_NS3_REPO")
  then [($"subst", [$"git_ns3_version_info"]); ($"git_ns3_version_info", [])]
  else [($"subst", [])].

(** ** [configure] *)

(** [self.find_program('git')] *)
Variable git_found : bool.

Definition check_git_repo : bool :=
  git_found &&
  match cmd_and_log [$"git"; $"rev-parse"; $"--show-toplevel"] with
  | Ok out => negb (bool_decide (strip out = []))
  | Err _ => false
  end.

Definition check_git_repo_has_ns3_tags : bool :=
  match cmd_and_log [$"git"; $"describe"; $"--tags"; $"--abbrev=0"; $"--match"; $"ns-3.[0-9]*"] with
  | Ok out => negb (bool_decide (strip out = []))
  | Err _ => false
  end.

(** [ctx.path.ant_glob('**/version.cache')] *)
Variable ant_glob : gmap pystr text -> list pystr.
Variable enable_build_version : bool.

Definition fatal_message : pystr :=
  $"Unable to find ns3 git repository or version.cache file containing version information".

Definition configure : stM world () :=
  if negb enable_build_version then mret tt
  else
    let has_git_repo := check_git_repo in
    let has_ns3_tags := has_git_repo && check_git_repo_has_ns3_tags in
    mset (fun w => set_env (<[$"HAVE_GIT_REPO" := VBool has_git_repo]> (env w)) w) >>>
    mset (fun w => set_env (<[$"HAVE_NS3_REPO" := VBool has_ns3_tags]> (env w)) w) >>>
    if has_ns3_tags then mret tt
    else
      do! found := mget (fun w => ant_glob (files w)) in
      match found with
      | [] => mlift (Err (BareException fatal_message))
      | src_path :: _ =>
          do! file := mget (fun w => files w !! src_path) in
          do! t := mlift (or_raise OSError file) in
          do! version_cache := mlift (load t) in
          mset (fun w => set_env (version_cache ∪ env w) w)
      end.

End versioning.

(** ** Version tags *)

Definition is_number (w : pystr) : Prop := w <> [] /\ Forall (fun c => is_digit c = true) w.

(** A version: the patch with the character before it, and the release candidate. *)
Record version := {
  major : pystr;
  minor : pystr;
  patch : option (ascii * pystr);
  candidate : option pystr
}.

Definition version_tag (v : version) : pystr :=
  $"ns-" ++ major v ++ $"." ++ minor v ++
  (match patch v with Some (c, p) => c :: p | None => [] end) ++
  (match candidate v with Some r => $"-RC" ++ r | None => [] end).

(** The character before the patch is any but a digit and a newline, where the code
    means a dot. *)
Record wf_version (v : version) : Prop := {
  wf_major : is_number (major v);
  wf_minor : is_number (minor v);
  wf_patch : forall c p, patch v = Some (c, p) -> is_digit c = false /\ dot c = true /\ is_number p;
  wf_candidate : forall r, candidate v = Some r -> r <> [] /\ Forall (fun c => dot c = true) r /\ forall c, last r = Some c -> is_ws c = false
}.

(** The fields it gives. *)
Definition version_fields (v : version) : cset :=
  {[ $"VERSION_RELEASE_CANDIDATE" := quoted (match candidate v with Some r => $"RC" ++ r | None => [] end);
     $"VERSION_PATCH" := VStr (match patch v with Some (_, p) => p | None => $"0" end);
     $"VERSION_MINOR" := VStr (minor v);
     $"VERSION_MAJOR" := VStr (major v);
     $"VERSION_TAG" := quoted (version_tag v) ]}.

Lemma last_number w : is_number w -> exists c, last w = Some c /\ is_ws c = false.
Proof.
  intros [Hne Hd]. destruct w as [|c w _] using rev_ind; [done|]. rewrite last_snoc. exists c.
  split; [done|]. apply digit_not_space. apply Forall_app in Hd as [_ Hd]. by inversion Hd.
Qed.

Lemma last_app_some {A} (u w : list A) c : last w = Some c -> last (u ++ w) = Some c.
Proof. destruct w as [|d w _] using rev_ind; [done|]. by rewrite (assoc_L (++)), !last_snoc. Qed.

Lemma version_tag_ends v : wf_version v -> no_space_ends (version_tag v).
Proof.
  intros [_ Hmin Hp Hr]. split; [intros c; cbn; by intros [= <-]|].
  enough (exists c, last (version_tag v) = Some c /\ is_ws c = false) as (c & E & Hc).
  { intros c'. rewrite E. by intros [= <-]. }
  unfold version_tag. destruct (candidate v) as [r|].
  - destruct (Hr r) as (Hne & _ & Hl); [done|].
    destruct r as [|c r _] using rev_ind; [done|].
    exists c. split; [|apply Hl, last_snoc].
    do 6 apply last_app_some. apply last_snoc.
  - rewrite (right_id_L [] (++)). destruct (patch v) as [[c p]|].
    + destruct (Hp c p) as (_ & _ & Hn); [done|]. destruct (last_number p Hn) as (d & E & Hd).
      exists d. split; [|done]. do 4 apply last_app_some. by apply (last_app_some [c]).
    + rewrite (right_id_L [] (++)). destruct (last_number _ Hmin) as (d & E & Hd).
      exists d. split; [|done]. by do 3 apply last_app_some.
Qed.

(** What the parts of the expression match. *)
Lemma first_number n w s g :
  is_number w -> (forall c s', s = c :: s' -> is_digit c = false) ->
  first (Group n (CPlus is_digit)) (w ++ s) g s (<[n := w]> g).
Proof. intros [Hne Hw] Hs. apply first_group. by apply first_plus. Qed.

Definition version_groups (v : version) (g : groups) : groups :=
  let g := <[2 := minor v]> (<[1 := major v]> g) in
  let g := match patch v with Some (_, p) => <[3 := p]> g | None => g end in
  match candidate v with Some r => <[4 := $"RC" ++ r]> g | None => g end.

Lemma first_candidate r g :
  r <> [] -> Forall (fun c => dot c = true) r ->
  first (Opt (literal $"-" ⋅ Group 4 (literal $"RC" ⋅ CPlus dot))) ($"-RC" ++ r) g [] (<[4 := $"RC" ++ r]> g).
Proof.
  intros Hne Hr. apply first_opt. eapply first_seq; [apply (first_literal $"-")|].
  apply first_group_all. eapply first_seq; [apply (first_literal $"RC")|].
  pose proof (first_plus dot r [] g) as H. rewrite (right_id_L [] (++)) in H. by apply H.
Qed.

Lemma first_version v : wf_version v -> first version_rx (version_tag v) ∅ [] (version_groups v ∅).
Proof.
  intros [Hmaj Hmin Hp Hr]. unfold version_rx, version_tag, version_groups.
  eapply first_seq; [apply first_literal|].
  eapply first_seq; [apply first_number; [done|intros c s' E; by injection E as <- _]|].
  eapply first_seq; [apply (first_literal $".")|].
  eapply first_seq.
  { apply first_number; [done|]. intros c s' E. destruct (patch v) as [[d p]|].
    - destruct (Hp d p) as [Hd _]; [done|]. by injection E as <- _.
    - destruct (candidate v); [|done]. by injection E as <- _. }
  set (g := <[2 := _]> _).
  assert (forall g', first (Opt (literal $"-" ⋅ Group 4 (literal $"RC" ⋅ CPlus dot)) ⋅ CStar dot)
    (match candidate v with Some r => $"-RC" ++ r | None => [] end) g' []
    (match candidate v with Some r => <[4 := $"RC" ++ r]> g' | None => g' end)) as Hrc.
  { intros g'. destruct (candidate v) as [r|]; [|reflexivity].
    destruct (Hr r) as (Hne & Hdot & _); [done|].
    eapply first_seq; [by apply first_candidate|reflexivity]. }
  destruct (patch v) as [[c p]|].
  - destruct (Hp c p) as (Hc & Hdot & Hn); [done|]. eapply first_seq; [|apply Hrc].
    apply first_opt. cbn [app]. eapply first_seq; [by apply first_class|]. apply first_number; [done|].
    intros d s' E. destruct (candidate v); [|done]. by injection E as <- _.
  - eapply first_seq; [|apply Hrc]. apply first_opt_none. by destruct (candidate v).
Qed.

Lemma version_groups_fields v fields :
  wf_version v ->
  parse_version_tag (version_tag v) fields = (version_fields v ∪ fields, true).
Proof.
  intros Hv. unfold parse_version_tag. rewrite strip_id by by apply version_tag_ends.
  rewrite (first_re_match _ _ _ _ (first_version v Hv)).
  f_equal. unfold version_fields. rewrite <- !insert_union_l, <- insert_union_singleton_l.
  unfold group, version_groups. destruct Hv as [_ _ Hp _].
  destruct (patch v) as [[c p]|], (candidate v) as [r|]; simplify_map_eq; try done;
    destruct (Hp c p) as (_ & _ & Hn & _); try done; by destruct p.
Qed.

(** A tag that starts as a version does. *)
Definition ns_version (tag : pystr) : Prop :=
  exists maj min rest, is_number maj /\ is_number min /\ strip tag = $"ns-" ++ maj ++ $"." ++ min ++ rest.

Lemma lang_literal w u : lang (literal w) u <-> u = w.
Proof.
  revert u. induction w as [|c w IH]; intros u; cbn; [done|]. split.
  - intros (v & r & -> & (d & -> & E) & Hr). apply bool_decide_eq_true in E as ->. by apply IH in Hr as ->.
  - intros ->. exists [c], w. split; [done|]. split; [|by apply IH]. exists c. by rewrite bool_decide_true.
Qed.

Lemma lang_plus p w : lang (CPlus p) w <-> w <> [] /\ Forall (fun c => p c = true) w.
Proof.
  cbn. split.
  - intros (u & v & -> & (c & -> & Hc) & Hv). by split; [|constructor].
  - intros [Hne Hw]. destruct Hw as [|c w Hc Hw]; [done|]. exists [c], w. eauto.
Qed.

Lemma parse_version_tag_matches tag fields :
  snd (parse_version_tag tag fields) = true <-> ns_version tag.
Proof.
  unfold parse_version_tag, ns_version. transitivity (is_Some (re_match version_rx (strip tag))).
  { destruct (re_match _ _); cbn; [|by split; [|intros []]]. split; [by eexists|done]. }
  rewrite re_match_lang. unfold version_rx. split.
  - intros (w & s' & E & Hw). cbn [lang] in Hw.
    destruct Hw as (? & ? & -> & H0 & ? & ? & -> & H1 & ? & ? & -> & H2 & ? & ? & -> & H3 & _).
    apply lang_literal in H0 as ->. apply lang_literal in H2 as ->.
    apply (lang_plus is_digit) in H1, H3. eexists _, _, _. split; [exact H1|]. split; [exact H3|].
    rewrite E, <- !(assoc_L (++)). reflexivity.
  - intros (maj & min & rest & H1 & H3 & E). exists ($"ns-" ++ maj ++ $"." ++ min), rest.
    split; [by rewrite E, <- !(assoc_L (++))|].
    exists $"ns-", (maj ++ $"." ++ min). split; [done|]. split; [by apply lang_literal|].
    exists maj, ($"." ++ min). split; [done|]. split; [by apply (lang_plus is_digit)|].
    exists $".", min. split; [done|]. split; [by apply lang_literal|].
    exists min, []. rewrite (right_id_L [] (++)). split; [done|]. split; [by apply (lang_plus is_digit)|].
    exists [], []. split; [done|]. split; [by right|]. exists [], []. split; [done|]. split; [by right|]. cbn. constructor.
Qed.

Lemma parse_version_tag_no tag fields : ~ ns_version tag -> parse_version_tag tag fields = (fields, false).
Proof.
  rewrite <- (parse_version_tag_matches tag fields). unfold parse_version_tag. by destruct (re_match _ _).
Qed.

(** Which tags name a version and what is read of it.  A tag that does not start with
    [ns-], a number, a dot and a number is refused and changes no field.  Of a version
    each field is found again; the patch may follow any character, not only a dot. *)
Theorem parse_version_tag_spec tag fields :
  (snd (parse_version_tag tag fields) = true <-> ns_version tag) /\
  (~ ns_version tag -> parse_version_tag tag fields = (fields, false)) /\
  (forall v, wf_version v -> tag = version_tag v ->
     parse_version_tag tag fields = (version_fields v ∪ fields, true)).
Proof.
  split; [apply parse_version_tag_matches|]. split; [apply parse_version_tag_no|].
  intros v Hv ->. by apply version_groups_fields.
Qed.

(** ** What [git describe] prints *)

Definition describe_output (tag n hash : pystr) (dirty : bool) : pystr :=
  tag ++ $"-" ++ n ++ $"-" ++ ($"g" ++ hash) ++ (if dirty then $"-dirty" else []) ++ [NL].

Definition describe_fields (tag n hash : pystr) (dirty : bool) : cset :=
  {[ $"VERSION_DIRTY_FLAG" := VStr (if dirty then $"1" else $"0");
     $"VERSION_COMMIT_HASH" := quoted ($"g" ++ hash);
     $"VERSION_TAG_DISTANCE" := VStr n;
     $"CLOSEST_TAG" := quoted tag ]}.

Record wf_describe (tag n hash : pystr) : Prop := {
  wf_tag : tag <> [] /\ Forall (fun c => dot c = true) tag;
  wf_distance : is_number n;
  wf_hash : hash <> [] /\ Forall (fun c => is_hex c = true) hash
}.

(** No dash is followed by a digit. *)
Definition no_number_after_dash (s : pystr) : Prop :=
  forall u c z, s = u ++ "-"%char :: c :: z -> is_digit c = false.

Lemma no_dash_cons c s : c <> "-"%char -> no_number_after_dash s -> no_number_after_dash (c :: s).
Proof. intros Hc Hs [|a u] d z E; injection E as -> E; [done|]. by eapply Hs. Qed.

Lemma no_dash_app w s :
  Forall (fun c => c <> "-"%char) w -> no_number_after_dash s -> no_number_after_dash (w ++ s).
Proof. intros Hw Hs. induction Hw; [done|]. by apply no_dash_cons. Qed.

Lemma no_dash_dash c s : is_digit c = false -> no_number_after_dash (c :: s) -> no_number_after_dash ("-"%char :: c :: s).
Proof. intros Hc Hs [|a u] d z E; injection E as E; [by subst|]. by eapply Hs. Qed.

Lemma hex_no_dash w : Forall (fun c => is_hex c = true) w -> Forall (fun c => c <> "-"%char) w.
Proof. intros Hw. eapply Forall_impl; [exact Hw|]. by intros c Hc ->. Qed.

Lemma describe_tail_no_dash (hash : pystr) (dirty : bool) :
  Forall (fun c => is_hex c = true) hash ->
  no_number_after_dash ($"-" ++ ($"g" ++ hash) ++ (if dirty then $"-dirty" else []) ++ [NL]).
Proof.
  intros Hh. apply no_dash_dash; [done|]. apply no_dash_cons; [done|]. apply no_dash_app; [by apply hex_no_dash|].
  assert (no_number_after_dash ([NL] : pystr)) as Hnl by (apply no_dash_cons; [done|]; intros [|a u] c z E; discriminate E).
  destruct dirty; [|done]. apply no_dash_dash; [done|]. apply (no_dash_app $"dirty"); [|done].
  repeat (constructor; [discriminate|]). constructor.
Qed.

Definition describe_rest : rx :=
  literal $"-" ⋅ Group 2 (CPlus is_digit) ⋅ literal $"-" ⋅
  Group 3 (literal $"g" ⋅ CPlus is_hex) ⋅ Opt (literal $"-" ⋅ Group 4 (literal $"dirty")).

Lemma describe_rest_none v g :
  (forall c z, v = "-"%char :: c :: z -> is_digit c = false) -> matches describe_rest v g = [].
Proof.
  intros H. destruct v as [|a v]; [done|]. unfold describe_rest. cbn.
  destruct (bool_decide (a = "-"%char)) eqn:E; [|done]. apply bool_decide_eq_true in E as ->. cbn.
  destruct v as [|c v]; [done|]. cbn. by rewrite (H c v).
Qed.

Definition describe_groups (tag n hash : pystr) (dirty : bool) : groups :=
  let g := <[3 := $"g" ++ hash]> (<[2 := n]> (<[1 := tag]> ∅)) in
  if dirty then <[4 := $"dirty"]> g else g.

(** The tag is the longest one can be. *)
Lemma first_describe tag n hash dirty :
  wf_describe tag n hash ->
  first describe_rx (describe_output tag n hash dirty) ∅ [NL] (describe_groups tag n hash dirty).
Proof.
  intros [[Ht Ht'] [Hn Hn'] [Hh Hh']]. unfold describe_rx, describe_output. apply first_backtrack; [done..| |].
  - eapply first_seq; [apply (first_literal $"-")|].
    eapply first_seq; [apply first_number; [done|]; intros c s' E; by injection E as <- _|].
    eapply first_seq; [apply (first_literal $"-")|].
    eapply first_seq.
    { apply first_group. rewrite <- (assoc_L (++)). eapply first_seq; [apply (first_literal $"g")|].
      apply first_plus; [done..|]. intros c s' E. by destruct dirty; injection E as <- _. }
    destruct dirty; [|by apply first_opt_none].
    apply first_opt. eapply first_seq; [apply (first_literal $"-")|].
    apply (first_group 4 _ $"dirty"). apply (first_literal $"dirty").
  - intros u v g' Hu E. apply (describe_rest_none v g'). intros c z ->.
    destruct u as [|a u]; [done|]. injection E as _ E.
    refine (no_dash_app n _ _ (describe_tail_no_dash hash dirty Hh') u c z E).
    eapply Forall_impl; [exact Hn'|]. by intros d Hd ->.
Qed.

(** ** The task *)

Section tasks.
Context {text : Type}.
Variable store : cset -> text.
Variable load : text -> py cset.
Variable cache_path : pystr.
Variable writable : bool.
Variable cmd_and_log : list pystr -> result (option pystr) pystr.

Notation world := (@world text).
Notation run := (run store cache_path writable).
Notation run_body := (run_body store cache_path writable).

(** What [run] leaves when its body returns, and when it raises. *)
Lemma run_body_cases {H : @version_info text} (w : world) :
  match run_body w with
  | (w', Ok _) =>
      writable = true /\ files w' = <[cache_path := store (fields w')]> (files w) /\
      env w' = fields w' ∪ env w
  | (w', Err _) => files w' = files w /\ env w' = env w
  end.
Proof.
  unfold Versioning.run_body, gbind, mget, mlift, mset, mret.
  pose proof (tag_fields_only (files w) (env w) w) as H1.
  destruct (_find_closest_tag w) as [w1 [[]|e]]; cbn in H1; [|by apply H1].
  destruct H1 as [Hf1 He1]; [done|].
  pose proof (ns3_tag_fields_only (files w) (env w) w1) as H2.
  destruct (fields w1 !! _); [|destruct (_find_closest_ns3_tag w1) as [w2 [[]|e]]; cbn in H2; [|by apply H2];
    destruct H2 as [Hf2 He2]; [done|]].
  all: destruct writable; cbn; [|done].
  - by rewrite Hf1, He1.
  - by rewrite Hf2, He2.
Qed.

(** The task never raises.  Whatever finds the tags, when it succeeds the cache file
    holds the fields and they are the first of the variables; when it fails neither
    a file nor a variable has changed. *)
Theorem run_all_or_nothing {H : @version_info text} (w : world) :
  let '(w', r) := run w in
  (r = Ok 0%Z /\ writable = true /\
     files w' = <[cache_path := store (fields w')]> (files w) /\ env w' = fields w' ∪ env w) \/
  (r = Ok 1%Z /\ files w' = files w /\ env w' = env w).
Proof.
  unfold Versioning.run. pose proof (run_body_cases w) as Hw.
  destruct (run_body w) as [w' [[]|e]]; [left|right]; auto.
Qed.

(** ** The fields of a git repository *)

(** The tag in what [git describe --long] prints. *)
Lemma git_find_closest_tag_spec tag n hash dirty (w : world) :
  cmd_and_log describe_cmd = Ok (describe_output tag n hash dirty) -> wf_describe tag n hash ->
  git_find_closest_tag cmd_and_log w =
  (set_fields (fst (parse_version_tag tag (describe_fields tag n hash dirty ∪ fields w))) w, Ok tt).
Proof.
  intros E Hwf. unfold git_find_closest_tag, git_output, gbind at 1, mlift. rewrite E.
  rewrite (first_re_match _ _ _ _ (first_describe tag n hash dirty Hwf)).
  assert (describe_groups tag n hash dirty !! 1 = Some tag /\ describe_groups tag n hash dirty !! 2 = Some n /\
          describe_groups tag n hash dirty !! 3 = Some ($"g" ++ hash) /\
          group 4 (describe_groups tag n hash dirty) = (if dirty then $"dirty" else [])) as (E1 & E2 & E3 & E4).
  { unfold group, describe_groups. destruct dirty; by simplify_map_eq. }
  assert (match (if dirty then $"dirty" else []) with [] => $"0" | _ => $"1" end =
    (if dirty then $"1" else $"0")) as Ed by by destruct dirty.
  unfold group in *. rewrite E1, E2, E3, E4. cbn [default]. rewrite Ed.
  unfold _parse_version_tag, put_field, gbind, mset, mret, describe_fields. cbn.
  rewrite <- !insert_union_l, (left_id_L ∅ (∪)).
  by destruct (parse_version_tag tag _).
Qed.

(** C25 - From a git repository.  The distance, the commit and the flag of changes are those
    [git describe] prints for the closest tag, whatever the tag; the version is the one
    of the closest tag, or, when that is none of ns-3, of the closest tag that is. *)
Theorem git_run_spec tag n hash dirty v (w : world) :
  cmd_and_log describe_cmd = Ok (describe_output tag n hash dirty) -> wf_describe tag n hash ->
  wf_version v -> fields w = ∅ -> writable = true ->
  (tag = version_tag v \/ ~ ns_version tag /\ cmd_and_log ns3_tag_cmd = Ok (version_tag v ++ [NL])) ->
  let F := version_fields v ∪ describe_fields tag n hash dirty in
  Versioning.run store cache_path writable (H := git_ns3_version_info cmd_and_log) w =
    ({| fields := F; files := <[cache_path := store F]> (files w); env := F ∪ env w |}, Ok 0%Z).
Proof.
  intros E Hwf Hv Hempty Hwr Htag F.
  unfold Versioning.run, Versioning.run_body, gbind at 1. cbn [_find_closest_tag git_ns3_version_info].
  rewrite (git_find_closest_tag_spec tag n hash dirty w E Hwf), Hempty, (right_id_L ∅ (∪)), Hwr.
  destruct Htag as [->|[Hno E2]].
  - rewrite version_groups_fields by done. reflexivity.
  - assert (parse_version_tag tag (describe_fields tag n hash dirty) = (describe_fields tag n hash dirty, false)) as ->
      by by apply parse_version_tag_no.
    assert (describe_fields tag n hash dirty !! $"VERSION_TAG" = None) as Hnone by reflexivity.
    cbn [list_ascii_of_string] in Hnone.
    unfold gbind, mget, mset, mret, mlift. cbn -[describe_fields version_fields].
    unfold git_find_closest_ns3_tag, git_output, gbind, mlift, _parse_version_tag. rewrite E2.
    rewrite (strip_spaces (version_tag v) [NL]); [|by apply version_tag_ends|by constructor].
    rewrite Hnone. cbn [fields set_fields]. rewrite version_groups_fields by done. reflexivity.
Qed.

(** ** [configure] *)

Variable git_found : bool.
Variable ant_glob : gmap pystr text -> list pystr.

Notation configure := (configure load cmd_and_log git_found ant_glob).
Notation has_tags := (check_git_repo cmd_and_log git_found && check_git_repo_has_ns3_tags cmd_and_log).

Definition with_flags (e : cset) : cset :=
  <[$"HAVE_NS3_REPO" := VBool has_tags]> (<[$"HAVE_GIT_REPO" := VBool (check_git_repo cmd_and_log git_found)]> e).

(** What [configure] does on every branch.  Without the option it does nothing; else it
    notes whether there is a repository and one of ns-3, also when it raises then.
    Without the tags of ns-3 the first cache file gives the variables, and it is an
    error that there is none or that it cannot be read. *)
Theorem configure_spec enable (w : world) :
  configure enable w =
    if negb enable then (w, Ok tt)
    else if has_tags then (set_env (with_flags (env w)) w, Ok tt)
    else
      match ant_glob (files w) with
      | [] => (set_env (with_flags (env w)) w, Err (BareException fatal_message))
      | p :: _ =>
          match (let! t := or_raise OSError (files w !! p) in load t) with
          | Ok version_cache => (set_env (version_cache ∪ with_flags (env w)) w, Ok tt)
          | Err e => (set_env (with_flags (env w)) w, Err e)
          end
      end.
Proof.
  unfold Versioning.configure, with_flags, gbind, mget, mset, mret, mlift. destruct enable; cbn [negb]; [|done].
  destruct has_tags; [done|]. unfold set_env. cbn [files env fields].
  destruct (ant_glob (files w)) as [|p ps]; cbn [files env fields]; [done|].
  destruct (files w !! p) as [t|]; cbn [or_raise rbind]; [|done]. by destruct (load t).
Qed.

(** The version survives without git.  After a run of the task, in a tree that has its
    cache file and no tags of ns-3, [configure] gives each variable of the version the
    value the run gave it. *)
Theorem configure_after_run {H : @version_info text} (w w1 w2 : world) p ps :
  (forall f, load (store f) = Ok f) ->
  run w = (w1, Ok 0%Z) ->
  has_tags = false -> ant_glob (files w2) = p :: ps -> files w2 !! p = files w1 !! cache_path ->
  exists w3, configure true w2 = (w3, Ok tt) /\
    forall k, is_Some (fields w1 !! k) -> env w3 !! k = env w1 !! k.
Proof.
  intros Hload Hrun Htags Hglob Hfile. pose proof (run_body_cases w) as Hw. unfold Versioning.run in Hrun.
  destruct (run_body w) as [w' [[]|e]]; [|done]. injection Hrun as ->. destruct Hw as (_ & Hf & He).
  rewrite Hf, lookup_insert_eq in Hfile.
  rewrite configure_spec. cbn [negb]. rewrite Htags, Hglob, Hfile. cbn [or_raise rbind]. rewrite Hload.
  eexists. split; [done|]. intros k [x Hk]. rewrite He. cbn [set_env env].
  by rewrite !(lookup_union_Some_l _ _ _ _ Hk).
Qed.

End tasks.

(** ** An example *)

Definition demo_version : version :=
  {| major := $"3"; minor := $"30"; patch := Some ("x"%char, $"5"); candidate := Some $"2" |}.

Lemma demo_version_wf : wf_version demo_version.
Proof.
  assert (forall c : ascii, is_digit c = true -> is_number [c]) as Hn by (intros c Hc; split; [done|by repeat constructor]).
  split; cbn.
  - by apply Hn.
  - split; [done|by repeat constructor].
  - intros c p [= <- <-]. split; [done|]. split; [done|by apply Hn].
  - intros r [= <-]. split; [done|]. split; [by repeat constructor|]. by intros c [= <-].
Qed.

Lemma parse_version_tag_spec_witness :
  snd (parse_version_tag $"ns-3.30x5-RC2" ∅) = true /\
  fst (parse_version_tag $"ns-3.30x5-RC2" ∅) !! $"VERSION_PATCH" = Some (VStr $"5").
Proof.
  rewrite (proj2 (proj2 (parse_version_tag_spec $"ns-3.30x5-RC2" ∅)) demo_version demo_version_wf eq_refl).
  split; vm_compute; reflexivity.
Defined.

Definition demo_git (cmd : list pystr) : result (option pystr) pystr :=
  if decide (cmd = describe_cmd) then Ok (describe_output $"fix-7-g3" $"12" $"9f8c" true)
  else if decide (cmd = ns3_tag_cmd) then Ok (version_tag demo_version ++ [NL])
  else Err None.

Lemma demo_wf_describe : wf_describe $"fix-7-g3" $"12" $"9f8c".
Proof. split; (split; [discriminate|repeat constructor]). Qed.

Lemma git_run_spec_witness :
  let w := {| fields := ∅; files := ∅; env := {[ $"VERSION_MAJOR" := VStr $"2" ]} |} in
  let '(w', r) := run id $"model/version.cache" true (H := git_ns3_version_info demo_git) w in
  r = Ok 0%Z /\ env w' !! $"VERSION_MAJOR" = Some (VStr $"3") /\
  env w' !! $"VERSION_TAG_DISTANCE" = Some (VStr $"12") /\ env w' !! $"CLOSEST_TAG" = Some (quoted $"fix-7-g3").
Proof.
  intros w. rewrite (git_run_spec id $"model/version.cache" true demo_git $"fix-7-g3" $"12" $"9f8c" true demo_version w).
  - split_and!; vm_compute; reflexivity.
  - reflexivity.
  - exact demo_wf_describe.
  - exact demo_version_wf.
  - reflexivity.
  - reflexivity.
  - right. split; [|reflexivity].
    intros (maj & min & rest & _ & _ & E). vm_compute in E. discriminate E.
Defined.

Lemma configure_after_run_witness :
  let w := {| fields := ∅; files := ∅; env := ∅ |} in
  let w1 := fst (run id $"model/version.cache" true (H := git_ns3_version_info demo_git) w) in
  let w2 := {| fields := ∅; files := files w1; env := ∅ |} in
  env (fst (configure Ok demo_git false (fun _ => [$"model/version.cache"]) true w2)) !! $"VERSION_MINOR" =
  Some (VStr $"30").
Proof.
  intros w w1 w2.
  assert (snd (run id $"model/version.cache" true (H := git_ns3_version_info demo_git) w) = Ok 0%Z) as Hr
    by (vm_compute; reflexivity).
  destruct (configure_after_run id Ok $"model/version.cache" true demo_git false
    (fun _ => [$"model/version.cache"]) (H := git_ns3_version_info demo_git) w w1 w2 $"model/version.cache" [])
    as (w3 & E & Hw3).
  - reflexivity.
  - rewrite <- Hr. apply surjective_pairing.
  - reflexivity.
  - reflexivity.
  - reflexivity.
  - rewrite E. cbn [fst]. rewrite Hw3; [vm_compute; reflexivity|]. eexists. vm_compute. reflexivity.
Defined.
