(* ===== verification/Wutils.v ===== *)
(** * [wutils.py]: running programs from waf

    The options, the environment and the tasks of waf, the environment variables
    of the system and the outcome of a process are parameters. *)

From S2P Require Import Prelude PyDict OsPath Shlex.

Open Scope Z_scope.

(** What a function raises: an exception of Python, or a [WafError] with what it
    tells. *)
Inductive why :=
| TemplateAndValgrind
| TemplateAndGdb
| ValgrindAndGdb
| NoValgrind
| NotFound (program : pystr) (available : list pystr)
| TerminatedBy (argv : list pystr) (signame : pystr)
| ExitedWith (argv : list pystr) (code : Z).

Inductive fault :=
| WafError (w : why)
| Raised (e : exn).

Definition lifted {A} (r : py A) : result fault A :=
  match r with Ok a => Ok a | Err e => Err (Raised e) end.

(** ** [relpath], for a Python without [os.path.relpath] *)

Definition relpath_fallback (cwd path start : pystr) : py pystr :=
  if decide (path = []) then Err ValueError else
  let start_list := split_on "/"%char (os_path_abspath cwd start) in
  let path_list := split_on "/"%char (os_path_abspath cwd path) in
  let i := common_prefix_len start_list path_list in
  match replicate (length start_list - i) $".." ++ drop i path_list with
  | [] => Ok $"."
  | a :: rest => Ok (foldl os_path_join a rest)
  end.

(** ** [uniquify_list] *)

Fixpoint uniquify_from (seen : list pystr) (seq : list pystr) : list pystr :=
  match seq with
  | [] => []
  | x :: seq => if bool_decide (x ∈ seen) then uniquify_from seen seq else x :: uniquify_from (x :: seen) seq
  end.

Definition uniquify_list (seq : list pystr) : list pystr := uniquify_from [] seq.

(** ** The environment of waf *)

(** A task of the build: its directory in the sources and in the build. *)
Record task_gen := {
  is_ns3_program : bool;
  o_path : pystr;
  o_bld_path : pystr;
  o_name : pystr;
  o_target : pystr
}.

Record waf_options := {
  command_template : option pystr;
  opt_gdb : bool;
  opt_valgrind : bool;
  opt_cwd_launch : option pystr
}.

(** [bld.env] *)
Record waf_env := {
  NS3_MODULE_PATH : list pystr;
  NS3_EXECUTABLE_PATH : list pystr;
  VALGRIND : list pystr;
  PYTHON : list pystr
}.

(** An option that is a string: [None] and the empty one are false. *)
Definition truthy_str (s : option pystr) : bool :=
  match s with Some (_ :: _) => true | _ => false end.

Section wutils.
Variable platform : pystr.
Variable cwd launch_dir : pystr.
Variable options : waf_options.
(** [Options.cwd_launch] *)
Variable cwd_launch : pystr.
Variable env : waf_env.
Variable all_task_gen : list task_gen.
(** [path.find_or_declare(target).abspath()] *)
Variable find_or_declare : task_gen -> pystr.
(** The directories of the bindings and of the visualizer. *)
Variables pymoddir pyvizdir : pystr.
Variable environ : list (pystr * pystr).
(** The status of a process, and what it writes on its standard error, from its
    arguments, environment and directory. *)
Variable process : list pystr -> list (pystr * pystr) -> option pystr -> Z * pystr.
(** [vars(signal).items()], less what is not an integer. *)
Variable signals : list (pystr * Z).

(** ** [get_command_template] *)

Definition get_command_template (arguments : list pystr) : pystr :=
  let cmd := match command_template options with Some (c :: t) => c :: t | _ => $"%s" end in
  foldl (fun cmd arg => cmd ++ $" " ++ arg) cmd arguments.

(** ** [find_program] *)

Definition program_names (obj : task_gen) : py (list pystr) :=
  let! rel := os_path_relpath cwd (o_path obj) (os_path_abspath cwd launch_dir) in
  Ok [o_name obj; os_path_join rel (o_name obj)].

(** Below the directory waf was started in, in the sources or in the build. *)
Definition in_launch_dir (obj : task_gen) : bool :=
  startswith (o_path obj) (os_path_abspath cwd launch_dir) ||
  startswith (o_bld_path obj) (os_path_abspath cwd launch_dir).

(** The object, or all the names that were found. *)
Fixpoint find_in (program_name : pystr) (objs : list task_gen) (found : list pystr)
  : py (task_gen + list pystr) :=
  match objs with
  | [] => Ok (inr found)
  | obj :: objs =>
      if negb (is_ns3_program obj) then find_in program_name objs found
      else if negb (in_launch_dir obj) then find_in program_name objs found
      else
        let! names := program_names obj in
        if bool_decide (program_name ∈ names) then Ok (inl obj)
        else find_in program_name objs (found ++ names)
  end.

(** With the [ValueError] that [get_run_program] turns into a [WafError]. *)
Definition find_program (program_name : pystr) : result fault task_gen :=
  let! r := lifted (find_in program_name all_task_gen []) in
  match r with
  | inl obj => Ok obj
  | inr found => Err (WafError (NotFound program_name found))
  end.

(** ** [get_proc_env] *)

(** The variable of the library path; an unknown platform is taken as Linux. *)
Definition pathvar : pystr :=
  if bool_decide (platform ∈ [$"linux2"; $"linux"]) then $"LD_LIBRARY_PATH"
  else if decide (platform = $"darwin") then $"DYLD_LIBRARY_PATH"
  else if bool_decide (platform ∈ [$"win32"; $"cygwin"]) then $"PATH"
  else $"LD_LIBRARY_PATH".

(** [os.pathsep] *)
Definition pathsep : pystr := if decide (platform = $"win32") then $";" else $":".

(** The directories before the value the variable has. *)
Definition prepend_paths (var : pystr) (dirs : list pystr) (proc_env : list (pystr * pystr))
  : list (pystr * pystr) :=
  dict_set var
    (match dict_get var proc_env with
     | Some old => join pathsep (dirs ++ [old])
     | None => join pathsep dirs
     end) proc_env.

Definition get_proc_env (os_env : option (list (pystr * pystr))) : list (pystr * pystr) :=
  let proc_env := match os_env with Some e => dict_update environ e | None => environ end in
  let proc_env := prepend_paths pathvar (NS3_MODULE_PATH env) proc_env in
  let proc_env := prepend_paths $"PYTHONPATH" [pymoddir; pyvizdir] proc_env in
  prepend_paths $"PATH" (NS3_EXECUTABLE_PATH env) proc_env.

(** ** [run_argv] *)

(** [name[:3] == 'SIG' and name[3] != '_'] *)
Definition is_signal_name (name : pystr) : bool :=
  (3 <? py_len name) && startswith name $"SIG" && negb (startswith name $"SIG_").

Fixpoint signal_named (retval : Z) (signals : list (pystr * Z)) : option pystr :=
  match signals with
  | [] => None
  | (name, val) :: signals =>
      if is_signal_name name && (val =? - retval) then Some name else signal_named retval signals
  end.

(** What [run_argv] makes of a status. *)
Definition check_status (argv : list pystr) (retval : Z) : result fault Z :=
  if retval =? 0 then Ok retval
  else
    match (if retval <? 0 then signal_named retval signals else None) with
    | Some (c :: name) => Err (WafError (TerminatedBy argv (c :: name)))
    | _ => Err (WafError (ExitedWith argv retval))
    end.

(** [for line in stderrdata] goes through the characters of the text. *)
Definition leak_found (stderrdata : pystr) : bool :=
  existsb (fun line => str_contains [line] $"== LEAK SUMMARY") stderrdata.

Definition run_argv (argv : list pystr) (os_env : option (list (pystr * pystr))) (dir : option pystr)
    (force_no_valgrind : bool) : result fault Z :=
  let proc_env := get_proc_env os_env in
  let template := truthy_str (command_template options) in
  if opt_valgrind options && template then Err (WafError TemplateAndValgrind)
  else if opt_gdb options && template then Err (WafError TemplateAndGdb)
  else if opt_gdb options && opt_valgrind options then Err (WafError ValgrindAndGdb)
  else if opt_gdb options then Ok (fst (process ([$"gdb"; $"--args"] ++ argv) proc_env dir))
  else if opt_valgrind options && negb force_no_valgrind then
    match VALGRIND env with
    | [] => Err (WafError NoValgrind)
    | valgrind :: _ =>
        let argv := [valgrind; $"--leak-check=full"; $"--show-reachable=yes"; $"--error-exitcode=1"] ++ argv in
        let '(retval, stderrdata) := process argv proc_env dir in
        check_status argv (if (retval =? 0) && leak_found stderrdata then 1 else retval)
    end
  else check_status argv (fst (process argv proc_env dir)).

(** ** [get_run_program] *)

(** [.cc] is stripped from a program name; [rsplit('.', 1)[0]] drops from the
    last dot on, which is the one of [.cc]. *)
Definition strip_cc (program_name : pystr) : pystr :=
  if endswith program_name $".cc" then
    match split_once "."%char (reverse program_name) with
    | Some (_, r) => reverse r
    | None => program_name
    end
  else program_name.

(** [template % (arg,)], of templates whose directives are [%s] and [%%]: one that
    has not exactly one [%s] raises [TypeError], as does one with an unfinished
    or another directive here (the code then raises [ValueError], or
    formats the path otherwise). *)
Fixpoint percent (template : pystr) (arg : option pystr) : py pystr :=
  match template with
  | [] => match arg with None => Ok [] | Some _ => Err TypeError end
  | "%"%char :: "%"%char :: t => let! r := percent t arg in Ok ("%"%char :: r)
  | "%"%char :: "s"%char :: t =>
      match arg with
      | Some a => let! r := percent t None in Ok (a ++ r)
      | None => Err TypeError
      end
  | "%"%char :: _ => Err TypeError
  | c :: t => let! r := percent t arg in Ok (c :: r)
  end.

(** [s.replace('\\', '\\\\')] *)
Definition double_backslashes (s : pystr) : pystr :=
  s ≫= fun c => if decide (c = BS) then [BS; BS] else [c].

Definition get_run_program (program_string : pystr) (template : option pystr)
  : result fault (pystr * list pystr) :=
  if bool_decide (template = None) || bool_decide (template = Some $"%s") then
    let! argv := lifted (shlex_split program_string) in
    let! program_name := lifted (py_get argv 0) in
    let program_name := strip_cc program_name in
    let! obj := find_program program_name in
    Ok (program_name, find_or_declare obj :: py_from argv 1)
  else
    let program_name := strip_cc program_string in
    let! obj := find_program program_name in
    let! tmpl := lifted (percent (default [] template) (Some (find_or_declare obj))) in
    let! execvec := lifted (shlex_split (double_backslashes tmpl)) in
    Ok (program_name, execvec).

(** ** [run_program] and [run_python_program] *)

Definition visualizer_arg : pystr := $"--SimulatorImplementationType=ns3::VisualSimulatorImpl".

(** The directory to run in. *)
Definition launch_cwd : pystr :=
  match opt_cwd_launch options with Some (c :: d) => c :: d | _ => cwd_launch end.

Definition run_program (program_string : pystr) (template : option pystr) (dir : option pystr)
    (visualize : bool) : result fault Z :=
  let! '(_, execvec) := get_run_program program_string template in
  run_argv (if visualize then execvec ++ [visualizer_arg] else execvec) None
    (Some (default launch_cwd dir)) false.

Definition run_python_program (program_string : pystr) (visualize : bool) : result fault Z :=
  let! execvec := lifted (shlex_split program_string) in
  let! python := lifted (py_get (PYTHON env) 0) in
  run_argv (python :: (if visualize then execvec ++ [visualizer_arg] else execvec)) None
    (Some launch_cwd) false.

End wutils.

(** ** The environment of the programs *)

Section theorems.
Variable platform : pystr.
Variable cwd launch_dir : pystr.
Variable options : waf_options.
Variable cwd_launch : pystr.
Variable env : waf_env.
Variable all_task_gen : list task_gen.
Variable find_or_declare : task_gen -> pystr.
Variables pymoddir pyvizdir : pystr.
Variable environ : list (pystr * pystr).
Variable signals : list (pystr * Z).

Notation pathvar := (pathvar platform).
Notation pathsep := (pathsep platform).
Notation get_proc_env := (get_proc_env platform env pymoddir pyvizdir environ).
Notation run_argv process := (run_argv platform options env pymoddir pyvizdir environ process signals).
Notation find_program := (find_program cwd launch_dir all_task_gen).
Notation find_in := (find_in cwd launch_dir).
Notation program_names := (program_names cwd launch_dir).
Notation in_launch_dir := (in_launch_dir cwd launch_dir).
Notation get_run_program := (get_run_program cwd launch_dir all_task_gen find_or_declare).

(** The directories, before an old value. *)
Definition prepended (dirs : list pystr) (old : option pystr) : option pystr :=
  Some (join pathsep (dirs ++ option_list old)).

Lemma dict_get_prepend var dirs d k :
  dict_get k (prepend_paths platform var dirs d) =
  if decide (var = k) then prepended dirs (dict_get k d) else dict_get k d.
Proof.
  unfold prepend_paths. rewrite dict_get_set. case_decide; subst; [|done].
  unfold prepended. destruct (dict_get k d); cbn; [done|]. by rewrite (right_id_L [] (++)).
Qed.

Lemma pathvar_not_python : pathvar <> $"PYTHONPATH".
Proof. unfold Wutils.pathvar. by repeat (case_bool_decide || case_decide). Qed.

(** C26 - What a program run by waf finds in its environment: the library path, the modules
    of Python and the search path have the directories of the build before the
    value they had, both of them on the platforms where the first and the last are
    the same variable; every other variable is the caller's, or the system's. *)
Theorem get_proc_env_spec os_env k :
  NoDup (default [] os_env).*1 ->
  let old k := match dict_get k (default [] os_env) with Some v => Some v | None => dict_get k environ end in
  dict_get k (get_proc_env os_env) =
    if decide (k = $"PATH") then
      prepended (NS3_EXECUTABLE_PATH env)
        (if decide (pathvar = $"PATH") then prepended (NS3_MODULE_PATH env) (old k) else old k)
    else if decide (k = $"PYTHONPATH") then prepended [pymoddir; pyvizdir] (old k)
    else if decide (k = pathvar) then prepended (NS3_MODULE_PATH env) (old k)
    else old k.
Proof.
  intros Hnd old.
  assert (dict_get k (match os_env with Some e => dict_update environ e | None => environ end) = old k) as E.
  { subst old. destruct os_env as [e|]; [by apply dict_get_update|done]. }
  pose proof pathvar_not_python as Hpy.
  unfold Wutils.get_proc_env. rewrite !dict_get_prepend, E.
  repeat case_decide; subst; try done; congruence.
Qed.

(** ** Leaks *)

(** No single character holds the text that is looked for. *)
Lemma leak_found_never s : leak_found s = false.
Proof.
  unfold leak_found. induction s as [|c s IH]; [done|]. cbn [existsb]. rewrite IH, orb_false_r.
  by destruct c as [[] [] [] [] [] [] [] []].
Qed.

(** Under [--valgrind] the leaks that valgrind reports never change the outcome: what
    a process writes on its standard error does not matter.  Without [--gdb], a
    run that does not raise returns 0, and so did the process, under valgrind
    with its options first. *)
Theorem run_argv_ignores_leaks (process process' : list pystr -> list (pystr * pystr) -> option pystr -> Z * pystr)
    argv os_env dir force :
  (forall a e d, fst (process a e d) = fst (process' a e d)) ->
  run_argv process argv os_env dir force = run_argv process' argv os_env dir force /\
  (opt_gdb options = false -> forall r, run_argv process argv os_env dir force = Ok r ->
     r = 0 /\
     fst (process (if opt_valgrind options && negb force
                   then default [] (head (VALGRIND env)) :: $"--leak-check=full" :: $"--show-reachable=yes" ::
                        $"--error-exitcode=1" :: argv
                   else argv) (get_proc_env os_env) dir) = 0).
Proof.
  intros Hp. unfold Wutils.run_argv. split.
  - rewrite !Hp. do 4 (case_match; [done|]). case_match; [|done]. destruct (VALGRIND env) as [|vg ?]; [done|].
    specialize (Hp ([vg; $"--leak-check=full"; $"--show-reachable=yes"; $"--error-exitcode=1"] ++ argv)
      (get_proc_env os_env) dir).
    destruct (process _ _ _), (process' _ _ _). cbn in Hp. subst. by rewrite !leak_found_never, !andb_false_r.
  - intros -> r. rewrite !andb_false_l. case_match; [done|]. unfold check_status.
    destruct (opt_valgrind options && negb force); [destruct (VALGRIND env) as [|vg ?]; [done|]|].
    + cbn [default head app]. destruct (process _ _ _) as [rv err]. rewrite leak_found_never, andb_false_r.
      cbn. destruct (Z.eqb_spec rv 0); [by intros [= <-]|]. by repeat case_match.
    + destruct (Z.eqb_spec (fst (process argv (get_proc_env os_env) dir)) 0) as [E|E]; [|by repeat case_match].
      intros [= <-]. done.
Qed.

(** ** The program that is run *)

(** The programs that can be named: those of ns-3 below the directory. *)
Definition eligible (obj : task_gen) : bool := is_ns3_program obj && in_launch_dir obj.

(** [find_program] returns the first program of ns-3 below the directory waf was
    started in that has the name, alone or with its path; when there is none the
    error lists the two names of each of those programs, in order. *)
Theorem find_program_spec name :
  Forall (fun obj => o_path obj <> []) all_task_gen ->
  exists names, (forall obj, obj ∈ all_task_gen -> program_names obj = Ok (names obj)) /\
    find_program name =
      match list_find (fun obj => name ∈ names obj) (filter (fun obj => eligible obj = true) all_task_gen) with
      | Some (_, obj) => Ok obj
      | None => Err (WafError (NotFound name (filter (fun obj => eligible obj = true) all_task_gen ≫= names)))
      end.
Proof using Type.
  intros Hpath. set (names obj := match program_names obj with Ok l => l | Err _ => [] end).
  assert (forall obj, obj ∈ all_task_gen -> program_names obj = Ok (names obj)) as Hnames.
  { intros obj Hobj. rewrite Forall_forall in Hpath. specialize (Hpath obj Hobj). subst names. cbn.
    unfold Wutils.program_names, os_path_relpath. rewrite decide_False by done. by case_decide. }
  exists names. split; [done|]. unfold Wutils.find_program.
  enough (forall objs found, objs ⊆ all_task_gen ->
    find_in name objs found =
    Ok (match list_find (fun obj => name ∈ names obj) (filter (fun obj => eligible obj = true) objs) with
        | Some (_, obj) => inl obj
        | None => inr (found ++ (filter (fun obj => eligible obj = true) objs ≫= names))
        end)) as Hfind.
  { rewrite Hfind by done. cbn. by destruct (list_find _ _) as [[]|]. }
  clear Hpath. induction objs as [|obj objs IH]; intros found Hsub.
  { cbn. by rewrite (right_id_L [] (++)). }
  assert (objs ⊆ all_task_gen) as Hsub' by (intros x Hx; apply Hsub; by right). rewrite filter_cons. cbn [Wutils.find_in].
  case_decide as He; unfold eligible in He.
  - apply andb_true_iff in He as [-> ->]. cbn [negb].
    rewrite Hnames by (apply Hsub; by left). cbn [rbind list_find].
    case_bool_decide as Hin; [by rewrite decide_True|]. rewrite decide_False by done. rewrite IH by done.
    destruct (list_find _ _) as [[]|]; [done|]. cbn [mbind list_bind]. by rewrite <- (assoc_L (++)).
  - rewrite <- (IH found Hsub').
    destruct (is_ns3_program obj); cbn [negb]; [|done]. by destruct (in_launch_dir obj).
Qed.

(** A command line of quoted words runs the program its first word names, less a
    final [.cc], with the other words as arguments, whatever characters are in
    them; [get_run_program] raises what [find_program] raises on that name. *)
Theorem get_run_program_quoted name args :
  get_run_program (join $" " (shlex_quote <$> name :: args)) None =
    let! obj := find_program (strip_cc name) in
    Ok (strip_cc name, find_or_declare obj :: args).
Proof.
  unfold Wutils.get_run_program. rewrite bool_decide_eq_true_2 by done. cbn [orb].
  rewrite shlex_split_quoted. cbn [lifted rbind]. rewrite py_get_lookup by done. cbn [or_raise lifted rbind lookup list_lookup Z.to_nat].
  unfold py_from. change 1 with (Z.of_nat 1). rewrite py_bound_nat. reflexivity.
Qed.

Lemma strip_cc_app name : strip_cc (name ++ $".cc") = name.
Proof.
  unfold strip_cc. rewrite (proj2 (endswith_spec _ _)) by eauto.
  rewrite reverse_app.
  change (split_once "."%char (reverse $".cc" ++ reverse name)) with (Some ($"cc", reverse name)).
  apply reverse_involutive.
Qed.

End theorems.

(** ** [uniquify_list] *)

Lemma uniquify_from_spec seen seq :
  NoDup (uniquify_from seen seq) /\
  (forall x, x ∈ uniquify_from seen seq <-> x ∈ seq /\ x ∉ seen) /\
  uniquify_from seen seq `sublist_of` seq.
Proof.
  revert seen. induction seq as [|x seq IH]; intros seen; cbn [uniquify_from].
  - split; [constructor|]. split; [set_solver|done].
  - case_bool_decide as Hx.
    + destruct (IH seen) as (Hnd & Hin & Hsub). split; [done|]. split; [set_solver|by constructor].
    + destruct (IH (x :: seen)) as (Hnd & Hin & Hsub). split; [|split].
      * constructor; [rewrite Hin; set_solver|done].
      * intros y. rewrite elem_of_cons, Hin, !elem_of_cons. destruct (decide (y = x)); naive_solver.
      * by constructor.
Qed.

(** ** [relpath] *)

(** A path with components, none of them empty. *)
Definition plain_path (p : pystr) (comps : list pystr) : Prop :=
  split_on "/"%char p = [] :: comps /\ Forall (fun w => w <> []) comps.

Lemma split_on_no_sep c s w : w ∈ split_on c s -> c ∉ w.
Proof.
  revert w. induction s as [|a s IH]; intros w; cbn; [intros ->%list_elem_of_singleton; set_solver|].
  case_decide as Ha; [intros [->|?]%elem_of_cons; [set_solver|by apply IH]|].
  destruct (split_on c s) as [|u us] eqn:E; [by apply split_on_nonempty in E|].
  intros [->|Hw]%elem_of_cons; [|apply IH; set_solver].
  apply not_elem_of_cons. split; [done|]. apply IH. set_solver.
Qed.

Lemma foldl_join_paths w ws :
  w <> [] -> endswith w $"/" = false -> Forall (fun v => v <> [] /\ "/"%char ∉ v) ws ->
  foldl os_path_join w ws = join $"/" (w :: ws).
Proof.
  intros Hw Hw' Hws. revert w Hw Hw'.
  induction Hws as [|v ws [Hv Hv'] Hws IH]; intros w Hw Hw'; [done|]. cbn [foldl].
  assert (os_path_join w v = w ++ $"/" ++ v) as ->.
  { unfold os_path_join. destruct (startswith v $"/") eqn:Es.
    { apply startswith_spec in Es as [r ->]. cbn in Hv'. set_solver. }
    rewrite bool_decide_eq_false_2 by done. by rewrite Hw'. }
  rewrite IH; [by destruct ws; cbn; rewrite <- ?(assoc_L (++))|by destruct w|].
  apply not_true_iff_false. intros [r Hr]%endswith_spec. destruct (exists_last Hv) as (v' & c & ->).
  rewrite !(assoc_L (++)) in Hr. apply app_inj_tail in Hr as [_ ->]. set_solver.
Qed.

(** The fallback computes what [os.path.relpath] does, of paths that are not the
    root. *)
Lemma relpath_fallback_spec cwd path start cs cp :
  path <> [] -> plain_path (os_path_abspath cwd start) cs -> plain_path (os_path_abspath cwd path) cp ->
  relpath_fallback cwd path start = os_path_relpath cwd path start.
Proof.
  intros Hne [Hs Hcs] [Hp Hcp]. unfold relpath_fallback, os_path_relpath.
  rewrite !decide_False by done. rewrite Hs, Hp. cbn [common_prefix_len].
  rewrite decide_True by done.
  assert (forall l : list pystr, filter (fun w => w <> []) ([] :: l) = filter (fun w => w <> []) l) as Ef by done.
  rewrite !Ef, !list_filter_all by done. cbn [length drop Nat.sub].
  assert (Forall (fun v => v <> [] /\ "/"%char ∉ v)
    (replicate (length cs - common_prefix_len cs cp) $".." ++ drop (common_prefix_len cs cp) cp)) as Hall.
  { apply Forall_app. split.
    - apply Forall_forall. intros v [-> _]%elem_of_replicate. split; [done|]. cbn. set_solver.
    - apply Forall_drop, Forall_forall. intros v Hv. split; [rewrite Forall_forall in Hcp; by apply Hcp|].
      apply (split_on_no_sep _ (os_path_abspath cwd path)). rewrite Hp. by right. }
  destruct (_ ++ _) as [|v vs]; [done|]. cbn [app]. f_equal.
  apply Forall_cons in Hall as [[Hv Hv'] Hvs]. apply foldl_join_paths; [done| |done].
  apply not_true_iff_false. intros [r ->]%endswith_spec. cbn in Hv'. set_solver.
Qed.

(** Of the root it does not. *)
Example relpath_fallback_root :
  relpath_fallback $"/ns" $"/a" $"/" = Ok $"../a" /\ os_path_relpath $"/ns" $"/a" $"/" = Ok $"a".
Proof. split; vm_compute; reflexivity. Qed.

(** ** An example *)

Definition demo_env : waf_env :=
  {| NS3_MODULE_PATH := [$"/ns/build"]; NS3_EXECUTABLE_PATH := [$"/ns/build/bin"];
     VALGRIND := [$"/usr/bin/valgrind"]; PYTHON := [$"python3"] |}.

Definition demo_options : waf_options :=
  {| command_template := None; opt_gdb := false; opt_valgrind := true; opt_cwd_launch := None |}.

Definition demo_task : task_gen :=
  {| is_ns3_program := true; o_path := $"/ns/scratch"; o_bld_path := $"/ns/build/scratch";
     o_name := $"first"; o_target := $"first" |}.

Lemma get_proc_env_spec_witness :
  dict_get $"PATH" (get_proc_env $"linux" demo_env $"/p" $"/v" [($"PATH", $"/bin")] (Some [($"A", $"1")])) =
  Some $"/ns/build/bin:/bin".
Proof.
  refine (eq_trans (get_proc_env_spec $"linux" demo_env $"/p" $"/v" [($"PATH", $"/bin")]
    (Some [($"A", $"1")]) $"PATH" _) _); [|vm_compute; reflexivity].
  cbn. apply NoDup_singleton.
Defined.

Lemma run_argv_ignores_leaks_witness :
  let leaky (err : pystr) (a : list pystr) (e : list (pystr * pystr)) (d : option pystr) := (0, err) in
  let outcome err := run_argv $"linux" demo_options demo_env $"/p" $"/v" [] (leaky err) []
                       [$"first"] None None false in
  outcome $"== LEAK SUMMARY" = outcome [] /\ outcome [] = Ok 0.
Proof.
  intros leaky outcome. split; [|vm_compute; reflexivity].
  apply (run_argv_ignores_leaks $"linux" demo_options demo_env $"/p" $"/v" [] []
    (leaky $"== LEAK SUMMARY") (leaky []) [$"first"] None None false). reflexivity.
Defined.

Lemma find_program_spec_witness :
  find_program $"/ns" $"/ns" [demo_task] $"second" =
    Err (WafError (NotFound $"second" [$"first"; $"scratch/first"])) /\
  find_program $"/ns" $"/ns" [demo_task] $"scratch/first" = Ok demo_task.
Proof.
  destruct (find_program_spec $"/ns" $"/ns" [demo_task] $"second") as (names & Hn & E).
  { repeat constructor. discriminate. }
  assert (names demo_task = [$"first"; $"scratch/first"]) as En.
  { assert (program_names $"/ns" $"/ns" demo_task = Ok [$"first"; $"scratch/first"]) as Ep
      by (vm_compute; reflexivity).
    specialize (Hn demo_task ltac:(by left)). rewrite Ep in Hn. by injection Hn. }
  split; [|vm_compute; reflexivity].
  rewrite E. assert (filter (fun obj => eligible $"/ns" $"/ns" obj = true) [demo_task] = [demo_task]) as ->
    by (vm_compute; reflexivity).
  cbn [list_find mbind list_bind]. rewrite En, decide_False; [reflexivity|].
  intros H. rewrite !elem_of_cons, elem_of_nil in H. destruct H as [H|[H|[]]]; discriminate H.
Defined.
