(* ===== verification/ModuleTemplates.v ===== *)
(** * [utils/create-module.py]: the templates of the files of a module

    The texts as the script holds them, before [str.format] fills them in.  A
    double quote is written [@] in the literals here; no template has an [@] of its
    own. *)

From S2P Require Import Prelude.

Definition template (s : pystr) : pystr :=
  s ≫= fun c => if decide (c = "@"%char) then dquote else [c].

Definition WSCRIPT_TEMPLATE : pystr := template $"# -*- Mode: python; py-indent-offset: 4; indent-tabs-mode: nil; coding: utf-8; -*-

# def options(opt):
#     pass

# def configure(conf):
#     conf.check_nonfatal(header_name='stdint.h', define_name='HAVE_STDINT_H')

def build(bld):
    module = bld.create_ns3_module({MODULE!r}, ['core'])
    module.source = [
        'model/{MODULE}.cc',
        'helper/{MODULE}-helper.cc',
        ]

    module_test = bld.create_ns3_module_test_library('{MODULE}')
    module_test.source = [
        'test/{MODULE}-test-suite.cc',
        ]
    # Tests encapsulating example programs should be listed here
    if (bld.env['ENABLE_EXAMPLES']):
        module_test.source.extend([
        #    'test/{MODULE}-examples-test-suite.cc',
             ])

    headers = bld(features='ns3header')
    headers.module = {MODULE!r}
    headers.source = [
        'model/{MODULE}.h',
        'helper/{MODULE}-helper.h',
        ]

    if bld.env.ENABLE_EXAMPLES:
        bld.recurse('examples')

    # bld.ns3_python_bindings()

".

Definition MODEL_CC_TEMPLATE : pystr := template $"/* -*- Mode:C++; c-file-style:@gnu@; indent-tabs-mode:nil; -*- */

#include @{MODULE}.h@

namespace ns3 {{

/* ... */


}}

".

Definition MODEL_H_TEMPLATE : pystr := template $"/* -*- Mode:C++; c-file-style:@gnu@; indent-tabs-mode:nil; -*- */
#ifndef {INCLUDE_GUARD}
#define {INCLUDE_GUARD}

namespace ns3 {{

/* ... */

}}

#endif /* {INCLUDE_GUARD} */

".

Definition HELPER_CC_TEMPLATE : pystr := template $"/* -*- Mode:C++; c-file-style:@gnu@; indent-tabs-mode:nil; -*- */

#include @{MODULE}-helper.h@

namespace ns3 {{

/* ... */


}}

".

Definition HELPER_H_TEMPLATE : pystr := template $"/* -*- Mode:C++; c-file-style:@gnu@; indent-tabs-mode:nil; -*- */
#ifndef {INCLUDE_GUARD}
#define {INCLUDE_GUARD}

#include @ns3/{MODULE}.h@

namespace ns3 {{

/* ... */

}}

#endif /* {INCLUDE_GUARD} */

".

Definition EXAMPLES_WSCRIPT_TEMPLATE : pystr := template $"# -*- Mode: python; py-indent-offset: 4; indent-tabs-mode: nil; coding: utf-8; -*-

def build(bld):
    obj = bld.create_ns3_program('{MODULE}-example', [{MODULE!r}])
    obj.source = '{MODULE}-example.cc'

".

Definition EXAMPLE_CC_TEMPLATE : pystr := template $"/* -*- Mode:C++; c-file-style:@gnu@; indent-tabs-mode:nil; -*- */

#include @ns3/core-module.h@
#include @ns3/{MODULE}-helper.h@

using namespace ns3;


int 
main (int argc, char *argv[])
{{
  bool verbose = true;

  CommandLine cmd (__FILE__);
  cmd.AddValue (@verbose@, @Tell application to log if true@, verbose);

  cmd.Parse (argc,argv);

  /* ... */

  Simulator::Run ();
  Simulator::Destroy ();
  return 0;
}}


".

Definition TEST_CC_TEMPLATE : pystr := template $"/* -*- Mode:C++; c-file-style:@gnu@; indent-tabs-mode:nil; -*- */

// Include a header file from your module to test.
#include @ns3/{MODULE}.h@

// An essential include is test.h
#include @ns3/test.h@

// Do not put your test classes in namespace ns3.  You may find it useful
// to use the using directive to access the ns3 namespace directly
using namespace ns3;

// This is an example TestCase.
class {CAPITALIZED}TestCase1 : public TestCase
{{
public:
  {CAPITALIZED}TestCase1 ();
  virtual ~{CAPITALIZED}TestCase1 ();

private:
  virtual void DoRun (void);
}};

// Add some help text to this case to describe what it is intended to test
{CAPITALIZED}TestCase1::{CAPITALIZED}TestCase1 ()
  : TestCase (@{CAPITALIZED} test case (does nothing)@)
{{
}}

// This destructor does nothing but we include it as a reminder that
// the test case should clean up after itself
{CAPITALIZED}TestCase1::~{CAPITALIZED}TestCase1 ()
{{
}}

//
// This method is the pure virtual method from class TestCase that every
// TestCase must implement
//
void
{CAPITALIZED}TestCase1::DoRun (void)
{{
  // A wide variety of test macros are available in src/core/test.h
  NS_TEST_ASSERT_MSG_EQ (true, true, @true doesn't equal true for some reason@);
  // Use this one for floating point comparisons
  NS_TEST_ASSERT_MSG_EQ_TOL (0.01, 0.01, 0.001, @Numbers are not equal within tolerance@);
}}

// The TestSuite class names the TestSuite, identifies what type of TestSuite,
// and enables the TestCases to be run.  Typically, only the constructor for
// this class must be defined
//
class {CAPITALIZED}TestSuite : public TestSuite
{{
public:
  {CAPITALIZED}TestSuite ();
}};

{CAPITALIZED}TestSuite::{CAPITALIZED}TestSuite ()
  : TestSuite (@{MODULE}@, UNIT)
{{
  // TestDuration for TestCase can be QUICK, EXTENSIVE or TAKES_FOREVER
  AddTestCase (new {CAPITALIZED}TestCase1, TestCase::QUICK);
}}

// Do not forget to allocate an instance of this TestSuite
static {CAPITALIZED}TestSuite s{COMPOUND}TestSuite;

".

Definition DOC_RST_TEMPLATE : pystr := template $"Example Module Documentation
----------------------------

.. include:: replace.txt
.. highlight:: cpp

.. heading hierarchy:
   ------------- Chapter
   ************* Section (#.#)
   ============= Subsection (#.#.#)
   ############# Paragraph (no number)

This is a suggested outline for adding new module documentation to |ns3|.
See ``src/click/doc/click.rst`` for an example.

The introductory paragraph is for describing what this code is trying to
model.

For consistency (italicized formatting), please use |ns3| to refer to
ns-3 in the documentation (and likewise, |ns2| for ns-2).  These macros
are defined in the file ``replace.txt``.

Model Description
*****************

The source code for the new module lives in the directory ``{MODULE_DIR}``.

Add here a basic description of what is being modeled.

Design
======

Briefly describe the software design of the model and how it fits into 
the existing ns-3 architecture. 

Scope and Limitations
=====================

What can the model do?  What can it not do?  Please use this section to
describe the scope and limitations of the model.

References
==========

Add academic citations here, such as if you published a paper on this
model, or if readers should read a particular specification or other work.

Usage
*****

This section is principally concerned with the usage of your model, using
the public API.  Focus first on most common usage patterns, then go
into more advanced topics.

Building New Module
===================

Include this subsection only if there are special build instructions or
platform limitations.

Helpers
=======

What helper API will users typically use?  Describe it here.

Attributes
==========

What classes hold attributes, and what are the key ones worth mentioning?

Output
======

What kind of data does the model generate?  What are the key trace
sources?   What kind of logging output can be enabled?

Advanced Usage
==============

Go into further details (such as using the API outside of the helpers)
in additional sections, as needed.

Examples
========

What examples using this new code are available?  Describe them here.

Troubleshooting
===============

Add any tips for avoiding pitfalls, etc.

Validation
**********

Describe how the model has been tested/validated.  What tests run in the
test suite?  How much API and code is covered by the tests?  Again, 
references to outside published work may help here.
".
