(* ===== verification/CreateModule.v ===== *)
(** * [utils/create-module.py]: the scaffold of a new module

    Path names, the file system with the operations of [pathlib] and [shutil] the
    script uses, [str.format], the functions [make_*], and [main] from the parsed
    arguments to the exit status.  Characters are those of ASCII; what is printed
    is left out. *)

From S2P Require Import Prelude StateM OsPath ModuleTemplates.

Open Scope Z_scope.

(** ** [str.format]: literal text and fields *)

Inductive segment := Lit (s : pystr) | Field (name : pystr) (conversion : option pystr).

Definition field_of (f : pystr) : segment :=
  match split_once "!"%char f with Some (n, c) => Field n (Some c) | None => Field f None end.

(** [field] is the field being read, [lit] the literal text so far.  A field is a
    name and a conversion; the templates have no format specification. *)
Fixpoint parse_format (s lit : pystr) (field : option pystr) : py (list segment) :=
  match field, s with
  | None, [] => Ok [Lit lit]
  | Some _, [] => Err ValueError
  | Some f, c :: s =>
      if decide (c = "}"%char) then
        let! rest := parse_format s [] None in Ok (Lit lit :: field_of f :: rest)
      else if decide (c = "{"%char) then Err ValueError
      else parse_format s lit (Some (f ++ [c]))
  | None, "{"%char :: "{"%char :: s => parse_format s (lit ++ ["{"%char]) None
  | None, "}"%char :: "}"%char :: s => parse_format s (lit ++ ["}"%char]) None
  | None, "{"%char :: s => parse_format s lit (Some [])
  | None, "}"%char :: _ => Err ValueError
  | None, c :: s => parse_format s (lit ++ [c]) None
  end.

Fixpoint kwarg (name : pystr) (kwargs : list (pystr * pystr)) : py pystr :=
  match kwargs with
  | [] => Err KeyError
  | (k, v) :: kwargs => if decide (k = name) then Ok v else kwarg name kwargs
  end.

Definition fill (kwargs : list (pystr * pystr)) (text : pystr) (seg : segment) : py pystr :=
  match seg with
  | Lit s => Ok (text ++ s)
  | Field name conversion =>
      let! v := kwarg name kwargs in
      match conversion with
      | None => Ok (text ++ v)
      | Some c =>
          if decide (c = $"r") then Ok (text ++ py_repr v)
          else if decide (c = $"s") then Ok (text ++ v)
          else Err ValueError
      end
  end.

(** [template.format(...)] *)
Definition format (t : pystr) (kwargs : list (pystr * pystr)) : py pystr :=
  let! segs := parse_format t [] None in
  for_each (fill kwargs) segs [].

(** ** Files

    A path is its components from the root. *)

Inductive entry := Dir | File (text : pystr).

#[export] Instance entry_eq_dec : EqDecision entry.
Proof. solve_decision. Defined.

Abbreviation path := (list pystr).
Abbreviation fsys := (gmap path entry).

Section files.
(** The paths that cannot be created: no permission, no space; and the entries a removal
    does not get rid of: it may not, or it has stopped at another before. *)
Variables denied stuck : path -> bool.

Definition exists_ (p : path) : stM fsys bool :=
  mget (fun fs => match fs !! p with Some _ => true | None => false end).

Definition put (p : path) (e : entry) : stM fsys () := mset (fun fs => <[p := e]> fs).

(** [mkdir(parents=True, exist_ok=True)] of the path whose components are, from the
    last, [rp]; the root is there. *)
Fixpoint make_parents (rp : path) : stM fsys () :=
  match rp with
  | [] => mret tt
  | _ :: parent =>
      do! e := mget (fun fs : fsys => fs !! reverse rp) in
      match e with
      | Some Dir => mret tt
      | Some (File _) => mlift (Err OSError)
      | None =>
          make_parents parent >>>
          if denied (reverse rp) then mlift (Err OSError) else put (reverse rp) Dir
      end
  end.

(** [p.mkdir(parents=True)] *)
Definition mkdir (p : path) : stM fsys () :=
  do! there := exists_ p in
  if there : bool then mlift (Err OSError)
  else
    make_parents (tail (reverse p)) >>>
    if denied p then mlift (Err OSError) else put p Dir.

(** [create_file]: the file is opened, and so emptied, before the text is made. *)
Definition create_file (p : path) (t : pystr) (kwargs : list (pystr * pystr)) : stM fsys () :=
  do! parent := mget (fun fs : fsys => fs !! removelast p) in
  do! old := mget (fun fs : fsys => fs !! p) in
  if bool_decide (parent = Some Dir) && negb (bool_decide (old = Some Dir)) && negb (denied p) then
    put p (File []) >>>
    do! text := mlift (format t kwargs) in
    put p (File text)
  else mlift (Err OSError).

(** The entries below [p] that [rmtree] leaves: those it does not get rid of, and the
    directories above them. *)
Definition stays (p : path) (fs : fsys) (q : path) : bool :=
  existsb (fun kv : path * entry => bool_decide (p `prefix_of` kv.1) && bool_decide (q `prefix_of` kv.1) && stuck kv.1)
    (map_to_list fs).

(** [shutil.rmtree(p)], which raises unless everything is gone. *)
Definition rmtree (p : path) : stM fsys () := fun fs =>
  (filter (fun kv : path * entry => ~ p `prefix_of` kv.1 \/ stays p fs kv.1 = true) fs,
   if stays p fs p then Err OSError else Ok tt).

(** ** The functions that make the parts of a module *)

Definition capitalize (w : pystr) : pystr :=
  match w with
  | [] => []
  | c :: w =>
      str_upper [c] ++
      ((fun c => let n := nat_of_ascii c in
         if ((65 <=? n) && (n <=? 90))%nat then ascii_of_nat (n + 32) else c) <$> w)
  end.

(** [modname.replace('-', '_').upper()] *)
Definition guard_name (modname : pystr) : pystr :=
  str_upper ((fun c => if decide (c = "-"%char) then "_"%char else c) <$> modname).

Definition capitalized (modname : pystr) : pystr := mjoin (capitalize <$> split_on "-"%char modname).

(** All the words but the first. *)
Definition compound (modname : pystr) : pystr :=
  match split_on "-"%char modname with
  | [] => []
  | w :: ws => w ++ mjoin (capitalize <$> ws)
  end.

Definition make_wscript (cwd moduledir : path) (modname : pystr) : stM fsys bool :=
  create_file (moduledir ++ [$"wscript"]) WSCRIPT_TEMPLATE [($"MODULE", modname)] >>>
  mret true.

Definition make_model (cwd moduledir : path) (modname : pystr) : stM fsys bool :=
  let modelpath := moduledir ++ [$"model"] in
  mkdir modelpath >>>
  create_file (modelpath ++ [modname ++ $".cc"]) MODEL_CC_TEMPLATE [($"MODULE", modname)] >>>
  create_file (modelpath ++ [modname ++ $".h"]) MODEL_H_TEMPLATE
    [($"MODULE", modname); ($"INCLUDE_GUARD", guard_name modname ++ $"_H")] >>>
  mret true.

Definition make_test (cwd moduledir : path) (modname : pystr) : stM fsys bool :=
  let testpath := moduledir ++ [$"test"] in
  mkdir testpath >>>
  create_file (testpath ++ [modname ++ $"-test-suite.cc"]) TEST_CC_TEMPLATE
    [($"MODULE", modname); ($"CAPITALIZED", capitalized modname); ($"COMPOUND", compound modname)] >>>
  mret true.

Definition make_helper (cwd moduledir : path) (modname : pystr) : stM fsys bool :=
  let helperpath := moduledir ++ [$"helper"] in
  mkdir helperpath >>>
  create_file (helperpath ++ [modname ++ $"-helper.cc"]) HELPER_CC_TEMPLATE [($"MODULE", modname)] >>>
  create_file (helperpath ++ [modname ++ $"-helper.h"]) HELPER_H_TEMPLATE
    [($"MODULE", modname); ($"INCLUDE_GUARD", guard_name modname ++ $"_HELPER_H")] >>>
  mret true.

Definition make_examples (cwd moduledir : path) (modname : pystr) : stM fsys bool :=
  let examplespath := moduledir ++ [$"examples"] in
  mkdir examplespath >>>
  create_file (examplespath ++ [$"wscript"]) EXAMPLES_WSCRIPT_TEMPLATE [($"MODULE", modname)] >>>
  create_file (examplespath ++ [modname ++ $"-example.cc"]) EXAMPLE_CC_TEMPLATE [($"MODULE", modname)] >>>
  mret true.

(** [str] of a path. *)
Definition path_str (p : path) : pystr := $"/" ++ join $"/" p.

Definition make_doc (cwd moduledir : path) (modname : pystr) : stM fsys bool :=
  let docpath := moduledir ++ [$"doc"] in
  mkdir docpath >>>
  do! mod_relpath := mlift (os_path_relpath (path_str cwd) (path_str moduledir) $".") in
  create_file (docpath ++ [modname ++ $".rst"]) DOC_RST_TEMPLATE
    [($"MODULE", modname); ($"MODULE_DIR", mod_relpath)] >>>
  mret true.

(** [all(f(x) for x in l)]: stops at the first false one. *)
Fixpoint mall {A} (f : A -> stM fsys bool) (l : list A) : stM fsys bool :=
  match l with
  | [] => mret true
  | x :: l => do! b := f x in if b : bool then mall f l else mret false
  end.

Definition functions : list (path -> path -> pystr -> stM fsys bool) :=
  [make_wscript; make_model; make_test; make_helper; make_examples; make_doc].

(** The body of the [try] of [make_module]. *)
Definition make_artifacts (cwd modulepath : path) (modname : pystr) : stM fsys () :=
  mkdir modulepath >>>
  do! success := mall (fun func => func cwd modulepath modname) functions in
  if success : bool then mret tt else mlift (Err ValueError).

Definition make_module (cwd modpath : path) (modname : pystr) : stM fsys bool := fun fs =>
  let modulepath := modpath ++ [modname] in
  match fs !! modulepath with
  | Some _ => (fs, Ok false)
  | None =>
      match make_artifacts cwd modulepath modname fs with
      | (fs, Ok _) => (fs, Ok true)
      | (fs, Err _) =>
          match fs !! modulepath with
          | Some _ => (rmtree modulepath >>> mret false) fs
          | None => (fs, Ok false)
          end
      end
  end.

End files.

(** ** [main] *)

(** [Path(s)]: its root ([''], ['/'], or the ['//'] that POSIX keeps) and its
    components. *)
Definition path_root (s : pystr) : pystr :=
  if startswith s $"///" then $"/"
  else if startswith s $"//" then $"//"
  else if startswith s $"/" then $"/" else [].

Definition path_comps (s : pystr) : path :=
  filter (fun w => w <> [] /\ w <> $".") (split_on "/"%char s).

(** [s.strip('/')] *)
Definition strip_sep (s : pystr) : pystr :=
  let drop_sep := fix drop_sep s :=
    match s with c :: s' => if decide (c = "/"%char) then drop_sep s' else s | [] => [] end in
  reverse (drop_sep (reverse (drop_sep s))).

(** [^(\w|-)+$] *)
Definition allowed_char (c : ascii) : bool := word_char c || bool_decide (c = "-"%char).
Definition allowed (s : pystr) : bool :=
  let '(l, r) := span allowed_char s in
  negb (bool_decide (l = [])) && (bool_decide (r = []) || bool_decide (r = [NL])).

(** The project, as components below [contrib]; [None] when there is none.
    [parser.error] exits with 2. *)
Definition project_path (project : pystr) : py (option path) :=
  if decide (project = []) then Ok None
  else
    let! _ := raise_unless (negb (bool_decide (path_root project = $"//"))) ValueError in
    let! _ := raise_unless (forallb allowed (path_comps project)) (SystemExit 2) in
    Ok (Some (path_comps project)).

(** One module name: [None] when it is skipped, else the directory and the name of
    the module. *)
Definition module_of (base : path) (project : option path) (name : pystr) : py (option (path * pystr)) :=
  let name := strip_sep name in
  if decide (name = []) then Ok None
  else
    let parts := path_comps name in
    if 2 <? py_len parts then Ok None
    else
      let! first := py_get parts 0 in
      let! '(modpath, parts) :=
        if decide (first = $"src") then
          let! _ := raise_unless (bool_decide (project = None)) (SystemExit 2) in
          Ok (base ++ [$"src"], tail parts)
        else if decide (first = $"contrib") then Ok (base ++ [$"contrib"], tail parts)
        else Ok (base ++ [$"contrib"], parts) in
      let modpath := match project with Some p => base ++ [$"contrib"] ++ p | None => modpath end in
      let! modname := py_get parts 0 in
      Ok (if allowed modname then Some (modpath, modname) else None).

Definition modules_of (base : path) (project : option path) (modnames : list pystr)
  : py (list (path * pystr)) :=
  for_each (fun modules name =>
    let! m := module_of base project name in
    Ok (modules ++ option_list m)) modnames [].

(** [main], from the parsed arguments. *)
Definition main (denied stuck : path -> bool) (base : path) (project : pystr) (modnames : list pystr)
  : stM fsys Z :=
  do! dirs := mget (fun fs : fsys => (fs !! (base ++ [$"src"]), fs !! (base ++ [$"contrib"]))) in
  mlift (raise_unless (bool_decide (fst dirs = Some Dir)) (SystemExit 2)) >>>
  mlift (raise_unless (bool_decide (snd dirs = Some Dir)) (SystemExit 2)) >>>
  do! project := mlift (project_path project) in
  do! modules := mlift (modules_of base project modnames) in
  do! _ := mall (fun m => make_module denied stuck base (fst m) (snd m)) modules in
  mret 0.

(** The exit status: [parser.error] is not an [Exception]. *)
Definition exit_status (denied stuck : path -> bool) (base : path) (project : pystr) (modnames : list pystr)
    (fs : fsys) : fsys * Z :=
  let '(fs, r) := main denied stuck base project modnames fs in
  (fs, match r with Ok z => z | Err (SystemExit c) => c | Err _ => 1 end).

(** ** All or nothing *)

Section frame.
Variable denied : path -> bool.
(** The path of the module, and the files before. *)
Variable M : path.
Variable fs0 : fsys.

(** Outside the module, what was there is there, and at most the directories that
    lead to it are new. *)
Definition framed (fs : fsys) : Prop := forall q, ~ M `prefix_of` q ->
  fs !! q = fs0 !! q \/ (q `prefix_of` M /\ fs0 !! q = None /\ fs !! q = Some Dir).

Lemma framed_put p e fs : M `prefix_of` p -> framed fs -> framed (<[p := e]> fs).
Proof. intros Hp Hf q Hq. rewrite lookup_insert_ne; [by apply Hf|]. by intros ->. Qed.

Lemma framed_new p fs : p `prefix_of` M -> fs0 !! p = None -> framed fs -> framed (<[p := Dir]> fs).
Proof.
  intros Hp Hn Hf q Hq. destruct (decide (p = q)) as [->|].
  - right. by rewrite lookup_insert_eq.
  - rewrite lookup_insert_ne by done. by apply Hf.
Qed.

(** A path that leads to the module, or into it. *)
Definition on_way (p : path) : Prop := M `prefix_of` p \/ p `prefix_of` M.

Lemma on_way_parent p x : on_way (p ++ [x]) -> on_way p.
Proof.
  intros [[k Hk]|Hp]; [|right; etransitivity; [|done]; by apply prefix_app_r].
  destruct k as [|y k _] using rev_ind.
  - right. rewrite (right_id_L [] (++)) in Hk. subst M. by apply prefix_app_r.
  - left. rewrite (assoc_L (++)) in Hk. apply app_inj_tail in Hk as [-> _]. by exists k.
Qed.

Lemma make_parents_framed rp fs :
  on_way (reverse rp) -> framed fs -> framed (fst (make_parents denied rp fs)).
Proof.
  revert fs. induction rp as [|x rp IH]; intros fs Hway Hf; [done|]. cbn [make_parents].
  unfold gbind at 1, mget. destruct (fs !! reverse (x :: rp)) as [[]|] eqn:E; [done|done|].
  rewrite reverse_cons in *. specialize (IH fs (on_way_parent _ _ Hway) Hf).
  unfold gbind. destruct (make_parents denied rp fs) as [fs1 [[]|e]]; [|done]. cbn [fst] in IH.
  destruct (denied _); [done|]. cbn.
  destruct Hway as [Hp|Hp]; [by apply framed_put|].
  destruct (decide (M `prefix_of` reverse rp ++ [x])) as [|Hn]; [by apply framed_put|].
  apply framed_new; [done| |done].
  destruct (Hf _ Hn) as [<-|(_ & ? & _)]; done.
Qed.

(** Only the way to the path changes. *)
Lemma make_parents_below rp fs q :
  ~ q `prefix_of` reverse rp -> fst (make_parents denied rp fs) !! q = fs !! q.
Proof.
  revert fs. induction rp as [|x rp IH]; intros fs Hq; [done|]. cbn [make_parents].
  unfold gbind at 1, mget. destruct (fs !! reverse (x :: rp)) as [[]|]; [done|done|].
  rewrite reverse_cons in *.
  assert (~ q `prefix_of` reverse rp) as Hq' by (intros ?; apply Hq; by apply prefix_app_r).
  specialize (IH fs Hq'). unfold gbind.
  destruct (make_parents denied rp fs) as [fs1 [[]|e]]; [|done]. cbn [fst] in IH.
  destruct (denied _); [done|]. cbn. rewrite lookup_insert_ne; [done|]. by intros <-.
Qed.

(** A directory that could not be made is not there, nor anything below it. *)
Lemma mkdir_failed p fs fs' e q :
  p <> [] -> mkdir denied p fs = (fs', Err e) -> p `prefix_of` q -> fs' !! q = fs !! q.
Proof.
  intros Hne E [k ->]. revert E. unfold mkdir, exists_, gbind, mget.
  destruct (fs !! p); [by intros [= <- _]|].
  pose proof (make_parents_below (tail (reverse p)) fs (p ++ k)) as Hb.
  destruct (make_parents denied (tail (reverse p)) fs) as [fs1 [[]|e1]]; [|intros [= <- _]; apply Hb];
    [destruct (denied p); [intros [= <- _]; apply Hb|done]|].
  all: destruct p as [|y p _] using rev_ind; [done|]; rewrite reverse_snoc; cbn [tail];
    rewrite reverse_involutive; intros [k' Hk'];
    apply (f_equal length) in Hk'; rewrite !length_app in Hk'; cbn in Hk'; lia.
Qed.

Lemma mkdir_made p fs fs' : mkdir denied p fs = (fs', Ok tt) -> fs' !! p = Some Dir.
Proof.
  unfold mkdir, exists_, gbind, mget. destruct (fs !! p); [done|].
  destruct (make_parents _ _ _) as [fs1 [[]|e]]; [|done]. destruct (denied p); [done|].
  intros [= <-]. apply lookup_insert_eq.
Qed.

Lemma mkdir_framed p : M `prefix_of` p -> preserves framed (mkdir denied p).
Proof.
  intros Hp. unfold mkdir, exists_, put. follow; try assumption.
  - intros fs Hf. apply make_parents_framed; [|done]. rewrite <- (reverse_involutive p) in Hp.
    destruct (reverse p) as [|x rp]; [left; exact Hp|]. cbn [tail].
    apply (on_way_parent _ x). rewrite <- reverse_cons. by left.
  - by apply framed_put.
Qed.

Lemma create_file_framed p t kw : M `prefix_of` p -> preserves framed (create_file denied p t kw).
Proof.
  intros Hp. unfold create_file, put. follow; try assumption; by apply framed_put.
Qed.

Lemma preserves_mall {A} (f : A -> stM fsys bool) l :
  (forall x, x ∈ l -> preserves framed (f x)) -> preserves framed (mall f l).
Proof.
  induction l as [|x l IH]; intros Hf; cbn [mall]; [apply preserves_ret|].
  apply preserves_bind; [apply Hf; by left|]. intros b. destruct b; [|apply preserves_ret].
  apply IH. intros y Hy. apply Hf. by right.
Qed.

Ltac follow_files := follow; lazymatch goal with
  | |- preserves _ (mkdir _ _) => apply mkdir_framed
  | |- preserves _ (create_file _ _ _ _) => apply create_file_framed
  | |- _ => idtac
  end; rewrite <- ?(assoc_L (++)); try (reflexivity || by apply prefix_app_r).

Lemma make_artifacts_framed cwd modname : preserves framed (make_artifacts denied cwd M modname).
Proof.
  unfold make_artifacts. follow_files.
  apply preserves_mall. intros func Hfunc. unfold functions in Hfunc.
  rewrite !elem_of_cons, elem_of_nil in Hfunc.
  destruct Hfunc as [->|[->|[->|[->|[->|[->|[]]]]]]];
    unfold make_wscript, make_model, make_test, make_helper, make_examples, make_doc; follow_files.
Qed.

(** Nothing the functions do takes the module away. *)
Definition present (fs : fsys) : Prop := is_Some (fs !! M).

Lemma present_put p e fs : present fs -> present (<[p := e]> fs).
Proof. intros H. apply lookup_insert_is_Some'. by right. Qed.

Lemma mkdir_present p : preserves present (mkdir denied p).
Proof.
  unfold mkdir, exists_, put. follow; try assumption; [|by apply present_put].
  induction (tail (reverse p)) as [|x rp IH]; cbn [make_parents]; [apply preserves_ret|].
  apply preserves_bind; [apply preserves_get|]. intros [[]|]; unfold put; follow; try assumption.
  by apply present_put.
Qed.

Lemma create_file_present p t kw : preserves present (create_file denied p t kw).
Proof. unfold create_file, put. follow; try assumption; by apply present_put. Qed.

Lemma functions_present cwd modname :
  preserves present (mall (fun func => func cwd M modname) (functions denied)).
Proof.
  unfold functions. cbn [mall]. unfold make_wscript, make_model, make_test, make_helper, make_examples, make_doc.
  follow; (apply mkdir_present || apply create_file_present).
Qed.

(** When the module is not there at the end, nothing was made in it. *)
Lemma make_artifacts_absent cwd modname fs fs' e q :
  M <> [] -> make_artifacts denied cwd M modname fs = (fs', Err e) -> fs' !! M = None ->
  M `prefix_of` q -> fs' !! q = fs !! q.
Proof.
  intros HM. unfold make_artifacts. unfold gbind at 1.
  destruct (mkdir denied M fs) as [fs1 [[]|e1]] eqn:E1; [|intros [= <- <-] _; by eapply mkdir_failed].
  intros E Habs _. exfalso.
  assert (present fs1) as Hp1 by (eexists; by eapply mkdir_made).
  assert (present fs') as [? Hp]; [|congruence].
  replace fs' with (fst (gbind (mall (fun func => func cwd M modname) (functions denied))
    (fun success => if success : bool then mret tt else mlift (Err ValueError)) fs1)) by (by rewrite E).
  apply preserves_bind; [apply functions_present| |done]. intros b. follow.
Qed.

End frame.

Lemma stays_spec stuck p fs q : stays stuck p fs q = true <->
  exists k, p `prefix_of` k /\ q `prefix_of` k /\ stuck k = true /\ is_Some (fs !! k).
Proof.
  unfold stays. rewrite existsb_exists. split.
  - intros ([k e] & Hin%list_elem_of_In%elem_of_map_to_list & [[Hp Hq]%andb_true_iff Hs]%andb_true_iff).
    apply bool_decide_eq_true in Hp, Hq. exists k. by split_and!; [..|eexists].
  - intros (k & Hp & Hq & Hs & [e He]). exists (k, e).
    split; [by apply list_elem_of_In, elem_of_map_to_list|]. cbn.
    by rewrite !bool_decide_eq_true_2, Hs by done.
Qed.

(** [rmtree] touches nothing else; it leaves nothing, or raises. *)
Lemma rmtree_spec stuck p fs :
  (forall q, ~ p `prefix_of` q -> fst (rmtree stuck p fs) !! q = fs !! q) /\
  (forall q, fst (rmtree stuck p fs) !! q = fs !! q \/ fst (rmtree stuck p fs) !! q = None) /\
  (snd (rmtree stuck p fs) = Ok tt /\ (forall q, p `prefix_of` q -> fst (rmtree stuck p fs) !! q = None) \/
   snd (rmtree stuck p fs) = Err OSError /\ exists q, p `prefix_of` q /\ stuck q = true /\ is_Some (fs !! q)).
Proof.
  unfold rmtree. cbn [fst snd]. split_and!.
  - intros q Hq. destruct (fs !! q) as [e|] eqn:E.
    + apply map_lookup_filter_Some. split; [done|]. by left.
    + apply map_lookup_filter_None. by left.
  - intros q. destruct (filter _ fs !! q) as [e|] eqn:E; [left|by right].
    apply map_lookup_filter_Some in E as [E _]. done.
  - destruct (stays stuck p fs p) eqn:E; [right|left]; (split; [done|]).
    + apply stays_spec in E as (k & Hp & _ & Hs & He). by exists k.
    + intros q Hq. apply map_lookup_filter_None. right. intros e He [Hn|Hs]; [done|].
      apply stays_spec in Hs as (k & Hp & Hk & Hs & Hin).
      assert (stays stuck p fs p = true) by (apply stays_spec; by exists k). congruence.
Qed.

Lemma framed_removed M fs0 fs fs' :
  framed M fs0 fs -> (forall q, ~ M `prefix_of` q -> fs' !! q = fs !! q) -> framed M fs0 fs'.
Proof. intros Hf E q Hq. rewrite E by done. by apply Hf. Qed.

(** C24 - [make_module] makes all of a module or nothing of it, unless the removal of what was
    made fails.  When the path is taken it changes nothing; otherwise it returns True and
    the whole module was made; or it returns False, whatever failed on the way, and nothing
    of the module is left; or it raises the error of [rmtree], which did not get rid of
    an entry of a module that had failed, and what is left of the module was made.  Outside
    the module everything stays, but for the directories that lead to it. *)
Theorem make_module_all_or_nothing (denied stuck : path -> bool) (cwd modpath : path) (modname : pystr) (fs : fsys)
    (M := modpath ++ [modname]) :
  (fs !! M = None -> forall q, M `prefix_of` q -> fs !! q = None) ->
  let '(fs', r) := make_module denied stuck cwd modpath modname fs in
  (fs !! M <> None -> fs' = fs /\ r = Ok false) /\
  (fs !! M = None ->
     (r = Ok true /\ make_artifacts denied cwd M modname fs = (fs', Ok tt)) \/
     (exists fs1 e, make_artifacts denied cwd M modname fs = (fs1, Err e) /\
        ((r = Ok false /\ forall q, M `prefix_of` q -> fs' !! q = None) \/
         (r = Err OSError /\ (exists q, M `prefix_of` q /\ stuck q = true /\ is_Some (fs1 !! q)) /\
          forall q, M `prefix_of` q -> fs' !! q = fs1 !! q \/ fs' !! q = None)))) /\
  framed M fs fs'.
Proof.
  intros Hfresh. unfold make_module. fold M.
  assert (framed M fs fs) as H0 by (intros q Hq; by left).
  destruct (fs !! M) as [e|] eqn:EM; [split_and!; done|].
  pose proof (make_artifacts_framed denied M fs cwd modname fs H0) as Hf.
  destruct (make_artifacts denied cwd M modname fs) as [fs1 [[]|e]] eqn:Ea; cbn [fst] in Hf.
  { split; [done|]. split; [|done]. intros _. by left. }
  destruct (fs1 !! M) as [e1|] eqn:E1.
  - destruct (rmtree_spec stuck M fs1) as (Hout & Hsome & Hres). unfold gbind, mret.
    destruct (rmtree stuck M fs1) as [fs2 r]. cbn [fst snd] in *.
    pose proof (framed_removed M fs fs1 fs2 Hf Hout) as Hf2.
    destruct Hres as [[-> Hgone]|[-> Hst]]; (split; [done|]; split; [|done]; intros _; right; exists fs1, e; split; [done|]).
    + by left.
    + right. split; [done|]. split; [done|]. by intros q _.
  - split; [done|]. split; [|done]. intros _. right. exists fs1, e. split; [done|]. left. split; [done|]. intros q Hq.
    rewrite (make_artifacts_absent denied M cwd modname fs fs1 e q); [auto| |done..].
    subst M. by destruct modpath.
Qed.

(** ** What a module is made of *)

(** A directory, or a file with its template and what fills it in; paths are below
    the module. *)
Definition item : Type := path * option (pystr * list (pystr * pystr)).

Definition module_plan (modname mod_relpath : pystr) : list item :=
  let m := ($"MODULE", modname) in
  [ ([$"wscript"], Some (WSCRIPT_TEMPLATE, [m]));
    ([$"model"], None);
    ([$"model"; modname ++ $".cc"], Some (MODEL_CC_TEMPLATE, [m]));
    ([$"model"; modname ++ $".h"],
       Some (MODEL_H_TEMPLATE, [m; ($"INCLUDE_GUARD", guard_name modname ++ $"_H")]));
    ([$"test"], None);
    ([$"test"; modname ++ $"-test-suite.cc"],
       Some (TEST_CC_TEMPLATE, [m; ($"CAPITALIZED", capitalized modname); ($"COMPOUND", compound modname)]));
    ([$"helper"], None);
    ([$"helper"; modname ++ $"-helper.cc"], Some (HELPER_CC_TEMPLATE, [m]));
    ([$"helper"; modname ++ $"-helper.h"],
       Some (HELPER_H_TEMPLATE, [m; ($"INCLUDE_GUARD", guard_name modname ++ $"_HELPER_H")]));
    ([$"examples"], None);
    ([$"examples"; $"wscript"], Some (EXAMPLES_WSCRIPT_TEMPLATE, [m]));
    ([$"examples"; modname ++ $"-example.cc"], Some (EXAMPLE_CC_TEMPLATE, [m]));
    ([$"doc"], None);
    ([$"doc"; modname ++ $".rst"], Some (DOC_RST_TEMPLATE, [m; ($"MODULE_DIR", mod_relpath)])) ].

(** The entry an item becomes. *)
Definition made (it : item) (ke : path * entry) : Prop :=
  ke.1 = it.1 /\
  match it.2 with
  | None => ke.2 = Dir
  | Some (t, kwargs) => exists text, format t kwargs = Ok text /\ ke.2 = File text
  end.

(** Every field of the template is given. *)
Definition field_ok (names : list pystr) (seg : segment) : bool :=
  match seg with
  | Lit _ => true
  | Field n c => bool_decide (n ∈ names) && bool_decide (c ∈ [None; Some $"r"; Some $"s"])
  end.

Definition fields_ok (names : list pystr) (t : pystr) : bool :=
  match parse_format t [] None with Ok segs => forallb (field_ok names) segs | Err _ => false end.

Lemma kwarg_given n kwargs : n ∈ kwargs.*1 -> exists v, kwarg n kwargs = Ok v.
Proof.
  induction kwargs as [|[k v] kwargs IH]; cbn; [by intros ?%elem_of_nil|].
  intros Hn. case_decide; [by eexists|]. apply IH. set_solver.
Qed.

Lemma format_ok t kwargs : fields_ok kwargs.*1 t = true -> exists text, format t kwargs = Ok text.
Proof.
  unfold fields_ok, format. destruct (parse_format t [] None) as [segs|]; [|done]. cbn [rbind].
  generalize ([] : pystr). induction segs as [|seg segs IH]; intros acc; cbn [forallb for_each]; [by eexists|].
  intros [Hseg Hsegs]%andb_true_iff.
  assert (exists acc', fill kwargs acc seg = Ok acc') as [acc' ->]; [|by apply IH].
  destruct seg as [s|n c]; [by eexists|]. cbn in *.
  apply andb_true_iff in Hseg as [Hn%bool_decide_eq_true Hc%bool_decide_eq_true].
  destruct (kwarg_given n kwargs Hn) as [v ->]. cbn. destruct c as [c|]; [|by eexists].
  rewrite !elem_of_cons, elem_of_nil in Hc. destruct Hc as [|[[= ->]|[[= ->]|[]]]]; [done|..].
  - rewrite decide_True by done. by eexists.
  - rewrite decide_False, decide_True by done. by eexists.
Qed.

Section success.
Variable M : path.
Variable fs : fsys.

(** The files with these entries below the module. *)
Definition built (l : list (path * entry)) : fsys := foldl (fun fs ke => <[M ++ ke.1 := ke.2]> fs) fs l.

Lemma built_snoc l k e : built (l ++ [(k, e)]) = <[M ++ k := e]> (built l).
Proof. unfold built. by rewrite foldl_app. Qed.

Lemma lookup_built_ne l k : k ∉ l.*1 -> built l !! (M ++ k) = fs !! (M ++ k).
Proof.
  induction l as [|[k' e] l IH] using rev_ind; [done|]. rewrite fmap_app, not_elem_of_app. intros [Hk Hk'].
  rewrite built_snoc, lookup_insert_ne by (intros ?%(inj (app M)); set_solver). by apply IH.
Qed.

Lemma lookup_built_in l k e : NoDup l.*1 -> (k, e) ∈ l -> built l !! (M ++ k) = Some e.
Proof.
  induction l as [|[k' e'] l IH] using rev_ind; [by intros _ ?%elem_of_nil|].
  rewrite fmap_app, built_snoc. intros (Hnd & Hd & _)%NoDup_app [Hin|[= <- <-]%list_elem_of_singleton]%elem_of_app.
  - rewrite lookup_insert_ne; [by apply IH|]. intros Heq%(inj (app M)). subst k'.
    apply (Hd k); [|set_solver]. apply list_elem_of_fmap. by exists (k, e).
  - apply lookup_insert_eq.
Qed.

Definition run_item (it : item) : stM fsys () :=
  match it.2 with
  | None => mkdir (fun _ => false) (M ++ it.1)
  | Some (t, kwargs) => create_file (fun _ => false) (M ++ it.1) t kwargs
  end.

(** The parent of each item is a directory by then, and its fields are given. *)
Fixpoint items_ok (dirs : list path) (todo : list item) : Prop :=
  match todo with
  | [] => True
  | it :: todo =>
      it.1 <> [] /\ removelast it.1 ∈ dirs /\
      match it.2 with None => True | Some (t, kwargs) => fields_ok kwargs.*1 t = true end /\
      items_ok (if it.2 is None then it.1 :: dirs else dirs) todo
  end.

Lemma run_item_ok l it (dirs : list path) :
  NoDup l.*1 -> it.1 ∉ l.*1 -> (forall k, k ∈ dirs -> (k, Dir) ∈ l) -> fs !! (M ++ it.1) = None ->
  it.1 <> [] -> removelast it.1 ∈ dirs ->
  match it.2 with None => True | Some (t, kwargs) => fields_ok kwargs.*1 t = true end ->
  exists e, made it (it.1, e) /\ run_item it (built l) = (built (l ++ [(it.1, e)]), Ok tt).
Proof.
  destruct it as [k [[t kwargs]|]]; cbn [fst snd]; intros Hnd Hk Hdirs Hfresh Hne Hpar Hok;
    destruct k as [|x k _] using rev_ind; try done; clear Hne; rewrite removelast_last in Hpar;
    pose proof (lookup_built_in l k Dir Hnd (Hdirs _ Hpar)) as Hparent;
    pose proof (lookup_built_ne l _ Hk) as Hnew; rewrite Hfresh in Hnew.
  - destruct (format_ok t kwargs Hok) as [text Ht]. exists (File text). split; [split; [done|by exists text]|].
    unfold run_item, create_file, put, gbind, mget, mlift, mset. cbn [fst snd].
    rewrite (assoc_L (++)), removelast_last, Hparent, <- (assoc_L (++)), Hnew, Ht.
    rewrite bool_decide_eq_true_2, bool_decide_eq_false_2 by done. cbn.
    by rewrite built_snoc, insert_insert_eq.
  - exists Dir. split; [done|].
    unfold run_item, mkdir, exists_, gbind, mget. cbn [fst snd]. rewrite Hnew.
    rewrite (assoc_L (++)), reverse_snoc. cbn [tail].
    assert (make_parents (fun _ => false) (reverse (M ++ k)) (built l) = (built l, Ok tt)) as ->.
    { destruct (reverse (M ++ k)) as [|y rp] eqn:E; [done|]. cbn [make_parents]. unfold gbind at 1, mget.
      by rewrite <- E, reverse_involutive, Hparent. }
    unfold put, mset. by rewrite built_snoc, (assoc_L (++)).
Qed.

Lemma run_items_ok l (dirs : list path) todo :
  NoDup (l.*1 ++ todo.*1) -> (forall k, k ∈ dirs -> (k, Dir) ∈ l) ->
  (forall k, fs !! (M ++ k) = None) -> items_ok dirs todo ->
  exists entries, Forall2 made todo entries /\ mfor run_item todo (built l) = (built (l ++ entries), Ok tt).
Proof.
  revert l dirs. induction todo as [|it todo IH]; intros l dirs Hnd Hdirs Hfresh Hok; cbn [mfor].
  - exists []. split; [done|]. by rewrite (right_id_L [] (++)).
  - cbn [fmap list_fmap] in Hnd. apply NoDup_app in Hnd as Hnd'. destruct Hnd' as (Hl & Hd & Ht).
    apply NoDup_cons in Ht as [Hit Ht]. destruct Hok as (Hne & Hpar & Hf & Hok).
    destruct (run_item_ok l it dirs) as (e & He & E); try done; [by intros ?%Hd; set_solver|].
    unfold gbind. rewrite E.
    destruct (IH (l ++ [(it.1, e)]) (if it.2 is None then it.1 :: dirs else dirs)) as (entries & Hall & E2);
      [|..|done|done|].
    + rewrite fmap_app. cbn. by rewrite <- (assoc_L (++)).
    + intros k Hk. apply elem_of_app. destruct (it.2) as [[t kw]|] eqn:E2; [left; auto|].
      apply elem_of_cons in Hk as [->|]; [right|left; auto].
      destruct He as [_ He]. rewrite E2 in He. cbn in He. subst e. by apply list_elem_of_singleton.
    + exists ((it.1, e) :: entries). split; [by constructor|]. rewrite E2. by rewrite <- (assoc_L (++)).
Qed.

End success.

(** The paths of a plan are distinct. *)
Lemma last_char_ne (u v w : pystr) c d : c <> d -> u ++ [c] <> v ++ w ++ [d].
Proof. intros Hcd E. rewrite (assoc_L (++)) in E. by apply app_inj_tail in E as [_ ?]. Qed.

Ltac path_ne :=
  let E := fresh in
  intros E; first
    [ discriminate E
    | injection E as E; apply (inj (app _)) in E; discriminate E
    | injection E as E;
      match type of E with
      | ?s = _ ++ _ => apply (f_equal (fun l : pystr => last l)) in E; rewrite last_app in E; discriminate E
      | _ ++ _ = ?s => apply (f_equal (fun l : pystr => last l)) in E; rewrite last_app in E; discriminate E
      end ].

Lemma module_plan_nodup modname rel : NoDup ([] :: (module_plan modname rel).*1).
Proof.
  unfold module_plan. cbn [fmap list_fmap fst].
  repeat (apply NoDup_cons; split; [rewrite ?not_elem_of_cons; repeat split; first [path_ne | apply not_elem_of_nil]|]).
  constructor.
Qed.

Lemma module_plan_ok modname rel : items_ok [[]] (module_plan modname rel).
Proof.
  unfold module_plan. cbn [items_ok fst snd removelast].
  repeat split; try discriminate; try (vm_compute; reflexivity); repeat constructor.
Qed.

(** The body of [make_module] makes the directory, and then the items of the plan in
    order. *)
Lemma make_artifacts_plan cwd M modname rel fs :
  os_path_relpath (path_str cwd) (path_str M) $"." = Ok rel ->
  make_artifacts (fun _ => false) cwd M modname fs =
    (mkdir (fun _ => false) M >>> mfor (run_item M) (module_plan modname rel)) fs.
Proof.
  intros Hrel. unfold make_artifacts, module_plan, functions.
  cbn [mall mfor]. unfold run_item. cbn [fst snd].
  unfold make_wscript, make_model, make_test, make_helper, make_examples, make_doc.
  rewrite Hrel, <- !(assoc_L (++)). cbn [app]. unfold gbind, mret, mlift.
  repeat match goal with
  | |- context [match ?m ?s with _ => _ end] => destruct (m s) as [? [[]|]]; try reflexivity
  end.
Qed.

(** Where nothing fails, [make_module] in an existing directory makes exactly the
    plan: the directory of the module, its five directories and nine files, each
    with its template filled in, whatever the name; nothing else changes. *)
Theorem make_module_success (cwd modpath : path) (modname : pystr) (fs : fsys) (M := modpath ++ [modname]) :
  fs !! modpath = Some Dir -> (forall q, M `prefix_of` q -> fs !! q = None) ->
  exists rel entries,
    os_path_relpath (path_str cwd) (path_str M) $"." = Ok rel /\
    Forall2 made (module_plan modname rel) entries /\
    forall stuck, make_module (fun _ => false) stuck cwd modpath modname fs = (built M fs (([], Dir) :: entries), Ok true).
Proof.
  intros Hdir Hfresh.
  assert (exists rel, os_path_relpath (path_str cwd) (path_str M) $"." = Ok rel) as [rel Hrel].
  { unfold os_path_relpath. rewrite decide_False by done. case_decide; by eexists. }
  assert (fs !! M = None) as HM by (by apply Hfresh).
  assert (mkdir (fun _ => false) M fs = (built M fs [([], Dir)], Ok tt)) as Emk.
  { unfold mkdir, exists_, gbind, mget. rewrite HM. unfold M at 1. rewrite reverse_snoc. cbn [tail].
    assert (make_parents (fun _ => false) (reverse modpath) fs = (fs, Ok tt)) as ->.
    { destruct (reverse modpath) as [|y rp] eqn:E; [done|]. cbn [make_parents]. unfold gbind at 1, mget.
      by rewrite <- E, reverse_involutive, Hdir. }
    unfold built. cbn. by rewrite (right_id_L [] (++)). }
  destruct (run_items_ok M fs [([], Dir)] [[]] (module_plan modname rel)) as (entries & Hall & E).
  - apply module_plan_nodup.
  - intros k ->%list_elem_of_singleton. by left.
  - intros k. apply Hfresh. by apply prefix_app_r.
  - apply module_plan_ok.
  - exists rel, entries. split; [done|]. split; [done|]. intros stuck.
    unfold make_module. fold M. rewrite HM.
    rewrite (make_artifacts_plan cwd M modname rel fs Hrel). unfold gbind. by rewrite Emk, E.
Qed.

(** ** The arguments and the exit status *)

Lemma make_module_returns denied stuck cwd modpath modname fs :
  (forall q, stuck q = false) -> exists b, snd (make_module denied stuck cwd modpath modname fs) = Ok b.
Proof.
  intros Hst. unfold make_module. destruct (fs !! _); [by eexists|].
  destruct (make_artifacts _ _ _ _ _) as [fs1 [|]]; [by eexists|]. destruct (fs1 !! _); [|by eexists].
  destruct (rmtree_spec stuck (modpath ++ [modname]) fs1) as (_ & _ & [[E _]|[_ (q & _ & Hq & _)]]); [|by rewrite Hst in Hq].
  unfold gbind. destruct (rmtree _ _ fs1) as [fs2 r]. cbn in E. subst r. by eexists.
Qed.

Lemma mall_returns {A} (f : A -> stM fsys bool) l fs :
  (forall x fs, exists b, snd (f x fs) = Ok b) -> exists b, snd (mall f l fs) = Ok b.
Proof.
  intros Hf. revert fs. induction l as [|x l IH]; intros fs; cbn [mall]; [by eexists|].
  unfold gbind. destruct (Hf x fs) as [b Hb]. destruct (f x fs) as [fs1 r]. cbn in Hb. subst r.
  destruct b; [apply IH|by eexists].
Qed.

(** The arguments: the modules to make. *)
Definition arguments (base : path) (project : pystr) (modnames : list pystr) (fs : fsys)
  : py (list (path * pystr)) :=
  let! _ := raise_unless (bool_decide (fs !! (base ++ [$"src"]) = Some Dir)) (SystemExit 2) in
  let! _ := raise_unless (bool_decide (fs !! (base ++ [$"contrib"]) = Some Dir)) (SystemExit 2) in
  let! p := project_path project in
  modules_of base p modnames.

(** The exit status tells the arguments only, where no removal fails: 0 when they name
    modules, 2 for an error of the parser, 1 for an exception; it is 0 also when no module
    could be made. *)
Theorem exit_status_spec denied stuck base project modnames fs :
  (forall q, stuck q = false) ->
  snd (exit_status denied stuck base project modnames fs) =
    match arguments base project modnames fs with
    | Ok _ => 0
    | Err (SystemExit c) => c
    | Err _ => 1
    end.
Proof.
  intros Hst. unfold exit_status, main, arguments. unfold gbind at 1, mget. cbn [fst snd].
  destruct (bool_decide (fs !! (base ++ [$"src"]) = Some Dir)); [|done].
  destruct (bool_decide (fs !! (base ++ [$"contrib"]) = Some Dir)); [|done].
  cbn. unfold gbind, mlift. destruct (project_path project) as [p|e]; [|by destruct e]. cbn.
  destruct (modules_of base p modnames) as [l|e]; [|by destruct e]. cbn.
  destruct (mall_returns (fun m => make_module denied stuck base m.1 m.2) l fs) as [b Hb].
  { intros x fs'. by apply make_module_returns. }
  destruct (mall _ l fs) as [fs' r]. cbn in Hb. by subst r.
Qed.

(** A name the script accepts. *)
Definition word (w : pystr) : Prop := w <> [] /\ Forall (fun c => allowed_char c = true) w.

Lemma word_chars w : word w -> "/"%char ∉ w /\ w <> $"." /\ allowed w = true.
Proof.
  intros [Hw Hall]. split; [|split].
  - intros Hin. rewrite Forall_forall in Hall. by specialize (Hall _ Hin).
  - intros ->. by apply Forall_cons in Hall as [].
  - unfold allowed. rewrite <- (right_id_L [] (++) w), span_app by done. cbn.
    by rewrite bool_decide_eq_false_2.
Qed.

Lemma strip_sep_id s : head s <> Some "/"%char -> last s <> Some "/"%char -> strip_sep s = s.
Proof.
  intros Hh Hl. unfold strip_sep. cbv zeta.
  assert (forall s, head s <> Some "/"%char -> (fix drop_sep s :=
    match s with c :: s' => if decide (c = "/"%char) then drop_sep s' else s | [] => [] end) s = s) as E.
  { intros [|c t] Ht; [done|]. rewrite decide_False; [done|]. intros ->. by apply Ht. }
  rewrite (E s) by done. rewrite E; [apply reverse_involutive|]. by rewrite head_reverse.
Qed.

Lemma path_comps_word w : word w -> path_comps w = [w].
Proof.
  intros Hw. destruct (word_chars w Hw) as (Hs & Hd & _). unfold path_comps.
  rewrite split_on_no by done. destruct Hw. rewrite filter_cons, decide_True by done. done.
Qed.

Lemma path_comps_words v w : word v -> word w -> path_comps (v ++ $"/" ++ w) = [v; w].
Proof.
  intros Hv Hw. pose proof (path_comps_word v Hv) as Ev. pose proof (path_comps_word w Hw) as Ew.
  unfold path_comps. change (v ++ $"/" ++ w) with (v ++ "/"%char :: w).
  rewrite split_on_app_sep, filter_app. exact (f_equal2 app Ev Ew).
Qed.

Lemma word_ends w : word w -> head w <> Some "/"%char /\ last w <> Some "/"%char.
Proof.
  intros Hw. destruct (word_chars w Hw) as (Hs & _). split; intros E; apply Hs.
  - destruct w; [done|]. injection E as ->. by left.
  - apply last_Some in E as [l ->]. set_solver.
Qed.

Lemma module_of_word base project v :
  word v -> v <> $"src" -> v <> $"contrib" ->
  module_of base project v = Ok (Some (base ++ [$"contrib"] ++ default [] project, v)).
Proof.
  intros Hv Hs Hc. destruct (word_ends v Hv). unfold module_of.
  rewrite strip_sep_id, path_comps_word, decide_False by (done || apply Hv).
  change (2 <? py_len [v]) with false. change (py_get [v] 0) with (Ok v : py pystr).
  cbn [rbind]. rewrite !decide_False by done. cbn [rbind]. change (py_get [v] 0) with (Ok v : py pystr).
  cbn [rbind]. destruct (word_chars v Hv) as (_ & _ & ->).
  by destruct project.
Qed.

(** A word in a directory. *)
Lemma module_of_words base project v w :
  word v -> word w ->
  module_of base project (v ++ $"/" ++ w) =
    if decide (v = $"src") then
      match project with None => Ok (Some (base ++ [$"src"], w)) | Some _ => Err (SystemExit 2) end
    else Ok (Some (base ++ [$"contrib"] ++ default [] project, if decide (v = $"contrib") then w else v)).
Proof.
  intros Hv Hw. destruct (word_ends v Hv), (word_ends w Hw). unfold module_of.
  rewrite strip_sep_id, path_comps_words, decide_False; try done.
  - change (2 <? py_len [v; w]) with false. change (py_get [v; w] 0) with (Ok v : py pystr). cbn [rbind].
    destruct (word_chars v Hv) as (_ & _ & Hav), (word_chars w Hw) as (_ & _ & Haw).
    destruct (decide (v = $"src")) as [->|Hs].
    { destruct project; [done|]. cbn. change (py_get [w] 0) with (Ok w : py pystr). cbn. by rewrite Haw. }
    destruct (decide (v = $"contrib")) as [->|Hc]; cbn [rbind tail].
    + change (py_get [w] 0) with (Ok w : py pystr). cbn. rewrite Haw.
      by destruct project.
    + change (py_get [v; w] 0) with (Ok v : py pystr). cbn. rewrite Hav.
      by destruct project.
  - destruct Hv as [Hv _]. by destruct v.
  - destruct Hv as [Hv _]. by destruct v.
  - destruct Hw as [Hw _]. destruct w as [|c w _] using rev_ind; [done|].
    rewrite !(assoc_L (++)), last_snoc. by rewrite last_snoc in *.
Qed.

(** Where a module goes.  A word names a module of [contrib], below the project if
    there is one; so does a word after [contrib/]; after [src/] it is a module of
    [src], which a project forbids.  Of any other word with another after a slash the
    second is ignored, though the script means to skip paths; and [src] or [contrib]
    alone raises [IndexError]. *)
Theorem module_of_spec base project v w (dir := base ++ [$"contrib"] ++ default [] project) :
  word v -> word w ->
  module_of base project ($"contrib/" ++ w) = Ok (Some (dir, w)) /\
  module_of base project ($"src/" ++ w) =
    match project with None => Ok (Some (base ++ [$"src"], w)) | Some _ => Err (SystemExit 2) end /\
  (v <> $"src" -> v <> $"contrib" ->
     module_of base project v = Ok (Some (dir, v)) /\
     module_of base project (v ++ $"/" ++ w) = Ok (Some (dir, v))) /\
  module_of base project $"contrib" = Err IndexError /\
  module_of base None $"src" = Err IndexError.
Proof.
  intros Hv Hw. assert (word $"contrib" /\ word $"src") as [Hcon Hsrc] by (split; (split; [done|repeat constructor])).
  split; [exact (module_of_words base project $"contrib" w Hcon Hw)|].
  split; [exact (module_of_words base project $"src" w Hsrc Hw)|].
  split; [|by split].
  intros Hs Hc. split; [by apply module_of_word|].
  rewrite module_of_words by done. by rewrite !decide_False by done.
Qed.

Lemma module_of_spec_witness :
  module_of [$"ns"] None $"foo/bar" = Ok (Some ([$"ns"; $"contrib"], $"foo")).
Proof.
  refine (proj2 (proj1 (proj2 (proj2 (module_of_spec [$"ns"] None $"foo" $"bar" _ _))) _ _));
    try discriminate; split; [discriminate|repeat constructor|discriminate|repeat constructor].
Defined.

(** ** An example *)

Definition demo_fs : fsys :=
  {[ [] := Dir; [$"ns"] := Dir; [$"ns"; $"src"] := Dir; [$"ns"; $"contrib"] := Dir ]}.

Lemma demo_fs_fresh q : [$"ns"; $"contrib"; $"my-mod"] `prefix_of` q -> demo_fs !! q = None.
Proof. intros [k ->]. unfold demo_fs. cbn [app]. rewrite !lookup_insert_ne by discriminate. apply lookup_singleton_ne. discriminate. Qed.

Lemma make_module_success_witness :
  exists rel entries, Forall2 made (module_plan $"my-mod" rel) entries /\
    make_module (fun _ => false) (fun _ => false) [$"ns"] [$"ns"; $"contrib"] $"my-mod" demo_fs =
      (built [$"ns"; $"contrib"; $"my-mod"] demo_fs (([], Dir) :: entries), Ok true).
Proof.
  destruct (make_module_success [$"ns"] [$"ns"; $"contrib"] $"my-mod" demo_fs) as (rel & entries & _ & Hall & E).
  - vm_compute. reflexivity.
  - exact demo_fs_fresh.
  - exists rel, entries. split; [exact Hall|apply E].
Defined.

(** The header guard and the class names of a file. *)
Example demo_guard :
  fst (exit_status (fun _ => false) (fun _ => false) [$"ns"] [] [$"my-mod"] demo_fs)
    !! [$"ns"; $"contrib"; $"my-mod"; $"model"; $"my-mod.h"] =
  Some (File (template $"/* -*- Mode:C++; c-file-style:@gnu@; indent-tabs-mode:nil; -*- */
#ifndef MY_MOD_H
#define MY_MOD_H

namespace ns3 {

/* ... */

}

#endif /* MY_MOD_H */

")).
Proof. vm_compute. reflexivity. Qed.

(** A file that cannot be removed: [make_module] raises, [main] exits with 1, and part of the
    module is left. *)
Example removal_fails :
  let denied p := bool_decide (last p = Some $"my-mod-example.cc") in
  let stuck p := bool_decide (last p = Some $"my-mod.cc") in
  let '(fs', r) := make_module denied stuck [$"ns"] [$"ns"; $"contrib"] $"my-mod" demo_fs in
  r = Err OSError /\ fs' !! [$"ns"; $"contrib"; $"my-mod"; $"model"] = Some Dir /\
  fs' !! [$"ns"; $"contrib"; $"my-mod"; $"test"] = None /\
  snd (exit_status denied stuck [$"ns"] [] [$"my-mod"] demo_fs) = 1.
Proof. vm_compute. done. Qed.

Lemma make_module_all_or_nothing_witness :
  let denied p := bool_decide (last p = Some $"my-mod-example.cc") in
  let stuck (p : path) := false in
  let '(fs', r) := make_module denied stuck [$"ns"] [$"ns"; $"contrib"] $"my-mod" demo_fs in
  r = Ok false /\ fs' !! [$"ns"; $"contrib"; $"my-mod"; $"model"] = None.
Proof.
  intros denied stuck.
  pose proof (make_module_all_or_nothing denied stuck [$"ns"] [$"ns"; $"contrib"] $"my-mod" demo_fs
    (fun _ => demo_fs_fresh)) as H.
  assert (snd (make_module denied stuck [$"ns"] [$"ns"; $"contrib"] $"my-mod" demo_fs) = Ok false) as Hr
    by (vm_compute; reflexivity).
  destruct (make_module denied stuck [$"ns"] [$"ns"; $"contrib"] $"my-mod" demo_fs) as [fs' r].
  cbn in Hr. subst r. split; [reflexivity|]. destruct H as (_ & H & _).
  destruct (H (demo_fs_fresh _ (ex_intro _ [] eq_refl))) as [[H1 _]|(fs1 & e & _ & [[_ H1]|[H1 _]])]; [discriminate H1| |discriminate H1].
  apply H1. exists [$"model"]. reflexivity.
Defined.
