(* ===== verification/CFlags.v ===== *)
(** * [waf-tools/cflags.py]: the flags of the compilers for a build profile

    The traits of the compilers, the profiles and [configure].  The environment of waf is
    the variables the code reads and writes; a variable that is not set reads as empty. *)

From S2P Require Import Prelude.

(** ** Compiler traits *)

Record traits := {
  warnings_flags : list (list pystr);
  optimization_flags : list (list pystr);          (* of the levels 0 to 3 *)
  debug_flags : nat -> list pystr * list pystr
}.

(** The loop over the levels stops at the end of the list. *)
Fixpoint warnings_loop (levels : list nat) (flags : list (list pystr)) (warnings : list pystr) : list pystr :=
  match levels with
  | [] => warnings
  | l :: levels =>
      match flags !! l with
      | Some fs => warnings_loop levels flags (warnings ++ fs)
      | None => warnings
      end
  end.

Definition get_warnings_flags (t : traits) (level : nat) : list pystr :=
  warnings_loop (seq 0 level) (warnings_flags t) [].

(** None for a level above 3. *)
Definition get_optimization_flags (t : traits) (level : nat) : option (list pystr) := optimization_flags t !! level.

Definition get_debug_flags (t : traits) (level : nat) : list pystr * list pystr := debug_flags t level.

Definition unix_optimization : list (list pystr) := [[$"-O0"]; [$"-O"]; [$"-O2"]; [$"-O3"]].

Definition unix_debug (level : nat) : list pystr * list pystr :=
  match level with
  | 0 => ([$"-g0"], [$"NDEBUG"])
  | 1 => ([$"-g"], [])
  | _ => ([$"-ggdb"; $"-g3"], [$"_DEBUG"])
  end.

Definition gcc : traits :=
  {| warnings_flags := [[$"-Wall"]; [$"-Werror"]; [$"-Wextra"]];
     optimization_flags := unix_optimization; debug_flags := unix_debug |}.

Definition icc : traits :=
  {| warnings_flags := [[]; []; [$"-Wall"]]; optimization_flags := unix_optimization; debug_flags := unix_debug |}.

Definition msvc_debug (level : nat) : list pystr * list pystr :=
  match level with
  | 0 => ([], [$"NDEBUG"])
  | 1 => ([$"/ZI"; $"/RTC1"], [])
  | _ => ([$"/ZI"; $"/RTC1"], [$"_DEBUG"])
  end.

Definition msvc : traits :=
  {| warnings_flags := [[$"/W2"]; [$"/WX"]; [$"/Wall"]];
     optimization_flags := [[$"/Od"]; []; [$"/O2"]; [$"/Ox"]]; debug_flags := msvc_debug |}.

Definition compiler_mapping : list (pystr * traits) :=
  [($"gcc", gcc); ($"g++", gcc); ($"msvc", msvc); ($"icc", icc); ($"icpc", icc); ($"clang", gcc); ($"clang++", gcc)].

Definition compiler_traits (name : option pystr) : option traits :=
  name ≫= fun n => snd <$> List.find (fun kv => bool_decide (kv.1 = n)) compiler_mapping.

(** Optimization, warnings and debug. *)
Definition profiles (name : pystr) : option (nat * nat * nat) :=
  if decide (name = $"default") then Some (2, 1, 1)
  else if decide (name = $"debug") then Some (0, 2, 3)
  else if decide (name = $"release") then Some (3, 1, 0)
  else None.

Definition default_profile : pystr := $"default".

(** ** [configure] *)

Record env := {
  COMPILER_CC : pystr; COMPILER_CXX : pystr;
  CCFLAGS : list pystr; CCDEFINES : list pystr; CXXFLAGS : list pystr; CXXDEFINES : list pystr
}.

Definition or_none (s : pystr) : option pystr := match s with [] => None | _ => Some s end.

(** [warnings.remove('-Werror')], a ValueError ignored. *)
Fixpoint remove_flag (f : pystr) (l : list pystr) : list pystr :=
  match l with
  | [] => []
  | x :: l => if decide (x = f) then l else x :: remove_flag f l
  end.

Inductive failure := WafError | KeyError_profile | NoFlags.

Definition configure (build_profile : pystr) (disable_werror : bool) (e : env) : result failure env :=
  let cc := or_none (COMPILER_CC e) in
  let cxx := or_none (COMPILER_CXX e) in
  match cc, cxx with
  | None, None => Err WafError
  | _, _ =>
      match match compiler_traits cc with Some t => Some t | None => compiler_traits cxx end with
      | None => Ok e                                (* a warning *)
      | Some compiler =>
          let! '(opt_level, warn_level, dbg_level) := or_raise KeyError_profile (profiles build_profile) in
          let! optimizations := or_raise NoFlags (get_optimization_flags compiler opt_level) in
          let '(debug, debug_defs) := get_debug_flags compiler dbg_level in
          let warnings := get_warnings_flags compiler warn_level in
          let warnings := if disable_werror then remove_flag $"-Werror" warnings else warnings in
          let flags := optimizations ++ debug ++ warnings in
          let e := match cc, CCFLAGS e with
                   | Some _, [] => {| COMPILER_CC := COMPILER_CC e; COMPILER_CXX := COMPILER_CXX e; CCFLAGS := flags;
                                      CCDEFINES := CCDEFINES e ++ debug_defs; CXXFLAGS := CXXFLAGS e; CXXDEFINES := CXXDEFINES e |}
                   | _, _ => e
                   end in
          Ok (match cxx, CXXFLAGS e with
              | Some _, [] => {| COMPILER_CC := COMPILER_CC e; COMPILER_CXX := COMPILER_CXX e; CCFLAGS := CCFLAGS e;
                                 CCDEFINES := CCDEFINES e; CXXFLAGS := flags; CXXDEFINES := CXXDEFINES e ++ debug_defs |}
              | _, _ => e
              end)
      end
  end.

(** ** Warnings *)

(** The loop gives the flags of the first levels. *)
Lemma get_warnings_flags_take t level : get_warnings_flags t level = mjoin (take level (warnings_flags t)).
Proof.
  unfold get_warnings_flags. generalize (warnings_flags t) as flags. intros flags.
  assert (forall k acc, warnings_loop (seq k level) flags acc = acc ++ mjoin (take level (drop k flags))) as H.
  { induction level as [|level IH]; intros k acc; [symmetry; apply app_nil_r|]. cbn [seq warnings_loop].
    destruct (flags !! k) as [fs|] eqn:E.
    - rewrite (drop_S _ fs k E), IH. cbn [firstn mjoin list_join]. by rewrite <- (assoc_L (++)).
    - apply lookup_ge_None_1 in E. rewrite drop_ge, take_nil by done. symmetry. apply app_nil_r. }
  apply H.
Qed.

Lemma remove_flag_not_in f l : NoDup l -> f ∉ remove_flag f l.
Proof.
  induction 1 as [|x l Hx Hl IH]; [apply not_elem_of_nil|]. cbn. case_decide; [by subst|].
  by rewrite not_elem_of_cons.
Qed.

Lemma remove_flag_elem f g l : g <> f -> g ∈ remove_flag f l <-> g ∈ l.
Proof.
  intros Hne. induction l as [|x l IH]; [done|]. cbn. case_decide as Hx.
  - subst x. rewrite list.elem_of_cons. naive_solver.
  - by rewrite !list.elem_of_cons, IH.
Qed.

(** The flags of a compiler for a profile. *)
Definition profile_flags (compiler : traits) (levels : nat * nat * nat) (disable_werror : bool) (l : list pystr) : Prop :=
  exists opt, get_optimization_flags compiler levels.1.1 = Some opt /\
    forall f, f ∈ l <-> f ∈ opt \/ f ∈ (get_debug_flags compiler levels.2).1 \/
      (f ∈ get_warnings_flags compiler levels.1.2 /\ (disable_werror = true -> f <> $"-Werror")).

Definition known (name : pystr) : Prop := is_Some (compiler_traits (or_none name)).

(** The traits of the C compiler, when it is known, else those of the C++ compiler. *)
Definition chosen (e : env) : option traits :=
  match compiler_traits (or_none (COMPILER_CC e)) with
  | Some t => Some t
  | None => compiler_traits (or_none (COMPILER_CXX e))
  end.

Lemma compiler_traits_some name t : compiler_traits name = Some t -> t = gcc \/ t = icc \/ t = msvc.
Proof.
  destruct name as [n|]; [|done]. unfold compiler_traits. cbn [mbind option_bind].
  destruct (List.find _ compiler_mapping) as [kv|] eqn:E; [|done]. intros [= <-].
  apply find_some in E as [Hin _]. cbn in Hin. intuition (subst; cbn; auto).
Qed.

Lemma chosen_some e t : chosen e = Some t -> t = gcc \/ t = icc \/ t = msvc.
Proof.
  unfold chosen. destruct (compiler_traits (or_none (COMPILER_CC e))) eqn:E.
  - intros [= <-]. by apply compiler_traits_some in E.
  - apply compiler_traits_some.
Qed.

(** The warnings of a compiler that is mapped are distinct. *)
Lemma warnings_nodup t level : t = gcc \/ t = icc \/ t = msvc -> NoDup (get_warnings_flags t level).
Proof.
  intros Ht. rewrite get_warnings_flags_take.
  assert (NoDup (mjoin (warnings_flags t))) as Hd by (destruct Ht as [-> | [-> | ->]]; by apply (bool_decide_unpack _)).
  rewrite <- (take_drop level (warnings_flags t)), join_app in Hd. by apply NoDup_app in Hd as [? _].
Qed.

(** [configure] fails without a compiler, changes nothing for compilers it does not know,
    and else sets the flags of the profile of each compiler there is that has none yet: the
    optimization, the debug and the warning flags of the traits chosen, without -Werror when
    that is disabled.  Flags that are set already are kept, and so are the defines with
    them. *)
Theorem cflags_configure_spec build_profile levels disable_werror e :
  profiles build_profile = Some levels ->
  match chosen e with
  | None => configure build_profile disable_werror e = (if decide (COMPILER_CC e = [] /\ COMPILER_CXX e = []) then Err WafError else Ok e)
  | Some t => exists e' flags,
      configure build_profile disable_werror e = Ok e' /\ profile_flags t levels disable_werror flags /\
      CCFLAGS e' = (if decide (COMPILER_CC e <> [] /\ CCFLAGS e = []) then flags else CCFLAGS e) /\
      CXXFLAGS e' = (if decide (COMPILER_CXX e <> [] /\ CXXFLAGS e = []) then flags else CXXFLAGS e) /\
      CCDEFINES e' = CCDEFINES e ++ (if decide (COMPILER_CC e <> [] /\ CCFLAGS e = []) then (get_debug_flags t levels.2).2 else []) /\
      CXXDEFINES e' = CXXDEFINES e ++ (if decide (COMPILER_CXX e <> [] /\ CXXFLAGS e = []) then (get_debug_flags t levels.2).2 else [])
  end.
Proof.
  intros Hp. destruct (chosen e) as [t|] eqn:Ec.
  - pose proof (chosen_some e t Ec) as Ht. destruct levels as [[opt warn] dbg].
    destruct (get_optimization_flags t opt) as [optimizations|] eqn:Eo.
    2: { exfalso. unfold profiles in Hp. repeat case_decide; simplify_eq; by destruct Ht as [-> | [-> | ->]]. }
    destruct (get_debug_flags t dbg) as [debug defs] eqn:Ed.
    set (warnings := get_warnings_flags t warn).
    set (flags := optimizations ++ debug ++ if disable_werror then remove_flag $"-Werror" warnings else warnings).
    assert (profile_flags t (opt, warn, dbg) disable_werror flags) as Hf.
    { exists optimizations. split; [done|]. intros f. unfold flags. rewrite !elem_of_app. cbn [fst snd]. rewrite Ed. cbn [fst].
      fold warnings. destruct disable_werror; [|naive_solver].
      destruct (decide (f = $"-Werror")) as [->|Hne].
      - pose proof (remove_flag_not_in $"-Werror" warnings (warnings_nodup t warn Ht)). naive_solver.
      - rewrite remove_flag_elem by done. naive_solver. }
    unfold configure. fold (chosen e). rewrite Hp, Ec. cbn [or_raise rbind]. rewrite Eo. cbn [or_raise rbind]. rewrite Ed.
    fold warnings. fold flags. cbn [snd]. rewrite Ed. cbn [snd].
    assert (or_none (COMPILER_CC e) = None -> or_none (COMPILER_CXX e) = None -> False) as Hsome.
    { intros E1 E2. unfold chosen in Ec. by rewrite E1, E2 in Ec. }
    clearbody flags. clear - Hf Hsome. destruct e as [cc cxx ccf ccd cxf cxd].
    cbn [COMPILER_CC COMPILER_CXX CCFLAGS CCDEFINES CXXFLAGS CXXDEFINES] in *.
    destruct cc, cxx; [by destruct Hsome|destruct ccf, cxf..]; cbn [or_none];
      eexists _, flags; (split; [reflexivity|]); (split; [exact Hf|]); cbn;
      repeat case_decide; rewrite ?(right_id_L [] (++)); naive_solver.
  - unfold configure. unfold chosen in Ec. destruct (compiler_traits (or_none (COMPILER_CC e))); [done|]. rewrite Ec.
    destruct (COMPILER_CC e), (COMPILER_CXX e); cbn; case_decide; naive_solver.
Qed.

Lemma cflags_configure_spec_witness :
  let e := {| COMPILER_CC := $"gcc"; COMPILER_CXX := $"g++"; CCFLAGS := []; CCDEFINES := []; CXXFLAGS := [$"-O1"]; CXXDEFINES := [] |} in
  match chosen e with
  | None => configure $"debug" true e = (if decide (COMPILER_CC e = [] /\ COMPILER_CXX e = []) then Err WafError else Ok e)
  | Some t => exists e' flags,
      configure $"debug" true e = Ok e' /\ profile_flags t (0, 2, 3) true flags /\
      CCFLAGS e' = (if decide (COMPILER_CC e <> [] /\ CCFLAGS e = []) then flags else CCFLAGS e) /\
      CXXFLAGS e' = (if decide (COMPILER_CXX e <> [] /\ CXXFLAGS e = []) then flags else CXXFLAGS e) /\
      CCDEFINES e' = CCDEFINES e ++ (if decide (COMPILER_CC e <> [] /\ CCFLAGS e = []) then (get_debug_flags t 3).2 else []) /\
      CXXDEFINES e' = CXXDEFINES e ++ (if decide (COMPILER_CXX e <> [] /\ CXXFLAGS e = []) then (get_debug_flags t 3).2 else [])
  end.
Proof. by apply (cflags_configure_spec $"debug" (0, 2, 3) true). Defined.

(** With msvc the warnings stay errors when that is disabled, and the flags of the C
    compiler are given to another C++ compiler. *)
Example configure_odd :
  CCFLAGS <$> (match configure $"debug" true
    {| COMPILER_CC := $"msvc"; COMPILER_CXX := $"g++"; CCFLAGS := []; CCDEFINES := []; CXXFLAGS := []; CXXDEFINES := [] |} with
    Ok e => [e] | Err _ => [] end) = [[$"/Od"; $"/ZI"; $"/RTC1"; $"/W2"; $"/WX"]] /\
  CXXFLAGS <$> (match configure $"debug" true
    {| COMPILER_CC := $"msvc"; COMPILER_CXX := $"g++"; CCFLAGS := []; CCDEFINES := []; CXXFLAGS := []; CXXDEFINES := [] |} with
    Ok e => [e] | Err _ => [] end) = [[$"/Od"; $"/ZI"; $"/RTC1"; $"/W2"; $"/WX"]].
Proof. by vm_compute. Qed.
