(* ===== verification/Boost.v ===== *)
(** * [waf-tools/boost.py]: looking for the headers and the libraries of Boost

    The search of the headers and of their version, of the directory of the libraries, the
    patterns that choose the file of each library, and [check_boost], which fills the
    environment of waf and tries to link.  The directories, the compiler and the linker are
    parameters.  Names of libraries, toolsets and versions are spliced into expressions: the
    dot has its meaning there, the other characters of an expression ([specials]) are taken as
    they are, and what is stated of the chosen files supposes names without them.  [fatal] is a [BareException], which is
    what [ConfigurationError] stands for. *)

From S2P Require Import Prelude StateM Regex.

Definition BOOST_LIBS : list pystr :=
  [$"/usr/lib/x86_64-linux-gnu"; $"/usr/lib/i386-linux-gnu"; $"/usr/lib"; $"/usr/local/lib"; $"/opt/local/lib"; $"/sw/lib"; $"/lib"].
Definition BOOST_INCLUDES : list pystr := [$"/usr/include"; $"/usr/local/include"; $"/opt/local/include"; $"/sw/include"].

Definition fatal {A} : py A := Err (BareException $"The configuration failed").

(** The keywords of [check_boost] and the options; an option that is not given is empty. *)
Record params := {
  lib : pystr; stlib : pystr; includes : pystr; libs : pystr; abi : pystr; toolset : pystr; python : pystr;
  mt : bool; required : bool; linkage_autodetect : bool;
  files : option (list pystr)                (* not among what [check_boost] passes *)
}.

(** The variables of the [uselib_store], and the version. *)
Record env := {
  INCLUDES : option pystr; BOOST_VERSION : pystr; LIBPATH : option (list pystr); STLIBPATH : option (list pystr);
  LIB : option (list pystr); STLIB : option (list pystr); DEFINES : list pystr; CXXFLAGS : list pystr
}.

Definition set_includes i (e : env) : env :=
  {| INCLUDES := Some i; BOOST_VERSION := BOOST_VERSION e; LIBPATH := LIBPATH e; STLIBPATH := STLIBPATH e; LIB := LIB e; STLIB := STLIB e;
     DEFINES := DEFINES e; CXXFLAGS := CXXFLAGS e |}.
Definition set_version v (e : env) : env :=
  {| INCLUDES := INCLUDES e; BOOST_VERSION := v; LIBPATH := LIBPATH e; STLIBPATH := STLIBPATH e; LIB := LIB e; STLIB := STLIB e;
     DEFINES := DEFINES e; CXXFLAGS := CXXFLAGS e |}.
Definition set_libs lp slp l sl (e : env) : env :=
  {| INCLUDES := INCLUDES e; BOOST_VERSION := BOOST_VERSION e; LIBPATH := lp; STLIBPATH := slp; LIB := l; STLIB := sl;
     DEFINES := DEFINES e; CXXFLAGS := CXXFLAGS e |}.
Definition add_defines d (e : env) : env :=
  {| INCLUDES := INCLUDES e; BOOST_VERSION := BOOST_VERSION e; LIBPATH := LIBPATH e; STLIBPATH := STLIBPATH e; LIB := LIB e; STLIB := STLIB e;
     DEFINES := DEFINES e ++ d; CXXFLAGS := CXXFLAGS e |}.
Definition add_cxxflags f (e : env) : env :=
  {| INCLUDES := INCLUDES e; BOOST_VERSION := BOOST_VERSION e; LIBPATH := LIBPATH e; STLIBPATH := STLIBPATH e; LIB := LIB e; STLIB := STLIB e;
     DEFINES := DEFINES e; CXXFLAGS := CXXFLAGS e ++ f |}.

(** ** Patterns

    A pattern gives what may be left of a text after a match at its beginning. *)

Definition pat := pystr -> list pystr.

Definition p_char (f : ascii -> bool) : pat := fun s => match s with c :: s => if f c then [s] else [] | [] => [] end.
Definition p_seq (a b : pat) : pat := fun s => a s ≫= b.
Definition p_alt (a b : pat) : pat := fun s => a s ++ b s.
Definition p_opt (a : pat) : pat := fun s => a s ++ [s].
Definition p_look (a : pat) : pat := fun s => match a s with [] => [] | _ => [s] end.
Definition p_not (a : pat) : pat := fun s => match a s with [] => [s] | _ => [] end.
Definition p_eol : pat := fun s => if decide (s = [] \/ s = [NL]) then [s] else [].
Definition p_seqs (l : list pat) : pat := foldr p_seq (fun s => [s]) l.

(** A text that is spliced into an expression, one without [specials]. *)
Definition char_class (c d : ascii) : bool := if decide (c = "."%char) then dot d else bool_decide (d = c).
Definition p_text (w : pystr) : pat := p_seqs ((fun c => p_char (char_class c)) <$> w).

(** [[0-9]{0,3}] *)
Fixpoint p_digits (n : nat) : pat := match n with O => fun s => [s] | S n => p_opt (p_seq (p_char is_digit) (p_digits n)) end.

Definition not_digit : pat := p_char (fun c => negb (is_digit c)).

(** [re.compile(p).search(s)] *)
Fixpoint re_search (p : pat) (s : pystr) : bool :=
  negb (bool_decide (p s = [])) || match s with [] => false | _ :: s => re_search p s end.

(** ** The platform and the toolset *)

Section toolsets.
Variables (PLATFORM CXX_NAME CXX_0 : pystr).   (* [CXX_0] is [env.CXX[0]] *)

Definition detect_intel : pystr := if decide (PLATFORM = $"win32") then $"iw" else $"il".
Definition detect_clang : pystr := if decide (PLATFORM = $"darwin") then $"clang-darwin" else $"clang".
Definition detect_mingw : pystr := if str_contains CXX_0 $"MinGW" then $"mgw" else $"gcc".

Definition BOOST_TOOLSETS : list (pystr * pystr) :=
  [($"borland", $"bcb"); ($"clang", detect_clang); ($"como", $"como"); ($"cw", $"cw"); ($"darwin", $"xgcc"); ($"edg", $"edg");
   ($"g++", detect_mingw); ($"gcc", detect_mingw); ($"icpc", detect_intel); ($"intel", detect_intel); ($"kcc", $"kcc");
   ($"kylix", $"bck"); ($"mipspro", $"mp"); ($"mingw", $"mgw"); ($"msvc", $"vc"); ($"qcc", $"qcc"); ($"sun", $"sw");
   ($"sunc++", $"sw"); ($"tru64cxx", $"tru"); ($"vacpp", $"xlc")].

Definition toolset_of (cc : pystr) : option pystr := snd <$> find (fun t => bool_decide (t.1 = cc)) BOOST_TOOLSETS.

(** An unknown name is kept, an empty one is called as a function. *)
Definition boost_get_toolset (cc : pystr) : py pystr :=
  let name := if decide (cc = []) then match toolset_of PLATFORM with Some _ => PLATFORM | None => CXX_NAME end else cc in
  let toolset := match toolset_of name with Some t => t | None => cc end in
  if decide (toolset = []) then Err TypeError else Ok toolset.

End toolsets.

(** ** Files and directories *)

Section boost.
Variables (PLATFORM CXX_NAME CXX_0 CC_NAME : pystr) (has_CXX : bool) (INCLUDE_var LIB_var : pystr).
(** What [find_dir(d)] and then [find_node('boost/version.hpp')] give: the text of the file. *)
Variable version_file : pystr -> option (py pystr).
(** The version printed by a program that is compiled and run. *)
Variable check_version : pystr -> py pystr.
(** A directory: its path, and the names of the files found by [ant_glob('*boost_*')]. *)
Variable find_dir : pystr -> option (pystr * list pystr).
(** The text before and after ['%s'] in the patterns of the names of libraries. *)
Variables cxxshlib_PATTERN cxxstlib_PATTERN : pystr * pystr.
Variable listdir : pystr -> list pystr.

Inductive fragment := BOOST_ERROR_CODE | BOOST_THREAD_CODE.
Variable check_cxx : fragment -> env -> bool.

Definition get_version_file (d : pystr) : option (py pystr) := if decide (d = []) then None else version_file d.

(** [^#define\s+BOOST_LIB_VERSION\s+"(.*)"], with [re.M] *)
Definition re_but : rx :=
  (literal $"#define" ⋅ CPlus is_ws ⋅ literal $"BOOST_LIB_VERSION" ⋅ CPlus is_ws ⋅ literal dquote ⋅ Group 1 (CStar dot) ⋅ literal dquote)%rx.

Fixpoint re_search_lines (line_start : bool) (s : pystr) : option pystr :=
  match (if line_start then re_match re_but s else None) with
  | Some g => Some (default [] (g !! 1))
  | None => match s with [] => None | c :: s => re_search_lines (bool_decide (c = NL)) s end
  end.

Definition boost_get_version (d : pystr) : py pystr :=
  match get_version_file d with
  | Some (Ok txt) => match re_search_lines true txt with Some v => Ok v | None => check_version d end
  | _ => check_version d
  end.

Definition boost_get_includes (includes : pystr) : py pystr :=
  if decide (includes <> [] /\ is_Some (get_version_file includes)) then Ok includes
  else match find (fun d => bool_decide (is_Some (get_version_file d))) (split_on ";"%char INCLUDE_var ++ BOOST_INCLUDES) with
  | Some d => Ok d
  | None => fatal
  end.

(** The loop over the directories: the last path, and the files, [None] until they are
    assigned.  It stops at files. *)
Fixpoint search_dirs (ds : list pystr) (path : option pystr) (files : option (list pystr)) : option pystr * option (list pystr) :=
  match ds with
  | [] => (path, files)
  | d :: ds =>
      if decide (d = []) then search_dirs ds path files
      else
        match find_dir d with
        | Some (p, f :: fs) => (Some p, Some (f :: fs))
        | r =>
            let files := match r with Some (_, fs) => Some fs | None => files end in
            match find_dir (d ++ $"64") with
            | Some (p, f :: fs) => (Some p, Some (f :: fs))
            | Some (p, []) => search_dirs ds (Some p) (Some [])
            | None => search_dirs ds None files
            end
        end
  end.

Definition boost_get_libs_path (kw : params) : py (option pystr * list pystr) :=
  match files kw with
  | Some fs => Ok (fst <$> find_dir $".", fs)
  | None =>
      let dirs := split_on ";"%char LIB_var ++ BOOST_LIBS in
      let! '(path, files) :=
        (if decide (libs kw = []) then Ok (search_dirs dirs None None)
         else match find_dir (libs kw) with
         | None => Err AttributeError
         | Some (p, []) => Ok (search_dirs dirs (Some p) (Some []))
         | Some (p, fs) => Ok (Some p, Some fs)
         end) in
      let! _ := raise_unless (negb (bool_decide (path = None) && required kw)) (BareException $"The configuration failed") in
      match files with None => Err UnboundLocalError | Some fs => Ok (path, fs) end
  end.

(** ** Choosing the libraries *)

Definition find_lib (p : pat) (files : list pystr) : option pystr := find (re_search p) files.

(** What is before the last dot; without one [rfind] is -1 and the last character is cut. *)
Fixpoint before_last_dot (s : pystr) : option pystr :=
  match s with
  | [] => None
  | c :: s => match before_last_dot s with Some r => Some (c :: r) | None => if decide (c = "."%char) then Some [] else None end
  end.

Definition format_lib_name (name : pystr) : pystr :=
  let name := if startswith name $"lib" && negb (bool_decide (CC_NAME = $"msvc")) then drop 3 name else name in
  match before_last_dot name with Some r => r | None => take (length name - 1) name end.

(** [s.split()] *)
Definition words (s : pystr) : list pystr :=
  filter (fun w => w <> []) (split_on " "%char ((fun c => if is_ws c then " "%char else c) <$> s)).

(** The text of [tags_pat]. *)
Definition tags_pat (kw : params) (is_static : bool) : pystr :=
  (if mt kw then $"-mt" else []) ++
  (if decide (abi kw <> []) then (if is_static then $"-s" else $"-") ++ abi kw else if is_static then $"-s" else []).

(** [({0})?((-py{2})|(-py{1}(?=[^0-9]))|({2})|({1}(?=[^0-9]))|(?=[^0-9])(?!-py))] *)
Definition python_tags (tags_pat python : pystr) (major : ascii) : pat :=
  p_seq (p_opt (p_text tags_pat))
    (p_alt (p_text ($"-py" ++ python))
    (p_alt (p_seq (p_text ($"-py" ++ [major])) (p_look not_digit))
    (p_alt (p_text python)
    (p_alt (p_seq (p_text [major]) (p_look not_digit))
           (p_seq (p_look not_digit) (p_not (p_text $"-py"))))))).

(** The patterns of a library, from the strictest one. *)
Definition patterns (lib : pystr) (toolset_pat tags : pat) (version ext : pystr) : list pat :=
  let boost_lib := p_text ($"boost_" ++ lib) in
  [p_seqs [boost_lib; toolset_pat; tags; p_text version; p_text ext; p_eol];
   p_seqs [boost_lib; tags; p_text version; p_text ext; p_eol];
   p_seqs [boost_lib; toolset_pat; tags; p_text ext; p_eol];
   p_seqs [boost_lib; tags; p_text ext; p_eol];
   p_seqs [boost_lib; p_text ext; p_eol];
   boost_lib].

(** The loop over the patterns. *)
Fixpoint first_match (ps : list pat) (files : list pystr) : option pystr :=
  match ps with
  | [] => None
  | p :: ps => match find_lib p files with Some f => Some f | None => first_match ps files end
  end.

Section match_libs.
Variables (kw : params) (files : list pystr) (toolset version : pystr).

Definition lib_patterns (is_static : bool) (lib : pystr) : py (list pat) :=
  let tags := tags_pat kw is_static in
  let ext := snd (if is_static then cxxstlib_PATTERN else cxxshlib_PATTERN) in
  let toolset_pat := p_seq (p_text ("-"%char :: toolset)) (p_digits 3) in
  let! tags :=
    (if decide (lib = $"python") then
       let! major := py_get (python kw) 0 in Ok (python_tags tags (python kw) major)
     else Ok (p_text tags)) in
  Ok (patterns lib toolset_pat tags ("-"%char :: version) ext).

Fixpoint match_loop (is_static : bool) (lib_names : list pystr) : py (list pystr) :=
  match lib_names with
  | [] => Ok []
  | lib :: lib_names =>
      let! ps := lib_patterns is_static lib in
      match first_match ps files with
      | Some f => let! l := match_loop is_static lib_names in Ok (format_lib_name f :: l)
      | None => if required kw then fatal else match_loop is_static lib_names
      end
  end.

Definition match_libs (lib_names : pystr) (is_static : bool) : py (list pystr) := match_loop is_static (words lib_names).

End match_libs.

(** The longest names first, those of a length from the last in their order. *)
Definition name_geb (a b : pystr) : bool :=
  if decide (length a = length b) then str_leb b a else length b <=? length a.

Definition boost_get_libs (kw : params) (version : pystr) : py (pystr * list pystr * list pystr) :=
  let! '(path, fs) := boost_get_libs_path kw in
  let! _ := raise_unless (bool_decide (files kw = None \/ fs = [])) AttributeError in    (* strings have no [name] *)
  let fs := py_sort name_geb fs in
  let! toolset := boost_get_toolset PLATFORM CXX_NAME CXX_0 (toolset kw) in
  let! path := or_raise AttributeError path in
  let! l := match_libs kw fs toolset version (lib kw) false in
  let! sl := match_libs kw fs toolset version (stlib kw) true in
  Ok (path, l, sl).

(** ** [check_boost] *)

Definition uses (kw : params) (name : pystr) : bool :=
  negb (bool_decide (lib kw = [])) && str_contains (lib kw) name ||
  negb (bool_decide (stlib kw = [])) && str_contains (stlib kw) name.

Definition try_link (kw : params) (e : env) : bool :=
  (negb (uses kw $"system") || check_cxx BOOST_ERROR_CODE e) && (negb (uses kw $"thread") || check_cxx BOOST_THREAD_CODE e).

(** The flags that are tried, each from the same environment. *)
Fixpoint try_flags (kw : params) (l : list (list pystr)) : stM env () :=
  match l with
  | [] => mlift fatal
  | f :: l => do! e := mget (fun e => e) in
      if try_link kw (add_cxxflags f e) then mset (add_cxxflags f) else try_flags kw l
  end.

(** [kw_toolset] is the keyword of the caller, whatever the option is. *)
Definition check_boost (kw_toolset : pystr) (kw : params) : stM env () :=
  if negb has_CXX then mlift fatal
  else
    do! inc := mlift (boost_get_includes (includes kw)) in
    mset (set_includes inc) >>>
    do! v := mlift (boost_get_version inc) in
    mset (set_version v) >>>
    if decide (lib kw = [] /\ stlib kw = []) then mret tt
    else
      do! '(path, l, sl) := mlift (boost_get_libs kw v) in
      mset (set_libs (Some [path]) (Some [path]) (Some l) (Some sl)) >>>
      if linkage_autodetect kw then
        do! t := mlift (boost_get_toolset PLATFORM CXX_NAME CXX_0 kw_toolset) in
        if decide (t = $"vc") then
          mset (add_defines [$"BOOST_ALL_NO_LIB"]) >>>
          (if existsb (fun x => endswith x (cxxshlib_PATTERN.1 ++ cxxshlib_PATTERN.2)) (listdir path) then mret tt
           else mset (set_libs None (Some [path]) None (Some l))) >>>
          try_flags kw [[$"/MD"; $"/EHsc"]; []]
        else mlift fatal
      else
        do! e := mget (fun e => e) in
        if try_link kw e then mret tt else mlift fatal.

End boost.

(** ** What a pattern matches *)

Lemma p_seqs_cons p ps s : p_seqs (p :: ps) s = p s ≫= p_seqs ps.
Proof. done. Qed.

Lemma p_text_cons c w s : p_text (c :: w) s =
  match s with d :: s => if char_class c d then p_text w s else [] | [] => [] end.
Proof.
  unfold p_text. cbn [fmap list_fmap]. rewrite p_seqs_cons. unfold p_char. destruct s as [|d s]; [done|].
  destruct (char_class c d); cbn; by rewrite ?app_nil_r.
Qed.

(** The text [s] is read by the text [w] of an expression, where a dot is any character of a line. *)
Definition reads (w s : pystr) : Prop := Forall2 (fun c d => d = c \/ c = "."%char /\ d <> NL) w s.

(** The end of a name, and of one that ends with a newline. *)
Definition at_end (s : pystr) : Prop := s = [] \/ s = [NL].

Lemma char_class_spec c d : char_class c d = true <-> d = c \/ c = "."%char /\ d <> NL.
Proof.
  unfold char_class, dot. case_decide as E; [|rewrite bool_decide_eq_true; tauto].
  rewrite negb_true_iff, bool_decide_eq_false. subst. destruct (decide (d = "."%char)) as [->|]; [|tauto].
  split; [intros _; by left|done].
Qed.

Lemma p_text_elem w s r : r ∈ p_text w s <-> exists t, s = t ++ r /\ reads w t.
Proof.
  revert s. induction w as [|c w IH]; intros s.
  - unfold p_text. cbn. rewrite list_elem_of_singleton. split; [intros ->; exists []; split; [done|constructor]|].
    intros (t & -> & Ht). by inversion Ht.
  - rewrite p_text_cons. destruct s as [|d s].
    + rewrite elem_of_nil. split; [done|]. intros (t & E & Ht). inversion Ht; subst; discriminate.
    + destruct (char_class c d) eqn:E.
      * rewrite IH. split; [intros (t & -> & Ht); exists (d :: t); split; [done|constructor; [by apply char_class_spec|done]]|].
        intros (t & Et & Ht). inversion Ht as [|? d' ? t' _ Ht']; subst. injection Et as -> ->. by exists t'.
      * rewrite elem_of_nil. split; [done|]. intros (t & Et & Ht). inversion Ht as [|? d' ? t' Hd Ht']; subst. injection Et as <- ->.
        apply char_class_spec in Hd. congruence.
Qed.

Lemma p_digits_elem n s r : r ∈ p_digits n s <-> exists d, s = d ++ r /\ length d <= n /\ Forall (fun c => is_digit c = true) d.
Proof.
  revert s. induction n as [|n IH]; intros s; cbn [p_digits].
  - rewrite list_elem_of_singleton. split; [intros ->; exists []; split_and!; [done..|constructor]|]. by intros ([|] & -> & Hd & _); [|cbn in Hd; lia].
  - unfold p_opt, p_seq. rewrite elem_of_app, list_elem_of_bind, list_elem_of_singleton. split.
    + intros [(y & Hy & Hc)| ->]; [|exists []; split_and!; [done|cbn; lia|constructor]].
      destruct s as [|c s]; cbn in Hc; [by apply elem_of_nil in Hc|]. destruct (is_digit c) eqn:Ec; [|by apply elem_of_nil in Hc].
      apply list_elem_of_singleton in Hc as ->. apply IH in Hy as (d & -> & Hn & Hd). exists (c :: d).
      split_and!; [done|cbn; lia|by constructor].
    + intros ([|c d] & -> & Hn & Hd); [by right|left]. apply Forall_cons in Hd as [Hc Hd]. exists (d ++ r). split.
      * apply IH. exists d. split_and!; [done|cbn in Hn; lia|done].
      * cbn. rewrite Hc. by apply list_elem_of_singleton.
Qed.

Lemma p_eol_elem s r : r ∈ p_eol s <-> s = r /\ at_end r.
Proof.
  unfold p_eol, at_end. case_decide as E; [rewrite list_elem_of_singleton|rewrite elem_of_nil].
  - split; [by intros ->|by intros [-> _]].
  - split; [done|]. by intros [-> ?].
Qed.

Lemma p_seq_elem a b s r : r ∈ p_seq a b s <-> exists m, m ∈ a s /\ r ∈ b m.
Proof. unfold p_seq. rewrite list_elem_of_bind. firstorder. Qed.

Lemma p_seqs_elem p ps s r : r ∈ p_seqs (p :: ps) s <-> exists m, m ∈ p s /\ r ∈ p_seqs ps m.
Proof. apply p_seq_elem. Qed.

Lemma p_seqs_nil_elem s r : r ∈ p_seqs [] s <-> r = s.
Proof. apply list_elem_of_singleton. Qed.

(** An expression is found in a text where it matches at the beginning of an end of it. *)
Lemma re_search_elem p s : re_search p s = true <-> exists u t r, s = u ++ t /\ r ∈ p t.
Proof.
  assert (forall t, negb (bool_decide (p t = [])) = true <-> exists r, r ∈ p t) as Hp.
  { intros t. rewrite negb_true_iff, bool_decide_eq_false. destruct (p t) as [|r l].
    - split; [done|]. intros [r Hr]. by apply elem_of_nil in Hr.
    - split; [intros _; exists r; by left|done]. }
  induction s as [|c s IH]; cbn [re_search]; rewrite orb_true_iff, Hp.
  - split; [intros [[r Hr]|]; [by exists [], [], r|done]|]. intros (u & t & r & E & Hr). symmetry in E. apply app_eq_nil in E as [-> ->]. left. by exists r.
  - rewrite IH. split.
    + intros [[r Hr]|(u & t & r & -> & Hr)]; [by exists [], (c :: s), r|by exists (c :: u), t, r].
    + intros ([|d u] & t & r & E & Hr); cbn in E; [subst t; left; by exists r|]. injection E as -> ->. right. by exists u, t, r.
Qed.

(** ** Which file is chosen *)

Lemma find_first {A} (f : A -> bool) (l : list A) x : find f l = Some x <->
  exists i, l !! i = Some x /\ f x = true /\ forall j y, j < i -> l !! j = Some y -> f y = false.
Proof.
  induction l as [|a l IH]; cbn [find].
  - split; [done|]. by intros (i & ? & _).
  - destruct (f a) eqn:E.
    + split.
      * intros [= <-]. exists 0. split_and!; [done..|]. intros j y Hj. lia.
      * intros ([|i] & Hi & Hx & Hj); [done|]. by specialize (Hj 0 a ltac:(lia) eq_refl); congruence.
    + rewrite IH. split.
      * intros (i & Hi & Hx & Hj). exists (S i). split_and!; [done..|]. intros [|j] y Hlt Hy; [by injection Hy as <-|]. apply (Hj j); [lia|done].
      * intros ([|i] & Hi & Hx & Hj); [cbn in Hi; congruence|]. exists i. split_and!; [done..|]. intros j y Hlt Hy. apply (Hj (S j)); [lia|done].
Qed.

Lemma find_no {A} (f : A -> bool) (l : list A) : find f l = None <-> forall x, x ∈ l -> f x = false.
Proof.
  split; [intros H x Hx; apply (find_none f l H); by apply list_elem_of_In|].
  intros H. destruct (find f l) as [x|] eqn:E; [|done]. apply find_some in E as [Hx E]. rewrite H in E; [done|by apply list_elem_of_In].
Qed.

(** The first file for the first pattern that matches any. *)
Definition chosen (ps : list pat) (files : list pystr) (f : pystr) : Prop :=
  exists k i p, ps !! k = Some p /\ files !! i = Some f /\ re_search p f = true /\
    (forall j f', j < i -> files !! j = Some f' -> re_search p f' = false) /\
    (forall j p' f', j < k -> ps !! j = Some p' -> f' ∈ files -> re_search p' f' = false).

Lemma first_match_chosen ps files f : first_match ps files = Some f -> chosen ps files f.
Proof.
  induction ps as [|p ps IH]; cbn [first_match]; [done|]. destruct (find_lib p files) as [g|] eqn:E.
  - intros [= <-]. apply find_first in E as (i & Hi & Hf & Hj). exists 0, i, p. split_and!; [done..|]. intros j p' f' Hlt. lia.
  - intros H. destruct (IH H) as (k & i & q & Hk & Hi & Hf & H1 & H2). exists (S k), i, q. split_and!; [done..|].
    intros [|j] p' f' Hlt Hp Hf'; [|eapply H2; [|done..]; lia]. injection Hp as <-. by apply (proj1 (find_no _ files) E).
Qed.

Lemma first_match_none ps files : first_match ps files = None <-> forall p f, p ∈ ps -> f ∈ files -> re_search p f = false.
Proof.
  induction ps as [|p ps IH]; cbn [first_match]; [split; [set_solver|done]|]. destruct (find_lib p files) as [g|] eqn:E.
  - split; [done|]. intros H. apply find_first in E as (i & Hi & Hf & _). rewrite (H p g) in Hf; [done|by left|by eapply list_elem_of_lookup_2].
  - rewrite IH. unfold find_lib in E. rewrite find_no in E. split; [|intros H q f Hq; apply H; by right].
    intros H q f [->|Hq]%list.elem_of_cons Hf; [by apply E|by apply H].
Qed.

(** ** The names that are given to the linker *)

Lemma before_last_dot_app n e : "."%char ∉ e -> before_last_dot (n ++ "."%char :: e) = Some n.
Proof.
  intros He. assert (before_last_dot e = None) as E.
  { induction e as [|c e IH]; [done|]. apply list.not_elem_of_cons in He as [Hc He]. cbn. by rewrite IH, decide_False by done. }
  induction n as [|c n IH]; cbn; [by rewrite E|by rewrite IH].
Qed.

Lemma before_last_dot_no s : "."%char ∉ s -> before_last_dot s = None.
Proof. induction s as [|c s IH]; [done|]. intros [Hc Hs]%list.not_elem_of_cons. cbn. by rewrite IH, decide_False by done. Qed.

Lemma before_last_dot_some s n : before_last_dot s = Some n -> exists e, s = n ++ "."%char :: e /\ "."%char ∉ e.
Proof.
  revert n. induction s as [|c s IH]; cbn; [done|]. intros n. destruct (before_last_dot s) as [m|] eqn:E.
  - intros [= <-]. destruct (IH m eq_refl) as (e & -> & He). by exists e.
  - case_decide as Hc; [|done]. intros [= <-]. exists s. split; [by rewrite Hc|]. intros Hs. clear IH c Hc.
    induction s as [|c s IH]; [by apply elem_of_nil in Hs|]. cbn in E. destruct (before_last_dot s); [done|]. case_decide; [done|].
    apply list.elem_of_cons in Hs as [?|?]; [congruence|by apply IH].
Qed.

(** The name [g] without what follows its last dot, or without its last character. *)
Definition cut (g n : pystr) : Prop :=
  (exists e, g = n ++ "."%char :: e /\ "."%char ∉ e) \/ ("."%char ∉ g /\ n = take (length g - 1) g).

(** What the linker is given for the file [f]: [NAME] for [libNAME.so], with [msvc] [libNAME]. *)
Definition linked (CC_NAME f n : pystr) : Prop :=
  (CC_NAME <> $"msvc" /\ exists g, f = $"lib" ++ g /\ cut g n) \/
  ((CC_NAME = $"msvc" \/ ~ exists g, f = $"lib" ++ g) /\ cut f n).

Lemma format_lib_name_linked CC_NAME f : linked CC_NAME f (format_lib_name CC_NAME f).
Proof.
  assert (forall g, cut g match before_last_dot g with Some r => r | None => take (length g - 1) g end) as Hc.
  { intros g. destruct (before_last_dot g) as [n|] eqn:E; [left; by apply before_last_dot_some|right; split; [|done]].
    intros Hd. apply list_elem_of_split in Hd as (l1 & l2 & ->). assert (exists r, before_last_dot (l1 ++ "."%char :: l2) = Some r) as [? ?]; [|congruence].
    clear. induction l1 as [|c l1 [r IH]]; cbn; [destruct (before_last_dot l2); eauto|rewrite IH; eauto]. }
  unfold format_lib_name, linked. destruct (startswith f $"lib") eqn:Es; cbn [andb].
  - destruct (proj1 (startswith_spec _ _) Es) as [g ->]. case_bool_decide; cbn [negb]; [right; by eauto|left; split; [done|]]. exists g. split; [done|]. apply Hc.
  - right. split; [right|apply Hc]. intros [g Hg]. rewrite (proj2 (startswith_spec _ _)) in Es by by exists g. done.
Qed.

(** ** The names in a text *)

(** The text has these names, with blanks between them. *)
Inductive in_text : list pystr -> pystr -> Prop :=
| no_name b : Forall (fun c => is_ws c = true) b -> in_text [] b
| one_name b w ws s : Forall (fun c => is_ws c = true) b -> w <> [] -> Forall (fun c => is_ws c = false) w ->
    (s = [] \/ exists c s', s = c :: s' /\ is_ws c = true) -> in_text ws s -> in_text (w :: ws) (b ++ w ++ s).

Lemma words_blanks b s : Forall (fun c => is_ws c = true) b -> words (b ++ s) = words s.
Proof. induction 1 as [|c b Hc _ IH]; [done|]. rewrite <- IH. unfold words. cbn. by rewrite Hc. Qed.

Lemma words_name w s : w <> [] -> Forall (fun c => is_ws c = false) w -> (s = [] \/ exists c s', s = c :: s' /\ is_ws c = true) ->
  words (w ++ s) = w :: words s.
Proof.
  intros Hw Hb Hs. unfold words. rewrite fmap_app.
  assert ((fun c => if is_ws c then " "%char else c) <$> w = w) as ->.
  { clear Hw. induction Hb as [|c w Hc _ IH]; [done|]. cbn. by rewrite Hc, IH. }
  assert (" "%char ∉ w) as Hn by by intros Hin; apply (proj1 (list.Forall_forall _ _) Hb) in Hin.
  destruct Hs as [-> |(c & s' & -> & Hc)].
  - cbn [fmap list_fmap]. rewrite app_nil_r, split_on_no by done. by rewrite filter_cons_True.
  - cbn [fmap list_fmap]. by rewrite Hc, split_on_app, filter_cons_True by done.
Qed.

Lemma words_in_text ws s : in_text ws s -> words s = ws.
Proof.
  induction 1 as [b Hb|b w ws s Hb Hw Hn Hs _ IH].
  - rewrite <- (app_nil_r b). by rewrite words_blanks.
  - rewrite words_blanks by done. rewrite words_name by done. by rewrite IH.
Qed.

(** The characters with a meaning in an expression, but the dot. *)
Definition specials : pystr := $"\^$*+?{}[]|()".
Definition plain (s : pystr) : Prop := Forall (fun c => c ∉ specials) s.

(** ** The files of a library *)

Section match_libs.
Variables (CC_NAME : pystr) (shlib stlib_pattern : pystr * pystr) (kw : params) (files : list pystr) (toolset version : pystr) (is_static : bool).

#[local] Notation match_libs names := (match_libs CC_NAME shlib stlib_pattern kw files toolset version names is_static).

(** What the name of a file has of the multi-threading, of the static library and of the ABI. *)
Definition tag_text : pystr :=
  (if mt kw then $"-mt" else []) ++ (if is_static then $"-s" else if bool_decide (abi kw = []) then [] else $"-") ++ abi kw.
Definition ext_text : pystr := snd (if is_static then stlib_pattern else shlib).

(** [-gcc7]: the toolset with at most three digits of its version. *)
Definition with_toolset (s : pystr) : Prop :=
  exists t d, s = t ++ d /\ reads ("-"%char :: toolset) t /\ length d <= 3 /\ Forall (fun c => is_digit c = true) d.

(** What may follow the name of a library, from the strictest: toolset, tags, version and extension;
    without the toolset; without the version; without either; the extension only; anything. *)
Definition ending (k : nat) (s : pystr) : Prop :=
  exists tool tags v ext fin, s = tool ++ tags ++ v ++ ext ++ fin /\
    match k with
    | 0 => with_toolset tool /\ reads tag_text tags /\ reads ("-"%char :: version) v /\ reads ext_text ext /\ at_end fin
    | 1 => tool = [] /\ reads tag_text tags /\ reads ("-"%char :: version) v /\ reads ext_text ext /\ at_end fin
    | 2 => with_toolset tool /\ reads tag_text tags /\ v = [] /\ reads ext_text ext /\ at_end fin
    | 3 => tool = [] /\ reads tag_text tags /\ v = [] /\ reads ext_text ext /\ at_end fin
    | 4 => tool = [] /\ tags = [] /\ v = [] /\ reads ext_text ext /\ at_end fin
    | 5 => True
    | _ => False
    end.

Definition fits (k : nat) (lib f : pystr) : Prop :=
  exists before name rest, f = before ++ name ++ rest /\ reads ($"boost_" ++ lib) name /\ ending k rest.

(** The first file that fits best. *)
Definition best_file (lib f : pystr) : Prop :=
  exists k i, files !! i = Some f /\ fits k lib f /\ (forall j g, j < i -> files !! j = Some g -> ~ fits k lib g) /\
    (forall j g, j < k -> g ∈ files -> ~ fits j lib g).

Definition missing (lib : pystr) : Prop := forall f, f ∈ files -> ~ fits 5 lib f.

(** The files of the libraries that are there, in the order of their names. *)
Inductive files_of : list pystr -> list pystr -> Prop :=
| no_lib : files_of [] []
| lib_there lib f libs fs : best_file lib f -> files_of libs fs -> files_of (lib :: libs) (f :: fs)
| lib_missing lib libs fs : missing lib -> files_of libs fs -> files_of (lib :: libs) fs.

#[local] Notation pats lib := (patterns lib (p_seq (p_text ("-"%char :: toolset)) (p_digits 3)) (p_text (tags_pat kw is_static)) ("-"%char :: version) ext_text).

Lemma tags_pat_text : tags_pat kw is_static = tag_text.
Proof using. unfold tags_pat, tag_text. destruct (abi kw); destruct is_static; done. Qed.

(** A sequence of patterns matches at the beginning of a text. *)
#[local] Notation admits ps s := (exists r, r ∈ p_seqs ps s).

Lemma admits_text w ps s : admits (p_text w :: ps) s <-> exists t s', s = t ++ s' /\ reads w t /\ admits ps s'.
Proof using. setoid_rewrite p_seqs_elem. setoid_rewrite p_text_elem. naive_solver. Qed.

Lemma admits_toolset ps s :
  admits (p_seq (p_text ("-"%char :: toolset)) (p_digits 3) :: ps) s <-> exists t s', s = t ++ s' /\ with_toolset t /\ admits ps s'.
Proof using.
  setoid_rewrite p_seqs_elem. setoid_rewrite p_seq_elem. setoid_rewrite p_text_elem. setoid_rewrite p_digits_elem. unfold with_toolset. split.
  - intros (r & m & (m' & (t & -> & Ht) & d & -> & Hd) & Hr). exists (t ++ d), m. rewrite app_assoc. eauto 10.
  - intros (? & m & -> & (t & d & -> & Ht & Hd) & r & Hr). exists r, m. split; [|done]. exists (d ++ m). rewrite <- app_assoc. split; [by exists t|by exists d].
Qed.

Lemma admits_eol s : admits [p_eol] s <-> at_end s.
Proof using. setoid_rewrite p_seqs_elem. setoid_rewrite p_eol_elem. setoid_rewrite p_seqs_nil_elem. naive_solver. Qed.

(** A pattern that begins with the name of a library. *)
Lemma search_fits lib ps k f : (forall s, admits ps s <-> ending k s) ->
  re_search (p_seqs (p_text ($"boost_" ++ lib) :: ps)) f = true <-> fits k lib f.
Proof using.
  intros Hps. rewrite re_search_elem. unfold fits. setoid_rewrite <- Hps. split.
  - intros (u & t & r & -> & Hr). destruct (proj1 (admits_text _ _ _) (ex_intro _ r Hr)) as (n & s' & -> & Hn & Ha). by exists u, n, s'.
  - intros (u & n & s' & -> & Hn & Ha). destruct (proj2 (admits_text ($"boost_" ++ lib) ps (n ++ s'))) as [r Hr]; [by eauto|]. by exists u, (n ++ s'), r.
Qed.

Ltac rejoin :=
  intros (? & ? & ? & ? & ? & -> & ?); destruct_and?; subst; cbn [app];
  repeat (eexists _, _; split; [reflexivity|split; [eassumption|]]); assumption.

Lemma pats_fit lib k p f : pats lib !! k = Some p -> re_search p f = true <-> fits k lib f.
Proof using.
  intros Hk. unfold patterns in Hk. destruct k as [|[|[|[|[|[|k]]]]]]; cbn [lookup list_lookup] in Hk; [apply (inj Some) in Hk as <-..|done].
  1-5: apply search_fits; intros s; unfold ending; repeat (setoid_rewrite admits_text || setoid_rewrite admits_toolset); setoid_rewrite admits_eol;
       rewrite ?tags_pat_text.
  - split; [intros (t & ? & -> & ? & g & ? & -> & ? & v & ? & -> & ? & x & e & -> & ? & ?); by exists t, g, v, x, e|rejoin].
  - split; [intros (g & ? & -> & ? & v & ? & -> & ? & x & e & -> & ? & ?); by exists [], g, v, x, e|rejoin].
  - split; [intros (t & ? & -> & ? & g & ? & -> & ? & x & e & -> & ? & ?); by exists t, g, [], x, e|rejoin].
  - split; [intros (g & ? & -> & ? & x & e & -> & ? & ?); by exists [], g, [], x, e|rejoin].
  - split; [intros (x & e & -> & ? & ?); by exists [], [], [], x, e|rejoin].
  - rewrite re_search_elem. setoid_rewrite p_text_elem. unfold fits, ending. split; [|naive_solver].
    intros (u & ? & r & -> & t & -> & Ht). exists u, t, r. split_and!; [done..|]. by exists [], [], [], [], r.
Qed.

Lemma first_match_best lib :
  match first_match (pats lib) files with Some f => best_file lib f | None => missing lib end.
Proof using.
  destruct (first_match _ _) as [f|] eqn:E.
  - apply first_match_chosen in E as (k & i & p & Hk & Hi & Hf & H1 & H2). exists k, i. split_and!; [done|by apply (pats_fit _ _ _ _ Hk)|..].
    + intros j g Hj Hg Hfit. apply (pats_fit _ _ _ _ Hk) in Hfit. by rewrite (H1 j g Hj Hg) in Hfit.
    + intros j g Hj Hg Hfit. destruct (lookup_lt_is_Some_2 (pats lib) j) as [q Hq]; [apply lookup_lt_Some in Hk; lia|].
      apply (pats_fit _ _ _ _ Hq) in Hfit. by rewrite (H2 j q g Hj Hq Hg) in Hfit.
  - intros f Hf Hfit. assert (pats lib !! 5 = Some (p_text ($"boost_" ++ lib))) as H5 by done. apply (pats_fit _ _ _ _ H5) in Hfit.
    rewrite (proj1 (first_match_none _ _) E _ f (list_elem_of_lookup_2 _ _ _ H5) Hf) in Hfit. done.
Qed.

(** C40 - For the libraries of a list of names, the one of Python apart, in whose texts the only
    character of an expression is the dot: each library there is a file of is given to the linker
    by the first file, in the order of the files, that fits it best.  A name fits first with
    toolset, tags, version and extension, then without the toolset, without the version, without
    either, with the extension alone, and last with anything after the name of the library.  A
    library without a file is left out when the libraries are not required; when they are, it is
    fatal, and nothing else is. *)
Theorem match_libs_spec names libs : in_text libs names -> $"python" ∉ libs -> Forall plain (toolset :: version :: abi kw :: ext_text :: libs) ->
  match match_libs names with
  | Ok l => exists fs, files_of libs fs /\ Forall2 (linked CC_NAME) fs l /\ (required kw = true -> length fs = length libs)
  | Err e => e = BareException $"The configuration failed" /\ required kw = true /\ exists lib, lib ∈ libs /\ missing lib
  end.
Proof using.
  intros Ht Hp _. unfold Boost.match_libs. rewrite (words_in_text _ _ Ht). clear Ht. induction libs as [|lib libs IH]; cbn [match_loop].
  { exists []. split_and!; [constructor|constructor|done]. }
  apply list.not_elem_of_cons in Hp as [Hl Hp]. specialize (IH Hp). pose proof (first_match_best lib) as Hf.
  unfold Boost.lib_patterns at 1. rewrite decide_False by done. cbn [rbind]. change (snd _) with ext_text.
  destruct (first_match _ files) as [f|].
  - destruct (match_loop _ _ _ _ _ _ _ _ libs) as [l|e]; cbn [rbind].
    + destruct IH as (fs & H1 & H2 & H3). exists (f :: fs). split_and!; [by constructor|constructor; [apply format_lib_name_linked|done]|].
      intros Hr. cbn. by rewrite H3.
    + destruct IH as (-> & H1 & x & Hx & Hm). split_and!; [done..|]. exists x. split; [by right|done].
  - destruct (required kw) eqn:Er; [split_and!; [done..|]; exists lib; split; [by left|done]|].
    destruct (match_loop _ _ _ _ _ _ _ _ libs) as [l|e]; [|destruct IH as (_ & ? & _); done].
    destruct IH as (fs & H1 & H2 & _). exists fs. split_and!; [by constructor|done..].
Qed.

End match_libs.

(** ** The directory of the libraries *)

Section boost.
Variables (PLATFORM CXX_NAME CXX_0 CC_NAME : pystr) (has_CXX : bool) (INCLUDE_var LIB_var : pystr).
Variable version_file : pystr -> option (py pystr).
Variable check_version : pystr -> py pystr.
Variable find_dir : pystr -> option (pystr * list pystr).
Variables cxxshlib_PATTERN cxxstlib_PATTERN : pystr * pystr.
Variable listdir : pystr -> list pystr.
Variable check_cxx : fragment -> env -> bool.

Definition candidates (ds : list pystr) : list pystr := filter (fun d => d <> []) ds ≫= fun d => [d; d ++ $"64"].

Definition with_files (d : pystr) : bool := match find_dir d with Some (_, _ :: _) => true | _ => false end.

(** The first candidate with files; without one, the path is that of the last. *)
Lemma search_dirs_spec ds path files :
  match find with_files (candidates ds) with
  | Some d => exists p fs, find_dir d = Some (p, fs) /\ fs <> [] /\ search_dirs find_dir ds path files = (Some p, Some fs)
  | None => fst (search_dirs find_dir ds path files) = match last (candidates ds) with Some d => fst <$> find_dir d | None => path end /\
      (forall fs, snd (search_dirs find_dir ds path files) = Some fs -> fs = [] \/ files = Some fs)
  end.
Proof using find_dir.
  revert path files. induction ds as [|d ds IH]; intros path files; [cbn; auto|].
  unfold candidates. destruct (decide (d = [])) as [->|Hd].
  { rewrite filter_cons_False by (intros H; by apply H). apply IH. }
  rewrite filter_cons_True by done. cbn [mbind list_bind app find]. fold (candidates ds). cbn [search_dirs].
  rewrite decide_False by done. unfold with_files at 1 2.
  assert (forall x y : pystr, last (x :: y :: candidates ds) = match last (candidates ds) with Some z => Some z | None => Some y end) as Hlast.
  { intros x y. destruct (candidates ds) as [|z zs]; [done|]. rewrite !last_cons_cons. rewrite last_cons. by destruct (last zs). }
  assert (forall a b, (b = files \/ b = Some []) -> find_dir (d ++ $"64") = None \/ (exists p, find_dir (d ++ $"64") = Some (p, []) /\ a = Some p) ->
    (find_dir (d ++ $"64") = None -> a = None) ->
    match find with_files (candidates ds) with
    | Some d => exists p fs, find_dir d = Some (p, fs) /\ fs <> [] /\ search_dirs find_dir ds a b = (Some p, Some fs)
    | None => fst (search_dirs find_dir ds a b) = match last (d :: (d ++ $"64") :: candidates ds) with Some d => fst <$> find_dir d | None => path end /\
        (forall fs, snd (search_dirs find_dir ds a b) = Some fs -> fs = [] \/ files = Some fs)
    end) as Hstep.
  { intros a b Hb Ha Hn. specialize (IH a b). destruct (find with_files (candidates ds)); [exact IH|]. destruct IH as [IH1 IH2].
    rewrite IH1, Hlast. split.
    - destruct (last (candidates ds)); [done|]. destruct Ha as [Ha|(p & Ha & ->)]; rewrite Ha; [by apply Hn|done].
    - intros fs Hfs. destruct (IH2 fs Hfs) as [?|H]; [by left|]. destruct Hb as [->| ->]; [by right|left; congruence]. }
  destruct (find_dir d) as [[p [|f fs]]|] eqn:E1; [|exists p, (f :: fs); by rewrite E1|];
    (destruct (find_dir (d ++ $"64")) as [[p' [|f' fs']]|] eqn:E2; [|exists p', (f' :: fs'); by rewrite E2|]);
    apply Hstep; eauto; done.
Qed.

Definition lib_dirs : list pystr := split_on ";"%char LIB_var ++ BOOST_LIBS.

#[local] Notation boost_get_libs := (boost_get_libs PLATFORM CXX_NAME CXX_0 CC_NAME LIB_var find_dir cxxshlib_PATTERN cxxstlib_PATTERN).
#[local] Notation check_boost := (check_boost PLATFORM CXX_NAME CXX_0 CC_NAME has_CXX INCLUDE_var LIB_var version_file check_version find_dir
  cxxshlib_PATTERN cxxstlib_PATTERN listdir check_cxx).

Lemma last_candidate : last (candidates lib_dirs) = Some $"/lib64".
Proof using LIB_var.
  unfold candidates, lib_dirs. rewrite filter_app, bind_app, last_app. done.
Qed.

(** Where no directory has files of Boost and [/lib64] is no directory, the search raises
    something else than a failure of the configuration, also when nothing is required. *)
Theorem no_libraries_raises kw version : required kw = false -> files kw = None -> libs kw = [] ->
  find with_files (candidates lib_dirs) = None -> find_dir $"/lib64" = None ->
  exists e, boost_get_libs kw version = Err e /\ e ∈ [UnboundLocalError; AttributeError; TypeError].
Proof using PLATFORM CXX_NAME CXX_0 CC_NAME LIB_var find_dir cxxshlib_PATTERN cxxstlib_PATTERN.
  clear version_file check_version listdir check_cxx. intros Hr Hf Hl Hn H64. pose proof (search_dirs_spec lib_dirs None None) as Hs. rewrite Hn, last_candidate, H64 in Hs. cbn in Hs.
  destruct Hs as [Hp Hfs]. unfold Boost.boost_get_libs, boost_get_libs_path. rewrite Hf, Hl, Hr. fold lib_dirs.
  rewrite decide_True by done. cbn [rbind]. destruct (search_dirs find_dir lib_dirs None None) as [path fs]. cbn in Hp, Hfs. subst path.
  destruct fs as [fs|]; [|eexists; split; [done|rewrite !list.elem_of_cons; tauto]]. destruct (Hfs fs eq_refl) as [-> |?]; [|done].
  rewrite andb_false_r. cbn [negb raise_unless rbind]. rewrite (bool_decide_true (None = None \/ _)) by (by left). cbn [rbind raise_unless].
  unfold boost_get_toolset. case_decide; cbn [rbind or_raise]; eexists; (split; [done|rewrite !list.elem_of_cons; tauto]).
Qed.

(** ** [check_boost] *)

Lemma try_flags_links kw l e e' : try_flags check_cxx kw l e = (e', Ok tt) ->
  try_link check_cxx kw e' = true /\ exists f, f ∈ l /\ e' = add_cxxflags f e.
Proof.
  induction l as [|f l IH]; cbn [try_flags]; [done|]. unfold gbind at 1, mget at 1. destruct (try_link check_cxx kw (add_cxxflags f e)) eqn:E.
  - intros [= <-]. split; [done|]. exists f. split; [by left|done].
  - intros H. destruct (IH H) as (H1 & g & Hg & H2). split; [done|]. exists g. split; [by right|done].
Qed.

(** What a successful check leaves: the headers with their version, and, when libraries are
    asked for, what was found of them, with which the test programs have linked. *)
Theorem check_boost_spec kw_toolset kw e e' : check_boost kw_toolset kw e = (e', Ok tt) ->
  exists inc v, boost_get_includes INCLUDE_var version_file (includes kw) = Ok inc /\ boost_get_version version_file check_version inc = Ok v /\
    INCLUDES e' = Some inc /\ BOOST_VERSION e' = v /\
    if decide (lib kw = [] /\ stlib kw = []) then e' = set_version v (set_includes inc e)
    else exists path l sl, boost_get_libs kw v = Ok (path, l, sl) /\ try_link check_cxx kw e' = true /\ STLIBPATH e' = Some [path] /\
      ((LIB e' = Some l /\ STLIB e' = Some sl /\ LIBPATH e' = Some [path]) \/ (LIB e' = None /\ STLIB e' = Some l /\ LIBPATH e' = None)).
Proof.
  unfold Boost.check_boost. destruct has_CXX; [|done]. cbn [negb]. unfold gbind at 1, mlift at 1.
  destruct (boost_get_includes _ _ _) as [inc|?] eqn:Ei; [|done]. unfold gbind at 1, mset at 1. unfold gbind at 1, mlift at 1.
  destruct (boost_get_version _ _ _) as [v|?] eqn:Ev; [|done]. unfold gbind at 1, mset at 1.
  intros H. exists inc, v. split; [done|]. split; [done|]. revert H. case_decide as D; [by intros [= <-]|]. unfold gbind at 1, mlift at 1.
  destruct (boost_get_libs kw v) as [[[path l] sl]|?] eqn:El; [|done]. unfold gbind at 1, mset at 1.
  set (e1 := set_libs _ _ _ _ _). destruct (linkage_autodetect kw).
  - unfold gbind at 1, mlift at 1. destruct (boost_get_toolset _ _ _ _) as [t|?]; [|done]. case_decide; [|done]. unfold gbind at 1, mset at 1.
    intros Hf. destruct (existsb _ _); unfold gbind, mret, mset in Hf; apply try_flags_links in Hf as (H1 & f & _ & ->);
      (split; [done|]); (split; [done|]); exists path, l, sl; split_and!; auto.
  - unfold gbind at 1, mget at 1. destruct (try_link check_cxx kw e1) eqn:Et; [|done]. intros [= <-].
    split; [done|]. split; [done|]. exists path, l, sl. split_and!; auto.
Qed.

End boost.

(** ** A configuration *)

Definition demo_kw : params :=
  {| lib := $"system thread"; stlib := []; includes := []; libs := []; abi := []; toolset := []; python := $"36"; mt := false; required := true;
     linkage_autodetect := false; files := None |}.

Definition demo_files : list pystr :=
  [$"libboost_python-py36.so"; $"libboost_thread.so.1.65.1"; $"libboost_system.so.1.65.1"; $"libboost_thread.so"; $"libboost_system.so"; $"libboost_system.a"].

Definition demo_dirs (d : pystr) : option (pystr * list pystr) := if decide (d = $"/usr/lib") then Some (d, demo_files) else None.
Definition demo_version (d : pystr) : option (py pystr) :=
  if decide (d = $"/usr/local/include") then Some (Ok ($"// version" ++ [NL] ++ $"#define BOOST_LIB_VERSION " ++ dquote ++ $"1_65_1" ++ dquote)) else None.
Definition demo_check (system thread : bool) : params -> env -> env * py () :=
  check_boost $"linux" $"gcc" $"/usr/bin/g++" $"gcc" true [] [] demo_version (fun _ => fatal) demo_dirs ($"lib", $".so") ($"lib", $".a") (fun _ => demo_files)
    (fun f _ => match f with BOOST_ERROR_CODE => system | BOOST_THREAD_CODE => thread end) [].

Definition empty_env : env :=
  {| INCLUDES := None; BOOST_VERSION := []; LIBPATH := None; STLIBPATH := None; LIB := None; STLIB := None; DEFINES := []; CXXFLAGS := [] |}.

Definition demo_env : env := (demo_check true true demo_kw empty_env).1.

Example demo_check_boost : demo_env =
  {| INCLUDES := Some $"/usr/local/include"; BOOST_VERSION := $"1_65_1"; LIBPATH := Some [$"/usr/lib"]; STLIBPATH := Some [$"/usr/lib"];
     LIB := Some [$"boost_system"; $"boost_thread"]; STLIB := Some []; DEFINES := []; CXXFLAGS := [] |}.
Proof. vm_compute. reflexivity. Qed.

(** The tags of the version of Python: [-py36] is taken, [-py35] is not. *)
Example demo_python :
  first_match (patterns $"python" (p_text $"-gcc") (python_tags [] $"36" "3") $"-1_65_1" $".so")
    [$"libboost_python-py35.so"; $"libboost_python-py36.so"] = Some $"libboost_python-py36.so".
Proof. vm_compute. reflexivity. Qed.

(** A compiler that the table does not know, as the [icc] of Intel is named by waf. *)
Example icc_raises : boost_get_toolset $"linux" $"icc" $"icpc" [] = Err TypeError.
Proof. reflexivity. Qed.

Lemma match_libs_spec_witness :
  match match_libs $"gcc" ($"lib", $".so") ($"lib", $".a") demo_kw demo_files $"gcc" $"1_65_1" $"system thread" false with
  | Ok l => exists fs, files_of ($"lib", $".so") ($"lib", $".a") demo_kw demo_files $"gcc" $"1_65_1" false [$"system"; $"thread"] fs /\
      Forall2 (linked $"gcc") fs l /\ length fs = 2
  | Err _ => False
  end.
Proof.
  pose proof (match_libs_spec $"gcc" ($"lib", $".so") ($"lib", $".a") demo_kw demo_files $"gcc" $"1_65_1" false
    $"system thread" [$"system"; $"thread"]) as H.
  assert (in_text [$"system"; $"thread"] $"system thread") as Hw.
  { apply (one_name [] $"system" [$"thread"] $" thread"); [constructor|discriminate|repeat constructor|right; by exists " "%char, $"thread"|].
    apply (one_name $" " $"thread" [] []); [repeat constructor|discriminate|repeat constructor|by left|apply no_name; constructor]. }
  specialize (H Hw ltac:(by apply (bool_decide_unpack _)) ltac:(by apply (bool_decide_unpack _))).
  destruct (match_libs _ _ _ _ _ _ _ _ _) as [l|e] eqn:E.
  - destruct H as (fs & H1 & H2 & H3). exists fs. split_and!; [exact H1|exact H2|exact (H3 eq_refl)].
  - exfalso. revert E. vm_compute. discriminate.
Defined.

(** Any name may follow that of the library: the comment on the tags of Python says that [-py3]
    and [-py26] are rejected, and the last pattern takes them. *)
Example other_python :
  match_libs $"gcc" ($"lib", $".so") ($"lib", $".a")
    {| lib := []; stlib := []; includes := []; libs := []; abi := []; toolset := []; python := $"27"; mt := false; required := true;
       linkage_autodetect := false; files := None |} [$"libboost_python-py26.so"; $"libboost_python-py3.so"] $"gcc" $"1_65_1" $"python" false
  = Ok [$"boost_python-py26"].
Proof. vm_compute. reflexivity. Qed.

Lemma no_libraries_raises_witness : exists e,
  boost_get_libs $"linux" $"gcc" $"g++" $"gcc" [] (fun _ => None) ($"lib", $".so") ($"lib", $".a")
    {| lib := $"system"; stlib := []; includes := []; libs := []; abi := []; toolset := []; python := $"36"; mt := false; required := false;
       linkage_autodetect := false; files := None |} $"1_65_1" = Err e /\ e ∈ [UnboundLocalError; AttributeError; TypeError].
Proof. apply no_libraries_raises; [reflexivity|reflexivity|reflexivity|vm_compute; reflexivity|reflexivity]. Defined.

Lemma check_boost_spec_witness : exists path l sl, LIB demo_env = Some l /\
  boost_get_libs $"linux" $"gcc" $"/usr/bin/g++" $"gcc" [] demo_dirs ($"lib", $".so") ($"lib", $".a") demo_kw $"1_65_1" = Ok (path, l, sl).
Proof.
  destruct (check_boost_spec $"linux" $"gcc" $"/usr/bin/g++" $"gcc" true [] [] demo_version (fun _ => fatal) demo_dirs ($"lib", $".so") ($"lib", $".a")
    (fun _ => demo_files) (fun f _ => match f with BOOST_ERROR_CODE => true | BOOST_THREAD_CODE => true end) [] demo_kw empty_env demo_env)
    as (inc & v & _ & _ & _ & Hv & H); [vm_compute; reflexivity|].
  assert (v = $"1_65_1") as -> by (rewrite <- Hv; vm_compute; reflexivity). rewrite decide_False in H by (by intros []).
  destruct H as (path & l & sl & E & _ & _ & [(H & _)|(H & _)]); [|vm_compute in H; discriminate]. exists path, l, sl. by split.
Defined.
