(* ===== verification/Misc.v ===== *)
(** * [waf-tools/misc.py]: substitution in files, and commands whose output is a file

    The tasks of the features [subst], [copy] and [command-output].  The nodes of waf are
    parameters, with the paths they give. *)

From S2P Require Import Prelude StateM.

(** [raise WafError(...)] *)
Definition WafError : exn := BareException $"WafError".

(** ** [subst_func] *)

(** [\w], on characters of 8 bits *)
Definition is_word (c : ascii) : bool :=
  let n := nat_of_ascii c in
  (48 <=? n) && (n <=? 57) || (65 <=? n) && (n <=? 90) || (97 <=? n) && (n <=? 122) || (n =? 95) ||
  bool_decide (n ∈ [170; 178; 179; 181; 185; 186; 188; 189; 190]) || (192 <=? n) && (n <=? 255) && negb ((n =? 215) || (n =? 247)).

(** [@(\w+)@] at the beginning of a text: the name, and the rest. *)
Definition m4_at (s : pystr) : option (pystr * pystr) :=
  match s with
  | c :: s =>
      if decide (c = "@"%char) then
        match span is_word s with
        | (n :: name, d :: r) => if decide (d = "@"%char) then Some (n :: name, r) else None
        | _ => None
        end
      else None
  | [] => None
  end.

(** A text, cut into characters and the names that [m4_re] finds. *)
Inductive m4_piece := Lit (c : ascii) | Name (n : pystr).

Fixpoint m4_cut (fuel : nat) (s : pystr) : list m4_piece :=
  match fuel with
  | O => []
  | S fuel =>
      match m4_at s with
      | Some (n, r) => Name n :: m4_cut fuel r
      | None => match s with [] => [] | c :: s => Lit c :: m4_cut fuel s end
      end
  end.

Definition m4_pieces (s : pystr) : list m4_piece := m4_cut (S (length s)) s.

(** [m4_re.findall(code)] and [m4_re.sub(r'%(\1)s', code)] *)
Definition m4_findall (s : pystr) : list pystr := omap (fun p => match p with Name n => Some n | Lit _ => None end) (m4_pieces s).
Definition m4_sub (s : pystr) : pystr := m4_pieces s ≫= fun p => match p with Name n => $"%(" ++ n ++ $")s" | Lit c => [c] end.

(** [code.replace('%', '%%')] *)
Definition double (s : pystr) : pystr := s ≫= fun c => if decide (c = "%"%char) then $"%%" else [c].

(** [s % di], for [%%] and [%(key)s] *)
Fixpoint percent_dict (fuel : nat) (di : gmap pystr pystr) (s : pystr) : py pystr :=
  match fuel with
  | O => Err OutOfFuel
  | S fuel =>
      match s with
      | [] => Ok []
      | c :: s =>
          if decide (c = "%"%char) then
            match s with
            | "%"%char :: s => let! r := percent_dict fuel di s in Ok ("%"%char :: r)
            | "("%char :: s =>
                match split_once ")"%char s with
                | Some (key, "s"%char :: s) =>
                    let! v := or_raise KeyError (di !! key) in
                    let! r := percent_dict fuel di s in Ok (v ++ r)
                | _ => Err ValueError
                end
            | _ => Err ValueError
            end
          else let! r := percent_dict fuel di s in Ok (c :: r)
      end
  end.

Definition format_dict (s : pystr) (di : gmap pystr pystr) : py pystr := percent_dict (S (length s)) di s.

Section subst.
(** [env.get_flat] *)
Variable get_flat : pystr -> pystr.

Definition value_of (i : pystr) : pystr := if decide (get_flat i = []) then get_flat (str_upper i) else get_flat i.

(** The task on a text: what it writes.  The dictionary is that of the task, or of its generator:
    the one object they share, which is filled when it is empty. *)
Definition subst_func (code : pystr) : stM (gmap pystr pystr) pystr :=
  let code := double code in
  let s := m4_sub code in
  mset (fun di => if decide (di = ∅) then foldl (fun di i => <[i := value_of i]> di) di (m4_findall code) else di) >>>
  do! di := mget (fun di => di) in
  mlift (format_dict s di).

(** The tasks of a generator, in the order in which they run; one that fails leaves the others. *)
Fixpoint run_tasks (codes : list pystr) (di : gmap pystr pystr) : list (py pystr) :=
  match codes with
  | [] => []
  | code :: codes => let '(di, r) := subst_func code di in r :: run_tasks codes di
  end.

End subst.

(** ** The tasks of [subst] and [copy] *)

Section copies.
Context {node : Type}.
(** [path.find_resource], [path.find_or_declare], [node.change_ext('')], [node.name] *)
Variables (find_resource : pystr -> option node) (find_or_declare : pystr -> node) (change_ext : node -> node) (name : node -> pystr).

(** The input and the output of each task. *)
Fixpoint make_tasks (output : node -> node) (lst : list pystr) : py (list (node * node)) :=
  match lst with
  | [] => Ok []
  | filename :: lst =>
      match find_resource filename with
      | None => Err WafError
      | Some n => let! l := make_tasks output lst in Ok ((n, output n) :: l)
      end
  end.

Definition apply_copy (source : list pystr) (target : pystr) : py (list (node * node)) :=
  make_tasks (fun n => find_or_declare (if decide (target = [] \/ 1 < length source) then name n else target)) source.

Definition apply_subst (source : list pystr) (target : pystr) : py (list (node * node)) :=
  make_tasks (fun n => if decide (target = []) then change_ext n else find_or_declare target) source.

End copies.

(** [copy_func]: the status; [copy2] may fail, and [chmod] is called unless it is 0. *)
Definition copy_func (copied : bool) (chmod : N) : Z * list N :=
  if copied then (0%Z, if decide (chmod = 0%N) then [] else [chmod]) else (1%Z, []).

(** ** [command-output] *)

(** [template % path], for a template of texts with [%s] and [%%]: one [%s] is needed. *)
Fixpoint format_rest (done : bool) (template path : pystr) : py pystr :=
  match template with
  | [] => if done then Ok [] else Err TypeError           (* not all arguments converted *)
  | "%"%char :: "%"%char :: t => let! r := format_rest done t path in Ok ("%"%char :: r)
  | "%"%char :: "s"%char :: t => if done then Err TypeError else let! r := format_rest true t path in Ok (path ++ r)
  | "%"%char :: _ => Err ValueError
  | c :: t => let! r := format_rest done t path in Ok (c :: r)
  end.

Definition template_path (template path : pystr) : py pystr := format_rest false template path.

Inductive arg_kind := input_file | output_file | input_dir | output_dir.

Section command_output.
Context {node : Type}.
Variables (abspath srcpath bldpath : node -> pystr).
Variables (find_resource find_or_declare find_dir : pystr -> option node).

Inductive cmd_arg := Plain (s : pystr) | Arg (k : arg_kind) (name template : pystr).

(** An argument once [find_node] has run. *)
Inductive found_arg := FPlain (s : pystr) | FArg (k : arg_kind) (n : node) (template : pystr).

(** The message of the error has one [%s] and two arguments: a TypeError. *)
Definition find_node (k : arg_kind) (name : pystr) : py node :=
  or_raise TypeError (match k with input_file => find_resource name | output_file => find_or_declare name | input_dir | output_dir => find_dir name end).

Definition get_path (absolute : bool) (a : found_arg) : py pystr :=
  match a with
  | FPlain s => Ok s
  | FArg input_file n t => template_path t (if absolute then abspath n else srcpath n)
  | FArg output_file n t => template_path t (if absolute then abspath n else bldpath n)
  | FArg _ n t => template_path t (abspath n)
  end.

(** The generator, after [init_cmd_output]. *)
Record generator := {
  command : option pystr; command_is_external : bool; argv : list cmd_arg; g_stdin : option pystr; g_stdout : option pystr; g_stderr : option pystr;
  hidden_inputs : list pystr; hidden_outputs : list pystr; no_inputs : bool; no_outputs : bool
}.

Record task := {
  t_command : pystr + node; t_args : list found_arg; t_stdin : option node; t_stdout : option node; t_stderr : option node;
  t_cwd : option pystr; t_inputs : list node; t_outputs : list node; always_run : bool
}.

Fixpoint find_args (l : list cmd_arg) : py (list found_arg) :=
  match l with
  | [] => Ok []
  | Plain s :: l => let! r := find_args l in Ok (FPlain s :: r)
  | Arg k name t :: l => let! n := find_node k name in let! r := find_args l in Ok (FArg k n t :: r)
  end.

Definition args_of (k : arg_kind) (l : list found_arg) : list node :=
  omap (fun a => match a, k with FArg input_file n _, input_file | FArg output_file n _, output_file => Some n | _, _ => None end) l.

Definition find_stream (find : pystr -> option node) (o : option pystr) : py (option node) :=
  match o with None => Ok None | Some f => let! n := or_raise WafError (find f) in Ok (Some n) end.

Fixpoint find_all (find : pystr -> option node) (l : list pystr) : py (list node) :=
  match l with [] => Ok [] | f :: l => let! n := or_raise WafError (find f) in let! r := find_all find l in Ok (n :: r) end.

(** The keyword [cwd] is not used: the directory is that of the variant. *)
Definition apply_cmd_output (variant_dir : pystr) (g : generator) : py task :=
  let! c := or_raise WafError (command g) in
  let! cmd := (if command_is_external g then Ok (inl c) else let! n := or_raise AssertionError (find_resource c) in Ok (inr n)) in
  let! args := find_args (argv g) in
  let! stdout := find_stream find_or_declare (g_stdout g) in
  let! stderr := find_stream find_or_declare (g_stderr g) in
  let! stdin := find_stream find_resource (g_stdin g) in
  let! hi := find_all find_resource (hidden_inputs g) in
  let! ho := find_all find_or_declare (hidden_outputs g) in
  let inputs := args_of input_file args ++ option_list stdin ++ hi in
  let outputs := args_of output_file args ++ option_list stdout ++ option_list stderr ++ ho in
  let! _ := raise_unless (negb (bool_decide (inputs = []) && negb (no_inputs g))) WafError in
  let! _ := raise_unless (negb (bool_decide (outputs = []) && negb (no_outputs g))) WafError in
  Ok {| t_command := cmd; t_args := args; t_stdin := stdin; t_stdout := stdout; t_stderr := stderr; t_cwd := Some variant_dir;
        t_inputs := inputs; t_outputs := outputs; always_run := bool_decide (inputs = []) |}.

(** What [run] gives to [Popen]: the words, the files that are opened, and the directory. *)
Record popen := { p_argv : list pystr; p_stdin : option pystr; p_stdout : option pystr; p_stderr : option pystr; p_cwd : option pystr }.

Fixpoint get_paths (absolute : bool) (l : list found_arg) : py (list pystr) :=
  match l with [] => Ok [] | a :: l => let! p := get_path absolute a in let! r := get_paths absolute l in Ok (p :: r) end.

Definition output_run (t : task) : py popen :=
  let absolute := match t_cwd t with Some _ => true | None => false end in
  let path n := if absolute then abspath n else bldpath n in
  let first := match t_command t with inl s => s | inr n => path n end in
  let! args := get_paths absolute (t_args t) in
  Ok {| p_argv := first :: args; p_stdin := path <$> t_stdin t; p_stdout := path <$> t_stdout t; p_stderr := path <$> t_stderr t; p_cwd := t_cwd t |}.

End command_output.

(** ** Cutting a text *)

Lemma span_word n s : Forall (fun c => is_word c = true) n -> span is_word (n ++ "@"%char :: s) = (n, "@"%char :: s).
Proof. induction 1 as [|c n Hc _ IH]; [done|]. cbn. by rewrite Hc, IH. Qed.

Lemma span_word_spec (f : ascii -> bool) s : s = fst (span f s) ++ snd (span f s) /\ Forall (fun c => f c = true) (fst (span f s)).
Proof.
  induction s as [|c s [IH1 IH2]]; [done|]. cbn. destruct (f c) eqn:E; [|done]. destruct (span f s) as [a b]. cbn in *. split; [by rewrite <- IH1|by constructor].
Qed.

Definition name_ok (n : pystr) : Prop := n <> [] /\ Forall (fun c => is_word c = true) n.

Lemma m4_at_spec s n r : m4_at s = Some (n, r) <-> s = "@"%char :: n ++ "@"%char :: r /\ name_ok n.
Proof.
  destruct s as [|c s]; cbn; [by split; [|intros []]|]. split.
  - case_decide as Hc; [|done]. pose proof (span_word_spec is_word s) as [E F]. destruct (span is_word s) as [[|x w] [|d u]]; try done.
    case_decide; [|done]. intros [= <- <-]. cbn in *. subst. split; [done|]. by split.
  - intros [[= -> ->] [Hn Hw]]. rewrite decide_True, span_word by done. destruct n; [done|]. by rewrite decide_True.
Qed.

Lemma m4_at_length s n r : m4_at s = Some (n, r) -> length r < length s.
Proof. intros [-> _]%m4_at_spec. cbn. rewrite length_app. cbn. lia. Qed.

Lemma cut_fuel fuel s : length s < fuel -> m4_cut fuel s = m4_pieces s.
Proof.
  unfold m4_pieces. revert s. assert (forall f g s, length s < f -> length s < g -> m4_cut f s = m4_cut g s) as H; [|intros s Hs; apply H; lia].
  induction f as [|f IH]; intros [|g] s Hf Hg; try lia. cbn [m4_cut]. destruct (m4_at s) as [[n r]|] eqn:E.
  - apply m4_at_length in E. f_equal. apply IH; lia.
  - destruct s as [|c s]; [done|]. cbn in *. f_equal. apply IH; lia.
Qed.

Lemma pieces_eq s : m4_pieces s =
  match m4_at s with Some (n, r) => Name n :: m4_pieces r | None => match s with [] => [] | c :: s => Lit c :: m4_pieces s end end.
Proof.
  unfold m4_pieces at 1. cbn [m4_cut]. destruct (m4_at s) as [[n r]|] eqn:E.
  - apply m4_at_length in E. by rewrite cut_fuel by lia.
  - destruct s as [|c s]; [done|]. by rewrite cut_fuel by (cbn; lia).
Qed.

Definition piece_ok (p : m4_piece) : Prop := match p with Name n => name_ok n | Lit _ => True end.

(** Induction on the pieces of a text. *)
Lemma pieces_ind (P : pystr -> Prop) :
  P [] -> (forall c s, m4_at (c :: s) = None -> P s -> P (c :: s)) -> (forall n r, name_ok n -> P r -> P ("@"%char :: n ++ "@"%char :: r)) -> forall s, P s.
Proof.
  intros H0 H1 H2 s. induction s as [s IH] using (induction_ltof1 _ length). unfold ltof in IH.
  destruct (m4_at s) as [[n r]|] eqn:E.
  - pose proof (m4_at_length _ _ _ E). apply m4_at_spec in E as [-> Hn]. apply H2; [done|]. by apply IH.
  - destruct s as [|c s]; [done|]. apply H1; [done|]. apply IH. cbn. lia.
Qed.

Lemma m4_at_name n r : name_ok n -> m4_at ("@"%char :: n ++ "@"%char :: r) = Some (n, r).
Proof. intros Hn. by apply m4_at_spec. Qed.

Lemma pieces_ok s : Forall piece_ok (m4_pieces s).
Proof.
  induction s as [|c s E IH|n r Hn IH] using pieces_ind; rewrite pieces_eq; [constructor| |].
  - rewrite E. by constructor.
  - rewrite m4_at_name by done. by constructor.
Qed.

(** ** Doubling the percent signs *)

Lemma double_cons c s : double (c :: s) = (if decide (c = "%"%char) then $"%%" else [c]) ++ double s.
Proof. done. Qed.

Lemma double_app s t : double (s ++ t) = double s ++ double t.
Proof. apply bind_app. Qed.

Lemma word_percent c : is_word c = true -> c <> "%"%char.
Proof. by intros H ->. Qed.

Lemma double_word n : Forall (fun c => is_word c = true) n -> double n = n.
Proof.
  induction 1 as [|c n Hc _ IH]; [done|]. rewrite double_cons, IH, decide_False; [done|]. by apply word_percent.
Qed.

Definition double_piece (p : m4_piece) : list m4_piece := match p with Lit c => Lit <$> (if decide (c = "%"%char) then $"%%" else [c]) | Name n => [Name n] end.

(** A name is found in the doubled text where it was in the text. *)
Lemma m4_at_double c s : m4_at (c :: s) = None -> c = "@"%char -> m4_at (double (c :: s)) = None.
Proof.
  intros E ->. destruct (m4_at (double _)) as [[n r]|] eqn:E'; [|done]. apply m4_at_spec in E' as [E' [Hn Hw]].
  rewrite double_cons, decide_False in E' by done. injection E' as E'. exfalso.
  assert (exists r', s = n ++ "@"%char :: r') as [r' ->].
  { clear E Hn. revert s E'. induction Hw as [|d n Hd _ IH]; intros s E'.
    - destruct s as [|d s]; [done|]. rewrite double_cons in E'. case_decide; [done|]. injection E' as -> _. by exists s.
    - destruct s as [|e s]; [done|]. rewrite double_cons in E'. case_decide as He.
      + cbn in E'. injection E' as <- _. done.
      + injection E' as -> E'. destruct (IH s E') as [r' ->]. by exists r'. }
  rewrite m4_at_name in E; [done|by split].
Qed.

Lemma pieces_double s : m4_pieces (double s) = m4_pieces s ≫= double_piece.
Proof.
  induction s as [|c s E IH|n r Hn IH] using pieces_ind; [done| |].
  - rewrite (pieces_eq (c :: s)), E. cbn [mbind list_bind]. change (mbind double_piece (m4_pieces s)) with (m4_pieces s ≫= double_piece). rewrite <- IH.
    destruct (decide (c = "@"%char)) as [->|Hc].
    + pose proof (m4_at_double "@" s E eq_refl) as E2. rewrite double_cons, decide_False in * by done. cbn [app] in *.
      rewrite (pieces_eq ("@"%char :: _)), E2. cbn [double_piece]. by rewrite decide_False.
    + assert (forall d t, d <> "@"%char -> m4_pieces (d :: t) = Lit d :: m4_pieces t) as Hl.
      { intros d t Hd. rewrite (pieces_eq (d :: t)). cbn. by rewrite decide_False. }
      rewrite double_cons. cbn [double_piece]. case_decide.
      * change ($"%%" ++ double s) with ("%" :: "%" :: double s)%char. by rewrite !Hl.
      * cbn [app fmap list_fmap]. by rewrite Hl.
  - rewrite (pieces_eq ("@"%char :: n ++ _)), m4_at_name by done. cbn [mbind list_bind double_piece app].
    change (mbind double_piece (m4_pieces r)) with (m4_pieces r ≫= double_piece). rewrite <- IH.
    rewrite double_cons, double_app, double_cons, double_word by apply Hn. rewrite !decide_False by done. cbn [app].
    by rewrite pieces_eq, m4_at_name.
Qed.

Lemma m4_findall_double s : m4_findall (double s) = m4_findall s.
Proof.
  unfold m4_findall. rewrite pieces_double. induction (m4_pieces s) as [|[c|n] ps IH]; [done| |]; cbn [mbind list_bind]; rewrite omap_app.
  - change (mbind double_piece ps) with (ps ≫= double_piece). rewrite IH. cbn [double_piece]. by case_decide.
  - change (mbind double_piece ps) with (ps ≫= double_piece). by rewrite IH.
Qed.

(** ** What is written *)

(** The text with its names replaced; a name that is not in the dictionary raises. *)
Fixpoint fill (di : gmap pystr pystr) (ps : list m4_piece) : py pystr :=
  match ps with
  | [] => Ok []
  | Lit c :: ps => let! r := fill di ps in Ok (c :: r)
  | Name n :: ps => let! v := or_raise KeyError (di !! n) in let! r := fill di ps in Ok (v ++ r)
  end.

Definition sub_piece (p : m4_piece) : pystr := match p with Name n => $"%(" ++ n ++ $")s" | Lit c => [c] end.

Lemma split_once_word n r : Forall (fun c => is_word c = true) n -> split_once ")"%char (n ++ ")"%char :: r) = Some (n, r).
Proof.
  induction 1 as [|c n Hc _ IH]; [done|]. cbn. rewrite decide_False by (by intros ->). by rewrite IH.
Qed.

Lemma percent_pieces di ps fuel : Forall piece_ok ps -> length ((ps ≫= double_piece) ≫= sub_piece) < fuel ->
  percent_dict fuel di ((ps ≫= double_piece) ≫= sub_piece) = fill di ps.
Proof.
  intros Hps. revert fuel. induction Hps as [|p ps Hp _ IH]; intros [|fuel] Hf; try (cbn in Hf; lia); [done|].
  destruct p as [c|n].
  - rewrite bind_cons, bind_app in *. destruct (decide (c = "%"%char)) as [->|Hc].
    + change ((double_piece (Lit "%") ≫= sub_piece) ++ ((ps ≫= double_piece) ≫= sub_piece))
        with ("%" :: "%" :: ((ps ≫= double_piece) ≫= sub_piece))%char in *.
      cbn [percent_dict fill]. rewrite decide_True by done. rewrite IH; [done|cbn in Hf; lia].
    + cbn [double_piece fmap list_fmap] in *. rewrite decide_False in * by done. cbn [fmap list_fmap mbind list_bind sub_piece app] in *.
      change (mbind sub_piece (mbind double_piece ps)) with ((ps ≫= double_piece) ≫= sub_piece) in *.
      cbn [percent_dict fill]. rewrite decide_False by done. rewrite IH; [done|cbn in Hf; lia].
  - rewrite bind_cons, bind_app in *.
    assert ((double_piece (Name n) ≫= sub_piece) ++ ((ps ≫= double_piece) ≫= sub_piece)
      = "%"%char :: "("%char :: n ++ ")"%char :: "s"%char :: ((ps ≫= double_piece) ≫= sub_piece)) as E.
    { cbn. rewrite !app_nil_r, <- !app_assoc. done. }
    rewrite E in *. cbn [percent_dict fill]. rewrite decide_True by done. rewrite split_once_word by apply Hp.
    rewrite IH; [done|]. cbn in Hf. rewrite length_app in Hf. cbn in Hf. lia.
Qed.

Lemma format_dict_spec di code : format_dict (m4_sub (double code)) di = fill di (m4_pieces code).
Proof.
  unfold format_dict. change (m4_sub (double code)) with (m4_pieces (double code) ≫= sub_piece). rewrite pieces_double.
  apply percent_pieces; [apply pieces_ok|lia].
Qed.

Lemma fill_ok di ps : (forall n, Name n ∈ ps -> is_Some (di !! n)) -> exists r, fill di ps = Ok r.
Proof.
  induction ps as [|[c|n] ps IH]; intros H; cbn [fill]; [by eexists|..]; destruct IH as [r ->]; try (intros m Hm; apply H; by right).
  - by eexists.
  - destruct (H n) as [v ->]; [by left|]. by eexists.
Qed.

Lemma fill_err di ps n : Name n ∈ ps -> di !! n = None -> exists e, fill di ps = Err e.
Proof.
  induction ps as [|p ps IH]; intros H Hn; [by apply elem_of_nil in H|]. apply list.elem_of_cons in H as [<-|H]; cbn [fill].
  - rewrite Hn. by eexists.
  - destruct (IH H Hn) as [e ->]. destruct p as [c|m]; cbn; [by eexists|]. destruct (di !! m); by eexists.
Qed.

Lemma m4_findall_spec n s : n ∈ m4_findall s <-> Name n ∈ m4_pieces s.
Proof.
  unfold m4_findall. rewrite list_elem_of_omap. split; [|intros H; by exists (Name n)]. by intros ([c|m] & H & [= ->]).
Qed.

Section subst.
Variable get_flat : pystr -> pystr.

#[local] Notation value_of := (value_of get_flat).

(** The values of the names in the environment of waf. *)
Definition env_dict (names : list pystr) : gmap pystr pystr := foldl (fun di i => <[i := value_of i]> di) ∅ names.

Lemma env_dict_lookup names n : env_dict names !! n = if decide (n ∈ names) then Some (value_of n) else None.
Proof.
  unfold env_dict. assert (forall d : gmap pystr pystr, foldl (fun di i => <[i := value_of i]> di) d names !! n
    = if decide (n ∈ names) then Some (value_of n) else d !! n) as ->; [|by rewrite lookup_empty].
  induction names as [|m names IH]; intros d; cbn; [by rewrite decide_False by apply not_elem_of_nil|]. rewrite IH.
  destruct (decide (n ∈ names)); [by rewrite decide_True by (by right)|]. destruct (decide (n = m)) as [->|].
  - by rewrite lookup_insert, !decide_True by (done || by left).
  - rewrite lookup_insert_ne by done. by rewrite decide_False by set_solver.
Qed.

Lemma subst_func_spec code di : subst_func get_flat code di =
  let di := if decide (di = ∅) then env_dict (m4_findall code) else di in (di, fill di (m4_pieces code)).
Proof.
  unfold subst_func, gbind, mset, mget, mlift. rewrite m4_findall_double. cbv zeta. rewrite !format_dict_spec.
  case_decide; [subst|]; done.
Qed.

(** The names of a text that have a value. *)
Definition covered (names : list pystr) (code : pystr) : Prop := forall n, n ∈ m4_findall code -> n ∈ names.

Lemma covered_ok names code : covered names code <-> exists r, fill (env_dict names) (m4_pieces code) = Ok r.
Proof.
  split.
  - intros H. apply fill_ok. intros n Hn. rewrite env_dict_lookup, decide_True; [by eexists|]. by apply H, m4_findall_spec.
  - intros [r Hr] n Hn%m4_findall_spec. destruct (decide (n ∈ names)) as [|H]; [done|].
    destruct (fill_err (env_dict names) (m4_pieces code) n Hn) as [e He]; [by rewrite env_dict_lookup, decide_False|]. congruence.
Qed.

Lemma run_tasks_nonempty codes di : di <> ∅ -> run_tasks get_flat codes di = (fun code => fill di (m4_pieces code)) <$> codes.
Proof.
  intros H. induction codes as [|code codes IH]; [done|]. cbn [run_tasks]. rewrite subst_func_spec. cbv zeta. rewrite decide_False by done.
  cbn. by rewrite IH.
Qed.

(** The tasks of a generator without a dictionary share the one that the first file with names
    fills: each file written has its names replaced, and a file with a name that the first
    has not raises instead of reading the environment. *)
Theorem run_tasks_spec before first after :
  Forall (fun code => m4_findall code = []) before -> m4_findall first <> [] ->
  let names := m4_findall first in
  run_tasks get_flat (before ++ first :: after) ∅ = (fun code => fill (env_dict names) (m4_pieces code)) <$> (before ++ first :: after) /\
  Forall (fun code => (exists r, fill (env_dict names) (m4_pieces code) = Ok r) <-> covered names code) (before ++ first :: after).
Proof.
  intros Hb Hf names. split; [|apply Forall_forall; intros code _; symmetry; apply covered_ok].
  induction Hb as [|code before Hc _ IH]; cbn [app run_tasks fmap list_fmap]; rewrite subst_func_spec; cbv zeta; rewrite decide_True by done.
  - f_equal. apply run_tasks_nonempty. fold names in Hf. fold names. destruct names as [|n names']; [done|]. intros E.
    assert (env_dict (n :: names') !! n = None) as H by by rewrite E. rewrite env_dict_lookup, decide_True in H; [done|by left].
  - rewrite Hc. cbn [env_dict foldl]. f_equal; [|apply IH].
    assert (forall d d' ps, omap (fun p => match p with Name n => Some n | Lit _ => None end) ps = [] -> fill d ps = fill d' ps) as H.
    { intros d d' ps. induction ps as [|[c|n] ps IHp]; [done| |done]. cbn. intros H. by rewrite (IHp H). }
    by apply H.
Qed.

End subst.

(** Two files, the second with a name of its own. *)
Lemma run_tasks_spec_witness : exists r,
  run_tasks (fun n => $"v" ++ n) [$"100% @A@"; $"@A@@B@"] ∅ = [Ok $"100% vA"; r] /\ ~ exists t, r = Ok t.
Proof.
  destruct (run_tasks_spec (fun n => $"v" ++ n) [] $"100% @A@" [$"@A@@B@"]) as [E H]; [constructor|vm_compute; discriminate|].
  exists (fill (env_dict (fun n => $"v" ++ n) (m4_findall $"100% @A@")) (m4_pieces $"@A@@B@")). split.
  - etrans; [exact E|]. vm_compute. reflexivity.
  - apply Forall_cons in H as [_ [H _]%Forall_cons]. rewrite H. intros Hc.
    assert ($"B" ∈ [$"A"]) as HB; [apply (Hc $"B"); vm_compute; right; left|]. apply list_elem_of_singleton in HB. discriminate.
Defined.

(** ** Commands *)

(** Templates: of [pre%spost] the path takes the place of [%s]. *)
Lemma template_path_spec pre post path : "%"%char ∉ pre -> "%"%char ∉ post -> template_path (pre ++ $"%s" ++ post) path = Ok (pre ++ path ++ post).
Proof.
  intros Hpre Hpost. unfold template_path. assert (format_rest true post path = Ok post) as Hp.
  { induction post as [|c post IH]; [done|]. apply list.not_elem_of_cons in Hpost as [Hc Hpost].
    assert (format_rest true (c :: post) path = let! r := format_rest true post path in Ok (c :: r)) as -> by
      (destruct c as [[] [] [] [] [] [] [] []]; try done; by destruct Hc). by rewrite IH. }
  induction pre as [|c pre IH]; [cbn [app]; change (format_rest false ($"%s" ++ post) path) with (let! r := format_rest true post path in Ok (path ++ r)); by rewrite Hp|].
  apply list.not_elem_of_cons in Hpre as [Hc Hpre].
  assert (forall t, format_rest false (c :: t) path = let! r := format_rest false t path in Ok (c :: r)) as H by
    (intros t; destruct c as [[] [] [] [] [] [] [] []]; try done; by destruct Hc).
  cbn [app]. rewrite H, IH; done.
Qed.

Section command_output.
Context {node : Type}.
Variables (abspath srcpath bldpath : node -> pystr).
Variables (find_resource find_or_declare find_dir : pystr -> option node).

#[local] Notation apply_cmd_output := (apply_cmd_output find_resource find_or_declare find_dir).
#[local] Notation output_run := (output_run abspath srcpath bldpath).

Lemma args_of_elem k (n : node) tp l : k = input_file \/ k = output_file -> FArg k n tp ∈ l -> n ∈ args_of k l.
Proof. intros Hk H. unfold args_of. apply list_elem_of_omap. exists (FArg k n tp). split; [done|]. by destruct Hk as [-> | ->]. Qed.

(** A task that is made runs in the directory of the variant, so with absolute paths; its
    streams and the files among its arguments are inputs and outputs of the task; and it has
    some of each unless the generator says otherwise. *)
Theorem apply_cmd_output_spec variant_dir g t p : apply_cmd_output variant_dir g = Ok t -> output_run t = Ok p ->
  p_cwd p = Some variant_dir /\
  (exists words, get_paths abspath abspath abspath true (t_args t) = Ok words /\ tail (p_argv p) = words) /\
  p_stdin p = abspath <$> t_stdin t /\ p_stdout p = abspath <$> t_stdout t /\ p_stderr p = abspath <$> t_stderr t /\
  (forall n, t_stdin t = Some n -> n ∈ t_inputs t) /\ (forall n, t_stdout t = Some n \/ t_stderr t = Some n -> n ∈ t_outputs t) /\
  (forall n tp, FArg input_file n tp ∈ t_args t -> n ∈ t_inputs t) /\ (forall n tp, FArg output_file n tp ∈ t_args t -> n ∈ t_outputs t) /\
  (t_inputs t = [] -> no_inputs g = true /\ always_run t = true) /\ (t_outputs t = [] -> no_outputs g = true).
Proof.
  intros Ht Hp. unfold Misc.apply_cmd_output in Ht. inv_ok. subst t. cbn in Hp. unfold Misc.output_run in Hp. cbn in Hp. inv_ok. subst p.
  cbn [p_cwd p_argv p_stdin p_stdout p_stderr t_args t_stdin t_stdout t_stderr t_inputs t_outputs always_run tail].
  assert (forall l, get_paths abspath srcpath bldpath true l = get_paths abspath abspath abspath true l) as Hg.
  { intros l. induction l as [|x l IH]; [done|]. cbn. rewrite IH. by destruct x as [|[] ? ?]. }
  apply raise_unless_Ok in E7, E8.
  split; [done|]. split; [exists a9; by rewrite <- Hg|]. split; [done|]. split; [done|]. split; [done|].
  split; [intros n ->; apply elem_of_app; right; by left|].
  split; [intros n Hn; rewrite !elem_of_app; destruct Hn as [-> | ->]; right; [left|right; left]; by left|].
  split; [intros n tp Hn; apply elem_of_app; left; apply (args_of_elem input_file n tp); auto|].
  split; [intros n tp Hn; apply elem_of_app; left; apply (args_of_elem output_file n tp); auto|].
  split; intros Hi; rewrite bool_decide_true in * by done; [|by destruct (no_outputs g)].
  by destruct (no_inputs g).
Qed.

End command_output.

Example demo_command : exists t, apply_cmd_output (node := pystr) Some Some Some $"/build"
    {| command := Some $"gen.py"; command_is_external := false; argv := [Plain $"-v"; Arg output_file $"out.h" $"--out=%s"]; g_stdin := Some $"in.txt";
       g_stdout := None; g_stderr := None; hidden_inputs := []; hidden_outputs := []; no_inputs := false; no_outputs := false |} = Ok t /\
  output_run (fun n => $"/src/" ++ n) id id t =
    Ok {| p_argv := [$"/src/gen.py"; $"-v"; $"--out=/src/out.h"]; p_stdin := Some $"/src/in.txt"; p_stdout := None; p_stderr := None; p_cwd := Some $"/build" |}.
Proof. eexists. split; vm_compute; reflexivity. Qed.
