(* ===== verification/Relocation.v ===== *)
(** * [waf-tools/relocation.py]: a project that was moved

    The source directory is stored after a build; when it is another at the next one, the nodes
    of the old directory are given to the new one.  A node is a number, with the attributes
    [parent] and [children] in two maps; the tree of waf, with its [find_node] and [make_node],
    is a parameter. *)

From S2P Require Import Prelude.

Record tree := { parents : gmap nat nat; kids : gmap nat (gmap pystr nat) }.

Definition parent (t : tree) (n : nat) : option nat := parents t !! n.
Definition children (t : tree) (n : nat) : gmap pystr nat := default ∅ (kids t !! n).

Definition set_parent (n p : nat) (t : tree) : tree := {| parents := <[n := p]> (parents t); kids := kids t |}.
Definition set_children (n : nat) (c : gmap pystr nat) (t : tree) : tree := {| parents := parents t; kids := <[n := c]> (kids t) |}.

(** [srcnode.children[k] = v; v.parent = srcnode] *)
Definition move (srcnode : nat) (t : tree) (kv : pystr * nat) : tree :=
  set_parent kv.2 srcnode (set_children srcnode (<[kv.1 := kv.2]> (children t srcnode)) t).

Definition relocate (d srcnode : nat) (t : tree) : tree :=
  let t := set_children srcnode ∅ t in
  let t := foldl (move srcnode) t (map_to_list (children t d)) in
  set_children d ∅ t.

Section build.
Variables (isabs : pystr -> bool) (find_node : tree -> pystr -> option nat) (make_node : tree -> pystr -> tree * nat).

(** What the file [EXTRA_LOCK] of a variant has, when it is there. *)
Notation locks := (gmap pystr pystr).

Definition store (variant_dir srcnode_path : pystr) (db : locks) : locks := <[variant_dir := srcnode_path]> db.

(** The nodes before the rest of [init_dirs] is run. *)
Definition init_dirs (top_dir out_dir variant_dir : pystr) (db : locks) (t : tree) : py tree :=
  let! _ := raise_unless (isabs top_dir && isabs out_dir) (BareException $"WafError") in
  match db !! variant_dir with
  | None | Some [] => Ok t
  | Some srcdir =>
      match find_node t srcdir with
      | Some d =>
          if decide (srcdir <> top_dir /\ children t d <> ∅) then
            let '(t, srcnode) := make_node t top_dir in Ok (relocate d srcnode t)
          else Ok t
      | None => Ok t
      end
  end.

End build.

(** ** The tree after the move *)

Definition moved (d : nat) (t : tree) (v : nat) : Prop := exists k, children t d !! k = Some v.

Lemma move_spec src t kv n :
  children (move src t kv) n = (if decide (n = src) then <[kv.1 := kv.2]> (children t src) else children t n) /\
  parent (move src t kv) n = if decide (n = kv.2) then Some src else parent t n.
Proof.
  unfold children, parent, move, set_parent, set_children. cbn. rewrite !lookup_insert. split; [|by repeat case_decide].
  case_decide; [by rewrite decide_True|by rewrite decide_False].
Qed.

Lemma moves_children src l t n : NoDup l.*1 -> (forall kv, kv ∈ l -> children t src !! kv.1 = None) ->
  children (foldl (move src) t l) n = if decide (n = src) then list_to_map l ∪ children t src else children t n.
Proof.
  revert t. induction l as [|kv l IH]; intros t Hn Hl; cbn [foldl].
  - case_decide; [subst; cbn; by rewrite (left_id_L ∅ (∪))|done].
  - cbn in Hn. apply NoDup_cons in Hn as [Hk Hn]. rewrite IH; [|done|].
    + destruct (move_spec src t kv n) as [En _]. destruct (decide (n = src)) as [->|]; [|exact En]. rewrite En.
      destruct kv as [k v]. cbn [fst snd] in *. rewrite list_to_map_cons.
      rewrite <- insert_union_l, <- insert_union_r; [done|]. by apply not_elem_of_list_to_map_1.
    + intros kv' Hkv'. destruct (move_spec src t kv src) as [-> _]. rewrite decide_True by done.
      rewrite lookup_insert_ne; [apply Hl; by right|]. intros E. apply Hk. rewrite E. apply list_elem_of_fmap. by exists kv'.
Qed.

Lemma moves_parent src l t n : parent (foldl (move src) t l) n = if decide (n ∈ l.*2) then Some src else parent t n.
Proof.
  revert t. induction l as [|kv l IH]; intros t; cbn [foldl]; [by rewrite decide_False by apply not_elem_of_nil|].
  rewrite IH. destruct (move_spec src t kv n) as [_ ->]. cbn [fmap list_fmap].
  repeat case_decide; try done; exfalso; set_solver.
Qed.

Section relocate.
Variables (d src : nat) (t : tree).
Hypothesis d_src : d <> src.

Lemma relocate_children n : children (relocate d src t) n =
  if decide (n = d) then ∅ else if decide (n = src) then children t d else children t n.
Proof.
  unfold relocate. set (t1 := set_children src ∅ t).
  assert (forall m, children t1 m = if decide (m = src) then ∅ else children t m) as H1.
  { intros m. unfold children, t1, set_children. cbn. rewrite lookup_insert. repeat case_decide; done || congruence. }
  assert (forall u c m, children (set_children d c u) m = if decide (m = d) then c else children u m) as H2.
  { intros u c m. unfold children, set_children. cbn. rewrite lookup_insert. repeat case_decide; done || congruence. }
  rewrite H2. case_decide; [done|]. rewrite moves_children.
  - rewrite !H1. rewrite (decide_False (P := d = src)) by done. rewrite (decide_True (P := src = src)) by done.
    destruct (decide (n = src)); [|done]. rewrite list_to_map_to_list. apply (right_id_L ∅ (∪)).
  - apply NoDup_fst_map_to_list.
  - intros kv _. by rewrite H1, decide_True, lookup_empty.
Qed.

Lemma relocate_parent n : parent (relocate d src t) n = Some src /\ moved d t n \/ parent (relocate d src t) n = parent t n /\ ~ moved d t n.
Proof.
  unfold relocate. set (t1 := set_children src ∅ t).
  change (parent (set_children d ∅ ?u) n) with (parent u n).
  assert (children t1 d = children t d) as E.
  { unfold children, t1, set_children. cbn. by rewrite lookup_insert_ne by done. }
  rewrite E. change (parent (set_children d ∅ (foldl (move src) t1 (map_to_list (children t d)))) n)
    with (parent (foldl (move src) t1 (map_to_list (children t d))) n).
  rewrite moves_parent. change (parent t1 n) with (parent t n).
  assert (n ∈ (map_to_list (children t d)).*2 <-> moved d t n) as H.
  { unfold moved. rewrite list_elem_of_fmap. split.
    - intros ([k v] & -> & Hk%elem_of_map_to_list). by exists k.
    - intros [k Hk]. exists (k, n). split; [done|]. by apply elem_of_map_to_list. }
  case_decide as D; [left|right]; (split; [done|]); tauto.
Qed.

(** A child knows its parent, and no child is left out. *)
Definition linked (t : tree) : Prop := forall n v, parent t v = Some n <-> exists k, children t n !! k = Some v.
Definition child_of (t : tree) : Prop := forall n k v, children t n !! k = Some v -> parent t v = Some n.

Definition up (t : tree) (n p : nat) : Prop := parent t n = Some p.
Definition acyclic (t : tree) : Prop := forall n, ~ tc (up t) n n.
Definition below (t : tree) (a n : nat) : Prop := tc (up t) n a.

Lemma relocate_linked : child_of t -> child_of (relocate d src t).
Proof.
  intros Hl n k v. rewrite relocate_children. intros Hk.
  destruct (relocate_parent v) as [[-> [k' Hk']]|[-> Hn]].
  - apply Hl in Hk'. case_decide; [by rewrite lookup_empty in Hk|]. case_decide; [congruence|]. apply Hl in Hk. congruence.
  - case_decide; [by rewrite lookup_empty in Hk|]. case_decide; [|by apply Hl in Hk]. destruct Hn. by exists k.
Qed.

(** From the new directory up: the old way, or to a node that was moved. *)
Lemma up_from_src x : rtc (up (relocate d src t)) src x -> rtc (up t) src x \/ exists v, moved d t v /\ rtc (up t) src v.
Proof.
  revert x. apply rtc_ind_r; [left; apply rtc_refl|]. intros y z _ Hyz [IH|IH]; [|by right].
  unfold up in Hyz at 1. destruct (relocate_parent y) as [[E Hm]|[E Hm]].
  - right. by exists y.
  - left. eapply rtc_r; [exact IH|]. unfold up. congruence.
Qed.

(** Unless the new directory was in the old one, no way up from it meets a node that was moved. *)
Lemma from_src_old x y : ~ below t d src -> child_of t -> rtc (up (relocate d src t)) src x -> tc (up (relocate d src t)) x y -> tc (up t) x y.
Proof.
  intros Hb Hl Hx Hxy.
  assert (forall x y, rtc (up (relocate d src t)) src x -> up (relocate d src t) x y -> up t x y) as H1.
  { intros a b Ha Hab. unfold up in Hab. destruct (relocate_parent a) as [[E [k Hk]]|[E Hm]]; [|unfold up; congruence]. exfalso.
    apply Hb. unfold below. destruct (up_from_src a Ha) as [H|(v & [k' Hk'] & H)].
    - eapply tc_rtc_l; [exact H|]. apply tc_once. by eapply Hl.
    - eapply tc_rtc_l; [exact H|]. apply tc_once. by eapply Hl. }
  induction Hxy as [x y Hxy|x y z Hxy _ IH]; [by apply tc_once, H1|]. eapply tc_l; [by apply H1|]. apply IH. by eapply rtc_r.
Qed.

Lemma step_old_or_src x y : tc (up (relocate d src t)) x y -> tc (up t) x y \/ rtc (up (relocate d src t)) src y.
Proof.
  intros H. induction H as [x y Hxy|x y z Hxy Hyz IH].
  - unfold up in Hxy. destruct (relocate_parent x) as [[E Hm]|[E Hm]].
    + right. assert (y = src) as -> by congruence. apply rtc_refl.
    + left. apply tc_once. unfold up. congruence.
  - destruct IH as [IH|IH]; [|by right]. unfold up in Hxy. destruct (relocate_parent x) as [[E Hm]|[E Hm]].
    + right. assert (y = src) as -> by congruence. by apply tc_rtc.
    + left. eapply tc_l; [|exact IH]. unfold up. congruence.
Qed.

Lemma relocate_acyclic : child_of t -> acyclic t -> ~ below t d src -> acyclic (relocate d src t).
Proof.
  intros Hl Ha Hb n Hn. destruct (step_old_or_src n n Hn) as [H|H]; [by apply (Ha n)|]. apply (Ha n). by eapply from_src_old.
Qed.

(** A new directory in the old one comes to be below itself. *)
Lemma relocate_cycle : linked t -> below t d src -> ~ acyclic (relocate d src t).
Proof.
  intros Hl Hb Ha. apply (Ha src).
  assert (forall x y, tc (up t) x y -> y = d -> exists v, moved d t v /\ rtc (up (relocate d src t)) x v) as H.
  { intros x y H. induction H as [x y Hxy|x y z Hxy _ IH]; intros E.
    - subst y. exists x. split; [|apply rtc_refl]. by apply Hl.
    - destruct (IH E) as (v & Hv & H). destruct (relocate_parent x) as [[_ Hm]|[Ex _]]; [exists x; split; [done|apply rtc_refl]|].
      exists v. split; [done|]. eapply rtc_l; [|exact H]. unfold up. by rewrite Ex. }
  destruct (H src d Hb eq_refl) as (v & Hv & Hr). eapply tc_rtc_l; [exact Hr|]. apply tc_once.
  destruct (relocate_parent v) as [[E _]|[_ Hn]]; [exact E|done].
Qed.

(** The move keeps the tree well formed: the new directory has the children of the old one, which
    know it, the old one has none, and the rest is as it was; no node is above itself, unless
    the new directory was in the old one. *)
Theorem relocate_spec : linked t -> acyclic t ->
  children (relocate d src t) src = children t d /\ children (relocate d src t) d = ∅ /\
  (forall n, n <> d -> n <> src -> children (relocate d src t) n = children t n) /\
  child_of (relocate d src t) /\ (acyclic (relocate d src t) <-> ~ below t d src).
Proof.
  intros Hl Ha. assert (child_of t) as Hc by (intros n k v Hk; apply Hl; by exists k).
  split; [by rewrite relocate_children, decide_False, decide_True by congruence|].
  split; [by rewrite relocate_children, decide_True|].
  split; [intros n H1 H2; by rewrite relocate_children, !decide_False|].
  split; [by apply relocate_linked|]. split; [intros H Hb; by apply (relocate_cycle Hl Hb)|by apply relocate_acyclic].
Qed.

End relocate.

(** What a build stored is what the next one looks for; nothing moves while it is the same. *)
Lemma init_dirs_same isabs find_node make_node top out variant db t : isabs top = true -> isabs out = true ->
  init_dirs isabs find_node make_node top out variant (store variant top db) t = Ok t.
Proof.
  intros H1 H2. unfold init_dirs, store. rewrite H1, H2, lookup_insert, decide_True by done. cbn.
  destruct top as [|c top]; [done|]. destruct (find_node t (c :: top)); [|done]. rewrite decide_False by tauto. done.
Qed.

(** ** A project moved into one of its directories

    The root 0 has the directory 1, which has 2 and a file 3: 2 becomes the project. *)

Definition demo_tree : tree :=
  {| parents := {[1 := 0; 2 := 1; 3 := 1]}; kids := {[0 := {[$"old" := 1]}; 1 := {[$"new" := 2; $"file" := 3]}]} |}.

Example demo_relocate : parent (relocate 1 2 demo_tree) 2 = Some 2.
Proof. vm_compute. reflexivity. Qed.

Lemma demo_linked : linked demo_tree.
Proof.
  intros n v. unfold parent, children, demo_tree. cbn [parents kids]. split.
  - intros H. assert ((v, n) ∈ map_to_list ({[1 := 0; 2 := 1; 3 := 1]} : gmap nat nat)) as Hm by by apply elem_of_map_to_list.
    vm_compute in Hm. repeat (apply list.elem_of_cons in Hm as [[= -> ->]|Hm]; [first [by exists $"new"|by exists $"file"|by exists $"old"]|]). by apply elem_of_nil in Hm.
  - intros [k Hk]. destruct (decide (n = 0)) as [->|H0]; [|destruct (decide (n = 1)) as [->|H1]].
    + change (({[$"old" := 1]} : gmap pystr nat) !! k = Some v) in Hk. apply lookup_singleton_Some in Hk as [_ <-]. reflexivity.
    + change (({[$"new" := 2; $"file" := 3]} : gmap pystr nat) !! k = Some v) in Hk.
      apply lookup_insert_Some in Hk as [[_ <-]|[_ Hk]]; [reflexivity|]. apply lookup_singleton_Some in Hk as [_ <-]. reflexivity.
    + exfalso. rewrite lookup_insert_ne, lookup_singleton_ne in Hk by done. change ((∅ : gmap pystr nat) !! k = Some v) in Hk.
      by rewrite lookup_empty in Hk.
Qed.

Lemma demo_acyclic : acyclic demo_tree.
Proof.
  intros n H. assert (forall x y, tc (up demo_tree) x y -> y < x) as Hlt; [|by specialize (Hlt n n H); lia].
  assert (forall x y, up demo_tree x y -> y < x) as Hs.
  { intros x y E. unfold up, parent, demo_tree in E. cbn [parents] in E.
    repeat (apply lookup_insert_Some in E as [[<- <-]|[_ E]]; [lia|]). by apply lookup_singleton_Some in E as [<- <-]; lia. }
  intros x y Ht. induction Ht as [x y E|x y z E _ IH]; [by apply Hs|]. apply Hs in E. lia.
Qed.

Lemma relocate_spec_witness : ~ acyclic (relocate 1 2 demo_tree).
Proof.
  destruct (relocate_spec 1 2 demo_tree ltac:(discriminate) demo_linked demo_acyclic) as (_ & _ & _ & _ & H).
  rewrite H. intros Hn. apply Hn. apply tc_once. reflexivity.
Defined.
