(* ===== verification/PortTests.v ===== *)
(** * [utils/tests]: the portability tests of [waf] and of [test.py]

    [TestBase.py] runs a list of shell commands and reports; [test-waf.py] and
    [test-test.py] make the lists.  The shell is a parameter. *)

From Stdlib Require Import QArith.
From S2P Require Import Prelude PyFloat.

(** ** [TestBase.py] *)

(** The working directory, by its components: None is [sys.exit(1)]. *)
Definition set_workdir (dir_files : list pystr) (cwd : list pystr) : option (list pystr) :=
  if decide ($"VERSION" ∉ dir_files /\ $"waf" ∉ dir_files) then
    match reverse cwd with
    | t :: u :: up => if decide (t = $"tests" /\ u = $"utils") then Some (reverse up) else None
    | _ => None
    end
  else Some cwd.

Record options := { out_file : pystr; list_cmds : bool; mute : bool; custcmd : option pystr }.

Definition default_options (mode : pystr) : options :=
  {| out_file := $"test-port-" ++ mode ++ $".out"; list_cmds := false; mute := false; custcmd := None |}.

(** [s.replace(old, new)] *)
Fixpoint replace_fuel (fuel : nat) (s old new : pystr) : pystr :=
  match fuel with
  | O => s
  | S fuel =>
      match take_lit old s with
      | Some s' => new ++ replace_fuel fuel s' old new
      | None => match s with [] => [] | c :: s' => c :: replace_fuel fuel s' old new end
      end
  end.

(** Of a string that is not empty. *)
Definition str_replace (s old new : pystr) : pystr := replace_fuel (S (length s)) s old new.

Definition print_case_in_file (case_string : pystr) : pystr :=
  replicate 100 "-"%char ++ [NL] ++ $"running test case " ++ case_string ++ [NL; NL].

Section runner.
Context (executable : pystr).

Definition print_failed_cases (failed_cases : list pystr) : list pystr :=
  ([NL] ++ $"Failed Cases:") :: failed_cases.

Definition print_cmds (cmds : list pystr) : list pystr :=
  $"Commands to be executed:" :: ((fun cmd => str_replace cmd executable []) <$> cmds).

(** The shell: it is told whether its standard output is dropped, and gives the exit
    status and what it writes to the file. *)
Context {W : Type} (call : W -> pystr -> bool -> W * Z * pystr).

(** What has been done: the lines printed, the file, the count of cases that passed and
    were run, and the failed ones. *)
Record tests_state := {
  world : W; printed : list pystr; file : pystr; passed : N; run_count : N; failed_cases : list pystr
}.

Definition run_case (opts : options) (total : N) (p : tests_state) (cmd : pystr) : tests_state :=
  let case_string := str_replace cmd executable [] in
  let '(w, ret, text) := call (world p) cmd (mute opts) in
  let ok := Z.eqb ret 0 in
  let passed' := if ok then (passed p + 1)%N else passed p in
  let done' := (run_count p + 1)%N in
  {| world := w;
     printed := printed p ++ [$"running test case: " ++ case_string;
       $"[ " ++ show_N passed' ++ $" out of " ++ show_N total ++ $" ] test cases passed; Progress = " ++
       show_fixed 2 (toQ done' * 100 / toQ total) ++ $"% " ++ [NL]];
     file := file p ++ print_case_in_file case_string ++ text;
     passed := passed'; run_count := done';
     failed_cases := if ok then failed_cases p else failed_cases p ++ [case_string] |}.

Definition run_cases (opts : options) (w : W) (cmds : list pystr) : tests_state :=
  foldl (run_case opts (N.of_nat (length cmds)))
    {| world := w; printed := []; file := []; passed := 0; run_count := 0; failed_cases := [] |} cmds.

(** The value returned: None when the commands are only listed. *)
Definition runtests (opts : options) (w : W) (cmds : list pystr) : option Z * tests_state :=
  if list_cmds opts then
    (None, {| world := w; printed := print_cmds cmds; file := []; passed := 0; run_count := 0; failed_cases := [] |})
  else
    let p := run_cases opts w cmds in
    let final_return := if decide (failed_cases p = []) then 0%Z else 1%Z in
    (Some final_return,
     {| world := world p;
        printed := printed p ++
          (if Z.eqb final_return 0 then [[NL] ++ $"All cases passed"] else print_failed_cases (failed_cases p)) ++
          [$"Detailed output available in " ++ out_file opts ++ [NL]];
        file := file p; passed := passed p; run_count := run_count p; failed_cases := failed_cases p |}).

(** [sys.exit] of the value: None is success. *)
Definition exit_status (ret : option Z) : Z := default 0%Z ret.

(** ** [test-test.py] *)

Definition test_cases : list pystr :=
  [[]; $"-h"; $"--help"; $"-b build/"; $"--buildpath=build/"; $"-c performance"; $"--constrain=performance"; $"-d";
   $"--duration"; $"-e socket-options-ipv6"; $"--example=socket-options-ipv6"; $"-u"; $"--update-data";
   $"-f EXTENSIVE --fullness=EXTENSIVE" ++ $"-g"; $"--grind"; $"-l"; $"--list"; $"-m"; $"--multiple"; $"-n"; $"--nowaf";
   $"-p first"; $"--pyexample=first"; $"-r"; $"--retain"; $"-s ns3-tcp-interoperability";
   $"--suite=ns3-tcp-interoperability"; $"-t t_opt.txt"; $"--text=t_opt.txt && rm -rf t_opt.txt"; $"-v"; $"--verbose";
   $"-w t_opt.html && rm -rf t_opt.html"; $"--web=t_opt.html && rm -rf t_opt.html"; $"--html=t_opt.html && rm -rf t_opt.html";
   $"-x t_opt.xml && rm -rf t_opt.xml"; $"--xml=t_opt.xml && rm -rf t_opt.xml"].

Definition test_py_cmds : list pystr :=
  (fun option => executable ++ $" waf configure --enable-tests --enable-examples && " ++ executable ++ $" test.py " ++ option ++
                 $" && " ++ executable ++ $" waf clean") <$> test_cases.

Definition test_py_main (opts : options) (w : W) : option Z * tests_state := runtests opts w test_py_cmds.

(** ** [test-waf.py] *)

Definition replace (pre post : option pystr) (main_cmd_list : list pystr) : list pystr :=
  let pre := match pre with Some p => p ++ $" && " | None => [] end in
  let post := match post with Some p => $" && " ++ p | None => [] end in
  (fun main_cmd => pre ++ main_cmd ++ post) <$> main_cmd_list.

Definition config_test_cases : list pystr :=
  [$"--enable-gcov"; $"--enable-sudo"; $"--enable-sudo"; $"--enable-tests"; $"--disable-tests"; $"--enable-examples";
   $"--disable-examples"; $"--doxygen-no-build"; $"--enable-static"; $"--enable-mpi"; $"--enable-rpath";
   $"--enable-modules=build/utils/test-runner.cc.1.o"; $"--boost-static"; $"--boost-mt"; $"--boost-linkage_autodetect";
   $"--boost-python=33"; $"--disable-gtk"; $"--int64x64=cairo"; $"--disable-pthread"; $"--force-planetlab"; $"--nopyc";
   $"--nopyo"; $"--disable-python"; $"--apiscan=all"; $"--with-python=/usr/bin/python2.7"; $"-o test_out && rm -rf test_out";
   $"--out=test_out && rm -rf test_out"; $"-t test_top && rm -rf test_top"; $"--top=test_top && rm -rf test_top";
   $"--download"; $"--check-c-compiler=gc"; $"--check-cxx-compiler=g++"].

Definition basic_test_cases : list pystr := [$"--version"; $"-h"; $"--help"].

Definition build_test_cases : list pystr :=
  [$"-j10"; $"--jobs=10"; $"-d optimized"; $"-d debug"; $"-d release"; $"--build-profile optimized"; $"--build-profile debug";
   $"--build-profile release"; $"-p"; $"--progress"].

Definition step_test_cases : list pystr := [$"--files=" ++ dquote ++ $"*/main.c,*/test/main.o" ++ dquote].

Definition install_test_cases : list pystr :=
  [$"-f"; $"--force"; $"--prefix=./test-prefix && rm -rf ./test-prefix"; $"--exec-prefix=.";
   $"--bindir=./test-prefix/bin --sbindir=./test-prefix/sbin --libexecdir=./test-prefix/libexec --sysconfdir=./test-prefix/etc --sharedstatedir=./test-prefix/com --localstatedir=./test-prefix/var --libdir=./test-prefix/lib --includedir=./test-prefix/include --oldincludedir=./test-prefix/usr/include --datarootdir=./test-prefix/share --datadir=./test-prefix/share_root --infodir=./test-prefix/info --localedir=./test-prefix/locale --mandir=./test-prefix/man --docdir=./test-prefix/doc/package --htmldir=./test-prefix/doc --dvidir=./test-prefix/doc --pdfdir=./test-prefix/doc --psdir=./test-prefix/doc && rm -rf ./test-prefix"].

Definition common_test_cases : list pystr :=
  [[]; $"-k"; $"--keep"; $"-v"; $"--verbose"; $"--nocache"; $"--zones=task_gen"; $"--zones=deps"; $"--zones=tasks";
   $"--no-task-lines"].

Definition test_case_mappings (cmd : pystr) : option (list pystr) :=
  if decide (cmd = $"basic") then Some basic_test_cases
  else if decide (cmd = $"configure") then Some config_test_cases
  else if decide (cmd = $"build") then Some build_test_cases
  else if decide (cmd = $"step") then Some step_test_cases
  else if decide (cmd = $"install") then Some install_test_cases
  else None.

Definition waf_string : pystr := executable ++ $" waf".

Definition with_options (cmd : pystr) (cases : list pystr) : list pystr :=
  (fun option => waf_string ++ $" " ++ cmd ++ $" " ++ option) <$> cases.

(** The commands to run before and after each of a command, and those added at the end. *)
Definition before (cmd : pystr) : option pystr :=
  if decide (cmd ∈ [$"build"; $"docs"; $"install"; $"list"; $"shell"; $"step"]) then Some (waf_string ++ $" configure")
  else if decide (cmd = $"distcheck") then Some (waf_string ++ $" dist")
  else if decide (cmd = $"uninstall") then Some (waf_string ++ $" install")
  else None.

Definition after (cmd : pystr) : option pystr :=
  if decide (cmd = $"build") then Some (waf_string ++ $" clean")
  else if decide (cmd ∈ [$"configure"; $"docs"; $"list"; $"shell"; $"step"]) then Some (waf_string ++ $" distclean")
  else if decide (cmd = $"distcheck") then Some $"rm -rf ns-3*.tar.bz2"
  else if decide (cmd = $"install") then Some (waf_string ++ $" uninstall")
  else None.

Definition basic_extra : list pystr :=
  [waf_string ++ $" configure && " ++ waf_string ++ $" build && " ++ waf_string ++ $" --run scratch/myfirst";
   waf_string ++ $" configure && " ++ waf_string ++ $" build && " ++ waf_string ++ $" --pyrun scratch/myfirst.py"].

Definition build_extra : list pystr :=
  [waf_string ++ $" configure --enable-gcov && " ++ waf_string ++ $" build --lcov-report && " ++ waf_string ++ $" clean"].

(** One turn of the loop over the commands. *)
Definition waf_cmd_list (cmd : pystr) : list pystr :=
  let cmd_list := if decide (cmd = $"basic") then [] else with_options cmd common_test_cases in
  let cmd_list := match test_case_mappings cmd with
                  | Some cases => cmd_list ++ with_options cmd cases
                  | None => cmd_list
                  end in
  let cmd_list := if decide (cmd = $"basic") then cmd_list ++ basic_extra else cmd_list in
  let cmd_list := replace (before cmd) (after cmd) cmd_list in
  if decide (cmd = $"build") then cmd_list ++ build_extra else cmd_list.

Definition waf_names (opts : options) : list pystr :=
  match custcmd opts with
  | Some ((_ :: _) as in_cmds) => split_on ","%char in_cmds
  | _ => [$"basic"; $"build"; $"configure"; $"step"; $"clean"; $"dist"; $"list"]
  end.

Definition waf_cmds (opts : options) : list pystr := mjoin (waf_cmd_list <$> waf_names opts).

Definition waf_main (opts : options) (w : W) : option Z * tests_state := runtests opts w (waf_cmds opts).

(** ** What is run and reported *)

(** The calls of the shell for a list of commands: the status and the text of each. *)
Fixpoint calls (w : W) (muted : bool) (cmds : list pystr) : W * list (pystr * Z * pystr) :=
  match cmds with
  | [] => (w, [])
  | cmd :: cmds =>
      let '(w', ret, text) := call w cmd muted in
      let '(w'', l) := calls w' muted cmds in
      (w'', (cmd, ret, text) :: l)
  end.

Definition shown (cmd : pystr) : pystr := str_replace cmd executable [].

Definition failed (c : pystr * Z * pystr) : Prop := c.1.2 <> 0%Z.

Lemma run_case_call opts total cmd p w ret text :
  call (world p) cmd (mute opts) = (w, ret, text) ->
  let p' := run_case opts total p cmd in
  world p' = w /\ file p' = file p ++ print_case_in_file (shown cmd) ++ text /\ run_count p' = (run_count p + 1)%N /\
  ((ret = 0%Z /\ passed p' = (passed p + 1)%N /\ failed_cases p' = failed_cases p) \/
   (ret <> 0%Z /\ passed p' = passed p /\ failed_cases p' = failed_cases p ++ [shown cmd])).
Proof.
  intros E. unfold run_case. rewrite E. cbn [world file run_count passed failed_cases]. split_and!; [done..|].
  destruct (Z.eqb_spec ret 0); [left|right]; done.
Qed.

Lemma run_cases_calls opts total cmds p :
  let p' := foldl (run_case opts total) p cmds in
  let '(w, l) := calls (world p) (mute opts) cmds in
  world p' = w /\
  file p' = file p ++ mjoin ((fun c => print_case_in_file (shown c.1.1) ++ c.2) <$> l) /\
  run_count p' = (run_count p + N.of_nat (length cmds))%N /\
  failed_cases p' = failed_cases p ++ ((fun c => shown c.1.1) <$> filter failed l) /\
  (passed p' + N.of_nat (length (failed_cases p')) + run_count p =
   passed p + N.of_nat (length (failed_cases p)) + run_count p')%N /\ l.*1.*1 = cmds.
Proof.
  revert p. induction cmds as [|cmd cmds IH]; intros p; cbn [calls foldl].
  - cbn. rewrite !(right_id_L [] (++)). split_and!; try done; lia.
  - destruct (call (world p) cmd (mute opts)) as [[w ret] text] eqn:Ec.
    destruct (run_case_call opts total cmd p w ret text Ec) as (Hw & Hf & Hn & Hp).
    specialize (IH (run_case opts total p cmd)). revert IH Hw Hf Hn Hp. generalize (run_case opts total p cmd).
    intros p1 IH Hw Hf Hn Hp. rewrite Hw in IH. destruct (calls w (mute opts) cmds) as [w' l].
    destruct IH as (H1 & H2 & H3 & H4 & H5 & H6). cbn [fmap list_fmap mjoin list_join fst snd length].
    split; [done|]. split; [by rewrite H2, Hf, <- !(assoc_L (++))|]. split; [lia|].
    rewrite filter_cons. unfold failed at 1. cbn [fst snd].
    destruct Hp as [(-> & Hp & Hfc)|(Hr & Hp & Hfc)].
    + rewrite decide_False by by intros []. rewrite Hfc in H4, H5. split; [done|]. split; [lia|]. by f_equal.
    + rewrite decide_True by done. rewrite Hfc in H4, H5. rewrite length_app in H5. cbn [length] in H5.
      split; [by rewrite H4, <- (assoc_L (++))|]. split; [lia|]. by f_equal.
Qed.

Lemma failed_none (l : list (pystr * Z * pystr)) :
  (fun c : pystr * Z * pystr => shown c.1.1) <$> filter failed l = [] <-> Forall (fun c => c.1.2 = 0%Z) l.
Proof.
  rewrite Forall_forall. split.
  - intros Hn%fmap_nil_inv c Hc. destruct (decide (c.1.2 = 0%Z)) as [|Hne]; [done|].
    assert (c ∈ filter failed l) as Hin by by apply list_elem_of_filter.
    rewrite Hn in Hin. by apply not_elem_of_nil in Hin.
  - intros Hall. assert (filter failed l = []) as ->; [|done]. apply elem_of_nil_inv.
    intros c [Hf Hc]%list_elem_of_filter. by apply Hf, Hall.
Qed.

(** Running a list of commands runs each of them once, in order, whatever the status of
    those before.  The value is 0 when every status is 0, and 1 otherwise; the failed cases
    are the commands with another status, and with those that passed they are all.  The
    file has the header of each command and what it wrote.  When the commands are only
    listed nothing is run and the exit status is 0. *)
Theorem runtests_spec opts w cmds :
  let '(w', l) := calls w (mute opts) cmds in
  (list_cmds opts = false ->
   exists p, runtests opts w cmds = (Some (if decide (Forall (fun c => c.1.2 = 0%Z) l) then 0 else 1)%Z, p) /\
     world p = w' /\ l.*1.*1 = cmds /\
     file p = mjoin ((fun c => print_case_in_file (shown c.1.1) ++ c.2) <$> l) /\
     failed_cases p = ((fun c => shown c.1.1) <$> filter failed l) /\
     (passed p + N.of_nat (length (failed_cases p)) = N.of_nat (length cmds))%N) /\
  (list_cmds opts = true -> world (runtests opts w cmds).2 = w /\ exit_status (runtests opts w cmds).1 = 0%Z).
Proof.
  pose proof (run_cases_calls opts (N.of_nat (length cmds)) cmds
    {| world := w; printed := []; file := []; passed := 0; run_count := 0; failed_cases := [] |}) as H.
  fold (run_cases opts w cmds) in H. cbv zeta in H. cbn [length world file run_count passed failed_cases] in H.
  destruct (calls w (mute opts) cmds) as [w' l]. destruct H as (H1 & H2 & H3 & H4 & H5 & H6). split.
  - intros E. unfold runtests. rewrite E. eexists. split.
    + f_equal. f_equal. rewrite H4. cbn [app].
      destruct (decide (Forall _ l)) as [Hd|Hd]; [by rewrite decide_True by by apply failed_none|].
      rewrite decide_False; [done|]. by intros Hn%failed_none.
    + cbn [world file passed failed_cases]. split_and!; [done..|]. lia.
  - intros E. unfold runtests. by rewrite E.
Qed.

(** ** What is tested of waf *)

(** The options tested with a command, and the line run for one of them. *)
Definition options_of (cmd : pystr) : list pystr :=
  (if decide (cmd = $"basic") then [] else common_test_cases) ++ default [] (test_case_mappings cmd).

Definition bracketed (cmd option : pystr) : pystr :=
  match before cmd with Some p => p ++ $" && " | None => [] end ++
  (waf_string ++ $" " ++ cmd ++ $" " ++ option) ++
  match after cmd with Some p => $" && " ++ p | None => [] end.

Definition extra (cmd : pystr) : list pystr :=
  if decide (cmd = $"basic") then basic_extra else if decide (cmd = $"build") then build_extra else [].

Lemma replace_app pre post l l' : replace pre post (l ++ l') = replace pre post l ++ replace pre post l'.
Proof. apply fmap_app. Qed.

Lemma replace_none l : replace None None l = l.
Proof. unfold replace. rewrite <- (list_fmap_id l) at 2. apply list_fmap_ext. intros i x _. by rewrite (right_id_L [] (++)). Qed.

Lemma waf_cmd_list_eq cmd : waf_cmd_list cmd = (bracketed cmd <$> options_of cmd) ++ extra cmd.
Proof.
  assert (forall l, replace (before cmd) (after cmd) (with_options cmd l) = bracketed cmd <$> l) as Hr.
  { intros l. unfold replace, with_options. rewrite <- list_fmap_compose. done. }
  unfold waf_cmd_list, options_of, extra. destruct (decide (cmd = $"basic")) as [->|Hb].
  - change (test_case_mappings $"basic") with (Some basic_test_cases). cbn [app default].
    rewrite decide_False by done. rewrite replace_app, Hr. f_equal. apply replace_none.
  - assert (match test_case_mappings cmd with
            | Some cases => with_options cmd common_test_cases ++ with_options cmd cases
            | None => with_options cmd common_test_cases end
            = with_options cmd (common_test_cases ++ default [] (test_case_mappings cmd))) as ->.
    { unfold with_options. rewrite fmap_app. by destruct (test_case_mappings cmd); cbn [default]; rewrite ?(right_id_L [] (++)). }
    rewrite Hr. case_decide; [done|]. by rewrite (right_id_L [] (++)).
Qed.

Lemma calls_status (status : pystr -> Z) m cmds w :
  (forall w cmd m, (call w cmd m).1.2 = status cmd) ->
  Forall (fun c => c.1.2 = 0%Z) (calls w m cmds).2 <-> Forall (fun cmd => status cmd = 0%Z) cmds.
Proof.
  intros Hs. revert w. induction cmds as [|cmd cmds IH]; intros w; cbn [calls]; [done|].
  pose proof (Hs w cmd m) as Hc. destruct (call w cmd m) as [[w1 ret] text]. cbn in Hc. subst ret.
  specialize (IH w1). destruct (calls w1 m cmds) as [w2 l]. cbn in *. by rewrite !Forall_cons, IH.
Qed.

(** With a shell whose status depends on the command alone, the tests of waf succeed
    exactly when each option tested with each of the commands does, run between the
    commands that prepare it and that clean up, and the builds of an example and of a
    coverage report. *)
Theorem waf_main_spec opts w (status : pystr -> Z) :
  list_cmds opts = false -> (forall w cmd m, (call w cmd m).1.2 = status cmd) ->
  exit_status (waf_main opts w).1 = 0%Z <->
  (forall cmd, cmd ∈ waf_names opts ->
    (forall option, option ∈ options_of cmd -> status (bracketed cmd option) = 0%Z) /\
    (forall line, line ∈ extra cmd -> status line = 0%Z)).
Proof.
  intros Hl Hs. assert (exit_status (waf_main opts w).1 = 0%Z <-> Forall (fun cmd => status cmd = 0%Z) (waf_cmds opts)) as ->.
  { rewrite <- (calls_status status (mute opts) (waf_cmds opts) w Hs). unfold waf_main, runtests. rewrite Hl. cbn [fst exit_status default].
    pose proof (run_cases_calls opts (N.of_nat (length (waf_cmds opts))) (waf_cmds opts)
      {| world := w; printed := []; file := []; passed := 0; run_count := 0; failed_cases := [] |}) as H.
    fold (run_cases opts w (waf_cmds opts)) in H. cbv zeta in H. cbn [world failed_cases] in H.
    destruct (calls w (mute opts) (waf_cmds opts)) as [w' l]. destruct H as (_ & _ & _ & -> & _). cbn [app snd].
    rewrite <- failed_none. by case_decide. }
  unfold waf_cmds. rewrite Forall_forall. split.
  - intros H cmd Hc. split; intros x Hx; apply H, list_elem_of_join; exists (waf_cmd_list cmd).
    + split; [rewrite waf_cmd_list_eq; apply elem_of_app; left; by apply list_elem_of_fmap_2|by apply list_elem_of_fmap_2].
    + split; [rewrite waf_cmd_list_eq; apply elem_of_app; by right|by apply list_elem_of_fmap_2].
  - intros H x Hx. apply list_elem_of_join in Hx as (l & Hx & Hl'). apply list_elem_of_fmap in Hl' as (cmd & -> & Hc).
    rewrite waf_cmd_list_eq in Hx. destruct (H cmd Hc) as [H1 H2].
    apply elem_of_app in Hx as [(o & -> & Ho)%list_elem_of_fmap|Hx]; [by apply H1|by apply H2].
Qed.

End runner.

(** ** Examples *)

(** Of three commands the second fails. *)
Definition example_status (cmd : pystr) : Z := if decide (cmd = $"python waf build") then 2 else 0.

Definition example_call (w : nat) (cmd : pystr) (muted : bool) : nat * Z * pystr :=
  (S w, example_status cmd, if muted then [] else $"out" ++ [NL]).

Definition example_options : options := default_options $"waf".

Example runtests_example :
  let '(ret, p) := runtests $"python" example_call example_options 0 [$"python waf"; $"python waf build"; $"python waf dist"] in
  (ret, world p, failed_cases p, passed p) = (Some 1%Z, 3, [$" waf build"], 2%N) /\
  last (printed p) = Some ($"Detailed output available in test-port-waf.out" ++ [NL]) /\
  printed p !! 1 = Some ($"[ 1 out of 3 ] test cases passed; Progress = 33.33% " ++ [NL]).
Proof. by vm_compute. Qed.

(** A comma is missing in the list: the two are one test case, whose option is not a
    fullness of [test.py], and [-g] alone is not tested. *)
Example test_cases_joined : $"-f EXTENSIVE --fullness=EXTENSIVE-g" ∈ test_cases /\ $"-g" ∉ test_cases.
Proof. split; by apply (bool_decide_unpack _); vm_compute. Qed.

Lemma runtests_spec_witness :
  let '(w', l) := calls example_call 0 false [$"python waf"; $"python waf build"] in
  (list_cmds example_options = false ->
   exists p, runtests $"python" example_call example_options 0 [$"python waf"; $"python waf build"] =
     (Some (if decide (Forall (fun c => c.1.2 = 0%Z) l) then 0 else 1)%Z, p) /\
     world p = w' /\ l.*1.*1 = [$"python waf"; $"python waf build"] /\
     file p = mjoin ((fun c => print_case_in_file (shown $"python" c.1.1) ++ c.2) <$> l) /\
     failed_cases p = ((fun c => shown $"python" c.1.1) <$> filter failed l) /\
     (passed p + N.of_nat (length (failed_cases p)) = 2)%N) /\
  (list_cmds example_options = true -> world (runtests $"python" example_call example_options 0 [$"python waf"; $"python waf build"]).2 = 0 /\
    exit_status (runtests $"python" example_call example_options 0 [$"python waf"; $"python waf build"]).1 = 0%Z).
Proof. apply (runtests_spec $"python" example_call example_options 0 [$"python waf"; $"python waf build"]). Defined.

Lemma waf_main_spec_witness :
  exit_status (waf_main $"python" example_call example_options 0).1 = 0%Z <->
  (forall cmd, cmd ∈ waf_names example_options ->
    (forall option, option ∈ options_of cmd ->
      example_status (bracketed $"python" cmd option) = 0%Z) /\
    (forall line, line ∈ extra $"python" cmd -> example_status line = 0%Z)).
Proof.
  apply (waf_main_spec $"python" example_call example_options 0
    example_status); [by vm_compute|done].
Defined.
