(* ===== verification/StackTrace.v ===== *)
(** * [scratch/stacktrace_to_graph.py]: from a trace of events to a graph

    [get_graph] reads the trace, [get_shared_stack] takes the frames that all the events
    scheduled by one event have in common, [get_flow_chart] writes the graph.  The lines of
    the script itself are composed by [stacktrace_main]: the contents of [stacktrace.txt]
    to those of [flowchart.dot]. *)

From Stdlib Require Import QArith Lqa.
From S2P Require Import Prelude PyDict PyFloat.

(** [int(s)] of a string: spaces around, a sign, and single underscores between digits. *)
Definition int_digits (s : pystr) : py N :=
  let groups := split_on "_"%char s in
  if forallb (fun g => negb (bool_decide (g = []))) groups then int_of_digits (mjoin groups)
  else Err ValueError.

Definition py_int (s : pystr) : py Z :=
  match strip s with
  | "-"%char :: s => let! n := int_digits s in Ok (- Z.of_N n)%Z
  | "+"%char :: s => let! n := int_digits s in Ok (Z.of_N n)
  | s => let! n := int_digits s in Ok (Z.of_N n)
  end.

Definition truthy (s : option pystr) : bool :=
  match s with None | Some [] => false | _ => true end.

Section graph.
Context {D : Type -> Type} `{PyDict Z D}.

(** An edge: when the event was scheduled, and the stack of the call, outermost first. *)
Record edge := { time_ns : Z; stack : list pystr }.

Record node := { edges : D edge; timestamp_s : Q; context : Z; shared_stack : option (list pystr) }.

Definition set_edges (es : D edge) (n : node) : node :=
  {| edges := es; timestamp_s := timestamp_s n; context := context n; shared_stack := shared_stack n |}.
Definition set_shared (s : list pystr) (n : node) : node :=
  {| edges := edges n; timestamp_s := timestamp_s n; context := context n; shared_stack := Some s |}.
Definition set_timestamp (t : Q) (n : node) : node :=
  {| edges := edges n; timestamp_s := t; context := context n; shared_stack := shared_stack n |}.

Definition seconds (ns : Z) : Q := (inject_Z ns / inject_Z (10 ^ 9))%Q.

(** ** [get_graph] *)

Fixpoint discard (trace_log : list pystr) : py (list pystr) :=
  match trace_log with
  | [] => Err IndexError
  | line :: trace_log' => if str_contains line $"SimulationTime" then Ok trace_log else discard trace_log'
  end.

Definition token (temp : list pystr) (i : Z) : py Z := let! w := py_get temp i in py_int w.

(** The lines up to a line of at most one character, which is removed too; the frames come
    innermost first.  [n] is [trace_log_len]. *)
Fixpoint read_stack (trace_log : list pystr) (n : Z) : py (list pystr * list pystr * Z) :=
  match trace_log with
  | [] => Err IndexError
  | line :: trace_log' =>
      if 1 <? length line then
        let! frame := py_get (split_on "#"%char line) 1 in
        let! '(frames, rest, n') := read_stack trace_log' (n - 1) in
        Ok (frame :: frames, rest, n')
      else Ok ([], trace_log', n)
  end.

Definition new_node (timestamp : Q) (ctx : Z) : node :=
  {| edges := d_empty; timestamp_s := timestamp; context := ctx; shared_stack := None |}.

Definition ensure (id : Z) (n : node) (nodes : D node) : D node :=
  match d_get nodes id with Some _ => nodes | None => d_set id n nodes end.

Definition add_edge (currentId scheduledId : Z) (e : edge) (nodes : D node) : py (D node) :=
  let! n := d_item nodes currentId in
  Ok (d_set currentId (set_edges (d_set scheduledId e (edges n)) n) nodes).

Definition NO_CONTEXT : Z := 4294967295.

Definition read_event (trace_log : list pystr) (n : Z) (nodes : D node) : py (list pystr * Z * D node) :=
  match trace_log with
  | [] => Err IndexError
  | line :: trace_log =>
      let temp := split_on " "%char line in
      let! timestamp_ns := token temp 1 in
      let! currentId := token temp 3 in
      let! scheduledId := token temp 5 in
      let! scheduled_timestamp_ns := token temp 7 in
      let! ctx := token temp 9 in
      let! '(frames, trace_log, n) := read_stack trace_log (n - 2) in
      let nodes := ensure currentId (new_node 0 (-1)) nodes in
      let! nodes := add_edge currentId scheduledId {| time_ns := timestamp_ns; stack := reverse frames |} nodes in
      Ok (trace_log, n, ensure scheduledId (new_node (seconds scheduled_timestamp_ns)
                                             (if decide (ctx = NO_CONTEXT) then -1 else ctx)%Z) nodes)
  end.

Fixpoint read_events (fuel : nat) (trace_log : list pystr) (n : Z) (nodes : D node) : option (py (D node)) :=
  match fuel with
  | O => None
  | S fuel =>
      if Z.ltb 0 n then
        match read_event trace_log n nodes with
        | Ok (trace_log, n, nodes) => read_events fuel trace_log n nodes
        | Err e => Some (Err e)
        end
      else Some (Ok nodes)
  end.

Definition get_graph (fuel : nat) (trace_file : pystr) : option (py (D node)) :=
  match discard (readlines trace_file) with
  | Ok trace_log => read_events fuel trace_log (py_len trace_log) d_empty
  | Err e => Some (Err e)
  end.

(** ** [get_shared_stack] *)

(** The first frame of the stacks of the edges, when it is the same. *)
Fixpoint common_frame (es : list edge) (common : option pystr) : option pystr :=
  match es with
  | [] => common
  | e :: es =>
      match stack e with
      | [] => None
      | edge_stack :: _ =>
          let common := if truthy common then common else Some edge_stack in
          if decide (common = Some edge_stack) then common_frame es common else None
      end
  end.

(** The edges in the order of the dictionary. *)
Definition edge_list (es : D edge) : list edge := omap (d_get es) (d_keys es).

Definition popleft_edge (es : D edge) (k : Z) : py (D edge) :=
  let! e := d_item es k in
  match stack e with
  | [] => Err IndexError
  | _ :: s => Ok (d_set k {| time_ns := time_ns e; stack := s |} es)
  end.

Definition popleft_edges (es : D edge) : py (D edge) := for_each popleft_edge (d_keys es) es.

Fixpoint share (fuel : nat) (es : D edge) (shared : list pystr) : option (py (D edge * list pystr)) :=
  match fuel with
  | O => None
  | S fuel =>
      match common_frame (edge_list es) None with
      | Some ((_ :: _) as common) =>
          match popleft_edges es with
          | Ok es => share fuel es (shared ++ [common])
          | Err e => Some (Err e)
          end
      | _ => Some (Ok (es, shared))
      end
  end.

Definition smallest_step (smallest : option Z) (t : Z) : option Z :=
  let s := match smallest with None => t | Some s => if Z.eqb s 0 then t else s end in
  Some (if Z.ltb t s then t else s).

Definition smallest_timestamp (es : list edge) : option Z := foldl smallest_step None (time_ns <$> es).

Definition share_node (fuel : nat) (n : node) : option (py node) :=
  match share fuel (edges n) [] with
  | Some (Ok (es, shared)) =>
      let n := set_shared shared (set_edges es n) in
      Some (Ok (match smallest_timestamp (edge_list es) with
                | Some t => set_timestamp (seconds t) n
                | None => n
                end))
  | Some (Err e) => Some (Err e)
  | None => None
  end.

Fixpoint share_nodes (fuel : nat) (ids : list Z) (nodes : D node) : option (py (D node)) :=
  match ids with
  | [] => Some (Ok nodes)
  | id :: ids =>
      match d_get nodes id with
      | None => Some (Err KeyError)
      | Some n =>
          match share_node fuel n with
          | Some (Ok n') => share_nodes fuel ids (d_set id n' nodes)
          | Some (Err e) => Some (Err e)
          | None => None
          end
      end
  end.

Definition get_shared_stack (fuel : nat) (nodes : D node) : option (py (D node)) :=
  share_nodes fuel (d_keys nodes) nodes.

(** ** [get_flow_chart] *)

(** The innermost frame without Schedule, or all the frames. *)
Definition shown_stack (s : list pystr) : pystr :=
  let l := match find (fun f => negb (str_contains f $"Schedule")) (reverse s) with
           | Some f => f
           | None => mjoin s
           end in
  (fun c => if decide (c = NL) then ";"%char else c) <$> l.

Definition node_text (id : Z) (n : node) : py pystr :=
  let! shared := or_raise KeyError (shared_stack n) in
  Ok (show_Z id ++ $" [label=" ++ dquote ++ $" Timestamp=" ++ show_fixed 6 (timestamp_s n) ++ $"s, Context=" ++
      show_Z (context n) ++ $", Shared Stack=" ++ shown_stack shared ++ dquote ++ $"];").

Definition edge_text (nodes : D node) (id : Z) (n : node) (target : Z) : py pystr :=
  let! n' := d_item nodes target in
  let! e := d_item (edges n) target in
  Ok (show_Z id ++ $" -> " ++ show_Z target ++ $" [label=" ++ dquote ++ $"Delay=" ++
      show_fixed 6 (timestamp_s n' - timestamp_s n) ++ $", Stack=" ++ shown_stack (stack e) ++ dquote ++ $"];").

Definition node_lines (nodes : D node) : py (list pystr) :=
  for_each (fun l id => let! n := d_item nodes id in let! t := node_text id n in Ok (l ++ [t])) (d_keys nodes) [].

Definition edge_lines (nodes : D node) : py (list pystr) :=
  for_each (fun l id =>
    let! n := d_item nodes id in
    for_each (fun l target => let! t := edge_text nodes id n target in Ok (l ++ [t])) (d_keys (edges n)) l)
    (d_keys nodes) [].

Definition get_flow_chart (nodes : D node) : py pystr :=
  let! flow_chart_nodes := node_lines nodes in
  let! flow_chart_edges := edge_lines nodes in
  Ok ($"digraph sim {" ++ [NL] ++ join [NL] flow_chart_nodes ++ [NL] ++ join [NL] flow_chart_edges ++
      [NL] ++ $"}" ++ [NL]).

Definition stacktrace_main (fuel : nat) (stacktrace_txt : pystr) : option (py pystr) :=
  match get_graph fuel stacktrace_txt with
  | Some (Ok stack_graph) =>
      match get_shared_stack fuel stack_graph with
      | Some (Ok shared_stack_graph) => Some (get_flow_chart shared_stack_graph)
      | Some (Err e) => Some (Err e)
      | None => None
      end
  | Some (Err e) => Some (Err e)
  | None => None
  end.

End graph.

Arguments edge : clear implicits.
Arguments node : clear implicits.

(** ** The text of a trace *)

(** An event, with its frames, outermost first: a label and the frame.  The words before
    the numbers of the first line are any. *)
Record trace_event := {
  ev_words : pystr * pystr * pystr * pystr;
  ev_time : N; ev_current : N; ev_scheduled : N; ev_scheduled_time : N; ev_context : N;
  ev_frames : list (pystr * pystr)
}.

Definition header_line (e : trace_event) : pystr :=
  let '(w1, w2, w3, w4) := ev_words e in
  join $" " [$"SimulationTime:"; show_N (ev_time e); w1; show_N (ev_current e); w2; show_N (ev_scheduled e);
             w3; show_N (ev_scheduled_time e); w4; show_N (ev_context e)] ++ [NL].

Definition frame_line (f : pystr * pystr) : pystr := f.1 ++ "#"%char :: f.2 ++ [NL].

Definition event_lines (e : trace_event) : list pystr :=
  header_line e :: (frame_line <$> reverse (ev_frames e)) ++ [[NL]].

Definition plain (s : pystr) : Prop := " "%char ∉ s /\ NL ∉ s.

Record wf_event (e : trace_event) : Prop := {
  wf_words : let '(w1, w2, w3, w4) := ev_words e in plain w1 /\ plain w2 /\ plain w3 /\ plain w4;
  wf_frames : Forall (fun f : pystr * pystr => "#"%char ∉ f.1 /\ NL ∉ f.1 /\ "#"%char ∉ f.2 /\ NL ∉ f.2) (ev_frames e)
}.

(** ** Reading the text *)

Lemma show_N_plain n c : is_digit c = false -> c ∉ show_N n.
Proof. intros Hc H. pose proof (show_N_digits n) as Hd. rewrite Forall_forall in Hd. apply Hd in H. congruence. Qed.

Lemma py_int_show_N n w : Forall (fun c => is_ws c = true) w -> py_int (show_N n ++ w) = Ok (Z.of_N n).
Proof.
  intros Hw. pose proof (show_N_digits n) as Hd. pose proof (show_N_nonempty n) as Hne.
  assert (no_space_ends (show_N n)) as Hns.
  { rewrite Forall_forall in Hd. split; intros c Hc; apply digit_not_space, Hd.
    - destruct (show_N n); [done|]. injection Hc as ->. left.
    - apply last_Some in Hc as [l ->]. set_solver. }
  unfold py_int. rewrite strip_spaces by done.
  assert (int_digits (show_N n) = Ok n) as Hi.
  { unfold int_digits. rewrite split_on_no by by apply show_N_plain. cbn [forallb].
    rewrite bool_decide_eq_false_2 by done. cbn [negb andb mjoin list_join]. rewrite (right_id_L [] (++)). apply int_of_show_N. }
  destruct (show_N n) as [|c s] eqn:E; [done|]. apply Forall_cons in Hd as [Hc _].
  assert (c <> "-"%char /\ c <> "+"%char) as [H1 H2] by (split; intros ->; done).
  destruct c as [[] [] [] [] [] [] [] []]; rewrite ?Hi; done.
Qed.

(** The number of an event line at a position. *)
Lemma split_header e : wf_event e ->
  exists w0 w1 w2 w3 w4, split_on " "%char (header_line e) =
    [w0; show_N (ev_time e); w1; show_N (ev_current e); w2; show_N (ev_scheduled e); w3; show_N (ev_scheduled_time e);
     w4; show_N (ev_context e) ++ [NL]].
Proof.
  intros [Hw _]. unfold header_line. destruct (ev_words e) as [[[w1 w2] w3] w4].
  destruct Hw as ([H1 _] & [H2 _] & [H3 _] & [H4 _]).
  exists $"SimulationTime:", w1, w2, w3, w4. cbn [join]. rewrite <- !app_assoc.
  assert (forall n, " "%char ∉ show_N n) as Hn by (intros n; by apply show_N_plain).
  assert (" "%char ∉ $"SimulationTime:") as H0 by by by apply (bool_decide_unpack _).
  assert (forall w s, " "%char ∉ w -> split_on " "%char (w ++ $" " ++ s) = w :: split_on " "%char s) as Hs
    by (intros w s Hw; by apply split_on_app).
  rewrite !Hs by done. do 9 f_equal. apply split_on_no. rewrite not_elem_of_app. split; [done|]. by rewrite list_elem_of_singleton.
Qed.

Definition whole_line (l : pystr) : Prop := exists s, l = s ++ [NL] /\ NL ∉ s.

Lemma readlines_whole ls : Forall whole_line ls -> readlines (mjoin ls) = ls.
Proof.
  induction 1 as [|l ls (s & -> & Hs) _ IH]; [done|]. cbn [mjoin list_join]. rewrite <- (assoc_L (++)). cbn [app].
  assert (readlines (NL :: mjoin ls) = [NL] :: ls) as E by (cbn [readlines]; rewrite decide_True, IH by done; done).
  by rewrite (readlines_line s _ [NL] ls).
Qed.

Lemma header_whole e : wf_event e -> whole_line (header_line e).
Proof.
  intros [Hw _]. unfold header_line. destruct (ev_words e) as [[[w1 w2] w3] w4].
  destruct Hw as ([_ H1] & [_ H2] & [_ H3] & [_ H4]). eexists. split; [reflexivity|].
  assert (forall n, NL ∉ show_N n) as Hn by (intros n; by apply show_N_plain).
  assert (NL ∉ $"SimulationTime:") as H0 by by apply (bool_decide_unpack _).
  assert (NL ∉ $" ") as Hs by by apply (bool_decide_unpack _).
  cbn [join]. rewrite !not_elem_of_app. by repeat split.
Qed.

Lemma event_lines_whole e : wf_event e -> Forall whole_line (event_lines e).
Proof.
  intros He. constructor; [by apply header_whole|]. apply Forall_app. split.
  - apply Forall_fmap, Forall_reverse. eapply Forall_impl; [exact (wf_frames e He)|].
    intros [l f] (_ & H1 & _ & H2). exists (l ++ "#"%char :: f). cbn. rewrite <- (assoc_L (++)). split; [done|].
    rewrite not_elem_of_app, not_elem_of_cons. done.
  - repeat constructor. exists []. split; [done|apply not_elem_of_nil].
Qed.

(** What the stack of an event is: the frames with the ends of their lines. *)
Definition frame_texts (fs : list (pystr * pystr)) : list pystr := (fun f => f.2 ++ [NL]) <$> fs.

Lemma read_stack_frames fs rest n :
  Forall (fun f : pystr * pystr => "#"%char ∉ f.1 /\ NL ∉ f.1 /\ "#"%char ∉ f.2 /\ NL ∉ f.2) fs ->
  read_stack ((frame_line <$> fs) ++ [NL] :: rest) n = Ok (frame_texts fs, rest, n - Z.of_nat (length fs))%Z.
Proof.
  intros H. revert n. induction H as [|[l f] fs (H1 & _ & H2 & _) _ IH]; intros n.
  - cbn. do 2 f_equal. lia.
  - cbn [fmap list_fmap app read_stack]. unfold frame_line at 1 2. cbn [fst snd].
    assert (1 <? length (l ++ "#"%char :: f ++ [NL]) = true) as ->.
    { apply Nat.ltb_lt. rewrite !length_app. cbn. rewrite length_app. cbn. lia. }
    rewrite split_on_app, split_on_no by (done || by rewrite not_elem_of_app, list_elem_of_singleton).
    rewrite py_get_lookup by lia. cbn [lookup list_lookup or_raise rbind]. fold (frame_line <$> fs).
    change (list_fmap _ _ frame_line fs) with (frame_line <$> fs). rewrite IH. cbn [rbind length].
    by replace (n - 1 - Z.of_nat (length fs))%Z with (n - Z.of_nat (S (length fs)))%Z by lia.
Qed.

(** ** The graph of a list of events *)

Definition ctx_of (n : N) : Z := (if decide (Z.of_N n = NO_CONTEXT) then -1 else Z.of_N n)%Z.

Definition edge_of_event (e : trace_event) : edge :=
  {| time_ns := Z.of_N (ev_time e); stack := frame_texts (ev_frames e) |}.

(** What an event says of an identifier, and of an edge. *)
Definition mention (id : Z) (e : trace_event) : option (Q * Z) :=
  if decide (id = Z.of_N (ev_current e)) then Some (0%Q, (-1)%Z)
  else if decide (id = Z.of_N (ev_scheduled e)) then Some (seconds (Z.of_N (ev_scheduled_time e)), ctx_of (ev_context e))
  else None.

Definition mention_edge (c s : Z) (e : trace_event) : option edge :=
  if decide (c = Z.of_N (ev_current e) /\ s = Z.of_N (ev_scheduled e)) then Some (edge_of_event e) else None.

(** A node is as it was first mentioned, an edge as it was last. *)
Definition first_mention (evs : list trace_event) (id : Z) : option (Q * Z) := head (omap (mention id) evs).
Definition last_edge (evs : list trace_event) (c s : Z) : option edge := last (omap (mention_edge c s) evs).

Lemma first_mention_snoc evs e id :
  first_mention (evs ++ [e]) id = match first_mention evs id with Some x => Some x | None => mention id e end.
Proof.
  unfold first_mention. rewrite omap_app. destruct (omap (mention id) evs); [|done]. cbn. by destruct (mention id e).
Qed.

Lemma last_edge_snoc evs e c s :
  last_edge (evs ++ [e]) c s = match mention_edge c s e with Some x => Some x | None => last_edge evs c s end.
Proof.
  unfold last_edge. rewrite omap_app. cbn. destruct (mention_edge c s e); [apply last_snoc|]. by rewrite (right_id_L [] (++)).
Qed.

Section graph_spec.
Context {D : Type -> Type} `{!PyDict Z D, !PyDictLaws Z D}.

Definition node_data (n : node D) : Q * Z := (timestamp_s n, context n).

Definition edge_at (g : D (node D)) (c s : Z) : option edge := d_get g c ≫= fun n => d_get (edges n) s.

(** A graph as the events say. *)
Record graph_of (evs : list trace_event) (g : D (node D)) : Prop := {
  graph_nodes : forall id, node_data <$> d_get g id = first_mention evs id;
  graph_edges : forall c s, edge_at g c s = last_edge evs c s
}.

Lemma d_get_ensure id n (g : D (node D)) id' :
  d_get (ensure id n g) id' = if decide (id = id') then Some (default n (d_get g id)) else d_get g id'.
Proof.
  unfold ensure. destruct (d_get g id) as [n0|] eqn:E.
  - case_decide; subst; by rewrite ?E.
  - rewrite d_get_set. by case_decide.
Qed.

Lemma edge_at_ensure id t x (g : D (node D)) c s : edge_at (ensure id (new_node t x) g) c s = edge_at g c s.
Proof.
  unfold edge_at. rewrite d_get_ensure. case_decide as Hd; [|done]. subst id.
  destruct (d_get g c); [done|]. cbn. apply d_get_empty.
Qed.

(** The graph after an event. *)
Definition add_event (e : trace_event) (g : D (node D)) : D (node D) :=
  let cur := Z.of_N (ev_current e) in
  let n0 := default (new_node 0 (-1)) (d_get g cur) in
  ensure (Z.of_N (ev_scheduled e)) (new_node (seconds (Z.of_N (ev_scheduled_time e))) (ctx_of (ev_context e)))
    (d_set cur (set_edges (d_set (Z.of_N (ev_scheduled e)) (edge_of_event e) (edges n0)) n0)
       (ensure cur (new_node 0 (-1)) g)).

Lemma add_event_graph e evs g : graph_of evs g -> graph_of (evs ++ [e]) (add_event e g).
Proof.
  intros [Hn Hedges]. unfold add_event. set (cur := Z.of_N (ev_current e)). set (sch := Z.of_N (ev_scheduled e)). split.
  - intros id. rewrite first_mention_snoc, <- Hn, d_get_ensure, !d_get_set, !d_get_ensure.
    unfold mention. fold cur. fold sch.
    destruct (decide (id = cur)) as [->|Hc].
    + rewrite (decide_True _ _ (eq_refl cur)). case_decide as Hs.
      * rewrite Hs, decide_True by done. cbn. by destruct (d_get g cur).
      * cbn. by destruct (d_get g cur).
    + destruct (decide (id = sch)) as [->|Hs].
      * rewrite decide_True by done. rewrite !decide_False by done. cbn. by destruct (d_get g sch).
      * rewrite !decide_False by done. by destruct (d_get g id).
  - intros c s. rewrite last_edge_snoc, <- Hedges, edge_at_ensure. unfold edge_at, mention_edge. fold cur. fold sch.
    rewrite d_get_set, d_get_ensure. destruct (decide (c = cur)) as [->|Hc].
    + rewrite decide_True by done. cbn. rewrite d_get_set. case_decide as Hs.
      * by rewrite decide_True.
      * rewrite decide_False by naive_solver. destruct (d_get g cur); [done|]. cbn. apply d_get_empty.
    + rewrite !decide_False by naive_solver. done.
Qed.

Lemma read_event_lines e rest n (g : D (node D)) :
  wf_event e ->
  read_event (event_lines e ++ rest) n g =
    Ok (rest, n - Z.of_nat (length (event_lines e)), add_event e g)%Z.
Proof.
  intros He.
  replace (n - Z.of_nat (length (event_lines e)))%Z with (n - 2 - Z.of_nat (length (ev_frames e)))%Z.
  2: { unfold event_lines. cbn [length]. rewrite length_app, length_fmap, length_reverse. cbn [length]. lia. }
  unfold event_lines. cbn [app read_event]. rewrite <- (assoc_L (++)). cbn [app].
  destruct (split_header e He) as (w0 & w1 & w2 & w3 & w4 & ->). unfold token. rewrite !py_get_lookup by lia.
  cbn [or_raise rbind]. change (Z.to_nat 1) with 1. change (Z.to_nat 3) with 3. change (Z.to_nat 5) with 5.
  change (Z.to_nat 7) with 7. change (Z.to_nat 9) with 9. cbn [lookup list_lookup or_raise rbind].
  assert (forall k, py_int (show_N k) = Ok (Z.of_N k)) as Hk.
  { intros k. rewrite <- (right_id_L [] (++) (show_N k)). apply py_int_show_N. constructor. }
  rewrite !Hk, py_int_show_N by by repeat constructor. cbn [rbind].
  rewrite read_stack_frames by apply Forall_reverse, (wf_frames e He). cbn [rbind].
  rewrite length_reverse. unfold frame_texts. rewrite <- fmap_reverse, reverse_involutive. fold (frame_texts (ev_frames e)).
  unfold add_edge, d_item. rewrite d_get_ensure, decide_True by done. reflexivity.
Qed.

Lemma read_events_trace evs fuel (g : D (node D)) :
  Forall wf_event evs -> length evs < fuel ->
  read_events fuel (mjoin (event_lines <$> evs)) (py_len (mjoin (event_lines <$> evs))) g =
    Some (Ok (foldl (fun g e => add_event e g) g evs)).
Proof.
  intros H. revert fuel g. induction H as [|e evs He _ IH]; intros [|fuel] g Hf; [cbn in Hf; lia|done|cbn in Hf; lia|].
  cbn [fmap list_fmap mjoin list_join]. change (list_fmap _ _ event_lines evs) with (event_lines <$> evs).
  set (rest := mjoin (event_lines <$> evs)) in *. cbn [read_events].
  assert (0 < length (event_lines e)) as Hpos by (cbn; lia).
  rewrite (proj2 (Z.ltb_lt _ _)) by (unfold py_len; rewrite length_app; lia).
  rewrite read_event_lines by done.
  replace (py_len (event_lines e ++ rest) - Z.of_nat (length (event_lines e)))%Z with (py_len rest)
    by (unfold py_len; rewrite length_app; lia).
  rewrite IH by (cbn in Hf; lia). done.
Qed.

Lemma foldl_graph evs evs0 (g : D (node D)) :
  graph_of evs0 g -> graph_of (evs0 ++ evs) (foldl (fun g e => add_event e g) g evs).
Proof.
  revert evs0 g. induction evs as [|e evs IH]; intros evs0 g Hg; [by rewrite (right_id_L [] (++))|].
  cbn [foldl]. change (e :: evs) with ([e] ++ evs). rewrite (assoc_L (++)). by apply IH, add_event_graph.
Qed.

Lemma empty_graph : graph_of [] (d_empty : D (node D)).
Proof. split; [intros id|intros c s; unfold edge_at]; by rewrite d_get_empty. Qed.

Definition no_trace (l : pystr) : Prop := whole_line l /\ str_contains l $"SimulationTime" = false.

Lemma discard_preamble pre ls : Forall no_trace pre -> discard (pre ++ ls) = discard ls.
Proof. induction 1 as [|l pre [_ Hl] _ IH]; [done|]. cbn [app discard]. by rewrite Hl. Qed.

Lemma discard_event e rest : discard (event_lines e ++ rest) = Ok (event_lines e ++ rest).
Proof.
  unfold event_lines. cbn [app discard].
  assert (str_contains (header_line e) $"SimulationTime" = true) as ->; [|done].
  unfold header_line. destruct (ev_words e) as [[[w1 w2] w3] w4]. apply str_contains_app_l. cbn [join].
  by apply str_contains_app_l.
Qed.

(** The text of a trace: lines without events, and the events. *)
Definition trace_text (pre : list pystr) (evs : list trace_event) : pystr :=
  mjoin pre ++ mjoin (mjoin (event_lines <$> evs)).

Lemma get_graph_trace pre evs fuel :
  Forall no_trace pre -> Forall wf_event evs -> evs <> [] -> length evs < fuel ->
  get_graph (D := D) fuel (trace_text pre evs) = Some (Ok (foldl (fun g e => add_event e g) d_empty evs)).
Proof.
  intros Hpre Hevs Hne Hf. unfold get_graph, trace_text. rewrite <- join_app, readlines_whole.
  2: { apply Forall_app. split; [eapply Forall_impl; [exact Hpre|by intros l []]|].
       apply Forall_join, Forall_fmap. eapply Forall_impl; [exact Hevs|]. apply event_lines_whole. }
  rewrite discard_preamble by done.
  assert (discard (mjoin (event_lines <$> evs)) = Ok (mjoin (event_lines <$> evs))) as ->.
  { destruct evs as [|e evs]; [done|]. cbn [fmap list_fmap mjoin list_join]. apply discard_event. }
  by apply read_events_trace.
Qed.

(** Reading the text of a list of events, whatever precedes them, gives the graph they
    describe: a node for each identifier mentioned, with the time and the context of the
    event that mentions it first, and an edge for each pair of an event and one it
    schedules, with the time and the stack of the last.  A text without a trace ends with
    IndexError. *)
Theorem get_graph_spec pre evs fuel :
  Forall no_trace pre -> Forall wf_event evs -> evs <> [] -> length evs < fuel ->
  exists g, get_graph (D := D) fuel (trace_text pre evs) = Some (Ok g) /\
    (forall id, node_data <$> d_get g id = first_mention evs id) /\
    (forall c s, edge_at g c s = last_edge evs c s) /\
    get_graph (D := D) fuel (mjoin pre) = Some (Err IndexError).
Proof.
  intros Hpre Hevs Hne Hf. rewrite get_graph_trace by done. eexists. split; [done|].
  destruct (foldl_graph evs [] d_empty empty_graph) as [Hn He]. split; [done|]. split; [done|].
  unfold get_graph. rewrite readlines_whole by (eapply Forall_impl; [exact Hpre|by intros l []]).
  rewrite <- (right_id_L [] (++) pre), discard_preamble by done. done.
Qed.

(** ** The shared frames *)

Definition pop (e : edge) : edge := {| time_ns := time_ns e; stack := tail (stack e) |}.
Definition push (fs : list pystr) (e : edge) : edge := {| time_ns := time_ns e; stack := fs ++ stack e |}.

Lemma elem_of_edge_list (es : D edge) e : e ∈ edge_list es <-> exists k, d_get es k = Some e.
Proof.
  unfold edge_list. rewrite list_elem_of_omap. split; [intros (k & _ & Hk); by exists k|].
  intros [k Hk]. exists k. by rewrite d_keys_spec, Hk.
Qed.

(** The common frame is the head of all the stacks. *)
Lemma common_frame_Some l acc f :
  (forall e, e ∈ l -> [] ∉ stack e) -> acc <> Some [] -> common_frame l acc = Some f ->
  f <> [] /\ (acc = None \/ acc = Some f) /\ (forall e, e ∈ l -> head (stack e) = Some f).
Proof.
  revert acc. induction l as [|e l IH]; intros acc Hl Ha E.
  - cbn in E. subst acc. split; [naive_solver|]. split; [by right|]. by intros e ?%not_elem_of_nil.
  - cbn [common_frame] in E. pose proof (Hl e ltac:(left)) as He.
    destruct (stack e) as [|s st] eqn:Es; [done|]. assert (s <> []) as Hs by set_solver.
    assert ((if truthy acc then acc else Some s) = match acc with Some a => Some a | None => Some s end) as Et
      by (by destruct acc as [[|]|]).
    rewrite Et in E. case_decide as Hd; [|done].
    destruct (IH (Some s)) as (Hf & [|Hsf] & Hh); [set_solver|by intros [= ->]|by rewrite <- Hd|done|].
    injection Hsf as ->. split; [done|]. split; [destruct acc; naive_solver|].
    intros e' [->|He']%list.elem_of_cons; [by rewrite Es|by apply Hh].
Qed.

Lemma common_frame_all l acc f :
  f <> [] -> acc = None \/ acc = Some f -> (forall e, e ∈ l -> head (stack e) = Some f) ->
  l <> [] \/ acc = Some f -> common_frame l acc = Some f.
Proof.
  intros Hf. revert acc. induction l as [|e l IH]; intros acc Ha Hl Hne; [naive_solver|].
  cbn [common_frame]. pose proof (Hl e ltac:(left)) as He. destruct (stack e) as [|s st]; [done|].
  injection He as ->. assert ((if truthy acc then acc else Some f) = Some f) as ->.
  { destruct Ha as [->| ->]; [done|]. by destruct f. }
  rewrite decide_True by done. apply IH; [by right|set_solver|by right].
Qed.

Lemma popleft_edges_spec (es : D edge) :
  (forall k e, d_get es k = Some e -> stack e <> []) ->
  exists es', popleft_edges es = Ok es' /\ forall k, d_get es' k = pop <$> d_get es k.
Proof.
  intros Hes. unfold popleft_edges.
  destruct (for_each_total popleft_edge (fun ks es1 => forall k,
    d_get es1 k = if decide (k ∈ ks) then pop <$> d_get es k else d_get es k) (d_keys es) es) as (es' & E & H).
  - intros k. by rewrite decide_False by apply not_elem_of_nil.
  - intros l1 k l2 es1 Ek H. pose proof (d_keys_nodup _ es) as Hnd. rewrite Ek in Hnd.
    assert (k ∉ l1) as Hk by (apply NoDup_app in Hnd; set_solver).
    assert (is_Some (d_get es k)) as [e He] by (apply d_keys_spec; rewrite Ek; set_solver).
    unfold popleft_edge, d_item. rewrite H, decide_False, He by done. cbn [or_raise rbind].
    destruct (stack e) as [|f st] eqn:Es; [by apply Hes in He|]. eexists. split; [done|].
    intros k'. rewrite d_get_set, H. destruct (decide (k = k')) as [->|Hne].
    + rewrite decide_True by set_solver. rewrite He. cbn. unfold pop. by rewrite Es.
    + destruct (decide (k' ∈ l1)); [rewrite decide_True by set_solver|rewrite decide_False by set_solver]; done.
  - exists es'. split; [done|]. intros k. rewrite H. case_decide as Hk; [done|].
    destruct (d_get es k) eqn:E'; [|done]. destruct Hk. by rewrite d_keys_spec, E'.
Qed.

(** No frame is the first of all the stacks. *)
Definition nothing_shared (es : D edge) : Prop :=
  forall f, is_Some (head (edge_list es)) -> ~ (forall k e, d_get es k = Some e -> head (stack e) = Some f).

Lemma share_spec fuel (es : D edge) shared :
  (forall k e, d_get es k = Some e -> [] ∉ stack e /\ length (stack e) < fuel) -> 0 < fuel ->
  exists es' sh, share fuel es shared = Some (Ok (es', shared ++ sh)) /\
    (forall k, d_get es k = push sh <$> d_get es' k) /\ nothing_shared es'.
Proof.
  revert es shared. induction fuel as [|fuel IH]; intros es shared Hes Hf; [lia|]. cbn [share].
  assert (forall e, e ∈ edge_list es -> [] ∉ stack e) as Hl.
  { intros e [k Hk]%elem_of_edge_list. by apply Hes in Hk as []. }
  destruct (common_frame (edge_list es) None) as [f|] eqn:E.
  - assert (edge_list es <> []) as Hnil by (intros En; by rewrite En in E).
    apply common_frame_Some in E as (Hne & _ & Hh); [|done..]. destruct f as [|c f]; [done|].
    assert (forall k e, d_get es k = Some e -> head (stack e) = Some (c :: f)) as Hh'.
    { intros k e Hk. apply Hh, elem_of_edge_list. by exists k. }
    destruct (popleft_edges_spec es) as (es1 & -> & H1).
    { intros k e Hk E. apply Hh' in Hk. by rewrite E in Hk. }
    destruct (IH es1 (shared ++ [c :: f])) as (es' & sh & -> & Hsh & Hn).
    + intros k e1 Hk. rewrite H1 in Hk. destruct (d_get es k) as [e|] eqn:Ek; [|done]. injection Hk as <-.
      pose proof (Hh' k e Ek) as Hhe. apply Hes in Ek as [Hin Hlen]. cbn [pop stack].
      destruct (stack e) as [|g st]; [done|]. cbn in *. split; [set_solver|lia].
    + destruct (edge_list es) as [|e l] eqn:El; [done|].
      assert (e ∈ edge_list es) as [k Hk]%elem_of_edge_list by (rewrite El; left).
      pose proof (Hh' k e Hk) as Hhe. apply Hes in Hk as [_ Hlen]. destruct (stack e); [done|]. cbn in Hlen. lia.
    + exists es', ((c :: f) :: sh). rewrite <- (assoc_L (++)). split; [done|]. split; [|done].
      intros k. pose proof (Hsh k) as Hk. rewrite H1 in Hk. destruct (d_get es k) as [e|] eqn:Ek; cbn in Hk.
      * destruct (d_get es' k) as [e'|]; [|done]. injection Hk as Et Es. cbn. f_equal.
        pose proof (Hh' k e Ek) as Hhe. destruct e as [t st]; cbn in *. unfold push. rewrite Et. f_equal.
        destruct st as [|g st]; [done|]. cbn in *. by injection Hhe as ->; rewrite Es.
      * by destruct (d_get es' k).
  - exists es, []. rewrite (right_id_L [] (++)). split; [done|]. split.
    + intros k. destruct (d_get es k) as [[]|]; done.
    + intros f [e0 He0] Hall. assert (e0 ∈ edge_list es) as He0' by (destruct (edge_list es); [done|injection He0 as ->; left]).
      apply elem_of_edge_list in He0' as [k Hk].
      assert (f <> []) as Hf0.
      { intros ->. pose proof (Hall k e0 Hk) as Hh. apply Hes in Hk as [Hin _]. destruct (stack e0); [done|].
        injection Hh as ->. apply Hin. left. }
      rewrite (common_frame_all (edge_list es) None f) in E; [done|done|by left| |left; by intros En; rewrite En in He0].
      intros e [k' Hk']%elem_of_edge_list. by apply (Hall k').
Qed.

(** ** The times *)

(** Of positive times the fold gives the smallest. *)
Lemma smallest_fold ts acc :
  (forall t, t ∈ ts -> 0 < t)%Z -> (forall a, acc = Some a -> 0 < a)%Z ->
  match foldl smallest_step acc ts with
  | None => acc = None /\ ts = []
  | Some m => (acc = Some m \/ m ∈ ts) /\ (forall t, t ∈ ts \/ acc = Some t -> m <= t)%Z
  end.
Proof.
  revert acc. induction ts as [|t ts IH]; intros acc Hts Ha; cbn [foldl].
  - destruct acc as [a|]; [|done]. split; [by left|]. intros t [[]%not_elem_of_nil|[= ->]]. lia.
  - set (m0 := match acc with None => t | Some s => Z.min s t end).
    assert (0 < t)%Z as Ht by (apply Hts; left).
    assert (smallest_step acc t = Some m0) as ->.
    { unfold smallest_step, m0. f_equal. destruct acc as [a|]; [|by rewrite Z.ltb_irrefl].
      specialize (Ha a eq_refl). rewrite (proj2 (Z.eqb_neq a 0)) by lia. destruct (Z.ltb_spec t a); lia. }
    assert (0 < m0)%Z as Hm0 by (unfold m0; destruct acc as [a|]; [specialize (Ha a eq_refl)|]; lia).
    specialize (IH (Some m0)). destruct (foldl smallest_step (Some m0) ts) as [m|].
    + destruct IH as [Hm Hmin]; [set_solver|by intros a [= <-]|].
      assert (m <= m0)%Z as Hle by (apply Hmin; by right). split.
      * destruct Hm as [Em|Hm]; [|right; by right]. injection Em as Em. rewrite <- Em. unfold m0. clear Em. destruct acc as [a|]; [|right; left].
        destruct (Z.min_spec a t) as [[_ ->]|[_ ->]]; [by left|right; left].
      * intros t' [Ht'| ->]; [apply list.elem_of_cons in Ht' as [->|Ht']|].
        -- unfold m0 in Hle. destruct acc; lia.
        -- apply Hmin. by left.
        -- unfold m0 in Hle. lia.
    + destruct IH as [? _]; [set_solver|by intros a [= <-]|done].
Qed.

(** A node with the shared frames taken from its edges: the frames, put back, give the
    stacks there were, and no more can be taken; the time of a node with edges at positive
    times is the smallest of them. *)
Record shared_node (n n' : node D) : Prop := {
  sn_context : context n' = context n;
  sn_frames : exists sh, shared_stack n' = Some sh /\ forall k, d_get (edges n) k = push sh <$> d_get (edges n') k;
  sn_maximal : nothing_shared (edges n');
  sn_no_edges : (forall k, d_get (edges n) k = None) -> timestamp_s n' = timestamp_s n;
  sn_time : (forall k e, d_get (edges n) k = Some e -> 0 < time_ns e)%Z ->
    forall k e, d_get (edges n) k = Some e ->
    exists k0 e0, d_get (edges n) k0 = Some e0 /\ timestamp_s n' = seconds (time_ns e0) /\ (time_ns e0 <= time_ns e)%Z
}.

Lemma share_node_spec fuel n :
  (forall k e, d_get (edges n) k = Some e -> [] ∉ stack e /\ length (stack e) < fuel) -> 0 < fuel ->
  exists n', share_node fuel n = Some (Ok n') /\ shared_node n n'.
Proof.
  intros Hn Hf. destruct (share_spec fuel (edges n) [] Hn Hf) as (es & sh & E & Hsh & Hmax).
  unfold share_node. rewrite E. cbn [app]. eexists. split; [reflexivity|].
  set (t := smallest_timestamp (edge_list es)).
  assert (forall e, e ∈ edge_list (edges n) <-> exists e', e' ∈ edge_list es /\ e = push sh e') as Hel.
  { intros e. rewrite elem_of_edge_list. split.
    - intros [k Hk]. rewrite Hsh in Hk. destruct (d_get es k) as [e'|] eqn:Ek; [|done]. injection Hk as <-.
      exists e'. split; [|done]. apply elem_of_edge_list. by exists k.
    - intros (e' & He' & ->). apply elem_of_edge_list in He' as [k Hk]. exists k. by rewrite Hsh, Hk. }
  assert (edges (match t with Some t => set_timestamp (seconds t) (set_shared sh (set_edges es n)) | None => set_shared sh (set_edges es n) end) = es)
    as Hes by by destruct t.
  split; rewrite ?Hes; try done.
  - by destruct t.
  - exists sh. split; [by destruct t|done].
  - intros Hnone. assert (t = None) as ->; [|done]. unfold t, smallest_timestamp.
    destruct (edge_list es) as [|e l] eqn:El; [done|]. assert (e ∈ edge_list es) as [k Hk]%elem_of_edge_list by (rewrite El; left).
    specialize (Hnone k). by rewrite Hsh, Hk in Hnone.
  - intros Hpos k e Hk. pose proof (smallest_fold (time_ns <$> edge_list es) None) as Hs.
    assert (forall e, e ∈ edge_list es -> exists k, d_get (edges n) k = Some (push sh e)) as Hback.
    { intros e' He'. apply elem_of_edge_list, Hel. by exists e'. }
    assert (e ∈ edge_list (edges n)) as (e' & He' & ->)%Hel by (apply elem_of_edge_list; by exists k).
    fold (smallest_timestamp (edge_list es)) in Hs. fold t in Hs. destruct t as [m|].
    + destruct Hs as [[[=]|Hm] Hmin]; [|done|].
      { intros t Ht. apply list_elem_of_fmap in Ht as (e1 & -> & He1). destruct (Hback e1 He1) as [k1 Hk1]. apply (Hpos k1 _ Hk1). }
      apply list_elem_of_fmap in Hm as (e0 & -> & He0). destruct (Hback e0 He0) as [k0 Hk0].
      exists k0, (push sh e0). split; [done|]. split; [done|]. apply Hmin. left. apply list_elem_of_fmap. by exists e'.
    + destruct Hs as [_ Hnil]; [|done|].
      { intros t Ht. apply list_elem_of_fmap in Ht as (e1 & -> & He1). destruct (Hback e1 He1) as [k1 Hk1]. apply (Hpos k1 _ Hk1). }
      apply fmap_nil_inv in Hnil. rewrite Hnil in He'. by apply not_elem_of_nil in He'.
Qed.

Definition frames_below (fuel : nat) (g : D (node D)) : Prop :=
  forall c s e, edge_at g c s = Some e -> [] ∉ stack e /\ length (stack e) < fuel.

Lemma share_nodes_spec fuel ids (g g0 : D (node D)) :
  NoDup ids -> (forall id, id ∈ ids -> is_Some (d_get g0 id)) -> (forall id, id ∈ ids -> d_get g id = d_get g0 id) ->
  frames_below fuel g0 -> 0 < fuel ->
  exists g', share_nodes fuel ids g = Some (Ok g') /\
    (forall id, id ∉ ids -> d_get g' id = d_get g id) /\
    (forall id n, id ∈ ids -> d_get g0 id = Some n -> exists n', d_get g' id = Some n' /\ shared_node n n').
Proof.
  intros Hnd Hin Heq Hb Hf. revert g Hnd Hin Heq. induction ids as [|id ids IH]; intros g Hnd Hin Heq.
  - exists g. split; [done|]. split; [done|]. by intros id n ?%not_elem_of_nil.
  - apply NoDup_cons in Hnd as [Hid Hnd]. destruct (Hin id ltac:(left)) as [n Hn]. cbn [share_nodes].
    rewrite (Heq id ltac:(left)), Hn. destruct (share_node_spec fuel n) as (n' & -> & Hs); [|done|].
    { intros k e Hk. apply (Hb id k e). unfold edge_at. by rewrite Hn. }
    destruct (IH (d_set id n' g)) as (g' & -> & Hout & Hins); [done|set_solver| |].
    { intros id' Hid'. rewrite d_get_set_ne by (intros ->; done). apply Heq. by right. }
    exists g'. split; [done|]. split.
    + intros id' [Hne Hid']%not_elem_of_cons. rewrite Hout by done. by apply d_get_set_ne.
    + intros id' m [->|Hid']%list.elem_of_cons Hm; [|by apply Hins].
      rewrite Hn in Hm. injection Hm as <-. exists n'. split; [|done]. rewrite Hout by done. apply d_get_set_eq.
Qed.

(** The nodes of one graph are those of another with the shared frames taken. *)
Definition shared_graph (g g' : D (node D)) : Prop :=
  forall id, match d_get g id with
             | Some n => exists n', d_get g' id = Some n' /\ shared_node n n'
             | None => d_get g' id = None
             end.

Lemma share_graph (g : D (node D)) fuel :
  frames_below fuel g -> 0 < fuel -> exists g', get_shared_stack fuel g = Some (Ok g') /\ shared_graph g g'.
Proof.
  intros Hb Hf. destruct (share_nodes_spec fuel (d_keys g) g g) as (g' & E & Hout & Hin); [apply d_keys_nodup| |done..|].
  { intros id. by rewrite d_keys_spec. }
  exists g'. split; [done|]. intros id. destruct (d_get g id) as [n|] eqn:En.
  - apply Hin; [|done]. by rewrite d_keys_spec, En.
  - rewrite Hout; [done|]. intros Hk. apply d_keys_spec in Hk. rewrite En in Hk. by destruct Hk.
Qed.

(** C27 - Taking the shared frames ends, of every graph whose frames are not empty lines, with a
    graph of the same nodes, each with the frames that all its edges begin with taken from
    them, and as many as can be. *)
Theorem get_shared_stack_spec (g : D (node D)) fuel :
  frames_below fuel g -> 0 < fuel ->
  exists g', get_shared_stack fuel g = Some (Ok g') /\
    forall id, match d_get g id with
               | Some n => exists n', d_get g' id = Some n' /\ shared_node n n'
               | None => d_get g' id = None
               end.
Proof. apply share_graph. Qed.

(** ** The chart *)

(** Every edge leads to a node, and the shared frames have been taken. *)
Record chartable (g : D (node D)) : Prop := {
  chart_targets : forall c s, is_Some (edge_at g c s) -> is_Some (d_get g s);
  chart_shared : forall id n, d_get g id = Some n -> is_Some (shared_stack n)
}.

Lemma collect_lines {A} (P : A -> pystr -> Prop) (ids : list A) (f : A -> py pystr) l :
  (forall id, id ∈ ids -> exists t, f id = Ok t /\ P id t) ->
  exists ts, for_each (fun l id => let! t := f id in Ok (l ++ [t])) ids l = Ok (l ++ ts) /\ Forall2 P ids ts.
Proof.
  revert l. induction ids as [|id ids IH]; intros l H.
  - exists []. by rewrite (right_id_L [] (++)).
  - destruct (H id ltac:(left)) as (t & Ht & HP). cbn [for_each]. rewrite Ht. cbn [rbind].
    destruct (IH (l ++ [t])) as (ts & -> & Hts); [set_solver|]. exists (t :: ts).
    rewrite <- (assoc_L (++)). split; [done|]. by constructor.
Qed.

(** How a line begins. *)
Definition is_node_line (id : Z) (t : pystr) : Prop := startswith t (show_Z id ++ $" [label=") = true.
Definition is_edge_line (p : Z * Z) (t : pystr) : Prop :=
  startswith t (show_Z p.1 ++ $" -> " ++ show_Z p.2 ++ $" [label=") = true.

(** The edges, in the order in which they are written. *)
Definition edges_from (g : D (node D)) (id : Z) : list (Z * Z) :=
  match d_get g id with Some n => pair id <$> d_keys (edges n) | None => [] end.

Definition edge_pairs (g : D (node D)) : list (Z * Z) := mjoin (edges_from g <$> d_keys g).

Lemma elem_of_edges_from (g : D (node D)) id c s : (c, s) ∈ edges_from g id <-> c = id /\ is_Some (edge_at g c s).
Proof.
  unfold edges_from, edge_at. destruct (d_get g id) as [n|] eqn:En.
  - rewrite list_elem_of_fmap. split.
    + intros (s' & [= -> ->] & Hs). split; [done|]. rewrite En. cbn. by apply d_keys_spec.
    + intros [-> Hs]. rewrite En in Hs. exists s. split; [done|]. by apply d_keys_spec.
  - split; [by intros ?%not_elem_of_nil|]. intros [-> Hs]. rewrite En in Hs. by destruct Hs.
Qed.

Lemma elem_of_edge_pairs (g : D (node D)) c s : (c, s) ∈ edge_pairs g <-> is_Some (edge_at g c s).
Proof.
  unfold edge_pairs. rewrite list_elem_of_join. split.
  - intros (l & H1 & H2). apply list_elem_of_fmap in H2 as (id & -> & _). by apply elem_of_edges_from in H1 as [_ ?].
  - intros H. exists (edges_from g c). split; [by apply elem_of_edges_from|].
    apply list_elem_of_fmap. exists c. split; [done|]. apply d_keys_spec. unfold edge_at in H.
    destruct (d_get g c); [done|]. by destruct H.
Qed.

Lemma edge_pairs_nodup (g : D (node D)) : NoDup (edge_pairs g).
Proof.
  unfold edge_pairs. pose proof (d_keys_nodup _ g) as Hk. induction (d_keys g) as [|id ids IH]; [constructor|].
  apply NoDup_cons in Hk as [Hid Hk]. cbn [fmap list_fmap mjoin list_join]. apply NoDup_app. split_and!.
  - unfold edges_from. destruct (d_get g id); [|constructor]. apply NoDup_fmap_2; [by intros ? ? [= ->]|apply d_keys_nodup].
  - intros [c s] [-> _]%elem_of_edges_from H. apply list_elem_of_join in H as (l & H1 & H2).
    apply list_elem_of_fmap in H2 as (id' & -> & Hid'). by apply elem_of_edges_from in H1 as [-> _].
  - by apply IH.
Qed.

Lemma node_lines_ok (g : D (node D)) : chartable g ->
  exists ts, node_lines g = Ok ts /\ Forall2 is_node_line (d_keys g) ts.
Proof.
  intros Hg. unfold node_lines. set (f := fun id => let! n := d_item g id in node_text id n).
  rewrite (for_each_ext _ (fun l id => let! t := f id in Ok (l ++ [t]))).
  2: { intros l id _. unfold f. by destruct (d_item g id). }
  assert (forall id, id ∈ d_keys g -> exists t, f id = Ok t /\ is_node_line id t) as Hf.
  { intros id [n Hn]%d_keys_spec. unfold f, d_item. rewrite Hn. cbn [or_raise rbind].
    destruct (chart_shared _ Hg id n Hn) as [sh Hsh]. unfold node_text. rewrite Hsh. cbn [or_raise rbind].
    eexists. split; [done|]. apply startswith_spec. eexists. rewrite <- !(assoc_L (++)). reflexivity. }
  destruct (collect_lines is_node_line (d_keys g) f [] Hf) as (ts & -> & Hts). by exists ts.
Qed.

Lemma edge_text_ok (g : D (node D)) id n s : chartable g -> d_get g id = Some n -> s ∈ d_keys (edges n) ->
  exists t, edge_text g id n s = Ok t /\ is_edge_line (id, s) t.
Proof.
  intros Hg Hn Hs. apply d_keys_spec in Hs as [e He]. destruct (chart_targets _ Hg id s) as [n' Hn'].
  { unfold edge_at. rewrite Hn. cbn. by rewrite He. }
  unfold edge_text, d_item. rewrite Hn', He. cbn [or_raise rbind]. eexists. split; [done|].
  unfold is_edge_line. cbn [fst snd]. apply startswith_spec. eexists. rewrite <- !(assoc_L (++)). reflexivity.
Qed.

Lemma edge_lines_ok (g : D (node D)) : chartable g ->
  exists ts, edge_lines g = Ok ts /\ Forall2 is_edge_line (edge_pairs g) ts.
Proof.
  intros Hg. unfold edge_lines, edge_pairs.
  assert (forall id, id ∈ d_keys g -> is_Some (d_get g id)) as Hk by (intros id; by rewrite d_keys_spec).
  assert (forall ids l, (forall id, id ∈ ids -> is_Some (d_get g id)) -> exists ts,
    for_each (fun l id => let! n := d_item g id in
      for_each (fun l target => let! t := edge_text g id n target in Ok (l ++ [t])) (d_keys (edges n)) l) ids l = Ok (l ++ ts) /\
    Forall2 is_edge_line (mjoin (edges_from g <$> ids)) ts) as H; [|destruct (H (d_keys g) [] Hk) as (ts & -> & Hts); by exists ts].
  induction ids as [|id ids IH]; intros l Hids.
  { exists []. rewrite (right_id_L [] (++)). split; [done|constructor]. }
  destruct (Hids id ltac:(left)) as [n Hn]. cbn [for_each].
  rewrite (proj2 (d_item_Ok g id n) Hn). cbn [rbind].
  destruct (collect_lines (fun s => is_edge_line (id, s)) (d_keys (edges n)) (edge_text g id n) l) as (ts1 & -> & H1).
  { intros s Hs. by apply edge_text_ok. }
  cbn [rbind]. destruct (IH (l ++ ts1)) as (ts2 & -> & H2); [set_solver|]. exists (ts1 ++ ts2).
  rewrite (assoc_L (++)). split; [done|]. cbn [fmap list_fmap mjoin list_join]. apply Forall2_app; [|exact H2].
  unfold edges_from. rewrite Hn. by apply Forall2_fmap_l.
Qed.

Lemma get_flow_chart_ok (g : D (node D)) : chartable g ->
  exists ns es, get_flow_chart g = Ok ($"digraph sim {" ++ [NL] ++ join [NL] ns ++ [NL] ++ join [NL] es ++ [NL] ++ $"}" ++ [NL]) /\
    Forall2 is_node_line (d_keys g) ns /\ Forall2 is_edge_line (edge_pairs g) es.
Proof.
  intros Hg. destruct (node_lines_ok g Hg) as (ns & En & Hn). destruct (edge_lines_ok g Hg) as (es & Ee & He).
  exists ns, es. unfold get_flow_chart. by rewrite En, Ee.
Qed.

(** The target of an edge is mentioned. *)
Lemma last_edge_mentioned evs c s : is_Some (last_edge evs c s) -> is_Some (first_mention evs c) /\ is_Some (first_mention evs s).
Proof.
  intros H. assert (exists e, e ∈ evs /\ c = Z.of_N (ev_current e) /\ s = Z.of_N (ev_scheduled e)) as (e & He & -> & ->).
  { destruct H as [x Hx]. unfold last_edge in Hx. apply last_Some in Hx as [l Hl].
    assert (x ∈ omap (mention_edge c s) evs) as Hin by (rewrite Hl; set_solver).
    apply list_elem_of_omap in Hin as (e & He & Hm). exists e. unfold mention_edge in Hm. by case_decide. }
  assert (forall id, is_Some (mention id e) -> is_Some (first_mention evs id)) as Hm.
  { intros id [y Hy]. unfold first_mention. assert (y ∈ omap (mention id) evs) as Hin by (apply list_elem_of_omap; by exists e).
    destruct (omap (mention id) evs); [by apply not_elem_of_nil in Hin|by eexists]. }
  unfold mention in Hm. split; apply Hm; [by rewrite decide_True|]. case_decide; [done|]. by rewrite decide_True.
Qed.

Lemma frame_texts_length fs : length (frame_texts fs) = length fs.
Proof. apply length_fmap. Qed.

Lemma graph_frames_below evs fuel (g : D (node D)) :
  graph_of evs g -> Forall (fun e => length (ev_frames e) < fuel) evs -> frames_below fuel g.
Proof.
  intros [_ He] Hfs c s x Hx. rewrite He in Hx. unfold last_edge in Hx. apply last_Some in Hx as [l Hl].
  assert (x ∈ omap (mention_edge c s) evs) as Hin by (rewrite Hl; set_solver).
  apply list_elem_of_omap in Hin as (e & Hin & Hm). unfold mention_edge in Hm. case_decide; [|done]. injection Hm as <-.
  cbn [edge_of_event stack]. rewrite frame_texts_length. rewrite Forall_forall in Hfs. split; [|by apply Hfs].
  intros (f & E & _)%list_elem_of_fmap. by destruct f as [? []].
Qed.

(** The whole script: of the text of a list of events it writes a chart with one line for
    each identifier mentioned and one for each pair of an event and one it schedules; it
    raises no exception. *)
Theorem stacktrace_main_spec pre evs fuel :
  Forall no_trace pre -> Forall wf_event evs -> evs <> [] -> length evs < fuel ->
  Forall (fun e => length (ev_frames e) < fuel) evs ->
  exists ids pairs ns es, stacktrace_main (D := D) fuel (trace_text pre evs) =
      Some (Ok ($"digraph sim {" ++ [NL] ++ join [NL] ns ++ [NL] ++ join [NL] es ++ [NL] ++ $"}" ++ [NL])) /\
    NoDup ids /\ (forall id, id ∈ ids <-> is_Some (first_mention evs id)) /\ Forall2 is_node_line ids ns /\
    NoDup pairs /\ (forall c s, (c, s) ∈ pairs <-> is_Some (last_edge evs c s)) /\ Forall2 is_edge_line pairs es.
Proof.
  intros Hpre Hevs Hne Hf Hfs. unfold stacktrace_main. rewrite get_graph_trace by done.
  set (g := foldl _ _ _). pose proof (foldl_graph evs [] d_empty empty_graph) as Hg0. fold g in Hg0. cbn [app] in Hg0.
  pose proof (graph_nodes _ _ Hg0) as Hn. pose proof (graph_edges _ _ Hg0) as He.
  assert (frames_below fuel g) as Hb by (by apply (graph_frames_below evs)).
  assert (0 < fuel) as Hpos by lia.
  destruct (share_graph g fuel Hb Hpos) as (g' & -> & Hg').
  assert (forall c s, is_Some (edge_at g' c s) <-> is_Some (edge_at g c s)) as Hedge.
  { intros c s. unfold edge_at. pose proof (Hg' c) as Hc. destruct (d_get g c) as [n|].
    - destruct Hc as (n' & -> & Hs). destruct (sn_frames _ _ Hs) as (sh & _ & Hsh). cbn. rewrite Hsh.
      destruct (d_get (edges n') s); split; intros []; done.
    - by rewrite Hc. }
  assert (forall id, is_Some (d_get g' id) <-> is_Some (first_mention evs id)) as Hnode.
  { intros id. rewrite <- Hn, fmap_is_Some. pose proof (Hg' id) as Hid. destruct (d_get g id); [|by rewrite Hid].
    destruct Hid as (n' & -> & _). by split. }
  destruct (get_flow_chart_ok g') as (ns & es & Ec & Hns & Hes).
  { split.
    - intros c s Hcs%Hedge. rewrite He in Hcs. by apply Hnode, (last_edge_mentioned evs c s).
    - intros id n' Hid. pose proof (Hg' id) as Hg. destruct (d_get g id) as [n|]; [|congruence].
      destruct Hg as (n1 & E1 & Hs). rewrite Hid in E1. injection E1 as <-. destruct (sn_frames _ _ Hs) as (sh & -> & _). by eexists. }
  exists (d_keys g'), (edge_pairs g'), ns, es. rewrite Ec. split; [done|]. split; [apply d_keys_nodup|].
  split; [intros id; by rewrite d_keys_spec|]. split; [done|]. split; [apply edge_pairs_nodup|]. split; [|done].
  intros c s. by rewrite elem_of_edge_pairs, Hedge, He.
Qed.

End graph_spec.

(** ** Examples *)

Notation zdict := (fun V => adict Z V).

Definition example_event (t cur sch at_ : N) (fs : list pystr) : trace_event :=
  {| ev_words := ($"event:", $"schedules:", $"at:", $"context:"); ev_time := t; ev_current := cur; ev_scheduled := sch;
     ev_scheduled_time := at_; ev_context := 4294967295; ev_frames := (fun f => ($"0", f)) <$> fs |}.

Definition example_trace : list trace_event :=
  [example_event 5 1 2 10 [$"main"; $"Run"; $"Schedule"]; example_event 5 1 3 20 [$"main"; $"Stop"]].

(** A time of zero is forgotten when another edge follows. *)
Example smallest_forgets_zero :
  smallest_timestamp [{| time_ns := 0; stack := [] |}; {| time_ns := 5; stack := [] |}] = Some 5%Z.
Proof. by vm_compute. Qed.

Lemma example_trace_wf : Forall no_trace [$"starting" ++ [NL]] /\ Forall wf_event example_trace.
Proof.
  split.
  - repeat constructor. exists $"starting". split; [done|]. by apply (bool_decide_unpack _).
  - repeat constructor; by apply (bool_decide_unpack _).
Defined.

Lemma get_graph_spec_witness :
  exists g, get_graph (D := zdict) 3 (trace_text [$"starting" ++ [NL]] example_trace) = Some (Ok g) /\
    (forall id, node_data (D := zdict) <$> d_get (D := zdict) g id = first_mention example_trace id) /\
    (forall c s, edge_at (D := zdict) g c s = last_edge example_trace c s) /\
    get_graph (D := zdict) 3 (mjoin (M := list) (A := ascii) [$"starting" ++ [NL]]) = Some (Err IndexError).
Proof.
  apply (get_graph_spec (D := zdict)); [apply example_trace_wf|apply example_trace_wf|done|cbn; lia].
Defined.

Lemma stacktrace_main_spec_witness :
  exists ids pairs ns es, stacktrace_main (D := zdict) 5 (trace_text [] example_trace) =
      Some (Ok ($"digraph sim {" ++ [NL] ++ join [NL] ns ++ [NL] ++ join [NL] es ++ [NL] ++ $"}" ++ [NL])) /\
    NoDup ids /\ (forall id, id ∈ ids <-> is_Some (first_mention example_trace id)) /\ Forall2 is_node_line ids ns /\
    NoDup pairs /\ (forall c s, (c, s) ∈ pairs <-> is_Some (last_edge example_trace c s)) /\ Forall2 is_edge_line pairs es.
Proof.
  apply (stacktrace_main_spec (D := zdict)); [constructor|apply example_trace_wf|done|cbn; lia|].
  repeat constructor; cbn; lia.
Defined.

(** The graph of an event that schedules two others. *)
Definition example_graph : adict Z (node zdict) := foldl (fun g e => add_event (D := zdict) e g) (d_empty (D := zdict)) example_trace.

Example example_chart :
  match get_shared_stack (D := zdict) 5 example_graph with
  | Some (Ok g) => (fun n : node zdict => (shared_stack n, stack <$> edge_list (D := zdict) (edges n))) <$> d_get (D := zdict) g 1%Z
  | _ => None
  end = Some (Some [$"main" ++ [NL]], [[$"Run" ++ [NL]; $"Schedule" ++ [NL]]; [$"Stop" ++ [NL]]]).
Proof. by vm_compute. Qed.

Lemma get_shared_stack_spec_witness :
  exists g', get_shared_stack (D := zdict) 4 example_graph = Some (Ok g') /\
    forall id, match d_get (D := zdict) example_graph id with
               | Some n => exists n', d_get (D := zdict) g' id = Some n' /\ shared_node (D := zdict) n n'
               | None => d_get (D := zdict) g' id = None
               end.
Proof.
  apply (get_shared_stack_spec (D := zdict)); [|lia].
  apply (graph_frames_below (D := zdict) example_trace); [|repeat constructor; cbn; lia].
  apply (foldl_graph (D := zdict) example_trace [] (d_empty (D := zdict))), empty_graph.
Defined.
