(* ===== verification/VizThread.v ===== *)
(** * [visualizer/core.py]: the simulation thread and the main loop

    [SimulationThread], and of [Visualizer] the update timer, the play button, the
    speed and the end: two threads that share a lock, an event, the time to run to
    and the messages.  The main thread is the main loop of GLib with the stack of the
    handlers it is in, since [update_view_timeout] runs the loop again while the
    simulation is busy.  Every interleaving is a sequence of labels.

    The simulator is C++: a call of [SimulatorRunUntil] advances the time at most to
    the target, and returns what paused it.  [update_view] is a label of its own when it
    raises ([ViewRaised]).  Times are exact, in seconds. *)

From Stdlib Require Import QArith Qround Qminmax Lqa.
From S2P Require Import Prelude.

(** ** The state *)

Inductive thread := MainThread | SimThread.

#[export] Instance thread_eq_dec : EqDecision thread.
Proof. solve_decision. Defined.

(** Where the simulation thread is, by the statement that comes next;
    [LockRelease failed] when the run raised, which ends the thread. *)
Inductive sim_pc :=
| LoopTest | GoWait | GoClear | QuitTest | LockAcquire | RunUntil
| Extend (messages : list pystr) | IdleAdd | LockRelease (failed : bool) | Ended.

Record SimulationThread := {
  lock : option thread;
  go : bool;
  target_time : Q;
  quit : bool;
  pause_messages : list pystr;
  pc : sim_pc
}.

(** What a handler of the main loop that takes the lock does under it. *)
Inductive action := UpdateModel | OtherAction.

(** A handler in progress: [update_view_timeout] of a timer by its statements, a
    handler that takes the lock, [_quit].  [TimerTry id busy] is the loop that tries the
    lock: [busy] after it could not get it, where the events that wait are run. *)
Inductive frame :=
| TimerTry (id : nat) (busy : bool) | TimerHold (id : nat) | TimerRelease (id : nat) (messages : list pystr)
| TimerAfter (id : nat) (messages : list pystr) | TimerGo (id : nat)
| ActionAcquire (a : action) | ActionHold (a : action)
| QuitGo | QuitJoin.

Record Visualizer := {
  speed : Q;
  sample_period : Q;
  update_timeout_id : option nat;
  play_active : bool;
  (* GLib: the timers with their milliseconds, the number of the next one, the calls
     of [update_model] that wait, the handlers in progress *)
  sources : list (nat * Z);
  next_source : nat;
  idle : nat;
  stack : list frame;
  main_quit : bool
}.

(** The time of the simulator, the time of the last view, and what happened: the
    messages the runs returned, and those [update_view_timeout] is done with, each shown
    or not. *)
Record history := {
  now : Q;
  viewed : Q;
  produced : list pystr;
  settled : list (bool * pystr);
  runs : nat;
  updates : nat
}.

Record world := { simulation : SimulationThread; viz : Visualizer; past : history }.

Definition with_sim (f : SimulationThread -> SimulationThread) (w : world) : world :=
  {| simulation := f (simulation w); viz := viz w; past := past w |}.
Definition with_viz (f : Visualizer -> Visualizer) (w : world) : world :=
  {| simulation := simulation w; viz := f (viz w); past := past w |}.
Definition with_past (f : history -> history) (w : world) : world :=
  {| simulation := simulation w; viz := viz w; past := f (past w) |}.

Definition set_lock l (s : SimulationThread) : SimulationThread :=
  {| lock := l; go := go s; target_time := target_time s; quit := quit s;
     pause_messages := pause_messages s; pc := pc s |}.
Definition set_go b (s : SimulationThread) : SimulationThread :=
  {| lock := lock s; go := b; target_time := target_time s; quit := quit s;
     pause_messages := pause_messages s; pc := pc s |}.
Definition set_target t (s : SimulationThread) : SimulationThread :=
  {| lock := lock s; go := go s; target_time := t; quit := quit s;
     pause_messages := pause_messages s; pc := pc s |}.
Definition set_quit b (s : SimulationThread) : SimulationThread :=
  {| lock := lock s; go := go s; target_time := target_time s; quit := b;
     pause_messages := pause_messages s; pc := pc s |}.
Definition set_messages ms (s : SimulationThread) : SimulationThread :=
  {| lock := lock s; go := go s; target_time := target_time s; quit := quit s;
     pause_messages := ms; pc := pc s |}.
Definition set_pc p (s : SimulationThread) : SimulationThread :=
  {| lock := lock s; go := go s; target_time := target_time s; quit := quit s;
     pause_messages := pause_messages s; pc := p |}.

Definition set_stack st (v : Visualizer) : Visualizer :=
  {| speed := speed v; sample_period := sample_period v; update_timeout_id := update_timeout_id v;
     play_active := play_active v; sources := sources v; next_source := next_source v;
     idle := idle v; stack := st; main_quit := main_quit v |}.
Definition set_idle n (v : Visualizer) : Visualizer :=
  {| speed := speed v; sample_period := sample_period v; update_timeout_id := update_timeout_id v;
     play_active := play_active v; sources := sources v; next_source := next_source v;
     idle := n; stack := stack v; main_quit := main_quit v |}.
Definition set_play b (v : Visualizer) : Visualizer :=
  {| speed := speed v; sample_period := sample_period v; update_timeout_id := update_timeout_id v;
     play_active := b; sources := sources v; next_source := next_source v;
     idle := idle v; stack := stack v; main_quit := main_quit v |}.
Definition set_timeout_id i (v : Visualizer) : Visualizer :=
  {| speed := speed v; sample_period := sample_period v; update_timeout_id := i;
     play_active := play_active v; sources := sources v; next_source := next_source v;
     idle := idle v; stack := stack v; main_quit := main_quit v |}.
Definition set_sources l n (v : Visualizer) : Visualizer :=
  {| speed := speed v; sample_period := sample_period v; update_timeout_id := update_timeout_id v;
     play_active := play_active v; sources := l; next_source := n;
     idle := idle v; stack := stack v; main_quit := main_quit v |}.
Definition set_speed s p (v : Visualizer) : Visualizer :=
  {| speed := s; sample_period := p; update_timeout_id := update_timeout_id v;
     play_active := play_active v; sources := sources v; next_source := next_source v;
     idle := idle v; stack := stack v; main_quit := main_quit v |}.
Definition set_main_quit (v : Visualizer) : Visualizer :=
  {| speed := speed v; sample_period := sample_period v; update_timeout_id := update_timeout_id v;
     play_active := play_active v; sources := sources v; next_source := next_source v;
     idle := idle v; stack := stack v; main_quit := true |}.

Definition ran t ms (h : history) : history :=
  {| now := t; viewed := viewed h; produced := produced h ++ ms; settled := settled h;
     runs := S (runs h); updates := updates h |}.
Definition advance t (h : history) : history :=
  {| now := t; viewed := viewed h; produced := produced h; settled := settled h;
     runs := runs h; updates := updates h |}.
Definition see (h : history) : history :=
  {| now := now h; viewed := now h; produced := produced h; settled := settled h;
     runs := runs h; updates := updates h |}.
Definition tell ms (h : history) : history :=
  {| now := now h; viewed := viewed h; produced := produced h;
     settled := settled h ++ (pair true <$> ms);
     runs := runs h; updates := updates h |}.
Definition lose ms (h : history) : history :=
  {| now := now h; viewed := viewed h; produced := produced h;
     settled := settled h ++ (pair false <$> ms);
     runs := runs h; updates := updates h |}.
Definition updated (h : history) : history :=
  {| now := now h; viewed := viewed h; produced := produced h; settled := settled h;
     runs := runs h; updates := S (updates h) |}.

(** The messages shown to the user. *)
Definition shown (h : history) : list pystr := omap (fun m : bool * pystr => if m.1 then Some m.2 else None) (settled h).

(** ** [SimulationThread.run] *)

Definition goto (p : sim_pc) : world -> world := with_sim (set_pc p).

(** One statement; [None] when the thread waits. *)
Definition sim_step (w : world) : option world :=
  let self := simulation w in
  match pc self with
  | LoopTest => Some (goto (if quit self then Ended else GoWait) w)
  | GoWait => if go self then Some (goto GoClear w) else None
  | GoClear => Some (goto QuitTest (with_sim (set_go false) w))
  | QuitTest => Some (goto (if quit self then Ended else LockAcquire) w)
  | LockAcquire =>
      match lock self with
      | None => Some (goto RunUntil (with_sim (set_lock (Some SimThread)) w))
      | Some _ => None
      end
  | RunUntil => None
  | Extend ms => Some (goto IdleAdd (with_sim (set_messages (pause_messages self ++ ms)) w))
  | IdleAdd => Some (goto (LockRelease false) (with_viz (set_idle (S (idle (viz w)))) w))
  | LockRelease failed => Some (goto (if failed then Ended else LoopTest) (with_sim (set_lock None) w))
  | Ended => None
  end.

(** How far the simulator may get: to the target, or nowhere when it is past it. *)
Definition may_reach (w : world) (t : Q) : bool :=
  Qle_bool (now (past w)) t && Qle_bool t (Qmax (now (past w)) (target_time (simulation w))).

(** [SimulatorRunUntil], which returns, or raises. *)
Definition sim_ran (t : Q) (messages : list pystr) (w : world) : option world :=
  match pc (simulation w) with
  | RunUntil => if may_reach w t then Some (goto (Extend messages) (with_past (ran t messages) w)) else None
  | _ => None
  end.

Definition sim_raised (t : Q) (w : world) : option world :=
  match pc (simulation w) with
  | RunUntil => if may_reach w t then Some (goto (LockRelease true) (with_past (advance t) w)) else None
  | _ => None
  end.

(** ** The timer and the play button *)

Definition SAMPLE_PERIOD : Q := 1 # 10.

(** [int(SAMPLE_PERIOD/min(self.speed, 1)*1e3)] *)
Definition interval (v : Q) : Z := Qfloor (SAMPLE_PERIOD / Qmin v 1 * 1000).

Definition source_remove (id : nat) (v : Visualizer) : Visualizer :=
  set_sources (filter (fun s : nat * Z => s.1 <> id) (sources v)) (next_source v) v.

Definition remove_timer (v : Visualizer) : Visualizer :=
  match update_timeout_id v with Some id => source_remove id v | None => v end.

Definition _start_update_timer (v : Visualizer) : Visualizer :=
  let v := remove_timer v in
  set_timeout_id (Some (next_source v))
    (set_sources (sources v ++ [(next_source v, interval (speed v))]) (S (next_source v)) v).

Definition _on_play_button_toggled (v : Visualizer) : Visualizer :=
  if play_active v then _start_update_timer v else remove_timer v.

(** [play_button.set_active(b)], which calls the handler when it is a change. *)
Definition set_active (b : bool) (v : Visualizer) : Visualizer :=
  if Bool.eqb (play_active v) b then v else _on_play_button_toggled (set_play b v).

Definition _speed_changed (value : Q) (v : Visualizer) : Visualizer :=
  _start_update_timer (set_speed value (SAMPLE_PERIOD * value) v).

(** ** The main loop *)

(** One statement of the handler in progress; [None] when it waits. *)
Definition main_step (w : world) : option world :=
  let self := viz w in
  match stack self with
  | [] => None
  | TimerTry id busy :: st =>
      match lock (simulation w) with
      | None => Some (with_viz (set_stack (TimerHold id :: st)) (with_sim (set_lock (Some MainThread)) w))
      | Some _ => if busy then None else Some (with_viz (set_stack (TimerTry id true :: st)) w)
      end
  | TimerHold id :: st =>
      let messages := pause_messages (simulation w) in
      let w := with_sim (set_messages []) w in
      let w := with_past see w in
      let w := with_sim (set_target (now (past w) + sample_period self)) w in
      Some (with_viz (set_stack (TimerRelease id messages :: st)) w)
  | TimerRelease id messages :: st =>
      Some (with_viz (set_stack (TimerAfter id messages :: st)) (with_sim (set_lock None) w))
  | TimerAfter id messages :: st =>
      let w := match messages with [] => w | _ => with_viz (set_active false) (with_past (tell messages) w) end in
      Some (if play_active (viz w) then with_viz (set_stack (TimerGo id :: st)) w
            else with_viz (fun v => set_stack st (source_remove id (set_timeout_id None v))) w)
  | TimerGo _ :: st => Some (with_viz (set_stack st) (with_sim (set_go true) w))
  | ActionAcquire a :: st =>
      match lock (simulation w) with
      | None => Some (with_viz (set_stack (ActionHold a :: st)) (with_sim (set_lock (Some MainThread)) w))
      | Some _ => None
      end
  | ActionHold a :: st =>
      let w := match a with UpdateModel => with_past updated w | OtherAction => w end in
      Some (with_viz (set_stack st) (with_sim (set_lock None) w))
  | QuitGo :: st => Some (with_viz (set_stack (QuitJoin :: st)) (with_sim (set_go true) w))
  | QuitJoin :: st =>
      match pc (simulation w) with
      | Ended => Some (with_viz (fun v => set_main_quit (set_stack st v)) w)
      | _ => None
      end
  end.

(** [update_view] raises: the messages have been taken, the lock is released, the
    target stays, and GLib removes the timer of a handler that raised. *)
Definition view_raised (w : world) : option world :=
  match stack (viz w) with
  | TimerHold id :: st =>
      let messages := pause_messages (simulation w) in
      let w := with_past (lose messages) (with_sim (set_messages []) w) in
      let w := with_sim (set_lock None) w in
      Some (with_viz (fun v => set_stack st (source_remove id v)) w)
  | _ => None
  end.

(** The loop runs events between handlers, and within [update_view_timeout] after it
    could not get the lock: all those that wait, though the lock be free again. *)
Definition dispatches (w : world) : bool :=
  match stack (viz w) with
  | [] => negb (main_quit (viz w))
  | TimerTry _ busy :: _ => busy
  | _ => false
  end.

Inductive event :=
| Timeout (id : nat) | Idle | Toggle | SpeedChanged (value : Q) | Locked | Close.

Definition timer_of (f : frame) : option nat :=
  match f with
  | TimerTry id _ | TimerHold id | TimerRelease id _ | TimerAfter id _ | TimerGo id => Some id
  | _ => None
  end.

Definition push (f : frame) (v : Visualizer) : Visualizer := set_stack (f :: stack v) v.

(** What an event does until its handler takes the lock; [None] when it cannot
    happen.  A timer is not run within itself. *)
Definition dispatch (e : event) (w : world) : option world :=
  let self := viz w in
  match e with
  | Timeout id =>
      if bool_decide (id ∈ (sources self).*1) && bool_decide (id ∉ omap timer_of (stack self))
      then Some (with_viz (push (TimerTry id false)) w) else None
  | Idle =>
      match idle self with
      | S n => Some (with_viz (fun v => push (ActionAcquire UpdateModel) (set_idle n v)) w)
      | O => None
      end
  | Toggle => Some (with_viz (set_active (negb (play_active self))) w)
  | SpeedChanged value =>
      if Qle_bool (1 # 100) value && Qle_bool value 10
      then Some (with_viz (_speed_changed value) w) else None
  | Locked => Some (with_viz (push (ActionAcquire OtherAction)) w)
  | Close =>
      Some (with_viz (fun v => push QuitGo (set_timeout_id None (remove_timer v)))
             (with_sim (set_quit true) w))
  end.

(** ** Executions *)

Inductive label :=
| SimStep | SimRan (t : Q) (messages : list pystr) | SimRaised (t : Q)
| MainStep | ViewRaised | Event (e : event).

Definition exec (l : label) (w : world) : option world :=
  match l with
  | SimStep => sim_step w
  | SimRan t messages => sim_ran t messages w
  | SimRaised t => sim_raised t w
  | MainStep => main_step w
  | ViewRaised => view_raised w
  | Event e => if dispatches w then dispatch e w else None
  end.

Fixpoint execs (ls : list label) (w : world) : option world :=
  match ls with
  | [] => Some w
  | l :: ls => match exec l w with Some w => execs ls w | None => None end
  end.

(** After [start]: [create_gui] has set the speed, and so started a timer. *)
Definition init : world :=
  {| simulation := {| lock := None; go := false; target_time := 0; quit := false;
                      pause_messages := []; pc := LoopTest |};
     viz := _speed_changed 1
       {| speed := 1; sample_period := SAMPLE_PERIOD; update_timeout_id := None; play_active := false;
          sources := []; next_source := 0; idle := 0; stack := []; main_quit := false |};
     past := {| now := 0; viewed := 0; produced := []; settled := []; runs := 0; updates := 0 |} |}.

Definition reachable (w : world) : Prop := exists ls, execs ls init = Some w.

(** ** The invariant *)

Definition sim_holds (p : sim_pc) : bool :=
  match p with RunUntil | Extend _ | IdleAdd | LockRelease _ => true | _ => false end.

Definition main_holds (st : list frame) : bool :=
  match st with TimerHold _ :: _ | TimerRelease _ _ :: _ | ActionHold _ :: _ => true | _ => false end.

(** The messages a handler has taken, and those the thread has not put down. *)
Definition taken (st : list frame) : list pystr :=
  match st with TimerRelease _ ms :: _ | TimerAfter _ ms :: _ => ms | _ => [] end.

Definition extending (p : sim_pc) : list pystr := match p with Extend ms => ms | _ => [] end.

(** The calls of [update_model] begun, and the run whose call is not posted. *)
Definition updating (st : list frame) : nat :=
  match st with ActionAcquire UpdateModel :: _ | ActionHold UpdateModel :: _ => 1 | _ => 0 end.

Definition posting (p : sim_pc) : nat := match p with Extend _ | IdleAdd => 1 | _ => 0 end.

Definition closing (st : list frame) : bool :=
  match st with QuitGo :: _ | QuitJoin :: _ => true | _ => false end.

Definition is_try (f : frame) : bool := match f with TimerTry _ _ => true | _ => false end.

Record inv (w : world) : Prop := {
  inv_sim : sim_holds (pc (simulation w)) = bool_decide (lock (simulation w) = Some SimThread);
  inv_main : main_holds (stack (viz w)) = bool_decide (lock (simulation w) = Some MainThread);
  inv_below : Forall (fun f => is_try f = true) (tail (stack (viz w)));
  inv_period : (0 <= sample_period (viz w) <= 1)%Q;
  inv_viewed : (viewed (past w) <= now (past w))%Q;
  inv_target : (now (past w) <= target_time (simulation w))%Q;
  inv_second : (target_time (simulation w) <= viewed (past w) + 1)%Q;
  inv_messages : (settled (past w)).*2 ++ taken (stack (viz w)) ++ pause_messages (simulation w) ++
                 extending (pc (simulation w)) = produced (past w);
  inv_updates : updates (past w) + updating (stack (viz w)) + idle (viz w) + posting (pc (simulation w)) = runs (past w);
  inv_going : forall id st, stack (viz w) = TimerGo id :: st -> play_active (viz w) = true;
  inv_closing : closing (stack (viz w)) = true -> quit (simulation w) = true;
  inv_joining : forall st, stack (viz w) = QuitJoin :: st -> pc (simulation w) = GoWait -> go (simulation w) = true
}.

Lemma viz_inv_init : inv init.
Proof. split; cbn; try done; try (split; vm_compute; congruence); vm_compute; congruence. Qed.

(** What [set_active] and the like leave alone. *)
Lemma remove_timer_spec v :
  stack (remove_timer v) = stack v /\ idle (remove_timer v) = idle v /\
  sample_period (remove_timer v) = sample_period v /\ play_active (remove_timer v) = play_active v.
Proof. unfold remove_timer. by destruct (update_timeout_id v). Qed.

Lemma set_active_spec b v :
  stack (set_active b v) = stack v /\ idle (set_active b v) = idle v /\
  sample_period (set_active b v) = sample_period v /\ play_active (set_active b v) = b.
Proof.
  unfold set_active, _on_play_button_toggled, _start_update_timer.
  destruct (Bool.eqb_spec (play_active v) b) as [E|E]; [done|]. cbn.
  destruct (remove_timer_spec (set_play b v)) as (E1 & E2 & E3 & E4).
  destruct b; cbn in *; by rewrite E1, E2, E3, E4.
Qed.

Lemma speed_changed_spec val v :
  stack (_speed_changed val v) = stack v /\ idle (_speed_changed val v) = idle v /\
  sample_period (_speed_changed val v) = (SAMPLE_PERIOD * val)%Q /\
  play_active (_speed_changed val v) = play_active v.
Proof. apply (remove_timer_spec (set_speed val (SAMPLE_PERIOD * val) v)). Qed.

Lemma may_reach_spec w t :
  (now (past w) <= target_time (simulation w))%Q -> may_reach w t = true ->
  (now (past w) <= t <= target_time (simulation w))%Q.
Proof.
  intros Hle. unfold may_reach. intros [H1 H2]%andb_true_iff. apply Qle_bool_iff in H1, H2.
  split; [done|]. by rewrite (Q.max_r _ _ Hle) in H2.
Qed.

Ltac sim_cases :=
  cbn in *; simplify_eq; cbn in *;
  repeat match goal with
  | H : context [match ?x with _ => _ end] |- _ => destruct x eqn:?; cbn in *; simplify_eq; cbn in *
  end.

(** The lock, from who holds it. *)
Ltac owner :=
  repeat match goal with
  | H : true = bool_decide (_ = _) |- _ => symmetry in H; apply bool_decide_eq_true in H; subst
  end.

Lemma inv_sim_step w w' : inv w -> sim_step w = Some w' -> inv w'.
Proof.
  intros [] Hs. destruct w as [[lk g tt q pm p] v h]. unfold sim_step in Hs. sim_cases.
  all: repeat match goal with |- context [if ?b then _ else _] => destruct b end.
  all: owner; split; cbn; try done.
  all: rewrite ?(right_id_L [] (++)) in *; try done; try lia.
  intros st E. rewrite E in *. by specialize (inv_closing0 eq_refl).
Qed.

Lemma inv_sim_ran t ms w w' : inv w -> sim_ran t ms w = Some w' -> inv w'.
Proof.
  intros [] Hs. unfold sim_ran in Hs. destruct (pc (simulation w)) eqn:Ep; try done.
  destruct (may_reach w t) eqn:Hr; [|done]. apply may_reach_spec in Hr; [|done].
  destruct w as [[lk g tt q pm p] v h]. cbn in *. simplify_eq. owner. split; cbn; try done.
  1,2: lra.
  - rewrite !(assoc_L (++)), ?(right_id_L [] (++)) in *. by rewrite inv_messages0.
  - lia.
Qed.

Lemma inv_sim_raised t w w' : inv w -> sim_raised t w = Some w' -> inv w'.
Proof.
  intros [] Hs. unfold sim_raised in Hs. destruct (pc (simulation w)) eqn:Ep; try done.
  destruct (may_reach w t) eqn:Hr; [|done]. apply may_reach_spec in Hr; [|done].
  destruct w as [[lk g tt q pm p] v h]. cbn in *. simplify_eq. owner. split; cbn; try done; lra.
Qed.

(** A handler gone, the one below has not got the lock. *)
Lemma below_top st : Forall (fun f => is_try f = true) st ->
  main_holds st = false /\ taken st = [] /\ updating st = 0 /\ closing st = false /\
  Forall (fun f => is_try f = true) (tail st) /\
  (forall id st', st <> TimerGo id :: st') /\ (forall st', st <> QuitJoin :: st').
Proof. intros H. destruct H as [|[] st Hf H]; by repeat split. Qed.

Ltac no_top :=
  match goal with
  | H : forall id st', ?st <> TimerGo id :: st' |- forall id st', ?st = TimerGo id :: st' -> _ =>
      let E := fresh in intros ? ? E; by destruct (H _ _ E)
  | H : forall st', ?st <> QuitJoin :: st' |- forall st', ?st = QuitJoin :: st' -> _ =>
      let E := fresh in intros ? E; by destruct (H _ E)
  end.

Lemma source_remove_spec id v :
  stack (source_remove id v) = stack v /\ idle (source_remove id v) = idle v /\
  sample_period (source_remove id v) = sample_period v /\ play_active (source_remove id v) = play_active v.
Proof. done. Qed.

Lemma settled_snd (b : bool) (ms : list pystr) : (snd <$> (pair b <$> ms) : list pystr) = ms.
Proof. induction ms as [|m ms IH]; [done|]. cbn. by f_equal. Qed.

Lemma inv_main_step w w' : inv w -> main_step w = Some w' -> inv w'.
Proof.
  intros [] Hs. destruct w as [[lk g tt q pm p] v h]. unfold main_step in Hs. cbn in *.
  destruct (stack v) as [|[id b|id|id ms|id ms|id|a|a| |] st] eqn:Est; try done; cbn in *;
    destruct (below_top st inv_below0) as (B1 & B2 & B3 & B4 & B5 & B6 & B7).
  1: destruct lk as [o|]; [destruct b; [done|]; simplify_eq|].
  all: try (destruct lk; [done|]); owner; simplify_eq.
  - split; cbn; try done; by rewrite ?Est in *.
  - split; cbn; try done; by rewrite ?Est.
  - split; cbn; try done; lra.
  - split; cbn; try done; by rewrite ?Est.
  - destruct ms as [|m ms].
    + cbn. destruct (play_active v) eqn:Ep; [split; cbn; try done; by rewrite ?Est|].
      split; cbn; rewrite ?B1, ?B2, ?B3, ?B4; try done; try no_top.
    + cbn. destruct (set_active_spec false v) as (E1 & E2 & E3 & E4). rewrite E4.
      split; cbn; rewrite ?E1, ?E2, ?E3, ?E4, ?B1, ?B2, ?B3, ?B4; try done; try no_top.
      rewrite fmap_app. cbn. rewrite settled_snd. by rewrite <- (assoc_L (++)).
  - split; cbn; rewrite ?B1, ?B2, ?B3, ?B4; try done; try no_top.
  - split; cbn; try done; by rewrite ?Est.
  - destruct a; split; cbn; rewrite ?B1, ?B2, ?B3, ?B4; try done; try lia; try no_top.
  - split; cbn; try done.
  - destruct p; try done. simplify_eq. split; cbn; rewrite ?B1, ?B2, ?B3, ?B4; try done; try no_top.
Qed.

Lemma inv_view_raised w w' : inv w -> view_raised w = Some w' -> inv w'.
Proof.
  intros [] Hs. destruct w as [[lk g tt q pm p] v h]. unfold view_raised in Hs. cbn in *.
  destruct (stack v) as [|[] st] eqn:Est; try done; cbn in *.
  destruct (below_top st inv_below0) as (B1 & B2 & B3 & B4 & B5 & B6 & B7). owner. simplify_eq.
  split; cbn; rewrite ?B1, ?B2, ?B3, ?B4; try done; try no_top.
  rewrite fmap_app, settled_snd. by rewrite <- (assoc_L (++)).
Qed.

Lemma dispatches_held w : inv w -> dispatches w = true -> main_holds (stack (viz w)) = false /\
  taken (stack (viz w)) = [] /\ updating (stack (viz w)) = 0 /\
  Forall (fun f => is_try f = true) (stack (viz w)).
Proof.
  intros [] Hd. unfold dispatches in Hd. destruct (stack (viz w)) as [|[] st]; try done.
  repeat split. by constructor.
Qed.

Lemma inv_dispatch e w w' : inv w -> dispatches w = true -> dispatch e w = Some w' -> inv w'.
Proof.
  intros Hi Hd Hs. destruct (dispatches_held w Hi Hd) as (B1 & B2 & B3 & B4).
  destruct (below_top _ B4) as (_ & _ & _ & B5 & B6 & B7 & B8). destruct Hi.
  destruct w as [[lk g tt q pm p] v h]. cbn in *.
  destruct e as [id| | |val| |]; cbn in Hs.
  - destruct (_ && _); [|done]. simplify_eq. split; cbn; try done; by rewrite ?B1, ?B2, ?B3 in *.
  - destruct (idle v) as [|n] eqn:En; [done|]. simplify_eq. split; cbn; try done; rewrite ?B1, ?B2, ?B3, ?En in *; try done; lia.
  - simplify_eq. destruct (set_active_spec (negb (play_active v)) v) as (E1 & E2 & E3 & E4).
    split; cbn; rewrite ?E1, ?E2, ?E3, ?E4; try done; try no_top.
  - destruct (Qle_bool (1 # 100) val && Qle_bool val 10) eqn:Ev; [|done]. simplify_eq.
    apply andb_true_iff in Ev as [Ev1%Qle_bool_iff Ev2%Qle_bool_iff].
    destruct (speed_changed_spec val v) as (E1 & E2 & E3 & E4).
    unfold with_viz. cbn [simulation viz past]. generalize dependent (_speed_changed val v). intros v' E1 E2 E3 E4.
    split; cbn; rewrite ?E1, ?E2, ?E3, ?E4; try done; try no_top. unfold SAMPLE_PERIOD. lra.
  - simplify_eq. split; cbn; try done; by rewrite ?B1, ?B2, ?B3 in *.
  - simplify_eq. destruct (remove_timer_spec v) as (E1 & E2 & E3 & E4).
    split; cbn; rewrite ?E1, ?E2, ?E3, ?E4, ?B1, ?B2, ?B3 in *; try done; try no_top.
Qed.

Lemma inv_exec l w w' : inv w -> exec l w = Some w' -> inv w'.
Proof.
  destruct l as [|t ms|t| | |e]; cbn.
  - apply inv_sim_step.
  - apply inv_sim_ran.
  - apply inv_sim_raised.
  - apply inv_main_step.
  - apply inv_view_raised.
  - intros Hi. destruct (dispatches w) eqn:Hd; [by apply inv_dispatch|done].
Qed.

Lemma execs_ind (P : world -> Prop) ls w w' :
  (forall l w w', l ∈ ls -> P w -> exec l w = Some w' -> P w') -> P w -> execs ls w = Some w' -> P w'.
Proof.
  revert w. induction ls as [|l ls IH]; intros w Hstep Hw; cbn; [by intros [= <-]|].
  destruct (exec l w) as [w1|] eqn:E; [|done]. apply IH.
  - intros l' w2 w3 Hl. apply Hstep. by right.
  - apply (Hstep l w w1); [by left|done..].
Qed.

Lemma viz_inv_reachable w : reachable w -> inv w.
Proof.
  intros [ls E]. revert E. apply execs_ind; [|apply viz_inv_init]. intros l w1 w2 _. apply inv_exec.
Qed.


(** ** What holds of every execution *)

(** C6 - The simulator and the view never run together.  One of the two threads at most is
    where it holds the lock; the time of the simulator moves only under the lock of
    its thread; and it is never behind the view nor past the time it was told to reach,
    which is at most a second of simulated time ahead of the view. *)
Theorem visualizer_safe w :
  reachable w ->
  ~ (sim_holds (pc (simulation w)) = true /\ main_holds (stack (viz w)) = true) /\
  (viewed (past w) <= now (past w) <= target_time (simulation w))%Q /\
  (target_time (simulation w) <= viewed (past w) + 1)%Q /\
  forall l w', exec l w = Some w' -> now (past w') <> now (past w) ->
    lock (simulation w) = Some SimThread /\ viewed (past w') = viewed (past w).
Proof.
  intros Hw. destruct (viz_inv_reachable w Hw). split; [|split; [done|split; [done|]]].
  - rewrite inv_sim0, inv_main0. rewrite !bool_decide_eq_true. intros [E1 E2]. congruence.
  - intros l w' E Hne. destruct l as [|t ms|t| | |e].
    + destruct Hne. unfold exec, sim_step in E. by repeat case_match; simplify_eq.
    + unfold exec, sim_ran in E. destruct (pc (simulation w)); try done. case_match; [|done]. simplify_eq.
      cbn in inv_sim0. by owner.
    + unfold exec, sim_raised in E. destruct (pc (simulation w)); try done. case_match; [|done]. simplify_eq.
      cbn in inv_sim0. by owner.
    + destruct Hne. unfold exec, main_step in E. by repeat case_match; simplify_eq.
    + destruct Hne. unfold exec, view_raised in E. by repeat case_match; simplify_eq.
    + destruct Hne. unfold exec, dispatch in E. by repeat case_match; simplify_eq.
Qed.

(** A step settles messages only by showing them, which pauses, unless it is a view that
    raises. *)
Lemma settled_step l w w' : exec l w = Some w' -> l <> ViewRaised ->
  exists ms, settled (past w') = settled (past w) ++ (pair true <$> ms) /\
    (ms <> [] -> play_active (viz w') = false).
Proof.
  intros E Hl.
  assert (settled (past w') = settled (past w) -> exists ms,
    settled (past w') = settled (past w) ++ (pair true <$> ms) /\ (ms <> [] -> play_active (viz w') = false)) as Hsame.
  { intros ->. exists []. cbn. by rewrite (right_id_L [] (++)). }
  destruct l as [|t ms|t| | |e]; [| | | |done|]; cbn in E.
  1-3: apply Hsame; unfold sim_step, sim_ran, sim_raised in E; by repeat case_match; simplify_eq.
  - unfold main_step in E. destruct (stack (viz w)) as [|[id b|id|id ms|id ms|id|a|a| |] st]; try done.
    4: { destruct (set_active_spec false (viz w)) as (_ & _ & _ & E4). exists ms.
         destruct ms as [|m ms]; cbn in E; [|rewrite E4 in E]; repeat case_match; simplify_eq; cbn;
           rewrite ?(right_id_L [] (++)); by split. }
    all: apply Hsame; by repeat case_match; simplify_eq.
  - apply Hsame. unfold dispatch in E. by repeat case_match; simplify_eq.
Qed.

(** The views that have not raised have shown what they took. *)
Lemma settled_shown ls w : execs ls init = Some w -> ViewRaised ∉ ls -> shown (past w) = (settled (past w)).*2.
Proof.
  intros E Hls. unfold shown.
  enough (Forall (fun m => m.1 = true) (settled (past w))) as Hf.
  { induction Hf as [|[[] m] l Hm Hf IH]; [done| |done]. cbn. by rewrite IH. }
  revert E. apply (execs_ind (fun w => Forall (fun m => m.1 = true) (settled (past w)))); [|by constructor].
  intros l w1 w2 Hl Hf E. destruct (settled_step l w1 w2 E) as (ms & -> & _); [by intros ->|].
  apply Forall_app_2; [done|]. by apply Forall_fmap, Forall_true.
Qed.

(** C7 - What becomes of the messages.  The messages that pause the simulation are each
    taken once, in the order in which the runs returned them, those not taken yet
    being with the thread, in the shared list, or in the handler in progress; what a view
    takes is shown, which raises the play button, unless [update_view] raises: then it is
    lost, the lock is free, the target stays and no run is asked for.  So all messages are
    shown, in order and each once, when no view raises; and [update_model] is called once
    for each run, or its call is under way. *)
Theorem messages_settled ls w :
  execs ls init = Some w ->
  (settled (past w)).*2 ++ taken (stack (viz w)) ++ pause_messages (simulation w) ++
    extending (pc (simulation w)) = produced (past w) /\
  (ViewRaised ∉ ls ->
   shown (past w) ++ taken (stack (viz w)) ++ pause_messages (simulation w) ++
     extending (pc (simulation w)) = produced (past w)) /\
  (forall l w', exec l w = Some w' -> l <> ViewRaised ->
     exists ms, settled (past w') = settled (past w) ++ (pair true <$> ms) /\
       (ms <> [] -> play_active (viz w') = false)) /\
  (forall w', exec ViewRaised w = Some w' ->
     settled (past w') = settled (past w) ++ (pair false <$> pause_messages (simulation w)) /\
     pause_messages (simulation w') = [] /\ lock (simulation w') = None /\
     target_time (simulation w') = target_time (simulation w) /\
     go (simulation w') = go (simulation w) /\ play_active (viz w') = play_active (viz w)) /\
  updates (past w) + updating (stack (viz w)) + idle (viz w) + posting (pc (simulation w)) = runs (past w).
Proof.
  intros E. destruct (viz_inv_reachable w (ex_intro _ ls E)). split_and!; [done| |intros l w'; apply settled_step| |done].
  - intros Hls. by rewrite (settled_shown ls w E Hls).
  - intros w' E'. cbn in E'. unfold view_raised in E'. by repeat case_match; simplify_eq.
Qed.

(** ** Pausing *)

(** The runs that are asked for already. *)
Definition asked (s : SimulationThread) : nat :=
  let live := if quit s then 0 else 1 in
  let gone := if go s then live else 0 in
  match pc s with
  | GoClear => live
  | QuitTest => gone + live
  | LockAcquire | RunUntil => gone + 1
  | _ => gone
  end.

Lemma asked_sim_step w w' : sim_step w = Some w' ->
  runs (past w') = runs (past w) /\ asked (simulation w') <= asked (simulation w) /\
  quit (simulation w') = quit (simulation w) /\ play_active (viz w') = play_active (viz w).
Proof.
  destruct w as [[lk g tt q pm p] v h]. unfold sim_step. cbn.
  destruct p; repeat case_match; intros; simplify_eq; cbn; repeat split; lia.
Qed.

(** A step asks for a run only when the play button is down and the end has not
    begun. *)
Lemma asked_exec l w w' :
  inv w -> exec l w = Some w' ->
  quit (simulation w) = true \/ (play_active (viz w) = false /\ l <> Event Toggle) ->
  runs (past w') + asked (simulation w') <= runs (past w) + asked (simulation w) /\
  (quit (simulation w) = true -> quit (simulation w') = true) /\
  (l <> Event Toggle -> play_active (viz w) = false -> play_active (viz w') = false).
Proof.
  intros Hi E Hp. destruct l as [|t ms|t| | |e]; cbn in E.
  - destruct (asked_sim_step w w' E) as (-> & Ha & -> & ->). repeat split; [lia|done..].
  - unfold sim_ran in E. destruct w as [[lk g tt q pm p] v h]. cbn in *. destruct p; try done.
    case_match; [|done]. simplify_eq. cbn. repeat split; [|done..]. lia.
  - unfold sim_raised in E. destruct w as [[lk g tt q pm p] v h]. cbn in *. destruct p; try done.
    case_match; [|done]. simplify_eq. cbn. repeat split; [|done..]. lia.
  - unfold main_step in E. destruct w as [[lk g tt q pm p] v h]. cbn in *.
    destruct (stack v) as [|[id b|id|id ms|id ms|id|a|a| |] st] eqn:Est; try done; cbn in *.
    1: destruct lk as [o|]; [destruct b; [done|]; by simplify_eq|].
    all: try (destruct lk; [done|]); simplify_eq; cbn; try done.
    + destruct ms as [|m ms]; cbn.
      * destruct (play_active v) eqn:Epl; cbn; by rewrite ?Epl.
      * destruct (set_active_spec false v) as (E1 & E2 & E3 & E4). rewrite E4. cbn. by rewrite ?E4.
    + destruct Hp as [-> |[Hp _]]; cbn.
      * repeat split; [|done..]. unfold asked. cbn. destruct p, g; lia.
      * destruct Hi. cbn in *. by rewrite (inv_going0 id st) in Hp.
    + by destruct a.
    + destruct Hi. cbn in *. rewrite Est in *. rewrite (inv_closing0 eq_refl).
      repeat split; [|done..]. unfold asked. cbn. destruct p, g; lia.
    + destruct p; try done. by simplify_eq.
  - unfold view_raised in E. by repeat case_match; simplify_eq.
  - destruct (dispatches w); [|done]. destruct e as [id| | |val| |]; cbn in E.
    + case_match; [|done]. by simplify_eq.
    + case_match; [done|]. by simplify_eq.
    + simplify_eq. cbn. repeat split; done.
    + case_match; [|done]. simplify_eq. destruct (speed_changed_spec val (viz w)) as (_ & _ & _ & E4).
      unfold with_viz. cbn [simulation viz past]. by rewrite E4.
    + by simplify_eq.
    + simplify_eq. destruct (remove_timer_spec (viz w)) as (_ & _ & _ & E4).
      cbn. rewrite E4. split; [|done]. unfold asked. cbn.
      destruct (pc (simulation w)), (go (simulation w)), (quit (simulation w)); cbn; lia.
Qed.

Lemma asked_le s : asked s <= 2 /\ (quit s = true -> asked s <= 1).
Proof. unfold asked. destruct (pc s), (go s), (quit s); split; intros; simplify_eq; lia. Qed.

(** C9 - Pausing stops the simulation.  While the play button stays up the simulator is run
    at most twice more, whatever else happens; once the window is closed, at most
    once. *)
Theorem pause_stops ls w w' :
  reachable w -> execs ls w = Some w' ->
  (play_active (viz w) = false -> Event Toggle ∉ ls ->
     play_active (viz w') = false /\ runs (past w') <= runs (past w) + 2) /\
  (quit (simulation w) = true -> runs (past w') <= runs (past w) + 1).
Proof.
  intros Hw E. pose proof (viz_inv_reachable w Hw) as Hi. destruct (asked_le (simulation w)) as [Ha2 Ha1]. split.
  - intros Hp Hls.
    enough (inv w' /\ play_active (viz w') = false /\
      runs (past w') + asked (simulation w') <= runs (past w) + asked (simulation w)) by (split; [tauto|lia]).
    revert E. apply (execs_ind (fun w' => inv w' /\ play_active (viz w') = false /\
      runs (past w') + asked (simulation w') <= runs (past w) + asked (simulation w))); [|by split_and!].
    intros l w1 w2 Hl (Hi1 & Hp1 & Hr) E.
    assert (l <> Event Toggle) as Hne by (by intros ->).
    destruct (asked_exec l w1 w2 Hi1 E) as (? & _ & ?); [by right|].
    split_and!; [by eapply inv_exec|auto|lia].
  - intros Hq. specialize (Ha1 Hq).
    enough (inv w' /\ quit (simulation w') = true /\
      runs (past w') + asked (simulation w') <= runs (past w) + asked (simulation w)) by lia.
    revert E. apply (execs_ind (fun w' => inv w' /\ quit (simulation w') = true /\
      runs (past w') + asked (simulation w') <= runs (past w) + asked (simulation w))); [|by split_and!].
    intros l w1 w2 _ (Hi1 & Hq1 & Hr) E.
    destruct (asked_exec l w1 w2 Hi1 E) as (? & ? & _); [by left|].
    split_and!; [by eapply inv_exec|auto|lia].
Qed.

(** ** Waiting *)

Definition is_sim (l : label) : bool :=
  match l with SimStep | SimRan _ _ | SimRaised _ => true | _ => false end.

(** The statements of the simulation thread before what the main thread waits for. *)
Definition sim_rank (p : sim_pc) : nat :=
  match p with
  | LockAcquire => 6 | RunUntil => 5 | Extend _ => 4 | IdleAdd => 3 | GoWait => 3
  | LockRelease _ => 2 | GoClear => 2 | LoopTest => 1 | QuitTest => 1 | Ended => 0
  end.

(** C8 - The main thread is never blocked.  When a handler in progress waits, for the lock or
    for the end of the simulation thread, that thread can go on, and each of its steps
    brings it nearer to what is waited for, of which there are six at most: nothing
    else is needed, and no deadlock is possible, at the end either. *)
Theorem main_never_blocked w :
  reachable w -> stack (viz w) <> [] -> main_step w = None ->
  (exists l, is_sim l = true /\ is_Some (exec l w)) /\
  (forall l w', is_sim l = true -> exec l w = Some w' ->
     stack (viz w') = stack (viz w) /\ sim_rank (pc (simulation w')) < sim_rank (pc (simulation w))) /\
  sim_rank (pc (simulation w)) <= 6.
Proof.
  intros Hw Hst Hm. destruct (viz_inv_reachable w Hw) as [Hs Hmain _ _ _ _ _ _ _ _ Hc Hj].
  assert (sim_holds (pc (simulation w)) = true \/
    (quit (simulation w) = true /\ exists st, stack (viz w) = QuitJoin :: st) /\
    pc (simulation w) <> Ended) as Hwait.
  { unfold main_step in Hm. destruct (stack (viz w)) as [|[id b|id|id ms|id ms|id|a|a| |] st] eqn:Est; try done.
    - left. rewrite Hs. destruct (lock (simulation w)) as [[]|]; [done|done|done].
    - left. rewrite Hs. destruct (lock (simulation w)) as [[]|]; [done|done|done].
    - right. split; [split; [by apply Hc|eauto]|]. intros E. by rewrite E in Hm. }
  clear Hm Hc. destruct w as [[lk g tt q pm p] v h]. cbn in *. split; [|split].
  - destruct p as [| | | | | |ms| |failed|]; try (by exists SimStep; eexists).
    + exists SimStep. destruct Hwait as [?|[[-> (st & Est)] _]]; [done|]. split; [done|].
      cbn. by rewrite (Hj st Est eq_refl).
    + exists SimStep. destruct Hwait as [?|[[-> (st & Est)] _]]; [done|]. split; [done|]. rewrite Est in Hmain.
      destruct lk as [[]|]; [done|done|by eexists].
    + exists (SimRan (now h) []). split; [done|]. cbn. unfold sim_ran, may_reach. cbn.
      rewrite !(proj2 (Qle_bool_iff _ _)); [by eexists|apply Q.le_max_l|apply Qle_refl].
    + destruct Hwait as [?|[_ ?]]; done.
  - intros l w' Hl E. destruct l as [|t ms|t| | |]; try done; cbn in E.
    + unfold sim_step in E. cbn in E. destruct Hwait as [Hh|[[-> _] _]].
      * destruct p as [| | | | | |ms| |failed|]; simplify_eq; cbn; (split; [done|]); try lia.
        destruct failed; cbn; lia.
      * destruct p as [| | | | | |ms| |failed|]; repeat case_match; simplify_eq; cbn; (split; [done|]); lia.
    + unfold sim_ran in E. cbn in E. destruct p; try done. case_match; [|done]. simplify_eq. cbn. split; [done|lia].
    + unfold sim_raised in E. cbn in E. destruct p; try done. case_match; [|done]. simplify_eq. cbn. split; [done|lia].
  - destruct p; cbn; lia.
Qed.

(** ** Examples *)

(** The thread runs once to the time [t]. *)
Definition sim_run (t : Q) (messages : list pystr) : list label :=
  [SimStep; SimStep; SimStep; SimStep; SimStep; SimRan t messages; SimStep; SimStep; SimStep].

(** The timer [id] makes a view and asks for a run. *)
Definition view (id : nat) : list label :=
  [Event (Timeout id); MainStep; MainStep; MainStep; MainStep; MainStep].

Definition demo : list label :=
  [Event Toggle] ++ view 1 ++ sim_run (1 # 10) [$"stop"] ++ [Event Idle; MainStep; MainStep].

Definition state_after (ls : list label) : world := default init (execs ls init).

Lemma state_after_reachable ls : is_Some (execs ls init) -> reachable (state_after ls).
Proof. intros [w E]. exists ls. unfold state_after. by rewrite E. Qed.

(** Pausing, changing the speed while the simulation is busy, and playing again before
    the new timer has fired leaves two timers, which both ask for runs from then on:
    [update_view_timeout] forgets the timer that the change of the speed has started. *)
Example two_timers :
  let busy := [SimStep; SimStep; SimStep; SimStep; SimStep] in
  let w := state_after ([Event Toggle] ++ view 1 ++ busy ++
    [Event (Timeout 1); MainStep; Event Toggle; Event (SpeedChanged 2)] ++
    [SimRan (1 # 10) []; SimStep; SimStep; SimStep; MainStep; MainStep; MainStep; MainStep] ++
    [Event Toggle] ++ view 2 ++ view 3) in
  (sources (viz w)).*1 = [2; 3] /\ play_active (viz w) = true /\ update_timeout_id (viz w) = Some 3.
Proof. vm_compute. done. Qed.

Lemma visualizer_safe_witness :
  let w := state_after ([Event Toggle] ++ view 1 ++ sim_run (1 # 10) [] ++ view 1 ++ sim_run (2 # 10) []) in
  now (past w) = (2 # 10)%Q /\ (viewed (past w) <= now (past w))%Q.
Proof.
  intros w. split; [vm_compute; reflexivity|].
  apply (visualizer_safe w). apply state_after_reachable. vm_compute. by eexists.
Defined.

(** A view that raises: the message is lost, the play button stays down, and no timer is
    left to make another view. *)
Example lost_message :
  let w := state_after (demo ++ [Event (Timeout 1); MainStep; ViewRaised]) in
  produced (past w) = [$"stop"] /\ settled (past w) = [(false, $"stop")] /\ shown (past w) = [] /\
  play_active (viz w) = true /\ sources (viz w) = [] /\ stack (viz w) = [].
Proof. vm_compute. done. Qed.

Lemma messages_settled_witness :
  let w := state_after (demo ++ [Event (Timeout 1); MainStep; MainStep; MainStep; MainStep]) in
  shown (past w) ++ taken (stack (viz w)) ++ pause_messages (simulation w) ++ extending (pc (simulation w)) =
    [$"stop"] /\ shown (past w) = [$"stop"].
Proof.
  intros w. split; [|vm_compute; reflexivity].
  refine (eq_trans (proj1 (proj2 (messages_settled
    (demo ++ [Event (Timeout 1); MainStep; MainStep; MainStep; MainStep]) w _)) _) _); [| |vm_compute; reflexivity].
  - vm_compute. reflexivity.
  - cbn. rewrite !elem_of_cons, elem_of_nil. intros H.
    repeat destruct H as [H|H]; try discriminate H; exact H.
Defined.

Lemma pause_stops_witness :
  let w := state_after ([Event Toggle] ++ view 1 ++ [Event Toggle]) in
  let w' := default w (execs (sim_run (1 # 10) []) w) in
  play_active (viz w) = false /\ runs (past w') = 1 /\ runs (past w') <= runs (past w) + 2.
Proof.
  intros w w'. split; [vm_compute; reflexivity|]. split; [vm_compute; reflexivity|].
  apply (pause_stops (sim_run (1 # 10) []) w w').
  - apply state_after_reachable. vm_compute. by eexists.
  - vm_compute. reflexivity.
  - vm_compute. reflexivity.
  - intros H. unfold sim_run in H. rewrite !elem_of_cons, elem_of_nil in H.
    repeat destruct H as [H|H]; try discriminate H; exact H.
Defined.

(** The window is closed during a run. *)
Lemma main_never_blocked_witness :
  let w := state_after ([Event Toggle] ++ view 1 ++ [SimStep; SimStep; SimStep; SimStep; SimStep] ++
    [Event Close; MainStep]) in
  main_step w = None /\ stack (viz w) = [QuitJoin] /\ exists l, is_sim l = true /\ is_Some (exec l w).
Proof.
  intros w. split; [vm_compute; reflexivity|]. split; [vm_compute; reflexivity|].
  apply (main_never_blocked w).
  - apply state_after_reachable. vm_compute. by eexists.
  - vm_compute. discriminate.
  - vm_compute. reflexivity.
Defined.
