(* ===== verification/VizScene.v ===== *)
(** * [visualizer/core.py] and [base.py]: nodes, channels, links

    The traits of devices, the change of coordinates, and the scene: [Node], [Channel]
    and [WiredLink] with their operations, and [scan_topology].  An object is the
    entry of its dictionary, or the place of a link in the list of links; the items of
    the canvas are the attributes that are set on them.  The simulated network, which
    channels are attached to which nodes, and the layout of graphviz are parameters.
    Coordinates are exact; SVG icons are left out. *)

From Stdlib Require Import QArith Qminmax.
From S2P Require Import Prelude StateM OsPath.

(** ** [base.py] *)

Definition PIXELS_PER_METER : Q := 3.

Abbreviation point := (Q * Q)%type.

Definition transform_distance_simulation_to_canvas (d : Q) : Q := d * PIXELS_PER_METER.
Definition transform_point_simulation_to_canvas (p : point) : point :=
  (p.1 * PIXELS_PER_METER, p.2 * PIXELS_PER_METER)%Q.
Definition transform_distance_canvas_to_simulation (d : Q) : Q := d / PIXELS_PER_METER.
Definition transform_point_canvas_to_simulation (p : point) : point :=
  (p.1 / PIXELS_PER_METER, p.2 / PIXELS_PER_METER)%Q.

Record NetDeviceTraits := { is_wireless : option bool; is_virtual : bool }.

Definition NetDeviceTraits_init (wireless : option bool) (virtual : bool) : py NetDeviceTraits :=
  let! _ := raise_unless (virtual || negb (bool_decide (wireless = None))) AssertionError in
  Ok {| is_wireless := wireless; is_virtual := virtual |}.

(** By the name of the type of device. *)
Definition netdevice_traits : gmap pystr NetDeviceTraits :=
  {[ $"PointToPointNetDevice" := {| is_wireless := Some false; is_virtual := false |};
     $"CsmaNetDevice" := {| is_wireless := Some false; is_virtual := false |};
     $"WifiNetDevice" := {| is_wireless := Some true; is_virtual := false |};
     $"BridgeNetDevice" := {| is_wireless := None; is_virtual := true |};
     $"LoopbackNetDevice" := {| is_wireless := Some false; is_virtual := true |};
     $"MeshPointDevice" := {| is_wireless := None; is_virtual := true |};
     $"SubscriberStationNetDevice" := {| is_wireless := Some true; is_virtual := false |};
     $"BaseStationNetDevice" := {| is_wireless := Some true; is_virtual := false |};
     $"LteUeNetDevice" := {| is_wireless := Some true; is_virtual := false |};
     $"LteEnbNetDevice" := {| is_wireless := Some true; is_virtual := false |} ]}.

Definition default_traits : NetDeviceTraits := {| is_wireless := Some true; is_virtual := false |}.

(** ** The objects *)

Record appearance := { radius : Q; fill_color_rgba : Z; line_width : Q; stroke_color : pystr }.

Record Node := {
  node_index : N;
  center : point;
  node_links : list nat;
  _has_mobility : option bool;
  _selected : bool;
  _highlighted : bool;
  _color : Z;
  _size : Q;
  _label : option pystr;
  _label_canvas_item : option (pystr * point);
  look : appearance
}.

Record Channel := { ch_center : point; ch_links : list nat }.

Inductive endpoint := NodeEnd (index : N) | ChannelEnd (id : N).

#[export] Instance endpoint_eq_dec : EqDecision endpoint.
Proof. solve_decision. Defined.

Record WiredLink := { node1 : N; node2 : endpoint; points : option (point * point) }.

Record scene := {
  nodes : gmap N Node;
  channels : gmap N Channel;
  links : list WiredLink;
  bounds : Q * Q * Q * Q;
  traits : gmap pystr NetDeviceTraits
}.

Definition set_nodes m (sc : scene) : scene :=
  {| nodes := m; channels := channels sc; links := links sc; bounds := bounds sc; traits := traits sc |}.
Definition set_channels m (sc : scene) : scene :=
  {| nodes := nodes sc; channels := m; links := links sc; bounds := bounds sc; traits := traits sc |}.
Definition set_links l (sc : scene) : scene :=
  {| nodes := nodes sc; channels := channels sc; links := l; bounds := bounds sc; traits := traits sc |}.
Definition set_bounds b (sc : scene) : scene :=
  {| nodes := nodes sc; channels := channels sc; links := links sc; bounds := b; traits := traits sc |}.
Definition set_traits m (sc : scene) : scene :=
  {| nodes := nodes sc; channels := channels sc; links := links sc; bounds := bounds sc; traits := m |}.

Definition on_node (i : N) (f : Node -> Node) (sc : scene) : scene := set_nodes (alter f i (nodes sc)) sc.
Definition on_channel (c : N) (f : Channel -> Channel) (sc : scene) : scene :=
  set_channels (alter f c (channels sc)) sc.

Definition with_center p (n : Node) : Node :=
  {| node_index := node_index n; center := p; node_links := node_links n; _has_mobility := _has_mobility n;
     _selected := _selected n; _highlighted := _highlighted n; _color := _color n; _size := _size n;
     _label := _label n; _label_canvas_item := _label_canvas_item n; look := look n |}.
Definition with_link l (n : Node) : Node :=
  {| node_index := node_index n; center := center n; node_links := node_links n ++ [l];
     _has_mobility := _has_mobility n;
     _selected := _selected n; _highlighted := _highlighted n; _color := _color n; _size := _size n;
     _label := _label n; _label_canvas_item := _label_canvas_item n; look := look n |}.
Definition with_mobility b (n : Node) : Node :=
  {| node_index := node_index n; center := center n; node_links := node_links n; _has_mobility := Some b;
     _selected := _selected n; _highlighted := _highlighted n; _color := _color n; _size := _size n;
     _label := _label n; _label_canvas_item := _label_canvas_item n; look := look n |}.
Definition with_selected b (n : Node) : Node :=
  {| node_index := node_index n; center := center n; node_links := node_links n; _has_mobility := _has_mobility n;
     _selected := b; _highlighted := _highlighted n; _color := _color n; _size := _size n;
     _label := _label n; _label_canvas_item := _label_canvas_item n; look := look n |}.
Definition with_highlighted b (n : Node) : Node :=
  {| node_index := node_index n; center := center n; node_links := node_links n; _has_mobility := _has_mobility n;
     _selected := _selected n; _highlighted := b; _color := _color n; _size := _size n;
     _label := _label n; _label_canvas_item := _label_canvas_item n; look := look n |}.
Definition with_color c (n : Node) : Node :=
  {| node_index := node_index n; center := center n; node_links := node_links n; _has_mobility := _has_mobility n;
     _selected := _selected n; _highlighted := _highlighted n; _color := c; _size := _size n;
     _label := _label n; _label_canvas_item := _label_canvas_item n; look := look n |}.
Definition with_size s (n : Node) : Node :=
  {| node_index := node_index n; center := center n; node_links := node_links n; _has_mobility := _has_mobility n;
     _selected := _selected n; _highlighted := _highlighted n; _color := _color n; _size := s;
     _label := _label n; _label_canvas_item := _label_canvas_item n; look := look n |}.
Definition with_label t (n : Node) : Node :=
  {| node_index := node_index n; center := center n; node_links := node_links n; _has_mobility := _has_mobility n;
     _selected := _selected n; _highlighted := _highlighted n; _color := _color n; _size := _size n;
     _label := t; _label_canvas_item := _label_canvas_item n; look := look n |}.
Definition with_label_item t (n : Node) : Node :=
  {| node_index := node_index n; center := center n; node_links := node_links n; _has_mobility := _has_mobility n;
     _selected := _selected n; _highlighted := _highlighted n; _color := _color n; _size := _size n;
     _label := _label n; _label_canvas_item := t; look := look n |}.
Definition with_look a (n : Node) : Node :=
  {| node_index := node_index n; center := center n; node_links := node_links n; _has_mobility := _has_mobility n;
     _selected := _selected n; _highlighted := _highlighted n; _color := _color n; _size := _size n;
     _label := _label n; _label_canvas_item := _label_canvas_item n; look := a |}.

(** ** Positions and links *)

(** [get_position] of a node or a channel. *)
Definition get_position (sc : scene) (e : endpoint) : option point :=
  match e with
  | NodeEnd i => center <$> nodes sc !! i
  | ChannelEnd c => ch_center <$> channels sc !! c
  end.

Definition links_of (sc : scene) (e : endpoint) : list nat :=
  match e with
  | NodeEnd i => default [] (node_links <$> nodes sc !! i)
  | ChannelEnd c => default [] (ch_links <$> channels sc !! c)
  end.

Definition with_points p (l : WiredLink) : WiredLink :=
  {| node1 := node1 l; node2 := node2 l; points := p |}.

(** [WiredLink.update_points] *)
Definition update_points (sc : scene) (l : nat) : scene :=
  match links sc !! l with
  | Some link =>
      match get_position sc (NodeEnd (node1 link)), get_position sc (node2 link) with
      | Some p1, Some p2 => set_links (<[l := with_points (Some (p1, p2)) link]> (links sc)) sc
      | _, _ => sc
      end
  | None => sc
  end.

Definition set_center (e : endpoint) (p : point) (sc : scene) : scene :=
  match e with
  | NodeEnd i => on_node i (with_center p) sc
  | ChannelEnd c => on_channel c (fun ch => {| ch_center := p; ch_links := ch_links ch |}) sc
  end.

(** The label below the node. *)
Definition move_label (p : point) (n : Node) : Node :=
  match _label_canvas_item n with
  | Some (t, _) => with_label_item (Some (t, (p.1, p.2 + _size n * 3)))%Q n
  | None => n
  end.

(** The bounds of the canvas grow to hold the point. *)
Definition grow (p : point) (b : Q * Q * Q * Q) : Q * Q * Q * Q :=
  let '(min_x, min_y, max_x, max_y) := b in
  (Qmin p.1 min_x, Qmin p.2 min_y, Qmax p.1 max_x, Qmax p.2 max_y).

(** [Node.set_position] and [Channel.set_position] *)
Definition set_position (e : endpoint) (p : point) (sc : scene) : scene :=
  let sc := set_center e p sc in
  let sc := foldl update_points sc (links_of sc e) in
  match e with
  | NodeEnd i =>
      let sc := on_node i (move_label p) sc in
      set_bounds (grow p (bounds sc)) sc
  | ChannelEnd _ => sc
  end.

(** ** The look of a node *)

Definition appearance_of (n : Node) : appearance :=
  let size := transform_distance_simulation_to_canvas (_size n) in
  {| radius := size;
     fill_color_rgba := Z.lor (Z.land (_color n) 0xffffff00) 0xff;
     line_width := if _selected n then size * (3 # 10) else size * (15 # 100);
     stroke_color := if _highlighted n then $"yellow" else $"black" |}.

Definition _update_appearance (i : N) (sc : scene) : scene :=
  let sc := on_node i (fun n => with_look (appearance_of n) n) sc in
  match nodes sc !! i with
  | Some n =>
      match _label n with
      | Some t =>
          let old := match _label_canvas_item n with Some (_, p) => p | None => (0, 0)%Q end in
          let sc := on_node i (with_label_item (Some (t, old))) sc in
          set_position (NodeEnd i) (center n) sc
      | None => sc
      end
  | None => sc
  end.

Definition set_selected (i : N) b (sc : scene) : scene := _update_appearance i (on_node i (with_selected b) sc).
Definition set_highlighted (i : N) b (sc : scene) : scene := _update_appearance i (on_node i (with_highlighted b) sc).
Definition set_color (i : N) c (sc : scene) : scene := _update_appearance i (on_node i (with_color c) sc).
Definition set_size (i : N) s (sc : scene) : scene := _update_appearance i (on_node i (with_size s) sc).
Definition set_label (i : N) t (sc : scene) : scene := _update_appearance i (on_node i (with_label (Some t)) sc).

(** ** Making objects *)

Definition DEFAULT_NODE_SIZE : Q := 1.

Definition Node_init (i : N) : Node :=
  let n := {| node_index := i; center := (0, 0)%Q; node_links := []; _has_mobility := None;
     _selected := false; _highlighted := false; _color := 0x808080ff; _size := DEFAULT_NODE_SIZE;
     _label := None; _label_canvas_item := None;
     look := {| radius := 0; fill_color_rgba := 0; line_width := 0; stroke_color := [] |} |} in
  with_look (appearance_of n) n.

Definition get_node (i : N) (sc : scene) : scene :=
  match nodes sc !! i with
  | Some _ => sc
  | None => set_nodes (<[i := Node_init i]> (nodes sc)) sc
  end.

Definition get_channel (c : N) (sc : scene) : scene :=
  match channels sc !! c with
  | Some _ => sc
  | None => set_channels (<[c := {| ch_center := (0, 0)%Q; ch_links := [] |}]> (channels sc)) sc
  end.

Definition add_link (e : endpoint) (l : nat) (sc : scene) : scene :=
  match e with
  | NodeEnd i => on_node i (with_link l) sc
  | ChannelEnd c => on_channel c (fun ch => {| ch_center := ch_center ch; ch_links := ch_links ch ++ [l] |}) sc
  end.

(** [create_link], of a node and a node or channel. *)
Definition create_link (i : N) (e : endpoint) (sc : scene) : scene :=
  let l := length (links sc) in
  let sc := set_links (links sc ++ [{| node1 := i; node2 := e; points := None |}]) sc in
  add_link e l (add_link (NodeEnd i) l sc).

Definition scene_init : scene :=
  {| nodes := ∅; channels := ∅; links := []; bounds := (-10000, -10000, 10000, 10000)%Q;
     traits := netdevice_traits |}.

(** ** [scan_topology] *)

Record ns3_node := { mobility : option point; devices : list (pystr * option N) }.

(** The names of the nodes and of the ends of the edges given to graphviz. *)
Record graph := { g_nodes : list pystr; g_edges : list (pystr * pystr) }.

Definition add_node n (g : graph) : graph := {| g_nodes := g_nodes g ++ [n]; g_edges := g_edges g |}.
Definition add_edge a b (g : graph) : graph := {| g_nodes := g_nodes g; g_edges := g_edges g ++ [(a, b)] |}.

Definition node_name (i : N) : pystr := $"Node " ++ show_N i.
Definition channel_name (c : N) : pystr := $"Channel " ++ show_N c.

Section scan.
Variable network : list ns3_node.
(** The nodes of the devices of a channel. *)
Variable attached : N -> list N.
Variable layout : graph -> list (pystr * point).

Definition mobility_of (i : N) : option point := network !! N.to_nat i ≫= mobility.

Definition lookup_netdevice_traits (class_type : pystr) : stM scene NetDeviceTraits := fun sc =>
  match traits sc !! class_type with
  | Some t => (sc, Ok t)
  | None => (set_traits (<[class_type := default_traits]> (traits sc)) sc, Ok default_traits)
  end.

(** [Node.has_mobility], computed once. *)
Definition has_mobility (i : N) : stM scene bool := fun sc =>
  match nodes sc !! i with
  | Some n =>
      match _has_mobility n with
      | Some b => (sc, Ok b)
      | None =>
          let b := negb (bool_decide (mobility_of i = None)) in
          (on_node i (with_mobility b) sc, Ok b)
      end
  | None => (sc, Err KeyError)
  end.

Definition truthy_flag (b : option bool) : bool := default false b.

Definition scan_other (i : N) (mob : option point) (g : graph) (other : N) : stM scene graph :=
  mset (get_node other) >>>
  if decide (other = i) then mret g
  else
    do! fixed := (match mob with None => do! b := has_mobility other in mret (negb b) | Some _ => mret false end) in
    let g := if fixed : bool then add_edge (node_name i) (node_name other) g else g in
    mset (create_link i (NodeEnd other)) >>>
    mret g.

Definition scan_device (i : N) (mob : option point) (g : graph) (device : pystr * option N) : stM scene graph :=
  do! t := lookup_netdevice_traits (fst device) in
  if truthy_flag (is_wireless t) then mret g
  else if is_virtual t then mret g
  else
    do! c := mlift (or_raise AttributeError (snd device)) in
    if decide (2 < length (attached c)) then
      let g := match mob with None => add_edge (node_name i) (channel_name c) g | Some _ => g end in
      mset (get_channel c) >>>
      mset (create_link i (ChannelEnd c)) >>>
      mret g
    else mfold (scan_other i mob) g (attached c).

Definition RED : Z := 0xff0000ff.

Definition scan_node (g : graph) (node : N * ns3_node) : stM scene graph :=
  let '(i, node) := node in
  mset (get_node i) >>>
  do! g := (match mobility node with
            | Some pos =>
                mset (set_color i RED) >>>
                mset (set_position (NodeEnd i) (transform_point_simulation_to_canvas pos)) >>>
                mret g
            | None => mret (add_node (node_name i) g)
            end) in
  mfold (scan_device i (mobility node)) g (devices node).

(** One node of the layout: [obj] is the last object found. *)
Definition place (obj : option endpoint) (placed : pystr * point) : stM scene (option endpoint) :=
  let '(name, pos) := placed in
  match split_on " "%char name with
  | [node_type; node_id] =>
      do! obj :=
        (if decide (node_type = $"Node") then
           do! i := mlift (int_of_digits node_id) in
           do! n := mget (fun sc => nodes sc !! i) in
           do! _ := mlift (or_raise KeyError n) in
           mret (Some (NodeEnd i))
         else if decide (node_type = $"Channel") then
           do! c := mlift (int_of_digits node_id) in
           do! n := mget (fun sc => channels sc !! c) in
           do! _ := mlift (or_raise KeyError n) in
           mret (Some (ChannelEnd c))
         else mret obj) in
      do! e := mlift (or_raise UnboundLocalError obj) in
      mset (set_position e pos) >>>
      mret obj
  | _ => mlift (Err ValueError)
  end.

Definition indexed {A} (l : list A) : list (N * A) := imap (fun i x => (N.of_nat i, x)) l.

Definition scan_topology : stM scene () :=
  do! g := mfold scan_node {| g_nodes := []; g_edges := [] |} (indexed network) in
  do! _ := mfold place None (layout g) in
  mret tt.

(** [_update_node_positions], less the node that is followed: the order of the
    dictionary is that of the indices. *)
Definition update_node_position (i : N) : stM scene () :=
  do! b := has_mobility i in
  if b : bool then
    match mobility_of i with
    | Some pos => mset (set_position (NodeEnd i) (transform_point_simulation_to_canvas pos))
    | None => mret tt
    end
  else mret tt.

End scan.

(** ** Links follow their ends *)

(** Each link is in the lists of both its ends, the lists hold nothing else, and a link
    that is drawn joins the positions its ends have now. *)
Record wf (sc : scene) : Prop := {
  wf_ends : forall l link, links sc !! l = Some link ->
    l ∈ links_of sc (NodeEnd (node1 link)) /\ l ∈ links_of sc (node2 link);
  wf_links : forall e l, l ∈ links_of sc e ->
    exists link, links sc !! l = Some link /\ (e = NodeEnd (node1 link) \/ e = node2 link);
  wf_points : forall l link p, links sc !! l = Some link -> points link = Some p ->
    get_position sc (NodeEnd (node1 link)) = Some p.1 /\ get_position sc (node2 link) = Some p.2
}.

(** Objects are added or change otherwise, with the links and positions they have. *)
Definition extends (sc sc' : scene) : Prop :=
  links sc' = links sc /\
  forall e, links_of sc' e = links_of sc e /\
    forall p, get_position sc e = Some p -> get_position sc' e = Some p.

#[export] Instance extends_preorder : PreOrder extends.
Proof.
  split; [by split|]. intros sc1 sc2 sc3 [E1 H1] [E2 H2]. split; [congruence|].
  intros e. destruct (H1 e) as [L1 P1], (H2 e) as [L2 P2]. split; [congruence|auto].
Qed.

Lemma wf_extends sc sc' : extends sc sc' -> wf sc -> wf sc'.
Proof.
  intros [El He] []. split.
  - intros l link E. rewrite El in E. rewrite !(proj1 (He _)). by apply wf_ends0.
  - intros e l Hl. rewrite (proj1 (He e)) in Hl. rewrite El. by apply wf_links0.
  - intros l link p E Hp. rewrite El in E. destruct (wf_points0 l link p E Hp). split; by apply He.
Qed.

Lemma on_node_extends i f sc :
  (forall n, center (f n) = center n /\ node_links (f n) = node_links n) -> extends sc (on_node i f sc).
Proof.
  intros Hf. split; [done|]. intros [j|c]; [|done]. cbn. destruct (decide (j = i)) as [->|Hne].
  - rewrite lookup_alter_eq. destruct (nodes sc !! i) as [n|]; cbn; [|done].
    destruct (Hf n) as [-> ->]. done.
  - rewrite lookup_alter_ne by done. done.
Qed.

Lemma get_node_extends i sc : extends sc (get_node i sc).
Proof.
  unfold get_node. destruct (nodes sc !! i) eqn:E; [done|]. split; [done|]. intros [j|c]; [|done]. cbn.
  destruct (decide (j = i)) as [->|Hne]; [by rewrite lookup_insert_eq, E|by rewrite lookup_insert_ne].
Qed.

Lemma get_channel_extends c sc : extends sc (get_channel c sc).
Proof.
  unfold get_channel. destruct (channels sc !! c) eqn:E; [done|]. split; [done|]. intros [j|c']; [done|]. cbn.
  destruct (decide (c' = c)) as [->|Hne]; [by rewrite lookup_insert_eq, E|by rewrite lookup_insert_ne].
Qed.

(** The points of a link, from where its ends are. *)
Definition drawn (sc : scene) (link : WiredLink) : WiredLink :=
  match get_position sc (NodeEnd (node1 link)), get_position sc (node2 link) with
  | Some p1, Some p2 => with_points (Some (p1, p2)) link
  | _, _ => link
  end.

Lemma drawn_ends sc link : node1 (drawn sc link) = node1 link /\ node2 (drawn sc link) = node2 link.
Proof. unfold drawn. by destruct (get_position sc (NodeEnd _)), (get_position sc (node2 link)). Qed.

Lemma drawn_set_links sc l : drawn (set_links l sc) = drawn sc.
Proof. done. Qed.

Lemma drawn_drawn sc link : drawn sc (drawn sc link) = drawn sc link.
Proof.
  destruct (drawn_ends sc link) as [E1 E2]. unfold drawn at 1. rewrite E1, E2. unfold drawn.
  by destruct (get_position sc (NodeEnd _)), (get_position sc (node2 link)).
Qed.

Lemma update_all_spec ls sc :
  exists L, foldl update_points sc ls = set_links L sc /\
    forall l, L !! l = if decide (l ∈ ls) then drawn sc <$> links sc !! l else links sc !! l.
Proof.
  revert sc. induction ls as [|l ls IH]; intros sc; cbn.
  { exists (links sc). split; [by destruct sc|]. intros l. by rewrite decide_False by by intros ?%elem_of_nil. }
  assert (exists L1, update_points sc l = set_links L1 sc /\
    forall k, L1 !! k = if decide (k = l) then drawn sc <$> links sc !! k else links sc !! k) as (L1 & -> & H1).
  { exists (alter (drawn sc) l (links sc)). split.
    - unfold update_points. destruct (links sc !! l) as [link|] eqn:El.
      + assert (alter (drawn sc) l (links sc) = <[l := drawn sc link]> (links sc)) as -> by
          by apply list_alter_insert_eq || (apply list_eq; intros k; destruct (decide (k = l)) as [->|Hk];
            [rewrite list_lookup_alter_eq, El, list_lookup_insert_eq by (by eapply lookup_lt_Some); done
            |by rewrite list_lookup_alter_ne, list_lookup_insert_ne]).
        unfold drawn. destruct (get_position sc (NodeEnd _)), (get_position sc (node2 link)); try done.
        all: rewrite list_insert_id by done; by destruct sc.
      + assert (alter (drawn sc) l (links sc) = links sc) as ->; [|by destruct sc].
        apply list_eq. intros k. destruct (decide (k = l)) as [->|Hk]; [by rewrite list_lookup_alter_eq, El|].
        by rewrite list_lookup_alter_ne.
    - intros k. case_decide as Hk; [subst; by rewrite list_lookup_alter_eq|by rewrite list_lookup_alter_ne]. }
  destruct (IH (set_links L1 sc)) as (L & -> & HL). exists L. split; [done|]. intros k.
  rewrite HL, drawn_set_links. cbn [links set_links]. rewrite H1.
  destruct (decide (k ∈ l :: ls)) as [Hin|Hin]; rewrite elem_of_cons in Hin;
    destruct (decide (k ∈ ls)) as [Hls|Hls], (decide (k = l)) as [->|Hk]; try done; try naive_solver.
  destruct (links sc !! l); [|done]. cbn. by rewrite drawn_drawn.
Qed.

Lemma set_links_objects l sc :
  (forall e, links_of (set_links l sc) e = links_of sc e) /\
  (forall e, get_position (set_links l sc) e = get_position sc e).
Proof. split; by intros [?|?]. Qed.

Lemma set_center_objects e p sc :
  links (set_center e p sc) = links sc /\
  forall e', links_of (set_center e p sc) e' = links_of sc e' /\
    get_position (set_center e p sc) e' =
      if decide (e' = e) then (fun _ => p) <$> get_position sc e else get_position sc e'.
Proof.
  split; [by destruct e|]. intros e'. destruct e as [i|c], e' as [j|d]; cbn.
  - destruct (decide (j = i)) as [->|Hne].
    + rewrite lookup_alter_eq, decide_True by done. by destruct (nodes sc !! i).
    + rewrite lookup_alter_ne by done. by rewrite decide_False by congruence.
  - by rewrite decide_False.
  - by rewrite decide_False.
  - destruct (decide (d = c)) as [->|Hne].
    + rewrite lookup_alter_eq, decide_True by done. by destruct (channels sc !! c).
    + rewrite lookup_alter_ne by done. by rewrite decide_False by congruence.
Qed.

Lemma on_node_id i sc : on_node i (fun n => n) sc = sc.
Proof.
  unfold on_node. replace (alter (fun n : Node => n) i (nodes sc)) with (nodes sc); [by destruct sc|].
  apply map_eq. intros j. destruct (decide (j = i)) as [->|Hne];
    [rewrite lookup_alter_eq; by destruct (nodes sc !! i)|by rewrite lookup_alter_ne].
Qed.

Lemma links_of_exists l e sc : l ∈ links_of sc e -> is_Some (get_position sc e).
Proof.
  unfold links_of, get_position. destruct e as [i|c].
  - destruct (nodes sc !! i); [by eexists|]. by intros ?%elem_of_nil.
  - destruct (channels sc !! c); [by eexists|]. by intros ?%elem_of_nil.
Qed.

(** Once its ends are in place, all the links of the object are redrawn. *)
Lemma wf_redrawn e p sc L :
  wf sc -> foldl update_points (set_center e p sc) (links_of (set_center e p sc) e) = set_links L (set_center e p sc) ->
  wf (set_links L (set_center e p sc)).
Proof.
  intros [Hends Hlinks Hpts] Efold. destruct (update_all_spec (links_of (set_center e p sc) e) (set_center e p sc)) as (L' & E & HL).
  rewrite E in Efold. assert (L' = L) as -> by by apply (f_equal links) in Efold.
  destruct (set_center_objects e p sc) as [Elinks Hobj]. rewrite (proj1 (Hobj e)), Elinks in HL. clear E Efold.
  destruct (set_links_objects L (set_center e p sc)) as [Hl' Hp'].
  assert (forall l link, L !! l = Some link -> exists old, links sc !! l = Some old /\
    node1 link = node1 old /\ node2 link = node2 old /\
    (l ∈ links_of sc e /\ link = drawn (set_center e p sc) old \/ l ∉ links_of sc e /\ link = old)) as Hback.
  { intros l link. rewrite HL. case_decide as Hin.
    - destruct (links sc !! l) as [old|]; [|done]. intros [= <-]. exists old.
      destruct (drawn_ends (set_center e p sc) old). eauto 10.
    - intros E. exists link. auto 10. }
  split; cbn [links set_links].
  - intros l link El. rewrite !Hl'. rewrite !(proj1 (Hobj _)).
    destruct (Hback l link El) as (old & Eo & -> & -> & _). by apply Hends.
  - intros e' l. rewrite Hl', (proj1 (Hobj e')). intros Hl. destruct (Hlinks e' l Hl) as (old & Eo & He).
    rewrite HL, Eo. case_decide; cbn; [|eauto]. eexists. split; [done|].
    destruct (drawn_ends (set_center e p sc) old) as [-> ->]. done.
  - intros l link q El Eq. rewrite !Hp'. destruct (Hback l link El) as (old & Eo & E1 & E2 & [[Hin ->]|[Hin ->]]).
    + rewrite E1, E2. unfold drawn in Eq.
      destruct (Hends l old Eo) as [H1 H2].
      assert (forall e', l ∈ links_of sc e' -> is_Some (get_position (set_center e p sc) e')) as Hex.
      { intros e' He'. rewrite (proj2 (Hobj e')).
        assert (is_Some (get_position sc e')) as [x Hx].
        { by apply (links_of_exists l). }
        case_decide as Hd; [subst; rewrite Hx; by eexists|by eexists]. }
      destruct (Hex _ H1) as [q1 Eq1], (Hex _ H2) as [q2 Eq2]. rewrite Eq1, Eq2 in *. cbn in Eq. by injection Eq as <-.
    + destruct (Hpts l old q Eo Eq) as [P1 P2]. destruct (Hends l old Eo) as [H1 H2].
      rewrite !(proj2 (Hobj _)). rewrite !decide_False by (intros Heq; by rewrite Heq in *). done.
Qed.

Lemma set_position_wf e p sc : wf sc -> wf (set_position e p sc).
Proof.
  intros Hw. unfold set_position.
  destruct (update_all_spec (links_of (set_center e p sc) e) (set_center e p sc)) as (L & E & _).
  pose proof (wf_redrawn e p sc L Hw E) as Hw'. rewrite E. destruct e as [i|c]; [|done].
  eapply wf_extends; [|exact Hw']. split; [done|]. intros e. apply (on_node_extends i (move_label p)).
  intros n. unfold move_label. by destruct (_label_canvas_item n) as [[]|].
Qed.

(** A move changes the position of the object that is moved, and no other. *)
Lemma set_position_objects e p sc e' :
  get_position (set_position e p sc) e' = get_position (set_center e p sc) e' /\
  links_of (set_position e p sc) e' = links_of (set_center e p sc) e'.
Proof.
  destruct (update_all_spec (links_of (set_center e p sc) e) (set_center e p sc)) as (L & E & _).
  unfold set_position. rewrite E. destruct e as [i|c]; [|by destruct e'].
  assert (forall n, center (move_label p n) = center n /\ node_links (move_label p n) = node_links n) as Hf
    by (intros n; unfold move_label; by destruct (_label_canvas_item n) as [[]|]).
  destruct e' as [j|d]; [|done]. unfold get_position, links_of. cbn [nodes set_bounds on_node set_nodes set_links].
  destruct (decide (j = i)) as [->|Hne]; [|by rewrite lookup_alter_ne].
  rewrite lookup_alter_eq. destruct (nodes _ !! i) as [n|]; [|done]. cbn. by destruct (Hf n) as [-> ->].
Qed.

Lemma set_position_position e p sc e' :
  get_position (set_position e p sc) e' =
    if decide (e' = e) then (fun _ => p) <$> get_position sc e else get_position sc e'.
Proof. rewrite (proj1 (set_position_objects e p sc e')). apply set_center_objects. Qed.

(** What a move draws. *)
Lemma set_position_drawn e p sc :
  wf sc -> is_Some (get_position sc e) ->
  get_position (set_position e p sc) e = Some p /\
  forall l link, links (set_position e p sc) !! l = Some link ->
    (NodeEnd (node1 link) = e \/ node2 link = e) -> points link <> None.
Proof.
  intros Hw He. pose proof (set_position_wf e p sc Hw) as Hw'.
  destruct (update_all_spec (links_of (set_center e p sc) e) (set_center e p sc)) as (L & E & HL).
  destruct (set_center_objects e p sc) as [Elinks Hobj].
  assert (links (set_position e p sc) = L) as El by (unfold set_position; rewrite E; by destruct e).
  pose proof (set_position_objects e p sc) as Ho.
  split.
  - rewrite (proj1 (Ho e)), (proj2 (Hobj e)), decide_True by done. destruct He as [q ->]. done.
  - intros l link Hl Hend.
    assert (l ∈ links_of (set_center e p sc) e) as Hin.
    { rewrite <- (proj2 (Ho e)). destruct (wf_ends _ Hw' l link Hl). by destruct Hend as [<-|<-]. }
    destruct (wf_ends _ Hw' l link Hl) as [H1 H2].
    destruct (links_of_exists _ _ _ H1) as [q1 Q1], (links_of_exists _ _ _ H2) as [q2 Q2].
    rewrite (proj1 (Ho _)) in Q1. rewrite (proj1 (Ho _)) in Q2.
    rewrite El, HL, decide_True in Hl by done. destruct (links _ !! l) as [old|]; [|done]. injection Hl as <-.
    destruct (drawn_ends (set_center e p sc) old) as [D1 D2]. rewrite D1 in Q1. rewrite D2 in Q2.
    unfold drawn. by rewrite Q1, Q2.
Qed.

Lemma _update_appearance_wf i sc : wf sc -> wf (_update_appearance i sc).
Proof.
  intros Hw. unfold _update_appearance.
  assert (wf (on_node i (fun n => with_look (appearance_of n) n) sc)) as H1
    by (eapply wf_extends; [by apply on_node_extends|done]).
  destruct (nodes _ !! i) as [n|]; [|done]. destruct (_label n) as [t|]; [|done].
  apply set_position_wf. eapply wf_extends; [by apply on_node_extends|done].
Qed.

Lemma add_link_objects e l sc :
  links (add_link e l sc) = links sc /\
  forall e', get_position (add_link e l sc) e' = get_position sc e' /\
    links_of (add_link e l sc) e' =
      links_of sc e' ++ (if decide (e' = e) then if get_position sc e then [l] else [] else []).
Proof.
  split; [by destruct e|]. intros e'. unfold add_link, on_node, on_channel, links_of, get_position.
  destruct e as [i|c], e' as [j|d]; cbn [nodes channels set_nodes set_channels].
  - destruct (decide (j = i)) as [->|Hne].
    + rewrite lookup_alter_eq, decide_True by done. by destruct (nodes sc !! i).
    + rewrite lookup_alter_ne by done. rewrite decide_False by congruence. by rewrite (right_id_L [] (++)).
  - rewrite decide_False by done. by rewrite (right_id_L [] (++)).
  - rewrite decide_False by done. by rewrite (right_id_L [] (++)).
  - destruct (decide (d = c)) as [->|Hne].
    + rewrite lookup_alter_eq, decide_True by done. by destruct (channels sc !! c).
    + rewrite lookup_alter_ne by done. rewrite decide_False by congruence. by rewrite (right_id_L [] (++)).
Qed.

Lemma create_link_objects i e sc :
  is_Some (get_position sc (NodeEnd i)) -> is_Some (get_position sc e) ->
  let l := length (links sc) in
  links (create_link i e sc) = links sc ++ [{| node1 := i; node2 := e; points := None |}] /\
  forall e', get_position (create_link i e sc) e' = get_position sc e' /\
    links_of (create_link i e sc) e' = links_of sc e' ++
      (if decide (e' = NodeEnd i) then [l] else []) ++ (if decide (e' = e) then [l] else []).
Proof.
  intros [p Hp] [q Hq] l. unfold create_link. fold l. set (sc1 := set_links _ sc).
  destruct (set_links_objects (links sc ++ [{| node1 := i; node2 := e; points := None |}]) sc) as [S1 S2].
  destruct (add_link_objects (NodeEnd i) l sc1) as [A1 A2].
  destruct (add_link_objects e l (add_link (NodeEnd i) l sc1)) as [B1 B2].
  split; [by rewrite B1, A1|]. intros e'. destruct (A2 e') as [A3 A4], (B2 e') as [B3 B4].
  rewrite B3, A3, B4, A4. rewrite (proj1 (A2 e)). subst sc1. rewrite !S1, !S2, Hp, Hq.
  by rewrite <- (assoc_L (++)).
Qed.

Lemma create_link_wf i e sc :
  is_Some (get_position sc (NodeEnd i)) -> is_Some (get_position sc e) -> wf sc -> wf (create_link i e sc).
Proof.
  intros Hi He [Hends Hlinks Hpts]. destruct (create_link_objects i e sc Hi He) as [E Hobj]. split.
  - intros l link. rewrite E. rewrite lookup_snoc_Some. intros [[Hl El]|[-> <-]]; cbn [node1 node2];
      rewrite !(proj2 (Hobj _)), !elem_of_app.
    + destruct (Hends l link El). auto.
    + rewrite (decide_True (P := NodeEnd i = NodeEnd i)), (decide_True (P := e = e)) by done.
      rewrite !list_elem_of_singleton. auto.
  - intros e' l. rewrite (proj2 (Hobj e')), !elem_of_app, E. setoid_rewrite lookup_snoc_Some.
    intros [Hl|[Hl|Hl]].
    + destruct (Hlinks e' l Hl) as (link & El & ?). exists link. split; [|done]. left. split; [|done]. by eapply lookup_lt_Some.
    + case_decide; [|by apply elem_of_nil in Hl]. apply list_elem_of_singleton in Hl as ->.
      eexists. split; [by right|]. by left.
    + case_decide; [|by apply elem_of_nil in Hl]. apply list_elem_of_singleton in Hl as ->.
      eexists. split; [by right|]. by right.
  - intros l link p. rewrite E, lookup_snoc_Some. intros [[Hl El]|[-> <-]]; [|done]. intros Hp.
    rewrite !(proj1 (Hobj _)). by eapply Hpts.
Qed.

(** The operations on the scene. *)
Inductive op :=
| GetNode (i : N) | GetChannel (c : N) | CreateLink (i : N) (e : endpoint) | SetPosition (e : endpoint) (p : point)
| SetSelected (i : N) (b : bool) | SetHighlighted (i : N) (b : bool) | SetColor (i : N) (c : Z)
| SetSize (i : N) (s : Q) | SetLabel (i : N) (t : pystr).

(** A link is made of objects that exist. *)
Definition do_op (sc : scene) (o : op) : scene :=
  match o with
  | GetNode i => get_node i sc
  | GetChannel c => get_channel c sc
  | CreateLink i e =>
      create_link i e (match e with NodeEnd j => get_node j | ChannelEnd c => get_channel c end (get_node i sc))
  | SetPosition e p => set_position e p sc
  | SetSelected i b => set_selected i b sc
  | SetHighlighted i b => set_highlighted i b sc
  | SetColor i c => set_color i c sc
  | SetSize i s => set_size i s sc
  | SetLabel i t => set_label i t sc
  end.

Lemma get_node_exists i sc : is_Some (get_position (get_node i sc) (NodeEnd i)).
Proof.
  unfold get_node. destruct (nodes sc !! i) as [n|] eqn:E; cbn; [rewrite E|rewrite lookup_insert_eq]; by eexists.
Qed.

Lemma get_channel_exists c sc : is_Some (get_position (get_channel c sc) (ChannelEnd c)).
Proof.
  unfold get_channel. destruct (channels sc !! c) as [n|] eqn:E; cbn; [rewrite E|rewrite lookup_insert_eq]; by eexists.
Qed.

Lemma extends_exists e sc sc' : extends sc sc' -> is_Some (get_position sc e) -> is_Some (get_position sc' e).
Proof. intros [_ H] [p Hp]. exists p. by apply H. Qed.

Lemma do_op_wf sc o : wf sc -> wf (do_op sc o).
Proof.
  intros Hw.
  assert (forall i f, (forall n, center (f n) = center n /\ node_links (f n) = node_links n) ->
    wf (_update_appearance i (on_node i f sc))) as Hlook.
  { intros i f Hf. apply _update_appearance_wf. eapply wf_extends; [by apply on_node_extends|done]. }
  destruct o; cbn; try by apply Hlook.
  - eapply wf_extends; [apply get_node_extends|done].
  - eapply wf_extends; [apply get_channel_extends|done].
  - destruct e as [j|c].
    + apply create_link_wf; [|apply get_node_exists|].
      * eapply extends_exists; [apply get_node_extends|apply get_node_exists].
      * eapply wf_extends; [|exact Hw]. etransitivity; apply get_node_extends.
    + apply create_link_wf; [|apply get_channel_exists|].
      * eapply extends_exists; [apply get_channel_extends|apply get_node_exists].
      * eapply wf_extends; [|exact Hw]. etransitivity; [apply get_node_extends|apply get_channel_extends].
  - by apply set_position_wf.
Qed.

Lemma scene_init_wf : wf scene_init.
Proof.
  split; cbn; [by intros []| |by intros []].
  intros [i|c] l; unfold links_of, scene_init; cbn [nodes channels]; rewrite lookup_empty; by intros ?%elem_of_nil.
Qed.

(** C11 - Links follow their ends.  After any operations, a link that is drawn joins the
    places its two ends have; the objects that list a link are its two ends and no other,
    and what is listed is a link; and when an object is moved it is where it was put and all
    its links are drawn. *)
Theorem links_follow ops sc :
  sc = foldl do_op scene_init ops ->
  (forall l link, links sc !! l = Some link ->
     (forall e, l ∈ links_of sc e <-> e = NodeEnd (node1 link) \/ e = node2 link) /\
     forall p, points link = Some p ->
       get_position sc (NodeEnd (node1 link)) = Some p.1 /\ get_position sc (node2 link) = Some p.2) /\
  (forall e l, l ∈ links_of sc e -> is_Some (links sc !! l)) /\
  (forall e p, is_Some (get_position sc e) ->
     get_position (set_position e p sc) e = Some p /\
     forall l link, links (set_position e p sc) !! l = Some link ->
       (NodeEnd (node1 link) = e \/ node2 link = e) -> points link <> None).
Proof.
  intros ->.
  assert (wf (foldl do_op scene_init ops)) as Hw.
  { induction ops as [|o ops IH] using rev_ind; [apply scene_init_wf|]. rewrite foldl_app. by apply do_op_wf. }
  generalize dependent (foldl do_op scene_init ops). intros sc Hw. split; [|split].
  - intros l link El. destruct (wf_ends sc Hw l link El) as [H1 H2]. split.
    + intros e. split; [|by intros [->| ->]].
      intros (link' & El' & He)%(wf_links sc Hw). by simplify_eq.
    + intros p. by apply (wf_points sc Hw l).
  - intros e l (link & El & _)%(wf_links sc Hw). by eexists.
  - intros e p He. by apply set_position_drawn.
Qed.

(** ** Scanning the topology *)

Definition link_ends (sc : scene) : list (N * endpoint) := (fun l => (node1 l, node2 l)) <$> links sc.

(** The links stay, no object goes, and the traits are those there were. *)
Record keeps (sc sc' : scene) : Prop := {
  keeps_ends : link_ends sc' = link_ends sc;
  keeps_traits : traits sc' = traits sc;
  keeps_objects : forall e, is_Some (get_position sc e) -> is_Some (get_position sc' e)
}.

#[export] Instance keeps_preorder : PreOrder keeps.
Proof.
  split; [by split|]. intros sc1 sc2 sc3 [] []. split; [congruence..|auto].
Qed.

Lemma extends_keeps sc sc' : extends sc sc' -> traits sc' = traits sc -> keeps sc sc'.
Proof.
  intros [El He] Et. split; [unfold link_ends; by rewrite El|done|]. intros e [p Hp]. exists p. by apply He.
Qed.

Lemma on_node_keeps i f sc :
  (forall n, center (f n) = center n /\ node_links (f n) = node_links n) -> keeps sc (on_node i f sc).
Proof. intros Hf. apply extends_keeps; [by apply on_node_extends|done]. Qed.

Lemma set_position_keeps e p sc : keeps sc (set_position e p sc).
Proof.
  destruct (update_all_spec (links_of (set_center e p sc) e) (set_center e p sc)) as (L & E & HL).
  destruct (set_center_objects e p sc) as [Elinks Hobj].
  assert (keeps sc (set_links L (set_center e p sc))) as H1.
  { split.
    - unfold link_ends. cbn [links set_links]. apply list_eq. intros l. rewrite !list_lookup_fmap, HL, Elinks.
      case_decide; [|done]. destruct (links sc !! l) as [old|]; [|done]. cbn.
      destruct (drawn_ends (set_center e p sc) old) as [D1 D2]. by rewrite D1, D2.
    - by destruct e.
    - intros e' He'. destruct (set_links_objects L (set_center e p sc)) as [_ ->].
      rewrite (proj2 (Hobj e')). case_decide as Hd; [|done]. subst. destruct He' as [q ->]. by eexists. }
  unfold set_position. rewrite E. destruct e as [i|c]; [|done].
  etransitivity; [exact H1|]. split; [done..|]. intros e' He'.
  apply (on_node_keeps i (move_label p)); [|exact He'].
  intros n. unfold move_label. by destruct (_label_canvas_item n) as [[]|].
Qed.

Lemma _update_appearance_keeps i sc : keeps sc (_update_appearance i sc).
Proof.
  unfold _update_appearance. assert (keeps sc (on_node i (fun n => with_look (appearance_of n) n) sc)) as H1
    by by apply on_node_keeps.
  destruct (nodes _ !! i) as [n|]; [|done]. destruct (_label n) as [t|]; [|done].
  etransitivity; [exact H1|]. etransitivity; [|apply set_position_keeps]. by apply on_node_keeps.
Qed.

Lemma get_node_keeps i sc : keeps sc (get_node i sc).
Proof. apply extends_keeps; [apply get_node_extends|]. unfold get_node. by destruct (nodes sc !! i). Qed.

Lemma get_channel_keeps c sc : keeps sc (get_channel c sc).
Proof. apply extends_keeps; [apply get_channel_extends|]. unfold get_channel. by destruct (channels sc !! c). Qed.

Lemma show_N_no_space n : " "%char ∉ show_N n.
Proof.
  intros H. pose proof (show_N_digits n) as Hd. rewrite Forall_forall in Hd. by specialize (Hd _ H).
Qed.

Section topology.
Variable network : list ns3_node.
Variable attached : N -> list N.
Variable layout : graph -> list (pystr * point).

(** A device that is neither wireless nor virtual; one of an unknown type is taken as
    wireless. *)
Definition wired (type : pystr) : bool :=
  let t := default default_traits (netdevice_traits !! type) in
  negb (truthy_flag (is_wireless t)) && negb (is_virtual t).

(** The links of a device: to its channel when that has more than two devices, else to
    each other node of the channel. *)
Definition device_links (i : N) (d : pystr * option N) : list (N * endpoint) :=
  match d.2 with
  | Some c =>
      if negb (wired d.1) then []
      else if decide (2 < length (attached c)) then [(i, ChannelEnd c)]
      else (fun other => (i, NodeEnd other)) <$> filter (fun other => other <> i) (attached c)
  | None => []
  end.

Definition topology_links : list (N * endpoint) :=
  indexed network ≫= fun iv => devices iv.2 ≫= device_links iv.1.

(** The names given to graphviz, and what they name. *)
Definition names (g : graph) : list pystr := g_nodes g ++ (g_edges g ≫= fun e => [e.1; e.2]).

Definition known (sc : scene) (name : pystr) : Prop :=
  (exists i, name = node_name i /\ is_Some (get_position sc (NodeEnd i))) \/
  (exists c, name = channel_name c /\ is_Some (get_position sc (ChannelEnd c))).

Record scanned (L : list (N * endpoint)) (g : graph) (sc : scene) : Prop := {
  scanned_wf : wf sc;
  scanned_ends : link_ends sc = L;
  scanned_known : forall name, name ∈ names g -> known sc name;
  scanned_traits : forall t, default default_traits (traits sc !! t) = default default_traits (netdevice_traits !! t)
}.

Lemma known_keeps sc sc' name : keeps sc sc' -> known sc name -> known sc' name.
Proof. intros [_ _ H] [(i & -> & ?)|(c & -> & ?)]; [left|right]; eauto. Qed.

Lemma scanned_keeps L g sc sc' : keeps sc sc' -> wf sc' -> scanned L g sc -> scanned L g sc'.
Proof.
  intros Hk Hw []. split; [done| | |].
  - by rewrite (keeps_ends _ _ Hk).
  - intros name Hn. by eapply known_keeps; [|apply scanned_known0].
  - intros t. by rewrite (keeps_traits _ _ Hk).
Qed.

Lemma scanned_get_node L g i sc : scanned L g sc -> scanned L g (get_node i sc).
Proof.
  intros H. eapply scanned_keeps; [apply get_node_keeps| |done].
  eapply wf_extends; [apply get_node_extends|apply H].
Qed.

Definition exists_in (sc : scene) (i : N) : Prop := is_Some (get_position sc (NodeEnd i)).

Lemma scanned_link L g i e sc :
  scanned L g sc -> exists_in sc i -> is_Some (get_position sc e) ->
  scanned (L ++ [(i, e)]) g (create_link i e sc) /\ exists_in (create_link i e sc) i.
Proof.
  intros [] Hi He. destruct (create_link_objects i e sc Hi He) as [El Ho].
  split; [|unfold exists_in; by rewrite (proj1 (Ho _))]. split.
  - by apply create_link_wf.
  - unfold link_ends in *. rewrite El, fmap_app, scanned_ends0. done.
  - intros name Hn. destruct (scanned_known0 name Hn) as [(j & -> & ?)|(c & -> & ?)]; [left|right];
      eexists; (split; [done|]); by rewrite (proj1 (Ho _)).
  - intros t. assert (traits (create_link i e sc) = traits sc) as ->; [|done].
    unfold create_link. by destruct e.
Qed.

Lemma names_add_edge a b g name : name ∈ names (add_edge a b g) <-> name ∈ names g \/ name = a \/ name = b.
Proof.
  unfold names, add_edge. cbn [g_nodes g_edges]. rewrite bind_app, !elem_of_app. cbn.
  rewrite !elem_of_cons, elem_of_nil. tauto.
Qed.

Lemma scanned_edge L g a b sc :
  scanned L g sc -> known sc a -> known sc b -> scanned L (add_edge a b g) sc.
Proof. intros [] Ha Hb. split; [done..| |done]. intros name. rewrite names_add_edge. naive_solver. Qed.

Lemma has_mobility_runs L g i :
  runs (fun sc => scanned L g sc /\ exists_in sc i)
    (has_mobility network i) (fun _ sc => scanned L g sc /\ exists_in sc i).
Proof.
  intros sc [Hs Hi]. unfold has_mobility.
  assert (is_Some (nodes sc !! i)) as [n En].
  { destruct Hi as [p Hp]. cbn in Hp. destruct (nodes sc !! i); [by eexists|done]. }
  rewrite En. destruct (_has_mobility n) as [b|]; [by exists sc, b|]. eexists _, _. split; [done|].
  assert (keeps sc (on_node i (with_mobility (negb (bool_decide (mobility_of network i = None)))) sc)) as Hk
    by by apply on_node_keeps.
  split; [|by apply Hk]. eapply scanned_keeps; [exact Hk| |done].
  eapply wf_extends; [by apply on_node_extends|apply Hs].
Qed.

(** Between the devices of node [i]. *)
Definition at_node (i : N) (L : list (N * endpoint)) (g : graph) (sc : scene) : Prop :=
  scanned L g sc /\ exists_in sc i.

Lemma at_node_keeps i L g sc sc' : keeps sc sc' -> wf sc' -> at_node i L g sc -> at_node i L g sc'.
Proof. intros Hk Hw [Hs Hi]. split; [by eapply scanned_keeps|by apply Hk]. Qed.

Lemma get_node_wf i sc : wf sc -> wf (get_node i sc).
Proof. apply wf_extends, get_node_extends. Qed.

Lemma scan_other_runs i mob g L other :
  runs (at_node i L g) (scan_other network i mob g other)
    (fun g' => at_node i (L ++ if decide (other = i) then [] else [(i, NodeEnd other)]) g').
Proof.
  unfold scan_other.
  eapply (runs_bind _ _ _ (fun _ sc => at_node i L g sc /\ exists_in sc other)).
  { apply runs_set. intros sc H. split; [|apply get_node_exists].
    eapply at_node_keeps; [apply get_node_keeps| |done]. apply get_node_wf, H. }
  intros _. case_decide as Ho.
  { apply runs_ret. intros sc [H _]. by rewrite (right_id_L [] (++)). }
  eapply (runs_bind _ _ _ (fun _ sc => at_node i L g sc /\ exists_in sc other)).
  { destruct mob; [by apply runs_ret|].
    eapply (runs_bind _ _ _ (fun _ sc => at_node i L g sc /\ exists_in sc other)).
    - intros sc [[Hs Hi] Hother]. destruct (has_mobility_runs L g other sc (conj Hs Hother)) as (sc' & b & E & H1 & H2).
      exists sc', b. split; [done|]. split; [|done]. split; [done|].
      unfold has_mobility in E. destruct (nodes sc !! other) as [n|]; [|done]. destruct (_has_mobility n); injection E as <- _; [done|].
      by apply on_node_keeps.
    - intros b. by apply runs_ret. }
  intros fixed.
  apply (runs_bind _ _ _ (fun _ => at_node i (L ++ [(i, NodeEnd other)])
    (if fixed : bool then add_edge (node_name i) (node_name other) g else g))); [apply runs_set|intros _; by apply runs_ret].
  intros sc [[Hs Hi] Hother]. destruct (scanned_link L g i (NodeEnd other) sc Hs Hi Hother) as [H1 H2].
  split; [|done]. destruct fixed; [|done]. apply scanned_edge; [done|left; by exists i|].
  left. exists other. split; [done|]. destruct (create_link_objects i (NodeEnd other) sc Hi Hother) as [_ Hob].
  by rewrite (proj1 (Hob _)).
Qed.

Lemma scan_device_runs i mob g L d :
  (wired d.1 = true -> is_Some d.2) ->
  runs (at_node i L g) (scan_device network attached i mob g d) (fun g' => at_node i (L ++ device_links i d) g').
Proof.
  intros Hd. unfold scan_device.
  eapply (runs_bind _ _ _ (fun t sc => at_node i L g sc /\ negb (truthy_flag (is_wireless t)) && negb (is_virtual t) = wired d.1)).
  { intros sc [Hs Hi]. unfold lookup_netdevice_traits, wired. rewrite <- (scanned_traits _ _ _ Hs).
    destruct (traits sc !! d.1) as [t|] eqn:Et; eexists _, _; (split; [done|]); split; try done.
    split; [|done]. destruct Hs. split; [|done|done|].
    - eapply wf_extends; [|done]. split; [done|]. intros [|]; done.
    - intros t. cbn. destruct (decide (t = d.1)) as [->|Hne].
      + rewrite lookup_insert_eq, <- scanned_traits0, Et. done.
      + by rewrite lookup_insert_ne by done. }
  intros t. destruct (truthy_flag (is_wireless t)); [|destruct (is_virtual t)]; cbn [negb andb].
  1,2: apply runs_ret; intros sc [H E]; unfold device_links; rewrite <- E; destruct d.2; cbn; by rewrite (right_id_L [] (++)).
  destruct (wired d.1) eqn:Ew; [|intros sc [_ ?]; done]. destruct (Hd eq_refl) as [c Hc].
  assert (device_links i d = if decide (2 < length (attached c)) then [(i, ChannelEnd c)]
    else (fun other => (i, NodeEnd other)) <$> filter (fun other => other <> i) (attached c)) as ->
    by (unfold device_links; by rewrite Hc, Ew).
  clear Ew Hd. rewrite Hc. eapply (runs_bind _ _ _ (fun c' sc => at_node i L g sc /\ c' = c)).
  { intros sc [H _]. by exists sc, c. }
  intros c'. destruct (decide (c' = c)) as [->|Hne]; [|intros sc [_ ?]; done].
  case_decide as Hlen.
  - eapply (runs_bind _ _ _ (fun _ sc => at_node i L g sc /\ is_Some (get_position sc (ChannelEnd c)))).
    { apply runs_set. intros sc [H _]. split; [|apply get_channel_exists].
      eapply at_node_keeps; [apply get_channel_keeps| |done]. eapply wf_extends; [apply get_channel_extends|apply H]. }
    intros _.
    apply (runs_bind _ _ _ (fun _ => at_node i (L ++ [(i, ChannelEnd c)])
      (match mob with None => add_edge (node_name i) (channel_name c) g | Some _ => g end)));
      [apply runs_set|intros _; by apply runs_ret].
    intros sc [[Hs Hi] Hch]. destruct (scanned_link L g i (ChannelEnd c) sc Hs Hi Hch) as [H1 H2].
    split; [|done]. destruct mob; [done|]. apply scanned_edge; [done|left; by exists i|].
    right. exists c. split; [done|]. destruct (create_link_objects i (ChannelEnd c) sc Hi Hch) as [_ Hob].
    by rewrite (proj1 (Hob _)).
  - eapply runs_weaken; [|intros sc [H _]; exact H|intros g' sc H; exact H].
    pose proof (runs_fold (scan_other network i mob) (attached c)
      (fun done g => at_node i (L ++ ((fun other => (i, NodeEnd other)) <$> filter (fun other => other <> i) done)) g) g) as Hf.
    eapply runs_weaken; [apply Hf| |intros g' sc H; exact H].
    + intros pre x todo g' _. eapply runs_weaken; [apply scan_other_runs|intros sc H; exact H|].
      intros g2 sc. rewrite filter_app, filter_cons, filter_nil, fmap_app, <- (assoc_L (++)).
      destruct (decide (x = i)) as [->|Hx]; [by rewrite decide_False by (by intros [])|by rewrite decide_True].
    + intros sc. cbn. by rewrite (right_id_L [] (++)).
Qed.

(** The nodes, with their number. *)
Lemma scan_node_runs g L i node :
  (forall d, d ∈ devices node -> wired d.1 = true -> is_Some d.2) ->
  runs (scanned L g) (scan_node network attached g (i, node))
    (fun g' => scanned (L ++ (devices node ≫= device_links i)) g').
Proof.
  intros Hd. unfold scan_node.
  eapply (runs_bind _ _ _ (fun _ => at_node i L g)).
  { apply runs_set. intros sc H. split; [by apply scanned_get_node|apply get_node_exists]. }
  intros _. eapply (runs_bind _ _ _ (fun g' => at_node i L g')).
  { destruct (mobility node) as [pos|].
    - eapply (runs_bind _ _ _ (fun _ => at_node i L g)).
      { apply runs_set. intros sc H. unfold set_color.
        eapply at_node_keeps; [|apply (do_op_wf sc (SetColor i RED)), H|done].
        etransitivity; [|apply _update_appearance_keeps]. by apply on_node_keeps. }
      intros _. eapply (runs_bind _ _ _ (fun _ => at_node i L g)); [|intros _; by apply runs_ret].
      apply runs_set. intros sc H. eapply at_node_keeps; [apply set_position_keeps|apply set_position_wf, H|done].
    - apply runs_ret. intros sc [Hs Hi]. split; [|done]. destruct Hs. split; [done..| |done].
      intros name. unfold names, add_node. cbn [g_nodes g_edges]. rewrite !elem_of_app, list_elem_of_singleton.
      intros [[Hn| ->]|Hn]; [|left; by exists i|]; apply scanned_known0; unfold names; rewrite elem_of_app; auto. }
  intros g'. apply (runs_weaken _ (at_node i L g') _ (fun g2 => at_node i (L ++ (devices node ≫= device_links i)) g2));
    [|done|intros g2 sc [H _]; exact H].
  pose proof (runs_fold (scan_device network attached i (mobility node)) (devices node)
    (fun done g => at_node i (L ++ (done ≫= device_links i)) g) g') as Hf.
  eapply runs_weaken; [apply Hf| |intros g2 sc H; exact H].
  - intros pre x todo g2 E. eapply runs_weaken; [apply scan_device_runs|intros sc H; exact H|].
    + apply Hd. rewrite E. apply elem_of_app. right. by left.
    + intros g3 sc. rewrite bind_app, <- (assoc_L (++)). cbn. by rewrite (right_id_L [] (++)).
  - intros sc. cbn. by rewrite (right_id_L [] (++)).
Qed.

Lemma split_name w n : " "%char ∉ w -> split_on " "%char (w ++ $" " ++ show_N n) = [w; show_N n].
Proof.
  intros Hw. change (w ++ $" " ++ show_N n) with (w ++ " "%char :: show_N n).
  rewrite split_on_app_sep, !split_on_no by (done || apply show_N_no_space). done.
Qed.

Lemma place_runs L g obj name pos :
  runs (fun sc => scanned L g sc /\ known sc name) (place obj (name, pos)) (fun _ => scanned L g).
Proof.
  intros sc [Hs Hn].
  enough (exists e obj', place obj (name, pos) sc = (set_position e pos sc, Ok obj')) as (e & obj' & E).
  { exists (set_position e pos sc), obj'. split; [done|].
    eapply scanned_keeps; [apply set_position_keeps|apply set_position_wf, Hs|done]. }
  unfold place. destruct Hn as [(i & -> & [p Hi])|(c & -> & [p Hi])]; cbn in Hi.
  - exists (NodeEnd i), (Some (NodeEnd i)). unfold node_name.
    change ($"Node " ++ show_N i) with ($"Node" ++ $" " ++ show_N i). rewrite (split_name $"Node") by (cbn; set_solver).
    rewrite decide_True by done. unfold gbind, mlift, mget, mret, mset. rewrite int_of_show_N.
    destruct (nodes sc !! i); done.
  - exists (ChannelEnd c), (Some (ChannelEnd c)). unfold channel_name.
    change ($"Channel " ++ show_N c) with ($"Channel" ++ $" " ++ show_N c). rewrite (split_name $"Channel") by (cbn; set_solver).
    rewrite decide_False, decide_True by done. unfold gbind, mlift, mget, mret, mset. rewrite int_of_show_N.
    destruct (channels sc !! c); done.
Qed.

(** C10 - What the scan makes of a network.  When each wired device has a channel and graphviz
    places only what it was given, the scan does not raise.  The links are those of the
    wired devices in order: one to a channel of more than two devices, else one to each
    other node; both ends list them, and those drawn join the places of their ends. *)
Theorem scan_topology_spec :
  (forall node d, node ∈ network -> d ∈ devices node -> wired d.1 = true -> is_Some d.2) ->
  (forall g name, name ∈ (layout g).*1 -> name ∈ names g) ->
  exists sc, scan_topology network attached layout scene_init = (sc, Ok tt) /\
    link_ends sc = topology_links /\ wf sc.
Proof.
  intros Hd Hlay.
  enough (runs (fun sc => sc = scene_init) (scan_topology network attached layout)
    (fun _ sc => link_ends sc = topology_links /\ wf sc)) as H.
  { destruct (H scene_init eq_refl) as (sc & [] & E & ?). eauto. }
  unfold scan_topology. eapply (runs_bind _ _ _ (fun g => scanned topology_links g)).
  - pose proof (runs_fold (scan_node network attached) (indexed network)
      (fun done g => scanned (done ≫= fun iv => devices iv.2 ≫= device_links iv.1) g)
      {| g_nodes := []; g_edges := [] |}) as Hf.
    eapply runs_weaken; [apply Hf| |done].
    + intros pre [i node] todo g E. eapply runs_weaken; [apply scan_node_runs|intros sc H; exact H|].
      * intros d. apply (Hd node). assert ((i, node) ∈ indexed network) as Hin by (rewrite E; apply elem_of_app; right; by left).
        unfold indexed in Hin. apply elem_of_lookup_imap in Hin as (k & x & [= _ ->] & Hx).
        by apply list_elem_of_lookup_2 in Hx.
      * intros g' sc. rewrite bind_app. cbn. by rewrite (right_id_L [] (++)).
    + intros sc ->. split; [apply scene_init_wf|reflexivity|by intros name ?%elem_of_nil|reflexivity].
  - intros g. eapply (runs_bind _ _ _ (fun _ => scanned topology_links g)).
    + pose proof (runs_fold place (layout g) (fun _ _ => scanned topology_links g) None) as Hf.
      apply Hf. intros pre [name pos] todo obj E. eapply runs_weaken; [apply (place_runs topology_links g)| |intros o sc H; exact H].
      intros sc H. split; [exact H|]. apply (scanned_known _ _ _ H), Hlay. rewrite E, fmap_app, elem_of_app. right. by left.
    + intros obj. apply runs_ret. intros sc []. done.
Qed.

End topology.

(** ** Examples *)

(** Two nodes, the second one moving, joined by a point-to-point channel. *)
Definition demo_network : list ns3_node :=
  [ {| mobility := None; devices := [($"PointToPointNetDevice", Some 0%N); ($"WifiNetDevice", None)] |};
    {| mobility := Some (1, 2)%Q; devices := [($"PointToPointNetDevice", Some 0%N)] |} ].

Definition demo_layout (g : graph) : list (pystr * point) := (fun n => (n, (5, 6)%Q)) <$> g_nodes g.

(** The channel is drawn twice, once from each end. *)
Lemma scan_topology_spec_witness :
  exists sc, scan_topology demo_network (fun _ => [0; 1]%N) demo_layout scene_init = (sc, Ok tt) /\
    link_ends sc = [(0%N, NodeEnd 1); (1%N, NodeEnd 0)].
Proof.
  destruct (scan_topology_spec demo_network (fun _ => [0; 1]%N) demo_layout) as (sc & E & El & _).
  - assert (Forall (fun node => Forall (fun d => wired d.1 = true -> is_Some d.2) (devices node)) demo_network) as H.
    { constructor; [|constructor; [|constructor]]; cbn [devices].
      + constructor; [intros _; eexists; reflexivity|]. constructor; [|constructor].
        intros Hw. vm_compute in Hw. discriminate Hw.
      + constructor; [intros _; eexists; reflexivity|constructor]. }
    intros node d Hn Hd. rewrite Forall_forall in H. specialize (H node Hn).
    rewrite Forall_forall in H. exact (H d Hd).
  - intros g name. unfold demo_layout, names. rewrite <- list_fmap_compose, elem_of_app. intros H. left.
    apply list_elem_of_fmap in H as (x & -> & Hx). exact Hx.
  - exists sc. split; [exact E|]. rewrite El. vm_compute. reflexivity.
Defined.

Lemma links_follow_witness :
  let ops := [CreateLink 0 (NodeEnd 1); SetPosition (NodeEnd 1) (3, 4)%Q; SetLabel 1 $"b"; SetPosition (NodeEnd 0) (1, 1)%Q] in
  let sc := foldl do_op scene_init ops in
  links sc = [{| node1 := 0; node2 := NodeEnd 1; points := Some ((1, 1)%Q, (3, 4)%Q) |}] /\
  0 ∈ links_of sc (NodeEnd 1).
Proof.
  intros ops sc. split; [vm_compute; reflexivity|].
  destruct (proj1 (links_follow ops sc eq_refl) 0 {| node1 := 0; node2 := NodeEnd 1; points := Some ((1, 1)%Q, (3, 4)%Q) |}) as (H & _).
  - vm_compute. reflexivity.
  - apply (H (NodeEnd 1)). right. reflexivity.
Defined.
