(* ===== verification/VizView.v ===== *)
(** * [visualizer/core.py]: the selection, the samples and the arrows, dragging

    What [Visualizer] shows on the scene of [VizScene]: the node that is selected, the
    nodes whose packets the simulator reports, the arrows of the transmissions and the
    drops of the last periods, and the node that is dragged.  The arrows and their
    labels are kept and used again: each is a place of a list, and the lists of the
    code hold places.

    The logarithm and the arc tangent, the cutting of lines (which is C++) and the
    change from pixels to the canvas are parameters.  A number that is shown in a
    label is kept as a number.  The label of the time, the information windows, the
    plugins and the node that is followed are left out. *)

From Stdlib Require Import QArith Qround Qminmax Lqa.
From S2P Require Import Prelude StateM OsPath PyFloat VizScene.

(** ** The state *)

(** The samples of a period, as [PyViz] gives them. *)
Record transmission := { transmitter : N; receiver : N; bytes : N }.
Record drop := { drop_transmitter : N; drop_bytes : N }.

Inductive ShowTransmissionsMode := ALL | NONE | SELECTED.

#[export] Instance mode_eq_dec : EqDecision ShowTransmissionsMode.
Proof. solve_decision. Defined.

(** The properties set on a label; of a transmission, with the place and the angle of
    its matrix unless [set_transform] raised. *)
Inductive label :=
| TransmissionLabel (font : Z) (rightwards : bool) (kbps x y : Q) (matrix : option (point * Q))
| DropLabel (font : Z) (kbps : Q) (at_ : point).

Record arrow := {
  arrow_visible : bool;
  arrow_width : Q;
  arrow_points : option (point * point);
  label_visible : bool;
  arrow_label : option label
}.

Record NodeDragState := { canvas_0 : point; sim_0 : point; motion_signal : N }.

Record viewer := {
  sc : scene;
  network : list ns3_node;
  selected_node : option N;
  _show_transmissions_mode : ShowTransmissionsMode;
  nodes_of_interest : list N;
  sample_period : Q;
  node_size : Q;
  smoothing : Q;
  _last_transmissions : list (list transmission);
  _last_drops : list (list drop);
  arrows : list arrow;
  _transmission_arrows : list nat;
  _drop_arrows : list nat;
  node_drag_state : option NodeDragState
}.

Definition set_sc s (v : viewer) : viewer :=
  {| sc := s; network := network v; selected_node := selected_node v;
     _show_transmissions_mode := _show_transmissions_mode v; nodes_of_interest := nodes_of_interest v;
     sample_period := sample_period v; node_size := node_size v; smoothing := smoothing v;
     _last_transmissions := _last_transmissions v; _last_drops := _last_drops v; arrows := arrows v;
     _transmission_arrows := _transmission_arrows v; _drop_arrows := _drop_arrows v;
     node_drag_state := node_drag_state v |}.
Definition set_network n (v : viewer) : viewer :=
  {| sc := sc v; network := n; selected_node := selected_node v;
     _show_transmissions_mode := _show_transmissions_mode v; nodes_of_interest := nodes_of_interest v;
     sample_period := sample_period v; node_size := node_size v; smoothing := smoothing v;
     _last_transmissions := _last_transmissions v; _last_drops := _last_drops v; arrows := arrows v;
     _transmission_arrows := _transmission_arrows v; _drop_arrows := _drop_arrows v;
     node_drag_state := node_drag_state v |}.
Definition set_selection o (v : viewer) : viewer :=
  {| sc := sc v; network := network v; selected_node := o;
     _show_transmissions_mode := _show_transmissions_mode v; nodes_of_interest := nodes_of_interest v;
     sample_period := sample_period v; node_size := node_size v; smoothing := smoothing v;
     _last_transmissions := _last_transmissions v; _last_drops := _last_drops v; arrows := arrows v;
     _transmission_arrows := _transmission_arrows v; _drop_arrows := _drop_arrows v;
     node_drag_state := node_drag_state v |}.
Definition set_mode m (v : viewer) : viewer :=
  {| sc := sc v; network := network v; selected_node := selected_node v;
     _show_transmissions_mode := m; nodes_of_interest := nodes_of_interest v;
     sample_period := sample_period v; node_size := node_size v; smoothing := smoothing v;
     _last_transmissions := _last_transmissions v; _last_drops := _last_drops v; arrows := arrows v;
     _transmission_arrows := _transmission_arrows v; _drop_arrows := _drop_arrows v;
     node_drag_state := node_drag_state v |}.
Definition set_nodes_of_interest l (v : viewer) : viewer :=
  {| sc := sc v; network := network v; selected_node := selected_node v;
     _show_transmissions_mode := _show_transmissions_mode v; nodes_of_interest := l;
     sample_period := sample_period v; node_size := node_size v; smoothing := smoothing v;
     _last_transmissions := _last_transmissions v; _last_drops := _last_drops v; arrows := arrows v;
     _transmission_arrows := _transmission_arrows v; _drop_arrows := _drop_arrows v;
     node_drag_state := node_drag_state v |}.
Definition set_settings period size smooth (v : viewer) : viewer :=
  {| sc := sc v; network := network v; selected_node := selected_node v;
     _show_transmissions_mode := _show_transmissions_mode v; nodes_of_interest := nodes_of_interest v;
     sample_period := period; node_size := size; smoothing := smooth;
     _last_transmissions := _last_transmissions v; _last_drops := _last_drops v; arrows := arrows v;
     _transmission_arrows := _transmission_arrows v; _drop_arrows := _drop_arrows v;
     node_drag_state := node_drag_state v |}.
Definition set_last ts ds (v : viewer) : viewer :=
  {| sc := sc v; network := network v; selected_node := selected_node v;
     _show_transmissions_mode := _show_transmissions_mode v; nodes_of_interest := nodes_of_interest v;
     sample_period := sample_period v; node_size := node_size v; smoothing := smoothing v;
     _last_transmissions := ts; _last_drops := ds; arrows := arrows v;
     _transmission_arrows := _transmission_arrows v; _drop_arrows := _drop_arrows v;
     node_drag_state := node_drag_state v |}.
Definition set_arrows l (v : viewer) : viewer :=
  {| sc := sc v; network := network v; selected_node := selected_node v;
     _show_transmissions_mode := _show_transmissions_mode v; nodes_of_interest := nodes_of_interest v;
     sample_period := sample_period v; node_size := node_size v; smoothing := smoothing v;
     _last_transmissions := _last_transmissions v; _last_drops := _last_drops v; arrows := l;
     _transmission_arrows := _transmission_arrows v; _drop_arrows := _drop_arrows v;
     node_drag_state := node_drag_state v |}.
Definition set_pools ts ds (v : viewer) : viewer :=
  {| sc := sc v; network := network v; selected_node := selected_node v;
     _show_transmissions_mode := _show_transmissions_mode v; nodes_of_interest := nodes_of_interest v;
     sample_period := sample_period v; node_size := node_size v; smoothing := smoothing v;
     _last_transmissions := _last_transmissions v; _last_drops := _last_drops v; arrows := arrows v;
     _transmission_arrows := ts; _drop_arrows := ds;
     node_drag_state := node_drag_state v |}.
Definition set_drag d (v : viewer) : viewer :=
  {| sc := sc v; network := network v; selected_node := selected_node v;
     _show_transmissions_mode := _show_transmissions_mode v; nodes_of_interest := nodes_of_interest v;
     sample_period := sample_period v; node_size := node_size v; smoothing := smoothing v;
     _last_transmissions := _last_transmissions v; _last_drops := _last_drops v; arrows := arrows v;
     _transmission_arrows := _transmission_arrows v; _drop_arrows := _drop_arrows v;
     node_drag_state := d |}.

Definition on_sc (f : scene -> scene) (v : viewer) : viewer := set_sc (f (sc v)) v.

(** An operation of the scene. *)
Definition in_scene {A} (m : stM scene A) : stM viewer A := fun v =>
  let '(s, r) := m (sc v) in (set_sc s v, r).

(** ** The selection *)

(** [SetNodesOfInterest] of the simulator, by the mode. *)
Definition of_interest (v : viewer) : list N :=
  match _show_transmissions_mode v with
  | ALL => N.of_nat <$> seq 0 (length (network v))
  | NONE => []
  | SELECTED => match selected_node v with Some i => [i] | None => [] end
  end.

Definition set_show_transmissions_mode (mode : ShowTransmissionsMode) (v : viewer) : viewer :=
  let v := set_mode mode v in set_nodes_of_interest (of_interest v) v.

(** What [select_node] may be given: a node of ns-3, an index, a node, or [None]. *)
Inductive node_arg := Ns3Node (id : N) | Index (i : Z) | ANode (i : N) | NoNode | Other.

(** [self.nodes[i]] *)
Definition node_at (i : Z) (v : viewer) : py N :=
  let! _ := raise_unless (bool_decide (0 <= i)%Z) KeyError in
  let! _ := or_raise KeyError (nodes (sc v) !! Z.to_N i) in
  Ok (Z.to_N i).

Definition resolve (node : node_arg) (v : viewer) : py (option N) :=
  match node with
  | Ns3Node id => let! i := node_at (Z.of_N id) v in Ok (Some i)
  | Index i => let! i := node_at i v in Ok (Some i)
  | ANode i => Ok (Some i)
  | NoNode => Ok None
  | Other => Err TypeError
  end.

Definition select (node : option N) (v : viewer) : viewer :=
  let v := match selected_node v with Some i => on_sc (set_selected i false) v | None => v end in
  let v := set_selection node v in
  let v := match node with Some i => on_sc (set_selected i true) v | None => v end in
  if decide (_show_transmissions_mode v = SELECTED) then set_nodes_of_interest (of_interest v) v else v.

Definition select_node (node : node_arg) : stM viewer () :=
  do! node := (fun v => (v, resolve node v)) in
  mset (fun v => if decide (node = selected_node v) then v else select node v).

(** ** The samples *)

(** [while len(l) > n: l.pop(0)] *)
Fixpoint forget {A} (n : nat) (l : list A) : list A :=
  match l with
  | [] => []
  | _ :: l' => if n <? length l then forget n l' else l
  end.

Definition smooth_factor (v : viewer) : nat := Z.to_nat (int (smoothing v * 10)).

Definition do_simulation_periodic_update (ts : list transmission) (ds : list drop) (v : viewer) : viewer :=
  set_last (forget (smooth_factor v) (_last_transmissions v ++ [ts]))
           (forget (smooth_factor v) (_last_drops v ++ [ds])) v.

(** The dictionary of the bytes and the count of each key, in order of insertion. *)
Fixpoint add_sample {K} `{EqDecision K} (key : K) (b : N) (l : list (K * (N * N))) : list (K * (N * N)) :=
  match l with
  | [] => [(key, (b, 1))]%N
  | (k, (total, count)) :: l' =>
      if decide (k = key) then (k, (total + b, count + 1))%N :: l'
      else (k, (total, count)) :: add_sample key b l'
  end.

Definition average {T K} `{EqDecision K} (key : T -> K) (size : T -> N) (last : list (list T)) : list (K * (N * N)) :=
  foldl (foldl (fun d t => add_sample (key t) (size t) d)) [] last.

Definition transmission_key (t : transmission) : N * N := (transmitter t, receiver t).

(** ** The arrows *)

Inductive pool := Transmissions | Drops.

Definition get_pool (p : pool) (v : viewer) : list nat :=
  match p with Transmissions => _transmission_arrows v | Drops => _drop_arrows v end.
Definition set_pool (p : pool) (l : list nat) (v : viewer) : viewer :=
  match p with Transmissions => set_pools l (_drop_arrows v) v | Drops => set_pools (_transmission_arrows v) l v end.

Definition on_arrow (a : nat) (f : arrow -> arrow) (v : viewer) : viewer := set_arrows (alter f a (arrows v)) v.

Definition hide (r : arrow) : arrow :=
  {| arrow_visible := false; arrow_width := arrow_width r; arrow_points := arrow_points r;
     label_visible := false; arrow_label := arrow_label r |}.
Definition show_line (r : arrow) : arrow :=
  {| arrow_visible := true; arrow_width := arrow_width r; arrow_points := arrow_points r;
     label_visible := label_visible r; arrow_label := arrow_label r |}.
Definition new_arrow : arrow :=
  {| arrow_visible := true; arrow_width := 2; arrow_points := None; label_visible := true; arrow_label := None |}.

(** [old_arrows.pop()], or a new arrow. *)
Definition take_arrow (p : pool) : stM viewer nat := fun v =>
  match reverse (get_pool p v) with
  | a :: rest => (set_pool p (reverse rest) v, Ok a)
  | [] => (set_arrows (arrows v ++ [new_arrow]) v, Ok (length (arrows v)))
  end.

Definition BITRATE_FONT_SIZE : Q := 10.
(** [math.pi/2], a float. *)
Definition PI_OVER_2 : Q := 884279719003555 # 562949953421312.

Definition position (s : scene) (i : N) : point := default (0, 0)%Q (VizScene.get_position s (NodeEnd i)).

Section view.
Variable math_log : Q -> Q.
Variable math_atan2 : Q -> Q -> Q.
Variable LineClipping : point -> point -> point -> point -> point * point.
Variable convert_from_pixels : point -> point.
(** The value and the page size of the two adjustments. *)
Variables hadj vadj : Q * Q.
Variable set_transform_raises : bool.

(** [math.log] *)
Definition log (x : Q) : py Q := if Qle_bool x 0 then Err ValueError else Ok (math_log x).

Definition arrow_k (v : viewer) : Q := node_size v / 5.

Definition line_width_of (v : viewer) (n : N * N) : py Q :=
  let! l := log (toQ n.1 / toQ n.2 / sample_period v) in
  Ok (Qmax (1 # 10) (l * arrow_k v)).

Definition kbps_of (v : viewer) (n : N * N) : Q := toQ (n.1 * 8) / 1000 / toQ n.2 / sample_period v.

Definition font_of (v : viewer) : Z := int (1 + BITRATE_FONT_SIZE * arrow_k v).

Definition _get_label_over_line_position (pos1 pos2 : point) : point :=
  let bounds_1 := convert_from_pixels (hadj.1, vadj.1) in
  let bounds_2 := convert_from_pixels (hadj.1 + hadj.2, vadj.1 + vadj.2)%Q in
  let '(pos1, pos2) := LineClipping bounds_1 bounds_2 pos1 pos2 in
  ((pos1.1 + pos2.1) / 2, (pos1.2 + pos2.2) / 2)%Q.

Definition draw_transmission (v : viewer) (width : Q) (key : N * N) (n : N * N) : arrow :=
  let pos1 := position (sc v) key.1 in
  let pos2 := position (sc v) key.2 in
  let angle := math_atan2 (pos2.2 - pos1.2) (pos2.1 - pos1.1) in
  let rightwards := Qle_bool (- PI_OVER_2) angle && Qle_bool angle PI_OVER_2 in
  let y := (if rightwards then - width / 2 else width / 2)%Q in
  let l := _get_label_over_line_position pos1 pos2 in
  {| arrow_visible := true; arrow_width := width; arrow_points := Some (pos1, pos2); label_visible := true;
     arrow_label := Some
       (if set_transform_raises then TransmissionLabel (font_of v) rightwards (kbps_of v n) (l.1 + 0)%Q (l.2 + y)%Q None
        else TransmissionLabel (font_of v) rightwards (kbps_of v n) 0 y (Some (l, angle))) |}.

Definition edge_y : Q := (convert_from_pixels (0, vadj.1 + vadj.2)%Q).2.

Definition draw_drop (v : viewer) (width : Q) (key : N) (n : N * N) : arrow :=
  let pos1 := position (sc v) key in
  let pos2 := (pos1.1, edge_y) in
  {| arrow_visible := true; arrow_width := width; arrow_points := Some (pos1, pos2); label_visible := true;
     arrow_label := Some
       (DropLabel (font_of v) (kbps_of v n) ((pos1.1 + pos2.1) / 2, (pos1.2 + pos2.2) / 2)%Q) |}.

(** The loops of the two views differ in the ends of an arrow and in what is drawn. *)
Section arrows.
Context {K : Type} (p : pool) (ends : K -> list N) (draw : viewer -> Q -> K -> N * N -> arrow).

Definition show_arrow (new_arrows : list nat) (entry : K * (N * N)) : stM viewer (list nat) :=
  mfor (fun i => mset (on_sc (get_node i))) (ends entry.1) >>>
  do! a := take_arrow p in
  mset (on_arrow a show_line) >>>
  do! width := (fun v => (v, line_width_of v entry.2)) in
  mset (fun v => on_arrow a (fun _ => draw v width entry.1 entry.2) v) >>>
  mret (new_arrows ++ [a]).

Definition hide_all (v : viewer) : viewer := foldl (fun v a => on_arrow a hide v) v (get_pool p v).

Definition update_arrows (entries : viewer -> list (K * (N * N))) : stM viewer () :=
  do! entries := mget entries in
  mset hide_all >>>
  do! new_arrows := mfold show_arrow [] entries in
  mset (fun v => set_pool p (new_arrows ++ get_pool p v) v).

End arrows.

Definition transmission_ends (key : N * N) : list N := [key.1; key.2].
Definition drop_ends (key : N) : list N := [key].

Definition _update_transmissions_view : stM viewer () :=
  update_arrows Transmissions transmission_ends draw_transmission
    (fun v => average transmission_key bytes (_last_transmissions v)).

Definition _update_drops_view : stM viewer () :=
  update_arrows Drops drop_ends draw_drop (fun v => average drop_transmitter drop_bytes (_last_drops v)).

(** ** The view *)

Definition _update_node_positions : stM viewer () :=
  do! v := mget (fun v => v) in
  in_scene (mfor (update_node_position (network v)) (map_to_list (nodes (sc v))).*1).

Definition update_view : stM viewer () :=
  _update_node_positions >>>
  _update_transmissions_view >>>
  _update_drops_view.

End view.

(** ** Dragging a node

    The pointer is where it is on the canvas, [convert_from_pixels] applied. *)

Definition set_mobility (i : N) (pos : point) (v : viewer) : viewer :=
  set_network (alter (fun node => {| mobility := Some pos; devices := devices node |}) (N.to_nat i) (network v)) v.

Definition begin_node_drag (i : N) (pointer : point) (v : viewer) : viewer :=
  match mobility_of (network v) i with
  | None => v
  | Some pos =>
      match node_drag_state v with
      | Some _ => v
      | None => set_drag (Some {| canvas_0 := pointer; sim_0 := pos; motion_signal := i |}) v
      end
  end.

Definition node_drag_motion (i : N) (pointer : point) (v : viewer) : viewer :=
  match mobility_of (network v) i, node_drag_state v with
  | Some _, Some drag =>
      let dx := (pointer.1 - (canvas_0 drag).1)%Q in
      let dy := (pointer.2 - (canvas_0 drag).2)%Q in
      let pos := ((sim_0 drag).1 + transform_distance_canvas_to_simulation dx,
                  (sim_0 drag).2 + transform_distance_canvas_to_simulation dy)%Q in
      on_sc (set_position (NodeEnd i) (transform_point_simulation_to_canvas pos)) (set_mobility i pos v)
  | _, _ => v
  end.

Definition end_node_drag (v : viewer) : viewer :=
  match node_drag_state v with Some _ => set_drag None v | None => v end.

(** The buttons: the left one selects, the middle one drags, the right one opens a menu. *)
Definition on_node_button_press_event (button : Z) (i : N) (pointer : point) : stM viewer () :=
  if decide (button = 1)%Z then select_node (ANode i)
  else if decide (button = 2)%Z then mset (begin_node_drag i pointer)
  else mret tt.

Definition on_node_button_release_event (button : Z) (v : viewer) : viewer :=
  if decide (button = 2)%Z then end_node_drag v else v.

Definition on_root_button_press_event (button : Z) : stM viewer () :=
  if decide (button = 1)%Z then select_node NoNode else mret tt.

(** ** The operations *)

(** What the window shows of the canvas when a view is made. *)
Record canvas_window := {
  win_hadj : Q * Q;
  win_vadj : Q * Q;
  win_convert : point -> point;
  win_raises : bool
}.

Inductive op :=
| Scene (o : VizScene.op)
| Select (node : node_arg)
| SetMode (mode : ShowTransmissionsMode)
| SpeedChanged (value : Q)
| NodeSizeChanged (value : Q)
| SmoothingChanged (value : Q)
| PeriodicUpdate (ts : list transmission) (ds : list drop)
| UpdateView (win : canvas_window)
| NodePress (button : Z) (i : N) (pointer : point)
| NodeRelease (button : Z)
| NodeMotion (pointer : point)
| RootPress (button : Z)
| Moved (i : N) (pos : point).

Definition in_bounds (lower upper value : Q) : bool := Qle_bool lower value && Qle_bool value upper.

Definition _speed_changed (value : Q) (v : viewer) : viewer :=
  set_settings ((1 # 10) * value)%Q (node_size v) (smoothing v) v.

Definition node_size_changed (value : Q) : stM viewer () :=
  mset (fun v => set_settings (sample_period v) value (smoothing v) v) >>>
  do! v := mget (fun v => v) in
  mfor (fun i => mset (on_sc (set_size i value))) (map_to_list (nodes (sc v))).*1.

(** An event of a node, or an argument that is one, is of a node of the scene. *)
Definition is_node (i : N) (v : viewer) : bool := bool_decide (is_Some (nodes (sc v) !! i)).

Section ops.
Variable math_log : Q -> Q.
Variable math_atan2 : Q -> Q -> Q.
Variable LineClipping : point -> point -> point -> point -> point * point.

(** The adjustments keep their values within bounds.  The canvas gives a motion to the
    node whose handler is connected.  [Moved] is the simulator. *)
Definition do_op (o : op) : stM viewer () :=
  match o with
  | Scene (SetSelected _ _) => mret tt
  | Scene o => mset (on_sc (fun s => VizScene.do_op s o))
  | Select (ANode i) => do! b := mget (is_node i) in if b : bool then select_node (ANode i) else mret tt
  | Select node => select_node node
  | SetMode mode => mset (set_show_transmissions_mode mode)
  | SpeedChanged value => if in_bounds (1 # 100) 10 value then mset (_speed_changed value) else mret tt
  | NodeSizeChanged value => if in_bounds (1 # 100) 20 value then node_size_changed value else mret tt
  | SmoothingChanged value =>
      if in_bounds (1 # 10) 10 value then mset (fun v => set_settings (sample_period v) (node_size v) value v) else mret tt
  | PeriodicUpdate ts ds => mset (do_simulation_periodic_update ts ds)
  | UpdateView win =>
      update_view math_log math_atan2 LineClipping (win_convert win) (win_hadj win) (win_vadj win) (win_raises win)
  | NodePress button i pointer =>
      do! b := mget (is_node i) in if b : bool then on_node_button_press_event button i pointer else mret tt
  | NodeRelease button => mset (on_node_button_release_event button)
  | NodeMotion pointer =>
      mset (fun v => match node_drag_state v with Some d => node_drag_motion (motion_signal d) pointer v | None => v end)
  | RootPress button => on_root_button_press_event button
  | Moved i pos => mset (fun v => match mobility_of (network v) i with Some _ => set_mobility i pos v | None => v end)
  end.

(** An exception ends a handler and not the program. *)
Definition run_ops (ops : list op) (v : viewer) : viewer := foldl (fun v o => fst (do_op o v)) v ops.

End ops.

(** After [__init__] and [create_gui], of a network. *)
Definition viewer_init (network : list ns3_node) : viewer :=
  set_show_transmissions_mode ALL
    {| sc := scene_init; network := network; selected_node := None; _show_transmissions_mode := ALL;
       nodes_of_interest := []; sample_period := 1 # 10; node_size := DEFAULT_NODE_SIZE; smoothing := 1 # 2;
       _last_transmissions := []; _last_drops := []; arrows := []; _transmission_arrows := [];
       _drop_arrows := []; node_drag_state := None |}.

(** ** The attributes of the nodes *)

Definition flags (n : Node) : bool * option bool := (_selected n, _has_mobility n).
Definition flags_at (s : scene) (i : N) : option (bool * option bool) := flags <$> nodes s !! i.

Lemma flags_on_node j f s i : (forall n, flags (f n) = flags n) -> flags_at (on_node j f s) i = flags_at s i.
Proof.
  intros Hf. unfold flags_at. cbn. destruct (decide (i = j)) as [->|]; [|by rewrite lookup_alter_ne].
  rewrite lookup_alter_eq. destruct (nodes s !! j); cbn; [by rewrite Hf|done].
Qed.

Lemma flags_set_center e p s i : flags_at (set_center e p s) i = flags_at s i.
Proof. destruct e; [by apply flags_on_node|done]. Qed.

Lemma flags_set_position e p s i : flags_at (set_position e p s) i = flags_at s i.
Proof.
  unfold set_position. destruct (update_all_spec (links_of (set_center e p s) e) (set_center e p s)) as (L & -> & _).
  assert (flags_at (set_links L (set_center e p s)) i = flags_at s i) as E by apply flags_set_center.
  destruct e as [j|c]; [|exact E]. rewrite <- E.
  apply (flags_on_node j (move_label p) (set_links L (set_center (NodeEnd j) p s)) i).
  intros n. unfold move_label. by destruct (_label_canvas_item n) as [[]|].
Qed.

Lemma flags_update_appearance j s i : flags_at (_update_appearance j s) i = flags_at s i.
Proof.
  unfold _update_appearance.
  assert (flags_at (on_node j (fun n => with_look (appearance_of n) n) s) i = flags_at s i) as E by by apply flags_on_node.
  destruct (nodes _ !! j) as [n|]; [|done]. destruct (_label n) as [t|]; [|done].
  rewrite flags_set_position. rewrite flags_on_node by done. done.
Qed.

Lemma flags_set_selected j b s i :
  flags_at (set_selected j b s) i =
    if decide (i = j) then (fun f => (b, f.2)) <$> flags_at s j else flags_at s i.
Proof.
  unfold set_selected. rewrite flags_update_appearance. unfold flags_at. cbn. case_decide; subst.
  - rewrite lookup_alter_eq. by destruct (nodes s !! j).
  - by rewrite lookup_alter_ne.
Qed.

(** The nodes keep their attributes, and new ones have those of a new node. *)
Definition same_flags (s s' : scene) : Prop :=
  forall i, flags_at s' i = flags_at s i \/ (flags_at s i = None /\ flags_at s' i = Some (false, None)).

#[export] Instance same_flags_preorder : PreOrder same_flags.
Proof.
  split; [intros s i; by left|]. intros s1 s2 s3 H1 H2 i.
  destruct (H1 i) as [E1|[E1 E1']], (H2 i) as [E2|[E2 E2']].
  - left. congruence.
  - right. split; congruence.
  - right. split; congruence.
  - congruence.
Qed.

Lemma same_flags_eq s s' : (forall i, flags_at s' i = flags_at s i) -> same_flags s s'.
Proof. intros H i. by left. Qed.

Lemma get_node_flags j s : same_flags s (get_node j s).
Proof.
  intros i. unfold get_node, flags_at. destruct (nodes s !! j) eqn:E; [by left|]. cbn.
  destruct (decide (i = j)) as [->|]; [|rewrite lookup_insert_ne by done; by left].
  rewrite lookup_insert_eq, E. by right.
Qed.

Lemma get_channel_flags c s : same_flags s (get_channel c s).
Proof. apply same_flags_eq. intros i. unfold get_channel. by destruct (channels s !! c). Qed.

Lemma create_link_flags j e s : same_flags s (create_link j e s).
Proof.
  apply same_flags_eq. intros i. unfold create_link. destruct e as [k|c]; cbn [add_link].
  - rewrite !flags_on_node by done. done.
  - etransitivity; [|apply (flags_on_node j (with_link (length (links s))) s i); done]. done.
Qed.

Lemma do_op_flags s o : (forall i b, o <> SetSelected i b) -> same_flags s (VizScene.do_op s o).
Proof.
  intros Ho. destruct o as [j|c|j e|e p|j b|j b|j c|j x|j t]; cbn.
  - apply get_node_flags.
  - apply get_channel_flags.
  - etransitivity; [|apply create_link_flags]. destruct e as [k|c]; (etransitivity; [apply get_node_flags|]);
      [apply get_node_flags|apply get_channel_flags].
  - apply same_flags_eq. intros i. apply flags_set_position.
  - by destruct (Ho j b).
  - apply same_flags_eq. intros i. unfold set_highlighted. rewrite flags_update_appearance. by apply flags_on_node.
  - apply same_flags_eq. intros i. unfold set_color. rewrite flags_update_appearance. by apply flags_on_node.
  - apply same_flags_eq. intros i. unfold set_size. rewrite flags_update_appearance. by apply flags_on_node.
  - apply same_flags_eq. intros i. unfold set_label. rewrite flags_update_appearance. by apply flags_on_node.
Qed.

(** ** The invariant *)

(** The numbers of the two lists of arrows and of the new arrows are those of arrows,
    and all different. *)
Definition pools_ok (new : list nat) (v : viewer) : Prop :=
  NoDup (new ++ _transmission_arrows v ++ _drop_arrows v) /\
  Forall (fun a => a < length (arrows v)) (new ++ _transmission_arrows v ++ _drop_arrows v).

(** The node selected is the only one that is marked, and what is known of the mobility
    of a node is right. *)
Record scene_ok (net : list ns3_node) (sel : option N) (s : scene) : Prop := {
  ok_wf : wf s;
  ok_flags : forall i f, flags_at s i = Some f ->
    f.1 = bool_decide (sel = Some i) /\
    forall b, f.2 = Some b -> b = negb (bool_decide (mobility_of net i = None));
  ok_node : forall i, sel = Some i -> is_Some (flags_at s i)
}.

Record inv (v : viewer) : Prop := {
  inv_scene : scene_ok (network v) (selected_node v) (sc v);
  inv_interest : nodes_of_interest v = of_interest v;
  inv_period : (0 < sample_period v)%Q;
  inv_pools : pools_ok [] v
}.

Lemma scene_ok_step net sel s s' : same_flags s s' -> wf s' -> scene_ok net sel s -> scene_ok net sel s'.
Proof.
  intros Hf Hw [_ Hflags Hnode]. split; [done| |].
  - intros i f E. destruct (Hf i) as [E'|[E0 E']]; [rewrite E' in E; by apply Hflags|].
    rewrite E' in E. injection E as <-. split; [|done]. cbn. symmetry. apply bool_decide_eq_false.
    intros Es. destruct (Hnode i Es) as [x Hx]. congruence.
  - intros i Es. destruct (Hf i) as [->|[E0 _]]; [by apply Hnode|]. destruct (Hnode i Es) as [x Hx]. congruence.
Qed.

Lemma scene_ok_op net sel s o :
  (forall i b, o <> SetSelected i b) -> scene_ok net sel s -> scene_ok net sel (VizScene.do_op s o).
Proof.
  intros Ho Hs. eapply scene_ok_step; [by apply do_op_flags|apply do_op_wf, Hs|done].
Qed.

Lemma scene_ok_get_node net sel i s : scene_ok net sel s -> scene_ok net sel (get_node i s).
Proof. apply (scene_ok_op net sel s (GetNode i)). done. Qed.

Lemma scene_ok_position net sel e p s : scene_ok net sel s -> scene_ok net sel (set_position e p s).
Proof. apply (scene_ok_op net sel s (SetPosition e p)). done. Qed.

Lemma set_selected_wf i b s : wf s -> wf (set_selected i b s).
Proof. apply (do_op_wf s (SetSelected i b)). Qed.

(** What the selection leaves in the scene. *)
Lemma select_scene net sel sel' s :
  scene_ok net sel s -> (forall i, sel' = Some i -> is_Some (flags_at s i)) ->
  scene_ok net sel'
    (match sel' with Some i => set_selected i true | None => fun s => s end
       (match sel with Some i => set_selected i false s | None => s end)).
Proof.
  intros [Hw Hflags Hnode] Hsel'.
  set (s1 := match sel with Some i => set_selected i false s | None => s end).
  assert (wf s1 /\ forall i, flags_at s1 i = (fun f => (false, f.2)) <$> flags_at s i) as [Hw1 H1].
  { split; [subst s1; destruct sel; [by apply set_selected_wf|done]|]. intros i. subst s1.
    destruct (flags_at s i) as [[b m]|] eqn:E.
    - destruct (Hflags i _ E) as [Eb _]. cbn [fst] in Eb. destruct sel as [j|]; [rewrite flags_set_selected|].
      + destruct (decide (i = j)) as [->|Hd]; [by rewrite E|]. rewrite E, Eb, bool_decide_eq_false_2; [done|congruence].
      + by rewrite E, Eb.
    - destruct sel as [j|]; [|by rewrite E]. rewrite flags_set_selected. case_decide; subst; by rewrite E. }
  assert (forall i, flags_at (match sel' with Some i => set_selected i true | None => fun s => s end s1) i =
    (fun f => (bool_decide (sel' = Some i), f.2)) <$> flags_at s i) as H2.
  { intros i. destruct sel' as [j|]; [rewrite flags_set_selected|].
    - case_decide as Hd; rewrite H1.
      + subst. destruct (flags_at s j); cbn; [|done]. by rewrite bool_decide_eq_true_2.
      + destruct (flags_at s i); cbn; [|done]. rewrite bool_decide_eq_false_2; [done|congruence].
    - rewrite H1. by destruct (flags_at s i). }
  split.
  - destruct sel'; [by apply set_selected_wf|done].
  - intros i f. rewrite H2. intros (f' & E & ->)%fmap_Some. split; [done|]. by apply (Hflags i f').
  - intros i Es. destruct (Hsel' i Es) as [f E]. exists (bool_decide (sel' = Some i), f.2). by rewrite (H2 i), E.
Qed.

(** ** The loop that draws arrows *)

Lemma Forall2_impl_r {A B} (P Q : A -> B -> Prop) l k :
  Forall2 P l k -> (forall x y, y ∈ k -> P x y -> Q x y) -> Forall2 Q l k.
Proof.
  induction 1 as [|x y l k Hxy _ IH]; intros H; constructor; [by apply H; [left|]|].
  apply IH. intros x' y' Hy. apply H. by right.
Qed.

(** What a loop over the arrows of a pool leaves as it is. *)
Record same_but (p : pool) (v v' : viewer) : Prop := {
  same_extends : extends (sc v) (sc v');
  same_nodes : same_flags (sc v) (sc v');
  same_network : network v' = network v;
  same_selected : selected_node v' = selected_node v;
  same_mode : _show_transmissions_mode v' = _show_transmissions_mode v;
  same_interest : nodes_of_interest v' = nodes_of_interest v;
  same_period : sample_period v' = sample_period v;
  same_size : node_size v' = node_size v;
  same_samples : _last_transmissions v' = _last_transmissions v /\ _last_drops v' = _last_drops v;
  same_drag : node_drag_state v' = node_drag_state v;
  same_other : forall q, q <> p -> get_pool q v' = get_pool q v
}.

#[export] Instance same_but_preorder p : PreOrder (same_but p).
Proof.
  split; [by intros v; split|]. intros v1 v2 v3 [] []. split; try congruence.
  - by etransitivity.
  - by etransitivity.
  - destruct same_samples0, same_samples1. split; congruence.
  - intros q Hq. rewrite same_other1, same_other0; done.
Qed.

Lemma same_but_inv p v v' : same_but p v v' -> inv v -> pools_ok [] v' -> inv v'.
Proof.
  intros [] [Hs Hi Hp _] Hpools. split; [| | |done].
  - rewrite same_network0, same_selected0. eapply scene_ok_step; [done| |done].
    eapply wf_extends; [done|apply Hs].
  - unfold of_interest. rewrite same_interest0, same_mode0, same_network0, same_selected0. exact Hi.
  - by rewrite same_period0.
Qed.

Definition pools (v : viewer) : list nat := _transmission_arrows v ++ _drop_arrows v.

Lemma pools_perm p q v : q <> p -> pools v ≡ₚ get_pool p v ++ get_pool q v.
Proof. destruct p, q; try done. intros _. apply Permutation_app_comm. Qed.

Definition other (p : pool) : pool := match p with Transmissions => Drops | Drops => Transmissions end.

Lemma other_ne p : other p <> p.
Proof. by destruct p. Qed.

Lemma pools_ok_perm new p v :
  pools_ok new v <-> NoDup (new ++ get_pool p v ++ get_pool (other p) v) /\
    Forall (fun a => a < length (arrows v)) (new ++ get_pool p v ++ get_pool (other p) v).
Proof.
  unfold pools_ok. fold (pools v). rewrite (pools_perm p (other p) v) by apply other_ne. done.
Qed.

Lemma set_pool_get p l v : get_pool p (set_pool p l v) = l /\ get_pool (other p) (set_pool p l v) = get_pool (other p) v /\
  arrows (set_pool p l v) = arrows v.
Proof. by destruct p. Qed.

Lemma set_pool_same p l v : same_but p v (set_pool p l v).
Proof. destruct p; split; try done; by intros []. Qed.

Lemma on_arrow_same p a f v : same_but p v (on_arrow a f v).
Proof. by split. Qed.

Lemma pools_ok_drop new a v : pools_ok (new ++ [a]) v -> pools_ok new v.
Proof.
  unfold pools_ok. rewrite <- (assoc_L (++)). fold (pools v). intros [Hnd Hlt].
  rewrite !NoDup_app in *. destruct Hnd as (H1 & H2 & H3 & H4 & H5).
  split.
  - split_and!; [done| |done]. intros x Hx Hin. apply (H2 x Hx). set_solver.
  - rewrite !Forall_app in *. tauto.
Qed.

(** A number is taken from the end of the pool, or is that of a new arrow. *)
Lemma take_arrow_spec p new v : pools_ok new v ->
  exists v' a, take_arrow p v = (v', Ok a) /\ same_but p v v' /\ pools_ok (new ++ [a]) v' /\
    length (arrows v) <= length (arrows v') /\
    get_pool p v' ⊆ get_pool p v /\ length (get_pool p v') = length (get_pool p v) - 1 /\
    is_Some (arrows v' !! a) /\
    forall b, b < length (arrows v) -> arrows v' !! b = arrows v !! b.
Proof.
  intros Hok. unfold take_arrow. rewrite pools_ok_perm in Hok. destruct Hok as [Hnd Hlt].
  destruct (reverse (get_pool p v)) as [|a rest] eqn:E.
  - assert (get_pool p v = []) as E0 by (rewrite <- (reverse_involutive (get_pool p v)), E; done).
    eexists _, _. split; [done|]. split; [by split|]. rewrite E0 in *.
    assert (forall q, get_pool q (set_arrows (arrows v ++ [new_arrow]) v) = get_pool q v) as Eq by by intros [].
    rewrite (pools_ok_perm _ p), !Eq, E0. cbn [arrows set_arrows app length] in *. split_and!.
    + assert ((new ++ [length (arrows v)]) ++ get_pool (other p) v ≡ₚ
        length (arrows v) :: new ++ get_pool (other p) v) as -> by solve_Permutation.
      constructor; [|done]. intros Hin. rewrite Forall_forall in Hlt. specialize (Hlt _ Hin). lia.
    + rewrite length_app. cbn [length]. rewrite !Forall_app in *. destruct Hlt as [H1 H2].
      split_and!; [|by constructor; [lia|]|]; by eapply Forall_impl; [eassumption|cbn; lia].
    + rewrite length_app. lia.
    + done.
    + done.
    + rewrite lookup_app_r, Nat.sub_diag by done. by eexists.
    + intros b Hb. by rewrite lookup_app_l.
  - assert (get_pool p v = reverse rest ++ [a]) as E0
      by (rewrite <- (reverse_involutive (get_pool p v)), E; by rewrite reverse_cons).
    eexists _, _. split; [done|]. split; [apply set_pool_same|].
    destruct (set_pool_get p (reverse rest) v) as (G1 & G2 & G3).
    rewrite (pools_ok_perm _ p), G1, G2, G3. rewrite E0 in *.
    assert (new ++ (reverse rest ++ [a]) ++ get_pool (other p) v ≡ₚ
      (new ++ [a]) ++ reverse rest ++ get_pool (other p) v) as Ep by solve_Permutation.
    rewrite Ep in Hnd, Hlt. split_and!; [done|done|done|set_solver| | |done].
    + rewrite length_app. cbn. lia.
    + apply lookup_lt_is_Some. rewrite Forall_forall in Hlt. apply Hlt. set_solver.
Qed.

Lemma hide_list_spec p l v :
  let v' := foldl (fun v a => on_arrow a hide v) v l in
  same_but p v v' /\ get_pool p v' = get_pool p v /\ length (arrows v') = length (arrows v) /\
  forall a, arrows v' !! a = if decide (a ∈ l) then hide <$> arrows v !! a else arrows v !! a.
Proof.
  revert v.
  induction l as [|b l IH]; intros v; cbn [foldl].
  - split_and!; [done..|]. intros a. by rewrite decide_False by (by intros ?%elem_of_nil).
  - destruct (IH (on_arrow b hide v)) as (H1 & H2 & H3 & H4). split_and!.
    + etransitivity; [apply (on_arrow_same p b hide)|exact H1].
    + rewrite H2. by destruct p.
    + rewrite H3. cbn. by rewrite length_alter.
    + intros a. rewrite H4. cbn [arrows on_arrow set_arrows].
      destruct (decide (a = b)) as [->|Hne].
      * rewrite list_lookup_alter_eq. rewrite (decide_True (P := b ∈ b :: l)) by (by left).
        case_decide; [|done]. by destruct (arrows v !! b).
      * rewrite list_lookup_alter_ne by done. destruct (decide (a ∈ l)) as [Hl|Hl].
        -- rewrite decide_True by (by right). done.
        -- rewrite decide_False by (by rewrite elem_of_cons; intros [?|?]). done.
Qed.

Lemma hide_all_spec p v :
  same_but p v (hide_all p v) /\ get_pool p (hide_all p v) = get_pool p v /\
  length (arrows (hide_all p v)) = length (arrows v) /\
  forall a, arrows (hide_all p v) !! a =
    if decide (a ∈ get_pool p v) then hide <$> arrows v !! a else arrows v !! a.
Proof. apply (hide_list_spec p (get_pool p v)). Qed.

Definition has_node (s : scene) (i : N) : Prop := is_Some (VizScene.get_position s (NodeEnd i)).

Lemma has_node_extends s s' i : extends s s' -> has_node s i -> has_node s' i.
Proof. apply extends_exists. Qed.

(** The nodes that are not shown yet are made. *)
Definition get_nodes (l : list N) (s : scene) : scene := foldl (fun s i => get_node i s) s l.

Lemma mfor_get_nodes l v : mfor (fun i => mset (on_sc (get_node i))) l v = (on_sc (get_nodes l) v, Ok tt).
Proof.
  revert v. induction l as [|i l IH]; intros v; [by destruct v|]. cbn. unfold gbind, mset at 1. by rewrite IH.
Qed.

Lemma get_nodes_spec l s :
  extends s (get_nodes l s) /\ same_flags s (get_nodes l s) /\
  Forall (has_node (get_nodes l s)) l.
Proof.
  revert s. induction l as [|i l IH]; intros s; [done|].
  change (get_nodes (i :: l) s) with (get_nodes l (get_node i s)).
  destruct (IH (get_node i s)) as (H1 & H2 & H3). split_and!.
  - etransitivity; [apply get_node_extends|exact H1].
  - etransitivity; [apply get_node_flags|exact H2].
  - constructor; [|exact H3]. eapply extends_exists; [exact H1|apply get_node_exists].
Qed.

Section arrows_loop.
Context {K : Type} (math_log : Q -> Q) (p : pool) (ends : K -> list N) (draw : viewer -> Q -> K -> N * N -> arrow).
Notation line_width_of := (line_width_of math_log).
Notation show_arrow := (show_arrow math_log p ends draw).

(** What is drawn depends on the places of the ends and on the settings. *)
Hypothesis draw_same : forall q v v' w key n,
  same_but q v v' -> Forall (has_node (sc v)) (ends key) ->
  draw v' w key n = draw v w key n.

(** The arrow is drawn as the entry says. *)
Definition drawn_as (v : viewer) (entry : K * (N * N)) (a : nat) : Prop :=
  Forall (has_node (sc v)) (ends entry.1) /\
  exists w, line_width_of v entry.2 = Ok w /\ arrows v !! a = Some (draw v w entry.1 entry.2).

Lemma line_width_same q v v' n : same_but q v v' -> line_width_of v' n = line_width_of v n.
Proof. intros []. unfold line_width_of, VizView.line_width_of, arrow_k. by rewrite same_period0, same_size0. Qed.

Lemma drawn_as_same q v v' entry a :
  same_but q v v' -> arrows v' !! a = arrows v !! a -> drawn_as v entry a -> drawn_as v' entry a.
Proof.
  intros Hs Ea (He & w & Hw & Hd). split.
  - eapply Forall_impl; [exact He|]. intros i. apply has_node_extends, Hs.
  - exists w. split; [by rewrite (line_width_same q v)|]. by rewrite Ea, (draw_same q v v').
Qed.

(** After some of the entries. *)
Record during (v0 : viewer) (done : list (K * (N * N))) (new : list nat) (v : viewer) : Prop := {
  during_same : same_but p v0 v;
  during_pools : pools_ok new v;
  during_length : length (arrows v0) <= length (arrows v);
  during_left : get_pool p v ⊆ get_pool p v0;
  during_count : length new + length (get_pool p v) = length (get_pool p v0) `max` length new;
  during_arrows : forall a, a < length (arrows v0) -> a ∉ new -> arrows v !! a = arrows v0 !! a;
  during_drawn : Forall2 (drawn_as v) done new
}.

(** One entry; [failed] is what holds when it raises. *)
Lemma show_arrow_during v0 done new entry (failed : viewer -> Prop) :
  (forall v, same_but p v0 v -> pools_ok new v -> (exists e, line_width_of v0 entry.2 = Err e) -> failed v) ->
  triple (during v0 done new) (show_arrow new entry) (fun new' => during v0 (done ++ [entry]) new') failed.
Proof.
  intros Hfail v [Hs Hp Hle Hl Hc Ha Hd]. unfold VizView.show_arrow, gbind. rewrite mfor_get_nodes.
  destruct (get_nodes_spec (ends entry.1) (sc v)) as (Hext & Hfl & Hends).
  set (v1 := on_sc (get_nodes (ends entry.1)) v).
  assert (same_but p v v1) as Hs1 by (split; try done; by intros []).
  assert (pools_ok new v1) as Hp1 by exact Hp.
  destruct (take_arrow_spec p new v1 Hp1) as (v2 & a & -> & Hs2 & Hp2 & Hle2 & Hsub & Hlen & [r Hr] & Hkeep).
  cbn [mset]. set (v3 := on_arrow a show_line v2).
  assert (same_but p v v3) as Hs3.
  { etransitivity; [exact Hs1|]. etransitivity; [exact Hs2|]. apply on_arrow_same. }
  assert (pools_ok (new ++ [a]) v3) as Hp3.
  { unfold pools_ok in *. cbn. by rewrite length_alter. }
  assert (same_but p v0 v3) as Hs03 by (etransitivity; [exact Hs|exact Hs3]).
  rewrite (line_width_same p v0 v3 _ Hs03). destruct (line_width_of v0 entry.2) as [w|e] eqn:Ew;
    [|apply Hfail; [done|by eapply pools_ok_drop|by exists e]].
  cbn [mret]. set (v4 := on_arrow a (fun _ => draw v3 w entry.1 entry.2) v3).
  assert (same_but p v3 v4) as Hs4 by apply on_arrow_same.
  assert (a ∉ new) as Hanew.
  { destruct Hp2 as [Hnd _]. rewrite NoDup_app in Hnd. destruct Hnd as [Hnd _]. rewrite NoDup_app in Hnd.
    intros Hin. by apply (proj1 (proj2 Hnd) a Hin), list_elem_of_singleton. }
  assert (forall b, b < length (arrows v) -> b <> a -> arrows v4 !! b = arrows v !! b) as Hb.
  { intros b Hlt Hne. cbn [arrows v4 v3 on_arrow set_arrows]. rewrite !list_lookup_alter_ne by done. by apply Hkeep. }
  assert (forall b, b ∈ new -> b < length (arrows v)) as Hnew.
  { intros b Hin. destruct Hp as [_ Hlt]. rewrite Forall_app in Hlt.
    destruct Hlt as [Hlt _]. rewrite Forall_forall in Hlt. by apply Hlt. }
  split.
  - by etransitivity.
  - unfold pools_ok in *. cbn [arrows v4 v3 on_arrow set_arrows]. rewrite !length_alter. exact Hp2.
  - cbn [arrows v4 v3 on_arrow set_arrows]. rewrite !length_alter. change (length (arrows v1)) with (length (arrows v)) in *. lia.
  - etransitivity; [|exact Hl]. destruct p; exact Hsub.
  - rewrite length_app. cbn [length].
    assert (length (get_pool p v4) = length (get_pool p v) - 1) as -> by (destruct p; exact Hlen). lia.
  - intros b Hlt Hbn. rewrite not_elem_of_app, list_elem_of_singleton in Hbn. destruct Hbn as [Hbn Hba].
    rewrite Hb; [by apply Ha|lia|done].
  - apply Forall2_app; [|constructor; [|constructor]].
    + eapply Forall2_impl_r; [exact Hd|].
      intros e b Hin. apply (drawn_as_same p); [by etransitivity|]. apply Hb; [by apply Hnew|by intros ->].
    + split; [eapply Forall_impl; [exact Hends|]; intros i; apply has_node_extends, Hs2|].
      exists w. split; [by rewrite (line_width_same p v0 v4) by (by etransitivity)|].
      cbn [arrows v4 v3 on_arrow set_arrows]. rewrite !list_lookup_alter_eq, Hr. cbn. f_equal. symmetry.
      apply (draw_same p); [done|]. eapply Forall_impl; [exact Hends|]. intros i. apply has_node_extends, Hs2.
Qed.

Definition drawn_pool (entries : list (K * (N * N))) (v : viewer) : Prop :=
  exists used hidden, get_pool p v = used ++ hidden /\ Forall2 (drawn_as v) entries used /\
    Forall (fun a => exists r, arrows v !! a = Some r /\ arrow_visible r = false /\ label_visible r = false) hidden.

Lemma drawn_pool_same entries q v v' :
  q <> p -> same_but q v v' -> (forall a, a ∈ get_pool p v -> arrows v' !! a = arrows v !! a) ->
  drawn_pool entries v -> drawn_pool entries v'.
Proof.
  intros Hq Hs Ha (used & hidden & Ep & Hd & Hh). exists used, hidden.
  rewrite (same_other _ _ _ Hs p) by done. rewrite Ep in Ha. split; [done|]. split.
  - eapply Forall2_impl_r; [exact Hd|]. intros e a Hin. apply (drawn_as_same q); [done|].
    apply Ha, elem_of_app. by left.
  - rewrite Forall_forall in *. intros a Hin. rewrite Ha by (rewrite elem_of_app; by right). by apply Hh.
Qed.

(** After the loop: the first arrows of the pool are drawn as the entries say, the
    others are hidden, and no arrow was made while one was left. *)
Record drawn_all (entries : list (K * (N * N))) (v v' : viewer) : Prop := {
  all_same : same_but p v v';
  all_pools : pools_ok [] v';
  all_count : length (get_pool p v') = length (get_pool p v) `max` length entries;
  all_others : forall a, a ∈ get_pool (other p) v -> arrows v' !! a = arrows v !! a;
  all_drawn : drawn_pool entries v'
}.

Lemma drawn_all_intro entries new v v1 :
  pools_ok [] v -> during (hide_all p v) entries new v1 ->
  drawn_all entries v (set_pool p (new ++ get_pool p v1) v1).
Proof.
  intros Hok [Hs Hp Hle Hl Hc Ha Hd]. destruct (hide_all_spec p v) as (Hh1 & Hh2 & Hh3 & Hh4).
  destruct (set_pool_get p (new ++ get_pool p v1) v1) as (G1 & G2 & G3).
  assert (forall v v', same_but p v v' -> get_pool (other p) v' = get_pool (other p) v) as Eo
    by (intros ?? []; auto using other_ne).
  apply (pools_ok_perm _ p) in Hok as [Hnd Hlt]. cbn in Hnd, Hlt.
  assert (forall a, a ∈ get_pool p v ++ get_pool (other p) v -> a ∉ new ->
    arrows v1 !! a = arrows (hide_all p v) !! a) as Hkept.
  { intros a Hin Hn. apply Ha; [|done]. rewrite Hh3. rewrite Forall_forall in Hlt. by apply Hlt. }
  apply (pools_ok_perm _ p) in Hp as [Hnd1 Hlt1]. rewrite Hh2 in Hl, Hc.
  rewrite (Eo _ _ Hs), (Eo _ _ Hh1) in Hnd1, Hlt1.
  split.
  - etransitivity; [exact Hh1|]. etransitivity; [exact Hs|]. apply set_pool_same.
  - rewrite (pools_ok_perm _ p), G1, G2, G3. rewrite (Eo _ _ Hs), (Eo _ _ Hh1).
    cbn. by rewrite <- (assoc_L (++)).
  - rewrite G1, length_app, Hc. by rewrite (Forall2_length _ _ _ Hd).
  - intros a Hin. rewrite G3, Hkept.
    + rewrite Hh4, decide_False; [done|]. rewrite NoDup_app in Hnd. intros Hin'. by apply (proj1 (proj2 Hnd) a Hin').
    + rewrite elem_of_app. by right.
    + rewrite NoDup_app in Hnd1. intros Hn. apply (proj1 (proj2 Hnd1) a Hn). rewrite elem_of_app. by right.
  - exists new, (get_pool p v1). split; [exact G1|]. split.
    + eapply Forall2_impl; [exact Hd|]. intros e a. apply (drawn_as_same p); [apply set_pool_same|by rewrite G3].
    + apply Forall_forall. intros a Hin. rewrite G3, Hkept; [|rewrite elem_of_app; left; by apply Hl|].
      * rewrite Hh4, decide_True by (by apply Hl). rewrite Forall_forall in Hlt.
        destruct (lookup_lt_is_Some_2 (arrows v) a) as [r Hr]; [apply Hlt; rewrite elem_of_app; left; by apply Hl|].
        rewrite Hr. by eexists.
      * rewrite NoDup_app in Hnd1. intros Hn. apply (proj1 (proj2 Hnd1) a Hn). rewrite elem_of_app. by left.
Qed.

Lemma update_arrows_triple v (entries : viewer -> list (K * (N * N))) :
  pools_ok [] v ->
  triple (eq v) (update_arrows math_log p ends draw entries)
    (fun _ v' => drawn_all (entries v) v v')
    (fun v' => same_but p v v' /\ pools_ok [] v' /\
       exists entry, entry ∈ entries v /\ exists e, line_width_of v entry.2 = Err e).
Proof.
  intros Hok. unfold update_arrows.
  eapply triple_bind; [apply triple_get|]. intros es.
  destruct (hide_all_spec p v) as (Hh1 & Hh2 & Hh3 & Hh4).
  eapply (triple_bind _ _ _ (fun _ v1 => es = entries v /\ during (hide_all p v) [] [] v1)).
  { apply triple_set. intros v1 [<- ->]. split; [done|]. split; try done.
    - apply (pools_ok_perm _ p). apply (pools_ok_perm _ p) in Hok.
      rewrite Hh2, (same_other p _ _ Hh1 (other p) (other_ne p)), Hh3. exact Hok.
    - cbn. lia. }
  intros [] v1 [-> H]. revert v1 H.
  eapply (triple_bind _ _ _ (fun new => during (hide_all p v) (entries v) new)).
  - apply (triple_fold show_arrow (entries v) (during (hide_all p v))).
    intros done entry todo new E. apply show_arrow_during. intros v1 Hs Hp (e & He).
    split; [by etransitivity|]. split.
    + clear - Hp. induction new as [|a new IH] using rev_ind; [done|]. by apply IH, (pools_ok_drop _ a).
    + exists entry. split; [rewrite E; set_solver|]. exists e. by rewrite <- (line_width_same p v (hide_all p v)).
  - intros new. apply triple_set. intros v1. by apply drawn_all_intro.
Qed.

End arrows_loop.

(** ** The averages *)

(** The bytes and the number of the samples of a key. *)
Definition totals {T K} `{EqDecision K} (key : T -> K) (size : T -> N) (k : K) (samples : list T) : N * N :=
  let l := filter (fun t => key t = k) samples in
  (foldr N.add 0%N (size <$> l), N.of_nat (length l)).

Section averages.
Context {T K : Type} `{EqDecision K} (key : T -> K) (size : T -> N).

Lemma totals_snoc k samples t :
  totals key size k (samples ++ [t]) =
    if decide (key t = k) then let m := totals key size k samples in (m.1 + size t, m.2 + 1)%N
    else totals key size k samples.
Proof.
  unfold totals. rewrite filter_app, filter_cons, filter_nil. case_decide; [|by rewrite (right_id_L [] (++))].
  rewrite fmap_app, length_app. cbn. f_equal; [|lia].
  induction (size <$> filter _ samples) as [|x l IH]; cbn; lia.
Qed.

Lemma totals_none k samples : k ∉ key <$> samples -> totals key size k samples = (0, 0)%N.
Proof.
  intros Hk. unfold totals. replace (filter (fun t => key t = k) samples) with (@nil T); [done|].
  symmetry. apply elem_of_nil_inv. intros t Ht. apply list_elem_of_filter in Ht as [<- Ht].
  by apply Hk, list_elem_of_fmap_2.
Qed.

Lemma add_sample_keys k b (l : list (K * (N * N))) :
  (add_sample k b l).*1 = if decide (k ∈ l.*1) then l.*1 else l.*1 ++ [k].
Proof.
  induction l as [|[k' [t c]] l IH]; cbn [add_sample fmap list_fmap fst].
  - by rewrite decide_False by (by intros ?%elem_of_nil).
  - destruct (decide (k' = k)) as [->|Hne].
    + by rewrite decide_True by (by left).
    + cbn [fmap list_fmap fst]. rewrite IH. destruct (decide (k ∈ l.*1)) as [Hin|Hin].
      * by rewrite decide_True by (by right).
      * rewrite decide_False; [done|]. intros [?|?]%elem_of_cons; [congruence|done].
Qed.

Lemma add_sample_elem k b (l : list (K * (N * N))) k' n :
  NoDup l.*1 ->
  (k', n) ∈ add_sample k b l <->
    (k' <> k /\ (k', n) ∈ l) \/
    (k' = k /\ ((exists m, (k, m) ∈ l /\ n = (m.1 + b, m.2 + 1)%N) \/ (k ∉ l.*1 /\ n = (b, 1%N)))).
Proof.
  induction l as [|[k1 [t c]] l IH]; intros Hnd; cbn [add_sample].
  - split.
    + intros [= -> ->]%list_elem_of_singleton. right. split; [done|]. right. split; [by intros ?%elem_of_nil|done].
    + intros [[_ []%elem_of_nil]|[-> [(m & []%elem_of_nil & _)|[_ ->]]]]. by left.
  - cbn in Hnd. apply NoDup_cons in Hnd as [Hk1 Hnd]. specialize (IH Hnd).
    destruct (decide (k1 = k)) as [->|Hne].
    + split.
      * intros [[= -> ->]|Hin]%elem_of_cons; [right; split; [done|]; left; exists (t, c); split; [by left|done]|].
        left. split; [|by right]. intros ->. apply Hk1. by apply (list_elem_of_fmap_2 fst l (k, n)).
      * intros [[Hne [[= ? ?]|Hin]%elem_of_cons]|[-> [(m & [[= ->]|Hin]%elem_of_cons & ->)|[Hn _]]]].
        -- done.
        -- by right.
        -- by left.
        -- destruct Hk1. by apply (list_elem_of_fmap_2 fst l (k, m)).
        -- destruct Hn. by left.
    + rewrite !elem_of_cons, IH. cbn [fmap list_fmap fst]. setoid_rewrite elem_of_cons. split.
      * intros [[= -> ->]|[?|[-> [(m & ? & ->)|[? ->]]]]]; [left; auto|left; tauto| |].
        -- right. split; [done|]. left. exists m. auto.
        -- right. split; [done|]. right. split; [|done]. by intros [->|].
      * intros [[Hk' [[= -> ->]|Hin]]|[-> [(m & [[= E _]|Hin] & ->)|[Hn ->]]]]; [by left|tauto|congruence| |].
        -- right. right. split; [done|]. left. eauto.
        -- right. right. split; [done|]. right. tauto.
Qed.

Lemma average_spec last :
  NoDup (average key size last).*1 /\
  forall k n, (k, n) ∈ average key size last <-> k ∈ key <$> concat last /\ n = totals key size k (concat last).
Proof.
  assert (average key size last = foldl (fun d t => add_sample (key t) (size t) d) [] (concat last)) as ->.
  { unfold average. generalize (@nil (K * (N * N))) as d. induction last as [|l last IH]; intros d; [done|].
    cbn. by rewrite foldl_app, IH. }
  generalize (concat last) as samples. intros samples.
  induction samples as [|t samples [IH1 IH2]] using rev_ind.
  - split; [constructor|]. intros k n. split; [intros []%elem_of_nil|]. intros [[]%elem_of_nil _].
  - rewrite foldl_app. cbn [foldl]. set (d := foldl _ [] samples) in *.
    assert (forall k, k ∈ d.*1 <-> k ∈ key <$> samples) as Hkeys.
    { intros k. rewrite list_elem_of_fmap. split.
      - intros ([k' n] & -> & Hin). by apply IH2 in Hin as [Hin _].
      - intros Hin. exists (k, totals key size k samples). split; [done|]. by apply IH2. }
    split.
    + rewrite add_sample_keys. case_decide as Hin; [done|]. apply NoDup_app. split; [done|].
      split; [|apply NoDup_singleton]. by intros x Hx ->%list_elem_of_singleton.
    + intros k n. rewrite add_sample_elem, totals_snoc, fmap_app, elem_of_app by done. cbn [fmap list_fmap].
      rewrite list_elem_of_singleton. setoid_rewrite IH2. rewrite Hkeys. split.
      * intros [(Hne & Hin & ->)|[-> [(m & [Hin ->] & ->)|[Hin ->]]]].
        -- rewrite decide_False by congruence. auto.
        -- rewrite decide_True by done. auto.
        -- rewrite decide_True by done. rewrite totals_none by done. cbn. auto.
      * intros [Hin ->]. destruct (decide (key t = k)) as [Ht|Hne].
        -- right. split; [done|]. subst k. destruct (decide (key t ∈ key <$> samples)) as [Hs|Hs].
           ++ left. eexists. split; [by split|]. done.
           ++ right. split; [done|]. rewrite totals_none by done. done.
        -- left. split; [congruence|]. split; [|done]. destruct Hin; [done|congruence].
Qed.

End averages.

(** ** Where the nodes are put *)

Section positions.
Variables (net : list ns3_node) (sel : option N).

Lemma has_mobility_ok i s :
  scene_ok net sel s -> has_node s i ->
  exists s', VizScene.has_mobility net i s = (s', Ok (negb (bool_decide (mobility_of net i = None)))) /\
    scene_ok net sel s' /\ extends s s'.
Proof.
  intros Hs [p Hp]. unfold VizScene.has_mobility. cbn in Hp. destruct (nodes s !! i) as [n|] eqn:En; [|done].
  assert (flags_at s i = Some (flags n)) as Ef by (unfold flags_at; by rewrite En).
  destruct (_has_mobility n) as [b|] eqn:Eb.
  - exists s. split; [|done]. destruct (ok_flags _ _ _ Hs i _ Ef) as [_ Hb]. by rewrite (Hb b Eb).
  - eexists. split; [done|].
    set (b := negb _). assert (extends s (on_node i (with_mobility b) s)) as Hext by by apply on_node_extends.
    split; [|exact Hext].
    assert (forall j, flags_at (on_node i (with_mobility b) s) j =
      if decide (j = i) then (fun f => (f.1, Some b)) <$> flags_at s i else flags_at s j) as Efl.
    { intros j. unfold flags_at. cbn. case_decide; subst; [|by rewrite lookup_alter_ne].
      rewrite lookup_alter_eq. by destruct (nodes s !! i). }
    destruct Hs as [Hw Hf Hn]. split.
    + by eapply wf_extends.
    + intros j f. rewrite Efl. case_decide; subst; [|by apply Hf]. rewrite Ef. intros [= <-].
      split; [by apply (Hf i _ Ef)|]. by intros b' [= <-].
    + intros j Ej. rewrite Efl. case_decide; subst; [rewrite Ef; by eexists|by apply Hn].
Qed.

(** The place of an object after the positions of the nodes [l] are updated. *)
Definition placed (l : list N) (s : scene) (e : endpoint) : option point :=
  match e with
  | NodeEnd i =>
      if decide (i ∈ l) then
        match mobility_of net i with
        | Some pos => Some (transform_point_simulation_to_canvas pos)
        | None => VizScene.get_position s e
        end
      else VizScene.get_position s e
  | ChannelEnd _ => VizScene.get_position s e
  end.

Lemma update_position_ok i s :
  scene_ok net sel s -> has_node s i ->
  exists s', update_node_position net i s = (s', Ok tt) /\ scene_ok net sel s' /\
    (forall e, is_Some (VizScene.get_position s e) -> VizScene.get_position s' e = placed [i] s e) /\
    (forall j, has_node s j -> has_node s' j).
Proof.
  intros Hs Hi. destruct (has_mobility_ok i s Hs Hi) as (s1 & E & Hs1 & Hext).
  unfold update_node_position, gbind. rewrite E. unfold placed.
  destruct (mobility_of net i) as [pos|] eqn:Em.
  - rewrite bool_decide_eq_false_2 by done. cbn [negb]. eexists. split; [done|].
    split; [by apply scene_ok_position|].
    assert (forall e, is_Some (VizScene.get_position s e) ->
      VizScene.get_position (set_position (NodeEnd i) (transform_point_simulation_to_canvas pos) s1) e =
      if decide (e = NodeEnd i) then Some (transform_point_simulation_to_canvas pos)
      else VizScene.get_position s e) as Hp.
    { intros e [q Hq]. rewrite set_position_position. rewrite (proj2 (proj2 Hext e) q Hq), Hq.
      destruct Hi as [q' Hq']. by rewrite (proj2 (proj2 Hext (NodeEnd i)) q' Hq'). }
    split.
    + intros e He. rewrite Hp by done. destruct e as [j|c]; [|by rewrite decide_False].
      destruct (decide (j = i)) as [->|Hne].
      * rewrite !decide_True by (done || by left). by rewrite Em.
      * rewrite !decide_False; [done|by rewrite list_elem_of_singleton|congruence].
    + intros j Hj. unfold has_node. rewrite Hp by done. case_decide; [by eexists|done].
  - rewrite bool_decide_eq_true_2 by done. cbn [negb]. exists s1. split; [done|]. split; [done|]. split.
    + intros e [q Hq]. rewrite (proj2 (proj2 Hext e) q Hq). destruct e as [j|c]; [|done].
      case_decide as Hj; [|done]. apply list_elem_of_singleton in Hj as ->. by rewrite Em.
    + intros j. by apply has_node_extends.
Qed.

Lemma update_positions_ok l s :
  scene_ok net sel s -> Forall (has_node s) l ->
  exists s', mfor (update_node_position net) l s = (s', Ok tt) /\ scene_ok net sel s' /\
    (forall e, is_Some (VizScene.get_position s e) -> VizScene.get_position s' e = placed l s e) /\
    (forall j, has_node s j -> has_node s' j).
Proof.
  revert s. induction l as [|i l IH]; intros s Hs Hl.
  - exists s. split; [done|]. split; [done|]. split; [|done]. by intros [j|c] _.
  - apply Forall_cons in Hl as [Hi Hl]. destruct (update_position_ok i s Hs Hi) as (s1 & E1 & Hs1 & Hp1 & Hn1).
    assert (Forall (has_node s1) l) as Hl1 by by eapply Forall_impl.
    destruct (IH s1 Hs1 Hl1) as (s2 & E2 & Hs2 & Hp2 & Hn2). exists s2.
    cbn [mfor]. unfold gbind. rewrite E1. split; [done|]. split; [done|]. split; [|auto].
    intros e He.
    assert (is_Some (VizScene.get_position s1 e)) as He1.
    { rewrite Hp1 by done. destruct e as [j|c]; cbn [placed]; [|done].
      case_decide; [|done]. by destruct (mobility_of net j); [eexists|]. }
    rewrite (Hp2 e He1). destruct e as [j|c]; cbn [placed]; [|by rewrite (Hp1 _ He)].
    pose proof (Hp1 _ He) as Hj. cbn [placed] in Hj.
    destruct (decide (j = i)) as [->|Hne].
    + rewrite (decide_True (P := i ∈ [i])) in Hj by (by left). rewrite (decide_True (P := i ∈ i :: l)) by (by left).
      rewrite Hj. destruct (decide (i ∈ l)); [|done]. by destruct (mobility_of net i).
    + rewrite (decide_False (P := j ∈ [i])) in Hj by (by rewrite list_elem_of_singleton). rewrite Hj.
      destruct (decide (j ∈ l)) as [Hin|Hin].
      * by rewrite decide_True by (by right).
      * rewrite decide_False; [done|]. by intros [?|?]%elem_of_cons.
Qed.

End positions.

(** ** Every operation keeps the invariant *)

Lemma inv_set_sc s v : inv v -> scene_ok (network v) (selected_node v) s -> inv (set_sc s v).
Proof. intros [] Hs. by split. Qed.

Lemma inv_on_sc f v :
  (forall s, scene_ok (network v) (selected_node v) s -> scene_ok (network v) (selected_node v) (f s)) ->
  inv v -> inv (on_sc f v).
Proof. intros Hf Hv. apply inv_set_sc; [done|]. apply Hf, Hv. Qed.

Lemma inv_mode mode v : inv v -> inv (set_show_transmissions_mode mode v).
Proof. intros []. by split. Qed.

Lemma inv_select node v :
  inv v -> (forall i, node = Some i -> is_Some (flags_at (sc v) i)) -> inv (select node v).
Proof.
  intros Hv Hnode. destruct Hv as [Hs Hi Hp Hpools].
  pose proof (select_scene _ _ node _ Hs Hnode) as Hs'.
  unfold select. set (s' := (match node with Some i => _ | None => _ end) _) in Hs'.
  match goal with |- inv (if decide (_ ?v1 = _) then _ else _) =>
    assert (v1 = set_selection node (set_sc s' v)) as -> end.
  { subst s'. destruct v; cbn. by destruct selected_node0, node. }
  destruct (decide _) as [Em|Em]; [by split|]. split; [done| |done..].
  unfold of_interest in *. cbn in *. by destruct (_show_transmissions_mode v).
Qed.

Lemma node_at_Ok i v j : node_at i v = Ok j -> is_Some (flags_at (sc v) j).
Proof.
  unfold node_at, rbind, raise_unless, or_raise. destruct (bool_decide _); [|done].
  unfold flags_at. destruct (nodes (sc v) !! Z.to_N i) eqn:E; [|done]. intros [= <-]. rewrite E. by eexists.
Qed.

Lemma inv_select_node node v :
  inv v -> (forall i, node = ANode i -> is_Some (flags_at (sc v) i)) -> inv (fst (select_node node v)).
Proof.
  intros Hv Hnode. unfold select_node, gbind. destruct (resolve node v) as [o|e] eqn:E; [|done].
  cbn. case_decide; [done|]. apply inv_select; [done|]. intros i ->.
  destruct node as [id|z|j| |]; cbn in E; try done.
  - destruct (node_at _ v) eqn:En; [|done]. injection E as ->. by eapply node_at_Ok.
  - destruct (node_at _ v) eqn:En; [|done]. injection E as ->. by eapply node_at_Ok.
  - injection E as ->. by apply Hnode.
Qed.

Lemma is_node_flags i v : is_node i v = true -> is_Some (flags_at (sc v) i).
Proof. intros [n Hn]%bool_decide_eq_true. unfold flags_at. rewrite Hn. by eexists. Qed.

Lemma mobility_alter i pos net j :
  mobility_of (alter (fun node => {| mobility := Some pos; devices := devices node |}) (N.to_nat i) net) j =
    if decide (j = i /\ N.to_nat i < length net) then Some pos else mobility_of net j.
Proof.
  unfold mobility_of. destruct (decide (j = i)) as [->|Hne].
  - rewrite list_lookup_alter_eq. destruct (net !! N.to_nat i) as [n|] eqn:E.
    + rewrite decide_True; [done|]. split; [done|]. by eapply lookup_lt_Some.
    + rewrite decide_False; [done|]. intros [_ Hlt]. by apply lookup_lt_is_Some_2 in Hlt as [? ?]; congruence.
  - rewrite list_lookup_alter_ne by lia. rewrite decide_False; [done|]. tauto.
Qed.

Lemma inv_set_mobility i pos v : mobility_of (network v) i <> None -> inv v -> inv (set_mobility i pos v).
Proof.
  intros Hm [[Hw Hf Hn] Hi Hp Hpools]. split; [split| | |]; try done.
  - intros j f E. destruct (Hf j f E) as [H1 H2]. split; [done|]. intros b Hb. rewrite (H2 b Hb). f_equal.
    apply bool_decide_ext. cbn [network set_mobility set_network]. rewrite mobility_alter. destruct (decide _) as [Hd|]; [|done].
    destruct Hd as [-> _]. split; done.
  - unfold of_interest in *. cbn [network set_mobility set_network _show_transmissions_mode selected_node nodes_of_interest].
    by rewrite length_alter.
Qed.

Lemma inv_node_drag_motion i pointer v : inv v -> inv (node_drag_motion i pointer v).
Proof.
  intros Hv. unfold node_drag_motion. destruct (mobility_of (network v) i) eqn:Em; [|done].
  destruct (node_drag_state v) as [d|]; [|done].
  apply inv_on_sc; [intros s; apply scene_ok_position|]. apply inv_set_mobility; [by rewrite Em|done].
Qed.

Lemma inv_begin_node_drag i pointer v : inv v -> inv (begin_node_drag i pointer v).
Proof.
  intros Hv. unfold begin_node_drag. destruct (mobility_of _ i); [|done]. destruct (node_drag_state v); [done|].
  by destruct Hv.
Qed.

Lemma draw_transmission_same atan2 clip convert hadj vadj raises q v v' w key n :
  same_but q v v' -> Forall (has_node (sc v)) (transmission_ends key) ->
  draw_transmission atan2 clip convert hadj vadj raises v' w key n =
  draw_transmission atan2 clip convert hadj vadj raises v w key n.
Proof.
  intros Hs Hends. apply Forall_cons in Hends as [[p1 E1] [[p2 E2] _]%Forall_cons].
  unfold draw_transmission, position, font_of, kbps_of, arrow_k.
  rewrite E1, E2, (proj2 (proj2 (same_extends _ _ _ Hs) _) _ E1), (proj2 (proj2 (same_extends _ _ _ Hs) _) _ E2).
  by rewrite (same_period _ _ _ Hs), (same_size _ _ _ Hs).
Qed.

Lemma draw_drop_same convert vadj q v v' w key n :
  same_but q v v' -> Forall (has_node (sc v)) (drop_ends key) ->
  draw_drop convert vadj v' w key n = draw_drop convert vadj v w key n.
Proof.
  intros Hs Hends. apply Forall_cons in Hends as [[p1 E1] _].
  unfold draw_drop, position, font_of, kbps_of, arrow_k.
  rewrite E1, (proj2 (proj2 (same_extends _ _ _ Hs) _) _ E1).
  by rewrite (same_period _ _ _ Hs), (same_size _ _ _ Hs).
Qed.

Lemma inv_update_arrows {K} math_log p (ends : K -> list N) draw entries :
  (forall q v v' w key n, same_but q v v' -> Forall (has_node (sc v)) (ends key) -> draw v' w key n = draw v w key n) ->
  preserves inv (update_arrows math_log p ends draw entries).
Proof.
  intros Hdraw v Hv.
  pose proof (update_arrows_triple math_log p ends draw Hdraw v entries (inv_pools v Hv) v eq_refl) as H.
  destruct (update_arrows math_log p ends draw entries v) as [v' [a|e]]; cbn.
  - destruct H. by eapply same_but_inv.
  - destruct H as (? & ? & _). by eapply same_but_inv.
Qed.

Lemma node_keys v : Forall (has_node (sc v)) (map_to_list (nodes (sc v))).*1.
Proof.
  apply Forall_forall. intros i Hi. apply list_elem_of_fmap in Hi as ([j n] & -> & Hin).
  apply elem_of_map_to_list in Hin. unfold has_node. cbn. rewrite Hin. by eexists.
Qed.

Lemma update_node_positions_spec v :
  inv v ->
  exists s, _update_node_positions v = (set_sc s v, Ok tt) /\ inv (set_sc s v) /\
    forall i, has_node (sc v) i -> VizScene.get_position s (NodeEnd i) =
      match mobility_of (network v) i with
      | Some pos => Some (transform_point_simulation_to_canvas pos)
      | None => VizScene.get_position (sc v) (NodeEnd i)
      end.
Proof.
  intros Hv. destruct (update_positions_ok _ _ _ _ (inv_scene v Hv) (node_keys v)) as (s & E & Hs & Hp & _).
  exists s. unfold _update_node_positions, gbind, mget, in_scene. rewrite E. split; [done|]. split; [by apply inv_set_sc|].
  intros i Hi. rewrite (Hp (NodeEnd i) Hi). cbn [placed]. rewrite decide_True; [done|].
  destruct Hi as [q Hq]. cbn in Hq. destruct (nodes (sc v) !! i) as [n|] eqn:En; [|done].
  apply list_elem_of_fmap. exists (i, n). split; [done|]. by apply elem_of_map_to_list.
Qed.

Lemma preserves_update_view math_log atan2 clip convert hadj vadj raises :
  preserves inv (update_view math_log atan2 clip convert hadj vadj raises).
Proof.
  unfold update_view. apply preserves_bind; [|intros _; apply preserves_bind; [|intros _]].
  - intros v Hv. destruct (update_node_positions_spec v Hv) as (s & -> & Hs & _). exact Hs.
  - apply inv_update_arrows. intros q v v' w key n. apply draw_transmission_same.
  - apply inv_update_arrows. intros q v v' w key n. apply draw_drop_same.
Qed.

Lemma inv_settings period size smooth v : (0 < period)%Q -> inv v -> inv (set_settings period size smooth v).
Proof. intros Hp []. by split. Qed.

Lemma speed_positive value : in_bounds (1 # 100) 10 value = true -> (0 < (1 # 10) * value)%Q.
Proof. unfold in_bounds. rewrite andb_true_iff, !Qle_bool_iff. lra. Qed.

Section preserved.
Variable math_log : Q -> Q.
Variable math_atan2 : Q -> Q -> Q.
Variable LineClipping : point -> point -> point -> point -> point * point.
Notation do_op := (do_op math_log math_atan2 LineClipping).
Notation run_ops := (run_ops math_log math_atan2 LineClipping).

Lemma inv_do_op o : preserves inv (do_op o).
Proof.
  destruct o as [o|node|mode|value|value|value|ts ds|win|button i pointer|button|pointer|button|i pos].
  - destruct o; cbn; [follow..]; try (apply inv_on_sc; [|done]; intros s' Hs').
    + by apply scene_ok_get_node.
    + by apply (scene_ok_op _ _ s' (GetChannel c)).
    + by apply (scene_ok_op _ _ s' (CreateLink i e)).
    + by apply scene_ok_position.
    + by apply (scene_ok_op _ _ s' (SetHighlighted i b)).
    + by apply (scene_ok_op _ _ s' (SetColor i c)).
    + by apply (scene_ok_op _ _ s' (SetSize i s)).
    + by apply (scene_ok_op _ _ s' (SetLabel i t)).
  - intros v Hv. destruct node as [id|z|i| |]; try by apply inv_select_node.
    cbn. unfold gbind, mget. destruct (is_node i v) eqn:E; [|done]. apply inv_select_node; [done|].
    intros j [= <-]. by apply is_node_flags.
  - cbn. follow. by apply inv_mode.
  - cbn. destruct (in_bounds _ _ value) eqn:E; follow. apply inv_settings; [by apply speed_positive|done].
  - cbn. destruct (in_bounds _ _ value) eqn:E; unfold node_size_changed; follow.
    + apply inv_settings; [by apply inv_period|done].
    + apply inv_on_sc; [|done]. intros s' Hs'. by apply (scene_ok_op _ _ s' (SetSize x value)).
  - cbn. destruct (in_bounds _ _ value) eqn:E; follow. apply inv_settings; [by apply inv_period|done].
  - cbn. follow. by destruct H.
  - apply preserves_update_view.
  - intros v Hv. cbn. unfold gbind, mget. destruct (is_node i v) eqn:E; [|done].
    unfold on_node_button_press_event. destruct (decide _); [|destruct (decide _)]; [| |done].
    + apply inv_select_node; [done|]. intros j [= <-]. by apply is_node_flags.
    + by apply inv_begin_node_drag.
  - cbn. follow. unfold on_node_button_release_event, end_node_drag. destruct (decide _); [|done].
    destruct (node_drag_state s); [|done]. by destruct H.
  - cbn. follow. destruct (node_drag_state s); [|done]. by apply inv_node_drag_motion.
  - intros v Hv. cbn. unfold on_root_button_press_event. destruct (decide _); [|done]. by apply inv_select_node.
  - cbn. follow. destruct (mobility_of (network s) i) eqn:E; [|done]. apply inv_set_mobility; [congruence|done].
Qed.

Lemma viewer_inv_init net : inv (viewer_init net).
Proof.
  split; [|done..|].
  - split; [apply scene_init_wf| |done]. intros i f. by unfold flags_at, viewer_init.
  - split; cbn; constructor.
Qed.

Lemma inv_run_ops ops v : inv v -> inv (run_ops ops v).
Proof.
  revert v. induction ops as [|o ops IH]; intros v Hv; [done|]. cbn. apply IH. by apply inv_do_op.
Qed.

(** C13 - The selection is what is shown.  After any operations, whether they raised or not,
    the node that is selected is shown and is the only one marked as selected; the
    simulator reports the packets of the nodes the mode asks for; and no arrow is in two
    places. *)
Theorem selection_shown net ops :
  let v := run_ops ops (viewer_init net) in
  (forall i n, nodes (sc v) !! i = Some n -> _selected n = bool_decide (selected_node v = Some i)) /\
  (forall i, selected_node v = Some i -> is_Some (nodes (sc v) !! i)) /\
  nodes_of_interest v =
    match _show_transmissions_mode v with
    | ALL => N.of_nat <$> seq 0 (length (network v))
    | NONE => []
    | SELECTED => option_list (selected_node v)
    end /\
  NoDup (_transmission_arrows v ++ _drop_arrows v).
Proof.
  intros v. assert (inv v) as Hv by apply inv_run_ops, viewer_inv_init. destruct Hv as [[_ Hf Hn] Hi _ [Hnd _]].
  split_and!.
  - intros i n En. apply (Hf i (flags n)). unfold flags_at. by rewrite En.
  - intros i Es. destruct (Hn i Es) as [f Ef]. unfold flags_at in Ef. destruct (nodes (sc v) !! i); [by eexists|done].
  - rewrite Hi. unfold of_interest. by destruct (selected_node v).
  - exact Hnd.
Qed.

End preserved.

(** ** What a view shows *)

Lemma line_width_ok math_log v n :
  (0 < sample_period v)%Q -> (0 < n.1)%N -> (0 < n.2)%N -> exists w, line_width_of math_log v n = Ok w.
Proof.
  intros Hp H1 H2. unfold line_width_of, log.
  assert (forall m, (0 < m)%N -> (0 < toQ m)%Q) as Hq.
  { intros m Hm. unfold toQ. change 0%Q with (inject_Z 0). rewrite <- Zlt_Qlt. lia. }
  assert (0 < toQ n.1 / toQ n.2 / sample_period v)%Q as Hx.
  { unfold Qdiv. apply Qmult_lt_0_compat; [apply Qmult_lt_0_compat; [by apply Hq|]|];
      apply Qinv_lt_0_compat; [by apply Hq|done]. }
  destruct (Qle_bool _ 0) eqn:E; [|by eexists]. apply Qle_bool_iff in E. by apply Qlt_not_le in Hx.
Qed.

Lemma totals_positive {T K} `{EqDecision K} (key : T -> K) (size : T -> N) k samples :
  Forall (fun t => 0 < size t)%N samples -> k ∈ key <$> samples ->
  (0 < (totals key size k samples).1)%N /\ (0 < (totals key size k samples).2)%N.
Proof.
  intros Hs Hk. apply list_elem_of_fmap in Hk as (t & -> & Ht). unfold totals. cbn [fst snd].
  assert (t ∈ filter (fun t' => key t' = key t) samples) as Hin by by apply list_elem_of_filter.
  assert (Forall (fun t => 0 < size t)%N (filter (fun t' => key t' = key t) samples)) as Hf.
  { rewrite Forall_forall in *. intros x [_ Hx]%list_elem_of_filter. by apply Hs. }
  destruct (filter _ samples) as [|t' l]; [by apply elem_of_nil in Hin|]. apply Forall_cons in Hf as [Ht' _].
  cbn. split; lia.
Qed.

Section update_view.
Variable math_log : Q -> Q.
Variable math_atan2 : Q -> Q -> Q.
Variable LineClipping : point -> point -> point -> point -> point * point.
Variable convert_from_pixels : point -> point.
Variables hadj vadj : Q * Q.
Variable set_transform_raises : bool.

(** The first arrows of a pool are those of the keys of the samples, one for each key,
    drawn from the bytes and the number of the samples of the key, and the others are
    hidden; an arrow is made only when no [old] one is left. *)
Definition displays {T K} `{EqDecision K} (p : pool) (draw : viewer -> Q -> K -> N * N -> arrow)
    (key : T -> K) (size : T -> N) (samples : list T) (old : list nat) (v : viewer) : Prop :=
  exists keys used hidden,
    get_pool p v = used ++ hidden /\ NoDup (used ++ hidden) /\
    length (used ++ hidden) = length old `max` length keys /\
    NoDup keys /\ (forall k, k ∈ keys <-> k ∈ key <$> samples) /\
    Forall2 (fun k a => exists w, line_width_of math_log v (totals key size k samples) = Ok w /\
      arrows v !! a = Some (draw v w k (totals key size k samples))) keys used /\
    Forall (fun a => exists r, arrows v !! a = Some r /\ arrow_visible r = false /\ label_visible r = false) hidden.

Lemma displays_intro {T K} `{EqDecision K} p (ends : K -> list N) draw (key : T -> K) (size : T -> N) last old v' :
  pools_ok [] v' -> length (get_pool p v') = length old `max` length (average key size last) ->
  drawn_pool math_log p ends draw (average key size last) v' ->
  displays p draw key size (concat last) old v'.
Proof.
  intros [Hnd _] Hlen (used & hidden & Ep & Hd & Hh).
  destruct (average_spec key size last) as [Hnd' Hav].
  exists (average key size last).*1, used, hidden. split; [done|]. rewrite <- Ep. split_and!; [| |done| | |done].
  - change (NoDup (pools v')) in Hnd. rewrite (pools_perm p (other p)) in Hnd by apply other_ne. by apply NoDup_app in Hnd as [? _].
  - by rewrite length_fmap.
  - intros k. rewrite list_elem_of_fmap. split.
    + intros ([k' n] & -> & Hin). by apply Hav in Hin as [? _].
    + intros Hin. exists (k, totals key size k (concat last)). split; [done|]. by apply Hav.
  - apply Forall2_fmap_l. apply Forall2_same_length_lookup. split; [by eapply Forall2_length|].
    intros i [k n] a E1 E2. pose proof (Forall2_lookup_lr _ _ _ _ _ _ Hd E1 E2) as (_ & w & Hw & Ha). cbn in *.
    apply list_elem_of_lookup_2, Hav in E1 as [_ ->]. eauto.
Qed.

Lemma update_arrows_runs {T K} `{EqDecision K} p (ends : K -> list N) draw (key : T -> K) (size : T -> N)
    (samples : viewer -> list (list T)) v :
  (forall q v v' w key n, same_but q v v' -> Forall (has_node (sc v)) (ends key) -> draw v' w key n = draw v w key n) ->
  inv v -> Forall (fun t => 0 < size t)%N (concat (samples v)) ->
  exists v', update_arrows math_log p ends draw (fun v => average key size (samples v)) v = (v', Ok tt) /\
    drawn_all math_log p ends draw (average key size (samples v)) v v'.
Proof.
  intros Hdraw Hv Hpos. set (es := fun v => average key size (samples v)).
  pose proof (update_arrows_triple math_log p ends draw Hdraw v es (inv_pools v Hv) v eq_refl) as H.
  destruct (update_arrows _ _ _ _ es v) as [v' [[]|e]]; [by exists v'|].
  destruct H as (_ & _ & [k n] & Hin & e' & He). apply (proj2 (average_spec key size (samples v))) in Hin as [Hk ->].
  destruct (totals_positive key size k _ Hpos Hk) as [H1 H2].
  destruct (line_width_ok math_log v _ (inv_period v Hv) H1 H2) as [w Hw]. cbn in He. congruence.
Qed.

(** C12 - What a view shows.  When no sample is of zero bytes, a view does not raise; each node
    that moves is where the simulator has it; there is one arrow for each pair of nodes
    with a transmission in the last periods, and one for each node with drops, drawn
    between the places of the nodes in the view from the means of the samples; and the
    arrows left over are hidden. *)
Theorem update_view_spec net ops v :
  v = run_ops math_log math_atan2 LineClipping ops (viewer_init net) ->
  Forall (fun t => 0 < bytes t)%N (concat (_last_transmissions v)) ->
  Forall (fun d => 0 < drop_bytes d)%N (concat (_last_drops v)) ->
  exists v',
    update_view math_log math_atan2 LineClipping convert_from_pixels hadj vadj set_transform_raises v = (v', Ok tt) /\
    (forall i, has_node (sc v) i -> VizScene.get_position (sc v') (NodeEnd i) =
       match mobility_of (network v) i with
       | Some pos => Some (transform_point_simulation_to_canvas pos)
       | None => VizScene.get_position (sc v) (NodeEnd i)
       end) /\
    displays Transmissions
      (draw_transmission math_atan2 LineClipping convert_from_pixels hadj vadj set_transform_raises)
      transmission_key bytes (concat (_last_transmissions v)) (_transmission_arrows v) v' /\
    displays Drops (draw_drop convert_from_pixels vadj)
      drop_transmitter drop_bytes (concat (_last_drops v)) (_drop_arrows v) v'.
Proof.
  intros E Ht Hd. assert (inv v) as Hv by (rewrite E; apply inv_run_ops, viewer_inv_init). clear E.
  destruct (update_node_positions_spec v Hv) as (s & E1 & Hv1 & Hpos).
  set (dt := draw_transmission math_atan2 LineClipping convert_from_pixels hadj vadj set_transform_raises).
  set (dd := draw_drop convert_from_pixels vadj).
  assert (forall q v v' w key n, same_but q v v' -> Forall (has_node (sc v)) (transmission_ends key) ->
    dt v' w key n = dt v w key n) as Hdt by (intros q w1 w2 w key n; apply draw_transmission_same).
  assert (forall q v v' w key n, same_but q v v' -> Forall (has_node (sc v)) (drop_ends key) ->
    dd v' w key n = dd v w key n) as Hdd by (intros q w1 w2 w key n; apply draw_drop_same).
  destruct (update_arrows_runs Transmissions transmission_ends dt transmission_key bytes _last_transmissions
    (set_sc s v) Hdt Hv1 Ht) as (v2 & E2 & [S2 P2 C2 _ D2]).
  assert (inv v2) as Hv2 by by eapply same_but_inv.
  destruct (same_samples _ _ _ S2) as [_ Eld]. cbn in Eld.
  destruct (update_arrows_runs Drops drop_ends dd drop_transmitter drop_bytes _last_drops
    v2 Hdd Hv2) as (v3 & E3 & [S3 P3 C3 O3 D3]); [by rewrite Eld|].
  exists v3. split_and!.
  - unfold update_view, gbind. rewrite E1. unfold _update_transmissions_view. fold dt. rewrite E2. exact E3.
  - intros i Hi.
    assert (has_node s i) as [q Hq].
    { unfold has_node. rewrite (Hpos i Hi). by destruct (mobility_of (network v) i); [eexists|]. }
    rewrite <- (Hpos i Hi), Hq.
    apply (proj2 (proj2 (same_extends _ _ _ S3) _)), (proj2 (proj2 (same_extends _ _ _ S2) _)), Hq.
  - apply (displays_intro Transmissions transmission_ends); [done| |].
    + by rewrite (same_other _ _ _ S3 Transmissions).
    + eapply (drawn_pool_same _ _ _ _ Hdt _ Drops v2); [done|done|exact O3|exact D2].
  - rewrite <- Eld. apply (displays_intro Drops drop_ends); [done| |done].
    by rewrite C3, (same_other _ _ _ S2 Drops).
Qed.

End update_view.

(** ** Dragging *)

Lemma has_node_flags s i : has_node s i <-> is_Some (flags_at s i).
Proof.
  unfold has_node, flags_at. cbn. destruct (nodes s !! i); [split; by eexists|]. by split; intros [].
Qed.

Lemma same_flags_node s s' i : same_flags s s' -> has_node s i -> has_node s' i.
Proof. rewrite !has_node_flags. intros H [f Hf]. destruct (H i) as [->|[E _]]; [by eexists|congruence]. Qed.

Lemma set_selected_node j b s i : has_node s i -> has_node (set_selected j b s) i.
Proof.
  rewrite !has_node_flags, flags_set_selected. intros Hi. case_decide; [subst|done]. destruct Hi as [f ->]. by eexists.
Qed.

Lemma do_op_node s o i : has_node s i -> has_node (VizScene.do_op s o) i.
Proof.
  destruct o as [j|c|j e|e p|j b|j b|j c|j x|j t];
    try (apply same_flags_node, do_op_flags; done). apply set_selected_node.
Qed.

Lemma set_position_node e p s i : has_node s i -> has_node (set_position e p s) i.
Proof. apply (do_op_node s (SetPosition e p)). Qed.

(** A drag in progress. *)
Record dragging (d : NodeDragState) (v : viewer) : Prop := {
  dragging_inv : inv v;
  dragging_state : node_drag_state v = Some d;
  dragging_node : has_node (sc v) (motion_signal d);
  dragging_mobility : mobility_of (network v) (motion_signal d) <> None
}.

Lemma dragging_on_sc d f v : (forall i, has_node (sc v) i -> has_node (f (sc v)) i) ->
  inv (on_sc f v) -> dragging d v -> dragging d (on_sc f v).
Proof. intros Hf Hi []. split; [done|done|by apply Hf|done]. Qed.

Lemma dragging_same d p v v' : same_but p v v' -> inv v' -> dragging d v -> dragging d v'.
Proof.
  intros [] Hi []. split; [done|congruence| |congruence]. by eapply has_node_extends.
Qed.

Lemma dragging_update_arrows {K} d math_log p (ends : K -> list N) draw entries :
  (forall q v v' w key n, same_but q v v' -> Forall (has_node (sc v)) (ends key) -> draw v' w key n = draw v w key n) ->
  preserves (dragging d) (update_arrows math_log p ends draw entries).
Proof.
  intros Hdraw v Hd. pose proof (dragging_inv d v Hd) as Hv.
  pose proof (update_arrows_triple math_log p ends draw Hdraw v entries (inv_pools v Hv) v eq_refl) as H.
  destruct (update_arrows math_log p ends draw entries v) as [v' [a|e]]; cbn.
  - destruct H. apply (dragging_same d p v); [done|by eapply same_but_inv|done].
  - destruct H as (? & ? & _). apply (dragging_same d p v); [done|by eapply same_but_inv|done].
Qed.

Lemma dragging_update_view d math_log atan2 clip convert hadj vadj raises :
  preserves (dragging d) (update_view math_log atan2 clip convert hadj vadj raises).
Proof.
  unfold update_view. apply preserves_bind; [|intros _; apply preserves_bind; [|intros _]].
  - intros v [Hv Hs Hn Hm]. destruct (update_node_positions_spec v Hv) as (s & -> & Hi & Hp). cbn.
    split; [done|done| |done]. unfold has_node. cbn [sc set_sc]. rewrite (Hp _ Hn).
    by destruct (mobility_of (network v) (motion_signal d)); [eexists|].
  - apply dragging_update_arrows. intros q v v' w key n. apply draw_transmission_same.
  - apply dragging_update_arrows. intros q v v' w key n. apply draw_drop_same.
Qed.

Lemma dragging_select d node v : dragging d v -> inv (fst (select_node node v)) -> dragging d (fst (select_node node v)).
Proof.
  intros [Hi Hs Hn Hm] Hi'. unfold select_node, gbind in *. destruct (resolve node v) as [o|e]; [|done].
  cbn in *. destruct (decide (o = selected_node v)); [done|].
  assert (node_drag_state (select o v) = Some d /\ network (select o v) = network v /\
    has_node (sc (select o v)) (motion_signal d)) as (E1 & E2 & E3).
  { unfold select. destruct (selected_node v), o; case_decide; split_and!; try done; cbn [sc set_nodes_of_interest];
      repeat first [done|apply set_selected_node]. }
  split; [done|done|done|by rewrite E2].
Qed.

Lemma dragging_set_mobility d i pos v : dragging d v -> inv (set_mobility i pos v) -> dragging d (set_mobility i pos v).
Proof.
  intros [] Hi. split; [done..|]. cbn [network set_mobility set_network]. rewrite mobility_alter. by case_decide.
Qed.

Section drag.
Variable math_log : Q -> Q.
Variable math_atan2 : Q -> Q -> Q.
Variable LineClipping : point -> point -> point -> point -> point * point.
Notation do_op := (do_op math_log math_atan2 LineClipping).
Notation run_ops := (run_ops math_log math_atan2 LineClipping).

(** A drag goes on until its button is released. *)
Lemma dragging_do_op d o : o <> NodeRelease 2 -> preserves (dragging d) (do_op o).
Proof.
  intros Ho v Hd. pose proof (inv_do_op math_log math_atan2 LineClipping o v (dragging_inv d v Hd)) as Hi. revert Hi.
  destruct o as [o|node|mode|value|value|value|ts ds|win|button i pointer|button|pointer|button|i pos].
  - intros Hi. assert (do_op (Scene o) v = (v, Ok tt) \/
      do_op (Scene o) v = (on_sc (fun s => VizScene.do_op s o) v, Ok tt)) as [E|E]
      by (destruct o; (by left) || by right); rewrite E in *; [done|].
    apply dragging_on_sc; [|done|done]. intros j. apply do_op_node.
  - destruct node as [id|z|i| |]; try by apply dragging_select.
    cbn. unfold gbind, mget. destruct (is_node i v); [|done]. by apply dragging_select.
  - intros Hi. by destruct Hd.
  - intros Hi. cbn in *. destruct (in_bounds _ _ value); [|done]. by destruct Hd.
  - intros _. cbn. destruct (in_bounds _ _ value); [|done]. apply (preserves_bind (dragging d)); [| |done].
    + apply preserves_set. intros w []. split; [|done..]. apply inv_settings; [by apply inv_period|done].
    + intros _. follow. apply dragging_on_sc; [|apply inv_on_sc; [|by destruct H]|done].
      * intros j. apply (do_op_node _ (SetSize x value)).
      * intros s' Hs'. by apply (scene_ok_op _ _ s' (SetSize x value)).
  - intros Hi. cbn in *. destruct (in_bounds _ _ value); [|done]. by destruct Hd.
  - intros Hi. by destruct Hd.
  - intros _. by apply dragging_update_view.
  - cbn. unfold gbind, mget. destruct (is_node i v); [|done].
    unfold on_node_button_press_event. destruct (decide _); [|destruct (decide _)]; [by apply dragging_select| |done].
    intros Hi. cbn in *. unfold begin_node_drag in *. destruct (mobility_of (network v) i); [|done].
    by rewrite (dragging_state d v Hd) in *.
  - intros Hi. cbn in *. unfold on_node_button_release_event. rewrite decide_False by congruence. done.
  - cbn. rewrite (dragging_state d v Hd). unfold node_drag_motion. rewrite (dragging_state d v Hd).
    destruct (mobility_of (network v) (motion_signal d)) eqn:Em; [|done]. intros Hi.
    apply dragging_on_sc; [|done|].
    + intros j. apply set_position_node.
    + apply dragging_set_mobility; [done|]. apply inv_set_mobility; [congruence|]. apply Hd.
  - cbn. unfold on_root_button_press_event. destruct (decide _); [by apply dragging_select|done].
  - cbn. destruct (mobility_of (network v) i) eqn:E; [|done]. by apply dragging_set_mobility.
Qed.

Lemma run_ops_app ops ops' v : run_ops (ops ++ ops') v = run_ops ops' (run_ops ops v).
Proof. apply foldl_app. Qed.

(** C36 - A node that is dragged keeps its place relative to the pointer.  Whatever happens
    between the press and a motion of the pointer other than the release of the button,
    the views, the simulator moving the node and other presses included, after the
    motion the simulated node is as far from where the drag began as the pointer is, in
    metres, and the node of the canvas is at the place of the simulated one. *)
Theorem drag_follows_pointer net ops v i start p0 ops' p :
  v = run_ops ops (viewer_init net) ->
  node_drag_state v = None -> is_node i v = true -> mobility_of (network v) i = Some start ->
  NodeRelease 2 ∉ ops' ->
  let v' := run_ops (NodePress 2 i p0 :: ops' ++ [NodeMotion p]) v in
  exists pos, mobility_of (network v') i = Some pos /\
    VizScene.get_position (sc v') (NodeEnd i) = Some (transform_point_simulation_to_canvas pos) /\
    (pos.1 - start.1 == transform_distance_canvas_to_simulation (p.1 - p0.1))%Q /\
    (pos.2 - start.2 == transform_distance_canvas_to_simulation (p.2 - p0.2))%Q /\
    let at_ := transform_point_simulation_to_canvas pos in
    let at0 := transform_point_simulation_to_canvas start in
    (at_.1 - p.1 == at0.1 - p0.1)%Q /\ (at_.2 - p.2 == at0.2 - p0.2)%Q.
Proof.
  intros Ev Hdrag Hi Hm Hops v'. assert (inv v) as Hv by (rewrite Ev; apply inv_run_ops, viewer_inv_init). clear Ev.
  set (d := {| canvas_0 := p0; sim_0 := start; motion_signal := i |}).
  assert (dragging d (run_ops (NodePress 2 i p0 :: ops') v)) as Hd.
  { change (run_ops (NodePress 2 i p0 :: ops') v) with (run_ops ops' (fst (do_op (NodePress 2 i p0) v))).
    assert (fst (do_op (NodePress 2 i p0) v) = set_drag (Some d) v) as ->.
    { assert (begin_node_drag i p0 v = set_drag (Some d) v) as E by (unfold begin_node_drag; by rewrite Hm, Hdrag).
      unfold VizView.do_op, gbind, mget. rewrite Hi. exact E. }
    assert (dragging d (set_drag (Some d) v)) as H.
    { split; [by destruct Hv|done| |cbn; congruence]. by apply has_node_flags, is_node_flags. }
    revert H. generalize (set_drag (Some d) v). induction ops' as [|o ops' IH]; intros w Hw; [done|].
    apply IH; [by intros ?; apply Hops; right|]. apply dragging_do_op; [|done]. intros ->. apply Hops. by left. }
  subst v'. rewrite app_comm_cons, run_ops_app. generalize dependent (run_ops (NodePress 2 i p0 :: ops') v).
  intros w [_ Es Hn Hmw]. cbn [VizView.run_ops foldl VizView.do_op fst mset]. rewrite Es. unfold node_drag_motion.
  cbn [motion_signal d] in *. destruct (mobility_of (network w) i) as [q|] eqn:Eq; [|done]. rewrite Es.
  cbn [canvas_0 sim_0 d]. set (pos := (_, _)).
  exists pos. split_and!.
  - cbn [network on_sc set_sc set_mobility set_network]. rewrite mobility_alter, decide_True; [done|]. split; [done|].
    unfold mobility_of in Eq. destruct (network w !! N.to_nat i) eqn:El; [|done]. by eapply lookup_lt_Some.
  - cbn [sc on_sc set_sc set_mobility set_network]. rewrite set_position_position, decide_True by done.
    destruct Hn as [q' Hq']. by rewrite Hq'.
  - subst pos. cbn [fst]. ring.
  - subst pos. cbn [snd]. ring.
  - subst pos. unfold transform_point_simulation_to_canvas, transform_distance_canvas_to_simulation, PIXELS_PER_METER.
    cbn [fst snd]. field.
  - subst pos. unfold transform_point_simulation_to_canvas, transform_distance_canvas_to_simulation, PIXELS_PER_METER.
    cbn [fst snd]. field.
Qed.

End drag.

(** ** Examples *)

Section demo.

Let still (pos : point) : ns3_node := {| mobility := Some pos; devices := [] |}.
Let clip (_ _ a b : point) : point * point := (a, b).
Let flat (_ _ : Q) : Q := 0.
Let line (x : Q) : Q := x.
Let same (p : point) : point := p.

(** Two nodes, packets from the first to the second, and a drop. *)
Definition demo_ops : list op :=
  [Scene (GetNode 0); Scene (GetNode 1);
   PeriodicUpdate [{| transmitter := 0; receiver := 1; bytes := 100 |}; {| transmitter := 0; receiver := 1; bytes := 300 |}]
     [{| drop_transmitter := 1; drop_bytes := 50 |}]].

Definition demo_viewer (ops : list op) : viewer := run_ops line flat clip ops (viewer_init [still (1, 2)%Q; still (3, 4)%Q]).

Lemma update_view_spec_witness :
  exists v', update_view line flat clip same (0, 100)%Q (0, 100)%Q false (demo_viewer demo_ops) = (v', Ok tt) /\
    VizScene.get_position (sc v') (NodeEnd 1) = Some (9, 12)%Q /\ length (_transmission_arrows v') = 1.
Proof.
  destruct (update_view_spec line flat clip same (0, 100)%Q (0, 100)%Q false
    [still (1, 2)%Q; still (3, 4)%Q] demo_ops (demo_viewer demo_ops) eq_refl)
    as (v' & E & Hpos & (keys & used & hidden & Ep & _ & Elen & _ & Hkeys & _) & _).
  - vm_compute. repeat constructor.
  - vm_compute. repeat constructor.
  - exists v'. split; [exact E|]. split.
    + rewrite (Hpos 1%N); [reflexivity|]. vm_compute. eexists. reflexivity.
    + assert (snd (update_view line flat clip same (0, 100)%Q (0, 100)%Q false (demo_viewer demo_ops)) = Ok tt /\
        length (_transmission_arrows (fst (update_view line flat clip same (0, 100)%Q (0, 100)%Q false (demo_viewer demo_ops)))) = 1)
        as [_ H] by (vm_compute; split; reflexivity).
      rewrite E in H. exact H.
Defined.

(** The second node is dragged while the simulator moves it and views are made. *)
Lemma drag_follows_pointer_witness :
  let ops' := [NodeMotion (30, 0)%Q; Moved 1 (0, 0)%Q;
    UpdateView {| win_hadj := (0, 100)%Q; win_vadj := (0, 100)%Q; win_convert := same; win_raises := false |}] in
  exists pos,
    mobility_of (network (run_ops line flat clip (NodePress 2 1 (9, 12)%Q :: ops' ++ [NodeMotion (12, 18)%Q])
      (demo_viewer demo_ops))) 1 = Some pos /\
    (pos.1 - 3 == 1)%Q.
Proof.
  intros ops'.
  destruct (drag_follows_pointer line flat clip [still (1, 2)%Q; still (3, 4)%Q] demo_ops (demo_viewer demo_ops)
    1 (3, 4)%Q (9, 12)%Q ops' (12, 18)%Q eq_refl) as (pos & E & _ & Hx & _).
  - reflexivity.
  - vm_compute. reflexivity.
  - reflexivity.
  - subst ops'. intros H. rewrite !elem_of_cons, elem_of_nil in H.
    destruct H as [H|[H|[H|H]]]; [discriminate H|discriminate H|discriminate H|exact H].
  - exists pos. split; [exact E|]. cbn [fst] in Hx. rewrite Hx. reflexivity.
Defined.

(** A transmission of no bytes makes the view raise half-way, and the arrows taken before
    stay on the canvas, in no list, when there are no transmissions any more. *)
Example arrows_left :
  let win := {| win_hadj := (0, 100)%Q; win_vadj := (0, 100)%Q; win_convert := same; win_raises := false |} in
  let v := demo_viewer (demo_ops ++
    [PeriodicUpdate [{| transmitter := 1; receiver := 0; bytes := 0 |}] []; UpdateView win] ++
    replicate 5 (PeriodicUpdate [] []) ++ [UpdateView win]) in
  concat (_last_transmissions v) = [] /\ _transmission_arrows v = [] /\ arrow_visible <$> arrows v = [true; true].
Proof. vm_compute. done. Qed.

End demo.
