(* ===== verification/VizWifi.v ===== *)
(** * [visualizer/plugins/wifi_intrastructure_link.py]: stations and access points

    [WifiLink] and [WifiLinkMonitor]: the links from the stations to the access points
    they are associated with.  A link is its place in the list of the links that have been
    created; the items of the canvas are the properties set on them.  The devices of the
    simulated network and the positions of the nodes are parameters. *)

From Stdlib Require Import QArith.
From S2P Require Import Prelude StateM VizScene.

(** ** The state *)

(** The visibility of the canvas item, when it has been set, and the points of the lines. *)
Record wifi_link := {
  node1 : option N; dev : N; node2 : option N;
  visibility : option bool; line_points : option (point * point); destroyed : bool
}.

(** The links, the links of each node, and the attributes of the monitor: the access
    points by their BSSID, and the stations. *)
Record monitor := {
  wifi_links : list wifi_link;
  node_links : gmap N (list nat);
  access_points : gmap pystr N;
  stations : list (N * N * nat)
}.

Definition set_wifi_links (f : list wifi_link -> list wifi_link) (s : monitor) : monitor :=
  {| wifi_links := f (wifi_links s); node_links := node_links s; access_points := access_points s; stations := stations s |}.
Definition set_node_links (f : gmap N (list nat) -> gmap N (list nat)) (s : monitor) : monitor :=
  {| wifi_links := wifi_links s; node_links := f (node_links s); access_points := access_points s; stations := stations s |}.
Definition set_access_points (f : gmap pystr N -> gmap pystr N) (s : monitor) : monitor :=
  {| wifi_links := wifi_links s; node_links := node_links s; access_points := f (access_points s); stations := stations s |}.
Definition set_stations (f : list (N * N * nat) -> list (N * N * nat)) (s : monitor) : monitor :=
  {| wifi_links := wifi_links s; node_links := node_links s; access_points := access_points s; stations := f (stations s) |}.

Definition with_ap (ap : option N) (w : wifi_link) : wifi_link :=
  {| node1 := node1 w; dev := dev w; node2 := ap; visibility := visibility w; line_points := line_points w; destroyed := destroyed w |}.
Definition with_visibility (v : bool) (w : wifi_link) : wifi_link :=
  {| node1 := node1 w; dev := dev w; node2 := node2 w; visibility := Some v; line_points := line_points w; destroyed := destroyed w |}.
Definition with_points (p : point * point) (w : wifi_link) : wifi_link :=
  {| node1 := node1 w; dev := dev w; node2 := node2 w; visibility := visibility w; line_points := Some p; destroyed := destroyed w |}.
Definition destroy_link (w : wifi_link) : wifi_link :=
  {| node1 := None; dev := dev w; node2 := None; visibility := visibility w; line_points := line_points w; destroyed := true |}.

Definition on_link (l : nat) (f : wifi_link -> wifi_link) : stM monitor () := mset (set_wifi_links (alter f l)).

Definition links_at (s : monitor) (n : N) : list nat := default [] (node_links s !! n).

(** [l.remove(x)]: None for ValueError. *)
Fixpoint list_remove (x : nat) (l : list nat) : option (list nat) :=
  match l with
  | [] => None
  | y :: l => if decide (y = x) then Some l else cons y <$> list_remove x l
  end.

(** The BSSID of the address of an access point, or the other kinds of device. *)
Inductive device := OtherDevice | StaDevice | ApDevice (bssid : pystr).

Section monitor.
Context (get_position : N -> point).

(** ** [WifiLink] *)

Definition remove_link (n : N) (l : nat) : stM monitor () :=
  do! ls := mget (fun s => links_at s n) in
  do! ls := mlift (or_raise ValueError (list_remove l ls)) in
  mset (set_node_links <[n := ls]>).

Definition add_link (n : N) (l : nat) : stM monitor () :=
  mset (fun s => set_node_links <[n := links_at s n ++ [l]]> s).

Definition update_points (l : nat) : stM monitor () :=
  do! w := mattr (fun s => wifi_links s !! l) in
  match node2 w with
  | None => mret tt
  | Some n2 =>
      do! n1 := mlift (or_raise AttributeError (node1 w)) in
      on_link l (with_points (get_position n1, get_position n2))
  end.

Definition set_ap (l : nat) (ap : option N) : stM monitor () :=
  do! w := mattr (fun s => wifi_links s !! l) in
  if decide (ap = node2 w) then mret tt
  else
    (match node2 w with Some n => remove_link n l | None => mret tt end) >>>
    on_link l (with_ap ap) >>>
    (match ap with
     | None => on_link l (with_visibility false)
     | Some n => add_link n l >>> on_link l (with_visibility true)
     end) >>>
    update_points l.

Definition WifiLink_init (sta d : N) : stM monitor nat :=
  do! l := mget (fun s => length (wifi_links s)) in
  mset (set_wifi_links (fun ls => ls ++
    [{| node1 := Some sta; dev := d; node2 := None; visibility := None; line_points := None; destroyed := false |}])) >>>
  set_ap l None >>>
  mret l.

Definition destroy (l : nat) : stM monitor () := on_link l destroy_link.

(** ** [WifiLinkMonitor] *)

Definition monitor_init : monitor := {| wifi_links := []; node_links := ∅; access_points := ∅; stations := [] |}.

Definition scan_device (n : N) (d : N * device) : stM monitor () :=
  match d.2 with
  | OtherDevice => mret tt
  | StaDevice => do! l := WifiLink_init n d.1 in mset (set_stations (fun st => st ++ [(d.1, n, l)]))
  | ApDevice bssid => mset (set_access_points <[bssid := n]>)
  end.

Definition scan_nodes (nodes : list (N * list (N * device))) : stM monitor () :=
  do! st := mget stations in
  mfor (fun x : N * N * nat => destroy x.2) st >>>
  mset (set_access_points (fun _ => ∅)) >>>
  mset (set_stations (fun _ => [])) >>>
  mfor (fun nd : N * list (N * device) => mfor (scan_device nd.1) nd.2) nodes.

Definition NO_BSSID : pystr := $"00:00:00:00:00:00".

Section update.
Context (is_link_up : N -> bool) (get_bssid : N -> pystr).

Definition update_station (x : N * N * nat) : stM monitor () :=
  let '(d, _, l) := x in
  if negb (is_link_up d) then set_ap l None
  else if decide (get_bssid d = NO_BSSID) then set_ap l None
  else
    do! aps := mget access_points in
    do! ap := mlift (or_raise KeyError (aps !! get_bssid d)) in
    set_ap l (Some ap).

Definition simulation_periodic_update : stM monitor () :=
  do! st := mget stations in
  mfor update_station st.

End update.

Definition update_view : stM monitor () :=
  do! st := mget stations in
  mfor (fun x : N * N * nat => update_points x.2) st.

(** ** The links and the nodes *)

(** A live link is in the links of its access point, once, and in those of no other node;
    the nodes have only links that exist. *)
Definition wired (s : monitor) (l : nat) (w : wifi_link) : Prop :=
  is_Some (node1 w) /\ forall n, filter (fun x => x = l) (links_at s n) = if decide (node2 w = Some n) then [l] else [].

Record wifi_inv (s : monitor) : Prop := {
  inv_wired : forall l w, wifi_links s !! l = Some w -> destroyed w = false -> wired s l w;
  inv_range : forall n l, l ∈ links_at s n -> l < length (wifi_links s);
  inv_stations : forall d n l, (d, n, l) ∈ stations s -> exists w, wifi_links s !! l = Some w /\ destroyed w = false;
  inv_distinct : NoDup (stations s).*2
}.

(** What an operation on one link leaves as it was. *)
Record only_link (l : nat) (s s' : monitor) : Prop := {
  only_others : forall l', l' <> l -> wifi_links s' !! l' = wifi_links s !! l';
  only_aps : access_points s' = access_points s;
  only_stations : stations s' = stations s
}.

Lemma links_at_insert s n ls n' : links_at (set_node_links <[n := ls]> s) n' = if decide (n = n') then ls else links_at s n'.
Proof.
  unfold links_at. cbn. destruct (decide (n = n')) as [->|Hne]; [by rewrite lookup_insert_eq|by rewrite lookup_insert_ne].
Qed.

Lemma list_remove_filter l ls ls' : list_remove l ls = Some ls' ->
  filter (fun x => x = l) ls = l :: filter (fun x => x = l) ls' /\
  forall l', l' <> l -> filter (fun x => x = l') ls' = filter (fun x => x = l') ls.
Proof.
  revert ls'. induction ls as [|x ls IH]; intros ls' E; [done|]. cbn in E. case_decide as Hx.
  - injection E as <-. subst x. split; [by rewrite filter_cons, decide_True|].
    intros l' Hne. by rewrite filter_cons, decide_False.
  - destruct (list_remove l ls) as [ls0|] eqn:E0; [|done]. injection E as <-. destruct (IH ls0 eq_refl) as [H1 H2]. split.
    + rewrite !filter_cons, !decide_False by done. apply H1.
    + intros l' Hne. rewrite !filter_cons. case_decide; [f_equal|]; by apply H2.
Qed.

Lemma list_remove_some l (ls : list nat) : l ∈ ls -> exists ls', list_remove l ls = Some ls'.
Proof.
  induction ls as [|x ls IH]; intros H; [by apply not_elem_of_nil in H|]. cbn. case_decide; [by eexists|].
  destruct IH as [ls' ->]; [set_solver|by eexists].
Qed.

(** The same state but for the links of the nodes, where [f] gives how often [l] occurs. *)
Record relinked (l : nat) (f : N -> list nat) (s s' : monitor) : Prop := {
  relinked_aps : access_points s' = access_points s;
  relinked_stations : stations s' = stations s;
  relinked_l : forall n, filter (fun x => x = l) (links_at s' n) = f n;
  relinked_others : forall l' n, l' <> l -> filter (fun x => x = l') (links_at s' n) = filter (fun x => x = l') (links_at s n)
}.

Lemma detach s l w : wired s l w ->
  exists s1, match node2 w with Some n => remove_link n l | None => mret tt end s = (s1, Ok tt) /\
    wifi_links s1 = wifi_links s /\ relinked l (fun _ => []) s s1.
Proof.
  intros [_ Hw]. destruct (node2 w) as [n|].
  - pose proof (Hw n) as Hn. rewrite decide_True in Hn by done.
    destruct (list_remove_some l (links_at s n)) as [ls' E].
    { assert (l ∈ filter (fun x => x = l) (links_at s n)) as [_ H]%list_elem_of_filter by (rewrite Hn; left). done. }
    destruct (list_remove_filter _ _ _ E) as [H1 H2].
    unfold remove_link, gbind, mget, mlift, mset. rewrite E. cbn [or_raise]. eexists. split; [reflexivity|]. split; [done|].
    split; [done|done| |]; intros *.
    + rewrite links_at_insert. case_decide as Hd; [|by rewrite Hw, decide_False by congruence].
      rewrite Hn in H1. by injection H1 as <-.
    + intros Hne. rewrite links_at_insert. case_decide as Hd; [|done]. subst. by apply H2.
  - exists s. split; [done|]. split; [done|]. by split.
Qed.

Lemma add_link_spec s l n : (forall n, filter (fun x => x = l) (links_at s n) = []) ->
  exists s1, add_link n l s = (s1, Ok tt) /\ wifi_links s1 = wifi_links s /\
    relinked l (fun n' => if decide (Some n = Some n') then [l] else []) s s1.
Proof.
  intros Hw. eexists. split; [reflexivity|]. split; [done|]. split; [done|done| |]; intros *.
  - rewrite links_at_insert. case_decide as Hd.
    + subst. by rewrite filter_app, Hw, decide_True, filter_cons, decide_True by done.
    + by rewrite Hw, decide_False by congruence.
  - intros Hne. rewrite links_at_insert. case_decide as Hd; [|done]. subst.
    rewrite filter_app, filter_cons, decide_False by congruence. apply app_nil_r.
Qed.

Lemma alter_lookup {A} (f : A -> A) (l : list A) (i : nat) x : l !! i = Some x -> alter f i l = <[i := f x]> l.
Proof.
  intros H. apply list_eq. intros j. destruct (decide (i = j)) as [->|Hne].
  - rewrite list_lookup_alter_eq, H, list_lookup_insert_eq by (by apply lookup_lt_Some in H). done.
  - by rewrite list_lookup_alter_ne, list_lookup_insert_ne.
Qed.

(** Only the entry of a link is changed, to [w]. *)
Definition relink (l : nat) (w : wifi_link) (s : monitor) : monitor := set_wifi_links <[l := w]> s.

Lemma on_link_relink s l w f : wifi_links s !! l = Some w -> on_link l f s = (relink l (f w) s, Ok tt).
Proof. intros H. unfold on_link, mset, relink, set_wifi_links. by rewrite (alter_lookup f _ l w H). Qed.

Lemma relink_id s l w : wifi_links s !! l = Some w -> relink l w s = s.
Proof. intros H. unfold relink, set_wifi_links. rewrite list_insert_id by done. by destruct s. Qed.

Lemma update_points_relink s l w : wifi_links s !! l = Some w -> is_Some (node1 w) ->
  exists w', update_points l s = (relink l w' s, Ok tt) /\ node1 w' = node1 w /\ node2 w' = node2 w /\ destroyed w' = destroyed w.
Proof.
  intros H [n1 Hn]. unfold update_points, gbind, mattr. rewrite H. cbn [or_raise]. destruct (node2 w) as [n2|] eqn:E2.
  - rewrite Hn. cbn [mlift or_raise]. exists (with_points (get_position n1, get_position n2) w).
    unfold mlift. by rewrite (on_link_relink s l w) by done.
  - exists w. split; [|done]. unfold mret. by rewrite relink_id.
Qed.

(** Changing a live link, and how often the nodes have it, consistently. *)
Lemma inv_relink s s' l w w' f :
  wifi_inv s -> wifi_links s !! l = Some w -> destroyed w = false ->
  wifi_links s' = <[l := w']> (wifi_links s) -> relinked l f s s' ->
  is_Some (node1 w') -> destroyed w' = false -> (forall n, f n = if decide (node2 w' = Some n) then [l] else []) ->
  wifi_inv s'.
Proof.
  intros Hinv Hl Hd Hs' [Ha Hst Hf Ho] Hn1 Hd' Hfn. pose proof (lookup_lt_Some _ _ _ Hl) as Hlt. split.
  - intros l' u Hu Hdu. destruct (decide (l' = l)) as [->|Hne].
    + rewrite Hs', list_lookup_insert_eq in Hu by done. injection Hu as <-. split; [done|]. intros n. by rewrite Hf.
    + rewrite Hs', list_lookup_insert_ne in Hu by done. destruct (inv_wired _ Hinv l' u Hu Hdu) as [H1 H2].
      split; [done|]. intros n. by rewrite Ho.
  - intros n l' Hin. rewrite Hs', length_insert. destruct (decide (l' = l)) as [->|Hne]; [done|].
    apply (inv_range _ Hinv n). assert (l' ∈ filter (fun x => x = l') (links_at s' n)) as H by by apply list_elem_of_filter.
    rewrite Ho in H by done. by apply list_elem_of_filter in H as [_ H].
  - intros d n l' Hin. rewrite Hst in Hin. rewrite Hs'. destruct (decide (l' = l)) as [->|Hne].
    + exists w'. by rewrite list_lookup_insert_eq.
    + rewrite list_lookup_insert_ne by done. by apply (inv_stations _ Hinv d n l').
  - rewrite Hst. apply Hinv.
Qed.

Lemma set_ap_spec s l w ap :
  wifi_inv s -> wifi_links s !! l = Some w -> destroyed w = false ->
  exists s' w', set_ap l ap s = (s', Ok tt) /\ wifi_inv s' /\ only_link l s s' /\ wifi_links s' !! l = Some w' /\
    node2 w' = ap /\ node1 w' = node1 w /\ destroyed w' = false.
Proof.
  intros Hinv Hl Hd. pose proof (inv_wired _ Hinv l w Hl Hd) as Hwired.
  unfold set_ap. unfold gbind at 1, mattr. rewrite Hl. cbn [or_raise].
  destruct (decide (ap = node2 w)) as [E|Hne].
  - exists s, w. split; [done|]. split; [done|]. by split; [split|].
  - destruct (detach s l w Hwired) as (s1 & E1 & W1 & R1). unfold gbind at 1. rewrite E1.
    unfold gbind at 1. rewrite (on_link_relink s1 l w) by by rewrite W1.
    destruct R1 as [Ra1 Rs1 Rl1 Ro1]. set (w2 := with_ap ap w). set (s2 := relink l w2 s1).
    assert (wifi_links s2 !! l = Some w2) as L2.
    { unfold s2. cbn. rewrite W1, list_lookup_insert_eq by (by apply lookup_lt_Some in Hl). done. }
    assert (exists s3 w3, (match ap with None => on_link l (with_visibility false) | Some n => add_link n l >>> on_link l (with_visibility true) end) s2 = (s3, Ok tt) /\
      wifi_links s3 = <[l := w3]> (wifi_links s) /\ node1 w3 = node1 w /\ node2 w3 = ap /\ destroyed w3 = false /\
      relinked l (fun n => if decide (ap = Some n) then [l] else []) s s3) as (s3 & w3 & E3 & W3 & N1 & N2 & D3 & R3).
    { destruct ap as [n|].
      - destruct (add_link_spec s2 l n Rl1) as (s3 & E3 & W3 & [Ra3 Rs3 Rl3 Ro3]).
        exists (relink l (with_visibility true w2) s3), (with_visibility true w2). unfold gbind. rewrite E3.
        rewrite (on_link_relink s3 l w2) by by rewrite W3. split; [done|]. split.
        { cbn. rewrite W3. unfold s2. cbn. rewrite W1. apply list_insert_insert_eq. }
        split_and!; try done. split; [by rewrite <- Ra1|by rewrite <- Rs1|exact Rl3|].
        intros l' n' Hl'. exact (eq_trans (Ro3 l' n' Hl') (Ro1 l' n' Hl')).
      - exists (relink l (with_visibility false w2) s2), (with_visibility false w2).
        rewrite (on_link_relink s2 l w2) by done. split; [done|]. split.
        { unfold s2. cbn. rewrite W1. apply list_insert_insert_eq. }
        split_and!; try done. }
    unfold gbind at 1. rewrite E3.
    pose proof (lookup_lt_Some _ _ _ Hl) as Hlt.
    assert (wifi_links s3 !! l = Some w3) as L3 by (by rewrite W3, list_lookup_insert_eq).
    destruct (update_points_relink s3 l w3 L3) as (w4 & E4 & M1 & M2 & D4); [rewrite N1; apply Hwired|].
    exists (relink l w4 s3), w4. split; [done|].
    assert (wifi_links (relink l w4 s3) = <[l := w4]> (wifi_links s)) as W4 by (cbn; rewrite W3; apply list_insert_insert_eq).
    destruct R3 as [Ra3 Rs3 Rl3 Ro3]. split.
    { apply (inv_relink s _ l w w4 (fun n => if decide (ap = Some n) then [l] else [])); try done;
        [rewrite M1, N1; apply Hwired|congruence|].
      intros n. by rewrite M2, N2. }
    split; [split; [|done|done]|].
    + intros l' Hne'. by rewrite W4, list_lookup_insert_ne.
    + rewrite W4, list_lookup_insert_eq by done. split; [done|]. split_and!; congruence.
Qed.

(** ** The periodic update *)

Section update_spec.
Context (is_link_up : N -> bool) (get_bssid : N -> pystr).

(** The access point of a station: none, one, or a BSSID that is not known. *)
Definition wanted (aps : gmap pystr N) (d : N) : option (option N) :=
  if negb (is_link_up d) then Some None
  else if decide (get_bssid d = NO_BSSID) then Some None
  else Some <$> aps !! get_bssid d.

Definition updated (s : monitor) (x : N * N * nat) : Prop :=
  exists w, wifi_links s !! x.2 = Some w /\ wanted (access_points s) x.1.1 = Some (node2 w).

Lemma update_station_spec s d n l w : wifi_inv s -> wifi_links s !! l = Some w -> destroyed w = false ->
  match wanted (access_points s) d with
  | Some ap => exists s', update_station is_link_up get_bssid (d, n, l) s = (s', Ok tt) /\ wifi_inv s' /\ only_link l s s' /\
      exists w', wifi_links s' !! l = Some w' /\ node2 w' = ap
  | None => update_station is_link_up get_bssid (d, n, l) s = (s, Err KeyError)
  end.
Proof.
  intros Hinv Hl Hd. unfold update_station, wanted.
  assert (forall ap, exists s', set_ap l ap s = (s', Ok tt) /\ wifi_inv s' /\ only_link l s s' /\
    exists w', wifi_links s' !! l = Some w' /\ node2 w' = ap) as Hset.
  { intros ap. destruct (set_ap_spec s l w ap Hinv Hl Hd) as (s' & w' & H1 & H2 & H3 & H4 & H5 & _). exists s'. split_and!; try done. by exists w'. }
  destruct (negb (is_link_up d)); [apply Hset|]. case_decide; [apply Hset|].
  unfold gbind, mget, mlift. destruct (access_points s !! get_bssid d) as [ap|]; cbn; [apply Hset|done].
Qed.

Definition stations_updated (s s' : monitor) (st : list (N * N * nat)) (r : py ()) : Prop :=
  match r with
  | Ok _ => forall x, x ∈ st -> updated s' x
  | Err e => e = KeyError /\ exists st1 x st2, st = st1 ++ x :: st2 /\ wanted (access_points s') x.1.1 = None /\
      (forall y, y ∈ st1 -> updated s' y) /\ (forall y, y ∈ x :: st2 -> wifi_links s' !! y.2 = wifi_links s !! y.2)
  end.

Lemma update_stations_spec st s :
  wifi_inv s -> NoDup st.*2 -> (forall x, x ∈ st -> exists w, wifi_links s !! x.2 = Some w /\ destroyed w = false) ->
  exists s' r, mfor (update_station is_link_up get_bssid) st s = (s', r) /\ wifi_inv s' /\
    access_points s' = access_points s /\ stations s' = stations s /\
    (forall l, l ∉ st.*2 -> wifi_links s' !! l = wifi_links s !! l) /\ stations_updated s s' st r.
Proof.
  revert s. induction st as [|[[d n] l] st IH]; intros s Hinv Hnd Hlive; cbn [mfor].
  { exists s, (Ok tt). split; [done|]. split_and!; try done. by intros x ?%not_elem_of_nil. }
  cbn [fmap list_fmap] in Hnd. apply NoDup_cons in Hnd as [Hl Hnd]. cbn [snd] in Hl.
  destruct (Hlive (d, n, l) ltac:(left)) as (w & Hw & Hd). cbn [snd] in Hw.
  pose proof (update_station_spec s d n l w Hinv Hw Hd) as Hstep. destruct (wanted (access_points s) d) as [ap|] eqn:Ew.
  - destruct Hstep as (s1 & E1 & Hinv1 & [Ho Ha Hs] & w1 & Hw1 & Hap).
    destruct (IH s1 Hinv1 Hnd) as (s' & r & E & Hinv' & Ha' & Hs' & Hout & Hr).
    { intros x Hx. assert (x.2 ∈ st.*2) as Hx2 by by apply list_elem_of_fmap_2.
      rewrite Ho by (intros E; by rewrite E in Hx2). apply Hlive. by right. }
    unfold gbind at 1. rewrite E1. exists s', r. split; [done|]. split; [done|]. split; [congruence|]. split; [congruence|].
    assert (updated s' (d, n, l)) as Hup.
    { exists w1. cbn [fst snd]. rewrite Hout, Ha', Ha by done. split; [done|]. by rewrite Ew, Hap. }
    split.
    { intros l'. cbn [fmap list_fmap]. intros [Hne Hl']%not_elem_of_cons. cbn [snd] in Hne. rewrite Hout by done. by apply Ho. }
    destruct r as [[]|e].
    + intros x [->|Hx]%list.elem_of_cons; [done|by apply Hr].
    + destruct Hr as (-> & st1 & x & st2 & -> & Hx & H1 & H2). split; [done|].
      exists ((d, n, l) :: st1), x, st2. split; [done|]. split; [done|]. split.
      * intros y [->|Hy]%list.elem_of_cons; [done|by apply H1].
      * intros y Hy. rewrite H2 by done. apply Ho. intros E2. apply Hl.
        rewrite <- E2, fmap_app. apply elem_of_app. right. by apply (list_elem_of_fmap_2 snd (x :: st2)).
  - unfold gbind. rewrite Hstep. exists s, (Err KeyError). split; [done|]. split_and!; try done.
    split; [done|]. exists [], (d, n, l), st. split_and!; try done. by intros y ?%not_elem_of_nil.
Qed.

(** C28 - After an update each station that is associated has a link to its access point, in
    the links of that node and of no other, and the others have none.  A station with the
    BSSID of no access point stops the update with KeyError: the stations before it have
    been updated, and it and those after it are as before. *)
Theorem simulation_periodic_update_spec s :
  wifi_inv s ->
  exists s' r, simulation_periodic_update is_link_up get_bssid s = (s', r) /\ wifi_inv s' /\
    stations s' = stations s /\ access_points s' = access_points s /\ stations_updated s s' (stations s) r.
Proof.
  intros Hinv. destruct (update_stations_spec (stations s) s Hinv) as (s' & r & E & H1 & H2 & H3 & _ & H5).
  - apply Hinv.
  - intros [[d n] l] Hx. by apply (inv_stations _ Hinv d n l).
  - exists s', r. unfold simulation_periodic_update, gbind, mget. rewrite E. done.
Qed.

End update_spec.

(** ** The scan of the nodes *)

Definition devices (nodes : list (N * list (N * device))) : list (N * (N * device)) :=
  mjoin ((fun nd => pair nd.1 <$> nd.2) <$> nodes).

Definition station_of (x : N * (N * device)) : option (N * N) :=
  match x.2.2 with StaDevice => Some (x.2.1, x.1) | _ => None end.

Definition add_ap (aps : gmap pystr N) (x : N * (N * device)) : gmap pystr N :=
  match x.2.2 with ApDevice bssid => <[bssid := x.1]> aps | _ => aps end.

Lemma mfor_nested {A B S} (f : A -> B -> stM S ()) (nodes : list (A * list B)) s :
  mfor (fun nd : A * list B => mfor (f nd.1) nd.2) nodes s =
  mfor (fun x => f x.1 x.2) (mjoin ((fun nd => pair nd.1 <$> nd.2) <$> nodes)) s.
Proof.
  revert s. induction nodes as [|[a bs] nodes IH]; intros s; [done|]. cbn [mfor fmap list_fmap mjoin list_join fst snd].
  revert s. induction bs as [|b bs IHb]; intros s; cbn [mfor fmap list_fmap app].
  - unfold gbind at 1, mret at 1. apply IH.
  - rewrite gbind_assoc. unfold gbind at 1 3. cbn [fst snd]. destruct (f a b s) as [s' [u|e]]; [|done]. apply IHb.
Qed.

Lemma WifiLink_init_spec s n d : wifi_inv s ->
  exists s', WifiLink_init n d s = (s', Ok (length (wifi_links s))) /\ wifi_inv s' /\
    access_points s' = access_points s /\ stations s' = stations s /\ node_links s' = node_links s /\
    wifi_links s' = wifi_links s ++
      [{| node1 := Some n; dev := d; node2 := None; visibility := None; line_points := None; destroyed := false |}].
Proof.
  intros Hinv. unfold WifiLink_init, set_ap. unfold gbind, mget, mset, mattr, mret.
  cbn [wifi_links set_wifi_links]. rewrite list_lookup_middle by done. cbn [or_raise node2].
  rewrite decide_True by done. eexists. split; [reflexivity|]. split; [|done].
  assert (forall n', filter (fun x => x = length (wifi_links s)) (links_at s n') = []) as Hnew.
  { intros n'. apply elem_of_nil_inv. intros x [-> Hx]%list_elem_of_filter. apply (inv_range _ Hinv) in Hx. lia. }
  split; cbn [wifi_links set_wifi_links stations].
  - intros l w Hl Hd. apply lookup_app_Some in Hl as [Hl|[Hlen Hl]]; [by apply (inv_wired _ Hinv l w Hl Hd)|].
    destruct (l - length (wifi_links s)) as [|k] eqn:Ek; [|done]. injection Hl as <-.
    assert (l = length (wifi_links s)) as -> by lia. split; [by eexists|]. intros n'. rewrite decide_False by done. apply Hnew.
  - intros n' l Hl. rewrite length_app. apply (inv_range _ Hinv) in Hl. cbn. lia.
  - intros d' n' l Hl. destruct (inv_stations _ Hinv d' n' l Hl) as (w & Hw & Hd). exists w. split; [|done].
    by apply lookup_app_l_Some.
  - apply Hinv.
Qed.

Lemma scan_device_spec s x : wifi_inv s ->
  exists s', scan_device x.1 x.2 s = (s', Ok tt) /\ wifi_inv s' /\ node_links s' = node_links s /\
    access_points s' = add_ap (access_points s) x /\
    (stations s').*1 = (stations s).*1 ++ omap station_of [x] /\
    (forall y, y ∈ stations s' -> y ∈ stations s \/ exists w, wifi_links s' !! y.2 = Some w /\ node2 w = None) /\
    (forall l w, wifi_links s !! l = Some w -> wifi_links s' !! l = Some w).
Proof.
  intros Hinv. destruct x as [n [d k]]. unfold scan_device, add_ap, station_of. cbn [fst snd omap list_omap].
  destruct k as [| |bssid].
  - exists s. rewrite (right_id_L [] (++)). split_and!; try done. by left.
  - destruct (WifiLink_init_spec s n d Hinv) as (s1 & E & Hinv1 & Ha & Hs & Hn & Hl).
    unfold gbind. rewrite E. unfold mset. eexists. split; [reflexivity|].
    assert (length (wifi_links s) ∉ (stations s).*2) as Hnew.
    { intros ([[d' n'] l'] & El & Hin)%list_elem_of_fmap. cbn in El. subst l'.
      destruct (inv_stations _ Hinv d' n' _ Hin) as (w & Hw & _). apply lookup_lt_Some in Hw. lia. }
    split; [split|]; cbn [wifi_links node_links access_points stations set_stations].
    + intros l w Hlw Hd. by apply (inv_wired _ Hinv1 l w).
    + intros n' l Hin. by apply (inv_range _ Hinv1 n').
    + intros d' n' l [Hin|Hin]%elem_of_app; [by apply (inv_stations _ Hinv1 d' n')|].
      apply list_elem_of_singleton in Hin. injection Hin as -> -> ->. rewrite Hl, list_lookup_middle by done. by eexists.
    + rewrite Hs, fmap_app. apply NoDup_app. split; [apply Hinv|]. split; [|apply NoDup_singleton].
      intros l Hin Hin'. cbn in Hin'. apply list_elem_of_singleton in Hin'. by subst l.
    + split_and!; try done.
      * by rewrite Hs, fmap_app.
      * rewrite Hs. intros y [Hy|Hy]%elem_of_app; [by left|]. right. apply list_elem_of_singleton in Hy. subst y. cbn [snd].
        rewrite Hl, list_lookup_middle by done. by eexists.
      * intros l w Hlw. rewrite Hl. by apply lookup_app_l_Some.
  - eexists. split; [reflexivity|]. split; [by destruct Hinv; split|].
    cbn [node_links access_points stations wifi_links set_access_points]. rewrite (right_id_L [] (++)).
    split_and!; try done. by left.
Qed.

Lemma destroy_all st s :
  exists s', mfor (fun x : N * N * nat => destroy x.2) st s = (s', Ok tt) /\
    node_links s' = node_links s /\ length (wifi_links s') = length (wifi_links s) /\
    forall l, wifi_links s' !! l = if decide (l ∈ st.*2) then destroy_link <$> wifi_links s !! l else wifi_links s !! l.
Proof.
  revert s. induction st as [|[x l0] st IH]; intros s; cbn [mfor fmap list_fmap].
  - exists s. split_and!; try done.
  - destruct (IH (set_wifi_links (alter destroy_link l0) s)) as (s' & E & Hn & Hlen & Hl).
    exists s'. unfold gbind, destroy, on_link, mset. cbn [snd]. split; [exact E|]. split; [done|].
    cbn [wifi_links set_wifi_links] in Hlen, Hl. rewrite length_alter in Hlen. split; [done|]. intros l. rewrite Hl.
    destruct (decide (l = l0)) as [->|Hne].
    + rewrite list_lookup_alter_eq, (decide_True (P := l0 ∈ _ :: _)) by left.
      case_decide; destruct (wifi_links s !! l0); done.
    + rewrite list_lookup_alter_ne by done. destruct (decide (l ∈ st.*2)); [rewrite decide_True by (by right)|rewrite decide_False by (by apply not_elem_of_cons)]; done.
Qed.

Lemma scan_devices_spec ds s : wifi_inv s ->
  exists s', mfor (fun x => scan_device x.1 x.2) ds s = (s', Ok tt) /\ wifi_inv s' /\ node_links s' = node_links s /\
    access_points s' = foldl add_ap (access_points s) ds /\
    (stations s').*1 = (stations s).*1 ++ omap station_of ds /\
    (forall y, y ∈ stations s' -> y ∈ stations s \/ exists w, wifi_links s' !! y.2 = Some w /\ node2 w = None) /\
    (forall l w, wifi_links s !! l = Some w -> wifi_links s' !! l = Some w).
Proof.
  revert s. induction ds as [|x ds IH]; intros s Hinv; cbn [mfor foldl].
  - exists s. cbn [omap list_omap]. rewrite (right_id_L [] (++)). split_and!; try done. by left.
  - destruct (scan_device_spec s x Hinv) as (s1 & E1 & Hinv1 & Hn1 & Ha1 & Hs1 & Hy1 & Hl1).
    destruct (IH s1 Hinv1) as (s' & E & Hinv' & Hn & Ha & Hs & Hy & Hl). unfold gbind. rewrite E1.
    exists s'. split; [done|]. split; [done|]. split; [congruence|]. split; [by rewrite Ha, Ha1|]. split.
    { rewrite Hs, Hs1, <- (assoc_L (++)), <- omap_app. done. }
    split; [|auto]. intros y [Hin|Hw]%Hy; [|by right]. apply Hy1 in Hin as [Hin|(w & Hw & Hw2)]; [by left|].
    right. exists w. auto.
Qed.

(** A scan makes the stations and the access points of the devices there are, each
    station with a new link to no access point, and destroys the links there were.  The
    nodes keep those in their lists of links: they are not removed. *)
Theorem scan_nodes_spec s nodes :
  wifi_inv s ->
  exists s', scan_nodes nodes s = (s', Ok tt) /\ wifi_inv s' /\
    access_points s' = foldl add_ap ∅ (devices nodes) /\ (stations s').*1 = omap station_of (devices nodes) /\
    (forall y, y ∈ stations s' -> exists w, wifi_links s' !! y.2 = Some w /\ node2 w = None) /\
    (forall y, y ∈ stations s -> exists w, wifi_links s' !! y.2 = Some w /\ destroyed w = true) /\
    node_links s' = node_links s.
Proof.
  intros Hinv. unfold scan_nodes. unfold gbind at 1, mget.
  destruct (destroy_all (stations s) s) as (s1 & E1 & Hn1 & Hlen1 & Hl1). unfold gbind at 1. rewrite E1.
  unfold gbind at 1, mset at 1. unfold gbind at 1, mset at 1.
  set (s2 := set_stations _ _). assert (wifi_inv s2) as Hinv2.
  { split; cbn [s2 wifi_links stations set_stations set_access_points].
    - intros l w Hl Hd. rewrite Hl1 in Hl. case_decide as Hin.
      + destruct (wifi_links s !! l); [|done]. by injection Hl as <-.
      + destruct (inv_wired _ Hinv l w Hl Hd) as [H1 H2]. split; [done|]. intros n. rewrite <- H2. unfold links_at. cbn. by rewrite Hn1.
    - intros n l Hl. rewrite Hlen1. apply (inv_range _ Hinv n). unfold links_at in *. cbn in Hl. by rewrite Hn1 in Hl.
    - by intros d n l ?%not_elem_of_nil.
    - constructor. }
  destruct (scan_devices_spec (devices nodes) s2 Hinv2) as (s' & E & Hinv' & Hn & Ha & Hs & Hy & Hl).
  exists s'. rewrite mfor_nested. fold (devices nodes). split; [exact E|]. split; [done|]. split; [done|]. split; [done|].
  split; [|split].
  - intros y [Hin|Hw]%Hy; [by apply not_elem_of_nil in Hin|done].
  - intros [[d n] l] Hin. destruct (inv_stations _ Hinv d n l Hin) as (w & Hw & _). exists (destroy_link w). split; [|done].
    apply Hl. cbn [s2 wifi_links set_stations set_access_points snd]. rewrite Hl1, decide_True, Hw by (by apply (list_elem_of_fmap_2 snd _ (d, n, l))).
    done.
  - rewrite Hn. exact Hn1.
Qed.

End monitor.

(** ** Examples *)

Definition origin (_ : N) : point := (0, 0)%Q.

(** A station on node 0 and an access point on node 1. *)
Definition example_nodes : list (N * list (N * device)) := [(0%N, [(10%N, StaDevice)]); (1%N, [(11%N, ApDevice $"ap")])].

Lemma wifi_inv_init : wifi_inv monitor_init.
Proof.
  split; cbn; try done.
  - intros n l H. unfold links_at in H. cbn in H. rewrite lookup_empty in H. by apply not_elem_of_nil in H.
  - by intros d n l ?%not_elem_of_nil.
  - constructor.
Qed.

(** Hiding a new link does nothing, its access point is already None: nothing is set on
    the item of the canvas. *)
Example new_link_visible : visibility <$> wifi_links (fst (WifiLink_init origin 0 10 monitor_init)) = [None].
Proof. by vm_compute. Qed.

(** A destroyed link stays in the links of its access point: two scans, each with an
    update after it, leave two. *)
Example links_leak :
  let step := scan_nodes origin example_nodes >>> simulation_periodic_update origin (fun _ => true) (fun _ => $"ap") in
  links_at (fst ((step >>> step) monitor_init)) 1 = [0; 1].
Proof. by vm_compute. Qed.

Lemma simulation_periodic_update_spec_witness :
  let s := fst (scan_nodes origin example_nodes monitor_init) in
  exists s' r, simulation_periodic_update origin (fun _ => true) (fun _ => $"other") s = (s', r) /\ wifi_inv s' /\
    stations s' = stations s /\ access_points s' = access_points s /\
    stations_updated (fun _ => true) (fun _ => $"other") s s' (stations s) r.
Proof.
  intros s. apply simulation_periodic_update_spec. unfold s.
  pose proof (scan_devices_spec origin (devices example_nodes) monitor_init wifi_inv_init) as (s' & E & H & _).
  replace (fst (scan_nodes origin example_nodes monitor_init)) with s'; [exact H|].
  change (s' = fst (mfor (fun x => scan_device origin x.1 x.2) (devices example_nodes) monitor_init)). by rewrite E.
Defined.

Lemma scan_nodes_spec_witness :
  exists s', scan_nodes origin example_nodes monitor_init = (s', Ok tt) /\ wifi_inv s' /\
    access_points s' = foldl add_ap ∅ (devices example_nodes) /\ (stations s').*1 = omap station_of (devices example_nodes) /\
    (forall y, y ∈ stations s' -> exists w, wifi_links s' !! y.2 = Some w /\ node2 w = None) /\
    (forall y, y ∈ stations monitor_init -> exists w, wifi_links s' !! y.2 = Some w /\ destroyed w = true) /\
    node_links s' = node_links monitor_init.
Proof. apply (scan_nodes_spec origin monitor_init example_nodes), wifi_inv_init. Defined.
