(* ===== verification/VizCanvas.v ===== *)
(** * [visualizer/core.py] and [hud.py]: the view of the canvas

    Panning, the zoom, centring on a node, [autoscale_view], and the divisions of the axes
    of [hud.py].  What GTK and GooCanvas do, the range of an adjustment, the change of
    coordinates and the scrolling, is given by operations with their documented laws. *)

From Stdlib Require Import QArith Qround Qabs Qminmax Qpower Lqa.
From S2P Require Import Prelude PyFloat RadMath VizScene.

(** ** GTK and GooCanvas *)

Record adjustment := { value : Q; lower : Q; upper : Q; page_size : Q }.

(** [Gtk.Adjustment.set_value], the conversions of the canvas at a scale, [set_scale] and
    [scroll_to], which move the adjustments of the scrolled window. *)
Record canvas_ops := {
  set_value : adjustment -> Q -> adjustment;
  convert_to_pixels : Q -> point -> point;
  convert_from_pixels : Q -> point -> point;
  set_scale : Q -> adjustment * adjustment -> adjustment * adjustment;
  scroll_to : Q -> point -> adjustment * adjustment -> adjustment * adjustment;
  (* the view with that corner lies within the bounds of the canvas *)
  reachable : Q -> point -> adjustment * adjustment -> Prop
}.

Class CanvasLaws (ops : canvas_ops) : Prop := {
  set_value_range : forall a v, set_value ops a v =
    {| value := value (set_value ops a v); lower := lower a; upper := upper a; page_size := page_size a |};
  set_value_ext : forall a b v, lower a = lower b -> upper a = upper b -> page_size a = page_size b ->
    value (set_value ops a v) = value (set_value ops b v);
  set_value_in : forall a v, (lower a <= v <= upper a - page_size a)%Q -> value (set_value ops a v) = v;
  to_pixels_diff : forall z p q,
    ((convert_to_pixels ops z p).1 - (convert_to_pixels ops z q).1 == z * (p.1 - q.1))%Q /\
    ((convert_to_pixels ops z p).2 - (convert_to_pixels ops z q).2 == z * (p.2 - q.2))%Q;
  from_pixels_diff : forall z p q, (0 < z)%Q ->
    ((convert_from_pixels ops z p).1 - (convert_from_pixels ops z q).1 == (p.1 - q.1) / z)%Q /\
    ((convert_from_pixels ops z p).2 - (convert_from_pixels ops z q).2 == (p.2 - q.2) / z)%Q;
  set_scale_page : forall z hv, page_size (set_scale ops z hv).1 = page_size hv.1 /\ page_size (set_scale ops z hv).2 = page_size hv.2;
  scroll_to_page : forall z p hv, page_size (scroll_to ops z p hv).1 = page_size hv.1 /\ page_size (scroll_to ops z p hv).2 = page_size hv.2;
  scroll_to_corner : forall z p hv, (0 < z)%Q -> reachable ops z p hv ->
    let corner := convert_from_pixels ops z (value (scroll_to ops z p hv).1, value (scroll_to ops z p hv).2) in
    (corner.1 == p.1 /\ corner.2 == p.2)%Q
}.

Section view.
Context (ops : canvas_ops).

(** ** The view: the zoom, the adjustments, and panning *)

Record panning_state := { initial_mouse_pos : point; initial_canvas_pos : point; motion_signal : nat }.

(** The handlers of the motion of the mouse that are connected, by their number. *)
Record view := {
  zoom : adjustment; scale : Q; hadj : adjustment; vadj : adjustment;
  panning : option panning_state; handlers : list nat; next_handler : nat
}.

Definition set_adjustments (hv : adjustment * adjustment) (v : view) : view :=
  {| zoom := zoom v; scale := scale v; hadj := hv.1; vadj := hv.2; panning := panning v;
     handlers := handlers v; next_handler := next_handler v |}.

(** The zoom when the window is made. *)
Definition zoom_adj : adjustment := {| value := 1; lower := 1 # 100; upper := 10; page_size := 1 |}.

(** Setting the zoom sets the scale of the canvas. *)
Definition zoom_set_value (z : Q) (v : view) : view :=
  let zoom' := set_value ops (zoom v) z in
  let hv := set_scale ops (value zoom') (hadj v, vadj v) in
  {| zoom := zoom'; scale := value zoom'; hadj := hv.1; vadj := hv.2; panning := panning v;
     handlers := handlers v; next_handler := next_handler v |}.

Inductive scroll_direction := Scroll_up | Scroll_down | Scroll_other.

Definition canvas_scroll_event (d : scroll_direction) (v : view) : bool * view :=
  match d with
  | Scroll_up => (true, zoom_set_value (value (zoom v) * (5 # 4)) v)
  | Scroll_down => (true, zoom_set_value (value (zoom v) / (5 # 4)) v)
  | Scroll_other => (false, v)
  end.

(** ** Panning *)

Definition begin_panning (mouse : point) (v : view) : view :=
  {| zoom := zoom v; scale := scale v; hadj := hadj v; vadj := vadj v;
     panning := Some {| initial_mouse_pos := mouse; initial_canvas_pos := (value (hadj v), value (vadj v));
                        motion_signal := next_handler v |};
     handlers := handlers v ++ [next_handler v]; next_handler := S (next_handler v) |}.

Definition end_panning (v : view) : view :=
  match panning v with
  | None => v
  | Some p => {| zoom := zoom v; scale := scale v; hadj := hadj v; vadj := vadj v; panning := None;
                 handlers := filter (fun h => h <> motion_signal p) (handlers v); next_handler := next_handler v |}
  end.

Definition panning_motion (mouse : point) (v : view) : py view :=
  let! p := or_raise AssertionError (panning v) in
  let dx := (mouse.1 - (initial_mouse_pos p).1)%Q in
  let dy := (mouse.2 - (initial_mouse_pos p).2)%Q in
  Ok (set_adjustments (set_value ops (hadj v) ((initial_canvas_pos p).1 - dx)%Q,
                       set_value ops (vadj v) ((initial_canvas_pos p).2 - dy)%Q) v).

Definition canvas_button_press (button : nat) (mouse : point) (v : view) : bool * view :=
  if Nat.eqb button 2 then (true, begin_panning mouse v) else (false, v).

Definition canvas_button_release (button : nat) (v : view) : bool * view :=
  if Nat.eqb button 2 then (true, end_panning v) else (false, v).

(** ** Centring *)

Definition center_on_node (pos : point) (v : view) : view :=
  let px := convert_to_pixels ops (scale v) pos in
  set_adjustments (set_value ops (hadj v) (px.1 - page_size (hadj v) / 2)%Q,
                   set_value ops (vadj v) (px.2 - page_size (vadj v) / 2)%Q) v.

(** ** [autoscale_view] *)

Definition min_of (x : Q) (l : list Q) : Q := foldl (fun m y => if Qle_bool m y then m else y) x l.
Definition max_of (x : Q) (l : list Q) : Q := foldl (fun m y => if Qle_bool y m then m else y) x l.

(** The least and the greatest coordinates. *)
Definition bounding_box (p : point) (ps : list point) : point * point :=
  ((min_of p.1 ps.*1, min_of p.2 ps.*2), (max_of p.1 ps.*1, max_of p.2 ps.*2)).

(** One and a half times the size of the box, in pixels. *)
Definition autoscale_size (box : point * point) (v : view) : point :=
  let min_px := convert_to_pixels ops (scale v) box.1 in
  let max_px := convert_to_pixels ops (scale v) box.2 in
  ((3 # 2) * (max_px.1 - min_px.1), (3 # 2) * (max_px.2 - min_px.2))%Q.

Definition autoscale_zoom (box : point * point) (v : view) : Q :=
  let new := autoscale_size box v in
  Qmin (page_size (hadj v) / new.1) (page_size (vadj v) / new.2).

(** The corner of a view around the centre of the box. *)
Definition autoscale_corner (box : point * point) (v : view) : point :=
  let c1 := convert_from_pixels ops (scale v) (value (hadj v), value (vadj v)) in
  let c2 := convert_from_pixels ops (scale v)
              (value (hadj v) + page_size (hadj v), value (vadj v) + page_size (vadj v))%Q in
  let width := (c2.1 - c1.1)%Q in
  let height := (c2.2 - c1.2)%Q in
  let center_x := ((box.1.1 + box.2.1) / 2)%Q in
  let center_y := ((box.1.2 + box.2.2) / 2)%Q in
  (center_x - width / 2, center_y - height / 2)%Q.

(** The positions are those of the nodes after their update. *)
Definition autoscale_view (positions : list point) (v : view) : view :=
  match positions with
  | [] => v
  | p :: ps =>
      let box := bounding_box p ps in
      let new := autoscale_size box v in
      if Qeq_bool new.1 0 || Qeq_bool new.2 0 then v
      else
        let v := zoom_set_value (autoscale_zoom box v) v in
        set_adjustments (scroll_to ops (scale v) (autoscale_corner box v) (hadj v, vadj v)) v
  end.

(** What is in view: the corners, as the tooltips and the axes compute them. *)
Definition view_corners (v : view) : point * point :=
  (convert_from_pixels ops (scale v) (value (hadj v), value (vadj v)),
   convert_from_pixels ops (scale v) (value (hadj v) + page_size (hadj v), value (vadj v) + page_size (vadj v))%Q).

Definition in_view (v : view) (p : point) : Prop :=
  let '(c1, c2) := view_corners v in (c1.1 <= p.1 <= c2.1 /\ c1.2 <= p.2 <= c2.2)%Q.

End view.

(** ** [hud.py]: the divisions of an axis *)

(** [rint(log10(y))]: the integer part of [log10(y) + 1/2]. *)
Definition rint_log10 (y : Q) : Z := (floor_log10 (10 * (y * y)) / 2)%Z.

Definition ceil (q : Q) : Q := inject_Z (Qceiling q).

(** The five rounds compute the same division: only [ndiv], which they do not use, changes. *)
Definition compute_divisions (xi xf : Q) : py (Q * Q) :=
  let! _ := raise_unless (negb (Qle_bool xf xi)) AssertionError in
  let dx_over_ndiv := ((xf - xi) / 5)%Q in
  let div := q10 (rint_log10 dx_over_ndiv) in
  let closer a := negb (Qle_bool (Qabs (div - dx_over_ndiv)) (Qabs (a - dx_over_ndiv))) in
  let div := (if closer (div / 2) then div / 2 else if closer (div * 2) then div * 2 else div)%Q in
  Ok (div * ceil (xi / div) - div, div)%Q.

(** The marks of an axis: from the first on while they are before the end. *)
Fixpoint marks (fuel : nat) (x xdiv end_ : Q) : option (list Q) :=
  match fuel with
  | O => None
  | S fuel => if negb (Qle_bool end_ x) then cons x <$> marks fuel (x + xdiv) xdiv end_ else Some []
  end.

Definition axis_marks (fuel : nat) (xi xf : Q) : option (py (list Q)) :=
  match compute_divisions xi xf with
  | Ok (x0, xdiv) => Ok <$> marks fuel x0 xdiv xf
  | Err e => Some (Err e)
  end.

(** ** The divisions *)

Lemma rint_log10_spec y : (0 < y)%Q ->
  let d := q10 (rint_log10 y) in (d * d <= 10 * (y * y) /\ 10 * (y * y) < 100 * (d * d))%Q.
Proof.
  intros Hy. cbv zeta. unfold rint_log10. assert (0 < 10 * (y * y))%Q as Hp by nra.
  destruct (floor_log10_spec _ Hp) as [H1 H2]. set (k := floor_log10 _) in *. set (n := (k / 2)%Z).
  assert (2 * n <= k <= 2 * n + 1)%Z as Hk by (unfold n; pose proof (Z.div_mod k 2); pose proof (Z.mod_pos_bound k 2); lia).
  assert (forall a b, (a <= b)%Z -> (q10 a <= q10 b)%Q) as Hmono.
  { intros a b Hab. rewrite !q10_power. by apply Qpower_le_compat_l. }
  assert (q10 (2 * n) == q10 n * q10 n)%Q as Esq by (rewrite <- q10_add; by replace (n + n)%Z with (2 * n)%Z by lia).
  assert (q10 (2 * n + 2) == 100 * (q10 n * q10 n))%Q as Ehu by (rewrite q10_add, Esq; change (q10 2) with 100%Q; ring).
  pose proof (Hmono (2 * n)%Z k ltac:(lia)). pose proof (Hmono (k + 1)%Z (2 * n + 2)%Z ltac:(lia)). split; lra.
Qed.

Lemma closer_iff a b y : negb (Qle_bool (Qabs (b - y)) (Qabs (a - y))) = true <-> (Qabs (a - y) < Qabs (b - y))%Q.
Proof. apply RadMath.Qltb_iff. Qed.

Lemma closer_half d y : (0 < d)%Q -> negb (Qle_bool (Qabs (d - y)) (Qabs (d / 2 - y))) = true <-> (y < (3 # 4) * d)%Q.
Proof.
  intros Hd. rewrite closer_iff. assert (d / 2 == (1 # 2) * d)%Q as -> by field.
  apply (Qabs_case (d - y)); intros H1; apply (Qabs_case ((1 # 2) * d - y)); intros H2; split; intros H; lra.
Qed.

Lemma closer_double d y : (0 < d)%Q -> negb (Qle_bool (Qabs (d - y)) (Qabs (d * 2 - y))) = true <-> ((3 # 2) * d < y)%Q.
Proof.
  intros Hd. rewrite closer_iff.
  apply (Qabs_case (d - y)); intros H1; apply (Qabs_case (d * 2 - y)); intros H2; split; intros H; lra.
Qed.

(** The division: half, one or two times a power of ten, between three and eight of which
    make the length. *)
Lemma compute_divisions_spec xi xf : (xi < xf)%Q ->
  exists x0 div n k, compute_divisions xi xf = Ok (x0, div) /\ (div == q10 n \/ div == q10 n / 2 \/ div == 2 * q10 n)%Q /\
    (0 < div)%Q /\ (3 * div <= xf - xi <= 8 * div)%Q /\ (x0 == div * inject_Z k)%Q /\ (x0 < xi)%Q /\ (xi <= x0 + div)%Q.
Proof.
  intros Hx. unfold compute_divisions. destruct (Qle_bool xf xi) eqn:E; [apply Qle_bool_iff in E; lra|]. cbn [negb raise_unless rbind].
  set (y := ((xf - xi) / 5)%Q). assert (0 < y)%Q as Hy by (unfold y; apply Qlt_shift_div_l; lra).
  assert (xf - xi == 5 * y)%Q as Ey by (unfold y; field).
  pose proof (rint_log10_spec y Hy) as [H1 H2]. set (n := rint_log10 y) in *. pose proof (q10_pos n) as Hd. cbv zeta.
  set (d := q10 n) in *.
  assert (exists div, (if negb (Qle_bool (Qabs (d - y)) (Qabs (d / 2 - y))) then d / 2
    else if negb (Qle_bool (Qabs (d - y)) (Qabs (d * 2 - y))) then d * 2 else d)%Q = div /\
    (div == d \/ div == d / 2 \/ div == 2 * d)%Q /\ (0 < div)%Q /\ (3 * div <= 5 * y <= 8 * div)%Q) as (div & -> & Hdiv & Hpos & Hlen).
  { pose proof (closer_half d y Hd) as Ch. pose proof (closer_double d y Hd) as Cd.
    destruct (negb (Qle_bool (Qabs (d - y)) (Qabs (d / 2 - y)))).
    - assert (y < (3 # 4) * d)%Q by by apply Ch. exists (d / 2)%Q. split; [done|]. split; [right; left; reflexivity|].
      assert (d / 2 == (1 # 2) * d)%Q as -> by field. split; [lra|]. split; nra.
    - assert ((3 # 4) * d <= y)%Q by (apply Qnot_lt_le; intros H; by apply Ch in H).
      destruct (negb (Qle_bool (Qabs (d - y)) (Qabs (d * 2 - y)))).
      + assert ((3 # 2) * d < y)%Q by by apply Cd. exists (d * 2)%Q. split; [done|]. split; [right; right; ring|].
        split; [lra|]. split; nra.
      + assert (y <= (3 # 2) * d)%Q by (apply Qnot_lt_le; intros H'; by apply Cd in H').
        exists d. split; [done|]. split; [by left|]. split; [lra|]. split; lra. }
  exists (div * ceil (xi / div) - div)%Q, div, n, (Qceiling (xi / div) - 1)%Z. split; [done|]. split; [done|]. split; [done|].
  split; [lra|]. unfold ceil. pose proof (Qle_ceiling (xi / div)) as Hc1. pose proof (Qceiling_lt (xi / div)) as Hc2.
  unfold Z.sub in *. rewrite inject_Z_plus in *. change (inject_Z (- (1))) with (- (1))%Q in *.
  assert (xi == xi / div * div)%Q as Exi by (field; lra).
  generalize dependent (inject_Z (Qceiling (xi / div))). generalize dependent (xi / div)%Q. intros r Exi c Hc1 Hc2.
  split; [ring|]. split; [rewrite Exi; nra|]. rewrite Exi. nra.
Qed.

Lemma marks_range fuel x xdiv end_ : marks fuel x xdiv end_ = RadMath.float_range_loop fuel x end_ xdiv.
Proof. revert x. induction fuel as [|fuel IH]; intros x; [done|]. cbn [marks]. by rewrite RadMath.float_range_loop_step, IH. Qed.

(** C30 - The marks of an axis: from four to nine, a division apart, at the multiples of half,
    one or two times a power of ten, all but the first in view.  The loop that draws them
    ends.  An axis that is not of positive length, of length zero too, is refused. *)
Theorem axis_marks_spec xi xf fuel : (xi < xf)%Q -> 9 < fuel ->
  exists x0 div n k l, axis_marks fuel xi xf = Some (Ok l) /\ 4 <= length l <= 9 /\
    (div == q10 n \/ div == q10 n / 2 \/ div == 2 * q10 n)%Q /\ (x0 == div * inject_Z k)%Q /\ (x0 < xi)%Q /\ (xi <= x0 + div)%Q /\
    (forall j x, l !! j = Some x -> (x == x0 + inject_Z (Z.of_nat j) * div)%Q /\ (x < xf)%Q) /\
    forall a b, (b <= a)%Q -> axis_marks fuel a b = Some (Err AssertionError).
Proof.
  intros Hx Hf. destruct (compute_divisions_spec xi xf Hx) as (x0 & div & n & k & E & Hdiv & Hpos & Hlen & Hk & H1 & H2).
  destruct (RadMath.float_range_loop_spec 9 fuel x0 xf div) as (l & El & Hl & Hend & Hj);
    [change (inject_Z (Z.of_nat 9)) with 9%Q; lra|done|].
  exists x0, div, n, k, l. unfold axis_marks. rewrite E, marks_range, El. split; [done|]. split; [split; [|done]|].
  - destruct (Nat.le_gt_cases 4 (length l)) as [|Hlt]; [done|]. exfalso.
    assert (inject_Z (Z.of_nat (length l)) <= 3)%Q as H3 by (change 3%Q with (inject_Z 3); rewrite <- Zle_Qle; lia).
    generalize dependent (inject_Z (Z.of_nat (length l))). intros m Hm H3. nra.
  - do 5 (split; [done|]). intros a b Hab. unfold compute_divisions.
    assert (Qle_bool b a = true) as -> by by apply Qle_bool_iff. done.
Qed.

Lemma axis_marks_spec_witness :
  exists x0 div n k l, axis_marks 10 (-3) 22 = Some (Ok l) /\ 4 <= length l <= 9 /\
    (div == q10 n \/ div == q10 n / 2 \/ div == 2 * q10 n)%Q /\ (x0 == div * inject_Z k)%Q /\ (x0 < -3)%Q /\ (-3 <= x0 + div)%Q /\
    (forall j x, l !! j = Some x -> (x == x0 + inject_Z (Z.of_nat j) * div)%Q /\ (x < 22)%Q) /\
    axis_marks 10 22 22 = Some (Err AssertionError).
Proof.
  destruct (axis_marks_spec (-3) 22 10) as (x0 & div & n & k & l & H1 & H2 & H3 & H4 & H5 & H6 & H7 & H8); [lra|lia|].
  exists x0, div, n, k, l. split_and!; try assumption; [apply H2|apply H2|]. apply H8. apply Qle_refl.
Defined.

Example axis_marks_example :
  (fun r => match r with Ok l => Qred <$> l | Err _ => [] end) <$> axis_marks 10 (-3) 22 = Some [-5; 0; 5; 10; 15; 20]%Q.
Proof. by vm_compute. Qed.

(** ** Autoscaling *)

Lemma min_of_spec x l : (min_of x l <= x)%Q /\ forall y, y ∈ l -> (min_of x l <= y)%Q.
Proof.
  unfold min_of. revert x. induction l as [|y l IH]; intros x; cbn [foldl]; [split; [apply Qle_refl|by intros y ?%not_elem_of_nil]|].
  assert ((if Qle_bool x y then x else y) <= x /\ (if Qle_bool x y then x else y) <= y)%Q as [H1 H2].
  { destruct (Qle_bool x y) eqn:E; [apply Qle_bool_iff in E; split; lra|].
    assert (~ x <= y)%Q by (intros H%Qle_bool_iff; by rewrite H in E). split; lra. }
  specialize (IH (if Qle_bool x y then x else y)) as [I1 I2]. split; [lra|].
  intros z [->|Hz]%list.elem_of_cons; [lra|by apply I2].
Qed.

Lemma max_of_spec x l : (x <= max_of x l)%Q /\ forall y, y ∈ l -> (y <= max_of x l)%Q.
Proof.
  unfold max_of. revert x. induction l as [|y l IH]; intros x; cbn [foldl]; [split; [apply Qle_refl|by intros y ?%not_elem_of_nil]|].
  assert (x <= (if Qle_bool y x then x else y) /\ y <= (if Qle_bool y x then x else y))%Q as [H1 H2].
  { destruct (Qle_bool y x) eqn:E; [apply Qle_bool_iff in E; split; lra|].
    assert (~ y <= x)%Q by (intros H%Qle_bool_iff; by rewrite H in E). split; lra. }
  specialize (IH (if Qle_bool y x then x else y)) as [I1 I2]. split; [lra|].
  intros z [->|Hz]%list.elem_of_cons; [lra|by apply I2].
Qed.

Section laws.
Context (ops : canvas_ops) `{!CanvasLaws ops}.

(** The size of the page at a scale, in the coordinates of the canvas. *)
Lemma view_size v : (0 < scale v)%Q ->
  let '(c1, c2) := view_corners ops v in
  (c2.1 - c1.1 == page_size (hadj v) / scale v /\ c2.2 - c1.2 == page_size (vadj v) / scale v)%Q.
Proof.
  intros Hs. unfold view_corners. cbn [fst snd].
  destruct (from_pixels_diff (ops := ops) (scale v) (value (hadj v) + page_size (hadj v), value (vadj v) + page_size (vadj v))%Q
              (value (hadj v), value (vadj v))) as [H1 H2]; [done|].
  cbn [fst snd] in *. rewrite H1, H2. split; field; lra.
Qed.

Lemma scrolled v p : (0 < scale v)%Q -> reachable ops (scale v) p (hadj v, vadj v) ->
  let v2 := set_adjustments (scroll_to ops (scale v) p (hadj v, vadj v)) v in
  let '(c1, c2) := view_corners ops v2 in
  (c1.1 == p.1 /\ c1.2 == p.2 /\ c2.1 == p.1 + page_size (hadj v) / scale v /\ c2.2 == p.2 + page_size (vadj v) / scale v)%Q.
Proof.
  intros Hs Hr. set (v2 := set_adjustments _ v). cbv zeta. pose proof (view_size v2 Hs) as Hsize.
  destruct (scroll_to_corner (ops := ops) (scale v) p _ Hs Hr) as [C1 C2].
  change (value (scroll_to ops (scale v) p (hadj v, vadj v)).1) with (value (hadj v2)) in C1, C2.
  change (value (scroll_to ops (scale v) p (hadj v, vadj v)).2) with (value (vadj v2)) in C1, C2.
  destruct (scroll_to_page (ops := ops) (scale v) p (hadj v, vadj v)) as [Q1 Q2].
  assert (page_size (hadj v2) = page_size (hadj v) /\ page_size (vadj v2) = page_size (vadj v)) as [R1 R2] by by split.
  unfold view_corners in *. change (scale v2) with (scale v) in *. rewrite R1, R2 in *. cbn [fst snd] in *. destruct Hsize as [S1 S2].
  split; [done|]. split; [done|]. rewrite <- S1, <- S2, C1, C2. split; ring.
Qed.

Lemma corner_at v box : (0 < scale v)%Q ->
  ((autoscale_corner ops box v).1 == (box.1.1 + box.2.1) / 2 - page_size (hadj v) / scale v / 2 /\
   (autoscale_corner ops box v).2 == (box.1.2 + box.2.2) / 2 - page_size (vadj v) / scale v / 2)%Q.
Proof.
  intros Hs. pose proof (view_size v Hs) as Hsize. unfold view_corners in Hsize. destruct Hsize as [H1 H2].
  unfold autoscale_corner. cbn [fst snd] in *. by rewrite H1, H2.
Qed.

Lemma in_box p ps q : q ∈ p :: ps ->
  let box := bounding_box p ps in (box.1.1 <= q.1 <= box.2.1 /\ box.1.2 <= q.2 <= box.2.2)%Q.
Proof.
  intros Hq. unfold bounding_box. cbn [fst snd].
  destruct (min_of_spec p.1 ps.*1) as [A1 A2], (min_of_spec p.2 ps.*2) as [B1 B2],
    (max_of_spec p.1 ps.*1) as [C1 C2], (max_of_spec p.2 ps.*2) as [D1 D2].
  apply list.elem_of_cons in Hq as [->|Hq]; [done|].
  assert (q.1 ∈ ps.*1) by by apply list_elem_of_fmap_2. assert (q.2 ∈ ps.*2) by by apply list_elem_of_fmap_2. auto.
Qed.

(** The page at the zoom is at least one and a half times the box, and just that in one
    direction. *)
Lemma page_fits h w z : (0 < h)%Q -> (0 < w)%Q -> (0 < z)%Q ->
  ((z <= h / w -> w <= h / z) /\ (z == h / w -> h / z == w))%Q.
Proof.
  intros Hh Hw Hz. assert (h / w * w == h)%Q as E1 by (field; lra). assert (h / z * z == h)%Q as E2 by (field; lra).
  split.
  - intros H. generalize dependent (h / w)%Q. generalize dependent (h / z)%Q. intros a Ea b Eb H. nra.
  - intros ->. field. split; lra.
Qed.

(** C29 - Autoscaling with a zoom of 1 leaves every node in view: the size of the view is at
    least one and a half times that of the box around the nodes, and just that in one
    direction.  This needs the zoom to be within its range, the view to fit in the bounds
    of the canvas, and nodes that are not on one line. *)
Theorem autoscale_view_spec p ps v :
  let box := bounding_box p ps in
  scale v = 1%Q -> (box.1.1 < box.2.1)%Q -> (box.1.2 < box.2.2)%Q -> (0 < page_size (hadj v))%Q -> (0 < page_size (vadj v))%Q ->
  (0 < lower (zoom v))%Q -> (lower (zoom v) <= autoscale_zoom ops box v <= upper (zoom v) - page_size (zoom v))%Q ->
  (let v1 := zoom_set_value ops (autoscale_zoom ops box v) v in
   reachable ops (scale v1) (autoscale_corner ops box v1) (hadj v1, vadj v1)) ->
  let v' := autoscale_view ops (p :: ps) v in
  let '(c1, c2) := view_corners ops v' in
  (forall q, q ∈ p :: ps -> in_view ops v' q) /\
  (c2.1 - c1.1 == (3 # 2) * (box.2.1 - box.1.1) \/ c2.2 - c1.2 == (3 # 2) * (box.2.2 - box.1.2))%Q.
Proof.
  intros box Hs Hx Hy Hh Hv Hlow Hz Hreach v'. unfold v', autoscale_view. fold box.
  set (new := autoscale_size ops box v). assert (new.1 == (3 # 2) * (box.2.1 - box.1.1))%Q as N1.
  { unfold new, autoscale_size. cbn [fst]. rewrite Hs. destruct (to_pixels_diff (ops := ops) 1 box.2 box.1) as [-> _]. ring. }
  assert (new.2 == (3 # 2) * (box.2.2 - box.1.2))%Q as N2.
  { unfold new, autoscale_size. cbn [snd]. rewrite Hs. destruct (to_pixels_diff (ops := ops) 1 box.2 box.1) as [_ ->]. ring. }
  assert (Qeq_bool new.1 0 = false) as -> by (apply not_true_iff_false; rewrite Qeq_bool_iff; lra).
  assert (Qeq_bool new.2 0 = false) as -> by (apply not_true_iff_false; rewrite Qeq_bool_iff; lra). cbn [orb].
  set (v1 := zoom_set_value ops (autoscale_zoom ops box v) v) in *.
  assert (scale v1 = autoscale_zoom ops box v) as S1 by by apply set_value_in.
  assert (page_size (hadj v1) = page_size (hadj v) /\ page_size (vadj v1) = page_size (vadj v)) as [P1 P2] by apply set_scale_page.
  assert (0 < autoscale_zoom ops box v)%Q as Z0 by lra. assert (0 < scale v1)%Q as S0 by by rewrite S1.
  set (v2 := set_adjustments (scroll_to ops (scale v1) (autoscale_corner ops box v1) (hadj v1, vadj v1)) v1).
  pose proof (scrolled v1 _ S0 Hreach) as Hc. cbv zeta in Hc. fold v2 in Hc. unfold in_view.
  destruct (view_corners ops v2) as [c1 c2]. destruct Hc as (C1 & C2 & C3 & C4).
  destruct (corner_at v1 box S0) as [K1 K2]. rewrite S1, P1 in *. rewrite P2 in *. rewrite K1 in C1, C3. rewrite K2 in C2, C4.
  set (z := autoscale_zoom ops box v) in *.
  destruct (page_fits (page_size (hadj v)) new.1 z Hh) as [F1 F2]; [lra|done|].
  destruct (page_fits (page_size (vadj v)) new.2 z Hv) as [F3 F4]; [lra|done|].
  assert (z <= page_size (hadj v) / new.1 /\ z <= page_size (vadj v) / new.2)%Q as [Z1 Z2].
  { unfold z, autoscale_zoom. fold new. split; [apply Q.le_min_l|apply Q.le_min_r]. }
  apply F1 in Z1. apply F3 in Z2. clear Hreach. split.
  - intros q Hq. pose proof (in_box p ps q Hq) as [[B1 B1'] [B2 B2']]. fold box in B1, B1', B2, B2'.
    generalize dependent (page_size (hadj v) / z)%Q. generalize dependent (page_size (vadj v) / z)%Q. intros. unfold Qdiv in C1, C2, C3, C4. change (/ 2)%Q with (1 # 2)%Q in *. split; split; lra.
  - assert (z == page_size (hadj v) / new.1 \/ z == page_size (vadj v) / new.2)%Q as [E|E].
    { unfold z, autoscale_zoom. fold new. apply Q.min_case_strong; [intros x y Exy [H|H]; [left|right]; by rewrite <- Exy|by left|by right]. }
    + apply F2 in E. left. rewrite C3, C1, E. lra.
    + apply F4 in E. right. rewrite C4, C2, E. lra.
Qed.

(** ** Panning *)

Lemma set_value_twice a x y : set_value ops (set_value ops a x) y = set_value ops a y.
Proof.
  rewrite (set_value_range (ops := ops) (set_value ops a x) y), (set_value_range (ops := ops) a y).
  rewrite (set_value_range (ops := ops) a x). cbn [lower upper page_size]. f_equal. by apply set_value_ext.
Qed.

Definition panned (v : view) (mouse : point) (ps : panning_state) : view :=
  set_adjustments (set_value ops (hadj v) ((initial_canvas_pos ps).1 - (mouse.1 - (initial_mouse_pos ps).1))%Q,
                   set_value ops (vadj v) ((initial_canvas_pos ps).2 - (mouse.2 - (initial_mouse_pos ps).2))%Q) v.

Lemma motions_last ms m v ps : panning v = Some ps ->
  for_each (fun v mouse => panning_motion ops mouse v) (ms ++ [m]) v = Ok (panned v m ps).
Proof.
  revert v. induction ms as [|m0 ms IH]; intros v Hp; cbn [app for_each].
  - unfold panning_motion. by rewrite Hp.
  - assert (panning_motion ops m0 v = Ok (panned v m0 ps)) as -> by (unfold panning_motion; by rewrite Hp). cbn [rbind].
    rewrite (IH (panned v m0 ps)) by done. f_equal. unfold panned. cbn [hadj vadj set_adjustments fst snd].
    by rewrite !set_value_twice.
Qed.

(** Dragging the canvas moves the view by the opposite of the way of the mouse since the
    button was pressed, whatever the way it took; releasing the button restores the
    handlers, and a motion that comes after is refused. *)
Theorem panning_spec v mouse ms m :
  next_handler v ∉ handlers v ->
  exists v', for_each (fun v mouse => panning_motion ops mouse v) (ms ++ [m]) (begin_panning mouse v) = Ok v' /\
    hadj v' = set_value ops (hadj v) (value (hadj v) - (m.1 - mouse.1))%Q /\
    vadj v' = set_value ops (vadj v) (value (vadj v) - (m.2 - mouse.2))%Q /\
    zoom v' = zoom v /\ handlers (end_panning v') = handlers v /\
    panning_motion ops m (end_panning v') = Err AssertionError.
Proof.
  intros Hh. erewrite motions_last by reflexivity. eexists. split; [reflexivity|].
  cbn [panned hadj vadj zoom set_adjustments begin_panning fst snd initial_mouse_pos initial_canvas_pos].
  do 3 (split; [done|]). unfold end_panning. cbn [panned panning set_adjustments begin_panning handlers motion_signal].
  split; [|done]. rewrite filter_app, filter_cons, decide_False by (intros H; by apply H). cbn [filter list_filter].
  rewrite (right_id_L [] (++)). apply list_filter_all, Forall_forall. intros h Hin ->. done.
Qed.

End laws.

(** ** A canvas *)

(** With its corner at -10000, -10000, that can be scrolled without bounds. *)
Definition plain_ops : canvas_ops := {|
  set_value a v := {| value := if Qle_bool (lower a) v && Qle_bool v (upper a - page_size a) then v
                               else if Qle_bool v (lower a) then lower a else (upper a - page_size a)%Q;
                      lower := lower a; upper := upper a; page_size := page_size a |};
  convert_to_pixels z p := (z * (p.1 + 10000), z * (p.2 + 10000))%Q;
  convert_from_pixels z p := (p.1 / z - 10000, p.2 / z - 10000)%Q;
  set_scale z hv := hv;
  scroll_to z p hv :=
    ({| value := (z * (p.1 + 10000))%Q; lower := lower hv.1; upper := upper hv.1; page_size := page_size hv.1 |},
     {| value := (z * (p.2 + 10000))%Q; lower := lower hv.2; upper := upper hv.2; page_size := page_size hv.2 |});
  reachable z p hv := True
|}.

#[export] Instance plain_laws : CanvasLaws plain_ops.
Proof.
  split; cbn; intros.
  - done.
  - by rewrite H, H0, H1.
  - destruct H as [H1 H2]. apply Qle_bool_iff in H1, H2. by rewrite H1, H2.
  - split; ring.
  - split; field; lra.
  - done.
  - done.
  - split; field; lra.
Qed.

Definition page (size : Q) : adjustment := {| value := 0; lower := 0; upper := 20000; page_size := size |}.

Definition view_at (z : Q) : view :=
  {| zoom := {| value := z; lower := 1 # 100; upper := 10; page_size := 1 |}; scale := z; hadj := page 600; vadj := page 450;
     panning := None; handlers := []; next_handler := 0 |}.

Definition in_viewb (ops : canvas_ops) (v : view) (p : point) : bool :=
  let '(c1, c2) := view_corners ops v in
  Qle_bool c1.1 p.1 && Qle_bool p.1 c2.1 && Qle_bool c1.2 p.2 && Qle_bool p.2 c2.2.

(** Autoscaling takes the size in pixels of the nodes at the zoom there is for their size
    at a zoom of 1: from a zoom of one half it leaves the nodes out of view. *)
Example autoscale_half_zoom :
  in_viewb plain_ops (autoscale_view plain_ops [(0, 0); (100, 100)]%Q (view_at 1)) (0, 0)%Q = true /\
  in_viewb plain_ops (autoscale_view plain_ops [(0, 0); (100, 100)]%Q (view_at (1 # 2))) (0, 0)%Q = false.
Proof. by vm_compute. Qed.

(** Nodes on a line are not brought into view. *)
Example autoscale_line : autoscale_view plain_ops [(0, 0); (100, 0)]%Q (view_at 1) = view_at 1.
Proof. by vm_compute. Qed.

Lemma autoscale_view_spec_witness :
  let p := (0, 0)%Q in let ps := [(100, 100)%Q] in let v := view_at 1 in
  let box := bounding_box p ps in
  let v' := autoscale_view plain_ops (p :: ps) v in
  let '(c1, c2) := view_corners plain_ops v' in
  (forall q, q ∈ p :: ps -> in_view plain_ops v' q) /\
  (c2.1 - c1.1 == (3 # 2) * (box.2.1 - box.1.1) \/ c2.2 - c1.2 == (3 # 2) * (box.2.2 - box.1.2))%Q.
Proof.
  apply (autoscale_view_spec plain_ops (0, 0)%Q [(100, 100)%Q] (view_at 1)); try done.
Defined.

Lemma panning_spec_witness :
  exists v', for_each (fun v mouse => panning_motion plain_ops mouse v) ([(5, 5)%Q] ++ [(30, 10)%Q]) (begin_panning (10, 10)%Q (view_at 1)) = Ok v' /\
    hadj v' = set_value plain_ops (page 600) (0 - (30 - 10))%Q /\ vadj v' = set_value plain_ops (page 450) (0 - (10 - 10))%Q /\
    zoom v' = zoom (view_at 1) /\ handlers (end_panning v') = [] /\
    panning_motion plain_ops (30, 10)%Q (end_panning v') = Err AssertionError.
Proof. apply (panning_spec plain_ops (view_at 1) (10, 10)%Q [(5, 5)%Q] (30, 10)%Q), not_elem_of_nil. Defined.
