(* ===== verification/VizStats.v ===== *)
(** * [visualizer/plugins/interface_statistics.py]: the statistics of the interfaces

    [StatisticsCollector] keeps the last samples of each node and computes the rates
    between the first and the last of them.  [VizWindows] shows them.  Rates are exact. *)

From Stdlib Require Import QArith Lqa.
From S2P Require Import Prelude.

Definition NODE_STATISTICS_MEMORY : nat := 10.

(** What the simulator counts for an interface. *)
Record statistics := { transmittedPackets : Z; transmittedBytes : Z; receivedPackets : Z; receivedBytes : Z }.

Record NetDevStats := {
  txPackets : Z; txBytes : Z; rxPackets : Z; rxBytes : Z;
  txPacketRate : Q; rxPacketRate : Q; txBitRate : Q; rxBitRate : Q
}.

(** The samples of each node: the statistics of its interfaces, oldest first. *)
Notation collector := (gmap N (list (list statistics))).

(** [while len(l) > n: l.pop(0)] *)
Fixpoint pop_while (n : nat) {A} (l : list A) : list A :=
  match l with
  | [] => []
  | _ :: l' => if n <? length l then pop_while n l' else l
  end.

Definition add_sample (c : collector) (s : N * list statistics) : collector :=
  let raw_stats_list := default [] (c !! s.1) in
  <[s.1 := pop_while NODE_STATISTICS_MEMORY (raw_stats_list ++ [s.2])]> c.

Definition simulation_periodic_update (nodes_statistics : list (N * list statistics)) (c : collector) : collector :=
  foldl add_sample c nodes_statistics.

(** The rate over the time [k]: a time of zero is refused. *)
Definition rate (amount : Z) (k : Q) : py Q :=
  let! _ := raise_unless (negb (Qeq_bool k 0)) ZeroDivisionError in
  Ok (inject_Z amount / k)%Q.

Definition interface_statistics (first : list statistics) (k : Q) (iface : nat) (s : statistics) : py NetDevStats :=
  let! s1 := or_raise IndexError (first !! iface) in
  let! a := rate (transmittedPackets s - transmittedPackets s1) k in
  let! b := rate (receivedPackets s - receivedPackets s1) k in
  let! c := rate ((transmittedBytes s - transmittedBytes s1) * 8) k in
  let! d := rate ((receivedBytes s - receivedBytes s1) * 8) k in
  Ok {| txPackets := transmittedPackets s; txBytes := transmittedBytes s; rxPackets := receivedPackets s; rxBytes := receivedBytes s;
        txPacketRate := a; rxPacketRate := b; txBitRate := c; rxBitRate := d |}.

Fixpoint interfaces_statistics (first : list statistics) (k : Q) (iface : nat) (l : list statistics) : py (list NetDevStats) :=
  match l with
  | [] => Ok []
  | s :: l =>
      let! o := interface_statistics first k iface s in
      let! os := interfaces_statistics first k (S iface) l in
      Ok (o :: os)
  end.

Definition get_interface_statistics (sample_period : Q) (nodeId : N) (c : collector) : py (list NetDevStats) :=
  match c !! nodeId with
  | None => Ok []
  | Some raw_stats_list =>
      if length raw_stats_list <? NODE_STATISTICS_MEMORY then Ok []
      else
        let! _ := raise_unless (Nat.eqb (length raw_stats_list) NODE_STATISTICS_MEMORY) AssertionError in
        let! first := py_get raw_stats_list 0 in
        let! last := py_get raw_stats_list (-1) in
        let k := (sample_period * inject_Z (Z.of_nat NODE_STATISTICS_MEMORY - 1))%Q in
        interfaces_statistics first k 0 last
  end.

(** ** The samples that are kept *)

(** The samples of a node in a sequence of updates. *)
Definition samples (n : N) (us : list (list (N * list statistics))) : list (list statistics) :=
  omap (fun s : N * list statistics => if decide (s.1 = n) then Some s.2 else None) (mjoin us).

Definition last_n {A} (n : nat) (l : list A) : list A := drop (length l - n) l.

Lemma pop_while_last {A} n (l : list A) : pop_while n l = last_n n l.
Proof.
  unfold last_n. induction l as [|x l IH]; [done|]. cbn [pop_while length]. destruct (Nat.ltb_spec n (S (length l))) as [H|H].
  - rewrite IH. replace (S (length l) - n) with (S (length l - n)) by lia. done.
  - by replace (S (length l) - n) with 0 by lia.
Qed.

Lemma last_n_snoc {A} n (l : list A) x : 0 < n -> last_n n (last_n n l ++ [x]) = last_n n (l ++ [x]).
Proof.
  intros Hn. unfold last_n. rewrite !length_app, length_drop. cbn [length].
  rewrite !drop_app, length_drop, drop_drop. f_equal; f_equal; lia.
Qed.

(** The samples of a node, and none for a node without. *)
Definition kept (c : collector) (f : N -> list (list statistics)) : Prop :=
  forall n, c !! n = match f n with [] => None | l => Some (last_n NODE_STATISTICS_MEMORY l) end.

Lemma update_kept us u c : kept c (fun n => samples n us) -> kept (simulation_periodic_update u c) (fun n => samples n (us ++ [u])).
Proof.
  unfold samples. intros Hc. assert (forall v, kept c (fun n => omap (fun s => if decide (s.1 = n) then Some s.2 else None) v) ->
    kept (simulation_periodic_update u c) (fun n => omap (fun s => if decide (s.1 = n) then Some s.2 else None) (v ++ u))) as H.
  2: { rewrite join_app. cbn [mjoin list_join]. rewrite (right_id_L [] (++) u). by apply H. }
  clear. revert c. unfold simulation_periodic_update. induction u as [|[m st] u IH]; intros c v Hc; cbn [foldl].
  { by rewrite (right_id_L [] (++)). }
  change ((m, st) :: u) with ([(m, st)] ++ u). rewrite (assoc_L (++)). apply IH. intros n. rewrite omap_app.
  cbn [omap list_omap fst snd]. unfold add_sample. cbn [fst snd]. destruct (decide (m = n)) as [->|Hne].
  - rewrite lookup_insert_eq, (Hc n). destruct (omap _ v) as [|x l] eqn:E; cbn [default app].
    + done.
    + rewrite pop_while_last, (last_n_snoc NODE_STATISTICS_MEMORY (x :: l)) by (unfold NODE_STATISTICS_MEMORY; lia). done.
  - rewrite lookup_insert_ne by done. rewrite (Hc n), (right_id_L [] (++)). done.
Qed.

(** The rate of an interface over the window. *)
Definition stats_between (first last : statistics) (k : Q) (o : NetDevStats) : Prop :=
  txPackets o = transmittedPackets last /\ txBytes o = transmittedBytes last /\
  rxPackets o = receivedPackets last /\ rxBytes o = receivedBytes last /\
  (txPacketRate o * k == inject_Z (transmittedPackets last - transmittedPackets first) /\
   rxPacketRate o * k == inject_Z (receivedPackets last - receivedPackets first) /\
   txBitRate o * k == inject_Z ((transmittedBytes last - transmittedBytes first) * 8) /\
   rxBitRate o * k == inject_Z ((receivedBytes last - receivedBytes first) * 8))%Q.

Lemma interfaces_statistics_ok first k i l : ~ (k == 0)%Q -> i + length l <= length first ->
  exists os, interfaces_statistics first k i l = Ok os /\
    Forall2 (fun fs o => stats_between fs.1 fs.2 k o) (zip (drop i first) l) os /\ length os = length l.
Proof.
  intros Hk. revert i. induction l as [|s l IH]; intros i Hi; cbn [interfaces_statistics].
  - exists []. rewrite zip_with_nil_r. by split; [|split; [constructor|]].
  - cbn [length] in Hi. destruct (lookup_lt_is_Some_2 first i) as [s1 Hs1]; [lia|].
    assert (forall a, rate a k = Ok (inject_Z a / k)%Q) as Hr.
    { intros a. unfold rate. assert (Qeq_bool k 0 = false) as -> by (apply not_true_iff_false; by rewrite Qeq_bool_iff). done. }
    unfold interface_statistics. rewrite Hs1. cbn [or_raise rbind]. rewrite !Hr. cbn [rbind].
    destruct (IH (S i)) as (os & -> & Hos & Hlen); [lia|]. cbn [rbind]. eexists. split; [reflexivity|].
    rewrite (drop_S _ s1 i Hs1). cbn [zip_with]. split; [|cbn; by f_equal]. constructor; [|exact Hos].
    unfold stats_between. cbn. split_and!; try done; field; done.
Qed.

Lemma interfaces_statistics_short first k i l : ~ (k == 0)%Q -> i <= length first -> length first < i + length l ->
  interfaces_statistics first k i l = Err IndexError.
Proof.
  intros Hk. revert i. induction l as [|s l IH]; intros i Hi Hl; cbn [length] in Hl; [lia|]. cbn [interfaces_statistics].
  unfold interface_statistics. destruct (first !! i) as [s1|] eqn:E; [|done]. apply lookup_lt_Some in E. cbn [or_raise rbind].
  assert (forall a, rate a k = Ok (inject_Z a / k)%Q) as Hr.
  { intros a. unfold rate. assert (Qeq_bool k 0 = false) as -> by (apply not_true_iff_false; by rewrite Qeq_bool_iff). done. }
  rewrite !Hr. cbn [rbind]. by rewrite IH by lia.
Qed.

Lemma updates_kept us : kept (foldl (fun c u => simulation_periodic_update u c) ∅ us) (fun n => samples n us).
Proof.
  induction us as [|u us IH] using rev_ind; [intros n; apply lookup_empty|]. rewrite foldl_app. by apply update_kept.
Qed.

(** C31 - After any sequence of updates the statistics of a node are those of its last ten
    samples: with fewer there are none; with ten or more there is one entry for each
    interface of the last sample, with its counts, and the rates since the tenth last over
    the time between them.  An interface that was not there at the tenth last sample
    raises IndexError. *)
Theorem get_interface_statistics_spec us n sample_period :
  (0 < sample_period)%Q ->
  let c := foldl (fun c u => simulation_periodic_update u c) ∅ us in
  let r := get_interface_statistics sample_period n c in
  match reverse (samples n us) !! 9, last (samples n us) with
  | Some first, Some last =>
      if decide (length last <= length first)
      then exists os, r = Ok os /\ Forall2 (fun fs o => stats_between fs.1 fs.2 (sample_period * 9) o) (zip first last) os /\ length os = length last
      else r = Err IndexError
  | _, _ => r = Ok []
  end.
Proof.
  intros Hp c r. pose proof (updates_kept us n) as Hk. fold c in Hk. unfold r, get_interface_statistics. rewrite Hk. clear r Hk.
  set (l := samples n us). destruct (decide (length l < 10)) as [Hlt|Hge].
  - assert (reverse l !! 9 = None) as -> by (apply lookup_ge_None_2; rewrite length_reverse; lia).
    destruct l as [|x l']; [done|]. assert (last_n NODE_STATISTICS_MEMORY (x :: l') = x :: l') as ->.
    { unfold last_n, NODE_STATISTICS_MEMORY. by replace (length (x :: l') - 10) with 0 by lia. }
    unfold NODE_STATISTICS_MEMORY. by rewrite (proj2 (Nat.ltb_lt _ _) Hlt).
  - destruct l as [|x l'] eqn:El; [cbn in Hge; lia|]. rewrite <- El in *. clear El x l'.
    assert (length (last_n NODE_STATISTICS_MEMORY l) = 10) as Hlen by (unfold last_n, NODE_STATISTICS_MEMORY; rewrite length_drop; lia).
    unfold NODE_STATISTICS_MEMORY in *. rewrite Hlen. cbn [Nat.ltb Nat.leb Nat.eqb raise_unless rbind].
    assert (exists f, l !! (length l - 10) = Some f) as [first Hf] by (apply lookup_lt_is_Some_2; lia).
    assert (reverse l !! 9 = Some first) as ->.
    { rewrite reverse_lookup by lia. rewrite <- Hf. done. }
    destruct (last l) as [final|] eqn:Elast; [|apply last_None in Elast; rewrite Elast in Hlen; cbn in Hlen; lia].
    assert (py_get (last_n 10 l) 0 = Ok first) as ->.
    { rewrite py_get_lookup by lia. unfold last_n. change (Z.to_nat 0) with 0. by rewrite lookup_drop, Nat.add_0_r, Hf. }
    cbn [rbind].
    assert (py_get (last_n 10 l) (-1) = Ok final) as ->.
    { apply last_Some in Elast as [l0 ->]. change (-1)%Z with (- Z.of_nat 1)%Z. rewrite py_get_neg. unfold last_n.
      rewrite length_app in *. cbn [length] in *. by rewrite drop_app_le, reverse_snoc by lia. }
    cbn [rbind]. change (inject_Z (Z.of_nat 10 - 1)) with 9%Q.
    assert (~ sample_period * 9 == 0)%Q as Hk by (intros E; lra). case_decide as Hd.
    + destruct (interfaces_statistics_ok first (sample_period * 9) 0 final Hk) as (os & E & Hos & Hl); [done|]. by exists os.
    + apply interfaces_statistics_short; [done|lia|lia].
Qed.

(** Eleven samples of one interface of node 3. *)
Definition example_updates : list (list (N * list statistics)) :=
  (fun i => [(3%N, [{| transmittedPackets := Z.of_nat i; transmittedBytes := 100 * Z.of_nat i; receivedPackets := 0; receivedBytes := 0 |}])])
    <$> seq 0 11.

Example statistics_example :
  match get_interface_statistics (1 # 10) 3 (foldl (fun c u => simulation_periodic_update u c) ∅ example_updates) with
  | Ok [o] => (txPackets o, Qred (txPacketRate o), Qred (txBitRate o)) = (10%Z, 10%Q, 8000%Q)
  | _ => False
  end.
Proof. by vm_compute. Qed.

Lemma get_interface_statistics_spec_witness :
  let c := foldl (fun c u => simulation_periodic_update u c) ∅ example_updates in
  let r := get_interface_statistics (1 # 10) 3 c in
  match reverse (samples 3 example_updates) !! 9, last (samples 3 example_updates) with
  | Some first, Some last =>
      if decide (length last <= length first)
      then exists os, r = Ok os /\ Forall2 (fun fs o => stats_between fs.1 fs.2 ((1 # 10) * 9) o) (zip first last) os /\ length os = length last
      else r = Err IndexError
  | _, _ => r = Ok []
  end.
Proof. apply (get_interface_statistics_spec example_updates 3 (1 # 10)). lra. Defined.
