(* ===== verification/VizConsole.v ===== *)
(** * [visualizer/ipython_view.py]: the console

    The history and the completion of [IterableIPShell], the text of [ConsoleView], and
    the keys of [IPythonView].  The text buffer of GTK is the class [TextBuffer], with the
    laws that GTK documents; IPython is the record [ip_ops].  What is given to
    [GObject.idle_add] is run later, in order, and keys may come in between. *)

From S2P Require Import Prelude StateM.

(** ** [IterableIPShell]: the history *)

(** [s.strip('\n')] *)
Definition drop_newlines (s : pystr) : pystr := snd (span (fun c => bool_decide (c = NL)) s).
Definition strip_newlines (s : pystr) : pystr := reverse (drop_newlines (reverse (drop_newlines s))).

(** [In] is [self.IP.user_ns['In']]: the commands, after an empty one. *)
Definition getHistory (In : list pystr) (history_level : Z) : pystr :=
  match py_get In history_level with Ok s => strip_newlines s | Err _ => [] end.

(** The level and the command. *)
Definition historyBack (In : list pystr) (history_level : Z) : Z * pystr :=
  let history_level := (history_level - 1)%Z in
  let history_level := if bool_decide (getHistory In history_level = []) then (history_level + 1)%Z else history_level in
  (history_level, getHistory In history_level).

Definition historyForward (In : list pystr) (history_level : Z) : Z * pystr :=
  let history_level := if Z.ltb history_level 0 then (history_level + 1)%Z else history_level in
  (history_level, getHistory In history_level).

(** ** [complete] *)

(** [\s] and the brackets, on characters of 8 bits *)
Definition complete_sep (c : ascii) : bool :=
  is_ws c || bool_decide (c ∈ ["{"; "}"; "["; "]"; "("; ")"]%char).

(** [self.complete_sep.split(line)[-1]] *)
Fixpoint last_word (line : pystr) : pystr :=
  match line with
  | [] => []
  | c :: l => if existsb complete_sep l then last_word l else if complete_sep c then l else c :: l
  end.

(** [commonPrefix]: [str1], cut before the first character that [str2] has not. *)
Fixpoint common_loop (n i : nat) (str1 str2 : pystr) : pystr :=
  match n with
  | O => str1
  | S n => if startswith str2 (take (S i) str1) then common_loop n (S i) str1 str2 else take i str1
  end.

Definition commonPrefix (str1 str2 : pystr) : pystr := common_loop (length str1) 0 str1 str2.

(** [functools.reduce(f, l)] *)
Definition py_reduce {A} (f : A -> A -> A) (l : list A) : py A :=
  match l with [] => Err TypeError | a :: l => Ok (foldl f a l) end.

(** [ip_complete] is [self.IP.complete]: what it completed, and the possibilities. *)
Definition complete (ip_complete : pystr -> pystr * list pystr) (line : pystr) : py (pystr * list pystr) :=
  let word := last_word line in
  let possibilities := if bool_decide (word = []) then ([], []) else ip_complete word in
  match possibilities.2 with
  | [] => Ok (line, [])
  | l =>
      let! prefix := py_reduce commonPrefix l in
      let! prefix := (if bool_decide (prefix = []) then let! c := py_get line (-1) in Ok [c] else Ok prefix) in
      Ok (py_upto line (- py_len word) ++ prefix, l)
  end.

(** ** [write]: the colours of a text *)

(** [\x01?\x1b\[(.*?)m\x02?] at the head of a text: what the group matched, and the rest. *)
Definition ESC : ascii := "027"%char.

(** [.*?m] *)
Fixpoint read_tag (s : pystr) : option (pystr * pystr) :=
  match s with
  | [] => None
  | c :: s =>
      if decide (c = "m"%char) then Some ([], s)
      else if decide (c = NL) then None
      else match read_tag s with Some (t, r) => Some (c :: t, r) | None => None end
  end.

(** [c?] before something that does not begin with [c] *)
Definition drop_option (c : ascii) (s : pystr) : pystr :=
  match s with a :: r => if decide (a = c) then r else s | [] => [] end.

Definition color_at (s : pystr) : option (pystr * pystr) :=
  match take_lit [ESC; "["%char] (drop_option "001" s) with
  | None => None
  | Some r =>
      match read_tag r with
      | None => None
      | Some (t, r) => Some (t, drop_option "002" r)
      end
  end.

(** [color_pat.split(text)]: the first segment, and each tag with the segment after it.
    [fuel] is at least the length of the text. *)
Fixpoint color_split (fuel : nat) (s : pystr) : pystr * list (pystr * pystr) :=
  match fuel with
  | O => ([], [])
  | S fuel =>
      match color_at s with
      | Some (t, r) => let '(seg, l) := color_split fuel r in ([], (t, seg) :: l)
      | None =>
          match s with
          | [] => ([], [])
          | c :: s => let '(seg, l) := color_split fuel s in (c :: seg, l)
          end
      end
  end.

Definition split_colors (text : pystr) : pystr * list (pystr * pystr) := color_split (S (length text)) text.

(** The position of the first element equal to [x]. *)
Fixpoint py_index (x : pystr) (l : list pystr) : py nat :=
  match l with
  | [] => Err ValueError
  | y :: l => if decide (y = x) then Ok 0 else let! i := py_index x l in Ok (S i)
  end.

(** ** The buffer of GTK *)

Inductive mark := line_start | insert_mark | selection_bound | start_mark.

#[export] Instance mark_eq_dec : EqDecision mark.
Proof. solve_decision. Defined.

(** [create_mark(..., True)]: a mark with left gravity stays before what is inserted at it. *)
Definition left_gravity (m : mark) : bool :=
  match m with line_start | start_mark => true | insert_mark | selection_bound => false end.

(** A buffer is seen as its characters with their tags, and the offsets of its marks.  The tags
    of the texts that are written are taken to be in the table of the buffer, as those of the
    colours of IPython are. *)
Class TextBuffer (B : Type) := {
  tb_chars : B -> list (ascii * list pystr);
  tb_mark : B -> mark -> nat;
  tb_insert : nat -> pystr -> list pystr -> B -> B;        (* insert, insert_with_tags_by_name *)
  tb_delete : nat -> nat -> B -> B;
  tb_apply_tag : pystr -> nat -> nat -> B -> B;
  tb_move_mark : mark -> nat -> B -> B;                    (* move_mark; create_mark of [start_mark] *)
  tb_forward_to_line_end : B -> nat -> nat
}.

Definition tb_text `{TextBuffer B} (b : B) : pystr := (tb_chars b).*1.
Definition tb_end `{TextBuffer B} (b : B) : nat := length (tb_chars b).

(** What GTK documents of them, for offsets within the text.  What is inserted within a range
    of a tag gets the tag ([inherited]). *)
Definition inherited (cs : list (ascii * list pystr)) (p : nat) : list pystr :=
  match p with
  | O => []
  | S q => match cs !! q, cs !! p with Some a, Some b => filter (fun t => t ∈ b.2) a.2 | _, _ => [] end
  end.

Class TextBufferLaws (B : Type) `{TextBuffer B} : Prop := {
  chars_insert : forall p s ts (b : B), p <= tb_end b ->
    tb_chars (tb_insert p s ts b) =
      take p (tb_chars b) ++ ((fun c => (c, ts ++ inherited (tb_chars b) p)) <$> s) ++ drop p (tb_chars b);
  mark_insert : forall p s ts (b : B) m, p <= tb_end b ->
    tb_mark (tb_insert p s ts b) m =
      if decide (tb_mark b m < p \/ tb_mark b m = p /\ left_gravity m = true) then tb_mark b m else tb_mark b m + length s;
  chars_delete : forall p q (b : B), p <= q <= tb_end b ->
    tb_chars (tb_delete p q b) = take p (tb_chars b) ++ drop q (tb_chars b);
  mark_delete : forall p q (b : B) m, p <= q <= tb_end b ->
    tb_mark (tb_delete p q b) m =
      if decide (tb_mark b m <= p) then tb_mark b m else if decide (tb_mark b m <= q) then p else tb_mark b m - (q - p);
  chars_apply_tag : forall t p q (b : B), p <= q <= tb_end b ->
    tb_chars (tb_apply_tag t p q b) =
      imap (fun i c => if decide (p <= i < q) then (c.1, t :: c.2) else c) (tb_chars b);
  mark_apply_tag : forall t p q (b : B) m, tb_mark (tb_apply_tag t p q b) m = tb_mark b m;
  chars_move_mark : forall m p (b : B), tb_chars (tb_move_mark m p b) = tb_chars b;
  mark_move_mark : forall m p (b : B) m', p <= tb_end b ->
    tb_mark (tb_move_mark m p b) m' = if decide (m' = m) then p else tb_mark b m';
  mark_bound : forall (b : B) m, tb_mark b m <= tb_end b;
  line_end_range : forall (b : B) p, p <= tb_end b -> p <= tb_forward_to_line_end b p <= tb_end b;
  (* the end of the line, or of the text; of the next line for the end of a line *)
  line_end_last : forall (b : B) p, p <= tb_end b -> NL ∉ drop p (tb_text b) -> tb_forward_to_line_end b p = tb_end b;
  line_end_within : forall (b : B) p u v, p <= tb_end b -> drop p (tb_text b) = u ++ NL :: v -> u <> [] -> NL ∉ u ->
    tb_forward_to_line_end b p = p + length u
}.

(** ** [ConsoleView] *)

Section console_view.
Context {B : Type} `{TextBuffer B}.

Definition insert_end (s : pystr) (ts : list pystr) : stM B () := mset (fun b => tb_insert (tb_end b) s ts b).
Definition place_cursor (f : B -> nat) : stM B () :=
  mset (fun b => let p := f b in tb_move_mark selection_bound p (tb_move_mark insert_mark p b)).

(** The loop over the tags: each is looked up among the segments and the tags that are left. *)
Fixpoint insert_tags (ansi_tags segments : list pystr) : stM B () :=
  match ansi_tags with
  | [] => mret tt
  | tag :: ansi_tags =>
      do! i := mlift (py_index tag segments) in
      do! text := mlift (or_raise IndexError (segments !! S i)) in
      insert_end text [tag] >>>
      insert_tags ansi_tags (delete i segments)
  end.

Definition notouch : pystr := $"notouch".

Definition write (text : pystr) (editable : bool) : stM B () :=
  let '(segment, l) := split_colors text in
  mset (fun b => tb_move_mark start_mark (tb_end b) b) >>>
  insert_end segment [] >>>
  insert_tags l.*1 (l ≫= fun ts => [ts.1; ts.2]) >>>
  (if editable then mret tt else mset (fun b => tb_apply_tag notouch (tb_mark b start_mark) (tb_end b) b)).

Definition showPrompt (prompt : pystr) : stM B () :=
  write prompt false >>> mset (fun b => tb_move_mark line_start (tb_end b) b).

Definition changeLine (text : pystr) : stM B () :=
  mset (fun b => tb_delete (tb_mark b line_start) (tb_forward_to_line_end b (tb_mark b line_start)) b) >>>
  write text true.

Definition getCurrentLine (b : B) : pystr := drop (tb_mark b line_start) (tb_text b).

(** [indentation] is that of the next line, [None] when [IP.rl_do_indent] is false. *)
Definition showReturned (text prompt : pystr) (indentation : option nat) : stM B () :=
  mset (fun b => tb_apply_tag notouch (tb_mark b line_start) (tb_forward_to_line_end b (tb_mark b line_start)) b) >>>
  write (NL :: text) false >>>
  (if decide (text = []) then mret tt else write [NL] false) >>>
  showPrompt prompt >>>
  mset (fun b => tb_move_mark line_start (tb_end b) b) >>>
  place_cursor tb_end >>>
  match indentation with
  | None => mret tt
  | Some n => mset (fun b => tb_insert (tb_mark b insert_mark) (replicate n " "%char) [] b)
  end.

(** *** Keys *)

Inductive keyval := Home | Left | Return | Up | Down | Tab | KeyC | OtherKey.

#[export] Instance keyval_eq_dec : EqDecision keyval.
Proof. solve_decision. Defined.

(** The key, whether [event.string] is not empty, and the modifiers. *)
Record key := { keyval_of : keyval; has_string : bool; control : bool; mod1 : bool; shift : bool }.

(** [insert_iter.editable(True)] *)
Definition editable (b : B) (p : nat) : bool :=
  match tb_chars b !! p with Some c => negb (bool_decide (notouch ∈ c.2)) | None => true end.

(** What [onKeyPress] does before [onKeyPressExtend]: the buffer, and whether it returns
    [True] at once. *)
Definition onKeyPress (ev : key) (b : B) : B * bool :=
  let insert := tb_mark b insert_mark in
  let selection := tb_mark b selection_bound in
  let start := tb_mark b line_start in
  if decide (keyval_of ev = Home) then
    if control ev || mod1 ev then (b, false)
    else if shift ev then (tb_move_mark insert_mark start b, true)
    else ((place_cursor (fun _ => start) b).1, true)
  else if decide (keyval_of ev = Left) then (b, negb (editable b (insert - 1)))
  else if negb (has_string ev) then (b, false)
  else if decide (start <= insert /\ start <= selection) then (b, false)
  else if decide (insert < start /\ selection < start) then ((place_cursor (fun _ => start) b).1, false)
  else if decide (insert < selection) then (tb_move_mark insert_mark start b, false)
  else if decide (selection < insert) then (tb_move_mark selection_bound start b, false)
  else (b, false).

End console_view.

(** ** [IPythonView] *)

(** IPython: the prompt, the settings it has, and what is written to [cout] by an operation. *)
Record ip_ops (I : Type) := {
  ip_prompt : bool -> I -> pystr;                     (* generatePrompt *)
  ip_pre_prompt_hook : I -> I * pystr;
  ip_autoindent : I -> bool;
  ip_rl_do_indent : I -> bool;
  ip_set_indent : bool -> I -> I;
  ip_indent_spaces : I -> nat;
  ip_reset : I -> I;                                  (* input_splitter.reset *)
  ip_push : pystr -> I -> I;                          (* input_splitter.push *)
  ip_accepts_more : I -> bool;                        (* push_accepts_more *)
  ip_syntax_error : I -> bool;                        (* last_syntax_error and autoedit_syntax *)
  ip_edit_syntax_error : I -> I * pystr;
  ip_run_cell : I -> I * pystr;                       (* run_cell of the reset splitter's source *)
  ip_In : I -> list pystr;                            (* user_ns['In'] *)
  ip_complete : I -> pystr -> pystr * list pystr
}.
Arguments ip_prompt {I}. Arguments ip_pre_prompt_hook {I}. Arguments ip_autoindent {I}. Arguments ip_rl_do_indent {I}.
Arguments ip_set_indent {I}. Arguments ip_indent_spaces {I}. Arguments ip_reset {I}. Arguments ip_push {I}.
Arguments ip_accepts_more {I}. Arguments ip_syntax_error {I}. Arguments ip_edit_syntax_error {I}. Arguments ip_run_cell {I}.
Arguments ip_In {I}. Arguments ip_complete {I}.

(** What was given to [idle_add]. *)
Inductive job :=
| JWrite (text : pystr) (editable : bool)
| JShowPrompt (prompt : pystr)
| JChangeLine (text : pystr)
| JShowReturned (text : pystr).

Section ipython_view.
Context {B I : Type} `{TextBuffer B} (ops : ip_ops I).

Record view := {
  buffer : B; idle : list job; ip : I; iter_more : bool; history_level : Z;
  prompt : pystr; interrupt : bool; cout : pystr
}.

Definition with_buffer (b : B) (v : view) : view :=
  {| buffer := b; idle := idle v; ip := ip v; iter_more := iter_more v; history_level := history_level v;
     prompt := prompt v; interrupt := interrupt v; cout := cout v |}.
Definition idle_add (j : job) (v : view) : view :=
  {| buffer := buffer v; idle := idle v ++ [j]; ip := ip v; iter_more := iter_more v; history_level := history_level v;
     prompt := prompt v; interrupt := interrupt v; cout := cout v |}.
Definition set_idle (l : list job) (v : view) : view :=
  {| buffer := buffer v; idle := l; ip := ip v; iter_more := iter_more v; history_level := history_level v;
     prompt := prompt v; interrupt := interrupt v; cout := cout v |}.
Definition set_ip (i : I) (v : view) : view :=
  {| buffer := buffer v; idle := idle v; ip := i; iter_more := iter_more v; history_level := history_level v;
     prompt := prompt v; interrupt := interrupt v; cout := cout v |}.
Definition set_iter_more (m : bool) (v : view) : view :=
  {| buffer := buffer v; idle := idle v; ip := ip v; iter_more := m; history_level := history_level v;
     prompt := prompt v; interrupt := interrupt v; cout := cout v |}.
Definition set_history_level (l : Z) (v : view) : view :=
  {| buffer := buffer v; idle := idle v; ip := ip v; iter_more := iter_more v; history_level := l;
     prompt := prompt v; interrupt := interrupt v; cout := cout v |}.
Definition set_prompt (p : pystr) (v : view) : view :=
  {| buffer := buffer v; idle := idle v; ip := ip v; iter_more := iter_more v; history_level := history_level v;
     prompt := p; interrupt := interrupt v; cout := cout v |}.
Definition set_interrupt (i : bool) (v : view) : view :=
  {| buffer := buffer v; idle := idle v; ip := ip v; iter_more := iter_more v; history_level := history_level v;
     prompt := prompt v; interrupt := i; cout := cout v |}.
Definition set_cout (s : pystr) (v : view) : view :=
  {| buffer := buffer v; idle := idle v; ip := ip v; iter_more := iter_more v; history_level := history_level v;
     prompt := prompt v; interrupt := interrupt v; cout := s |}.

(** An operation of IPython that writes. *)
Definition on_ip (f : I -> I * pystr) (v : view) : view :=
  let '(i, s) := f (ip v) in set_cout (cout v ++ s) (set_ip i v).

(** The line, or [None] for a [KeyboardInterrupt]. *)
Definition raw_input (v : view) : view * option pystr :=
  if interrupt v then (set_interrupt false v, None) else (v, Some (getCurrentLine (buffer v))).

Definition execute (v : view) : view :=
  let v := set_history_level 0 v in
  let v := set_prompt (ip_prompt ops (iter_more v) (ip v)) v in
  let v := on_ip (ip_pre_prompt_hook ops) v in
  let v :=
    if iter_more v then
      let v := set_prompt (ip_prompt ops true (ip v)) v in
      if ip_autoindent ops (ip v) then set_ip (ip_set_indent ops true (ip v)) v else v
    else v in
  match raw_input v with
  | (v, None) => set_ip (ip_reset ops (ip v)) (set_cout (cout v ++ [NL] ++ $"KeyboardInterrupt" ++ [NL]) v)
  | (v, Some line) =>
      let v := set_ip (ip_push ops line (ip v)) v in
      let v := set_iter_more (ip_accepts_more ops (ip v)) v in
      let v := set_prompt (ip_prompt ops (iter_more v) (ip v)) v in
      let v := if ip_syntax_error ops (ip v) then on_ip (ip_edit_syntax_error ops) v else v in
      if iter_more v then set_ip (ip_set_indent ops true (ip v)) v
      else let v := on_ip (ip_run_cell ops) v in set_ip (ip_set_indent ops false (ip v)) v
  end.

Definition processLine (v : view) : view :=
  let v := execute v in
  set_cout [] (idle_add (JShowReturned (strip_newlines (cout v))) v).

(** [for symbol in possibilities: self.write(symbol + '\n')] *)
Definition list_possibilities (l : list pystr) (v : view) : view :=
  foldl (fun v symbol => idle_add (JWrite (symbol ++ [NL]) false) v) v l.

(** The view after the key, and whether the event stops there. *)
Definition onKeyPressExtend (ev : key) (v : view) : view * py bool :=
  if control ev && bool_decide (keyval_of ev = KeyC) then (processLine (set_interrupt true v), Ok true)
  else match keyval_of ev with
  | Return => (processLine v, Ok true)
  | Up => let '(l, s) := historyBack (ip_In ops (ip v)) (history_level v) in
          (idle_add (JChangeLine s) (set_history_level l v), Ok true)
  | Down => let '(l, s) := historyForward (ip_In ops (ip v)) (history_level v) in
            (idle_add (JChangeLine s) (set_history_level l v), Ok true)
  | Tab =>
      let line := getCurrentLine (buffer v) in
      if decide (strip line = []) then (v, Ok false)
      else match complete (ip_complete ops (ip v)) line with
      | Err e => (v, Err e)
      | Ok (completed, possibilities) =>
          let v :=
            if 1 <? length possibilities then
              idle_add (JShowPrompt (prompt v)) (list_possibilities possibilities (idle_add (JWrite [NL] false) v))
            else v in
          match completed with
          | [] => if 1 <? length possibilities then (idle_add (JChangeLine line) v, Ok true) else (v, Err UnboundLocalError)
          | _ => (idle_add (JChangeLine completed) v, Ok true)
          end
      end
  | _ => (v, Ok false)
  end.

(** A job of the main loop; what it raises is printed elsewhere. *)
Definition run_job (j : job) (v : view) : view :=
  let run (m : stM B ()) := with_buffer (m (buffer v)).1 v in
  match j with
  | JWrite text editable => run (write text editable)
  | JShowPrompt p => run (showPrompt p)
  | JChangeLine text => run (changeLine text)
  | JShowReturned text =>
      run (showReturned text (prompt v) (if ip_rl_do_indent ops (ip v) then Some (ip_indent_spaces ops (ip v)) else None))
  end.

Definition run_idle (v : view) : view :=
  match idle v with [] => v | j :: l => run_job j (set_idle l v) end.

(** A key: the handlers, and the binding of GTK unless one stopped the event. *)
Definition press (binding : key -> B -> B) (ev : key) (v : view) : view :=
  let '(b, stop) := onKeyPress ev (buffer v) in
  let v := with_buffer b v in
  if stop then v
  else match onKeyPressExtend ev v with
  | (v, Ok true) => v
  | (v, _) => with_buffer (binding ev (buffer v)) v
  end.

End ipython_view.

(** ** The history *)

(** The commands as they are shown, [d] commands back. *)
Definition command_back (cmds : list pystr) (d : nat) : pystr :=
  match d with O => [] | S d => strip_newlines (default [] (reverse cmds !! d)) end.

Lemma getHistory_back cmds d : d <= length cmds -> getHistory ([] :: cmds) (- Z.of_nat d)%Z = command_back cmds d.
Proof.
  intros Hd. unfold getHistory, py_get, py_len. destruct d as [|d]; [done|].
  rewrite (proj2 (Z.ltb_lt _ _)) by lia. cbn [length].
  rewrite (proj2 (Z.leb_le _ _)), (proj2 (Z.ltb_lt _ _)) by lia. cbn [andb].
  replace (Z.to_nat _) with (S (length cmds - S d)) by lia. cbn [command_back].
  change ((([] : pystr) :: cmds) !! S (length cmds - S d)) with (cmds !! (length cmds - S d)).
  rewrite reverse_lookup by lia. destruct (lookup_lt_is_Some_2 cmds (length cmds - S d)) as [c Hc]; [lia|].
  by rewrite Hc.
Qed.

Lemma getHistory_before cmds : getHistory ([] :: cmds) (- Z.of_nat (S (length cmds)))%Z = [].
Proof.
  unfold getHistory, py_get, py_len. cbn [length]. rewrite (proj2 (Z.ltb_lt _ _)) by lia.
  rewrite (proj2 (Z.leb_le _ _)), (proj2 (Z.ltb_lt _ _)) by lia. cbn [andb]. by replace (Z.to_nat _) with 0 by lia.
Qed.

(** Up and Down, from [d] commands back. *)
Definition walk (n : nat) (back : bool) (d : nat) : nat := if back then Nat.min (S d) n else d - 1.

Lemma history_step cmds (back : bool) d : Forall (fun c => strip_newlines c <> []) cmds -> d <= length cmds ->
  (if back then historyBack else historyForward) ([] :: cmds) (- Z.of_nat d)%Z =
  ((- Z.of_nat (walk (length cmds) back d))%Z, command_back cmds (walk (length cmds) back d)).
Proof.
  intros Hc Hd. destruct back; cbn [walk].
  - unfold historyBack. replace (- Z.of_nat d - 1)%Z with (- Z.of_nat (S d))%Z by lia.
    destruct (decide (d = length cmds)) as [->|Hne].
    + rewrite getHistory_before, bool_decide_true by done. replace (- Z.of_nat (S (length cmds)) + 1)%Z with (- Z.of_nat (length cmds))%Z by lia.
      by rewrite getHistory_back, Nat.min_r by lia.
    + rewrite getHistory_back, Nat.min_l by lia. rewrite bool_decide_false; [by rewrite getHistory_back by lia|].
      cbn [command_back]. destruct (lookup_lt_is_Some_2 (reverse cmds) d) as [c Hr]; [rewrite length_reverse; lia|].
      rewrite Hr. cbn. rewrite Forall_forall in Hc. apply Hc. rewrite <- elem_of_reverse. by eapply list_elem_of_lookup_2.
  - unfold historyForward. destruct d as [|d]; [done|].
    rewrite (proj2 (Z.ltb_lt _ _)) by lia. replace (- Z.of_nat (S d) + 1)%Z with (- Z.of_nat (S d - 1))%Z by lia.
    by rewrite getHistory_back by lia.
Qed.

(** ** Completion *)

Lemma startswith_prefix s p : startswith s p = true <-> p `prefix_of` s.
Proof. rewrite startswith_spec. done. Qed.

Lemma prefix_shorter {A} (l1 l2 l3 : list A) : l1 `prefix_of` l3 -> l2 `prefix_of` l3 -> length l1 <= length l2 -> l1 `prefix_of` l2.
Proof.
  intros H1 H2 Hl. destruct (prefix_weak_total l1 l2 l3) as [|H]; [done..|]. by rewrite (prefix_length_eq _ _ H) by lia.
Qed.

(** [common_loop] from an index up to which the strings agree. *)
Lemma common_loop_spec n i a b : i + n = length a -> take i a `prefix_of` b ->
  let p := common_loop n i a b in
  p `prefix_of` a /\ p `prefix_of` b /\ forall q, q `prefix_of` a -> q `prefix_of` b -> q `prefix_of` p.
Proof.
  revert i. induction n as [|n IH]; intros i Hi Hp; cbn [common_loop].
  - rewrite take_ge in Hp by lia. done.
  - destruct (startswith b (take (S i) a)) eqn:E; [apply IH; [lia|by apply startswith_prefix]|].
    split; [apply prefix_take|]. split; [done|]. intros q Ha Hb.
    apply (prefix_shorter _ _ a); [done|apply prefix_take|]. rewrite length_take. apply Nat.nlt_ge. intros Hlt.
    assert (startswith b (take (S i) a) = true); [|congruence]. apply startswith_prefix. etrans; [|exact Hb].
    apply (prefix_shorter _ _ a); [apply prefix_take|done|]. rewrite length_take. lia.
Qed.

Lemma commonPrefix_spec a b :
  commonPrefix a b `prefix_of` a /\ commonPrefix a b `prefix_of` b /\
  forall q, q `prefix_of` a -> q `prefix_of` b -> q `prefix_of` commonPrefix a b.
Proof. apply common_loop_spec; [done|]. apply prefix_nil. Qed.

Lemma reduce_prefix_spec l a :
  let p := foldl commonPrefix a l in
  p `prefix_of` a /\ Forall (fun x => p `prefix_of` x) l /\
  forall q, q `prefix_of` a -> Forall (fun x => q `prefix_of` x) l -> q `prefix_of` p.
Proof.
  revert a. induction l as [|x l IH]; intros a; cbn [foldl]; [by split; [|split; [constructor|]]|].
  destruct (commonPrefix_spec a x) as (H1 & H2 & H3). destruct (IH (commonPrefix a x)) as (G1 & G2 & G3).
  split; [by etrans|]. split; [constructor; [by etrans|done]|].
  intros q Ha [Hx Hl]%Forall_cons. apply G3; [by apply H3|done].
Qed.

Lemma last_word_suffix line : exists u, line = u ++ last_word line.
Proof.
  induction line as [|c l [u E]]; [by exists []|]. cbn [last_word].
  destruct (existsb complete_sep l); [by exists (c :: u); cbn; rewrite <- E|]. destruct (complete_sep c); [by exists [c]|by exists []].
Qed.

(** When IPython gives possibilities that all extend the last word of the line, the line is
    completed by the longest text they have in common, and otherwise it stays as it is. *)
Theorem complete_spec ip_complete line :
  let word := last_word line in
  let possibilities := if bool_decide (word = []) then [] else (ip_complete word).2 in
  Forall (fun x => word `prefix_of` x) possibilities ->
  exists u completed, line = u ++ word /\ complete ip_complete line = Ok (u ++ completed, possibilities) /\
    word `prefix_of` completed /\
    (possibilities = [] -> completed = word) /\
    (possibilities <> [] -> Forall (fun x => completed `prefix_of` x) possibilities /\
       forall q, Forall (fun x => q `prefix_of` x) possibilities -> q `prefix_of` completed).
Proof.
  intros word possibilities Hp. destruct (last_word_suffix line) as [u E]. fold word in E. unfold complete. fold word.
  assert ((if bool_decide (word = []) then ([], []) else ip_complete word).2 = possibilities) as -> by (unfold possibilities; by case_bool_decide).
  destruct possibilities as [|a l] eqn:Ep; [exists u, word; split_and!; try done; by rewrite <- E|].
  destruct (reduce_prefix_spec l a) as (H1 & H2 & H3). set (p := foldl commonPrefix a l) in *. cbn [py_reduce rbind]. fold p.
  apply Forall_cons in Hp as [Ha Hl]. specialize (H3 word Ha Hl) as Hw.
  assert (word <> []) as Hne by (intros Hn; unfold possibilities in Ep; by rewrite bool_decide_true in Ep).
  rewrite bool_decide_false by (intros Hn; rewrite Hn in Hw; by apply prefix_nil_inv in Hw). cbn [rbind].
  exists u, p. split; [done|]. split.
  { f_equal. f_equal. f_equal. unfold py_upto, py_bound, py_len. rewrite E, length_app.
    rewrite (proj2 (Z.ltb_lt _ _)) by (destruct word; [done|cbn; lia]).
    replace (Z.to_nat _) with (length u) by lia. by rewrite take_app_length. }
  split; [done|]. split; [done|]. intros _. split; [by constructor|]. intros q [Hqa Hql]%Forall_cons. by apply H3.
Qed.

(** ** Writing *)

Section writing.
Context {B : Type} {TB : TextBuffer B} {TBL : TextBufferLaws B}.
Implicit Types b : B.

Definition tagged (ts : list pystr) (s : pystr) : list (ascii * list pystr) := (fun c => (c, ts)) <$> s.

(** What the loop over the tags inserts, and what [write] does, in full. *)
Fixpoint inserted (ansi_tags segments : list pystr) : py (list (ascii * list pystr)) :=
  match ansi_tags with
  | [] => Ok []
  | tag :: ansi_tags =>
      let! i := py_index tag segments in
      let! text := or_raise IndexError (segments !! S i) in
      let! l := inserted ansi_tags (delete i segments) in
      Ok (tagged [tag] text ++ l)
  end.

Definition written (text : pystr) : py (list (ascii * list pystr)) :=
  let '(segment, l) := split_colors text in
  let! r := inserted l.*1 (l ≫= fun ts => [ts.1; ts.2]) in Ok (tagged [] segment ++ r).

Definition lock (l : list (ascii * list pystr)) : list (ascii * list pystr) := (fun c => (c.1, notouch :: c.2)) <$> l.

(** [b'] is [b] with more text at the end: the marks that stay before what is inserted stay,
    the cursor goes on when it was at the end. *)
Record appends (l : list (ascii * list pystr)) b b' : Prop := {
  ap_chars : tb_chars b' = tb_chars b ++ l;
  ap_start : tb_mark b' line_start = tb_mark b line_start;
  ap_cursor : forall m, left_gravity m = false ->
    tb_mark b' m = if decide (tb_mark b m = tb_end b) then tb_end b' else tb_mark b m
}.

Lemma appends_refl b : appends [] b b.
Proof. split; [by rewrite app_nil_r|done|]. intros m _. by case_decide. Qed.

Lemma appends_end l b b' : appends l b b' -> tb_end b' = tb_end b + length l.
Proof. intros Ha. unfold tb_end. by rewrite (ap_chars _ _ _ Ha), length_app. Qed.

Lemma appends_trans l1 l2 b1 b2 b3 : appends l1 b1 b2 -> appends l2 b2 b3 -> appends (l1 ++ l2) b1 b3.
Proof.
  intros H1 H2. pose proof (appends_end _ _ _ H1). split.
  - by rewrite (ap_chars _ _ _ H2), (ap_chars _ _ _ H1), (assoc_L (++)).
  - by rewrite (ap_start _ _ _ H2), (ap_start _ _ _ H1).
  - intros m Hm. rewrite (ap_cursor _ _ _ H2), (ap_cursor _ _ _ H1) by done. pose proof (mark_bound b1 m).
    destruct (decide (tb_mark b1 m = tb_end b1)); [by rewrite decide_True|].
    case_decide; [|done]. exfalso. lia.
Qed.

Lemma inherited_end b : inherited (tb_chars b) (tb_end b) = [].
Proof.
  unfold inherited. destruct (tb_end b) eqn:E; [done|]. rewrite <- E, (lookup_ge_None_2 (tb_chars b) (tb_end b)) by done. by case_match.
Qed.

Lemma insert_end_appends s ts b : appends (tagged ts s) b (tb_insert (tb_end b) s ts b) /\
  tb_mark (tb_insert (tb_end b) s ts b) start_mark = tb_mark b start_mark.
Proof.
  assert (tb_chars (tb_insert (tb_end b) s ts b) = tb_chars b ++ tagged ts s) as Ec.
  { rewrite chars_insert by done. unfold tb_end. rewrite firstn_all, drop_all, app_nil_r. fold (tb_end b).
    rewrite inherited_end, app_nil_r. done. }
  assert (forall m, left_gravity m = true -> tb_mark (tb_insert (tb_end b) s ts b) m = tb_mark b m) as Hl.
  { intros m Hm. pose proof (mark_bound b m). rewrite mark_insert, decide_True; [done| |done].
    destruct (decide (tb_mark b m = tb_end b)); [by right|left; lia]. }
  split; [|by apply Hl]. split; [done|by apply Hl|]. intros m Hm. rewrite mark_insert by done. pose proof (mark_bound b m).
  destruct (decide (tb_mark b m = tb_end b)) as [E|].
  - rewrite decide_False by (rewrite Hm; intros [?|[_ ?]]; [lia|done]). rewrite E. unfold tb_end at 2. rewrite Ec, length_app.
    unfold tagged. by rewrite length_fmap.
  - rewrite decide_True by lia. done.
Qed.

Lemma insert_tags_appends tags segments b : exists l,
  appends l b (insert_tags tags segments b).1 /\
  tb_mark (insert_tags tags segments b).1 start_mark = tb_mark b start_mark /\
  match inserted tags segments with
  | Ok l' => (insert_tags tags segments b).2 = Ok tt /\ l = l'
  | Err e => (insert_tags tags segments b).2 = Err e
  end.
Proof.
  revert segments b. induction tags as [|tag tags IH]; intros segments b; cbn [insert_tags inserted].
  { exists []. split; [apply appends_refl|by repeat split]. }
  unfold gbind, mlift. destruct (py_index tag segments) as [i|e]; cbn [rbind]; [|exists []; split; [apply appends_refl|by split]].
  destruct (segments !! S i) as [text|]; cbn [or_raise rbind]; [|exists []; split; [apply appends_refl|by split]].
  unfold insert_end, mset. destruct (insert_end_appends text [tag] b) as [Ha Hm].
  destruct (IH (delete i segments) (tb_insert (tb_end b) text [tag] b)) as (l & Hl & Hs & Hr).
  destruct (insert_tags tags (delete i segments) _) as [b' r] eqn:E. cbn [fst snd] in *.
  exists (tagged [tag] text ++ l). split; [by eapply appends_trans|]. split; [by rewrite Hs|].
  destruct (inserted tags (delete i segments)); cbn [rbind]; [|done]. by destruct Hr as [-> ->].
Qed.

(** Whatever is written is added at the end; unless the loop over the tags raises it is
    [written], and locked when it is not editable. *)
Lemma write_appends text ed b : exists l,
  appends l b (write text ed b).1 /\
  match written text with
  | Ok w => (write text ed b).2 = Ok tt /\ l = if ed then w else lock w
  | Err e => (write text ed b).2 = Err e
  end.
Proof.
  unfold write, written. destruct (split_colors text) as [segment segs].
  unfold insert_end, gbind, mset. cbv beta iota. set (b0 := tb_move_mark start_mark (tb_end b) b).
  assert (tb_chars b0 = tb_chars b) as Ec by apply chars_move_mark.
  assert (tb_end b0 = tb_end b) as Ee by (unfold tb_end; by rewrite Ec).
  assert (tb_mark b0 start_mark = tb_end b) as Es by (unfold b0; by rewrite mark_move_mark, decide_True).
  assert (appends [] b b0) as H0.
  { split; [by rewrite app_nil_r|unfold b0; by rewrite mark_move_mark, decide_False|].
    intros m Hm. unfold b0 at 1. rewrite mark_move_mark, decide_False by (try done; by intros ->). rewrite Ee. by case_decide. }
  destruct (insert_end_appends segment [] b0) as [H1 Hs1].
  set (b1 := tb_insert (tb_end b0) segment [] b0) in *.
  destruct (insert_tags_appends segs.*1 (segs ≫= fun ts => [ts.1; ts.2]) b1) as (l & H2 & Hs2 & Hr).
  destruct (insert_tags _ _ b1) as [b2 r]. cbn [fst snd] in *.
  pose proof (appends_trans _ _ _ _ _ H0 (appends_trans _ _ _ _ _ H1 H2)) as H3. cbn [app] in H3.
  assert (tb_mark b2 start_mark = tb_end b) as Hs by congruence.
  destruct (inserted _ _) as [w|e]; cbn [rbind]; [destruct Hr as [-> ->]|subst r; exists (tagged [] segment ++ l); by split].
  destruct ed; [exists (tagged [] segment ++ w); by split|]. exists (lock (tagged [] segment ++ w)). split; [|done].
  cbn [fst]. rewrite Hs. pose proof (appends_end _ _ _ H3) as He.
  destruct H3 as [C3 S3 K3]. set (w' := tagged [] segment ++ w) in *.
  assert (tb_chars (tb_apply_tag notouch (tb_end b) (tb_end b2) b2) = tb_chars b ++ lock w') as Ec3.
  { rewrite chars_apply_tag by lia. rewrite C3, imap_app. f_equal.
    - rewrite <- (list_fmap_id (tb_chars b)) at 2. rewrite <- imap_const. apply imap_ext. intros i c Hi%lookup_lt_Some.
      rewrite decide_False; [done|]. unfold tb_end. lia.
    - unfold lock. rewrite <- imap_const. apply imap_ext. intros i c Hi%lookup_lt_Some. cbn. rewrite decide_True; [done|].
      rewrite He. unfold tb_end. lia. }
  split; [done|by rewrite mark_apply_tag|]. intros m Hm. rewrite mark_apply_tag, K3 by done.
  case_decide; [|done]. symmetry. unfold tb_end at 1. rewrite Ec3, length_app. unfold lock. by rewrite length_fmap, He.
Qed.

End writing.

(** ** Coloured texts *)

Definition marker (marked : bool) (c : ascii) : pystr := if marked then [c] else [].

(** Segments with escapes before them, in the marks of readline or not. *)
Definition escape (marked : bool) (tag : pystr) : pystr :=
  marker marked "001"%char ++ [ESC; "["%char] ++ tag ++ ["m"%char] ++ marker marked "002"%char.

Definition colored (marked : bool) (segment : pystr) (l : list (pystr * pystr)) : pystr :=
  segment ++ (l ≫= fun ts => escape marked ts.1 ++ ts.2).

Definition plain (s : pystr) : Prop := Forall (fun c => c ∉ [ESC; "001"; "002"]%char) s.
Definition tag_text (t : pystr) : Prop := Forall (fun c => c <> "m"%char /\ c <> NL) t.

Lemma read_tag_app t r : tag_text t -> read_tag (t ++ "m"%char :: r) = Some (t, r).
Proof. induction 1 as [|c t [Hm Hn] _ IH]; cbn; [done|]. by rewrite !decide_False, IH. Qed.

(** What follows an escape does not begin with the mark that may end it. *)
Definition no_mark (s : pystr) : Prop := head s <> Some "002"%char.

Lemma color_at_escape marked t r : tag_text t -> no_mark r -> color_at (escape marked t ++ r) = Some (t, r).
Proof.
  intros Ht Hr. unfold color_at.
  assert (drop_option "001" (escape marked t ++ r) = [ESC; "["%char] ++ t ++ "m"%char :: marker marked "002" ++ r) as ->.
  { unfold escape. destruct marked; cbn [marker app drop_option]; [rewrite decide_True by done|rewrite decide_False by done];
      by rewrite <- !app_assoc. }
  rewrite take_lit_app, read_tag_app by done. f_equal. f_equal. destruct marked; [done|].
  cbn [marker app]. destruct r as [|c r]; [done|]. cbn. rewrite decide_False; [done|]. intros ->. by apply Hr.
Qed.

Lemma color_at_plain c s : c ∉ [ESC; "001"; "002"]%char -> color_at (c :: s) = None.
Proof.
  intros Hc. assert (c <> ESC /\ c <> "001"%char) as [H1 H2] by set_solver. unfold color_at. cbn [drop_option].
  rewrite decide_False by done. unfold take_lit. destruct (startswith (c :: s) _) eqn:E; [|done].
  apply startswith_spec in E as [r E]. by injection E.
Qed.

Lemma color_split_plain n seg r : plain seg ->
  color_split (length seg + n) (seg ++ r) = let '(s, l) := color_split n r in (seg ++ s, l).
Proof.
  intros Hs. induction Hs as [|c seg Hc _ IH]; [cbn; by destruct (color_split n r)|]. cbn [length app Nat.add color_split].
  rewrite color_at_plain, IH by done. by destruct (color_split n r).
Qed.

Lemma split_colored marked seg l : plain seg -> Forall (fun ts => tag_text ts.1 /\ plain ts.2) l ->
  split_colors (colored marked seg l) = (seg, l).
Proof.
  intros Hseg Hl. unfold split_colors.
  assert (forall n, length (colored marked seg l) <= n -> color_split (S n) (colored marked seg l) = (seg, l)) as Hn; [|by apply Hn].
  revert seg Hseg. induction Hl as [|[t s] l [Ht Hs] _ IH]; intros seg Hseg n Hn; unfold colored in *; cbn [mbind list_bind] in *.
  - rewrite app_nil_r in *. replace (S n) with (length seg + (S n - length seg)) by lia.
    pose proof (color_split_plain (S n - length seg) seg [] Hseg) as E. rewrite app_nil_r in E. rewrite E.
    destruct (S n - length seg) as [|k] eqn:Ek; [lia|]. assert (color_split (S k) [] = ([], [])) as -> by done. by rewrite app_nil_r.
  - rewrite !length_app in Hn. replace (S n) with (length seg + (S n - length seg)) by lia. rewrite color_split_plain by done.
    assert (no_mark (s ++ (l ≫= fun ts => escape marked ts.1 ++ ts.2))) as Hm.
    { cbn in Hs. destruct Hs as [|c s' Hc _]; [|intros E; cbn in E; injection E as ->; set_solver]. destruct l as [|ts l']; [done|]. by destruct marked. }
    assert (0 < length (escape marked t)) as Hlen by (destruct marked; cbn; lia).
    destruct (S n - length seg) as [|k] eqn:E; [lia|]. cbn [color_split].
    rewrite <- (app_assoc (escape marked t)), color_at_escape by done. cbn [fst snd] in *.
    destruct k as [|k]; [lia|]. rewrite (IH s Hs k); [by rewrite app_nil_r|]. rewrite length_app. lia.
Qed.

Lemma inserted_in_order pre l :
  Forall (fun ts => ts.1 ∉ pre) l -> ForallOrdPairs (fun a b => a.2 <> b.1) l ->
  inserted l.*1 (pre ++ (l ≫= fun ts => [ts.1; ts.2])) = Ok (l ≫= fun ts => tagged [ts.1] ts.2).
Proof.
  intros Hpre Hl. revert pre Hpre. induction Hl as [|[t s] l Ha _ IH]; intros pre Hpre; [done|].
  apply Forall_cons in Hpre as [Ht Hpre]. cbn [fst snd] in *. cbn [fmap list_fmap fst inserted mbind list_bind app].
  assert (forall r, py_index t (pre ++ t :: r) = Ok (length pre)) as ->.
  { clear -Ht. intros r. induction pre as [|a pre IHp]; cbn; [by rewrite decide_True|]. apply list.not_elem_of_cons in Ht as [H1 H2].
    rewrite decide_False by done. by rewrite IHp. }
  cbn [rbind]. rewrite lookup_app_r by lia. replace (S (length pre) - length pre) with 1 by lia. cbn [lookup list_lookup or_raise rbind].
  rewrite delete_middle, cons_middle, (assoc_L (++)). rewrite IH; [done|].
  rewrite Forall_forall in *. intros ts Hts. specialize (Ha ts Hts). specialize (Hpre ts Hts). set_solver.
Qed.

(** A text with colours is shown without its escapes, each segment with the tag of the
    escape before it, when no segment is the text of a later tag. *)
Theorem written_colored marked seg l :
  plain seg -> Forall (fun ts => tag_text ts.1 /\ plain ts.2) l -> ForallOrdPairs (fun a b => a.2 <> b.1) l ->
  written (colored marked seg l) = Ok (tagged [] seg ++ (l ≫= fun ts => tagged [ts.1] ts.2)).
Proof.
  intros Hseg Hl Hne. unfold written. rewrite split_colored by done.
  rewrite (inserted_in_order []); [done| |done]. apply Forall_forall. intros ts _. apply not_elem_of_nil.
Qed.

(** The text of a segment that is the name of a later tag is lost, and shown twice. *)
Example segment_is_tag :
  match written (colored false [] [($"0;31", $"0"); ($"0", $"done")]) with Ok w => w.*1 | Err _ => [] end = $"00".
Proof. vm_compute. reflexivity. Qed.

(** ** What was shown stays *)

Section transcript.
Context {B I : Type} {TB : TextBuffer B} {TBL : TextBufferLaws B} (ops : ip_ops I) (binding : key -> B -> B).
Implicit Types (b : B) (v : view (B := B) (I := I)).

(** The text before the command line, with its tags. *)
Definition transcript b : list (ascii * list pystr) := take (tb_mark b line_start) (tb_chars b).

(** The command line comes after something that is locked. *)
Definition anchored b : Prop :=
  match tb_mark b line_start with O => True | S p => exists c, tb_chars b !! p = Some c /\ notouch ∈ c.2 end.

(** A prompt that is written shows something. *)
Definition visible (prompt : pystr) : Prop := forall w, written prompt = Ok w -> w <> [].

(** The bindings of GTK.  They change a text at the request of the user by inserting at the
    cursor, and by deleting only what is editable ([gtk_text_buffer_delete_interactive] and the
    property [editable] of a tag); then they may move the cursor and the selection. *)
Inductive user_edit b : B -> Prop :=
| edit_insert s ts : user_edit b (tb_insert (tb_mark b insert_mark) s ts b)
| edit_delete p q : p <= q <= tb_end b -> (forall i, p <= i < q -> editable b i = true) -> user_edit b (tb_delete p q b).

Inductive cursor_move b : B -> Prop :=
| move_cursor_to m p : m = insert_mark \/ m = selection_bound -> p <= tb_end b -> cursor_move b (tb_move_mark m p b).

Class BindingLaws : Prop :=
  binding_edits : forall ev b, exists b1, rtc user_edit b b1 /\ rtc cursor_move b1 (binding ev b).

(** A key for which [onKeyPress] brings the cursor to the command line. *)
Definition edits (ev : key) : bool := has_string ev && negb (bool_decide (keyval_of ev ∈ [Home; Left])).

(** The key is pressed in the command line, or [onKeyPress] sees to it. *)
Definition in_line (ev : key) b : Prop :=
  edits ev = true \/ (tb_mark b line_start <= tb_mark b insert_mark /\ tb_mark b line_start <= tb_mark b selection_bound).

Definition is_locked (c : ascii * list pystr) : Prop := notouch ∈ c.2.

(** What is locked of the text before the command line. *)
Definition locked b : list (ascii * list pystr) := filter is_locked (transcript b).

Hypothesis prompts_visible : forall more i, visible (ip_prompt ops more i).

Definition job_ok (j : job) : Prop := match j with JShowPrompt p => visible p | _ => True end.

Record console_ok v : Prop := {
  co_anchored : anchored (buffer v);
  co_prompt : visible (prompt v);
  co_idle : Forall job_ok (idle v)
}.

(** [b'] comes after [b]: what was shown in [b] is shown in [b'], first. *)
Definition later b b' : Prop := transcript b `prefix_of` transcript b' /\ anchored b'.

Lemma length_transcript b : length (transcript b) = tb_mark b line_start.
Proof. unfold transcript. rewrite length_take. pose proof (mark_bound b line_start). unfold tb_end in *. lia. Qed.

Lemma anchored_transcript b : anchored b <-> (forall c, last (transcript b) = Some c -> notouch ∈ c.2).
Proof.
  unfold anchored. pose proof (length_transcript b) as Hl. rewrite last_lookup, Hl. unfold transcript at 1.
  destruct (tb_mark b line_start) as [|p] eqn:E; [by cbn|]. cbn [Nat.pred]. rewrite lookup_take_lt by lia.
  pose proof (mark_bound b line_start) as Hb. unfold tb_end in Hb.
  destruct (lookup_lt_is_Some_2 (tb_chars b) p) as [c Hc]; [lia|]. rewrite Hc. split; [intros (? & [= ->] & ?) ? [= ->]; done|]. eauto.
Qed.

Lemma later_same b b' : transcript b' = transcript b -> anchored b -> later b b'.
Proof. intros E Ha. split; [by rewrite E|]. apply anchored_transcript. rewrite E. by apply anchored_transcript. Qed.

Lemma later_trans b1 b2 b3 : later b1 b2 -> (anchored b2 -> later b2 b3) -> later b1 b3.
Proof. intros [H1 H2] H3. destruct (H3 H2) as [H4 H5]. split; [by etrans|done]. Qed.

Lemma appends_transcript l b b' : appends l b b' -> transcript b' = transcript b.
Proof.
  intros [C S _]. unfold transcript. rewrite C, S. pose proof (mark_bound b line_start) as Hb. unfold tb_end in Hb.
  by rewrite take_app_le.
Qed.

Lemma write_later text ed b : anchored b -> later b (write text ed b).1.
Proof. intros Ha. destruct (write_appends text ed b) as (l & Hl & _). apply later_same; [|done]. by eapply appends_transcript. Qed.

Definition locked_end b : Prop := forall c, last (tb_chars b) = Some c -> notouch ∈ c.2.

Lemma last_lock l c : last (lock l) = Some c -> notouch ∈ c.2.
Proof.
  unfold lock. rewrite fmap_last. destruct (last l); [|done]. intros [= <-]. by left.
Qed.

Lemma write_locked text b : written text <> Ok [] -> (write text false b).2 = Ok tt -> locked_end (write text false b).1.
Proof.
  intros Hne Hok. destruct (write_appends text false b) as (l & Hl & Hr). destruct (written text) as [w|e]; [|congruence].
  destruct Hr as [_ ->]. intros c. rewrite (ap_chars _ _ _ Hl), last_app. destruct (last (lock w)) eqn:E; [intros [= <-]; by apply last_lock in E|].
  apply last_None in E. destruct w; [done|discriminate].
Qed.

(** The prompt is written, and the command line moved after it. *)
Lemma showPrompt_later p b : anchored b -> visible p \/ locked_end b -> later b (showPrompt p b).1.
Proof.
  intros Ha Hv. unfold showPrompt, gbind. destruct (write_appends p false b) as (l & Hl & Hr).
  pose proof (write_locked p b) as Hw. destruct (write p false b) as [b' r]. cbn [fst snd] in *.
  destruct (written p) as [w|e] eqn:Ew; [destruct Hr as [-> ->]|subst r; apply later_same; [by eapply appends_transcript|done]].
  unfold mset. cbn [fst]. set (b2 := tb_move_mark line_start (tb_end b') b').
  assert (transcript b2 = tb_chars b') as Et.
  { unfold transcript, b2. rewrite chars_move_mark, mark_move_mark, decide_True by done. by apply take_ge. }
  split; [rewrite Et, (ap_chars _ _ _ Hl); etrans; [apply prefix_take|by apply prefix_app_r]|].
  apply anchored_transcript. rewrite Et. destruct (decide (w = [])) as [->|Hne]; [|by apply Hw; [intros [= ->]|]].
  destruct Hv as [Hv|Hv]; [by apply Hv in Ew|]. rewrite (ap_chars _ _ _ Hl), app_nil_r. exact Hv.
Qed.

(** The end of the command line. *)
Lemma line_end_bounds b : let q := tb_forward_to_line_end b (tb_mark b line_start) in tb_mark b line_start <= q <= tb_end b.
Proof. apply line_end_range, mark_bound. Qed.

Lemma changeLine_later text b : anchored b -> later b (changeLine text b).1.
Proof.
  intros Ha. unfold changeLine, gbind, mset. cbv beta iota. pose proof (line_end_bounds b) as Hq. cbv zeta in Hq.
  set (q := tb_forward_to_line_end b (tb_mark b line_start)) in *. set (b1 := tb_delete (tb_mark b line_start) q b).
  assert (transcript b1 = transcript b) as Et.
  { unfold transcript, b1. rewrite mark_delete, decide_True, chars_delete by lia. apply take_app_length'.
    rewrite length_take. unfold tb_end in Hq. lia. }
  apply (later_trans _ b1); [by apply later_same|]. apply write_later.
Qed.

Lemma apply_tag_transcript t p q b : tb_mark b line_start <= p <= q -> q <= tb_end b ->
  transcript (tb_apply_tag t p q b) = transcript b.
Proof.
  intros Hp Hq. unfold transcript. rewrite mark_apply_tag, chars_apply_tag by lia. apply list_eq. intros i.
  destruct (decide (i < tb_mark b line_start)) as [Hi|Hi]; [|by rewrite !lookup_take_ge by lia].
  rewrite !lookup_take_lt by done. rewrite list_lookup_imap. destruct (tb_chars b !! i); [|done]. cbn. by rewrite decide_False by lia.
Qed.

Lemma tb_end_move m p b : tb_end (tb_move_mark m p b) = tb_end b.
Proof. unfold tb_end. by rewrite chars_move_mark. Qed.

Lemma move_cursor_transcript m p b : m <> line_start -> p <= tb_end b -> transcript (tb_move_mark m p b) = transcript b.
Proof. intros Hm Hp. unfold transcript. by rewrite chars_move_mark, mark_move_mark, decide_False by done. Qed.

Lemma place_cursor_transcript f b : f b <= tb_end b -> transcript (place_cursor f b).1 = transcript b.
Proof.
  intros Hf. unfold place_cursor, mset. cbn [fst]. rewrite !move_cursor_transcript; [done|done|done|done|].
  unfold tb_end. by rewrite chars_move_mark.
Qed.

Lemma place_cursor_end b : transcript (place_cursor tb_end b).1 = transcript b /\
  tb_mark (place_cursor tb_end b).1 insert_mark = tb_end (place_cursor tb_end b).1.
Proof.
  split; [by apply place_cursor_transcript|]. unfold place_cursor, mset. cbn [fst].
  rewrite !tb_end_move, mark_move_mark, decide_False by (done || by rewrite tb_end_move). by rewrite mark_move_mark, decide_True.
Qed.

Lemma written_newline text : written (NL :: text) <> Ok [].
Proof.
  unfold written, split_colors. change (color_split (S (length (NL :: text))) (NL :: text)) with
    (color_split (length [NL] + S (length text)) ([NL] ++ text)).
  rewrite color_split_plain by (constructor; [unfold ESC, NL; set_solver|constructor]).
  destruct (color_split (S (length text)) text) as [seg l]. by destruct (inserted _ _).
Qed.

Lemma showPrompt_start p b : (showPrompt p b).2 = Ok tt -> tb_mark (showPrompt p b).1 line_start = tb_end (showPrompt p b).1.
Proof.
  unfold showPrompt, gbind. destruct (write p false b) as [b' [[]|e]]; [|done]. intros _. unfold mset. cbn [fst].
  unfold tb_end at 2. rewrite chars_move_mark. by rewrite mark_move_mark, decide_True.
Qed.

Lemma showReturned_later text p ind b : anchored b -> later b (showReturned text p ind b).1.
Proof.
  intros Ha. unfold showReturned. pose proof (line_end_bounds b) as Hq. cbv zeta in Hq.
  set (b1 := tb_apply_tag notouch (tb_mark b line_start) (tb_forward_to_line_end b (tb_mark b line_start)) b).
  assert (later b b1) as H1 by (apply later_same; [apply apply_tag_transcript; lia|done]).
  unfold gbind at 1, mset at 1. fold b1. apply (later_trans _ b1 _ H1). intros Ha1.
  unfold gbind at 1. pose proof (write_later (NL :: text) false b1 Ha1) as H2.
  pose proof (write_locked (NL :: text) b1 (written_newline text)) as L2.
  destruct (write (NL :: text) false b1) as [b2 [[]|e]]; [|exact H2]. cbn [fst snd] in *. specialize (L2 eq_refl).
  apply (later_trans _ b2 _ H2). intros Ha2. unfold gbind at 1.
  assert (exists b3 r, (if decide (text = []) then mret tt else write [NL] false) b2 = (b3, r) /\ later b2 b3 /\ (r = Ok tt -> locked_end b3)) as (b3 & r & -> & H3 & L3).
  { case_decide; [exists b2, (Ok tt); split; [done|]; split; [by apply later_same|done]|].
    pose proof (write_later [NL] false b2 Ha2) as H3. pose proof (write_locked [NL] b2 (written_newline [])) as L3.
    destruct (write [NL] false b2) as [b3 r]. exists b3, r. by split_and!. }
  destruct r as [[]|e]; [|exact H3]. apply (later_trans _ b3 _ H3). intros Ha3. specialize (L3 eq_refl). unfold gbind at 1.
  pose proof (showPrompt_later p b3 Ha3 (or_intror L3)) as H4. pose proof (showPrompt_start p b3) as S4.
  destruct (showPrompt p b3) as [b4 [[]|e]]; [|exact H4]. cbn [fst snd] in *. specialize (S4 eq_refl).
  apply (later_trans _ b4 _ H4). intros Ha4. unfold gbind, mset. cbv beta iota.
  set (b5 := tb_move_mark line_start (tb_end b4) b4).
  assert (transcript b5 = transcript b4) as E5.
  { unfold transcript, b5. rewrite chars_move_mark, mark_move_mark, decide_True by done. by rewrite S4. }
  assert (tb_mark b5 line_start = tb_end b5) as S5.
  { unfold b5, tb_end at 2. rewrite chars_move_mark, mark_move_mark, decide_True by done. done. }
  pose proof (place_cursor_end b5) as (E6 & C6). unfold place_cursor, mset in E6, C6 |- *. cbn [fst] in E6, C6. cbv beta iota zeta.
  set (b6 := tb_move_mark selection_bound (tb_end b5) (tb_move_mark insert_mark (tb_end b5) b5)) in *.
  assert (transcript b6 = transcript b4) as Et6 by congruence.
  destruct ind as [n|]; [|by apply later_same]. cbn [fst]. rewrite C6.
  apply later_same; [|done]. rewrite <- Et6. eapply appends_transcript. apply insert_end_appends.
Qed.

Lemma run_job_later j v : anchored (buffer v) -> job_ok j -> later (buffer v) (buffer (run_job ops j v)).
Proof.
  intros Ha Hj. destruct j as [text ed|p|text|text]; cbn [run_job with_buffer buffer].
  - by apply write_later.
  - apply showPrompt_later; [done|by left].
  - by apply changeLine_later.
  - by apply showReturned_later.
Qed.

(** The handler of keys only moves the cursor; after it a key that edits does so in the
    command line. *)
Lemma onKeyPress_moves ev b : transcript (onKeyPress ev b).1 = transcript b /\
  (edits ev = true -> (onKeyPress ev b).2 = false /\ let b' := (onKeyPress ev b).1 in
     tb_mark b' line_start <= tb_mark b' insert_mark /\ tb_mark b' line_start <= tb_mark b' selection_bound).
Proof.
  unfold onKeyPress, edits. pose proof (mark_bound b line_start) as Hs.
  assert (forall f b0, (place_cursor f b0).1 = tb_move_mark selection_bound (f b0) (tb_move_mark insert_mark (f b0) b0)) as Ep by done.
  destruct (decide (keyval_of ev = Home)) as [Hh|Hh].
  { split; [|rewrite bool_decide_true by (rewrite Hh; left); by rewrite andb_false_r].
    destruct (control ev || mod1 ev); [done|]. destruct (shift ev); cbn [fst]; [by apply move_cursor_transcript|].
    by apply place_cursor_transcript. }
  destruct (decide (keyval_of ev = Left)) as [Hl|Hl].
  { split; [done|]. rewrite bool_decide_true by (rewrite Hl; right; left). by rewrite andb_false_r. }
  destruct (has_string ev) eqn:Es; cbn [negb]; [|by split]. rewrite bool_decide_false by set_solver.
  repeat case_decide; cbn [fst snd]; rewrite ?Ep;
    (split; [by rewrite ?move_cursor_transcript by (done || by rewrite ?tb_end_move)|]); intros _; (split; [done|]); cbv zeta;
    rewrite ?mark_move_mark by (by rewrite ?tb_end_move); repeat case_decide; done || lia.
Qed.

Lemma idle_add_ok j v : job_ok j -> console_ok v -> console_ok (idle_add j v).
Proof. intros Hj [Ha Hp Hi]. split; [done|done|]. cbn [idle idle_add]. apply Forall_app. by split; [|constructor]. Qed.

Lemma list_possibilities_ok l v : console_ok v ->
  console_ok (list_possibilities l v) /\ buffer (list_possibilities l v) = buffer v /\ prompt (list_possibilities l v) = prompt v.
Proof.
  unfold list_possibilities. revert v. induction l as [|s l IH]; intros v Hv; [done|]. cbn [foldl].
  apply (IH (idle_add (JWrite (s ++ [NL]) false) v)). by apply idle_add_ok.
Qed.

Lemma on_ip_fields f v : buffer (on_ip f v) = buffer v /\ idle (on_ip f v) = idle v /\ prompt (on_ip f v) = prompt v.
Proof. unfold on_ip. by destruct (f (ip v)). Qed.

(** [execute] changes neither the text nor what is to be shown; it ends with a prompt of IPython. *)
Lemma execute_fields v : buffer (execute ops v) = buffer v /\ idle (execute ops v) = idle v /\ visible (prompt (execute ops v)).
Proof.
  unfold execute. set (v1 := on_ip _ _). assert (buffer v1 = buffer v /\ idle v1 = idle v /\ visible (prompt v1)) as H1.
  { unfold v1. destruct (on_ip_fields (ip_pre_prompt_hook ops) (set_prompt (ip_prompt ops (iter_more (set_history_level 0 v)) (ip (set_history_level 0 v))) (set_history_level 0 v))) as (-> & -> & ->).
    split_and!; [done..|]. apply prompts_visible. }
  clearbody v1. set (v2 := if iter_more v1 then _ else _).
  assert (buffer v2 = buffer v /\ idle v2 = idle v /\ visible (prompt v2)) as H2.
  { unfold v2. destruct (iter_more v1); [|done]. destruct (ip_autoindent ops _); (split_and!; [apply H1|apply H1|apply prompts_visible]). }
  clearbody v2. unfold raw_input. destruct (interrupt v2); [exact H2|]. destruct H2 as (Hb & Hi & Hp).
  set (v3 := set_prompt _ _). assert (buffer v3 = buffer v /\ idle v3 = idle v /\ visible (prompt v3)) as H3 by (split_and!; [done|done|apply prompts_visible]).
  clearbody v3. set (v4 := if ip_syntax_error ops (ip v3) then _ else _).
  assert (buffer v4 = buffer v /\ idle v4 = idle v /\ visible (prompt v4)) as H4.
  { unfold v4. destruct (ip_syntax_error ops (ip v3)); [|done]. destruct (on_ip_fields (ip_edit_syntax_error ops) v3) as (-> & -> & ->). done. }
  clearbody v4. destruct (iter_more v4); [exact H4|]. destruct (on_ip_fields (ip_run_cell ops) v4) as (E1 & E2 & E3).
  cbn [buffer idle prompt set_ip]. rewrite E1, E2, E3. exact H4.
Qed.

Lemma processLine_ok v : console_ok v -> console_ok (processLine ops v) /\ buffer (processLine ops v) = buffer v.
Proof.
  intros [Ha Hp Hi]. destruct (execute_fields v) as (Eb & Ei & Hv). unfold processLine. cbn [set_cout idle_add buffer]. split; [|done].
  split; cbn [set_cout idle_add buffer idle prompt]; [by rewrite Eb|done|]. rewrite Ei. apply Forall_app. by split; [|constructor].
Qed.

Lemma press_extend_keeps ev v : console_ok v ->
  console_ok (onKeyPressExtend ops ev v).1 /\ buffer (onKeyPressExtend ops ev v).1 = buffer v.
Proof.
  intros Hv. unfold onKeyPressExtend. destruct (control ev && _).
  { apply (processLine_ok (set_interrupt true v)). by destruct Hv. }
  assert (forall j l, job_ok j -> console_ok (idle_add j (set_history_level l v))) as Hj.
  { intros j l H. apply idle_add_ok; [done|]. by destruct Hv. }
  destruct (keyval_of ev); try by split.
  - by apply processLine_ok.
  - destruct (historyBack _ _) as [l s]. split; [by apply Hj|done].
  - destruct (historyForward _ _) as [l s]. split; [by apply Hj|done].
  - case_decide; [done|]. destruct (complete _ _) as [[completed possibilities]|e]; [|done].
    set (v1 := if 1 <? length possibilities then _ else v).
    assert (console_ok v1 /\ buffer v1 = buffer v) as [H1 E1].
    { unfold v1. destruct (1 <? length possibilities); [|done].
      destruct (list_possibilities_ok possibilities (idle_add (JWrite [NL] false) v)) as (H1 & H2 & _); [by apply idle_add_ok|].
      split; [|done]. apply idle_add_ok; [|done]. apply Hv. }
    destruct completed; [|split; [by apply idle_add_ok|done]].
    destruct (1 <? length possibilities); [|done]. split; [by apply idle_add_ok|done].
Qed.

(** Keys, and the jobs of the main loop, in any order. *)
Inductive console_step v : view (B := B) (I := I) -> Prop :=
| step_press ev : console_step v (press ops binding ev v)
| step_idle : console_step v (run_idle ops v).

(** *** What a user may change *)

Lemma cursor_moves_keep b b' : rtc cursor_move b b' ->
  tb_chars b' = tb_chars b /\ tb_mark b' line_start = tb_mark b line_start.
Proof.
  induction 1 as [b|b b1 b2 [m p Hm Hp] _ [IH1 IH2]]; [done|]. rewrite IH1, IH2, chars_move_mark. split; [done|].
  rewrite mark_move_mark by done. case_decide as Hl; [|done]. subst m. by destruct Hm.
Qed.

(** The characters before the command line after an insertion. *)
Lemma insert_transcript b s ts (p := tb_mark b insert_mark) (b' := tb_insert p s ts b) :
  (tb_mark b line_start <= p /\ transcript b' = transcript b) \/
  (p < tb_mark b line_start /\ exists x, transcript b' = take p (transcript b) ++ x ++ drop p (transcript b)).
Proof.
  subst b'. pose proof (mark_bound b insert_mark) as Hp. pose proof (mark_bound b line_start) as Hl. unfold tb_end in *. fold p in Hp.
  unfold transcript. rewrite chars_insert, mark_insert by done. case_decide as Hd.
  - left. split; [lia|]. rewrite take_app_le by (rewrite length_take; lia). rewrite take_take. f_equal. lia.
  - right. split; [cbn in Hd; lia|]. set (x := (_ <$> s)). exists x. assert (length s = length x) as -> by (unfold x; by rewrite length_fmap).
    assert (p < tb_mark b line_start) by (cbn in Hd; lia).
    rewrite take_take, Nat.min_l, skipn_firstn_comm by lia.
    rewrite take_app_ge by (rewrite length_take; lia). f_equal. rewrite length_take, Nat.min_l by lia.
    rewrite take_app_ge by lia. f_equal. f_equal. lia.
Qed.

(** What is deleted is editable, so that nothing locked is. *)
Lemma editable_unlocked b i c : editable b i = true -> tb_chars b !! i = Some c -> ~ is_locked c.
Proof. unfold editable. intros H Hc Hin. rewrite Hc in H. by rewrite bool_decide_true in H. Qed.

Lemma delete_transcript b p q (b' := tb_delete p q b) : anchored b -> p <= q <= tb_end b ->
  (forall i, p <= i < q -> editable b i = true) ->
  (tb_mark b line_start <= p /\ transcript b' = transcript b) \/
  (q < tb_mark b line_start /\ transcript b' = take p (transcript b) ++ drop q (transcript b)) \/
  (p = q /\ transcript b' = transcript b).
Proof.
  intros Ha Hpq He. subst b'. pose proof (mark_bound b line_start) as Hl. unfold tb_end in *.
  unfold transcript. rewrite chars_delete, mark_delete by done. unfold anchored in Ha. repeat case_decide.
  - left. split; [done|]. rewrite take_app_le by (rewrite length_take; lia). rewrite take_take. f_equal. lia.
  - exfalso. destruct (tb_mark b line_start) as [|l]; [lia|]. destruct Ha as (c & Hc & Hin).
    by apply (editable_unlocked b l c (He l ltac:(lia))).
  - right. left. split; [lia|].
    rewrite take_app_ge by (rewrite length_take; lia). rewrite take_take, Nat.min_l, skipn_firstn_comm by lia. f_equal. f_equal.
    rewrite length_take. lia.
Qed.

(** Nothing locked goes, and the command line still comes after something locked. *)
Lemma user_edit_locked b b' : anchored b -> user_edit b b' -> locked b `sublist_of` locked b' /\ anchored b'.
Proof.
  intros Ha He. assert (forall p x, locked b `sublist_of` filter is_locked (take p (transcript b) ++ x ++ drop p (transcript b))) as Hins.
  { intros p x. unfold locked. rewrite !filter_app. rewrite <- (take_drop p (transcript b)) at 1. rewrite filter_app.
    apply sublist_app; [done|]. apply sublist_inserts_l. done. }
  destruct He as [s ts|p q Hpq He].
  - destruct (insert_transcript b s ts) as [[_ E]|(Hp & x & E)].
    + split; [unfold locked; by rewrite E|]. apply anchored_transcript. rewrite E. by apply anchored_transcript.
    + split; [unfold locked at 2; rewrite E; apply Hins|]. apply anchored_transcript. rewrite E. intros c Hc.
      apply (proj1 (anchored_transcript b) Ha). rewrite <- Hc. rewrite (assoc_L (++)).
      assert (drop (tb_mark b insert_mark) (transcript b) <> []) as Hne.
      { intros E0%(f_equal length). rewrite length_drop, length_transcript in E0. cbn in E0. lia. }
      rewrite <- (take_drop (tb_mark b insert_mark) (transcript b)) at 1.
      destruct (exists_last Hne) as (l & y & ->). by rewrite !(assoc_L (++)), !last_snoc.
  - destruct (delete_transcript b p q Ha Hpq He) as [[_ E]|[[Hq E]|[_ E]]].
    + split; [unfold locked; by rewrite E|]. apply anchored_transcript. rewrite E. by apply anchored_transcript.
    + assert (filter is_locked (drop p (take q (transcript b))) = []) as Hnone.
      { destruct (filter _ _) as [|c l] eqn:Ef; [done|]. exfalso.
        assert (c ∈ filter is_locked (drop p (take q (transcript b)))) as Hc by (rewrite Ef; by left).
        apply list_elem_of_filter in Hc as [Hlock Hc]. apply list_elem_of_lookup in Hc as [i Hi].
        rewrite lookup_drop in Hi. apply lookup_take_Some in Hi as [Hi Hlt]. unfold transcript in Hi. apply lookup_take_Some in Hi as [Hi _].
        by apply (editable_unlocked b (p + i) c (He (p + i) ltac:(lia))). }
      split.
      * unfold locked. rewrite E, filter_app.
        assert (filter is_locked (transcript b) = filter is_locked (take p (transcript b)) ++ filter is_locked (drop q (transcript b))) as ->; [|done].
        rewrite <- (take_drop q (transcript b)) at 1. rewrite filter_app. f_equal.
        rewrite <- (take_drop p (take q (transcript b))), filter_app, Hnone, (right_id_L [] (++)), take_take, Nat.min_l by lia. done.
      * apply anchored_transcript. rewrite E. intros c Hc. apply (proj1 (anchored_transcript b) Ha). rewrite <- Hc.
        assert (drop q (transcript b) <> []) as Hne.
        { intros E0%(f_equal length). rewrite length_drop, length_transcript in E0. cbn in E0. lia. }
        rewrite <- (take_drop q (transcript b)) at 1. destruct (exists_last Hne) as (l & y & ->). by rewrite !(assoc_L (++)), !last_snoc.
    + split; [unfold locked; by rewrite E|]. apply anchored_transcript. rewrite E. by apply anchored_transcript.
Qed.

(** With the cursor in the command line, and all before it locked, nothing before it changes. *)
Lemma user_edit_line b b' : Forall is_locked (transcript b) -> tb_mark b line_start <= tb_mark b insert_mark -> user_edit b b' ->
  transcript b' = transcript b /\ tb_mark b' line_start <= tb_mark b' insert_mark.
Proof.
  intros Hf Hi He. pose proof (mark_bound b insert_mark) as Hb. pose proof (mark_bound b line_start) as Hl.
  destruct He as [s ts|p q Hpq He].
  - destruct (insert_transcript b s ts) as [[_ E]|[Hp _]]; [|lia]. split; [done|].
    rewrite !mark_insert by done. rewrite (decide_True (P := tb_mark b line_start < _ \/ _)); [case_decide; lia|].
    destruct (decide (tb_mark b line_start = tb_mark b insert_mark)); [by right|left; lia].
  - assert (tb_mark b line_start <= p \/ p = q) as Hp.
    { destruct (decide (tb_mark b line_start <= p)); [by left|]. right. destruct (decide (p = q)); [done|]. exfalso.
      unfold tb_end in Hl. destruct (lookup_lt_is_Some_2 (tb_chars b) p) as [c Hc]; [lia|].
      apply (editable_unlocked b p c (He p ltac:(lia)) Hc). rewrite Forall_lookup in Hf. apply (Hf p).
      unfold transcript. by rewrite lookup_take_lt by lia. }
    split; [|rewrite !mark_delete by done; repeat case_decide; lia].
    unfold transcript. rewrite chars_delete, mark_delete by done. unfold tb_end in *.
    destruct Hp as [Hp| <-].
    + rewrite decide_True by done. rewrite take_app_le by (rewrite length_take; lia). rewrite take_take. f_equal. lia.
    + rewrite take_drop. f_equal. repeat case_decide; lia.
Qed.

Lemma user_edits_locked b b' : anchored b -> rtc user_edit b b' -> locked b `sublist_of` locked b' /\ anchored b'.
Proof.
  intros Ha H. induction H as [b|b b1 b2 H1 _ IH]; [done|]. destruct (user_edit_locked b b1 Ha H1) as [S1 A1].
  destruct (IH A1) as [S2 A2]. split; [by etrans|done].
Qed.

Lemma user_edits_line b b' : Forall is_locked (transcript b) -> tb_mark b line_start <= tb_mark b insert_mark -> rtc user_edit b b' ->
  transcript b' = transcript b.
Proof.
  intros Hf Hi H. induction H as [b|b b1 b2 H1 _ IH]; [done|]. destruct (user_edit_line b b1 Hf Hi H1) as [E1 I1].
  rewrite <- E1. apply IH; [by rewrite E1|done].
Qed.

Lemma binding_locked `{!BindingLaws} ev b : anchored b -> locked b `sublist_of` locked (binding ev b) /\ anchored (binding ev b).
Proof.
  intros Ha. destruct (binding_edits ev b) as (b1 & H1 & H2). destruct (user_edits_locked b b1 Ha H1) as [S A].
  destruct (cursor_moves_keep b1 _ H2) as [C L]. unfold locked, anchored, transcript in *. by rewrite C, L.
Qed.

Lemma binding_line `{!BindingLaws} ev b : Forall is_locked (transcript b) -> tb_mark b line_start <= tb_mark b insert_mark ->
  transcript (binding ev b) = transcript b.
Proof.
  intros Hf Hi. destruct (binding_edits ev b) as (b1 & H1 & H2). rewrite <- (user_edits_line b b1 Hf Hi H1).
  destruct (cursor_moves_keep b1 _ H2) as [C L]. unfold transcript. by rewrite C, L.
Qed.

(** A key that is pressed in the command line leaves the cursor there. *)
Lemma onKeyPress_in_line ev b : in_line ev b ->
  tb_mark (onKeyPress ev b).1 line_start <= tb_mark (onKeyPress ev b).1 insert_mark.
Proof.
  destruct (onKeyPress_moves ev b) as [_ He]. intros [Hin|[Hi Hs]]; [by apply He|].
  pose proof (mark_bound b line_start) as Hl. unfold onKeyPress, place_cursor, mset. cbn [fst].
  repeat case_match; cbn [fst]; rewrite ?mark_move_mark by (by rewrite ?tb_end_move); repeat case_decide; try done; lia.
Qed.

Lemma run_idle_later v : console_ok v -> transcript (buffer v) `prefix_of` transcript (buffer (run_idle ops v)) /\ console_ok (run_idle ops v).
Proof.
  intros Hv. unfold run_idle. destruct (idle v) as [|j l] eqn:Ei; [done|]. destruct Hv as [Ha Hp Hi]. rewrite Ei in Hi.
  apply Forall_cons in Hi as [Hj Hl]. destruct (run_job_later j (set_idle l v)) as [H1 H2]; [done..|].
  split; [exact H1|]. split; [done| |]; by destruct j.
Qed.

Lemma prefix_locked b b' : transcript b `prefix_of` transcript b' -> locked b `sublist_of` locked b'.
Proof. unfold locked. intros [l ->]. rewrite filter_app. by apply sublist_inserts_r. Qed.

(** A key changes the text by its binding only, after [onKeyPress] has moved the cursor. *)
Lemma press_cases ev v : console_ok v -> let b := (onKeyPress ev (buffer v)).1 in
  transcript b = transcript (buffer v) /\ anchored b /\
  (buffer (press ops binding ev v) = b \/ buffer (press ops binding ev v) = binding ev b) /\
  (anchored (buffer (press ops binding ev v)) -> console_ok (press ops binding ev v)).
Proof.
  intros Hv b. destruct (onKeyPress_moves ev (buffer v)) as [Et _]. subst b.
  assert (anchored (onKeyPress ev (buffer v)).1) as Ha by (apply anchored_transcript; rewrite Et; apply anchored_transcript, Hv).
  split; [done|]. split; [done|]. unfold press. destruct (onKeyPress ev (buffer v)) as [b stop]. cbn [fst] in *.
  assert (console_ok (with_buffer b v)) as Hb by (destruct Hv; by split).
  destruct stop; [by split; [left|]|]. destruct (press_extend_keeps ev (with_buffer b v) Hb) as [H1 E1]. cbn [with_buffer buffer] in E1.
  destruct (onKeyPressExtend ops ev (with_buffer b v)) as [v1 r]. cbn [fst] in *.
  destruct r as [[]|e]; [by split; [left|]|..]; (split; [right; cbn [with_buffer buffer]; by rewrite E1|]); intros H; destruct H1; by split.
Qed.

(** C37 - What was shown on the console stays.  Whatever keys are pressed, and whenever the jobs
    of the main loop are run, no locked character before the command line is lost, they stay
    in order with their tags, and the command line comes after a locked one.  A job changes
    nothing before the command line and only adds after it.  Nor does a key change anything
    there, all of it being locked, that is pressed in the command line or, Home and Left
    apart, that has a string: the cursor is first brought to the command line. *)
Theorem transcript_kept `{!BindingLaws} :
  (forall v v', console_ok v -> rtc console_step v v' ->
     locked (buffer v) `sublist_of` locked (buffer v') /\ console_ok v') /\
  (forall v, console_ok v -> transcript (buffer v) `prefix_of` transcript (buffer (run_idle ops v))) /\
  (forall ev v, console_ok v -> Forall is_locked (transcript (buffer v)) -> in_line ev (buffer v) ->
     transcript (buffer (press ops binding ev v)) = transcript (buffer v)).
Proof.
  split_and!.
  - intros v v' Hv Hs. induction Hs as [v|v v1 v2 [ev|] _ IH]; [done|..].
    + destruct (press_cases ev v Hv) as (Et & Ha & Hb & Hok).
      assert (locked (buffer v) `sublist_of` locked (buffer (press ops binding ev v)) /\ anchored (buffer (press ops binding ev v))) as [S A].
      { unfold locked at 1. rewrite <- Et. destruct Hb as [-> | ->]; [done|by apply binding_locked]. }
      destruct (IH (Hok A)) as [S' H']. split; [by etrans|done].
    + destruct (run_idle_later v Hv) as [Hp Hok]. destruct (IH Hok) as [S' H']. split; [|done]. etrans; [by apply prefix_locked|done].
  - intros v Hv. by apply run_idle_later.
  - intros ev v Hv Hf Hin. destruct (press_cases ev v Hv) as (Et & Ha & Hb & _). rewrite <- Et in Hf |- *.
    destruct Hb as [-> | ->]; [done|]. apply binding_line; [done|]. by apply onKeyPress_in_line.
Qed.

End transcript.

(** ** A buffer *)

Module Buffer.

Record buffer := { chars : list (ascii * list pystr); marks : mark -> nat }.

Definition mark_of (b : buffer) (m : mark) : nat := Nat.min (marks b m) (length (chars b)).

Definition insert (p : nat) (s : pystr) (ts : list pystr) (b : buffer) : buffer :=
  {| chars := take p (chars b) ++ ((fun c => (c, ts ++ inherited (chars b) p)) <$> s) ++ drop p (chars b);
     marks := fun m => if decide (mark_of b m < p \/ mark_of b m = p /\ left_gravity m = true) then mark_of b m
                       else mark_of b m + length s |}.

Definition del (p q : nat) (b : buffer) : buffer :=
  {| chars := take p (chars b) ++ drop q (chars b);
     marks := fun m => if decide (mark_of b m <= p) then mark_of b m else if decide (mark_of b m <= q) then p else mark_of b m - (q - p) |}.

Definition apply_tag (t : pystr) (p q : nat) (b : buffer) : buffer :=
  {| chars := imap (fun i c => if decide (p <= i < q) then (c.1, t :: c.2) else c) (chars b); marks := marks b |}.

Definition move_mark (m : mark) (p : nat) (b : buffer) : buffer :=
  {| chars := chars b; marks := fun m' => if decide (m' = m) then p else marks b m' |}.

Definition not_newline (c : ascii) : bool := negb (bool_decide (c = NL)).

Definition line_end (b : buffer) (p : nat) : nat :=
  let rest := drop p (chars b).*1 in
  match rest with
  | c :: r => if decide (c = NL) then S p + length (fst (span not_newline r)) else p + length (fst (span not_newline rest))
  | [] => p
  end.

#[global] Instance buffer_text : TextBuffer buffer :=
  {| tb_chars := chars; tb_mark := mark_of; tb_insert := insert; tb_delete := del; tb_apply_tag := apply_tag;
     tb_move_mark := move_mark; tb_forward_to_line_end := line_end |}.

Lemma span_length f (s : pystr) : length (fst (span f s)) <= length s.
Proof. induction s as [|c s IH]; cbn; [done|]. destruct (f c); [|cbn; lia]. destruct (span f s). cbn in *. lia. Qed.

Lemma span_all s : NL ∉ s -> fst (span not_newline s) = s.
Proof.
  induction s as [|c s IH]; [done|]. intros [Hc Hs]%list.not_elem_of_cons. cbn. unfold not_newline at 1. rewrite bool_decide_false by congruence.
  cbn [negb]. specialize (IH Hs). destruct (span not_newline s). cbn in *. by rewrite IH.
Qed.

#[global] Instance buffer_laws : TextBufferLaws buffer.
Proof.
  split; cbn [tb_chars tb_mark tb_insert tb_delete tb_apply_tag tb_move_mark tb_forward_to_line_end buffer_text tb_end].
  - done.
  - intros p s ts b m Hp. change (tb_end b) with (length (chars b)) in Hp. unfold mark_of at 1, insert. cbn [chars marks].
    rewrite !length_app, length_take, length_drop, length_fmap. assert (mark_of b m <= length (chars b)) by (unfold mark_of; lia).
    case_decide; lia.
  - done.
  - intros p q b m Hp. change (tb_end b) with (length (chars b)) in Hp. unfold mark_of at 1, del. cbn [chars marks].
    rewrite !length_app, length_take, length_drop. assert (mark_of b m <= length (chars b)) by (unfold mark_of; lia).
    repeat case_decide; lia.
  - done.
  - intros t p q b m. unfold mark_of, apply_tag. cbn. by rewrite length_imap.
  - done.
  - intros m p b m' Hp. change (tb_end b) with (length (chars b)) in Hp. unfold mark_of, move_mark. cbn. case_decide; lia.
  - intros b m. unfold mark_of. change (tb_end b) with (length (chars b)). lia.
  - intros b p Hp. change (tb_end b) with (length (chars b)) in *. unfold line_end.
    pose proof (length_drop (chars b).*1 p) as Hl. rewrite length_fmap in Hl.
    destruct (drop p (chars b).*1) as [|c r] eqn:E; [lia|]. pose proof (span_length not_newline r). pose proof (span_length not_newline (c :: r)).
    cbn [length] in *. case_decide; lia.
  - intros b p Hp Hn. change (tb_end b) with (length (chars b)) in *. change (tb_text b) with ((chars b).*1) in Hn. unfold line_end.
    pose proof (length_drop (chars b).*1 p) as Hl. rewrite length_fmap in Hl.
    destruct (drop p (chars b).*1) as [|c r] eqn:E; [cbn in Hl; lia|]. rewrite decide_False by set_solver. rewrite span_all by done. lia.
  - intros b p u v Hp E Hne Hn. change (tb_text b) with ((chars b).*1) in E. unfold line_end. rewrite E.
    destruct u as [|c u]; [done|]. cbn [app]. apply list.not_elem_of_cons in Hn as [Hc Hn]. rewrite decide_False by congruence.
    f_equal. change (c :: u ++ NL :: v) with ((c :: u) ++ NL :: v).
    rewrite span_app; [done| |unfold not_newline; by rewrite bool_decide_true].
    apply Forall_forall. intros d Hd. unfold not_newline. rewrite bool_decide_false; [done|]. intros ->. set_solver.
Qed.

(** Whether GTK lets the user insert at [p] ([gtk_text_iter_can_insert]). *)
Definition can_insert (b : buffer) (p : nat) : bool :=
  bool_decide (p = 0) || editable b p || editable b (p - 1).

(** A letter is inserted at the cursor; so is the clipboard by Shift-Insert, here another key
    with Shift and without a string; Control-Home goes to the beginning. *)
Definition binding (ev : key) (b : buffer) : buffer :=
  let p := mark_of b insert_mark in
  if edits ev then if can_insert b p then insert p $"x" [] b else b
  else if bool_decide (keyval_of ev = Home) then move_mark selection_bound 0 (move_mark insert_mark 0 b)
  else if shift ev && bool_decide (keyval_of ev = OtherKey) then if can_insert b p then insert p $"clip" [] b else b
  else b.

#[global] Instance binding_laws : BindingLaws binding.
Proof.
  intros ev b. unfold binding. assert (forall s, exists b1,
    rtc user_edit b b1 /\ rtc cursor_move b1 (if can_insert b (mark_of b insert_mark) then insert (mark_of b insert_mark) s [] b else b)) as Hins.
  { intros s. destruct (can_insert b _); [|by exists b]. eexists. split; [|apply rtc_refl]. apply rtc_once.
    exact (edit_insert (B := buffer) b s []). }
  destruct (edits ev); [apply Hins|]. destruct (bool_decide (keyval_of ev = Home)).
  - exists b. split; [apply rtc_refl|]. apply (rtc_l _ _ (tb_move_mark insert_mark 0 b)); [constructor; [by left|lia]|].
    apply rtc_once. refine (move_cursor_to (B := buffer) (tb_move_mark insert_mark 0 b) selection_bound 0 _ _); [by right|lia].
  - destruct (shift ev && _); [apply Hins|by exists b].
Qed.

End Buffer.

(** An interpreter that answers every line. *)
Definition demo_ops : ip_ops (list pystr) :=
  {| ip_prompt := fun _ _ => $">>> "; ip_pre_prompt_hook := fun i => (i, []); ip_autoindent := fun _ => false;
     ip_rl_do_indent := fun _ => false; ip_set_indent := fun _ i => i; ip_indent_spaces := fun _ => 0; ip_reset := id;
     ip_push := fun line i => i ++ [line]; ip_accepts_more := fun _ => false; ip_syntax_error := fun _ => false;
     ip_edit_syntax_error := fun i => (i, []); ip_run_cell := fun i => (i, $"ok" ++ [NL]); ip_In := fun i => [] :: i;
     ip_complete := fun _ w => (w, [w]) |}.

Definition demo_view : view (B := Buffer.buffer) (I := list pystr) :=
  {| buffer := {| Buffer.chars := lock (tagged [] $">>> "); Buffer.marks := fun _ => 4 |}; idle := []; ip := []; iter_more := false;
     history_level := 0; prompt := $">>> "; interrupt := false; cout := [] |}.

Definition letter : key := {| keyval_of := OtherKey; has_string := true; control := false; mod1 := false; shift := false |}.
Definition return_key : key := {| keyval_of := Return; has_string := true; control := false; mod1 := false; shift := false |}.
Definition up_key : key := {| keyval_of := Up; has_string := false; control := false; mod1 := false; shift := false |}.

(** Two letters, Return, a letter before the answer is shown, the answer, and the last command. *)
Definition demo_keys (v : view) : view :=
  let press := press demo_ops Buffer.binding in
  run_idle demo_ops (press up_key (run_idle demo_ops (press letter (press return_key (press letter (press letter v)))))).

Example demo_text : tb_text (buffer (demo_keys demo_view)) = $">>> xxx" ++ [NL] ++ $"ok" ++ [NL] ++ $">>> xx".
Proof. vm_compute. reflexivity. Qed.

Lemma demo_ok : console_ok demo_view.
Proof.
  split; [|intros w Hw; vm_compute in Hw; by injection Hw as <-|constructor]. exists (" "%char, [notouch]). split; [done|by left].
Qed.

Lemma complete_spec_witness : exists u completed, $"foo(ba" = u ++ $"ba" /\
  complete (fun w => (w, [$"bar1"; $"bar22"])) $"foo(ba" = Ok (u ++ completed, [$"bar1"; $"bar22"]) /\ $"ba" `prefix_of` completed.
Proof.
  destruct (complete_spec (fun w => (w, [$"bar1"; $"bar22"])) $"foo(ba") as (u & c & E & H & Hp & _).
  { vm_compute. repeat (apply Forall_cons; split; [by eexists|]). apply Forall_nil_2. }
  exists u, c. by split_and!.
Defined.

Lemma demo_steps v : rtc (console_step demo_ops Buffer.binding) v (demo_keys v).
Proof.
  unfold demo_keys. cbv zeta.
  repeat match goal with
    | |- rtc _ _ (run_idle _ ?w) => apply (rtc_r _ w); [|apply step_idle]
    | |- rtc _ _ (press _ _ ?k ?w) => apply (rtc_r _ w); [|apply step_press]
    end.
  apply rtc_refl.
Qed.

Lemma transcript_kept_witness :
  locked (buffer demo_view) `sublist_of` locked (buffer (demo_keys demo_view)) /\
  transcript (buffer (press demo_ops Buffer.binding letter demo_view)) = transcript (buffer demo_view).
Proof.
  destruct (transcript_kept demo_ops Buffer.binding) as (H1 & _ & H2).
  - intros more i w Hw. vm_compute in Hw; by injection Hw as <-.
  - apply Buffer.binding_laws.
  - split; [exact (proj1 (H1 _ _ demo_ok (demo_steps demo_view)))|]. apply H2; [apply demo_ok| |by left].
    refine (bool_decide_unpack _ _). vm_compute. exact Logic.I.
Defined.

(** Control-Home goes to the beginning of the text, which [onKeyPress] lets pass, and Shift-Insert,
    which has no string, pastes there: before all that was shown. *)
Definition control_home : key := {| keyval_of := Home; has_string := false; control := true; mod1 := false; shift := false |}.
Definition shift_insert : key := {| keyval_of := OtherKey; has_string := false; control := false; mod1 := false; shift := true |}.

Example pasted_before :
  let press := press demo_ops Buffer.binding in
  tb_text (buffer (press shift_insert (press control_home demo_view))) = $"clip>>> " /\
  tb_text (buffer (press letter (press control_home demo_view))) = $">>> x".
Proof. vm_compute. done. Qed.
