(* ===== verification/VizWindows.v ===== *)
(** * The windows of the visualizer

    [InformationWindow] and the list that [core.py] keeps of them; the plugins
    [ipv4_routing_table.py], [olsr.py], [show_last_packets.py] and the window of
    [interface_statistics.py]; and, of [model/pyviz.cc], the capture of the last packets
    that a window asks for.  What the simulator says of its nodes is a record; a GTK dialog
    is shown or not, and a list store is the list of its rows.  An object is known by its
    place in the list of all that were made. *)

From Stdlib Require Import QArith.
From S2P Require Import Prelude StateM VizStats.
#[local] Open Scope nat_scope.

(** ** What the simulator says *)

Record route := { dest : pystr; gateway : pystr; interface : N }.
Inductive routing_protocol := StaticRouting (l : list route) | GlobalRouting (l : list route) | OtherRouting.
Inductive ipv4_routing := NoRouting | OneRouting (p : routing_protocol) | ListRouting (l : list (routing_protocol * Z)).

(** [get_net_device] is the name in [ns.core.Names] of the device of an interface, empty when it
    has none, or [None] for the loop-back. *)
Record ipv4_stack := { get_net_device : N -> option pystr; get_routing_protocol : ipv4_routing }.

Record olsr_route := { destAddr : pystr; nextAddr : pystr; olsr_interface : N; distance : Z }.

Record sim_node := { ipv4 : option ipv4_stack; olsr : option (list olsr_route); device_name : N -> pystr }.

(** A packet: its number, its size, how it is printed, and the types of its headers and trailers;
    and a packet seen by a device, given by its name and its index. *)
Record packet := { packet_uid : N; packet_size : N; packet_text : pystr; packet_items : list nat }.
Record packet_sample := { time : Q; device : option (pystr * N); sample_packet : packet }.
Record last_packets := { lastTransmitted : list packet_sample; lastReceived : list packet_sample; lastDropped : list packet_sample }.

Inductive capture_mode := FILTER_HEADERS_OR | FILTER_HEADERS_AND.
Record capture_options := { headers : list nat; numLastPackets : nat; mode : capture_mode }.

Record simulator := {
  get_sim_node : N -> sim_node;
  capture : gmap N capture_options;       (* m_packetCaptureOptions *)
  packets : gmap N last_packets;          (* m_lastPackets *)
  nodes_of_interest : gset N;             (* m_nodesOfInterest *)
  packets_of_interest : gmap N Q;         (* m_packetsOfInterest: when each was sent *)
  statistics_collector : collector;
  sample_period : Q
}.

Definition set_capture c (s : simulator) : simulator :=
  {| get_sim_node := get_sim_node s; capture := c; packets := packets s; nodes_of_interest := nodes_of_interest s;
     packets_of_interest := packets_of_interest s; statistics_collector := statistics_collector s;
     sample_period := sample_period s |}.
Definition set_packets p (s : simulator) : simulator :=
  {| get_sim_node := get_sim_node s; capture := capture s; packets := p; nodes_of_interest := nodes_of_interest s;
     packets_of_interest := packets_of_interest s; statistics_collector := statistics_collector s;
     sample_period := sample_period s |}.
Definition set_interest ns ps (s : simulator) : simulator :=
  {| get_sim_node := get_sim_node s; capture := capture s; packets := packets s; nodes_of_interest := ns;
     packets_of_interest := ps; statistics_collector := statistics_collector s;
     sample_period := sample_period s |}.

(** ** [pyviz.cc]: the capture of packets *)

Definition no_packets : last_packets := {| lastTransmitted := []; lastReceived := []; lastDropped := [] |}.

Definition SetPacketCaptureOptions (node : N) (o : capture_options) (s : simulator) : simulator := set_capture (<[node := o]> (capture s)) s.
Definition GetLastPackets (node : N) (s : simulator) : last_packets := default no_packets (packets s !! node).

(** The headers that the packet has are taken out of those that are missing. *)
Definition missing_headers (items hs : list nat) : list nat := foldl (fun missing i => filter (fun h => h <> i) missing) hs items.

Definition FilterPacket (p : packet) (o : capture_options) : bool :=
  match mode o with
  | FILTER_HEADERS_OR => existsb (fun i => bool_decide (i ∈ headers o)) (packet_items p)
  | FILTER_HEADERS_AND => bool_decide (missing_headers (packet_items p) (headers o) = [])
  end.

Inductive trace := Transmitted | Received | Dropped.

#[export] Instance trace_eq_dec : EqDecision trace.
Proof. solve_decision. Defined.

Definition get_trace (t : trace) (l : last_packets) : list packet_sample :=
  match t with Transmitted => lastTransmitted l | Received => lastReceived l | Dropped => lastDropped l end.
Definition set_trace (t : trace) (x : list packet_sample) (l : last_packets) : last_packets :=
  match t with
  | Transmitted => {| lastTransmitted := x; lastReceived := lastReceived l; lastDropped := lastDropped l |}
  | Received => {| lastTransmitted := lastTransmitted l; lastReceived := x; lastDropped := lastDropped l |}
  | Dropped => {| lastTransmitted := lastTransmitted l; lastReceived := lastReceived l; lastDropped := x |}
  end.

(** The part of each trace callback that keeps the last packets. *)
Definition capture_packet (t : trace) (node : N) (x : packet_sample) (s : simulator) : simulator :=
  match capture s !! node with
  | Some o =>
      if FilterPacket (sample_packet x) o then
        let last := GetLastPackets node s in
        set_packets (<[node := set_trace t (pop_while (numLastPackets o) (get_trace t last ++ [x])) last]> (packets s)) s
      else s
  | None => s
  end.

Definition SetNodesOfInterest (nodes : gset N) (s : simulator) : simulator := set_interest nodes (packets_of_interest s) s.

(** What was sent before [expirationTime] is of no interest any more. *)
Definition clear_old_packets (expirationTime : Q) (s : simulator) : simulator :=
  set_interest (nodes_of_interest s)
    (filter (fun ut : N * Q => Qle_bool expirationTime ut.2 = true) (packets_of_interest s)) s.

(** The node is of interest, or the packet is. *)
Definition of_interest (node : N) (p : packet) (s : simulator) : bool :=
  bool_decide (node ∈ nodes_of_interest s) || bool_decide (is_Some (packets_of_interest s !! packet_uid p)).

(** What is sent is captured; a packet that a node of interest sends is followed. *)
Definition TraceNetDevTxCommon (node : N) (x : packet_sample) (s : simulator) : simulator :=
  let s := capture_packet Transmitted node x s in
  if bool_decide (node ∈ nodes_of_interest s)
  then set_interest (nodes_of_interest s) (<[packet_uid (sample_packet x) := time x]> (packets_of_interest s)) s
  else s.

Definition TraceNetDevRxCommon (node : N) (x : packet_sample) (s : simulator) : simulator :=
  capture_packet Received node x s.

(** What is dropped is captured, without its device, when the node or the packet is of interest. *)
Definition drop_sample (x : packet_sample) : packet_sample :=
  {| time := time x; device := None; sample_packet := sample_packet x |}.

Definition TraceDevQueueDrop (node : N) (x : packet_sample) (s : simulator) : simulator :=
  if of_interest node (sample_packet x) s then capture_packet Dropped node (drop_sample x) s else s.

Definition trace_packet (t : trace) : N -> packet_sample -> simulator -> simulator :=
  match t with
  | Transmitted => TraceNetDevTxCommon
  | Received => TraceNetDevRxCommon
  | Dropped => TraceDevQueueDrop
  end.

(** ** The types of headers *)

(** The registered types, each with its parent; [Header] and [Trailer] are two of them. *)
Record typeid := { type_name : pystr; parent : option nat }.

Section typeids.
Variables (registered : list typeid) (Header Trailer : nat).

Definition parent_of (t : nat) : option nat := registered !! t ≫= parent.

(** The loop [while 1], which ends at a header, a trailer or a type without a parent. *)
Fixpoint type_is_good (fuel t : nat) : option bool :=
  match fuel with
  | O => None
  | S fuel =>
      if decide (t = Header \/ t = Trailer) then Some true
      else match parent_of t with Some p => type_is_good fuel p | None => Some false end
  end.

Definition scan_typeid (l : list (nat * bool)) (t : nat) : py (list (nat * bool)) :=
  match type_is_good (S (length registered)) t with
  | None => Err OutOfFuel
  | Some false => Ok l
  | Some true => if decide (t ∈ [Header; Trailer]) then Ok l else Ok (l ++ [(t, true)])
  end.

Fixpoint scan_typeids (l : list (nat * bool)) (ts : list nat) : py (list (nat * bool)) :=
  match ts with [] => Ok l | t :: ts => let! l := scan_typeid l t in scan_typeids l ts end.

(** The list of the [TypeIdConfig]s: each type, and whether it is selected. *)
Definition packet_filter_list : py (list (nat * bool)) := scan_typeids [] (seq 0 (length registered)).

End typeids.

(** ** The windows *)

Inductive cell := Text (s : pystr) | Number (z : Z).

(** What a [ShowLastPackets] has besides its lists. *)
Record packet_filter := { filter_list : list (nat * bool); op_AND : bool }.

Inductive window_kind := ShowInterfaceStatistics | ShowIpv4RoutingTable | ShowOlsrRoutingTable | ShowLastPackets (f : packet_filter).

(** [tables] has one table, or those of the packets that were sent, received and dropped. *)
Record window := { node_index : N; kind : window_kind; tables : list (list (list cell)); shown : bool }.

Record viz := { objects : list window; information_windows : list nat; sim : simulator }.

Definition set_objects l (v : viz) : viz := {| objects := l; information_windows := information_windows v; sim := sim v |}.
Definition set_windows l (v : viz) : viz := {| objects := objects v; information_windows := l; sim := sim v |}.
Definition set_sim s (v : viz) : viz := {| objects := objects v; information_windows := information_windows v; sim := s |}.

Definition with_tables t (w : window) : window := {| node_index := node_index w; kind := kind w; tables := t; shown := shown w |}.
Definition with_shown b (w : window) : window := {| node_index := node_index w; kind := kind w; tables := tables w; shown := b |}.

Definition on_window (i : nat) (f : window -> window) (v : viz) : viz := set_objects (alter f i (objects v)) v.

Section windows.
Variable str_float : Q -> pystr.

(** [FindName], or ["(interface %i)"] *)
Definition named (name : pystr) (i : N) : pystr := if decide (name = []) then $"(interface " ++ show_N i ++ $")" else name.

Definition interface_name (device : option pystr) (i : N) : pystr := match device with None => $"lo" | Some name => named name i end.

(** *** [interface_statistics.py] *)

Definition statistics_row (node : sim_node) (iface : nat) (s : NetDevStats) : list cell :=
  Text (named (device_name node (N.of_nat iface)) (N.of_nat iface)) ::
  (Text <$> [show_Z (txPackets s); show_Z (txBytes s); str_float (txPacketRate s); str_float (txBitRate s);
             show_Z (rxPackets s); show_Z (rxBytes s); str_float (rxPacketRate s); str_float (rxBitRate s)]).

(** *** [ipv4_routing_table.py] *)

Definition with_type (p : routing_protocol) (prio : Z) : option (list route * pystr * Z) :=
  match p with
  | StaticRouting l => Some (l, $"static", prio)
  | GlobalRouting l => Some (l, $"global", prio)
  | OtherRouting => None
  end.

Definition routing_protocols (r : ipv4_routing) : list (list route * pystr * Z) :=
  match r with
  | NoRouting => []
  | OneRouting (StaticRouting l) => [(l, $"static", 0%Z)]
  | OneRouting _ => []
  | ListRouting l => omap (fun p => with_type p.1 p.2) l
  end.

Definition route_row (ip : ipv4_stack) (type_string : pystr) (prio : Z) (r : route) : list cell :=
  [Text (dest r); Text (gateway r); Text (interface_name (get_net_device ip (interface r)) (interface r)); Text type_string; Number prio].

Definition routing_rows (ip : ipv4_stack) : list (list cell) :=
  routing_protocols (get_routing_protocol ip) ≫= fun p => route_row ip p.1.2 p.2 <$> p.1.1.

(** *** [olsr.py] *)

Definition olsr_row (ip : ipv4_stack) (r : olsr_route) : list cell :=
  [Text (destAddr r); Text (nextAddr r); Text (interface_name (get_net_device ip (olsr_interface r)) (olsr_interface r)); Number (distance r)].

(** *** [show_last_packets.py] *)

Definition packet_row (x : packet_sample) : list cell :=
  Text <$> [str_float (time x); match device x with None => $"(unknown)" | Some (name, i) => named name i end;
            show_N (packet_size (sample_packet x)); packet_text (sample_packet x)].

Definition packet_tables (l : last_packets) : list (list (list cell)) :=
  [packet_row <$> lastTransmitted l; packet_row <$> lastReceived l; packet_row <$> lastDropped l].

(** *** [update] *)

Definition update_statistics (s : simulator) (w : window) : window * py () :=
  match get_interface_statistics (sample_period s) (node_index w) (statistics_collector s) with
  | Err e => (w, Err e)
  | Ok l => (with_tables [imap (statistics_row (get_sim_node s (node_index w))) l] w, Ok tt)
  end.

Definition update_routing (s : simulator) (w : window) : window * py () :=
  match ipv4 (get_sim_node s (node_index w)) with
  | None => (w, Err AttributeError)
  | Some ip =>
      match routing_protocols (get_routing_protocol ip) with
      | [] => (w, Ok tt)
      | _ => (with_tables [routing_rows ip] w, Ok tt)
      end
  end.

Definition update_olsr (s : simulator) (w : window) : window * py () :=
  let node := get_sim_node s (node_index w) in
  match olsr node with
  | None => (w, Ok tt)
  | Some l =>
      match ipv4 node, l with
      | Some ip, _ => (with_tables [olsr_row ip <$> l] w, Ok tt)
      | None, [] => (with_tables [[]] w, Ok tt)
      | None, _ :: _ => (with_tables [[[]]] w, Err AttributeError)   (* the row that was appended *)
      end
  end.

Definition update_packets (s : simulator) (w : window) : window * py () :=
  (with_tables (packet_tables (GetLastPackets (node_index w) s)) w, Ok tt).

Definition update (s : simulator) : stM window () := fun w =>
  match kind w with
  | ShowInterfaceStatistics => update_statistics s w
  | ShowIpv4RoutingTable => update_routing s w
  | ShowOlsrRoutingTable => update_olsr s w
  | ShowLastPackets _ => update_packets s w
  end.

(** An operation on an object of the list of all objects. *)
Definition in_window (i : nat) (m : simulator -> stM window ()) : stM viz () := fun v =>
  match objects v !! i with
  | None => (v, Err AttributeError)
  | Some w => let '(w, r) := m (sim v) w in (on_window i (fun _ => w) v, r)
  end.

Definition update_window (i : nat) : stM viz () := in_window i update.

Definition add_information_window (i : nat) : stM viz () :=
  mset (fun v => set_windows (information_windows v ++ [i]) v) >>> update_window i.

(** [list.remove], of the first element that is equal *)
Fixpoint remove_first (i : nat) (l : list nat) : py (list nat) :=
  match l with
  | [] => Err ValueError
  | j :: l => if decide (j = i) then Ok l else let! l := remove_first i l in Ok (j :: l)
  end.

Definition remove_information_window (i : nat) : stM viz () :=
  do! l := mget information_windows in
  do! l := mlift (remove_first i l) in
  mset (set_windows l).

(** The loop of [Visualizer.update_view] over the windows. *)
Definition update_windows : stM viz () := do! l := mget information_windows in mfor update_window l.

(** *** The handlers of the windows *)

Definition selected (f : packet_filter) : list nat := (filter (fun c => c.2 = true) (filter_list f)).*1.

Definition options_of (f : packet_filter) : capture_options :=
  {| headers := selected f; numLastPackets := 100; mode := if op_AND f then FILTER_HEADERS_AND else FILTER_HEADERS_OR |}.

Definition update_capture_options (w : window) (v : viz) : viz :=
  match kind w with
  | ShowLastPackets f => set_sim (SetPacketCaptureOptions (node_index w) (options_of f) (sim v)) v
  | _ => v
  end.

(** A handler that changes the filter of a window, then the options of the simulator. *)
Definition on_filter (i : nat) (g : packet_filter -> packet_filter) (v : viz) : viz :=
  match objects v !! i with
  | Some {| node_index := n; kind := ShowLastPackets f; tables := t; shown := b |} =>
      let w := {| node_index := n; kind := ShowLastPackets (g f); tables := t; shown := b |} in
      update_capture_options w (on_window i (fun _ => w) v)
  | _ => v
  end.

Definition sel_all (b : bool) (f : packet_filter) : packet_filter := {| filter_list := (fun c => (c.1, b)) <$> filter_list f; op_AND := op_AND f |}.
Definition cell_edited (j : nat) (b : bool) (f : packet_filter) : packet_filter :=
  {| filter_list := alter (fun c => (c.1, b)) j (filter_list f); op_AND := op_AND f |}.
Definition op_toggled (b : bool) (f : packet_filter) : packet_filter := {| filter_list := filter_list f; op_AND := b |}.

(** The constructors: the object, the options of a [ShowLastPackets], [add_information_window],
    which may raise, and [self.win.show]. *)
Definition open_window (node : N) (k : window_kind) : stM viz () :=
  do! i := mget (fun v => length (objects v)) in
  let w := {| node_index := node; kind := k; tables := match k with ShowLastPackets _ => [[]; []; []] | _ => [[]] end; shown := false |} in
  mset (fun v => update_capture_options w (set_objects (objects v ++ [w]) v)) >>>
  add_information_window i >>>
  mset (on_window i (with_shown true)).

Definition response_cb (i : nat) : stM viz () :=
  mset (on_window i (with_shown false)) >>> remove_information_window i.

(** *** Events *)

Section events.
Variable all_types : list (nat * bool).    (* [packet_filter_list] *)

(** What the user does, to a window that is shown, and when another node is selected; an update
    of the view; a step of the simulator, which may change its nodes and statistics, forget
    old packets, or send, receive or drop a packet. *)
Inductive event :=
| OpenStatistics (node : N) | OpenRouting (node : N) | OpenOlsr (node : N) | OpenPackets (node : N)
| Close (i : nat)
| SelAll (i : nat) | SelNone (i : nat) | CellEdited (i j : nat) (b : bool) | OpToggled (i : nat) (b : bool)
| Select (nodes : gset N)
| UpdateView
| ClearOld (expirationTime : Q)
| NodesChange (f : N -> sim_node) (c : collector)
| Packet (t : trace) (node : N) (x : packet_sample).

Definition is_shown (i : nat) (v : viz) : bool := match objects v !! i with Some w => shown w | None => false end.

(** [populate_node_menu] of [olsr.py] offers the window only for a node with OLSR. *)
Definition do_event (e : event) : stM viz () := fun v =>
  match e with
  | OpenStatistics n => open_window n ShowInterfaceStatistics v
  | OpenRouting n => open_window n ShowIpv4RoutingTable v
  | OpenOlsr n => match olsr (get_sim_node (sim v) n) with None => (v, Ok tt) | Some _ => open_window n ShowOlsrRoutingTable v end
  | OpenPackets n => open_window n (ShowLastPackets {| filter_list := all_types; op_AND := false |}) v
  | Close i => if is_shown i v then response_cb i v else (v, Ok tt)
  | SelAll i => (if is_shown i v then on_filter i (sel_all true) v else v, Ok tt)
  | SelNone i => (if is_shown i v then on_filter i (sel_all false) v else v, Ok tt)
  | CellEdited i j b => (if is_shown i v then on_filter i (cell_edited j b) v else v, Ok tt)
  | OpToggled i b => (if is_shown i v then on_filter i (op_toggled b) v else v, Ok tt)
  | Select nodes => (set_sim (SetNodesOfInterest nodes (sim v)) v, Ok tt)
  | UpdateView => update_windows v
  | ClearOld t => (set_sim (clear_old_packets t (sim v)) v, Ok tt)
  | NodesChange f c =>
      (set_sim {| get_sim_node := f; capture := capture (sim v); packets := packets (sim v);
                  nodes_of_interest := nodes_of_interest (sim v); packets_of_interest := packets_of_interest (sim v);
                  statistics_collector := c; sample_period := sample_period (sim v) |} v, Ok tt)
  | Packet t n x => (set_sim (trace_packet t n x (sim v)) v, Ok tt)
  end.

Definition run_events (es : list event) (v : viz) : viz := foldl (fun v e => (do_event e v).1) v es.

End events.
End windows.

(** ** The capture filter *)

Lemma missing_headers_spec items hs h : h ∈ missing_headers items hs <-> h ∈ hs /\ h ∉ items.
Proof.
  unfold missing_headers. revert hs. induction items as [|i items IH]; intros hs; cbn [foldl]; [set_solver|].
  rewrite IH, list_elem_of_filter, list.not_elem_of_cons. naive_solver.
Qed.

(** A packet is kept in mode OR when it has one of the headers, and in mode AND when it has
    all of them: with none selected the first keeps nothing and the second everything. *)
Lemma FilterPacket_spec p o : FilterPacket p o = true <->
  match mode o with
  | FILTER_HEADERS_OR => exists h, h ∈ headers o /\ h ∈ packet_items p
  | FILTER_HEADERS_AND => forall h, h ∈ headers o -> h ∈ packet_items p
  end.
Proof.
  unfold FilterPacket. destruct (mode o).
  - rewrite existsb_exists. split; intros (h & H1 & H2).
    + exists h. apply bool_decide_eq_true in H2. split; [done|by apply list_elem_of_In].
    + exists h. split; [by apply list_elem_of_In|by apply bool_decide_eq_true].
  - rewrite bool_decide_eq_true. split.
    + intros E h Hh. destruct (decide (h ∈ packet_items p)) as [|Hn]; [done|exfalso].
      assert (h ∈ missing_headers (packet_items p) (headers o)) as H by by apply missing_headers_spec.
      rewrite E in H. set_solver.
    + intros Ha. destruct (missing_headers (packet_items p) (headers o)) as [|h l] eqn:E; [done|exfalso].
      assert (h ∈ missing_headers (packet_items p) (headers o)) as [H1 H2]%missing_headers_spec by (rewrite E; by left). auto.
Qed.

(** ** The types that can be selected *)

Section typeids.
Variables (registered : list typeid) (Header Trailer : nat).

(** [t] has [h] among its parents. *)
Inductive descends (h : nat) : nat -> Prop :=
| descends_parent t : parent_of registered t = Some h -> descends h t
| descends_step t p : parent_of registered t = Some p -> descends h p -> descends h t.

Definition good (t : nat) : Prop := t = Header \/ t = Trailer \/ descends Header t \/ descends Trailer t.

Lemma type_is_good_sound fuel t b : type_is_good registered Header Trailer fuel t = Some b -> b = true <-> good t.
Proof.
  revert t. induction fuel as [|fuel IH]; intros t; cbn; [done|]. case_decide as Ht.
  { intros [= <-]. split; [|done]. unfold good. naive_solver. }
  destruct (parent_of registered t) as [p|] eqn:Ep.
  - intros Hb. rewrite (IH p Hb). unfold good. split.
    + intros [->|[->|[H|H]]]; eauto using descends_parent, descends_step.
    + intros [->|[->|[H|H]]]; [naive_solver..| |].
      * inversion H; simplify_eq; auto.
      * inversion H; simplify_eq; auto.
  - intros [= <-]. split; [done|]. unfold good. intros [->|[->|[H|H]]]; [naive_solver..| |]; inversion H; congruence.
Qed.

(** No type is its own ancestor, and parents are registered. *)
Variable rank : nat -> nat.
Hypothesis parents_rank : forall t p, parent_of registered t = Some p -> rank p < rank t.

Lemma parent_registered t p : parent_of registered t = Some p -> t < length registered.
Proof. unfold parent_of. destruct (registered !! t) eqn:E; [|done]. intros _. by eapply lookup_lt_Some. Qed.

(** The types met on the way are different, so there are not more than are registered. *)
Lemma type_is_good_ends fuel t seen :
  length registered < fuel + length seen -> NoDup seen -> (forall x, x ∈ seen -> x < length registered /\ rank t < rank x) ->
  is_Some (type_is_good registered Header Trailer fuel t).
Proof.
  revert t seen. induction fuel as [|fuel IH]; intros t seen Hl Hn Hs.
  { exfalso. assert (length seen <= length (seq 0 (length registered))) as H; [|rewrite length_seq in H; lia].
    apply submseteq_length, NoDup_submseteq; [done|]. intros x Hx. apply elem_of_seq. destruct (Hs x Hx). lia. }
  cbn. case_decide; [done|]. destruct (parent_of registered t) as [p|] eqn:Ep; [|done].
  pose proof (parents_rank t p Ep). apply (IH p (t :: seen)); [cbn; lia| |].
  - constructor; [|done]. intros Hx. destruct (Hs t Hx). lia.
  - intros x [->|Hx]%list.elem_of_cons; [split; [by eapply parent_registered|done]|]. destruct (Hs x Hx). split; [done|lia].
Qed.

Lemma scan_typeids_spec ts l : exists l', scan_typeids registered Header Trailer l ts = Ok (l ++ l') /\
  l'.*1 `sublist_of` ts /\ Forall (fun c => c.2 = true) l' /\
  forall t, t ∈ l'.*1 <-> t ∈ ts /\ t <> Header /\ t <> Trailer /\ (descends Header t \/ descends Trailer t).
Proof.
  revert l. induction ts as [|t ts IH]; intros l.
  { exists []. cbn. rewrite app_nil_r. split_and!; [done..|]. intros u. set_solver. }
  cbn [scan_typeids]. unfold scan_typeid.
  destruct (type_is_good_ends (S (length registered)) t []) as [b Hb]; [cbn; lia|constructor|set_solver|].
  rewrite Hb. pose proof (type_is_good_sound _ _ _ Hb) as Hg. unfold good in Hg.
  assert (forall k, (b = true /\ t <> Header /\ t <> Trailer -> k = l ++ [(t, true)]) ->
    (~ (b = true /\ t <> Header /\ t <> Trailer) -> k = l) ->
    exists l', scan_typeids registered Header Trailer k ts = Ok (l ++ l') /\ l'.*1 `sublist_of` t :: ts /\ Forall (fun c => c.2 = true) l' /\
    forall u, u ∈ l'.*1 <-> u ∈ t :: ts /\ u <> Header /\ u <> Trailer /\ (descends Header u \/ descends Trailer u)) as Hk.
  { intros k H1 H2. destruct (decide (b = true /\ t <> Header /\ t <> Trailer)) as [D|D].
    - rewrite (H1 D). destruct (IH (l ++ [(t, true)])) as (l' & -> & Hsub & Hall & Hin). exists ((t, true) :: l').
      rewrite <- app_assoc. split; [done|]. split; [by apply sublist_skip|]. split; [by constructor|].
      intros u. cbn. rewrite !list.elem_of_cons, Hin. naive_solver.
    - rewrite (H2 D). destruct (IH l) as (l' & -> & Hsub & Hall & Hin). exists l'. split; [done|].
      split; [by apply sublist_cons|]. split; [done|]. intros u. rewrite list.elem_of_cons, Hin. split; [naive_solver|].
      intros [[->|Hu] Hd]; [|naive_solver]. exfalso. apply D. naive_solver. }
  destruct b.
  - case_decide as E; cbn [rbind].
    + apply (Hk l); [intros (_ & D)|done]. exfalso. set_solver.
    + apply (Hk (l ++ [(t, true)])); [done|intros D]. exfalso. apply D. set_solver.
  - cbn [rbind]. apply (Hk l); [by intros []|done].
Qed.

(** The scan ends, and lists the types below [Header] and [Trailer] in the order in which they
    are registered, all selected. *)
Lemma packet_filter_list_spec : exists l, packet_filter_list registered Header Trailer = Ok l /\
  l.*1 `sublist_of` seq 0 (length registered) /\ Forall (fun c => c.2 = true) l /\
  forall t, t ∈ l.*1 <-> t < length registered /\ t <> Header /\ t <> Trailer /\ (descends Header t \/ descends Trailer t).
Proof.
  destruct (scan_typeids_spec (seq 0 (length registered)) []) as (l & E & H1 & H2 & H3). exists l. split_and!; [done..|].
  intros t. rewrite H3, elem_of_seq. naive_solver lia.
Qed.

End typeids.

(** ** Updating the windows *)

Section proofs.
Variable str_float : Q -> pystr.
Implicit Types (v : viz) (w : window) (s : simulator).

(** The window after [update]. *)
Definition updated s w : window := (update str_float s w).1.

Lemma updated_keeps s w :
  node_index (updated s w) = node_index w /\ kind (updated s w) = kind w /\ shown (updated s w) = shown w.
Proof.
  unfold updated, update, update_statistics, update_routing, update_olsr, update_packets.
  destruct (kind w) eqn:Ek; repeat case_match; cbn; rewrite ?Ek; done.
Qed.

Lemma in_window_spec i v w : objects v !! i = Some w ->
  update_window str_float i v = (on_window i (updated (sim v)) v, (update str_float (sim v) w).2).
Proof.
  intros E. unfold update_window, in_window, updated. rewrite E. destruct (update str_float (sim v) w) as [w' r] eqn:Eu. cbn. f_equal.
  unfold on_window, set_objects. f_equal. apply list_eq. intros j. destruct (decide (j = i)) as [->|].
  - rewrite !list_lookup_alter, E. cbn. by rewrite Eu.
  - by rewrite !list_lookup_alter_ne.
Qed.

Lemma on_window_lookup i f v j : objects (on_window i f v) !! j = (if decide (j = i) then f <$> objects v !! j else objects v !! j).
Proof. cbn. rewrite list_lookup_alter. repeat case_decide; by subst. Qed.

(** When no update raises, every window is updated. *)
Lemma update_all l v : NoDup l ->
  (forall i, i ∈ l -> exists w, objects v !! i = Some w /\ (update str_float (sim v) w).2 = Ok tt) ->
  exists v', mfor (update_window str_float) l v = (v', Ok tt) /\ sim v' = sim v /\ information_windows v' = information_windows v /\
    forall j, objects v' !! j = if decide (j ∈ l) then updated (sim v) <$> objects v !! j else objects v !! j.
Proof.
  revert v. induction l as [|i l IH]; intros v Hn Hl.
  { exists v. split_and!; [done..|]. intros j. rewrite decide_False; [done|set_solver]. }
  apply NoDup_cons in Hn as [Hi Hn]. destruct (Hl i) as (w & Ew & Hw); [by left|]. cbn [mfor]. unfold gbind at 1.
  rewrite (in_window_spec i v w Ew), Hw. destruct (IH (on_window i (updated (sim v)) v) Hn) as (v' & E & Es & Ei & Hj).
  { intros j Hj. destruct (Hl j) as (w' & Ew' & Hw'); [by right|]. exists w'. rewrite on_window_lookup, decide_False by set_solver. done. }
  exists v'. rewrite E. split_and!; [done..|]. intros j. rewrite Hj. change (sim (on_window i _ v)) with (sim v). rewrite on_window_lookup.
  destruct (decide (j = i)) as [->|Hji].
  - rewrite decide_False by done. by rewrite decide_True by (by left).
  - destruct (decide (j ∈ l)); [by rewrite decide_True by (by right)|rewrite decide_False by set_solver; done].
Qed.

(** A window whose update raises stops the loop. *)
Lemma update_raises l v i w e : NoDup l -> i ∈ l -> (forall i, i ∈ l -> is_Some (objects v !! i)) ->
  objects v !! i = Some w -> (update str_float (sim v) w).2 = Err e ->
  exists e', (mfor (update_window str_float) l v).2 = Err e'.
Proof.
  revert v. induction l as [|j l IH]; intros v Hn Hi Hl Ew Hw; [set_solver|].
  apply NoDup_cons in Hn as [Hj Hn]. destruct (Hl j) as [wj Ej]; [by left|]. cbn [mfor]. unfold gbind at 1.
  rewrite (in_window_spec j v wj Ej). destruct (update str_float (sim v) wj).2 as [[]|e'] eqn:Er; [|by eexists].
  apply list.elem_of_cons in Hi as [->|Hi]; [congruence|]. apply IH; [done|done| | |done].
  - intros k Hk. rewrite on_window_lookup. destruct (Hl k) as [wk ->]; [by right|]. by case_decide.
  - rewrite on_window_lookup, decide_False; [done|]. by intros ->.
Qed.

(** Whatever happens, an update keeps what the windows are. *)
Definition same_windows v v' : Prop :=
  sim v' = sim v /\ information_windows v' = information_windows v /\
  forall j, (fun w => (node_index w, kind w, shown w)) <$> objects v' !! j = (fun w => (node_index w, kind w, shown w)) <$> objects v !! j.

Lemma update_window_keeps i v : same_windows v (update_window str_float i v).1.
Proof.
  unfold same_windows. destruct (objects v !! i) as [w|] eqn:E; [|unfold update_window, in_window; by rewrite E].
  rewrite (in_window_spec i v w E). split_and!; [done..|]. intros j. cbn [fst]. rewrite on_window_lookup. case_decide as D; [|done].
  subst j. rewrite E. cbn. by destruct (updated_keeps (sim v) w) as (-> & -> & ->).
Qed.

Lemma update_keeps_windows l v : same_windows v (mfor (update_window str_float) l v).1.
Proof.
  revert v. induction l as [|i l IH]; intros v; cbn; [done|]. unfold gbind. pose proof (update_window_keeps i v) as (A & B & C).
  destruct (update_window str_float i v) as [v' [[]|e]]; [|done]. cbn in *. destruct (IH v') as (A' & B' & C'). split_and!; [congruence..|].
  intros j. by rewrite C', C.
Qed.

(** ** The windows that are listed *)

Definition asks (n : N) w : option packet_filter := match kind w with ShowLastPackets f => if decide (node_index w = n) then Some f else None | _ => None end.

Record inv v : Prop := {
  inv_nodup : NoDup (information_windows v);
  inv_listed : forall i, i ∈ information_windows v -> is_Some (objects v !! i);
  inv_shown : forall i w, objects v !! i = Some w -> shown w = true -> i ∈ information_windows v;
  (* what the simulator was asked for is what a window of the node shows *)
  inv_capture : forall n o, capture (sim v) !! n = Some o -> exists i w f, objects v !! i = Some w /\ asks n w = Some f /\ o = options_of f;
  inv_asked : forall i w n f, objects v !! i = Some w -> asks n w = Some f -> is_Some (capture (sim v) !! n)
}.

Lemma asks_same n w w' : (node_index w, kind w, shown w) = (node_index w', kind w', shown w') -> asks n w = asks n w'.
Proof. unfold asks. by intros [= -> -> _]. Qed.

(** A state that differs by the tables only, or by the nodes and the packets of the simulator. *)
Lemma inv_same v v' : information_windows v' = information_windows v -> capture (sim v') = capture (sim v) ->
  (forall j, (fun w => (node_index w, kind w, shown w)) <$> objects v' !! j = (fun w => (node_index w, kind w, shown w)) <$> objects v !! j) ->
  inv v -> inv v'.
Proof.
  intros Ei Ec Ho [H1 H2 H3 H4 H5].
  assert (forall j w, objects v' !! j = Some w -> exists w', objects v !! j = Some w' /\
    (node_index w, kind w, shown w) = (node_index w', kind w', shown w')) as Hback.
  { intros j w E. specialize (Ho j). rewrite E in Ho. destruct (objects v !! j) as [w'|]; [|done]. exists w'. split; [done|]. cbn in Ho. congruence. }
  split; rewrite ?Ei, ?Ec; [done|..].
  - intros i Hi. destruct (H2 i Hi) as [w Ew]. specialize (Ho i). rewrite Ew in Ho. by destruct (objects v' !! i).
  - intros i w E Hs. destruct (Hback i w E) as (w' & E' & Eq). eapply H3; [done|]. congruence.
  - intros n o Hn. destruct (H4 n o Hn) as (i & w & f & Ew & Ha & Hf). specialize (Ho i). rewrite Ew in Ho.
    destruct (objects v' !! i) as [w'|] eqn:Ew'; [|done]. exists i, w', f. split_and!; [done| |done].
    rewrite <- Ha. apply asks_same. cbn in Ho. congruence.
  - intros i w n f E Ha. destruct (Hback i w E) as (w' & E' & Eq). eapply H5; [exact E'|]. rewrite <- Ha. symmetry. by apply asks_same.
Qed.

Lemma remove_first_spec i l : NoDup l -> i ∈ l ->
  exists l', remove_first i l = Ok l' /\ NoDup l' /\ forall j, j ∈ l' <-> j ∈ l /\ j <> i.
Proof.
  induction l as [|k l IH]; intros Hn Hi; [set_solver|]. apply NoDup_cons in Hn as [Hk Hn]. cbn. case_decide as D.
  - subst. exists l. split_and!; [done..|]. set_solver.
  - destruct IH as (l' & -> & Hn' & Hl'); [done|set_solver|]. exists (k :: l'). split; [done|]. split.
    + constructor; [|done]. rewrite Hl'. naive_solver.
    + intros j. rewrite !list.elem_of_cons, Hl'. naive_solver.
Qed.

Lemma inv_windows v v' : same_windows v v' -> inv v -> inv v'.
Proof. intros (Es & Ei & Eo). apply inv_same; [done|by rewrite Es|done]. Qed.

(** The state in which the new window is updated. *)
Definition with_window w v : viz :=
  set_windows (information_windows v ++ [length (objects v)]) (update_capture_options w (set_objects (objects v ++ [w]) v)).

Lemma update_capture_keeps w v :
  objects (update_capture_options w v) = objects v /\ information_windows (update_capture_options w v) = information_windows v.
Proof. unfold update_capture_options. by destruct (kind w). Qed.

Lemma update_capture_options_capture w v n : capture (sim (update_capture_options w v)) !! n =
  match asks n w with Some f => Some (options_of f) | None => capture (sim v) !! n end.
Proof.
  unfold update_capture_options, asks. destruct (kind w); [done..|]. cbn. rewrite lookup_insert. by repeat case_decide.
Qed.

Lemma lookup_snoc_Some {A} (l : list A) x i y : (l ++ [x]) !! i = Some y <-> l !! i = Some y \/ i = length l /\ y = x.
Proof.
  rewrite lookup_app_Some, list_lookup_singleton_Some. split; [|intros [?|[-> ->]]; [by left|right; split; [lia|split; [lia|done]]]].
  intros [?|[? [? ->]]]; [by left|right; split; [lia|done]].
Qed.

Lemma inv_with_window w v : shown w = false -> inv v -> inv (with_window w v).
Proof.
  intros Hw [H1 H2 H3 H4 H5]. unfold with_window. set (v1 := set_objects (objects v ++ [w]) v).
  destruct (update_capture_keeps w v1) as [Eo _].
  assert (length (objects v) ∉ information_windows v) as Hnew by (intros [x Hx%lookup_lt_Some]%H2; lia).
  split; cbn [objects information_windows sim set_windows]; rewrite ?Eo; cbn [objects v1 set_objects].
  - apply NoDup_app. split_and!; [done|set_solver|apply NoDup_singleton].
  - intros i [Hi| ->%list_elem_of_singleton]%elem_of_app; [destruct (H2 i Hi) as [x Hx]|]; eexists; apply lookup_snoc_Some; eauto.
  - intros i x [E|[-> ->]]%lookup_snoc_Some Hs; [|congruence]. apply elem_of_app. left. eauto.
  - intros n o. rewrite update_capture_options_capture. destruct (asks n w) as [f|] eqn:Ea.
    + intros [= <-]. exists (length (objects v)), w, f. split_and!; [|done..]. apply lookup_snoc_Some. by right.
    + intros Hn. destruct (H4 n o Hn) as (i & x & f & Ex & Hx). exists i, x, f. split; [|done]. apply lookup_snoc_Some. by left.
  - intros i x n f [E|[-> ->]]%lookup_snoc_Some Ha; rewrite update_capture_options_capture; [|by rewrite Ha].
    destruct (asks n w); [done|]. eapply H5; eauto.
Qed.

Lemma inv_with_shown i b v : (b = true -> i ∈ information_windows v) -> inv v -> inv (on_window i (with_shown b) v).
Proof.
  intros Hb [H1 H2 H3 H4 H5]. split; cbn [information_windows sim on_window set_objects]; [done|..].
  - intros j Hj. rewrite on_window_lookup. destruct (H2 j Hj) as [w ->]. case_decide; done.
  - intros j w. rewrite on_window_lookup. case_decide as D; [|apply H3]. subst j. intros (w0 & E & ->)%fmap_Some Hs. by apply Hb.
  - intros n o Hn. destruct (H4 n o Hn) as (j & w & f & E & Ha & Hf).
    exists j, (if decide (j = i) then with_shown b w else w), f. rewrite on_window_lookup, E. by case_decide.
  - intros j w n f. rewrite on_window_lookup. case_decide as D; [|apply H5]. intros (w0 & E & ->)%fmap_Some Ha. eapply H5; [exact E|exact Ha].
Qed.

Lemma open_window_eq node k v :
  let w := {| node_index := node; kind := k; tables := match k with ShowLastPackets _ => [[]; []; []] | _ => [[]] end; shown := false |} in
  open_window str_float node k v =
    (update_window str_float (length (objects v)) >>> mset (on_window (length (objects v)) (with_shown true))) (with_window w v).
Proof.
  cbv zeta. unfold open_window, add_information_window, with_window, gbind, mget, mset. cbn.
  destruct (update_capture_keeps {| node_index := node; kind := k; tables := match k with ShowLastPackets _ => [[]; []; []] | _ => [[]] end; shown := false |}
    (set_objects (objects v ++ [{| node_index := node; kind := k; tables := match k with ShowLastPackets _ => [[]; []; []] | _ => [[]] end; shown := false |}]) v)) as [_ ->].
  done.
Qed.

Lemma inv_open node k v : inv v -> inv (open_window str_float node k v).1.
Proof.
  intros Hv. rewrite open_window_eq. set (w := {| node_index := node; kind := k; tables := _; shown := false |}).
  pose proof (inv_with_window w v eq_refl Hv) as Hw. pose proof (update_window_keeps (length (objects v)) (with_window w v)) as Hk.
  pose proof (inv_windows _ _ Hk Hw) as Hu. destruct Hk as (_ & H2 & _). unfold gbind.
  destruct (update_window str_float (length (objects v)) (with_window w v)) as [v' [[]|e]]; cbn in *; [|done].
  apply inv_with_shown; [|done]. intros _. rewrite H2. cbn. set_solver.
Qed.

Lemma inv_close i v : is_shown i v = true -> inv v -> inv (response_cb i v).1.
Proof.
  unfold is_shown. intros Hs Hv. destruct (objects v !! i) as [w|] eqn:Ew; [|done].
  pose proof (inv_with_shown i false v ltac:(done) Hv) as Hv1.
  destruct (remove_first_spec i (information_windows v)) as (l & El & Hn & Hl); [apply Hv|by eapply inv_shown|].
  unfold response_cb, remove_information_window, gbind, mset, mget, mlift. cbn [information_windows on_window set_objects]. rewrite El. cbn [fst].
  destruct Hv1 as [H1 H2 H3 H4 H5]. split; cbn [information_windows objects sim set_windows]; [done| | |done|done].
  - intros j [Hj _]%Hl. by apply H2.
  - intros j x Ex Hx. apply Hl. split; [by eapply H3|]. intros ->. change (objects (on_window i (with_shown false) v) !! i = Some x) in Ex.
    rewrite on_window_lookup, decide_True, Ew in Ex by done. injection Ex as <-. done.
Qed.

Lemma inv_filter i g v : inv v -> inv (on_filter i g v).
Proof.
  intros Hv. unfold on_filter. destruct (objects v !! i) as [w|] eqn:Ew; [|done]. destruct w as [m k t b], k as [| | |f]; try done.
  set (w' := {| node_index := m; kind := ShowLastPackets (g f); tables := t; shown := b |}).
  destruct (update_capture_keeps w' (on_window i (fun _ => w') v)) as [Eo Ei]. destruct Hv as [H1 H2 H3 H4 H5].
  assert (forall n, asks n w' = if decide (m = n) then Some (g f) else None) as Ha by done.
  split; rewrite ?Eo, ?Ei; cbn [information_windows on_window set_objects]; [done|..].
  - intros j Hj. rewrite on_window_lookup. destruct (H2 j Hj) as [w ->]. by case_decide.
  - intros j w. rewrite on_window_lookup. case_decide as D; [|apply H3]. subst j. rewrite Ew. intros [= <-] Hs. by eapply H3.
  - intros n o. rewrite update_capture_options_capture, Ha. case_decide as D.
    + intros [= <-]. exists i, w', (g f). rewrite on_window_lookup, decide_True, Ew by done.
      split; [done|]. split; [by rewrite Ha, decide_True|done].
    + intros Hn. destruct (H4 n o Hn) as (j & w & h & E & Hw & Hh). exists j, w, h. rewrite on_window_lookup, decide_False; [done|].
      intros ->. rewrite Ew in E. injection E as <-. unfold asks in Hw. cbn in Hw. by rewrite decide_False in Hw.
  - intros j w n h. rewrite on_window_lookup, update_capture_options_capture, Ha. case_decide as D.
    + subst j. rewrite Ew. intros [= <-]. rewrite Ha. by case_decide.
    + intros E Hw. case_decide; [done|]. by eapply H5.
Qed.

(** ** What the events keep *)

Variable all_types : list (nat * bool).

Definition steady s s' : Prop := packets s' = packets s /\ get_sim_node s' = get_sim_node s.

Lemma steady_refl s : steady s s.
Proof. done. Qed.
#[local] Hint Resolve steady_refl : core.

Lemma update_capture_steady w v : steady (sim v) (sim (update_capture_options w v)).
Proof. unfold update_capture_options. by destruct (kind w). Qed.

Lemma filter_steady i g v : steady (sim v) (sim (on_filter i g v)).
Proof.
  unfold on_filter. destruct (objects v !! i) as [[m k t b]|]; [|done]. destruct k; try done.
Qed.

Lemma open_steady node k v : steady (sim v) (sim (open_window str_float node k v).1).
Proof.
  rewrite open_window_eq. set (w := {| node_index := node; kind := k; tables := _; shown := false |}).
  pose proof (update_window_keeps (length (objects v)) (with_window w v)) as (Es & _ & _). unfold gbind.
  assert (steady (sim v) (sim (with_window w v))) as Hw
    by exact (update_capture_steady w (set_objects (objects v ++ [w]) v)).
  destruct (update_window str_float (length (objects v)) (with_window w v)) as [v' [[]|e]]; cbn in *; by rewrite Es.
Qed.

Lemma update_windows_keeps v : same_windows v (update_windows str_float v).1.
Proof. apply update_keeps_windows. Qed.

Lemma close_steady i v : sim (response_cb i v).1 = sim v.
Proof.
  unfold response_cb, remove_information_window, gbind, mset, mget, mlift. cbn. by destruct (remove_first i (information_windows v)).
Qed.

Lemma event_steady e v : match e with NodesChange _ _ | Packet _ _ _ => True | _ => steady (sim v) (sim (do_event str_float all_types e v).1) end.
Proof.
  destruct e; cbn [do_event fst]; try done; try apply open_steady.
  - destruct (olsr _); [apply open_steady|done].
  - destruct (is_shown i v); [by rewrite close_steady|done].
  - destruct (is_shown i v); [apply filter_steady|done].
  - destruct (is_shown i v); [apply filter_steady|done].
  - destruct (is_shown i v); [apply filter_steady|done].
  - destruct (is_shown i v); [apply filter_steady|done].
  - destruct (update_windows_keeps v) as (E & _). by rewrite E.
Qed.

Lemma capture_packet_capture t n x s : capture (capture_packet t n x s) = capture s /\ get_sim_node (capture_packet t n x s) = get_sim_node s.
Proof. unfold capture_packet. destruct (capture s !! n); [|done]. by destruct (FilterPacket _ _). Qed.

(** A trace captures the packet, a drop only when it is of interest and without its device. *)
Definition sample_of (t : trace) (x : packet_sample) : packet_sample :=
  match t with Dropped => {| time := time x; device := None; sample_packet := sample_packet x |} | _ => x end.

Definition captures (t : trace) (n : N) (x : packet_sample) s : bool :=
  match t with Dropped => of_interest n (sample_packet x) s | _ => true end.

Lemma trace_packet_spec t n x s :
  capture (trace_packet t n x s) = capture s /\ get_sim_node (trace_packet t n x s) = get_sim_node s /\
  packets (trace_packet t n x s) = packets (if captures t n x s then capture_packet t n (sample_of t x) s else s).
Proof.
  destruct (capture_packet_capture t n (sample_of t x) s) as [E1 E2].
  destruct t; cbn [trace_packet captures]; unfold TraceNetDevTxCommon, TraceNetDevRxCommon, TraceDevQueueDrop.
  - by case_bool_decide.
  - done.
  - by destruct (of_interest n (sample_packet x) s).
Qed.

Lemma inv_event e v : inv v -> inv (do_event str_float all_types e v).1.
Proof.
  intros Hv. destruct e; cbn [do_event fst]; try by apply inv_open.
  - destruct (olsr _); [by apply inv_open|done].
  - destruct (is_shown i v) eqn:E; [by apply inv_close|done].
  - destruct (is_shown i v); [by apply inv_filter|done].
  - destruct (is_shown i v); [by apply inv_filter|done].
  - destruct (is_shown i v); [by apply inv_filter|done].
  - destruct (is_shown i v); [by apply inv_filter|done].
  - by apply (inv_same v).
  - eapply inv_windows; [apply update_windows_keeps|done].
  - by apply (inv_same v).
  - by apply (inv_same v).
  - apply (inv_same v); [done|apply trace_packet_spec|done|done].
Qed.

(** ** The last packets *)

Definition passes (n : N) (x : packet_sample) s : bool :=
  match capture s !! n with Some o => FilterPacket (sample_packet x) o | None => false end.

(** The packets of a node that a filter let pass, in a run; of those that were dropped, the ones
    of interest. *)
Fixpoint captured (t : trace) (n : N) (es : list event) v : list packet_sample :=
  match es with
  | [] => []
  | e :: es =>
      match e with
      | Packet t' n' x =>
          if decide (t' = t /\ n' = n) then if captures t n x (sim v) && passes n x (sim v) then [sample_of t x] else [] else []
      | _ => []
      end ++ captured t n es (do_event str_float all_types e v).1
  end.

Lemma inv_options n o v : inv v -> capture (sim v) !! n = Some o -> numLastPackets o = 100.
Proof. intros Hv Ho. destruct (inv_capture v Hv n o Ho) as (i & w & f & _ & _ & ->). done. Qed.

Lemma get_set_trace t t' x l : get_trace t' (set_trace t x l) = if decide (t = t') then x else get_trace t' l.
Proof. by destruct t, t'. Qed.

Lemma capture_step t n t' n' x v : inv v ->
  get_trace t (GetLastPackets n (capture_packet t' n' x (sim v))) =
    if decide (t' = t /\ n' = n) then
      if passes n x (sim v) then last_n 100 (get_trace t (GetLastPackets n (sim v)) ++ [x]) else get_trace t (GetLastPackets n (sim v))
    else get_trace t (GetLastPackets n (sim v)).
Proof.
  intros Hv. unfold capture_packet, passes. destruct (capture (sim v) !! n') as [o|] eqn:Eo.
  - pose proof (inv_options _ _ _ Hv Eo) as Hn. destruct (FilterPacket (sample_packet x) o) eqn:Ef.
    + unfold GetLastPackets at 1. cbn. rewrite Hn, pop_while_last, lookup_insert. repeat case_decide; try (exfalso; naive_solver); cbn.
      * destruct_and!; subst. by rewrite Eo, Ef, get_set_trace, decide_True.
      * subst. by rewrite get_set_trace, decide_False by naive_solver.
      * done.
    + case_decide; [|done]. destruct_and!; subst. by rewrite Eo, Ef.
  - case_decide; [|done]. destruct_and!; subst. by rewrite Eo.
Qed.

Lemma last_packets_run t n es v h : inv v -> get_trace t (GetLastPackets n (sim v)) = last_n 100 h ->
  get_trace t (GetLastPackets n (sim (run_events str_float all_types es v))) = last_n 100 (h ++ captured t n es v).
Proof.
  revert v h. induction es as [|e es IH]; intros v h Hv Hh; [cbn; by rewrite app_nil_r|]. cbn [captured].
  rewrite app_assoc. apply IH; [by apply inv_event|].
  assert (forall l, packets (sim (do_event str_float all_types e v).1) = packets (sim v) -> l = [] ->
    get_trace t (GetLastPackets n (sim (do_event str_float all_types e v).1)) = last_n 100 (h ++ l)) as Hs.
  { intros l E ->. unfold GetLastPackets in *. by rewrite E, app_nil_r. }
  pose proof (event_steady e v) as Hst. destruct e as [| | | | | | | | |ns| |q|f c|t' n' x]; try (by apply Hs; [apply Hst|]); [by apply Hs|].
  cbn [do_event fst sim set_sim]. unfold GetLastPackets at 1. destruct (trace_packet_spec t' n' x (sim v)) as (_ & _ & ->).
  destruct (captures t' n' x (sim v)) eqn:Ec; fold (GetLastPackets n (capture_packet t' n' (sample_of t' x) (sim v))) (GetLastPackets n (sim v)).
  - rewrite capture_step by done. rewrite Hh. case_decide as Hd; [|by rewrite app_nil_r].
    destruct Hd as [<- <-]. rewrite Ec. cbn [andb].
    assert (passes n' (sample_of t' x) (sim v) = passes n' x (sim v)) as -> by by destruct t'.
    destruct (passes n' x (sim v)); [|by rewrite app_nil_r]. apply last_n_snoc. lia.
  - case_decide as Hd; [destruct Hd as [<- <-]; rewrite Ec; cbn [andb]|]; by rewrite app_nil_r.
Qed.

Definition viz_init s : viz := {| objects := []; information_windows := []; sim := s |}.

Lemma viz_init_ok s : capture s = ∅ -> inv (viz_init s).
Proof.
  intros Hs. split; cbn; [constructor|set_solver|done| |done]. intros n o. by rewrite Hs.
Qed.

Lemma inv_run es v : inv v -> inv (run_events str_float all_types es v).
Proof. revert v. induction es as [|e es IH]; intros v Hv; [done|]. apply IH. by apply inv_event. Qed.

(** C38 - However windows are opened, used and closed while the simulator runs: no window is listed
    twice and one that is shown is listed; what the simulator captures for a node is what a
    window of the node asks for; and an update of the view that does not raise shows in each
    window of packets the last hundred of each kind that passed the filter there was when
    they came, of those dropped only the ones whose node was of interest then, or which were
    of interest themselves. *)
Theorem windows_spec es s : capture s = ∅ -> packets s = ∅ ->
  let v := run_events str_float all_types es (viz_init s) in
  NoDup (information_windows v) /\
  (forall i, is_shown i v = true -> i ∈ information_windows v) /\
  (forall n o, capture (sim v) !! n = Some o -> exists i w f, objects v !! i = Some w /\ asks n w = Some f /\ o = options_of f) /\
  ((update_windows str_float v).2 = Ok tt ->
   forall i w f, i ∈ information_windows v -> objects v !! i = Some w -> kind w = ShowLastPackets f ->
   exists w', objects (update_windows str_float v).1 !! i = Some w' /\
     tables w' = (fun t => packet_row str_float <$> last_n 100 (captured t (node_index w) es (viz_init s))) <$> [Transmitted; Received; Dropped]).
Proof.
  intros Hc Hp v. pose proof (inv_run es _ (viz_init_ok s Hc)) as Hv. fold v in Hv. split_and!.
  - apply Hv.
  - unfold is_shown. intros i Hi. destruct (objects v !! i) eqn:E; [|done]. by eapply inv_shown.
  - apply Hv.
  - intros Hok i w f Hi Ew Ek. destruct (update_all (information_windows v) v) as (v' & E & _ & _ & Ho); [apply Hv| |].
    + intros j Hj. destruct (inv_listed v Hv j Hj) as [u Eu]. exists u. split; [done|].
      destruct (update str_float (sim v) u).2 as [[]|e] eqn:Er; [done|exfalso].
      destruct (update_raises (information_windows v) v j u e) as [e' He']; [apply Hv|done|apply Hv|done|done|].
      unfold update_windows, gbind, mget in Hok. rewrite He' in Hok. done.
    + exists (updated (sim v) w). unfold update_windows, gbind, mget. rewrite E. cbn [fst]. rewrite Ho, decide_True, Ew by done. split; [done|].
      unfold updated, update. rewrite Ek. cbn [fst tables with_tables packet_tables].
      assert (forall t, get_trace t (GetLastPackets (node_index w) (sim v)) = last_n 100 (captured t (node_index w) es (viz_init s))) as Ht.
      { intros t. apply (last_packets_run t (node_index w) es (viz_init s) []); [by apply viz_init_ok|].
        unfold GetLastPackets. cbn. rewrite Hp. by destruct t. }
      cbn. by rewrite <- !Ht.
Qed.

(** *** A window that raises *)

(** A window that is listed and was never shown. *)
Definition stuck (i : nat) (n : N) v : Prop :=
  i ∈ information_windows v /\
  (fun w => (node_index w, kind w, shown w)) <$> objects v !! i = Some (n, ShowIpv4RoutingTable, false).

Lemma stuck_same i n v v' : same_windows v v' -> stuck i n v -> stuck i n v'.
Proof. intros (_ & Ei & Eo) [H1 H2]. split; [by rewrite Ei|by rewrite Eo]. Qed.

Lemma stuck_lookup i n v : stuck i n v -> exists w, objects v !! i = Some w /\ node_index w = n /\ kind w = ShowIpv4RoutingTable /\ shown w = false.
Proof. intros [_ (w & E & [= -> -> ->])%fmap_Some]. eauto. Qed.

Lemma stuck_shown i n j b v : stuck i n v -> j <> i -> stuck i n (on_window j (with_shown b) v).
Proof. intros [H1 H2] Hj. split; [done|]. by rewrite on_window_lookup, decide_False. Qed.

Lemma stuck_with_window i n w v : stuck i n v -> stuck i n (with_window w v).
Proof.
  intros Hs. destruct (stuck_lookup i n v Hs) as (x & Ex & _). destruct Hs as [H1 H2]. unfold with_window.
  destruct (update_capture_keeps w (set_objects (objects v ++ [w]) v)) as [Eo _].
  split; cbn [information_windows set_windows objects]; [apply elem_of_app; by left|]. rewrite Eo. cbn.
  by rewrite lookup_app_l by by eapply lookup_lt_Some.
Qed.

Lemma stuck_open i n node k v : stuck i n v -> stuck i n (open_window str_float node k v).1.
Proof.
  intros Hs. rewrite open_window_eq. set (w := {| node_index := node; kind := k; tables := _; shown := false |}).
  destruct (stuck_lookup i n v Hs) as (x & Ex & _). apply lookup_lt_Some in Ex. apply (stuck_with_window i n w) in Hs.
  pose proof (stuck_same _ _ _ _ (update_window_keeps (length (objects v)) (with_window w v)) Hs) as Hu. unfold gbind.
  destruct (update_window str_float (length (objects v)) (with_window w v)) as [v' [[]|e]]; cbn in *; [|done].
  apply stuck_shown; [done|lia].
Qed.

Lemma stuck_close i n j v : stuck i n v -> is_shown j v = true -> inv v -> stuck i n (response_cb j v).1.
Proof.
  intros Hs Hj Hv. destruct (stuck_lookup i n v Hs) as (x & Ex & _ & _ & Hx). unfold is_shown in Hj.
  destruct (objects v !! j) as [y|] eqn:Ey; [|done]. assert (j <> i) as Hij by congruence.
  destruct (remove_first_spec j (information_windows v)) as (l & El & _ & Hl); [apply Hv|by eapply inv_shown|].
  pose proof (stuck_shown i n j false v Hs Hij) as [H1 H2].
  unfold response_cb, remove_information_window, gbind, mset, mget, mlift. cbn [information_windows on_window set_objects]. rewrite El.
  split; [|exact H2]. cbn. apply Hl. by destruct Hs.
Qed.

Lemma stuck_filter i n j g v : stuck i n v -> stuck i n (on_filter j g v).
Proof.
  intros Hs. unfold on_filter. destruct (objects v !! j) as [[m k t b]|] eqn:E; [|done]. destruct k as [| | |f]; try done.
  set (w := {| node_index := m; kind := ShowLastPackets (g f); tables := t; shown := b |}).
  destruct (update_capture_keeps w (on_window j (fun _ => w) v)) as [Eo Ei].
  destruct (stuck_lookup i n v Hs) as (x & Ex & _ & Hk & _). destruct Hs as [H1 H2]. split; [by rewrite Ei|].
  rewrite Eo, on_window_lookup, decide_False; [done|]. intros ->. rewrite E in Ex. injection Ex as <-. done.
Qed.

Lemma stuck_event i n e v : stuck i n v -> inv v -> stuck i n (do_event str_float all_types e v).1.
Proof.
  intros Hs Hv. destruct e; cbn [do_event fst]; try by apply stuck_open.
  - destruct (olsr _); [by apply stuck_open|done].
  - destruct (is_shown i0 v) eqn:E; [by apply stuck_close|done].
  - destruct (is_shown i0 v); [by apply stuck_filter|done].
  - destruct (is_shown i0 v); [by apply stuck_filter|done].
  - destruct (is_shown i0 v); [by apply stuck_filter|done].
  - destruct (is_shown i0 v); [by apply stuck_filter|done].
  - done.
  - eapply stuck_same; [apply update_windows_keeps|done].
  - done.
  - done.
  - done.
Qed.

(** The nodes that an event gives still have no IPv4 stack at [n]. *)
Definition no_stack (n : N) (e : event) : Prop := match e with NodesChange f _ => ipv4 (f n) = None | _ => True end.

Lemma no_stack_event n e v : no_stack n e -> ipv4 (get_sim_node (sim v) n) = None ->
  ipv4 (get_sim_node (sim (do_event str_float all_types e v).1) n) = None.
Proof.
  intros He Hn. pose proof (event_steady e v) as Hst. destruct e; try done; try (destruct Hst as [_ ->]; done).
  cbn [do_event fst sim set_sim]. by destruct (trace_packet_spec t node x (sim v)) as (_ & -> & _).
Qed.

Lemma stuck_run i n es v : stuck i n v -> inv v -> ipv4 (get_sim_node (sim v) n) = None -> Forall (no_stack n) es ->
  exists e, (update_windows str_float (run_events str_float all_types es v)).2 = Err e.
Proof.
  intros Hs Hv Hn Hes. revert v Hs Hv Hn. induction Hes as [|e es He _ IH]; intros v Hs Hv Hn.
  - destruct (stuck_lookup i n v Hs) as (w & Ew & Hw & Hk & _). destruct Hs as [Hi _].
    apply (update_raises (information_windows v) v i w AttributeError); [apply Hv|done|apply Hv|done|].
    unfold update, update_routing. by rewrite Hk, Hw, Hn.
  - apply IH; [by apply stuck_event|by apply inv_event|by apply no_stack_event].
Qed.

(** C39 - A routing table asked for at a node that has no IPv4 stack raises, and its window, which is
    never shown, stays in the list: from then on every update of the view raises, as long as
    the node has no stack. *)
Theorem routing_window_sticks n es v : inv v -> ipv4 (get_sim_node (sim v) n) = None -> Forall (no_stack n) es ->
  (do_event str_float all_types (OpenRouting n) v).2 = Err AttributeError /\
  exists e, (update_windows str_float (run_events str_float all_types (OpenRouting n :: es) v)).2 = Err e.
Proof.
  intros Hv Hn Hes. set (w := {| node_index := n; kind := ShowIpv4RoutingTable; tables := [[]]; shown := false |}).
  set (i := length (objects v)). set (v1 := with_window w v).
  assert (objects v1 !! i = Some w) as Ew by (apply lookup_snoc_Some; by right).
  assert (do_event str_float all_types (OpenRouting n) v = (on_window i (updated (sim v1)) v1, Err AttributeError)) as E1.
  { cbn [do_event]. rewrite open_window_eq. cbv zeta. fold w i v1. unfold gbind. rewrite (in_window_spec i v1 w Ew).
    unfold update, update_routing. cbn. by rewrite Hn. }
  split; [by rewrite E1|]. change (run_events str_float all_types (OpenRouting n :: es) v)
    with (run_events str_float all_types es (do_event str_float all_types (OpenRouting n) v).1).
  apply (stuck_run i n); [|by apply inv_event|by apply no_stack_event|done].
  rewrite E1. split; cbn [fst]; [cbn; apply elem_of_app; right; by left|].
  rewrite on_window_lookup, decide_True, Ew by done. destruct (updated_keeps (sim v1) w) as (A & B & C).
  cbn [fmap option_fmap option_map]. by rewrite A, B, C.
Qed.

End proofs.

(** ** A run *)

Definition demo_stack : ipv4_stack :=
  {| get_net_device := fun i => if decide (i = 1%N) then Some $"eth" else None;
     get_routing_protocol := ListRouting [(StaticRouting [{| dest := $"10.0.0.0"; gateway := $"10.0.0.1"; interface := 1 |}], 0%Z)] |}.
Definition demo_node (n : N) : sim_node :=
  {| ipv4 := if decide (n = 0%N) then Some demo_stack else None; olsr := None; device_name := fun _ => [] |}.
Definition demo_simulator : simulator :=
  {| get_sim_node := demo_node; capture := ∅; packets := ∅; nodes_of_interest := ∅; packets_of_interest := ∅;
     statistics_collector := ∅; sample_period := 1 |}.

Definition demo_packet (k : nat) (items : list nat) : packet_sample :=
  {| time := 1; device := Some ([], 0%N); sample_packet := {| packet_uid := N.of_nat k; packet_size := N.of_nat k; packet_text := $"p"; packet_items := items |} |}.

(** Types: an object, [Header] and [Trailer] below it, and two headers. *)
Definition demo_types : list typeid :=
  [{| type_name := $"Object"; parent := None |}; {| type_name := $"Header"; parent := Some 0 |}; {| type_name := $"Trailer"; parent := Some 0 |};
   {| type_name := $"Udp"; parent := Some 1 |}; {| type_name := $"Ip"; parent := Some 1 |}].

Example demo_filter_list : packet_filter_list demo_types 1 2 = Ok [(3, true); (4, true)].
Proof. reflexivity. Qed.

(** A window of packets where only the second header is selected, and one of routes; of two
    packets that node 0 drops, the second one was sent by a node of interest. *)
Definition demo_events : list event :=
  [OpenPackets 0; Packet Transmitted 0 (demo_packet 1 [3]); CellEdited 0 0 false; Packet Transmitted 0 (demo_packet 2 [3]);
   Packet Received 0 (demo_packet 3 [3; 4]); Select {[1%N]}; Packet Transmitted 1 (demo_packet 4 [4]);
   Packet Dropped 0 (demo_packet 3 [4]); Packet Dropped 0 (demo_packet 4 [4]); OpenRouting 0].

Definition demo_viz : viz := run_events (fun _ => $"1.0") [(3, true); (4, true)] demo_events (viz_init demo_simulator).

Example demo_tables : tables <$> objects (update_windows (fun _ => $"1.0") demo_viz).1 =
  [[[Text <$> [$"1.0"; $"(interface 0)"; $"1"; $"p"]]; [Text <$> [$"1.0"; $"(interface 0)"; $"3"; $"p"]];
    [Text <$> [$"1.0"; $"(unknown)"; $"4"; $"p"]]];
   [[[Text $"10.0.0.0"; Text $"10.0.0.1"; Text $"eth"; Text $"static"; Number 0]]]].
Proof. vm_compute. reflexivity. Qed.

Lemma windows_spec_witness : NoDup (information_windows demo_viz) /\ (update_windows (fun _ => $"1.0") demo_viz).2 = Ok tt /\
  exists w', objects (update_windows (fun _ => $"1.0") demo_viz).1 !! 0 = Some w' /\ length <$> tables w' = [1; 1; 1].
Proof.
  pose proof (windows_spec (fun _ => $"1.0") [(3, true); (4, true)] demo_events demo_simulator eq_refl eq_refl) as H.
  cbv zeta in H. unfold demo_viz. destruct H as (H1 & _ & _ & H4).
  split; [exact H1|]. split; [vm_compute; reflexivity|].
  destruct (objects (run_events (fun _ => $"1.0") [(3, true); (4, true)] demo_events (viz_init demo_simulator)) !! 0)
    as [w|] eqn:Ew; [|vm_compute in Ew; discriminate].
  destruct (kind w) as [| | |f] eqn:Ek.
  1-3: vm_compute in Ew; injection Ew as <-; discriminate.
  destruct (H4 ltac:(vm_compute; reflexivity) 0 w f) as (w' & E & T); [vm_compute; left|exact Ew|exact Ek|].
  exists w'. split; [exact E|]. rewrite T. assert (node_index w = 0%N) as -> by (vm_compute in Ew; injection Ew as <-; reflexivity).
  vm_compute. reflexivity.
Defined.

Lemma routing_window_sticks_witness :
  exists e, (update_windows (fun _ => []) (run_events (fun _ => []) [] [OpenRouting 1; UpdateView] (viz_init demo_simulator))).2 = Err e.
Proof.
  apply (routing_window_sticks (fun _ => []) [] 1 [UpdateView] (viz_init demo_simulator)); [apply viz_init_ok; reflexivity|reflexivity|repeat constructor].
Defined.
