(* ===== verification/ConfigFile.v ===== *)
(** * [utils.py]: reading lists and flags from Python files

    [get_list_from_file] and [get_bool_from_file], which [test.py] and the build
    scripts use on [examples-to-run.py], [build-status.py] and [.ns3rc], and
    [read_config_file]. *)

From S2P Require Import Prelude.

(** [if '#' in line: (line, comment) = line.split('#', 1)] *)
Definition strip_comment (line : pystr) : pystr :=
  match split_once "#"%char line with Some (l, _) => l | None => line end.

(** [s.split('=', 1)[1].strip()] *)
Definition after_equals (s : pystr) : py pystr :=
  match split_once "="%char s with
  | Some (_, r) => Ok (strip r)
  | None => Err IndexError
  end.

Section config_file.
(** The values of Python expressions, [eval], the empty list, the truth
    value of a list, and the files. *)
Context {V : Type}.
Variable eval : pystr -> py V.
Variable empty_list : V.
Variable all_modules : V.
Variable py_false : V.
Variable truthy : V -> bool.
Variable file_text : pystr -> option pystr.

(** The loop over the lines, from a state of [list_string] and
    [parsing_multiline_list]. *)
Fixpoint get_list_loop (list_name : pystr) (lines : list pystr) (list_string : pystr)
    (parsing_multiline_list : bool) : py V :=
  match lines with
  | [] => Ok empty_list
  | line :: lines' =>
      let line := strip_comment line in
      if str_contains line list_name || parsing_multiline_list then
        let list_string := list_string ++ line in
        if negb (str_contains list_string ($"]")) then
          get_list_loop list_name lines' list_string true
        else
          let! e := after_equals list_string in
          eval e
      else get_list_loop list_name lines' list_string parsing_multiline_list
  end.

Definition get_list_from_file (file_path list_name : pystr) : py V :=
  match file_text file_path with
  | Some text => get_list_loop list_name (readlines text) [] false
  | None => Ok empty_list
  end.

(** The loop over the lines: [Some] value when the variable is found. *)
Fixpoint get_bool_loop (bool_name : pystr) (lines : list pystr) : py (option V) :=
  match lines with
  | [] => Ok None
  | line :: lines' =>
      let line := strip_comment line in
      if str_contains line bool_name then
        let! e := after_equals line in
        let! v := eval e in
        Ok (Some v)
      else get_bool_loop bool_name lines'
  end.

(** [bool_found] is only set when the file exists. *)
Definition get_bool_from_file (file_path bool_name : pystr) (value_if_missing : V) : py V :=
  match file_text file_path with
  | Some text =>
      let! found := get_bool_loop bool_name (readlines text) in
      match found with Some v => Ok v | None => Ok value_if_missing end
  | None => Err UnboundLocalError
  end.

(** [home] is [os.path.expanduser('~/')]. *)
Definition read_config_file (home : pystr) : py (bool * V * V * V) :=
  let dot_ns3rc_name := $".ns3rc" in
  let found :=
    if bool_decide (is_Some (file_text dot_ns3rc_name)) then Some dot_ns3rc_name
    else if bool_decide (is_Some (file_text (home ++ dot_ns3rc_name))) then
      Some (home ++ dot_ns3rc_name)
    else None in
  match found with
  | None => Ok (false, all_modules, py_false, py_false)
  | Some dot_ns3rc_path =>
      let! modules_enabled := get_list_from_file dot_ns3rc_path ($"modules_enabled") in
      let modules_enabled := if truthy modules_enabled then modules_enabled else all_modules in
      let! examples_enabled := get_bool_from_file dot_ns3rc_path ($"examples_enabled") py_false in
      let! tests_enabled := get_bool_from_file dot_ns3rc_path ($"tests_enabled") py_false in
      Ok (true, modules_enabled, examples_enabled, tests_enabled)
  end.

End config_file.

(** ** Lemmas *)

Lemma strip_comment_no line : "#"%char ∉ line -> strip_comment line = line.
Proof. intros H. unfold strip_comment. by rewrite (proj2 (split_once_None _ _) H). Qed.

Lemma lstrip_head c s : is_ws c = false -> lstrip (c :: s) = c :: s.
Proof. intros H. cbn. by rewrite H. Qed.

Lemma strip_between w1 w2 c s d :
  Forall (fun a => is_ws a = true) w1 -> Forall (fun a => is_ws a = true) w2 ->
  is_ws c = false -> is_ws d = false ->
  strip (w1 ++ (c :: s ++ [d]) ++ w2) = c :: s ++ [d].
Proof.
  assert (forall w t, Forall (fun a => is_ws a = true) w -> lstrip (w ++ t) = lstrip t) as Hl.
  { intros w t. induction 1 as [|a w Ha _ IH]; [done|]. cbn. by rewrite Ha. }
  intros H1 H2 Hc Hd. unfold strip. rewrite Hl by done. cbn [app]. rewrite lstrip_head by done.
  rewrite app_comm_cons, reverse_app, Hl by by apply Forall_reverse.
  rewrite app_comm_cons, reverse_snoc. rewrite lstrip_head by done.
  by rewrite reverse_cons, reverse_involutive.
Qed.

(** A prefix of a text that ends in a bracket and a newline has no bracket when
    it is made of whole lines and is not the whole text. *)
Lemma prefix_no_bracket x p q :
  "]"%char ∉ x -> x ++ ["]"%char; NL] = p ++ q -> q <> [] ->
  p = [] \/ (exists p', p = p' ++ [NL]) -> str_contains p ($"]") = false.
Proof.
  intros Hx Heq Hq Hp. destruct (str_contains p ($"]")) eqn:Hc; [|done].
  apply str_contains_char in Hc.
  destruct (List.exists_last Hq) as (q' & b & ->).
  change ["]"%char; NL] with (["]"%char] ++ [NL]) in Heq. rewrite !app_assoc in Heq.
  apply app_inj_tail in Heq as [Heq _].
  destruct (decide (q' = [])) as [->|Hq'].
  - rewrite app_nil_r in Heq. destruct Hp as [->|[p' ->]]; [by apply list.elem_of_nil in Hc|].
    by apply app_inj_tail in Heq as [_ ?].
  - destruct (List.exists_last Hq') as (q'' & b' & ->). rewrite app_assoc in Heq.
    apply app_inj_tail in Heq as [-> _]. set_solver.
Qed.

Lemma strip_comments_no L : "#"%char ∉ mjoin L -> strip_comment <$> L = L.
Proof.
  induction L as [|l L IH]; [done|]. cbn [mjoin list_join]. rewrite list.elem_of_app, fmap_cons.
  intros H. rewrite strip_comment_no, IH by tauto. done.
Qed.

Lemma mjoin_lines_prefix L m :
  Forall (fun l => exists l', l = l' ++ [NL]) L -> (m < length L)%nat ->
  exists q, mjoin L = mjoin (take m L) ++ q /\ q <> [] /\
    (mjoin (take m L) = [] \/ exists p', mjoin (take m L) = p' ++ [NL]).
Proof.
  intros HL Hm. exists (mjoin (drop m L)). rewrite <- join_app, take_drop. split; [done|]. split.
  - destruct (drop m L) as [|l ls] eqn:E.
    + apply (f_equal length) in E. rewrite length_drop in E. cbn in E. lia.
    + apply (Forall_drop _ m) in HL. rewrite E in HL. apply Forall_cons in HL as [[l' ->] _].
      cbn. by destruct l'.
  - destruct (take m L) as [|l ls] eqn:E using rev_ind; [by left|right].
    apply (Forall_take _ m) in HL. rewrite E in HL. apply Forall_app in HL as [_ HL].
    apply Forall_cons in HL as [[l' ->] _]. exists (mjoin ls ++ l').
    rewrite join_app. cbn. by rewrite app_nil_r, app_assoc.
Qed.

Section config_lemmas.
Context {V : Type}.
Variable eval : pystr -> py V.
Variable empty_list : V.

Notation get_list_loop := (get_list_loop eval empty_list).

(** What the loop does once the name was met: it evaluates the text up to the
    first line that completes a bracket. *)
Lemma get_list_loop_parsing name lines acc :
  str_contains acc ($"]") = false ->
  (get_list_loop name lines acc true = Ok empty_list /\
   forall n, str_contains (acc ++ mjoin (take n (strip_comment <$> lines))) ($"]") = false) \/
  exists n, get_list_loop name lines acc true =
      (let! e := after_equals (acc ++ mjoin (take n (strip_comment <$> lines))) in eval e) /\
    str_contains (acc ++ mjoin (take n (strip_comment <$> lines))) ($"]") = true /\
    forall m, (m < n)%nat ->
      str_contains (acc ++ mjoin (take m (strip_comment <$> lines))) ($"]") = false.
Proof.
  revert acc. induction lines as [|line lines IH]; intros acc Hacc.
  - left. split; [done|]. intros n. by rewrite fmap_nil, take_nil, app_nil_r.
  - cbn [ConfigFile.get_list_loop]. rewrite orb_true_r. rewrite fmap_cons.
    destruct (str_contains (acc ++ strip_comment line) ($"]")) eqn:Hb; cbn [negb].
    + right. exists 1%nat. cbn [take mjoin list_join]. rewrite app_nil_r.
      split; [done|]. split; [done|]. intros [|m] Hm; [|lia]. cbn. by rewrite app_nil_r.
    + destruct (IH _ Hb) as [[Hr Hn]|(n & Hr & Ht & Hm)].
      * left. split; [done|]. intros [|n]; cbn [take mjoin list_join]; [by rewrite app_nil_r|].
        rewrite app_assoc. apply Hn.
      * right. exists (S n). cbn [take mjoin list_join]. rewrite app_assoc. split; [done|].
        split; [done|]. intros [|m] Hlt; cbn [take mjoin list_join]; [by rewrite app_nil_r|].
        rewrite app_assoc. apply Hm. lia.
Qed.

Lemma get_list_loop_skip name pre lines :
  Forall (fun l => str_contains (strip_comment l) name = false) pre ->
  get_list_loop name (pre ++ lines) [] false = get_list_loop name lines [] false.
Proof. induction 1 as [|l pre Hl _ IH]; [done|]. cbn. by rewrite Hl. Qed.

Lemma get_list_loop_start name line lines :
  str_contains (strip_comment line) name = true ->
  get_list_loop name (line :: lines) [] false = get_list_loop name (line :: lines) [] true.
Proof. intros H. cbn. by rewrite H. Qed.

Lemma get_list_loop_none name lines :
  Forall (fun l => str_contains (strip_comment l) name = false) lines ->
  get_list_loop name lines [] false = Ok empty_list.
Proof. intros H. by rewrite <- (app_nil_r lines), get_list_loop_skip. Qed.

End config_lemmas.

(** ** The theorems *)

(** [get_list_from_file] on an existing file, comments left out: the lines
    before the first that mentions the name are ignored; from it on, the text
    up to the first line that completes a closing bracket is split at its first
    equals sign and evaluated; when no bracket closes the list, or no line
    mentions the name, the result is the empty list. *)
Theorem get_list_spec {V} (eval : pystr -> py V) (empty : V) (file_text : pystr -> option pystr) path name text :
  file_text path = Some text ->
  exists pre rest,
    strip_comment <$> readlines text = pre ++ rest /\
    Forall (fun l => str_contains l name = false) pre /\
    match rest with [] => True | l :: _ => str_contains l name = true end /\
    ((forall n, str_contains (mjoin (take n rest)) ($"]") = false) /\
     get_list_from_file eval empty file_text path name = Ok empty \/
     exists n,
       str_contains (mjoin (take n rest)) ($"]") = true /\
       (forall m, (m < n)%nat -> str_contains (mjoin (take m rest)) ($"]") = false) /\
       get_list_from_file eval empty file_text path name =
         (let! e := after_equals (mjoin (take n rest)) in eval e)).
Proof.
  intros Ht. unfold get_list_from_file. rewrite Ht. generalize (readlines text) as lines.
  intros lines. clear Ht. induction lines as [|line lines IH].
  - exists [], []. split_and!; [done..|]. left. split; [|done]. intros n. by rewrite take_nil.
  - destruct (str_contains (strip_comment line) name) eqn:Hl.
    + exists [], (strip_comment <$> line :: lines). split_and!; [done..|].
      rewrite get_list_loop_start by done.
      destruct (get_list_loop_parsing eval empty name (line :: lines) []) as [[Hr Hn]|(n & Hr & H1 & H2)];
        [done|by left|right]. by exists n.
    + destruct IH as (pre & rest & Heq & Hpre & Hrest & Hc).
      exists (strip_comment line :: pre), rest. rewrite fmap_cons, Heq.
      split_and!; [done|by constructor|done|]. cbn [get_list_loop]. by rewrite Hl.
Qed.

(** Round trip: an assignment of a bracketed text, over several lines or on one,
    written after lines that do not mention the name, is found, and what is
    evaluated is the bracketed text. *)
Theorem get_list_reads_written {V} (eval : pystr -> py V) (empty : V) (file_text : pystr -> option pystr)
    path name noise body rest :
  Forall (fun l => str_contains (strip_comment l) name = false) (readlines (noise ++ [NL])) ->
  "#"%char ∉ name -> "="%char ∉ name -> NL ∉ name -> "]"%char ∉ name ->
  "#"%char ∉ body -> "]"%char ∉ body ->
  file_text path = Some (noise ++ NL :: (name ++ $" = [" ++ body ++ $"]") ++ NL :: rest) ->
  get_list_from_file eval empty file_text path name = eval ($"[" ++ body ++ $"]").
Proof.
  intros Hnoise Hn1 Hn2 Hn3 Hn4 Hb1 Hb2 Ht. unfold get_list_from_file. rewrite Ht. clear Ht.
  rewrite (readlines_app noise), get_list_loop_skip by done. clear Hnoise noise.
  set (a := name ++ $" = [" ++ body ++ $"]"). rewrite (readlines_app a).
  set (L := readlines (a ++ [NL])).
  assert (mjoin L = a ++ [NL]) as HL by apply join_readlines.
  assert (strip_comment <$> L = L) as Hid.
  { apply strip_comments_no. rewrite HL. unfold a. rewrite !list.elem_of_app.
    intros [[?|[H|[?|H]]]|H]; try done; vm_compute in H; set_solver. }
  assert (Forall (fun l => exists l', l = l' ++ [NL]) L) as Hnl by apply readlines_nl.
  assert (mjoin (take (length L) (strip_comment <$> L ++ readlines rest)) = a ++ [NL]) as Hall.
  { by rewrite fmap_app, take_app_length', Hid by by rewrite length_fmap. }
  assert (str_contains (a ++ [NL]) ($"]") = true) as Hin.
  { apply str_contains_char. unfold a. set_solver. }
  assert (exists l L', L = (name ++ l) :: L') as (l & L' & HLl).
  { destruct (readlines (($" = [" ++ body ++ $"]") ++ [NL])) as [|l L'] eqn:E.
    - pose proof (join_readlines (($" = [" ++ body ++ $"]") ++ [NL])) as Hj. by rewrite E in Hj.
    - exists l, L'. unfold L, a. rewrite <- app_assoc. by apply readlines_line. }
  assert (strip_comment (name ++ l) = name ++ l) as Hl.
  { rewrite HLl, fmap_cons in Hid. by injection Hid. }
  rewrite HLl at 1. rewrite <- app_comm_cons, get_list_loop_start
    by (rewrite Hl; apply str_contains_app_l, str_contains_refl).
  rewrite app_comm_cons, <- HLl.
  destruct (get_list_loop_parsing eval empty name (L ++ readlines rest) [])
    as [[_ Hn]|(n & -> & Ht & Hm)]; [done|specialize (Hn (length L)); cbn [app] in Hn; congruence|].
  cbn [app] in *. assert (n = length L) as ->.
  { destruct (lt_eq_lt_dec n (length L)) as [[Hlt|]|Hgt]; [|done|].
    - exfalso. rewrite fmap_app, Hid, take_app_le in Ht by lia.
      destruct (mjoin_lines_prefix L n Hnl Hlt) as (q & Hq & Hqne & Hp). rewrite HL in Hq.
      rewrite (prefix_no_bracket (name ++ $" = [" ++ body) _ q) in Ht; [done| |..|done].
      + rewrite !list.elem_of_app. intros [?|[H|?]]; try done. vm_compute in H. set_solver.
      + rewrite <- Hq. unfold a. by rewrite <- !app_assoc.
      + done.
    - specialize (Hm _ Hgt). congruence. }
  rewrite Hall. unfold after_equals, a.
  rewrite (proj2 (split_once_Some "="%char _ (name ++ $" ")
    ($" " ++ ("["%char :: body ++ ["]"%char]) ++ [NL]))).
  - cbn [rbind]. f_equal. by apply (strip_between ($" ") [NL] "["%char body "]"%char); repeat constructor.
  - split; [by cbn; rewrite <- !app_assoc; cbn; rewrite <- ?app_assoc|]. rewrite list.elem_of_app. intros [?|H]; [done|].
    vm_compute in H. set_solver.
Qed.

(** [read_config_file]: without a configuration file the defaults; with one,
    all modules are enabled when it enables none, and a missing flag is false. *)
Theorem read_config_file_spec {V} (eval : pystr -> py V) (empty all_modules py_false : V) truthy
    (file_text : pystr -> option pystr) home :
  let rc := read_config_file eval empty all_modules py_false truthy file_text home in
  match file_text ($".ns3rc"), file_text (home ++ $".ns3rc") with
  | None, None => rc = Ok (false, all_modules, py_false, py_false)
  | here, there =>
      let path := match here with Some _ => $".ns3rc" | None => home ++ $".ns3rc" end in
      forall found modules examples tests, rc = Ok (found, modules, examples, tests) ->
        found = true /\
        (exists m, get_list_from_file eval empty file_text path ($"modules_enabled") = Ok m /\
           modules = if truthy m then m else all_modules) /\
        get_bool_from_file eval file_text path ($"examples_enabled") py_false = Ok examples /\
        get_bool_from_file eval file_text path ($"tests_enabled") py_false = Ok tests
  end.
Proof.
  cbv zeta. unfold read_config_file.
  destruct (file_text ($".ns3rc")) as [t|] eqn:E1, (file_text (home ++ $".ns3rc")) as [t'|] eqn:E2;
    repeat first [rewrite bool_decide_true by eauto | rewrite bool_decide_false by by intros [? ?]];
    try done; intros found modules examples tests H; inv_ok; naive_solver.
Qed.

(** A configuration file with no flag: the value given, except that
    [get_bool_from_file] of a file that is not there raises. *)
Theorem get_bool_spec {V} (eval : pystr -> py V) (file_text : pystr -> option pystr) path name (missing : V) :
  match file_text path with
  | None => get_bool_from_file eval file_text path name missing = Err UnboundLocalError
  | Some text =>
      (Forall (fun l => str_contains (strip_comment l) name = false) (readlines text) /\
       get_bool_from_file eval file_text path name missing = Ok missing) \/
      exists pre l post, readlines text = pre ++ l :: post /\
        Forall (fun l => str_contains (strip_comment l) name = false) pre /\
        str_contains (strip_comment l) name = true /\
        get_bool_from_file eval file_text path name missing =
          (let! e := after_equals (strip_comment l) in eval e)
  end.
Proof.
  unfold get_bool_from_file. destruct (file_text path) as [text|]; [|done].
  generalize (readlines text) as lines. intros lines. induction lines as [|l lines IH].
  - left. by split.
  - cbn [get_bool_loop]. destruct (str_contains (strip_comment l) name) eqn:Hl.
    + right. exists [], l, lines. split_and!; [done..|].
      destruct (after_equals (strip_comment l)) as [e|]; [|done]. cbn. by destruct (eval e).
    + destruct IH as [[Hall Hr]|(pre & l' & post & -> & Hpre & Hl' & Hr)].
      * left. split; [by constructor|done].
      * right. exists (l :: pre), l', post. split_and!; [done|by constructor|done|done].
Qed.

(** *** Witnesses *)

(** A value is the text it is written as. *)
Definition wit_eval (e : pystr) : py pystr := Ok e.

Definition wit_text : pystr :=
  $"# programs" ++ NL :: ($"programs" ++ $" = [" ++ ($"'a'," ++ NL :: $" 'b'") ++ $"]") ++ NL :: $"x = 1".

Lemma get_list_reads_written_witness :
  get_list_from_file wit_eval [] (fun _ => Some wit_text) ($"f") ($"programs") =
    Ok ($"['a'," ++ NL :: $" 'b']").
Proof.
  refine (eq_trans (get_list_reads_written wit_eval [] (fun _ => Some wit_text) ($"f") ($"programs")
    ($"# programs") ($"'a'," ++ NL :: $" 'b'") ($"x = 1") _ _ _ _ _ _ _ _) _).
  all: try (apply (bool_decide_eq_true_1 _); vm_compute; reflexivity).
  all: try reflexivity.
Defined.

Lemma get_list_spec_witness :
  exists pre rest, strip_comment <$> readlines wit_text = pre ++ rest /\
    Forall (fun l => str_contains l ($"programs") = false) pre.
Proof.
  destruct (get_list_spec wit_eval [] (fun _ => Some wit_text) ($"f") ($"programs") wit_text eq_refl)
    as (pre & rest & H1 & H2 & _).
  exists pre, rest. split; [exact H1|exact H2].
Defined.
