(* ===== verification/TestJobs.v ===== *)
(** * [test.py], running the jobs: [Job], [run_job_synchronously], [worker_thread]

    The unit of work and its setters, the command a job runs, and the threads:
    the worker threads and the main thread with their two queues, as a step
    relation with every interleaving.  The main thread dispatches its jobs and
    one break job per worker, then collects as many results as it dispatched
    jobs, then joins the workers (the end of [run_tests]). *)

From S2P Require Import Prelude OsPath.

Open Scope Z_scope.

(** ** Jobs

    [returncode] is [False], the number 0, before the job runs; the elapsed
    time is in milliseconds, what the code prints of it. *)

Record Job := {
  is_break : bool;
  is_skip : bool;
  skip_reason : pystr;
  is_example : bool;
  is_pyexample : bool;
  shell_command : pystr;
  display_name : pystr;
  basedir : pystr;
  tempdir : pystr;
  cwd : pystr;
  tmp_file_name : pystr;
  returncode : Z;
  elapsed_time : Z;
  build_path : pystr
}.

#[export] Instance Job_eq_dec : EqDecision Job.
Proof. solve_decision. Defined.

Definition Job_init : Job :=
  {| is_break := false; is_skip := false; skip_reason := []; is_example := false;
     is_pyexample := false; shell_command := []; display_name := []; basedir := [];
     tempdir := []; cwd := []; tmp_file_name := []; returncode := 0; elapsed_time := 0;
     build_path := [] |}.

Definition set_is_break (is_break_ : bool) (self : Job) : Job :=
  {| is_break := is_break_; is_skip := is_skip self; skip_reason := skip_reason self;
     is_example := is_example self; is_pyexample := is_pyexample self;
     shell_command := shell_command self; display_name := display_name self;
     basedir := basedir self; tempdir := tempdir self; cwd := cwd self;
     tmp_file_name := tmp_file_name self; returncode := returncode self;
     elapsed_time := elapsed_time self; build_path := build_path self |}.

Definition set_is_skip (is_skip_ : bool) (self : Job) : Job :=
  {| is_break := is_break self; is_skip := is_skip_; skip_reason := skip_reason self;
     is_example := is_example self; is_pyexample := is_pyexample self;
     shell_command := shell_command self; display_name := display_name self;
     basedir := basedir self; tempdir := tempdir self; cwd := cwd self;
     tmp_file_name := tmp_file_name self; returncode := returncode self;
     elapsed_time := elapsed_time self; build_path := build_path self |}.

Definition set_skip_reason (skip_reason_ : pystr) (self : Job) : Job :=
  {| is_break := is_break self; is_skip := is_skip self; skip_reason := skip_reason_;
     is_example := is_example self; is_pyexample := is_pyexample self;
     shell_command := shell_command self; display_name := display_name self;
     basedir := basedir self; tempdir := tempdir self; cwd := cwd self;
     tmp_file_name := tmp_file_name self; returncode := returncode self;
     elapsed_time := elapsed_time self; build_path := build_path self |}.

Definition set_is_example (is_example_ : bool) (self : Job) : Job :=
  {| is_break := is_break self; is_skip := is_skip self; skip_reason := skip_reason self;
     is_example := is_example_; is_pyexample := is_pyexample self;
     shell_command := shell_command self; display_name := display_name self;
     basedir := basedir self; tempdir := tempdir self; cwd := cwd self;
     tmp_file_name := tmp_file_name self; returncode := returncode self;
     elapsed_time := elapsed_time self; build_path := build_path self |}.

Definition set_is_pyexample (is_pyexample_ : bool) (self : Job) : Job :=
  {| is_break := is_break self; is_skip := is_skip self; skip_reason := skip_reason self;
     is_example := is_example self; is_pyexample := is_pyexample_;
     shell_command := shell_command self; display_name := display_name self;
     basedir := basedir self; tempdir := tempdir self; cwd := cwd self;
     tmp_file_name := tmp_file_name self; returncode := returncode self;
     elapsed_time := elapsed_time self; build_path := build_path self |}.

Definition set_shell_command (shell_command_ : pystr) (self : Job) : Job :=
  {| is_break := is_break self; is_skip := is_skip self; skip_reason := skip_reason self;
     is_example := is_example self; is_pyexample := is_pyexample self;
     shell_command := shell_command_; display_name := display_name self;
     basedir := basedir self; tempdir := tempdir self; cwd := cwd self;
     tmp_file_name := tmp_file_name self; returncode := returncode self;
     elapsed_time := elapsed_time self; build_path := build_path self |}.

Definition set_display_name (display_name_ : pystr) (self : Job) : Job :=
  {| is_break := is_break self; is_skip := is_skip self; skip_reason := skip_reason self;
     is_example := is_example self; is_pyexample := is_pyexample self;
     shell_command := shell_command self; display_name := display_name_;
     basedir := basedir self; tempdir := tempdir self; cwd := cwd self;
     tmp_file_name := tmp_file_name self; returncode := returncode self;
     elapsed_time := elapsed_time self; build_path := build_path self |}.

Definition set_basedir (basedir_ : pystr) (self : Job) : Job :=
  {| is_break := is_break self; is_skip := is_skip self; skip_reason := skip_reason self;
     is_example := is_example self; is_pyexample := is_pyexample self;
     shell_command := shell_command self; display_name := display_name self;
     basedir := basedir_; tempdir := tempdir self; cwd := cwd self;
     tmp_file_name := tmp_file_name self; returncode := returncode self;
     elapsed_time := elapsed_time self; build_path := build_path self |}.

Definition set_tempdir (tempdir_ : pystr) (self : Job) : Job :=
  {| is_break := is_break self; is_skip := is_skip self; skip_reason := skip_reason self;
     is_example := is_example self; is_pyexample := is_pyexample self;
     shell_command := shell_command self; display_name := display_name self;
     basedir := basedir self; tempdir := tempdir_; cwd := cwd self;
     tmp_file_name := tmp_file_name self; returncode := returncode self;
     elapsed_time := elapsed_time self; build_path := build_path self |}.

Definition set_cwd (cwd_ : pystr) (self : Job) : Job :=
  {| is_break := is_break self; is_skip := is_skip self; skip_reason := skip_reason self;
     is_example := is_example self; is_pyexample := is_pyexample self;
     shell_command := shell_command self; display_name := display_name self;
     basedir := basedir self; tempdir := tempdir self; cwd := cwd_;
     tmp_file_name := tmp_file_name self; returncode := returncode self;
     elapsed_time := elapsed_time self; build_path := build_path self |}.

Definition set_tmp_file_name (tmp_file_name_ : pystr) (self : Job) : Job :=
  {| is_break := is_break self; is_skip := is_skip self; skip_reason := skip_reason self;
     is_example := is_example self; is_pyexample := is_pyexample self;
     shell_command := shell_command self; display_name := display_name self;
     basedir := basedir self; tempdir := tempdir self; cwd := cwd self;
     tmp_file_name := tmp_file_name_; returncode := returncode self;
     elapsed_time := elapsed_time self; build_path := build_path self |}.

Definition set_returncode (returncode_ : Z) (self : Job) : Job :=
  {| is_break := is_break self; is_skip := is_skip self; skip_reason := skip_reason self;
     is_example := is_example self; is_pyexample := is_pyexample self;
     shell_command := shell_command self; display_name := display_name self;
     basedir := basedir self; tempdir := tempdir self; cwd := cwd self;
     tmp_file_name := tmp_file_name self; returncode := returncode_;
     elapsed_time := elapsed_time self; build_path := build_path self |}.

Definition set_elapsed_time (elapsed_time_ : Z) (self : Job) : Job :=
  {| is_break := is_break self; is_skip := is_skip self; skip_reason := skip_reason self;
     is_example := is_example self; is_pyexample := is_pyexample self;
     shell_command := shell_command self; display_name := display_name self;
     basedir := basedir self; tempdir := tempdir self; cwd := cwd self;
     tmp_file_name := tmp_file_name self; returncode := returncode self;
     elapsed_time := elapsed_time_; build_path := build_path self |}.

Definition set_build_path (build_path_ : pystr) (self : Job) : Job :=
  {| is_break := is_break self; is_skip := is_skip self; skip_reason := skip_reason self;
     is_example := is_example self; is_pyexample := is_pyexample self;
     shell_command := shell_command self; display_name := display_name self;
     basedir := basedir self; tempdir := tempdir self; cwd := cwd self;
     tmp_file_name := tmp_file_name self; returncode := returncode self;
     elapsed_time := elapsed_time self; build_path := build_path_ |}.

(** ** Running a command *)

(** The configuration read from waf and the options the workers look at. *)
Record config := {
  NS3_BASEDIR : pystr;
  NS3_BUILDDIR : pystr;
  PYTHON0 : pystr;
  opt_valgrind : bool;
  opt_update_data : bool
}.

(** What [subprocess] reports of a command; an output that does not decode is
    [None]. *)
Record process := {
  pr_returncode : Z;
  pr_stdout : option pystr;
  pr_stderr : option pystr;
  pr_time : Z
}.

Definition VALGRIND_SUPPRESSIONS_FILE : pystr := $"testpy.supp".

Section run_job.
Variable cfg : config.
(** [run cmd directory] is the outcome of the shell command. *)
Variable run : pystr -> pystr -> process.

Definition run_job_synchronously (shell_command_ directory : pystr) (valgrind is_python : bool)
    (build_path_ : pystr) : Z * option pystr * option pystr * Z :=
  let suppressions_path := os_path_join (NS3_BASEDIR cfg) VALGRIND_SUPPRESSIONS_FILE in
  let path_cmd :=
    if is_python then PYTHON0 cfg ++ $" " ++ os_path_join (NS3_BASEDIR cfg) shell_command_
    else if (0 <? py_len build_path_) then os_path_join build_path_ shell_command_
    else os_path_join (NS3_BUILDDIR cfg) shell_command_ in
  let cmd :=
    if valgrind then
      $"valgrind --suppressions=" ++ suppressions_path ++
      $" --leak-check=full --show-reachable=yes --error-exitcode=2 --errors-for-leak-kinds=all " ++
      path_cmd
    else path_cmd in
  let proc := run cmd directory in
  let retval := pr_returncode proc in
  let retval := match pr_stdout proc with Some _ => retval | None => 1 end in
  let retval := match pr_stderr proc with Some _ => retval | None => 1 end in
  (retval, pr_stdout proc, pr_stderr proc, pr_time proc).

(** What a worker does with a job that is neither a break, nor interrupted,
    nor to be skipped. *)
Definition worker_run (job : Job) : Job :=
  let '(rc, _, _, et) :=
    if is_example job || is_pyexample job then
      run_job_synchronously (shell_command job) (cwd job) (opt_valgrind cfg) (is_pyexample job)
        (build_path job)
    else
      let update_data := if opt_update_data cfg then $"--update-data" else [] in
      run_job_synchronously
        (shell_command job ++ $" --xml --tempdir=" ++ tempdir job ++ $" --out=" ++
         tmp_file_name job ++ $" " ++ update_data)
        (cwd job) (opt_valgrind cfg) false [] in
  set_elapsed_time et (set_returncode rc job).

End run_job.

(** ** The threads *)

(** A worker waits for a job, has taken one, runs its command, or has
    returned. *)
Inductive worker := Waiting | Got (job : Job) | Launched (job : Job) | Exited.

#[export] Instance worker_eq_dec : EqDecision worker.
Proof. solve_decision. Defined.

(** The main thread dispatches a list, collects results, joins the workers
    from a position on, or is past the joins. *)
Inductive main_thread :=
| Dispatching (todo : list Job)
| Collecting (remaining : nat) (got : list Job)
| Joining (k : nat) (got : list Job)
| Finished (got : list Job).

Record system := {
  input_queue : list Job;
  output_queue : list Job;
  workers : list worker;
  thread_exit : bool;
  main : main_thread
}.

Section threads.
Variable cfg : config.
(** The outcomes a command may have. *)
Variable exec : pystr -> pystr -> process -> Prop.
(** The jobs dispatched, and the number of workers. *)
Variable js : list Job.
Variable processors : nat.

Definition break_job : Job := set_is_break true Job_init.

Definition init_system : system := {|
  input_queue := []; output_queue := []; workers := replicate processors Waiting;
  thread_exit := false; main := Dispatching (js ++ replicate processors break_job) |}.

(** [job = self.input_queue.get()] and the test of [is_break]. *)
Definition take_job (job : Job) : worker := if is_break job then Exited else Got job.

Inductive step : system -> system -> Prop :=
| step_get i job q o ws te m :
    ws !! i = Some Waiting ->
    step {| input_queue := job :: q; output_queue := o; workers := ws; thread_exit := te; main := m |}
         {| input_queue := q; output_queue := o; workers := <[i := take_job job]> ws;
            thread_exit := te; main := m |}
| step_interrupted i job q o ws m :
    ws !! i = Some (Got job) ->
    step {| input_queue := q; output_queue := o; workers := ws; thread_exit := true; main := m |}
         {| input_queue := q; output_queue := o ++ [set_is_break true job];
            workers := <[i := Waiting]> ws; thread_exit := true; main := m |}
| step_skip i job q o ws m :
    ws !! i = Some (Got job) -> is_skip job = true ->
    step {| input_queue := q; output_queue := o; workers := ws; thread_exit := false; main := m |}
         {| input_queue := q; output_queue := o ++ [job]; workers := <[i := Waiting]> ws;
            thread_exit := false; main := m |}
| step_launch i job q o ws m :
    ws !! i = Some (Got job) -> is_skip job = false ->
    step {| input_queue := q; output_queue := o; workers := ws; thread_exit := false; main := m |}
         {| input_queue := q; output_queue := o; workers := <[i := Launched job]> ws;
            thread_exit := false; main := m |}
| step_run i job run q o ws te m :
    ws !! i = Some (Launched job) -> (forall cmd dir, exec cmd dir (run cmd dir)) ->
    step {| input_queue := q; output_queue := o; workers := ws; thread_exit := te; main := m |}
         {| input_queue := q; output_queue := o ++ [worker_run cfg run job];
            workers := <[i := Waiting]> ws; thread_exit := te; main := m |}
| step_dispatch job todo q o ws te :
    step {| input_queue := q; output_queue := o; workers := ws; thread_exit := te;
            main := Dispatching (job :: todo) |}
         {| input_queue := q ++ [job]; output_queue := o; workers := ws; thread_exit := te;
            main := Dispatching todo |}
| step_dispatched q o ws te :
    step {| input_queue := q; output_queue := o; workers := ws; thread_exit := te;
            main := Dispatching [] |}
         {| input_queue := q; output_queue := o; workers := ws; thread_exit := te;
            main := Collecting (length js) [] |}
| step_collect job q o ws te n got :
    step {| input_queue := q; output_queue := job :: o; workers := ws; thread_exit := te;
            main := Collecting (S n) got |}
         {| input_queue := q; output_queue := o; workers := ws; thread_exit := te;
            main := Collecting n (got ++ [job]) |}
| step_collected q o ws te got :
    step {| input_queue := q; output_queue := o; workers := ws; thread_exit := te;
            main := Collecting 0 got |}
         {| input_queue := q; output_queue := o; workers := ws; thread_exit := te;
            main := Joining 0 got |}
| step_join q o ws te k got :
    ws !! k = Some Exited ->
    step {| input_queue := q; output_queue := o; workers := ws; thread_exit := te;
            main := Joining k got |}
         {| input_queue := q; output_queue := o; workers := ws; thread_exit := te;
            main := Joining (S k) got |}
| step_joined q o ws te k got :
    ws !! k = None ->
    step {| input_queue := q; output_queue := o; workers := ws; thread_exit := te;
            main := Joining k got |}
         {| input_queue := q; output_queue := o; workers := ws; thread_exit := te;
            main := Finished got |}
(** [sigint_hook] *)
| step_sigint q o ws m :
    step {| input_queue := q; output_queue := o; workers := ws; thread_exit := false; main := m |}
         {| input_queue := q; output_queue := o; workers := ws; thread_exit := true; main := m |}.

(** What may come back for a job. *)
Definition interrupted_outcome (j j' : Job) : Prop := j' = set_is_break true j.
Definition normal_outcome (j j' : Job) : Prop :=
  (is_skip j = true /\ j' = j) \/
  (is_skip j = false /\ exists run, (forall cmd dir, exec cmd dir (run cmd dir)) /\
     j' = worker_run cfg run j).
Definition outcome (te : bool) (j j' : Job) : Prop :=
  normal_outcome j j' \/ (te = true /\ interrupted_outcome j j').

(** *** The invariant *)

Definition todo_of (m : main_thread) : list Job :=
  match m with Dispatching todo => todo | _ => [] end.

Definition got_of (m : main_thread) : list Job :=
  match m with
  | Dispatching _ => []
  | Collecting _ got | Joining _ got | Finished got => got
  end.

Definition held_by (w : worker) : list Job :=
  match w with Got job | Launched job => [job] | _ => [] end.

Definition held (ws : list worker) : list Job := ws ≫= held_by.

Definition exited (ws : list worker) : nat := length (filter (fun w => w = Exited) ws).

(** The progress of the main thread agrees with what it has collected. *)
Definition main_inv (s : system) : Prop :=
  match main s with
  | Dispatching _ => True
  | Collecting n got => (n + length got = length js)%nat
  | Joining k got => length got = length js /\ forall i, (i < k)%nat -> workers s !! i = Some Exited
  | Finished got => length got = length js /\ Forall (fun w => w = Exited) (workers s)
  end.

(** A command was launched only for a job that is not to be skipped. *)
Definition launched_ok (w : worker) : Prop :=
  match w with Launched job => is_skip job = false | _ => True end.

(** The jobs not taken yet are a suffix of those dispatched, then come break
    jobs; a job taken is held by a worker or has come back. *)
Definition inv (s : system) : Prop :=
  exists rest taken came k,
    js = taken ++ rest /\
    input_queue s ++ todo_of (main s) = rest ++ replicate k break_job /\
    taken ≡ₚ held (workers s) ++ came /\
    Forall2 (outcome (thread_exit s)) came (got_of (main s) ++ output_queue s) /\
    (k + exited (workers s) = processors)%nat /\
    ((0 < exited (workers s))%nat -> rest = []) /\
    length (workers s) = processors /\ Forall launched_ok (workers s) /\ main_inv s.

Lemma held_insert ws i w0 w :
  ws !! i = Some w0 -> held_by w0 ++ held (<[i := w]> ws) ≡ₚ held_by w ++ held ws.
Proof.
  intros Hi. apply list_elem_of_split_length in Hi as (l1 & l2 & -> & ->).
  rewrite insert_app_r_alt, Nat.sub_diag by lia. cbn [insert list_insert].
  unfold held. rewrite !bind_app, !bind_cons. solve_Permutation.
Qed.

Lemma exited_insert ws i w0 w :
  ws !! i = Some w0 ->
  (exited (<[i := w]> ws) + (if decide (w0 = Exited) then 1 else 0) =
   exited ws + (if decide (w = Exited) then 1 else 0))%nat.
Proof.
  intros Hi. apply list_elem_of_split_length in Hi as (l1 & l2 & -> & ->).
  rewrite insert_app_r_alt, Nat.sub_diag by lia. cbn [insert list_insert].
  unfold exited. rewrite !filter_app, !filter_cons, !length_app.
  repeat case_decide; cbn; lia.
Qed.

Lemma exited_all ws : (exited ws = length ws)%nat <-> Forall (fun w => w = Exited) ws.
Proof.
  unfold exited. induction ws as [|w ws IH]; [done|]. rewrite filter_cons, Forall_cons.
  pose proof (length_filter (fun w => w = Exited) ws).
  case_decide; cbn; split; [intros; split; [done|apply IH; lia]|intros [_ ?%IH]; lia|lia|by intros [? _]].
Qed.

Lemma outcome_mono te j j' : outcome te j j' -> outcome true j j'.
Proof. intros [?|[_ ?]]; [by left|by right]. Qed.

(** A step of a worker keeps what the main thread knows. *)
Lemma main_inv_insert q o o' q' ws te i w0 w m :
  ws !! i = Some w0 -> w0 <> Exited ->
  main_inv {| input_queue := q; output_queue := o; workers := ws; thread_exit := te; main := m |} ->
  main_inv {| input_queue := q'; output_queue := o'; workers := <[i := w]> ws; thread_exit := te; main := m |}.
Proof.
  intros Hi Hne. unfold main_inv. cbn [main workers]. destruct m as [|n got|k got|got]; [done|done| |].
  - intros [Hgot Hex]. split; [done|]. intros j Hj. destruct (decide (j = i)) as [->|Hji].
    + specialize (Hex i Hj). congruence.
    + rewrite list_lookup_insert_ne by done. by apply Hex.
  - intros [Hgot Hex]. exfalso. apply Hne. by eapply (proj1 (Forall_lookup _ _) Hex i w0).
Qed.

Lemma launched_ok_insert ws i w :
  Forall launched_ok ws -> launched_ok w -> Forall launched_ok (<[i := w]> ws).
Proof. intros. by apply Forall_insert. Qed.

(** A result that comes back takes its job from those held. *)
Lemma inv_put i w0 job job' q o ws te m :
  ws !! i = Some w0 -> held_by w0 = [job] -> w0 <> Exited -> outcome te job job' ->
  inv {| input_queue := q; output_queue := o; workers := ws; thread_exit := te; main := m |} ->
  inv {| input_queue := q; output_queue := o ++ [job']; workers := <[i := Waiting]> ws;
         thread_exit := te; main := m |}.
Proof.
  intros Hi Hw0 Hne0 Hout
    (rest & taken & came & k & Hd & Hq & Hperm & Hall & Hk & Hrest & Hlen & Hlok & Hm).
  pose proof (held_insert ws i w0 Waiting Hi) as Hh. pose proof (exited_insert ws i w0 Waiting Hi) as He.
  rewrite Hw0 in Hh. rewrite !decide_False in He by done. cbn [held_by app] in Hh.
  exists rest, taken, (came ++ [job]), k. cbn [input_queue output_queue workers thread_exit main] in *.
  split_and!; [done|done| | |lia| |by rewrite length_insert|by apply launched_ok_insert|
    by eapply main_inv_insert].
  - rewrite Hperm, <- Hh. solve_Permutation.
  - rewrite (assoc_L app). apply Forall2_app; [done|]. by constructor.
  - intros. apply Hrest. lia.
Qed.

Hypothesis Hjs : Forall (fun j => is_break j = false) js.

Lemma held_waiting n : held (replicate n Waiting) = [].
Proof. by induction n. Qed.

Lemma exited_waiting n : exited (replicate n Waiting) = 0%nat.
Proof.
  induction n as [|n IH]; [done|]. unfold exited in *. cbn [replicate].
  by rewrite filter_cons, decide_False.
Qed.

Lemma inv_init : inv init_system.
Proof.
  exists js, [], [], processors. unfold init_system.
  cbn [input_queue output_queue workers thread_exit main].
  rewrite held_waiting, exited_waiting.
  split_and!; [done|done|done|constructor|lia|lia|apply length_replicate| |done].
  by apply Forall_replicate.
Qed.

(** Taking the head of the input queue. *)
Lemma inv_get i job q o ws te m :
  ws !! i = Some Waiting ->
  inv {| input_queue := job :: q; output_queue := o; workers := ws; thread_exit := te; main := m |} ->
  inv {| input_queue := q; output_queue := o; workers := <[i := take_job job]> ws;
         thread_exit := te; main := m |}.
Proof.
  intros Hi (rest & taken & came & k & Hd & Hq & Hperm & Hall & Hk & Hrest & Hlen & Hlok & Hm).
  cbn [input_queue output_queue workers thread_exit main] in *.
  pose proof (held_insert ws i Waiting (take_job job) Hi) as Hh.
  pose proof (exited_insert ws i Waiting (take_job job) Hi) as He. cbn [held_by app] in Hh.
  rewrite (decide_False (P := Waiting = Exited)) in He by done. unfold take_job in *.
  destruct rest as [|j rest].
  - destruct k as [|k]; [done|]. cbn in Hq. injection Hq as -> Hq.
    change (is_break break_job) with true in *. cbn iota in *. rewrite decide_True in He by done.
    exists [], taken, came, k. cbn [input_queue output_queue workers thread_exit main].
    split_and!; [done|done| |done|lia|done|by rewrite length_insert|by apply launched_ok_insert|
      by eapply main_inv_insert].
    by rewrite Hperm, Hh.
  - injection Hq as -> Hq. assert (is_break j = false) as Hj.
    { rewrite Hd in Hjs. apply Forall_app in Hjs as [_ [Hj _]%Forall_cons]. done. }
    rewrite Hj in *. rewrite decide_False in He by done.
    exists rest, (taken ++ [j]), came, k. cbn [input_queue output_queue workers thread_exit main].
    split_and!; [by rewrite Hd, <- (assoc_L app)|done| |done|lia| |by rewrite length_insert|
      by apply launched_ok_insert|by eapply main_inv_insert].
    + rewrite Hperm, Hh. cbn. solve_Permutation.
    + intros Hpos. specialize (Hrest ltac:(lia)). done.
Qed.

(** A step of the main thread that leaves the workers alone. *)
Lemma inv_main q q' o o' ws te m m' :
  q' ++ todo_of m' = q ++ todo_of m -> got_of m' ++ o' = got_of m ++ o ->
  main_inv {| input_queue := q'; output_queue := o'; workers := ws; thread_exit := te; main := m' |} ->
  inv {| input_queue := q; output_queue := o; workers := ws; thread_exit := te; main := m |} ->
  inv {| input_queue := q'; output_queue := o'; workers := ws; thread_exit := te; main := m' |}.
Proof.
  intros Hq' Ho' Hm' (rest & taken & came & k & Hd & Hq & Hperm & Hall & Hk & Hrest & Hlen & Hlok & Hm).
  cbn [input_queue output_queue workers thread_exit main] in *.
  exists rest, taken, came, k. cbn [input_queue output_queue workers thread_exit main].
  rewrite Hq', Ho'. done.
Qed.

Lemma inv_step s s' : step s s' -> inv s -> inv s'.
Proof.
  intros Hstep Hinv. pose proof Hinv as (_ & _ & _ & _ & _ & _ & _ & _ & _ & _ & _ & Hlok & Hm).
  destruct Hstep as [i job q o ws te m Hi|i job q o ws m Hi|i job q o ws m Hi Hskip|
    i job q o ws m Hi Hskip|i job run q o ws te m Hi Hrun|job todo q o ws te|q o ws te|job q o ws te n got|
    q o ws te got|q o ws te k got Hk|q o ws te k got Hk|q o ws m]; cbn [workers main] in *.
  - by apply inv_get.
  - apply (inv_put i (Got job) job); [done|done|done| |done]. by right.
  - apply (inv_put i (Got job) job); [done|done|done| |done]. left; left. done.
  - destruct Hinv as (rest & taken & came & k & Hd & Hq & Hperm & Hall & Hk & Hrest & Hlen & _ & _).
    cbn [input_queue output_queue workers thread_exit main] in *.
    pose proof (held_insert ws i (Got job) (Launched job) Hi) as Hh.
    pose proof (exited_insert ws i (Got job) (Launched job) Hi) as He.
    rewrite !decide_False in He by done. cbn [held_by app] in Hh. apply Permutation_cons_inv in Hh.
    exists rest, taken, came, k. cbn [input_queue output_queue workers thread_exit main].
    split_and!; [done|done|by rewrite Hh|done|lia| |by rewrite length_insert|by apply launched_ok_insert|
      by eapply main_inv_insert].
    intros. apply Hrest. lia.
  - apply (inv_put i (Launched job) job); [done|done|done| |done]. left; right.
    split; [by apply (proj1 (Forall_lookup _ _) Hlok i (Launched job))|by exists run].
  - refine (inv_main _ _ _ _ _ _ _ _ _ _ _ Hinv); [|done|done]. cbn. by rewrite <- (assoc_L app).
  - refine (inv_main _ _ _ _ _ _ _ _ _ _ _ Hinv); [done|done|]. unfold main_inv. cbn. lia.
  - refine (inv_main _ _ _ _ _ _ _ _ _ _ _ Hinv); [done| |]; [cbn; by rewrite <- (assoc_L app)|].
    unfold main_inv in *. cbn in *. rewrite length_app. cbn. lia.
  - refine (inv_main _ _ _ _ _ _ _ _ _ _ _ Hinv); [done|done|]. unfold main_inv in *. cbn in *. split; [lia|]. lia.
  - refine (inv_main _ _ _ _ _ _ _ _ _ _ _ Hinv); [done|done|]. unfold main_inv in *. cbn in *. destruct Hm as [Hg Hex].
    split; [done|]. intros j Hj. destruct (decide (j = k)) as [->|]; [done|]. apply Hex. lia.
  - refine (inv_main _ _ _ _ _ _ _ _ _ _ _ Hinv); [done|done|]. unfold main_inv in *. cbn in *. destruct Hm as [Hg Hex].
    split; [done|]. apply Forall_lookup. intros j w Hj. assert (j < k)%nat as Hjk.
    { apply lookup_lt_Some in Hj. apply lookup_ge_None in Hk. lia. }
    rewrite (Hex j Hjk) in Hj. by injection Hj.
  - destruct Hinv as (rest & taken & came & k & Hd & Hq & Hperm & Hall & Hk & Hrest & Hlen & _ & _).
    exists rest, taken, came, k. cbn [input_queue output_queue workers thread_exit main] in *.
    split_and!; try done. eapply Forall2_impl; [done|]. intros. by eapply outcome_mono.
Qed.

(** *** Every run ends *)

Definition worker_weight (w : worker) : nat :=
  match w with Got _ => 4 | Launched _ => 3 | _ => 0 end.

Definition main_weight (n : nat) (m : main_thread) : nat :=
  match m with
  | Dispatching todo => 6 * length todo + n + 3
  | Collecting _ _ => n + 2
  | Joining k _ => 1 + (n - k)
  | Finished _ => 0
  end.

(** What is left to do: each job moves from the list to the input queue, a
    worker and the output queue, losing weight at each step. *)
Definition work_left (s : system) : nat :=
  5 * length (input_queue s) + 2 * length (output_queue s) +
  sum_list_with worker_weight (workers s) +
  (if thread_exit s then 0 else 1) + main_weight (length (workers s)) (main s).

Lemma weight_insert ws i w0 w :
  ws !! i = Some w0 ->
  (sum_list_with worker_weight (<[i := w]> ws) + worker_weight w0 =
   sum_list_with worker_weight ws + worker_weight w)%nat.
Proof.
  intros Hi. apply list_elem_of_split_length in Hi as (l1 & l2 & -> & ->).
  rewrite insert_app_r_alt, Nat.sub_diag by lia. cbn [insert list_insert].
  rewrite !sum_list_with_app. cbn [sum_list_with]. lia.
Qed.

Lemma step_work_left s s' : step s s' -> (work_left s' < work_left s)%nat.
Proof.
  intros Hstep. destruct Hstep; unfold work_left;
    cbn [input_queue output_queue workers thread_exit main main_weight];
    rewrite ?length_insert, ?length_app; cbn [length];
    try match goal with H : ?ws !! ?i = Some ?w0 |- context [<[?i := ?w]> ?ws] =>
      pose proof (weight_insert ws i w0 w H) as Hw; cbn [worker_weight] in Hw end; try lia.
  - unfold take_job in *. destruct (is_break job); cbn [worker_weight] in Hw; lia.
  - match goal with H : _ !! k = Some _ |- _ => apply lookup_lt_Some in H end. lia.
Qed.

(** *** No run is stuck before its end *)

Lemma held_nil ws : held ws = [] <-> Forall (fun w => w = Waiting \/ w = Exited) ws.
Proof.
  unfold held. induction ws as [|w ws IH]; [split; done|].
  rewrite bind_cons, Forall_cons, <- IH. destruct w; cbn; naive_solver.
Qed.

(** Some worker can go on as long as a job is held or one waits to be taken. *)
Lemma worker_progress q o ws te m :
  (exists run, forall cmd dir, exec cmd dir (run cmd dir)) ->
  held ws <> [] \/ (q <> [] /\ exists i, ws !! i = Some Waiting) ->
  exists s', step {| input_queue := q; output_queue := o; workers := ws; thread_exit := te; main := m |} s' /\
    thread_exit s' = te.
Proof.
  intros [run Hrun] [Hheld|[Hq [i Hi]]].
  - assert (exists i w, ws !! i = Some w /\ held_by w <> []) as (i & w & Hi & Hw).
    { induction ws as [|w ws IH]; [done|]. unfold held in Hheld. rewrite bind_cons in Hheld.
      destruct (decide (held_by w = [])) as [Hn|Hn]; [|by exists 0%nat, w].
      rewrite Hn in Hheld. destruct (IH Hheld) as (i & w' & ? & ?). by exists (S i), w'. }
    destruct w as [|job|job|]; try done.
    + destruct te; [eexists; split; [by eapply step_interrupted|done]|].
      destruct (is_skip job) eqn:Hs; eexists; (split; [first [by eapply step_skip | by eapply step_launch]|done]).
    + eexists; split; [by eapply step_run|done].
  - destruct q as [|job q]; [done|]. eexists; split; [by eapply step_get|done].
Qed.

Lemma not_exited_waiting ws i w : held ws = [] -> ws !! i = Some w -> w <> Exited -> w = Waiting.
Proof. intros Hh%held_nil Hi Hw. destruct (proj1 (Forall_lookup _ _) Hh i w Hi); done. Qed.

Lemma exited_exists ws : (exited ws < length ws)%nat -> exists i w, ws !! i = Some w /\ w <> Exited.
Proof.
  intros Hlt. destruct (decide (Forall (fun w => w = Exited) ws)) as [Hall|Hno].
  - apply exited_all in Hall. lia.
  - apply not_Forall_Exists in Hno; [|apply _]. apply list.Exists_exists in Hno as (w & Hw & Hne).
    apply list_elem_of_lookup in Hw as [i Hi]. by exists i, w.
Qed.

Lemma inv_progress s :
  (exists run, forall cmd dir, exec cmd dir (run cmd dir)) -> (0 < processors)%nat -> inv s ->
  (exists s', step s s' /\ thread_exit s' = thread_exit s) \/ exists got, main s = Finished got.
Proof.
  intros Hexec Hp (rest & taken & came & k & Hd & Hq & Hperm & Hall & Hk & Hrest & Hlen & Hlok & Hm).
  destruct s as [q o ws te m]. cbn [input_queue output_queue workers thread_exit main] in *.
  assert (forall n got, m = Collecting n got \/ m = Joining n got -> (exited ws < processors)%nat ->
    rest <> [] \/ (0 < k)%nat -> exists s',
      step {| input_queue := q; output_queue := o; workers := ws; thread_exit := te; main := m |} s' /\
      thread_exit s' = te) as Hgo.
  { intros n got Hmm Hex Hwork. apply worker_progress; [done|].
    destruct (decide (held ws = [])) as [Hh|Hh]; [right|by left]. split.
    - intros ->. assert (rest ++ replicate k break_job = []) as Hnil.
      { rewrite <- Hq. destruct Hmm as [-> | ->]; done. }
      apply app_nil in Hnil as [-> Hr]. destruct k; [|done]. destruct Hwork; [done|lia].
    - destruct (exited_exists ws) as (i & w & Hi & Hw); [lia|]. exists i.
      by rewrite (not_exited_waiting ws i w Hh Hi Hw) in Hi. }
  destruct m as [[|job todo]|[|n] got|j got|got]; [left..|].
  - eexists. split; [apply step_dispatched|done].
  - eexists. split; [apply step_dispatch|done].
  - eexists. split; [apply step_collected|done].
  - destruct o as [|job o]; [|eexists; split; [apply step_collect|done]].
    unfold main_inv in Hm. cbn in Hm, Hall. rewrite app_nil_r in Hall. apply Forall2_length in Hall.
    pose proof (Permutation_length Hperm) as Hpl. rewrite length_app in Hpl.
    apply (f_equal length) in Hd as Hdl. rewrite length_app in Hdl.
    destruct (decide (held ws = [])) as [Hh|Hh].
    + rewrite Hh in Hpl. cbn in Hpl.
      assert (rest <> []) as Hne by (intros ->; cbn in Hdl; lia).
      apply (Hgo (S n) got); [by left| |by left].
      destruct (decide (0 < exited ws)%nat) as [Hpos|]; [by rewrite (Hrest Hpos) in Hne|lia].
    + apply worker_progress; [done|by left].
  - destruct (ws !! j) as [w|] eqn:Hj; [|eexists; split; [by eapply step_joined|done]].
    destruct (decide (w = Exited)) as [->|Hw]; [eexists; split; [by eapply step_join|done]|].
    assert (exited ws < processors)%nat as Hex.
    { pose proof (length_filter (fun w => w = Exited) ws) as Hle. fold (exited ws) in Hle.
      destruct (decide (exited ws = length ws)) as [He|]; [|lia].
      apply exited_all in He. by rewrite (proj1 (Forall_lookup _ _) He j w Hj) in Hw. }
    apply (Hgo j got); [by right|done|right; lia].
  - right. by exists got.
Qed.

(** At the end every job has come back once and nothing is left over. *)
Lemma inv_finished s got :
  inv s -> main s = Finished got ->
  (exists came, came ≡ₚ js /\ Forall2 (outcome (thread_exit s)) came got) /\
  input_queue s = [] /\ output_queue s = [] /\ Forall (fun w => w = Exited) (workers s).
Proof.
  intros (rest & taken & came & k & Hd & Hq & Hperm & Hall & Hk & Hrest & Hlen & Hlok & Hm) Hf.
  unfold main_inv in Hm. rewrite Hf in *. destruct Hm as [Hgot Hex]. cbn [got_of todo_of] in *.
  pose proof (Forall2_length _ _ _ Hall) as Hl. rewrite length_app in Hl.
  pose proof (Permutation_length Hperm) as Hpl. rewrite length_app in Hpl.
  apply (f_equal length) in Hd as Hdl. rewrite length_app in Hdl.
  assert (output_queue s = []) as Ho by (apply length_zero_iff_nil; lia).
  assert (held (workers s) = []) as Hh by (apply length_zero_iff_nil; lia).
  assert (rest = []) as -> by (apply length_zero_iff_nil; lia).
  pose proof (proj2 (exited_all _) Hex). assert (k = 0%nat) as -> by lia.
  rewrite Ho, app_nil_r in Hall. rewrite app_nil_r in Hd. rewrite Hh in Hperm. subst taken.
  split_and!; [exists came; by rewrite Hperm|by rewrite app_nil_r in Hq|done|done].
Qed.

Lemma inv_reachable s : rtc step init_system s -> inv s.
Proof.
  intros Hr. assert (forall s0, rtc step s0 s -> inv s0 -> inv s) as Hall.
  { clear Hr. intros s0 Hr. induction Hr as [|s0 s1 s2 Hs _ IH]; [done|]. intros Hi. by apply IH, (inv_step s0). }
  apply (Hall init_system Hr), inv_init.
Qed.

(** Every run is finite, whatever the jobs and the number of workers. *)
Lemma step_sn s : sn step s.
Proof.
  remember (work_left s) as n eqn:Hn. revert s Hn.
  induction (lt_wf n) as [n _ IH]. intros s ->. constructor. intros s' Hs.
  apply (IH (work_left s')); [by apply step_work_left|done].
Qed.

(** Without a worker nothing ever comes back. *)
Lemma no_worker_inv s :
  processors = 0%nat -> rtc step init_system s ->
  workers s = [] /\ output_queue s = [] /\
  ((exists todo, main s = Dispatching todo) \/ main s = Collecting (length js) [] \/
   (js = [] /\ got_of (main s) = [])).
Proof.
  clear Hjs. intros Hp Hr. pattern s. eapply rtc_ind_r; [| |exact Hr]; cbn beta.
  - unfold init_system. rewrite Hp. cbn. eauto.
  - intros s0 s1 _ Hs (Hws & Ho & Hm). destruct Hs; cbn [workers output_queue main] in *; subst; try done;
      (split; [done|split; [done|]]); try naive_solver.
    right. destruct Hm as [[? ?]|[Hc|[He Hg]]]; [naive_solver| |naive_solver].
    injection Hc as Hl ->. right. split; [by destruct js|done].
Qed.

End threads.

(** C2 - The threads of [test.py], started with at least one worker on jobs none of
    which is a break job, for commands that always end: from every reachable
    state there is no infinite run, and as long as the main thread has not
    joined the workers some thread can make a step, without any help of
    Control-C. *)
Theorem threads_terminate cfg exec js processors s :
  Forall (fun j => is_break j = false) js -> (0 < processors)%nat ->
  (exists run, forall cmd dir, exec cmd dir (run cmd dir)) ->
  rtc (step cfg exec js) (init_system js processors) s ->
  sn (step cfg exec js) s /\
  ((exists s', step cfg exec js s s' /\ thread_exit s' = thread_exit s) \/
   exists got, main s = Finished got).
Proof.
  intros Hjs Hp Hexec Hr. split; [apply step_sn|].
  apply (inv_progress cfg exec js processors); [done|done|by apply inv_reachable].
Qed.

(** C3 - When the main thread is past the joins, both queues are empty, every
    worker has returned and what was collected is, in some order, one outcome
    of each job dispatched: the job itself when it is skipped, the job with
    the return code and time of its command when it ran, and a break job only
    after Control-C. *)
Theorem threads_results cfg exec js processors s got :
  Forall (fun j => is_break j = false) js ->
  rtc (step cfg exec js) (init_system js processors) s -> main s = Finished got ->
  (exists came, came ≡ₚ js /\ Forall2 (outcome cfg exec (thread_exit s)) came got) /\
  input_queue s = [] /\ output_queue s = [] /\ Forall (fun w => w = Exited) (workers s).
Proof.
  intros Hjs Hr Hf. by eapply inv_finished; [apply inv_reachable|].
Qed.

(** With no worker at all, which a negative [--jobs] gives, and at least one
    job, every run is finite and none reaches the end: the main thread waits for
    ever for its first result. *)
Theorem no_worker_hangs cfg exec js s :
  js <> [] -> rtc (step cfg exec js) (init_system js 0) s ->
  sn (step cfg exec js) s /\ forall got, main s <> Finished got.
Proof.
  intros Hjs Hr. split; [apply step_sn|]. intros got Hf.
  destruct (no_worker_inv cfg exec js 0 s) as (_ & _ & [[? Hm]|[Hm|[Hm _]]]); congruence || done.
Qed.

(** *** Witnesses: one job and one worker *)

Definition wit_config : config :=
  {| NS3_BASEDIR := $"/ns"; NS3_BUILDDIR := $"/ns/build"; PYTHON0 := $"python3";
     opt_valgrind := false; opt_update_data := false |}.

(** The process fails unless it runs the command expected. *)
Definition wit_run (cmd dir : pystr) : process :=
  {| pr_returncode := if decide (cmd = $"/ns/build/utils/test-runner --xml --tempdir=/tmp --out=/tmp/a.xml ") then 0 else 1;
     pr_stdout := Some []; pr_stderr := Some []; pr_time := 7 |}.

Definition wit_exec (cmd dir : pystr) (p : process) : Prop := p = wit_run cmd dir.

Definition wit_job : Job :=
  set_shell_command ($"utils/test-runner")
    (set_tempdir ($"/tmp") (set_tmp_file_name ($"/tmp/a.xml") Job_init)).

Definition wit_done : Job := set_elapsed_time 7 wit_job.

Definition wit_final : system :=
  {| input_queue := []; output_queue := []; workers := [Exited]; thread_exit := false;
     main := Finished [wit_done] |}.

Lemma wit_reachable : rtc (step wit_config wit_exec [wit_job]) (init_system [wit_job] 1) wit_final.
Proof.
  eapply rtc_l; [apply step_dispatch|]. eapply rtc_l; [apply step_dispatch|].
  eapply rtc_l; [apply (step_get _ _ _ 0); reflexivity|].
  eapply rtc_l; [eapply (step_launch _ _ _ 0); reflexivity|].
  eapply rtc_l; [apply step_dispatched|].
  eapply rtc_l; [eapply (step_run _ _ _ 0 wit_job wit_run); [reflexivity|intros; exact eq_refl]|].
  eapply rtc_l; [apply step_collect|]. eapply rtc_l; [apply step_collected|].
  eapply rtc_l; [apply (step_get _ _ _ 0); reflexivity|].
  eapply rtc_l; [apply (step_join _ _ _ _ _ _ _ 0); reflexivity|].
  eapply rtc_l; [apply (step_joined _ _ _ _ _ _ _ 1); reflexivity|].
  cbn [app]. replace (worker_run wit_config wit_run wit_job) with wit_done by (vm_compute; reflexivity).
  apply rtc_refl.
Qed.

Lemma threads_terminate_witness :
  sn (step wit_config wit_exec [wit_job]) (init_system [wit_job] 1) /\
  exists s', step wit_config wit_exec [wit_job] (init_system [wit_job] 1) s'.
Proof.
  destruct (threads_terminate wit_config wit_exec [wit_job] 1 (init_system [wit_job] 1))
    as [Hsn [(s' & Hs & _)|[got Hf]]].
  - repeat constructor.
  - lia.
  - exists wit_run. intros. exact eq_refl.
  - apply rtc_refl.
  - split; [exact Hsn|]. exists s'. exact Hs.
  - discriminate Hf.
Defined.

Lemma threads_results_witness :
  exists came, came ≡ₚ [wit_job] /\ Forall2 (outcome wit_config wit_exec false) came [wit_done].
Proof.
  apply (threads_results wit_config wit_exec [wit_job] 1 wit_final [wit_done]).
  - repeat constructor.
  - exact wit_reachable.
  - reflexivity.
Defined.

Lemma no_worker_hangs_witness :
  sn (step wit_config wit_exec [wit_job]) (init_system [wit_job] 0) /\
  forall got, main (init_system [wit_job] 0) <> Finished got.
Proof.
  apply (no_worker_hangs wit_config wit_exec [wit_job]); [discriminate|apply rtc_refl].
Defined.
