(* ===== verification/TestCollect.v ===== *)
(** * [test.py], collecting the results: the second half of [run_tests]

    The loop that takes the jobs the workers put back, counts them, prints a
    line for each and appends its results to the XML file; the summary and the
    exit status; and what the threads of [TestJobs] add to it: the verdict does
    not depend on the schedule. *)

From S2P Require Import Prelude OsPath TestJobs.

Open Scope Z_scope.

(** ** Terminal colours: [colors_lst], [get_color], [color_dict] *)

Definition ESC : ascii := "027"%char.

(** The entries of [colors_lst] the program uses, by their key. *)
Definition colors_lst (cl : pystr) : option pystr :=
  if decide (cl = $"RED") then Some (ESC :: $"[01;31m") else
  if decide (cl = $"GREEN") then Some (ESC :: $"[32m") else
  if decide (cl = $"YELLOW") then Some (ESC :: $"[33m") else
  if decide (cl = $"PINK") then Some (ESC :: $"[35m") else
  if decide (cl = $"BLUE") then Some (ESC :: $"[01;34m") else
  if decide (cl = $"CYAN") then Some (ESC :: $"[36m") else
  if decide (cl = $"GREY") then Some (ESC :: $"[37m") else
  if decide (cl = $"BOLD") then Some (ESC :: $"[01;1m") else
  if decide (cl = $"NORMAL") then Some (ESC :: $"[0m") else
  if decide (cl = $"cursor_on") then Some (ESC :: $"[?25h") else
  if decide (cl = $"cursor_off") then Some (ESC :: $"[?25l") else None.

(** [get_color], with the entry [USE] as an argument. *)
Definition get_color (USE : bool) (cl : pystr) : pystr :=
  if USE then default [] (colors_lst cl) else [].

(** ** What the loop accumulates *)

Record tally := {
  passed_tests : N;
  failed_tests : N;
  failed_testnames : list pystr;
  crashed_tests : N;
  crashed_testnames : list pystr;
  valgrind_errors : N;
  valgrind_testnames : list pystr;
  skipped_tests : N;
  skipped_testnames : list pystr
}.

Definition tally0 : tally :=
  {| passed_tests := 0; failed_tests := 0; failed_testnames := []; crashed_tests := 0;
     crashed_testnames := []; valgrind_errors := 0; valgrind_testnames := [];
     skipped_tests := 0; skipped_testnames := [] |}.

(** The tally, the contents of [xml_results_file], and the standard output. *)
Record collected := {
  counts : tally;
  xml_results : pystr;
  stdout : pystr
}.

Inductive status := SKIP | PASS | FAIL | VALGR | CRASH.

#[export] Instance status_eq_dec : EqDecision status.
Proof. solve_decision. Defined.

Definition status_text (s : status) : pystr :=
  match s with
  | SKIP => $"SKIP" | PASS => $"PASS" | FAIL => $"FAIL" | VALGR => $"VALGR" | CRASH => $"CRASH"
  end.

Definition status_of (job : Job) : status :=
  if is_skip job then SKIP
  else if returncode job =? 0 then PASS
  else if returncode job =? 1 then FAIL
  else if returncode job =? 2 then VALGR
  else CRASH.

Definition status_color (s : status) : pystr :=
  match s with
  | SKIP => $"GREY" | PASS => $"GREEN" | FAIL => $"RED" | VALGR => $"CYAN" | CRASH => $"PINK"
  end.

(** The counters and the lists of names after one job. *)
Definition count (job : Job) (t : tally) : tally :=
  match status_of job with
  | SKIP =>
      {| passed_tests := passed_tests t; failed_tests := failed_tests t;
         failed_testnames := failed_testnames t; crashed_tests := crashed_tests t;
         crashed_testnames := crashed_testnames t; valgrind_errors := valgrind_errors t;
         valgrind_testnames := valgrind_testnames t; skipped_tests := skipped_tests t + 1;
         skipped_testnames :=
           skipped_testnames t ++ [display_name job ++ $" (" ++ skip_reason job ++ $")"] |}
  | PASS =>
      {| passed_tests := passed_tests t + 1; failed_tests := failed_tests t;
         failed_testnames := failed_testnames t; crashed_tests := crashed_tests t;
         crashed_testnames := crashed_testnames t; valgrind_errors := valgrind_errors t;
         valgrind_testnames := valgrind_testnames t; skipped_tests := skipped_tests t;
         skipped_testnames := skipped_testnames t |}
  | FAIL =>
      {| passed_tests := passed_tests t; failed_tests := failed_tests t + 1;
         failed_testnames := failed_testnames t ++ [display_name job];
         crashed_tests := crashed_tests t; crashed_testnames := crashed_testnames t;
         valgrind_errors := valgrind_errors t; valgrind_testnames := valgrind_testnames t;
         skipped_tests := skipped_tests t; skipped_testnames := skipped_testnames t |}
  | VALGR =>
      {| passed_tests := passed_tests t; failed_tests := failed_tests t;
         failed_testnames := failed_testnames t; crashed_tests := crashed_tests t;
         crashed_testnames := crashed_testnames t; valgrind_errors := valgrind_errors t + 1;
         valgrind_testnames := valgrind_testnames t ++ [display_name job];
         skipped_tests := skipped_tests t; skipped_testnames := skipped_testnames t |}
  | CRASH =>
      {| passed_tests := passed_tests t; failed_tests := failed_tests t;
         failed_testnames := failed_testnames t; crashed_tests := crashed_tests t + 1;
         crashed_testnames := crashed_testnames t ++ [display_name job];
         valgrind_errors := valgrind_errors t; valgrind_testnames := valgrind_testnames t;
         skipped_tests := skipped_tests t; skipped_testnames := skipped_testnames t |}
  end.

(** [%.3f] of a time kept in milliseconds. *)
Definition show_seconds (ms : Z) : pystr :=
  let m := Z.to_N (Z.abs ms) in
  let d := show_N (m mod 1000)%N in
  (if ms <? 0 then $"-" else []) ++ show_N (m / 1000)%N ++ $"." ++
  replicate (3 - length d) "0"%char ++ d.

(** ** The loop over the output queue *)

Section collect.
(** The options [duration] and [constrain], the colours, the number of tests
    queued, and the files the test suites wrote. *)
Variable opt_duration : bool.
Variable opt_constrain : pystr.
Variable use_colors : bool.
Variable total_tests : N.
Variable read_tmp : pystr -> option pystr.

(** The line printed for a job, once it is counted in [t]. *)
Definition job_line (t : tally) (job : Job) : pystr :=
  let kind := if is_example job || is_pyexample job then $"Example" else $"TestSuite" in
  let status_print :=
    get_color use_colors (status_color (status_of job)) ++ status_text (status_of job) ++
    get_color use_colors ($"NORMAL") in
  $"[" ++ show_N (passed_tests t + failed_tests t + skipped_tests t + crashed_tests t) ++ $"/" ++
  show_N total_tests ++ $"] " ++
  (if opt_duration || bool_decide (opt_constrain = $"performance") then
     status_print ++ $" (" ++ show_seconds (elapsed_time job) ++ $"): " ++ kind ++ $" " ++
     display_name job
   else status_print ++ $": " ++ kind ++ $" " ++ display_name job) ++ [NL].

(** The XML of an example, cooked up from its return code. *)
Definition example_xml (job : Job) : pystr :=
  $"<Example>" ++ [NL] ++ $"  <Name>" ++ display_name job ++ $"</Name>" ++ [NL] ++
  $"  <Result>" ++ status_text (status_of job) ++ $"</Result>" ++ [NL] ++
  $"  <Time real=" ++ dquote ++ show_seconds (elapsed_time job) ++ dquote ++ $"/>" ++ [NL] ++
  $"</Example>" ++ [NL].

(** The XML of a test suite: made up when it was skipped or crashed, what it
    wrote itself otherwise. *)
Definition suite_xml (job : Job) : py pystr :=
  if is_skip job then
    Ok ($"<Test>" ++ [NL] ++ $"  <Name>" ++ display_name job ++ $"</Name>" ++ [NL] ++
        $"  <Result>SKIP</Result>" ++ [NL] ++
        $"  <Reason>" ++ skip_reason job ++ $"</Reason>" ++ [NL] ++ $"</Test>" ++ [NL])
  else if (returncode job =? 0) || (returncode job =? 1) || (returncode job =? 2) then
    or_raise OSError (read_tmp (tmp_file_name job))
  else
    Ok ($"<Test>" ++ [NL] ++ $"  <Name>" ++ display_name job ++ $"</Name>" ++ [NL] ++
        $"  <Result>CRASH</Result>" ++ [NL] ++ $"</Test>" ++ [NL]).

Definition job_xml (job : Job) : py pystr :=
  if is_example job || is_pyexample job then Ok (example_xml job) else suite_xml job.

(** The body of [for i in range(jobs)]. *)
Definition collect_job (st : collected) (job : Job) : py collected :=
  if is_break job then Ok st else
  let t := count job (counts st) in
  let out := stdout st ++ job_line t job in
  let! xml := job_xml job in
  Ok {| counts := t; xml_results := xml_results st ++ xml; stdout := out |}.

(** The state when the loop starts: the XML file has its two first lines. *)
Definition collect_init (out : pystr) : collected :=
  {| counts := tally0;
     xml_results := $"<?xml version=" ++ dquote ++ $"1.0" ++ dquote ++ $"?>" ++ [NL] ++
                    $"<Results>" ++ [NL];
     stdout := out |}.

Definition collect_results (jobs : list Job) (st : collected) : py collected :=
  for_each collect_job jobs st.

(** ** The summary and the exit status *)

Definition name_list (title : pystr) (names : list pystr) : pystr :=
  if decide (names = []) then []
  else title ++ [NL] ++ $"    " ++ join ([NL] ++ $"    ") (py_sort str_leb names) ++ [NL].

Definition summary (t : tally) : pystr :=
  show_N (passed_tests t) ++ $" of " ++ show_N total_tests ++ $" tests passed (" ++
  show_N (passed_tests t) ++ $" passed, " ++ show_N (skipped_tests t) ++ $" skipped, " ++
  show_N (failed_tests t) ++ $" failed, " ++ show_N (crashed_tests t) ++ $" crashed, " ++
  show_N (valgrind_errors t) ++ $" valgrind errors)" ++ [NL] ++
  name_list ($"List of SKIPped tests:") (skipped_testnames t) ++
  name_list ($"List of FAILed tests:") (failed_testnames t) ++
  name_list ($"List of CRASHed tests:") (crashed_testnames t) ++
  name_list ($"List of VALGR failures:") (valgrind_testnames t).

Definition exit_status (t : tally) : Z :=
  if (passed_tests t + skipped_tests t =? total_tests)%N then 0 else 1.

(** From the first result to the summary: the XML file is closed after the
    workers are joined. *)
Definition report (jobs : list Job) (st : collected) : py (collected * Z) :=
  let! st := collect_results jobs st in
  Ok ({| counts := counts st;
         xml_results := xml_results st ++ $"</Results>" ++ [NL];
         stdout := stdout st ++ summary (counts st) |}, exit_status (counts st)).

(** The notes that end a run: [ENABLE_TESTS], [ENABLE_EXAMPLES], whether valgrind
    was asked for and whether it was found. *)
Definition closing_notes (ENABLE_TESTS ENABLE_EXAMPLES valgrind VALGRIND_FOUND : bool) : pystr :=
  (if negb ENABLE_TESTS || negb ENABLE_EXAMPLES then
     [NL] ++
     (if negb ENABLE_TESTS then
        $"***  Note: ns-3 tests are currently disabled. Enable them by adding" ++ [NL] ++
        $"***  " ++ dquote ++ $"--enable-tests" ++ dquote ++
        $" to ./waf configure or modifying your .ns3rc file." ++ [NL; NL]
      else []) ++
     (if negb ENABLE_EXAMPLES then
        $"***  Note: ns-3 examples are currently disabled. Enable them by adding" ++ [NL] ++
        $"***  " ++ dquote ++ $"--enable-examples" ++ dquote ++
        $" to ./waf configure or modifying your .ns3rc file." ++ [NL; NL]
      else [])
   else []) ++
  (if valgrind && negb VALGRIND_FOUND then
     [NL] ++ $"***  Note: you are trying to use valgrind, but valgrind could not be found" ++ [NL] ++
     $"***  on your machine.  All tests and examples will crash or be skipped." ++ [NL; NL]
   else []).

End collect.

(** ** What is counted *)

Definition results (jobs : list Job) : list Job := filter (fun j => is_break j = false) jobs.

Definition with_status (s : status) (jobs : list Job) : list Job :=
  filter (fun j => status_of j = s) (results jobs).

Definition skip_name (job : Job) : pystr :=
  display_name job ++ $" (" ++ skip_reason job ++ $")".

Definition tally_of (jobs : list Job) : tally :=
  {| passed_tests := N.of_nat (length (with_status PASS jobs));
     failed_tests := N.of_nat (length (with_status FAIL jobs));
     failed_testnames := display_name <$> with_status FAIL jobs;
     crashed_tests := N.of_nat (length (with_status CRASH jobs));
     crashed_testnames := display_name <$> with_status CRASH jobs;
     valgrind_errors := N.of_nat (length (with_status VALGR jobs));
     valgrind_testnames := display_name <$> with_status VALGR jobs;
     skipped_tests := N.of_nat (length (with_status SKIP jobs));
     skipped_testnames := skip_name <$> with_status SKIP jobs |}.

Lemma with_status_snoc s jobs job :
  with_status s (jobs ++ [job]) =
  with_status s jobs ++ (if is_break job then [] else if decide (status_of job = s) then [job] else []).
Proof.
  unfold with_status, results. rewrite !filter_app, !(filter_cons _ job), filter_nil.
  destruct (is_break job) eqn:Hb.
  - by rewrite decide_False.
  - rewrite decide_True by done. rewrite filter_cons, filter_nil. done.
Qed.

Lemma tally_of_snoc jobs job :
  tally_of (jobs ++ [job]) = if is_break job then tally_of jobs else count job (tally_of jobs).
Proof.
  unfold tally_of, count. rewrite !with_status_snoc. destruct (is_break job) eqn:Hb.
  - by rewrite !app_nil_r.
  - destruct (status_of job); cbn [decide status_eq_dec decide_rel];
      repeat (first [rewrite decide_True by done | rewrite decide_False by done]);
      rewrite ?app_nil_r, ?fmap_app, ?length_app; cbn;
      f_equal; lia.
Qed.

Lemma status_partition jobs :
  (length (with_status PASS jobs) + length (with_status FAIL jobs) + length (with_status VALGR jobs) +
   length (with_status CRASH jobs) + length (with_status SKIP jobs) = length (results jobs))%nat.
Proof.
  unfold with_status. generalize (results jobs) as l. induction l as [|j l IH]; [done|].
  rewrite !filter_cons. destruct (status_of j);
    repeat (first [rewrite decide_True by done | rewrite decide_False by done]); cbn [length]; lia.
Qed.

Section collect_lemmas.
Variable opt_duration : bool.
Variable opt_constrain : pystr.
Variable use_colors : bool.
Variable total_tests : N.
Variable read_tmp : pystr -> option pystr.

Notation collect_job := (collect_job opt_duration opt_constrain use_colors total_tests read_tmp).
Notation collect_results := (collect_results opt_duration opt_constrain use_colors total_tests read_tmp).
Notation report := (report opt_duration opt_constrain use_colors total_tests read_tmp).
Notation job_xml := (job_xml read_tmp).

(** The job's results file should be there and is not. *)
Definition lacks_results (job : Job) : Prop :=
  is_break job = false /\ job_xml job = Err OSError.

(** The XML of the jobs that are not break jobs, in the order they come. *)
Definition all_xml (jobs : list Job) : pystr :=
  results jobs ≫= (fun j => match job_xml j with Ok x => x | Err _ => [] end).

Lemma job_xml_cases job : (exists x, job_xml job = Ok x) \/ job_xml job = Err OSError.
Proof.
  unfold TestCollect.job_xml, suite_xml. repeat case_match; eauto. destruct (read_tmp _); cbn; eauto.
Qed.

Lemma collect_results_ok jobs out :
  Forall (fun j => ~ lacks_results j) jobs ->
  exists st, collect_results jobs (collect_init out) = Ok st /\
    counts st = tally_of jobs /\
    xml_results st = xml_results (collect_init out) ++ all_xml jobs.
Proof.
  intros Hall. apply (for_each_total collect_job (fun l st =>
    counts st = tally_of l /\ xml_results st = xml_results (collect_init out) ++ all_xml l)).
  - cbn [counts xml_results]. unfold all_xml. cbn [results]. by rewrite app_nil_r.
  - intros l1 job l2 st -> [Hc Hx]. rewrite Forall_app, Forall_cons in Hall.
    destruct Hall as (_ & Hjob & _). unfold TestCollect.collect_job.
    rewrite tally_of_snoc. unfold all_xml, results in *.
    rewrite filter_app, filter_cons, filter_nil, bind_app.
    destruct (is_break job) eqn:Hb.
    + rewrite decide_False by done. eexists. split; [done|]. cbn. by rewrite app_nil_r.
    + rewrite decide_True by done. destruct (job_xml_cases job) as [[x Hjx]|Hjx].
      * rewrite Hjx. cbn [rbind]. eexists. split; [done|]. cbn [counts xml_results].
        rewrite Hc, Hx, bind_cons, Hjx. cbn [mbind list_bind]. by rewrite app_nil_r, app_assoc.
      * by destruct Hjob.
Qed.

Lemma collect_results_err jobs st :
  Exists lacks_results jobs -> collect_results jobs st = Err OSError.
Proof.
  unfold TestCollect.collect_results. intros Hex. revert st.
  induction Hex as [job jobs [Hb Hjx]|job jobs _ IH]; intros st; cbn [for_each].
  - unfold TestCollect.collect_job at 1. by rewrite Hb, Hjx.
  - destruct (collect_job st job) as [st'|e] eqn:Hcj; cbn [rbind]; [apply IH|].
    unfold TestCollect.collect_job in Hcj. destruct (is_break job); [done|].
    destruct (job_xml_cases job) as [[x Hx]|Hx]; rewrite Hx in Hcj; by inversion Hcj.
Qed.

Lemma report_cases jobs out :
  (Exists lacks_results jobs /\ report jobs (collect_init out) = Err OSError) \/
  (Forall (fun j => ~ lacks_results j) jobs /\
   exists st, report jobs (collect_init out) = Ok (st, exit_status total_tests (tally_of jobs)) /\
     counts st = tally_of jobs /\
     xml_results st = xml_results (collect_init out) ++ all_xml jobs ++ $"</Results>" ++ [NL] /\
     exists lines, stdout st = lines ++ summary total_tests (tally_of jobs)).
Proof.
  assert (forall j, Decision (lacks_results j)) as Hdec by (intros j; unfold lacks_results; apply _).
  unfold TestCollect.report. destruct (decide (Exists lacks_results jobs)) as [Hex|Hno].
  - left. by rewrite collect_results_err.
  - right. apply not_Exists_Forall in Hno; [|done]. split; [done|].
    destruct (collect_results_ok jobs out Hno) as (st & -> & Hc & Hx). cbn [rbind].
    eexists. rewrite Hc. split; [reflexivity|]. cbn [counts xml_results stdout].
    rewrite Hx, <- app_assoc. eauto.
Qed.

End collect_lemmas.

(** The verdict does not depend on the order of the results: the tallies are
    the same but for the order of the names, which the summary sorts. *)
Lemma with_status_perm s jobs jobs' : jobs ≡ₚ jobs' -> with_status s jobs ≡ₚ with_status s jobs'.
Proof. intros Hp. unfold with_status, results. by rewrite Hp. Qed.

Lemma name_list_perm title l l' : l ≡ₚ l' -> name_list title l = name_list title l'.
Proof.
  intros Hp. unfold name_list. rewrite (sort_strings_perm _ _ Hp).
  destruct (decide (l = [])) as [->|Hl], (decide (l' = [])) as [->|Hl']; try done.
  - by apply Permutation_nil_l in Hp.
  - by apply Permutation_nil_r in Hp.
Qed.

Lemma summary_perm total jobs jobs' :
  jobs ≡ₚ jobs' ->
  summary total (tally_of jobs) = summary total (tally_of jobs') /\
  exit_status total (tally_of jobs) = exit_status total (tally_of jobs').
Proof.
  intros Hp.
  assert (forall s, length (with_status s jobs) = length (with_status s jobs')) as Hl
    by (intros s; by rewrite (with_status_perm s _ _ Hp)).
  unfold summary, exit_status, tally_of.
  cbn [passed_tests failed_tests crashed_tests valgrind_errors skipped_tests
    failed_testnames crashed_testnames valgrind_testnames skipped_testnames].
  rewrite !Hl. split; [|done].
  do 4 (f_equal; []).
  rewrite !(name_list_perm _ (_ <$> with_status _ jobs) (_ <$> with_status _ jobs'))
    by (apply fmap_Permutation, with_status_perm, Hp). done.
Qed.

Lemma status_good j :
  status_of j = PASS \/ status_of j = SKIP <-> is_skip j = true \/ returncode j = 0.
Proof.
  unfold status_of. destruct (is_skip j); [tauto|].
  repeat case_match; rewrite ?Z.eqb_eq, ?Z.eqb_neq in *; naive_solver.
Qed.

(** The status is 0 exactly when every job came back, and passed or was
    skipped. *)
Lemma exit_status_zero jobs :
  exit_status (N.of_nat (length jobs)) (tally_of jobs) = 0 <->
  Forall (fun j => is_break j = false /\ (is_skip j = true \/ returncode j = 0)) jobs.
Proof.
  unfold exit_status, tally_of. cbn [passed_tests skipped_tests]. rewrite <- Nat2N.inj_add.
  transitivity ((length (with_status PASS jobs) + length (with_status SKIP jobs))%nat = length jobs).
  { case_match; rewrite ?N.eqb_eq, ?N.eqb_neq in *; split; (lia || done). }
  unfold with_status, results. induction jobs as [|j jobs IH]; [done|].
  rewrite Forall_cons, <- IH, filter_cons. set (l := filter _ jobs) in *.
  pose proof (length_filter (fun j => is_break j = false) jobs) as Hle. fold l in Hle.
  assert ((length (filter (fun j => status_of j = PASS) l) +
           length (filter (fun j => status_of j = SKIP) l) <= length l)%nat) as Hle2.
  { clear. induction l as [|j l IH]; [done|]. rewrite !filter_cons.
    repeat case_decide; cbn; try congruence; lia. }
  destruct (is_break j) eqn:Hb.
  - rewrite decide_False by done. split; [cbn; lia|by intros [[? _] _]].
  - rewrite decide_True by done. rewrite !filter_cons.
    pose proof (status_good j) as Hgood.
    destruct (decide (status_of j = PASS)), (decide (status_of j = SKIP)); cbn [length];
      first [congruence|split; [intros; split; [tauto|lia]|intros [_ ?]; lia]|idtac].
    split; [lia|tauto].
Qed.

(** ** The theorems *)

(** C14 - Collecting the results of [jobs]: it raises [OSError] exactly when the
    results file of a suite that ended with 0, 1 or 2 is missing.  Otherwise
    each result is counted once under its status, the XML file holds the
    element of each job in the order they came between the two tags of
    [Results], the output ends with the summary, and when as many tests were
    queued as results came, the exit status is 0 exactly when every result is
    real, and passed or was skipped. *)
Theorem report_spec duration constrain use_colors read_tmp jobs out :
  let r := report duration constrain use_colors (N.of_nat (length jobs)) read_tmp jobs
             (collect_init out) in
  (r = Err OSError <-> Exists (lacks_results read_tmp) jobs) /\
  (r = Err OSError \/ exists st rc, r = Ok (st, rc) /\
    counts st = tally_of jobs /\
    (passed_tests (counts st) + failed_tests (counts st) + valgrind_errors (counts st) +
     crashed_tests (counts st) + skipped_tests (counts st) = N.of_nat (length (results jobs)))%N /\
    xml_results st =
      xml_results (collect_init out) ++ all_xml read_tmp jobs ++ $"</Results>" ++ [NL] /\
    (exists lines, stdout st = lines ++ summary (N.of_nat (length jobs)) (counts st)) /\
    (rc = 0 <-> Forall (fun j => is_break j = false /\ (is_skip j = true \/ returncode j = 0)) jobs)).
Proof.
  intros r. unfold r. clear r. destruct (report_cases duration constrain use_colors (N.of_nat (length jobs)) read_tmp
    jobs out) as [[Hex ->]|(Hall & st & -> & Hc & Hx & Hout)]; [tauto|]. split.
  - split; [done|]. intros Hex. apply list.Exists_exists in Hex as (j & Hj & Hl).
    by destruct (proj1 (list.Forall_forall _ _) Hall j Hj).
  - right. exists st, (exit_status (N.of_nat (length jobs)) (tally_of jobs)). split; [done|].
    rewrite Hc. split; [done|]. split; [pose proof (status_partition jobs); cbn; lia|].
    split; [done|]. split; [done|]. apply exit_status_zero.
Qed.

(** The job as it comes back when nothing interrupts it. *)
Definition completed (cfg : config) (run : pystr -> pystr -> process) (job : Job) : Job :=
  if is_skip job then job else worker_run cfg run job.

Lemma worker_run_ext cfg run run' job :
  (forall cmd dir, run cmd dir = run' cmd dir) -> worker_run cfg run job = worker_run cfg run' job.
Proof. intros Heq. unfold worker_run, run_job_synchronously. by rewrite !Heq. Qed.

Lemma completed_flags cfg run job :
  is_break (completed cfg run job) = is_break job /\ is_skip (completed cfg run job) = is_skip job.
Proof.
  unfold completed, worker_run. destruct (is_skip job) eqn:Hs; [done|].
  destruct (if is_example job || is_pyexample job then _ else _) as [[[? ?] ?] ?]. done.
Qed.

Lemma outcomes_completed cfg run came got :
  Forall2 (outcome cfg (fun cmd dir p => p = run cmd dir) false) came got ->
  got = completed cfg run <$> came.
Proof.
  induction 1 as [|j j' came got Ho _ IH]; [done|]. rewrite IH, fmap_cons. f_equal.
  destruct Ho as [[[Hs ->]|(Hs & run' & Hrun & ->)]|[? _]]; [..|done]; unfold completed; rewrite Hs; [done|].
  by apply worker_run_ext.
Qed.

(** C1 - The whole of a run, for commands with one outcome each: whatever the
    number of workers and the interleaving of the threads, if Control-C did
    not come before the end, the summary printed and the exit status are those
    of the completed jobs, and the exit status is 0 exactly when every job is
    skipped or its command returned 0; an [OSError] is raised in all the
    schedules or in none. *)
Theorem run_verdict cfg run js processors s got duration constrain use_colors read_tmp out :
  Forall (fun j => is_break j = false) js ->
  rtc (step cfg (fun cmd dir p => p = run cmd dir) js) (init_system js processors) s ->
  main s = Finished got -> thread_exit s = false ->
  let total := N.of_nat (length js) in
  let ideal := completed cfg run <$> js in
  match report duration constrain use_colors total read_tmp got (collect_init out) with
  | Err e => e = OSError /\ Exists (lacks_results read_tmp) ideal
  | Ok (st, rc) =>
      ~ Exists (lacks_results read_tmp) ideal /\
      (exists lines, stdout st = lines ++ summary total (tally_of ideal)) /\
      (rc = 0 <-> Forall (fun j => is_skip j = true \/ returncode (completed cfg run j) = 0) js)
  end.
Proof.
  intros Hjs Hr Hf Hte total ideal.
  destruct (inv_finished cfg (fun cmd dir p => p = run cmd dir) js processors s got) as [(came & Hp & Ho) _];
    [by apply inv_reachable|done|].
  rewrite Hte in Ho. apply outcomes_completed in Ho.
  assert (got ≡ₚ ideal) as Hgot by (unfold ideal; by rewrite Ho, Hp).
  destruct (summary_perm total _ _ Hgot) as [Hsum Hst].
  destruct (report_cases duration constrain use_colors total read_tmp got out)
    as [[Hex ->]|(Hall & st & -> & Hc & _ & lines & Hout)].
  - split; [done|]. by rewrite <- Hgot.
  - rewrite Hgot in Hall. split; [by apply Forall_not_Exists|].
    split; [exists lines; by rewrite Hout, Hsum|].
    rewrite Hst. unfold total. rewrite <- (length_fmap (completed cfg run)). fold ideal.
    rewrite exit_status_zero. unfold ideal. rewrite Forall_fmap. unfold compose.
    clear -Hjs. induction Hjs as [|j l Hj _ IH]; [by rewrite !Forall_nil|].
    rewrite !Forall_cons, IH. destruct (completed_flags cfg run j) as [-> ->]. rewrite Hj. tauto.
Qed.

Definition wit_tmp (f : pystr) : option pystr :=
  if decide (f = $"/tmp/a.xml") then Some ($"<Test></Test>") else None.

Lemma run_verdict_witness :
  exists st, report false [] false 1 wit_tmp [wit_done] (collect_init []) = Ok (st, 0) /\
    is_skip wit_job = false.
Proof.
  pose proof (run_verdict wit_config wit_run [wit_job] 1 wit_final [wit_done] false [] false wit_tmp []
    ltac:(repeat constructor) wit_reachable eq_refl eq_refl) as H.
  cbv zeta in H. change (N.of_nat (length [wit_job])) with 1%N in H.
  destruct (report _ _ _ _ _ _ _) as [[st rc]|e].
  - exists st. split; [|reflexivity]. destruct H as (_ & _ & H).
    rewrite (proj2 H); [reflexivity|]. constructor; [right; vm_compute; reflexivity|constructor].
  - exfalso. destruct H as [_ H]. apply Exists_cons in H as [[_ H]|H]; [vm_compute in H; discriminate H|].
    by apply Exists_nil in H.
Defined.

(** The count printed in front of a line leaves the valgrind errors out: after
    one such error nothing is counted yet. *)
Example valgrind_not_in_progress :
  job_line false [] false 1 (tally_of [set_returncode 2 (set_display_name ($"a") Job_init)])
    (set_returncode 2 (set_display_name ($"a") Job_init)) =
  $"[0/1] VALGR: TestSuite a" ++ [NL].
Proof. vm_compute. reflexivity. Qed.

(** With no job at all, as after [--example] with a name that matches nothing,
    the exit status is 0. *)
Example nothing_run_succeeds :
  exists st, report false [] false 0 wit_tmp [] (collect_init []) = Ok (st, 0).
Proof. eexists. vm_compute. reflexivity. Qed.
