(* ===== verification/TestRun.v ===== *)
(** * [test.py], planning a run: the first half of [run_tests]

    From the options and the build's configuration to the jobs queued: the names
    of the programs, the environment, the examples found, the suites selected,
    the number of workers.  Paths are POSIX paths; the branches of the code on
    [sys.platform] are kept.  What is printed on the way is left out, but for
    the lists of [--kinds] and [--list]. *)

From S2P Require Import Prelude PyDict OsPath FnMatch ConfigFile TestJobs.

Open Scope Z_scope.

(** ** Options and configuration *)

Record options := {
  o_buildpath : pystr; o_constrain : pystr; o_example : pystr; o_fullness : pystr;
  o_kinds : bool; o_list : bool; o_multiple : bool; o_nowaf : bool; o_pyexample : pystr;
  o_suite : pystr; o_process_limit : Z
}.

(** The variables read from the configuration of waf, those of [TestJobs] apart. *)
Record waf_config := {
  NSC_ENABLED : bool; ENABLE_EXAMPLES : bool; ENABLE_PYTHON_BINDINGS : bool;
  APPNAME : pystr; VERSION : pystr; BUILD_PROFILE : pystr;
  EXAMPLE_DIRECTORIES : list pystr; NS3_ENABLED_MODULES : list pystr;
  NS3_ENABLED_CONTRIBUTED_MODULES : list pystr; NS3_MODULE_PATH : list pystr
}.

Definition core_kinds : list pystr := [$"core"; $"performance"; $"system"; $"unit"].

Definition core_valgrind_skip_tests : list pystr :=
  [$"ns3-tcp-cwnd"; $"nsc-tcp-loss"; $"ns3-tcp-interoperability"; $"routing-click";
   $"lte-rr-ff-mac-scheduler"; $"lte-tdmt-ff-mac-scheduler"; $"lte-fdmt-ff-mac-scheduler";
   $"lte-pf-ff-mac-scheduler"; $"lte-tta-ff-mac-scheduler"; $"lte-fdbet-ff-mac-scheduler";
   $"lte-ttbet-ff-mac-scheduler"; $"lte-fdtbfq-ff-mac-scheduler"; $"lte-tdtbfq-ff-mac-scheduler";
   $"lte-pss-ff-mac-scheduler"].

Definition core_nsc_missing_skip_tests : list pystr :=
  [$"ns3-tcp-cwnd"; $"nsc-tcp-loss"; $"ns3-tcp-interoperability"].

Definition TMP_OUTPUT_DIR : pystr := $"testpy-output".

(** [s.split(' ', 1)]: what is before the first blank, and what is after it. *)
Definition split_arguments (s : pystr) : pystr * option pystr :=
  match split_once " "%char s with Some (l, r) => (l, Some r) | None => (s, None) end.

(** [s[:-4]] and [s[len("ns3-"):]] *)
Definition drop_exe (s : pystr) : pystr := py_upto s (-4).
Definition drop_ns3 (s : pystr) : pystr := py_from s 4.

(** What [parse_examples_to_run_file] fills in. *)
Record examples := {
  example_tests : list (pystr * pystr * pystr * pystr);
  example_names_original : list pystr;
  python_tests : list (pystr * pystr)
}.

Section run_tests.
Variable cfg : config.
Variable waf : waf_config.
Variable opts : options.

(** [sys.platform], [os.getcwd()], [os.path.exists], the files read, [eval] on
    the lists of the three kinds read and on a condition, the shell commands. *)
Variable platform : pystr.
Variable getcwd : pystr.
Variable path_exists : pystr -> bool.
Variable file_text : pystr -> option pystr.
Variable eval_cpp : pystr -> py (list (pystr * pystr * pystr)).
Variable eval_python : pystr -> py (list (pystr * pystr)).
Variable eval_names : pystr -> py (list pystr).
Variable eval_cond : pystr -> py bool.
Variable run : pystr -> pystr -> process.
(** What [print] shows of an output that does not decode. *)
Variable printed_bytes : pystr.

Definition win32 : bool := bool_decide (platform = $"win32").
Definition exe_suffix : pystr := if win32 then $".exe" else [].

Definition BUILD_PROFILE_SUFFIX : pystr :=
  if decide (BUILD_PROFILE waf = $"release") then [] else $"-" ++ BUILD_PROFILE waf.

(** ["%s%s-%s%s" % (APPNAME, VERSION, name, BUILD_PROFILE_SUFFIX)] *)
Definition program_name (name : pystr) : pystr :=
  APPNAME waf ++ VERSION waf ++ $"-" ++ name ++ BUILD_PROFILE_SUFFIX.

Definition test_runner_name : pystr :=
  let test_runner_name := program_name ($"test-runner") ++ exe_suffix in
  (if path_exists (os_path_join (os_path_join (NS3_BUILDDIR cfg) ($"utils")) test_runner_name)
   then test_runner_name else $"test-runner") ++ exe_suffix.

(** The command that builds what is needed. *)
Definition waf_cmd : pystr :=
  let waf := if win32 then $".\waf" else $"./waf" in
  if o_kinds opts || o_list opts ||
     ((0 <? py_len (o_constrain opts)) && bool_decide (o_constrain opts ∈ core_kinds)) then
    waf ++ $" --target=test-runner"
  else if 0 <? py_len (o_example opts) then
    waf ++ $" --target=" ++ os_path_basename (o_example opts)
  else waf.

(** *** [read_waf_config]: the files waf leaves *)

Definition interesting_config_items : list pystr :=
  [$"NS3_ENABLED_MODULES"; $"NS3_ENABLED_CONTRIBUTED_MODULES"; $"NS3_MODULE_PATH"; $"NSC_ENABLED";
   $"ENABLE_REAL_TIME"; $"ENABLE_THREADING"; $"ENABLE_EXAMPLES"; $"ENABLE_TESTS";
   $"EXAMPLE_DIRECTORIES"; $"ENABLE_PYTHON_BINDINGS"; $"NSCLICK"; $"ENABLE_BRITE"; $"ENABLE_OPENFLOW";
   $"APPNAME"; $"BUILD_PROFILE"; $"VERSION"; $"PYTHON"; $"VALGRIND_FOUND"].

(** A line of the lock file: [top_dir] and [out_dir] are assigned by [eval] of
    what follows the only equals sign of their line. *)
Definition read_lock_line (eval_string : pystr -> py pystr) (dirs : option pystr * option pystr)
    (line : pystr) : py (option pystr * option pystr) :=
  let value := match split_on "="%char line with [_; val] => eval_string (strip val) | _ => Err ValueError end in
  let! dirs :=
    if startswith line ($"top_dir =") then let! v := value in Ok (Some v, snd dirs) else Ok dirs in
  if startswith line ($"out_dir =") then let! v := value in Ok (fst dirs, Some v) else Ok dirs.

(** The line is executed once for each item it starts with; [exec] is that of
    Python, on the global variables. *)
Definition exec_line {G} (exec : pystr -> G -> py G) (globals : G) (line : pystr) : py G :=
  for_each (fun g item => if startswith line item then exec line g else Ok g)
    interesting_config_items globals.

(** The two directories and the global variables.  The cache is read twice. *)
Definition read_waf_config {G} (eval_string : pystr -> py pystr) (exec : pystr -> G -> py G) (globals : G)
  : py (pystr * pystr * G) :=
  let! lock :=
    match file_text ($".lock-waf_" ++ platform ++ $"_build") with
    | Some t => Ok t
    | None => or_raise (SystemExit 2) (file_text ($".lock-waf_linux2_build"))
    end in
  let! '(top_dir, out_dir) := for_each (read_lock_line eval_string) (readlines lock) (None, None) in
  let! top_dir := or_raise UnboundLocalError top_dir in
  let! out_dir := or_raise UnboundLocalError out_dir in
  let NS3_BUILDDIR :=
    if negb win32 then out_dir
    else (fun c => if decide (c = "/"%char) then "\"%char else c) <$> out_dir in
  let! cache := or_raise OSError (file_text (out_dir ++ $"/c4che/_cache.py")) in
  let! globals := for_each (exec_line exec) (readlines cache) globals in
  let! globals := for_each (exec_line exec) (readlines cache) globals in
  Ok (top_dir, NS3_BUILDDIR, globals).

(** *** [make_paths]: the environment, a map of its variables *)

Definition append_paths (var sep : pystr) (env : gmap pystr pystr) : gmap pystr pystr :=
  let env := match env !! var with Some _ => env | None => <[var := []]> env end in
  foldl (fun env path => <[var := default [] (env !! var) ++ sep ++ path]> env) env
    (NS3_MODULE_PATH waf).

Definition make_paths (env : gmap pystr pystr) : gmap pystr pystr :=
  let have_PYTHONPATH := bool_decide (is_Some (env !! $"PYTHONPATH")) in
  let pypath := os_path_join (os_path_join (NS3_BUILDDIR cfg) ($"bindings")) ($"python") in
  let env := <[$"PYTHONPATH" := pypath]> env in
  let env :=
    if negb have_PYTHONPATH then <[$"PYTHONPATH" := pypath]> env
    else <[$"PYTHONPATH" := default [] (env !! $"PYTHONPATH") ++ $":" ++ pypath]> env in
  if decide (platform = $"darwin") then append_paths ($"DYLD_LIBRARY_PATH") ($":") env
  else if decide (platform = $"win32") then append_paths ($"PATH") ($";") env
  else if decide (platform = $"cygwin") then append_paths ($"PATH") ($":") env
  else append_paths ($"LD_LIBRARY_PATH") ($":") env.

(** *** The examples *)

(** One C++ example of the list. *)
Definition add_cpp_example (cpp_executable_dir : pystr) (st : examples)
    (ex : pystr * pystr * pystr) : py examples :=
  let '(example_name_original, do_run, do_valgrind_run) := ex in
  let '(example_name, example_arguments) := split_arguments example_name_original in
  let example_path := os_path_join cpp_executable_dir (program_name example_name) in
  let example_path :=
    if path_exists example_path then example_path
    else os_path_join cpp_executable_dir example_name in
  let example_path := example_path ++ exe_suffix in
  let! rel := os_path_relpath getcwd cpp_executable_dir (NS3_BUILDDIR cfg) in
  let example_name := os_path_join rel example_name in
  if path_exists example_path then
    let '(example_path, example_name) :=
      match example_arguments with
      | Some args => (example_path ++ $" " ++ args, example_name ++ $" " ++ args)
      | None => (example_path, example_name)
      end in
    Ok {| example_tests :=
            example_tests st ++ [(example_name, example_path, do_run, do_valgrind_run)];
          example_names_original := example_names_original st ++ [example_name_original];
          python_tests := python_tests st |}
  else Ok st.

(** One Python example of the list. *)
Definition add_python_example (python_script_dir : pystr) (st : examples) (ex : pystr * pystr)
  : examples :=
  let '(example_name, do_run) := ex in
  let '(example_name, example_arguments) := split_arguments example_name in
  let example_path := os_path_join python_script_dir example_name in
  if path_exists example_path then
    let example_path :=
      match example_arguments with Some args => example_path ++ $" " ++ args | None => example_path end in
    {| example_tests := example_tests st; example_names_original := example_names_original st;
       python_tests := python_tests st ++ [(example_path, do_run)] |}
  else st.

Definition parse_examples_to_run_file
    (examples_to_run_path cpp_executable_dir python_script_dir : pystr) (st : examples) : py examples :=
  if path_exists examples_to_run_path then
    let! cpp_examples :=
      get_list_from_file eval_cpp [] file_text examples_to_run_path ($"cpp_examples") in
    let! st := for_each (add_cpp_example cpp_executable_dir) cpp_examples st in
    let! python_examples :=
      get_list_from_file eval_python [] file_text examples_to_run_path ($"python_examples") in
    Ok (foldl (add_python_example python_script_dir) st python_examples)
  else Ok st.

(** The examples of a directory of [examples], and of a module of [src] or
    [contrib]. *)
Definition directory_examples (st : examples) (directory : pystr) : py examples :=
  let example_directory := os_path_join ($"examples") directory in
  parse_examples_to_run_file (os_path_join example_directory ($"examples-to-run.py"))
    (os_path_join (NS3_BUILDDIR cfg) example_directory) example_directory st.

Definition module_examples (top : pystr) (st : examples) (module : pystr) : py examples :=
  let module := drop_ns3 module in
  let module_directory := os_path_join top module in
  let example_directory := os_path_join module_directory ($"examples") in
  parse_examples_to_run_file
    (os_path_join (os_path_join module_directory ($"test")) ($"examples-to-run.py"))
    (os_path_join (NS3_BUILDDIR cfg) example_directory) example_directory st.

Definition find_examples : py examples :=
  let st := {| example_tests := []; example_names_original := []; python_tests := [] |} in
  let! st := for_each directory_examples (EXAMPLE_DIRECTORIES waf) st in
  let! st := for_each (module_examples ($"src")) (NS3_ENABLED_MODULES waf) st in
  for_each (module_examples ($"contrib")) (NS3_ENABLED_CONTRIBUTED_MODULES waf) st.

(** The map of the runnable programs, by the name of the file. *)
Definition programs_dictionary (ns3_runnable_programs : list pystr) : list (pystr * pystr) :=
  foldl (fun d program => dict_set (os_path_basename program) program d) [] ns3_runnable_programs.

(** *** The test runner's lists *)

(** The output of the test runner with some arguments: the return code, and the
    text, which cannot be decoded when the job could not decode it. *)
Definition run_test_runner (arguments : pystr) : Z * py pystr :=
  let '(rc, out, _, _) :=
    run_job_synchronously cfg run (os_path_join ($"utils") (test_runner_name ++ arguments)) getcwd
      false false [] in
  (rc, or_raise ValueError out).

Definition test_names (arguments : pystr) : py (list pystr) :=
  let! text := snd (run_test_runner ($" --print-test-name-list" ++ arguments)) in
  Ok (split_on NL text).

(** [for t in l2: if t in l1: l1.remove(t)] *)
Fixpoint remove_first (x : pystr) (l : list pystr) : list pystr :=
  match l with
  | [] => []
  | y :: l' => if decide (y = x) then l' else y :: remove_first x l'
  end.

Definition remove_all (l1 l2 : list pystr) : list pystr := foldl (fun l t => remove_first t l) l1 l2.

(** The suites to run. *)
Definition select_suites : py (list pystr) :=
  let! '(suites, single_suite) :=
    if 0 <? py_len (o_suite opts) then
      let! names := test_names [] in
      let suites_found := fnmatch_filter names (o_suite opts) in
      let! _ := raise_unless (negb (bool_decide (suites_found = []))) (SystemExit 2) in
      Ok (join [NL] suites_found, bool_decide (py_len suites_found = 1))
    else if (py_len (o_example opts) =? 0) && (py_len (o_pyexample opts) =? 0) then
      let! names :=
        test_names (if 0 <? py_len (o_constrain opts) then $" --test-type=" ++ o_constrain opts else []) in
      Ok (join [NL] names, false)
    else Ok ([], false) in
  let suite_list := split_on NL suites in
  if negb single_suite && negb (bool_decide (o_constrain opts = $"performance")) then
    let! performance_test_list := test_names ($" --test-type=performance") in
    Ok (remove_all suite_list performance_test_list)
  else Ok suite_list.

(** *** The number of workers *)

(** [sysconf] is the value of [SC_NPROCESSORS_ONLN] where it is known, [sysctl]
    what the command prints on its two outputs, [cpu_count] what [os] reports. *)
Definition choose_processors (sysconf : option Z) (sysctl : pystr * pystr) (cpu_count : Z) : py Z :=
  let! processors :=
    if negb win32 then
      match sysconf with
      | Some n => Ok n
      | None =>
          if py_len (snd sysctl) =? 0 then
            let! n := int_of_digits (strip (fst sysctl)) in Ok (Z.of_N n)
          else Ok 1
      end
    else Ok cpu_count in
  Ok (if negb (o_process_limit opts =? 0) then
        if processors <? o_process_limit opts then processors else o_process_limit opts
      else processors).

(** *** The jobs *)

Variable testpy_output_dir : pystr.

(** The job of a suite. *)
Definition suite_job (test : pystr) : Job :=
  let job := Job_init in
  let job := set_is_example false job in
  let job := set_is_pyexample false job in
  let job := set_display_name test job in
  let job := set_tmp_file_name (os_path_join testpy_output_dir (test ++ $".xml")) job in
  let job := set_cwd getcwd job in
  let job := set_basedir getcwd job in
  let job := set_tempdir testpy_output_dir job in
  let multiple := if o_multiple opts then [] else $" --stop-on-failure" in
  let fullness :=
    if 0 <? py_len (o_fullness opts) then $" --fullness=" ++ str_upper (o_fullness opts)
    else $" --fullness=QUICK" in
  let path_cmd :=
    os_path_join ($"utils") (test_runner_name ++ $" --test-name=" ++ test ++ multiple ++ fullness) in
  let job := set_shell_command path_cmd job in
  let job :=
    if opt_valgrind cfg && bool_decide (test ∈ core_valgrind_skip_tests) then
      set_skip_reason ($"crashes valgrind") (set_is_skip true job)
    else job in
  if negb (NSC_ENABLED waf) && bool_decide (test ∈ core_nsc_missing_skip_tests) then
    set_skip_reason ($"requires NSC") (set_is_skip true job)
  else job.

Definition suite_jobs (suite_list : list pystr) : list Job :=
  suite_job <$> filter (fun t => t <> []) (strip <$> suite_list).

(** The fields every example job has. *)
Definition example_job (name command : pystr) : Job :=
  let job := Job_init in
  let job := set_is_example true job in
  let job := set_is_pyexample false job in
  let job := set_display_name name job in
  let job := set_tmp_file_name [] job in
  let job := set_cwd testpy_output_dir job in
  let job := set_basedir getcwd job in
  let job := set_tempdir testpy_output_dir job in
  let job := set_shell_command command job in
  set_build_path (o_buildpath opts) job.

(** No suite, example or Python example was named. *)
Definition nothing_named : bool :=
  (py_len (o_suite opts) =? 0) && (py_len (o_example opts) =? 0) && (py_len (o_pyexample opts) =? 0).

Definition constrained_to (kind : pystr) : bool :=
  (py_len (o_constrain opts) =? 0) || bool_decide (o_constrain opts = kind).

Definition add_example_job (programs : list (pystr * pystr)) (jobs : list Job)
    (ex : pystr * pystr * pystr * pystr) : py (list Job) :=
  let '(name, test, do_run, do_valgrind_run) := ex in
  let test_name := os_path_basename (fst (split_arguments test)) in
  let test_name := if win32 then drop_exe test_name else test_name in
  match dict_get test_name programs with
  | None => Ok jobs
  | Some _ =>
      let! r := eval_cond do_run in
      if r then
        let job := example_job name test in
        let! skip :=
          if opt_valgrind cfg then let! v := eval_cond do_valgrind_run in Ok (negb v) else Ok false in
        let job :=
          if skip then set_skip_reason ($"skip in valgrind runs") (set_is_skip true job) else job in
        Ok (jobs ++ [job])
      else Ok jobs
  end.

(** The examples queued. *)
Definition example_jobs (programs : list (pystr * pystr)) (tests : list (pystr * pystr * pystr * pystr))
  : py (list Job) :=
  if nothing_named then
    if constrained_to ($"example") && ENABLE_EXAMPLES waf then
      for_each (add_example_job programs) tests []
    else Ok []
  else if 0 <? py_len (o_example opts) then
    let example_name := program_name (o_example opts) in
    Ok ((fun key => let example_path := os_path_abspath getcwd (default [] (dict_get key programs)) in
                    example_job example_path example_path)
        <$> fnmatch_filter (fst <$> programs) example_name)
  else Ok [].

Definition pyexample_job (name : pystr) : Job :=
  let job := Job_init in
  let job := set_is_pyexample true job in
  let job := set_display_name name job in
  let job := set_tmp_file_name [] job in
  let job := set_cwd testpy_output_dir job in
  let job := set_basedir getcwd job in
  let job := set_tempdir testpy_output_dir job in
  let job := set_shell_command name job in
  set_build_path [] job.

Definition add_pyexample_job (ns3_runnable_scripts : list pystr) (jobs : list Job) (ex : pystr * pystr)
  : py (list Job) :=
  let '(test, do_run) := ex in
  let test_name := os_path_basename (fst (split_arguments test)) in
  if bool_decide (test_name ∈ ns3_runnable_scripts) then
    let! r := eval_cond do_run in
    if r then
      let job := set_is_example false (pyexample_job test) in
      let job :=
        if opt_valgrind cfg then set_skip_reason ($"skip in valgrind runs") (set_is_skip true job)
        else job in
      let job :=
        if negb (ENABLE_PYTHON_BINDINGS waf) then
          set_skip_reason ($"requires Python bindings") (set_is_skip true job)
        else job in
      Ok (jobs ++ [job])
    else Ok jobs
  else Ok jobs.

(** The Python examples queued. *)
Definition pyexample_jobs (ns3_runnable_scripts : list pystr) (tests : list (pystr * pystr))
  : py (list Job) :=
  if nothing_named then
    if constrained_to ($"pyexample") && ENABLE_EXAMPLES waf then
      for_each (add_pyexample_job ns3_runnable_scripts) tests []
    else Ok []
  else if 0 <? py_len (o_pyexample opts) then
    if bool_decide (os_path_basename (o_pyexample opts) ∈ ns3_runnable_scripts) then
      Ok [pyexample_job (o_pyexample opts)]
    else Ok []
  else Ok [].

(** *** The whole plan *)

(** What the first half ends with: a value is returned at once, or the jobs are
    to be run by a number of workers.  The text is what [--kinds] and [--list]
    print. *)
Inductive plan :=
| Return (text : pystr) (code : option Z)
| RunJobs (jobs : list Job) (processors : Z).

Definition list_text (rc : Z) (out : pystr) (names : list pystr) : pystr :=
  let list_items := py_sort str_leb (split_on NL out) in
  $"Test Type    Test Name" ++ [NL] ++ $"---------    ---------" ++ [NL] ++
  mjoin ((fun item => item ++ [NL]) <$> filter (fun item => strip item <> []) list_items) ++
  mjoin ((fun item => $"example      " ++ item ++ [NL]) <$> py_sort str_leb names) ++ [NL].

(** The options [kinds] and [list]. *)
Definition print_lists (exs : examples) : py pystr :=
  let kinds_out :=
    if o_kinds opts then
      match snd (run_test_runner ($" --print-test-type-list")) with
      | Ok out => out ++ [NL]
      | Err _ => printed_bytes ++ [NL]
      end
    else [] in
  if o_list opts then
    let '(rc, out) :=
      run_test_runner ($" --print-test-name-list --print-test-types" ++
        (if 0 <? py_len (o_constrain opts) then $" --test-type=" ++ o_constrain opts else [])) in
    if negb (rc =? 0) then
      Ok (kinds_out ++ $"test.py error:  test-runner return code returned " ++ show_Z rc ++ [NL] ++
          $"To debug, try running './waf --run " ++ dquote ++ $"test-runner --print-test-name-list" ++
          dquote ++ $"'" ++ [NL; NL])
    else
      let! out := out in
      Ok (kinds_out ++ list_text rc out (example_names_original exs))
  else Ok kinds_out.

(** [waf_status] is the exit status of a build command. *)
Definition run_tests_plan (waf_status : pystr -> Z) (sysconf : option Z) (sysctl : pystr * pystr)
    (cpu_count : Z) : py plan :=
  if negb (o_nowaf opts) && negb (waf_status waf_cmd =? 0) then
    Ok (Return [] (Some (waf_status waf_cmd)))
  else
    let build_status_file := os_path_join (NS3_BUILDDIR cfg) ($"build-status.py") in
    let! _ := raise_unless (path_exists build_status_file) (SystemExit 2) in
    let! ns3_runnable_programs :=
      get_list_from_file eval_names [] file_text build_status_file ($"ns3_runnable_programs") in
    let! ns3_runnable_scripts :=
      get_list_from_file eval_names [] file_text build_status_file ($"ns3_runnable_scripts") in
    let programs := programs_dictionary ns3_runnable_programs in
    let! exs := find_examples in
    if o_kinds opts || o_list opts then
      let! text := print_lists exs in
      Ok (Return text None)
    else
      let! suite_list := select_suites in
      let! processors := choose_processors sysconf sysctl cpu_count in
      let! ejobs := example_jobs programs (example_tests exs) in
      let! pjobs := pyexample_jobs ns3_runnable_scripts (python_tests exs) in
      Ok (RunJobs (suite_jobs suite_list ++ ejobs ++ pjobs) processors).

End run_tests.

(** ** The paths of the environment *)

Lemma append_paths_spec waf var sep env :
  append_paths waf var sep env =
  <[var := default [] (env !! var) ++ mjoin ((fun path => sep ++ path) <$> NS3_MODULE_PATH waf)]> env.
Proof.
  unfold append_paths.
  set (env0 := match env !! var with Some _ => env | None => <[var := []]> env end).
  assert (env0 = <[var := default [] (env !! var)]> env) as ->.
  { unfold env0. destruct (env !! var) as [v|] eqn:E; [|done]. cbn. by rewrite insert_id. }
  generalize (default [] (env !! var)) as v.
  induction (NS3_MODULE_PATH waf) as [|path l IH]; intros v; cbn [foldl].
  - by rewrite app_nil_r.
  - rewrite lookup_insert_eq, insert_insert_eq, IH. cbn. by rewrite <- !app_assoc.
Qed.

(** [make_paths] sets [PYTHONPATH] to the bindings alone, once or, when the
    variable was set before, twice: the value it had is lost.  The search path
    of the platform's libraries gets the paths of the modules after what it had,
    each with its separator.  No other variable changes. *)
Theorem make_paths_spec cfg waf platform env :
  let pypath := os_path_join (os_path_join (NS3_BUILDDIR cfg) ($"bindings")) ($"python") in
  let '(var, sep) :=
    if decide (platform = $"darwin") then ($"DYLD_LIBRARY_PATH", $":")
    else if decide (platform = $"win32") then ($"PATH", $";")
    else if decide (platform = $"cygwin") then ($"PATH", $":")
    else ($"LD_LIBRARY_PATH", $":") in
  let env' := make_paths cfg waf platform env in
  env' !! $"PYTHONPATH" =
    Some (match env !! $"PYTHONPATH" with None => pypath | Some _ => pypath ++ $":" ++ pypath end) /\
  env' !! var =
    Some (default [] (env !! var) ++ mjoin ((fun path => sep ++ path) <$> NS3_MODULE_PATH waf)) /\
  forall x, x <> $"PYTHONPATH" -> x <> var -> env' !! x = env !! x.
Proof.
  intros pypath. unfold make_paths. fold pypath.
  set (env1 := if negb _ then _ else _).
  assert (env1 = <[$"PYTHONPATH" := match env !! $"PYTHONPATH" with None => pypath
    | Some _ => pypath ++ $":" ++ pypath end]> env) as ->.
  { unfold env1. destruct (env !! $"PYTHONPATH") as [v|] eqn:E.
    - rewrite bool_decide_true by eauto. cbn [negb]. by rewrite lookup_insert_eq, insert_insert_eq.
    - rewrite bool_decide_false by by intros [? ?]. cbn [negb]. by rewrite insert_insert_eq. }
  repeat case_decide; cbv zeta; rewrite append_paths_spec;
    (split; [by rewrite lookup_insert_ne, lookup_insert_eq by done|
      split; [by rewrite lookup_insert_eq, (lookup_insert_ne env) by done|
        by intros x Hx Hv; rewrite !lookup_insert_ne by done]]).
Qed.

(** ** The number of workers *)

(** On a machine with at least one processor, a limit of 0 or more gives at
    least one worker, never more than the processors and never more than a
    limit that is not 0; a negative limit is taken as it is: no worker starts. *)
Theorem choose_processors_bounds opts platform sysconf sysctl cpu_count n :
  0 < cpu_count -> (forall k, sysconf = Some k -> 0 < k) ->
  (forall k, int_of_digits (strip (fst sysctl)) = Ok k -> (0 < k)%N) ->
  choose_processors opts platform sysconf sysctl cpu_count = Ok n ->
  (0 <= o_process_limit opts -> 1 <= n /\ (0 < o_process_limit opts -> n <= o_process_limit opts)) /\
  (o_process_limit opts < 0 -> Z.to_nat n = 0%nat) /\
  (forall k, sysconf = Some k -> platform <> $"win32" -> n <= k).
Proof.
  intros Hc Hs Hi. unfold choose_processors.
  set (m := if negb (win32 platform) then _ else _).
  intros H. inv_ok. assert (0 < a) as Ha.
  { unfold m in *. destruct (win32 platform); cbn [negb] in *; [by inv_ok; subst|].
    destruct sysconf as [k|]; [inv_ok; subst; by apply Hs|]. destruct (py_len _ =? 0); inv_ok; [|lia].
    specialize (Hi _ ltac:(eassumption || reflexivity)). lia. }
  split_and!.
  - intros Hl. repeat case_match; subst; lia.
  - intros Hl. repeat case_match; subst; lia.
  - intros k -> Hp. assert (win32 platform = false) as Hw by by apply bool_decide_eq_false.
    unfold m in *. rewrite Hw in *. cbn in *. inv_ok. subst. repeat case_match; lia.
Qed.

Lemma choose_processors_bounds_witness :
  exists n, choose_processors
    {| o_buildpath := []; o_constrain := []; o_example := []; o_fullness := []; o_kinds := false;
       o_list := false; o_multiple := false; o_nowaf := true; o_pyexample := []; o_suite := [];
       o_process_limit := 3 |} ($"linux") (Some 4) ([], []) 1 = Ok n /\ 1 <= n /\ n <= 4.
Proof.
  exists 3. split; [reflexivity|].
  destruct (choose_processors_bounds
    {| o_buildpath := []; o_constrain := []; o_example := []; o_fullness := []; o_kinds := false;
       o_list := false; o_multiple := false; o_nowaf := true; o_pyexample := []; o_suite := [];
       o_process_limit := 3 |} ($"linux") (Some 4) ([], []) 1 3) as (H1 & _ & H3).
  - lia.
  - intros k [= <-]. lia.
  - intros k Hk. vm_compute in Hk. discriminate Hk.
  - reflexivity.
  - split; [apply H1; cbn; lia|]. apply H3; [reflexivity|discriminate].
Defined.

(** ** The suites selected *)

Lemma split_on_join c names :
  names <> [] -> Forall (fun w => c ∉ w) names -> split_on c (join [c] names) = names.
Proof.
  intros Hne Hall. induction Hall as [|w names Hw _ IH]; [done|].
  destruct names as [|w' names]; [by apply split_on_no|].
  change (join [c] (w :: w' :: names)) with (w ++ c :: join [c] (w' :: names)).
  by rewrite split_on_app_sep, split_on_no, IH by done.
Qed.

Lemma split_on_pieces c s : Forall (fun w => c ∉ w) (split_on c s).
Proof.
  induction s as [|a s IH]; cbn; [by repeat constructor; apply not_elem_of_nil|].
  case_decide as Ha.
  - constructor; [apply not_elem_of_nil|done].
  - destruct (split_on c s) as [|w ws]; [by repeat constructor; set_solver|].
    apply Forall_cons in IH as [Hw IH]. constructor; [set_solver|done].
Qed.

Lemma remove_first_NoDup x l : NoDup l -> remove_first x l = filter (fun y => y <> x) l.
Proof.
  induction 1 as [|y l Hy _ IH]; [done|]. cbn [remove_first]. rewrite filter_cons.
  destruct (decide (y = x)) as [->|Hne].
  - rewrite decide_False by tauto. symmetry. apply list_filter_all.
    apply list.Forall_forall. intros z Hz ->. done.
  - rewrite decide_True by done. by rewrite IH.
Qed.

(** From a list without duplicates every name of the other goes. *)
Lemma remove_all_NoDup l1 l2 : NoDup l1 -> remove_all l1 l2 = filter (fun y => y ∉ l2) l1.
Proof.
  revert l1. induction l2 as [|x l2 IH]; intros l1 Hl.
  - cbn. symmetry. apply list_filter_all. apply list.Forall_forall. intros. apply not_elem_of_nil.
  - cbn [remove_all foldl]. fold (remove_all (remove_first x l1) l2).
    rewrite remove_first_NoDup by done. rewrite IH by by apply NoDup_filter.
    rewrite list_filter_filter. apply list_filter_iff. intros y. set_solver.
Qed.

Lemma suite_list_no_perf names P :
  NoDup names -> names <> [] -> Forall (fun w => NL ∉ w) names ->
  remove_all (split_on NL (join [NL] names)) P = filter (fun y => y ∉ P) names.
Proof. intros. by rewrite split_on_join, remove_all_NoDup. Qed.

Lemma test_names_spec cfg waf platform getcwd path_exists run args names :
  test_names cfg waf platform getcwd path_exists run args = Ok names ->
  names <> [] /\ Forall (fun w => NL ∉ w) names.
Proof.
  unfold test_names. intros H. inv_ok. subst. split; [apply split_on_nonempty|apply split_on_pieces].
Qed.

Lemma remove_all_Forall (Q : pystr -> Prop) l1 l2 : Forall Q l1 -> Forall Q (remove_all l1 l2).
Proof.
  revert l1. induction l2 as [|x l2 IH]; intros l1 Hl; [done|]. apply IH.
  induction Hl as [|y l Hy Hl IHl]; [constructor|]. cbn. case_decide; [done|by constructor].
Qed.

Lemma suite_jobs_blank cfg waf opts platform getcwd path_exists out l :
  Forall (fun t => strip t = []) l -> suite_jobs cfg waf opts platform getcwd path_exists out l = [].
Proof.
  intros H. unfold suite_jobs. replace (filter _ _) with ([] : list pystr); [done|].
  induction H as [|t l Ht _ IH]; [done|]. rewrite fmap_cons, filter_cons, Ht, decide_False by tauto. done.
Qed.

Section selection.
Variable cfg : config.
Variable waf : waf_config.
Variable opts : options.
Variable platform getcwd : pystr.
Variable path_exists : pystr -> bool.
Variable run : pystr -> pystr -> process.

Notation test_names := (test_names cfg waf platform getcwd path_exists run).
Notation select_suites := (select_suites cfg waf opts platform getcwd path_exists run).

(** The suites selected, when the test runner lists each suite once: with
    [--suite], those that match the pattern, an exit with 2 when there are
    none, and the performance tests among them only when the pattern matches one
    suite or they are asked for; without it and without examples named, those
    of the kind asked for, less the performance tests unless that kind is
    [performance]; with examples named only, none. *)
Theorem select_suites_spec names kind_names performance :
  test_names [] = Ok names -> NoDup names ->
  test_names ($" --test-type=" ++ o_constrain opts) = Ok kind_names -> NoDup kind_names ->
  test_names ($" --test-type=performance") = Ok performance ->
  let listed := if decide (o_constrain opts = []) then names else kind_names in
  let found := fnmatch_filter names (o_suite opts) in
  let no_performance l :=
    if decide (o_constrain opts = $"performance") then l else filter (fun t => t ∉ performance) l in
  if decide (o_suite opts = []) then
    if decide (o_example opts = [] /\ o_pyexample opts = []) then select_suites = Ok (no_performance listed)
    else exists l, select_suites = Ok l /\ suite_jobs cfg waf opts platform getcwd path_exists [] l = []
  else
    match found with
    | [] => select_suites = Err (SystemExit 2)
    | [t] => select_suites = Ok [t]
    | _ => select_suites = Ok (no_performance found)
    end.
Proof.
  intros Hn HNn Hk HNk Hp listed found no_performance.
  assert (forall s : pystr, (0 <? py_len s) = bool_decide (s <> [])) as Hlen by by intros [].
  assert (forall s : pystr, (py_len s =? 0) = bool_decide (s = [])) as Hlen0 by by intros [].
  destruct (test_names_spec _ _ _ _ _ _ _ _ Hn) as [Hne Hnl].
  destruct (test_names_spec _ _ _ _ _ _ _ _ Hk) as [Hke Hkl].
  assert (Forall (fun w => NL ∉ w) found) as Hfl.
  { apply list.Forall_forall. intros w [_ Hw]%list_elem_of_filter.
    by apply (proj1 (list.Forall_forall _ _) Hnl). }
  assert (NoDup found) as Hfn by by apply NoDup_filter.
  unfold TestRun.select_suites. rewrite Hlen, !Hlen0. destruct (decide (o_suite opts = [])) as [Hs|Hs].
  - rewrite (bool_decide_false (o_suite opts <> [])) by tauto.
    destruct (decide (o_example opts = [] /\ o_pyexample opts = [])) as [[-> ->]|Hex].
    + rewrite !bool_decide_true by done. cbn [andb]. unfold no_performance, listed.
      rewrite Hlen. destruct (decide (o_constrain opts = [])) as [->|Hc].
      * rewrite bool_decide_false, Hn by tauto. cbn [rbind negb andb].
        rewrite bool_decide_false by done. cbn [negb].
        rewrite decide_False, Hp by done. cbn [rbind]. by rewrite suite_list_no_perf.
      * rewrite bool_decide_true, Hk by done. cbn [rbind negb andb].
        destruct (decide (o_constrain opts = $"performance")) as [Hcp|Hcp].
        -- rewrite bool_decide_true by done. cbn. by rewrite split_on_join.
        -- rewrite bool_decide_false by done. cbn [negb]. rewrite Hp. cbn [rbind].
           by rewrite suite_list_no_perf.
    + assert (bool_decide (o_example opts = []) && bool_decide (o_pyexample opts = []) = false) as ->.
      { rewrite <- bool_decide_and. by apply bool_decide_false. }
      cbn [rbind negb andb split_on]. destruct (negb _); [rewrite Hp; cbn [rbind]|]; eexists;
        (split; [done|]); [|done].
      apply suite_jobs_blank, remove_all_Forall. by repeat constructor.
  - rewrite bool_decide_true by done. rewrite Hn. cbn [rbind]. fold found.
    destruct found as [|t found'] eqn:Ef; [done|].
    rewrite bool_decide_false by done. cbn [negb raise_unless rbind].
    destruct found' as [|t' found'].
    + rewrite bool_decide_true by done. cbn [negb andb join].
      apply Forall_cons in Hfl as [Ht _]. by rewrite split_on_no.
    + rewrite bool_decide_false by by unfold py_len; cbn; lia. cbn [negb andb].
      unfold no_performance.
      destruct (decide (o_constrain opts = $"performance")) as [Hcp|Hcp].
      * rewrite bool_decide_true by done. cbn [negb]. by rewrite split_on_join.
      * rewrite bool_decide_false by done. cbn [negb]. rewrite Hp. cbn [rbind].
        by rewrite suite_list_no_perf.
Qed.
End selection.

(** ** The jobs queued *)

Inductive job_kind := KSuite | KExample | KPyExample.

Definition kind_of (j : Job) : job_kind :=
  if is_example j then KExample else if is_pyexample j then KPyExample else KSuite.

(** A job as the workers expect it: a real job, of one kind, that says why it is
    skipped, works in the output directory and, when it is a suite, has a
    results file of its own name. *)
Definition job_ok (out : pystr) (j : Job) : Prop :=
  is_break j = false /\ returncode j = 0 /\ is_example j && is_pyexample j = false /\
  (is_skip j = true -> skip_reason j <> []) /\ tempdir j = out /\
  (kind_of j = KSuite ->
   display_name j <> [] /\ tmp_file_name j = os_path_join out (display_name j ++ $".xml")) /\
  (kind_of j <> KSuite -> cwd j = out).

Section planning.
Variable cfg : config.
Variable waf : waf_config.
Variable opts : options.
Variable platform getcwd : pystr.
Variable path_exists : pystr -> bool.
Variable file_text : pystr -> option pystr.
Variable eval_cpp : pystr -> py (list (pystr * pystr * pystr)).
Variable eval_python : pystr -> py (list (pystr * pystr)).
Variable eval_names : pystr -> py (list pystr).
Variable eval_cond : pystr -> py bool.
Variable run : pystr -> pystr -> process.
Variable printed_bytes out : pystr.

Notation suite_jobs := (suite_jobs cfg waf opts platform getcwd path_exists out).
Notation example_jobs := (example_jobs cfg waf opts platform getcwd eval_cond out).
Notation pyexample_jobs := (pyexample_jobs cfg waf opts getcwd eval_cond out).
Notation select_suites := (select_suites cfg waf opts platform getcwd path_exists run).
Notation run_tests_plan := (run_tests_plan cfg waf opts platform getcwd path_exists file_text
  eval_cpp eval_python eval_names eval_cond run printed_bytes out).

(** Marking a job as skipped keeps it well formed, and of its kind. *)
Lemma skip_ok (b : bool) reason kind j :
  reason <> [] -> job_ok out j /\ kind_of j = kind ->
  job_ok out (if b then set_skip_reason reason (set_is_skip true j) else j) /\
  kind_of (if b then set_skip_reason reason (set_is_skip true j) else j) = kind.
Proof. intros Hr [Hj Hk]. destruct b; [|done]. unfold job_ok, kind_of in *. cbn. tauto. Qed.

Lemma suite_jobs_ok l : Forall (fun j => job_ok out j /\ kind_of j = KSuite) (suite_jobs l).
Proof.
  unfold TestRun.suite_jobs. apply Forall_fmap, list.Forall_forall.
  intros t [Ht _]%list_elem_of_filter. cbn.
  unfold suite_job. apply skip_ok; [done|]. apply skip_ok; [done|]. by split; [split_and!|].
Qed.

Lemma example_job_ok name command :
  job_ok out (example_job opts getcwd out name command) /\
  kind_of (example_job opts getcwd out name command) = KExample.
Proof. by split; [split_and!|]. Qed.

Lemma pyexample_job_ok name :
  job_ok out (pyexample_job getcwd out name) /\ kind_of (pyexample_job getcwd out name) = KPyExample.
Proof. by split; [split_and!|]. Qed.

Lemma example_jobs_ok programs tests jobs :
  example_jobs programs tests = Ok jobs ->
  Forall (fun j => job_ok out j /\ kind_of j = KExample) jobs /\
  (jobs <> [] ->
   (nothing_named opts = true /\ constrained_to opts ($"example") = true /\ ENABLE_EXAMPLES waf = true) \/
   o_example opts <> []).
Proof.
  unfold TestRun.example_jobs. intros H. destruct (nothing_named opts) eqn:Hn.
  - destruct (constrained_to opts _ && _) eqn:Hc; [|by inv_ok; subst].
    apply andb_true_iff in Hc as [Hc1 Hc2]. split; [|auto].
    apply (for_each_ind _ (fun _ js => Forall (fun j => job_ok out j /\ kind_of j = KExample) js) _ _ _)
      in H; [done|done|].
    intros l1 [[[name test] do_run] do_val] l2 s1 s2 _ Hs1 Hb. unfold add_example_job in Hb.
    destruct (dict_get _ _); [|by inv_ok; subst]. inv_ok. destruct a; [|by inv_ok; subst].
    inv_ok. subst. apply Forall_app. split; [done|]. constructor; [|done].
    apply skip_ok; [done|]. apply example_job_ok.
  - destruct (0 <? py_len (o_example opts)) eqn:He; [|by inv_ok; subst].
    inv_ok. subst. split; [|right; by intros Hx; rewrite Hx in He].
    apply Forall_fmap, list.Forall_forall. intros key _. unfold compose. apply example_job_ok.
Qed.

Lemma pyexample_jobs_ok scripts tests jobs :
  pyexample_jobs scripts tests = Ok jobs ->
  Forall (fun j => job_ok out j /\ kind_of j = KPyExample) jobs /\
  (jobs <> [] ->
   (nothing_named opts = true /\ constrained_to opts ($"pyexample") = true /\ ENABLE_EXAMPLES waf = true) \/
   o_pyexample opts <> []).
Proof.
  unfold TestRun.pyexample_jobs. intros H. destruct (nothing_named opts) eqn:Hn.
  - destruct (constrained_to opts _ && _) eqn:Hc; [|by inv_ok; subst].
    apply andb_true_iff in Hc as [Hc1 Hc2]. split; [|auto].
    apply (for_each_ind _ (fun _ js => Forall (fun j => job_ok out j /\ kind_of j = KPyExample) js) _ _ _)
      in H; [done|done|].
    intros l1 [test do_run] l2 s1 s2 _ Hs1 Hb. unfold add_pyexample_job in Hb.
    destruct (bool_decide _); [|by inv_ok; subst]. inv_ok. destruct a; inv_ok; subst; [|done].
    apply Forall_app. split; [done|]. constructor; [|done].
    apply skip_ok; [done|]. apply skip_ok; [done|]. apply pyexample_job_ok.
  - destruct (0 <? py_len (o_pyexample opts)) eqn:He; [|by inv_ok; subst].
    destruct (bool_decide _); inv_ok; subst; [|by split].
    split; [|right; by intros Hx; rewrite Hx in He]. constructor; [|done]. apply pyexample_job_ok.
Qed.

(** C16 - The jobs of a run: each is as the workers expect it, the suites, in the
    order selected, come before the examples and the Python examples.  C++
    examples are queued only when [--example] names one, or when nothing is
    named, the constraint is none or [example] and the examples are enabled;
    and the same of Python examples. *)
Theorem plan_jobs_spec waf_status sysconf sysctl cpu_count jobs processors :
  run_tests_plan waf_status sysconf sysctl cpu_count = Ok (RunJobs jobs processors) ->
  Forall (job_ok out) jobs /\ o_kinds opts = false /\ o_list opts = false /\
  exists suites examples pyexamples,
    jobs = suites ++ examples ++ pyexamples /\
    (exists l, select_suites = Ok l /\ suites = suite_jobs l) /\
    Forall (fun j => kind_of j = KSuite) suites /\
    Forall (fun j => kind_of j = KExample) examples /\
    Forall (fun j => kind_of j = KPyExample) pyexamples /\
    (examples <> [] ->
     (nothing_named opts = true /\ constrained_to opts ($"example") = true /\ ENABLE_EXAMPLES waf = true) \/
     o_example opts <> []) /\
    (pyexamples <> [] ->
     (nothing_named opts = true /\ constrained_to opts ($"pyexample") = true /\ ENABLE_EXAMPLES waf = true) \/
     o_pyexample opts <> []).
Proof.
  unfold TestRun.run_tests_plan. intros H.
  destruct (negb (o_nowaf opts) && _); [by inv_ok|]. inv_ok.
  destruct (o_kinds opts || o_list opts) eqn:Hk; [by inv_ok|]. apply orb_false_iff in Hk as [Hk Hl].
  inv_ok. subst.
  match goal with H : example_jobs _ _ = Ok _ |- _ => apply example_jobs_ok in H as [He1 He2] end.
  match goal with H : pyexample_jobs _ _ = Ok _ |- _ => apply pyexample_jobs_ok in H as [Hp1 Hp2] end.
  match goal with H : select_suites = Ok ?l |- _ => pose proof (suite_jobs_ok l) as Hs1 end.
  rewrite !Forall_and in *. destruct He1, Hp1, Hs1.
  split; [by rewrite !Forall_app|]. split; [done|]. split; [done|].
  do 3 eexists. split; [done|]. split; [by eauto|]. by split_and!.
Qed.

End planning.

(** ** The examples found *)

Section finding.
Variable cfg : config.
Variable waf : waf_config.
Variable platform getcwd : pystr.
Variable path_exists : pystr -> bool.
Variable file_text : pystr -> option pystr.
Variable eval_cpp : pystr -> py (list (pystr * pystr * pystr)).
Variable eval_python : pystr -> py (list (pystr * pystr)).

Notation parse_examples_to_run_file :=
  (parse_examples_to_run_file cfg waf platform getcwd path_exists file_text eval_cpp eval_python).
Notation find_examples := (find_examples cfg waf platform getcwd path_exists file_text eval_cpp eval_python).

(** A command whose program, before the first blank when there are arguments,
    exists. *)
Definition command_exists (command : pystr) : Prop :=
  exists path args, path_exists path = true /\
    command = match args with Some a => path ++ $" " ++ a | None => path end.

Definition examples_ok (st : examples) : Prop :=
  Forall (fun '(_, command, _, _) => command_exists command) (example_tests st) /\
  Forall (fun '(command, _) => command_exists command) (python_tests st) /\
  length (example_names_original st) = length (example_tests st).

Lemma add_cpp_example_ok dir st ex st' :
  examples_ok st -> add_cpp_example cfg waf platform getcwd path_exists dir st ex = Ok st' -> examples_ok st'.
Proof.
  intros (H1 & H2 & H3). destruct ex as [[orig do_run] do_val]. unfold add_cpp_example.
  destruct (split_arguments orig) as [name args]. set (p := _ ++ exe_suffix platform). intros H. inv_ok.
  destruct (path_exists p) eqn:Hp; [|by inv_ok; subst].
  assert (command_exists (match args with Some a => p ++ $" " ++ a | None => p end)) as Hc
    by by exists p, args.
  destruct args; inv_ok; subst; (split_and!; cbn;
    [apply Forall_app; split; [done|by constructor]|done|rewrite !length_app, H3; done]).
Qed.

Lemma add_python_example_ok dir st ex :
  examples_ok st -> examples_ok (add_python_example path_exists dir st ex).
Proof.
  intros (H1 & H2 & H3). destruct ex as [name do_run]. unfold add_python_example.
  destruct (split_arguments name) as [n args]. destruct (path_exists _) eqn:Hp; [|done].
  split_and!; cbn; [done| |done]. apply Forall_app. split; [done|]. constructor; [|done].
  by exists (os_path_join dir n), args.
Qed.

Lemma parse_examples_ok p c d st st' :
  examples_ok st -> parse_examples_to_run_file p c d st = Ok st' -> examples_ok st'.
Proof.
  intros Hst. unfold TestRun.parse_examples_to_run_file. destruct (path_exists p); intros H; [|by inv_ok; subst].
  inv_ok. subst st'. assert (examples_ok a0) as Ha0.
  { match goal with H : for_each _ _ _ = Ok _ |- _ =>
      apply (for_each_ind _ (fun _ => examples_ok) _ _ _) in H; [done|done|] end.
    intros ? ex ? s1 s2 _ Hs. by apply add_cpp_example_ok. }
  revert Ha0. clear. generalize a0. induction a1 as [|ex l IH]; intros st Hst; [done|].
  cbn. by apply IH, add_python_example_ok.
Qed.

(** Every example and every Python example found has a program that exists, in
    the build directory or among the scripts, and the names listed are as many as
    the examples. *)
Theorem find_examples_spec st : find_examples = Ok st -> examples_ok st.
Proof.
  unfold TestRun.find_examples. intros H. inv_ok.
  assert (forall (f : examples -> pystr -> py examples) l s s', (forall s x s', examples_ok s -> f s x = Ok s' -> examples_ok s') ->
    for_each f l s = Ok s' -> examples_ok s -> examples_ok s') as Hloop.
  { intros f l s s' Hf Hl Hs. eapply (for_each_ind f (fun _ => examples_ok) l s s'); eauto. }
  eapply Hloop; [|exact H|]; [intros s x s' Hs; by apply parse_examples_ok|].
  eapply Hloop; [|exact E0|]; [intros s x s' Hs; by apply parse_examples_ok|].
  eapply Hloop; [|exact E|by split_and!]. intros s x s' Hs. by apply parse_examples_ok.
Qed.

End finding.

(** ** The suites skipped *)

(** A suite is skipped exactly when it crashes valgrind and valgrind is on, or
    needs NSC and NSC is missing, and the second reason wins; the command asks the
    runner for this test, at the fullness given. *)
Theorem suite_job_spec cfg waf opts platform getcwd path_exists out test :
  let job := suite_job cfg waf opts platform getcwd path_exists out test in
  let crashes := opt_valgrind cfg = true /\ test ∈ core_valgrind_skip_tests in
  let needs_nsc := NSC_ENABLED waf = false /\ test ∈ core_nsc_missing_skip_tests in
  (is_skip job = true <-> crashes \/ needs_nsc) /\
  (needs_nsc -> skip_reason job = $"requires NSC") /\
  (crashes -> ~ needs_nsc -> skip_reason job = $"crashes valgrind") /\
  shell_command job = os_path_join ($"utils") (test_runner_name cfg waf platform path_exists ++
    $" --test-name=" ++ test ++ (if o_multiple opts then [] else $" --stop-on-failure") ++
    $" --fullness=" ++ (if decide (o_fullness opts = []) then $"QUICK" else str_upper (o_fullness opts))).
Proof.
  intros job crashes needs_nsc. unfold job, suite_job. unfold crashes, needs_nsc.
  assert ((if 0 <? py_len (o_fullness opts) then $" --fullness=" ++ str_upper (o_fullness opts)
    else $" --fullness=QUICK") = $" --fullness=" ++
      (if decide (o_fullness opts = []) then $"QUICK" else str_upper (o_fullness opts))) as Hf
    by by destruct (o_fullness opts).
  rewrite Hf.
  destruct (opt_valgrind cfg), (NSC_ENABLED waf), (decide (test ∈ core_valgrind_skip_tests)) as [Hv|Hv],
    (decide (test ∈ core_nsc_missing_skip_tests)) as [Hs|Hs];
    rewrite ?(bool_decide_true (test ∈ core_valgrind_skip_tests)),
      ?(bool_decide_false (test ∈ core_valgrind_skip_tests)),
      ?(bool_decide_true (test ∈ core_nsc_missing_skip_tests)),
      ?(bool_decide_false (test ∈ core_nsc_missing_skip_tests)) by done;
    cbn [negb andb is_skip skip_reason shell_command set_is_skip set_skip_reason set_shell_command
      set_is_example set_is_pyexample set_display_name set_tmp_file_name set_cwd set_basedir set_tempdir
      Job_init];
    split_and!; try done; clear -Hv Hs; intuition congruence.
Qed.

(** *** Witnesses *)

Definition wit_opts : options :=
  {| o_buildpath := []; o_constrain := []; o_example := []; o_fullness := $"QUICK"; o_kinds := false;
     o_list := false; o_multiple := false; o_nowaf := true; o_pyexample := []; o_suite := [];
     o_process_limit := 0 |}.

Definition wit_waf : waf_config :=
  {| NSC_ENABLED := false; ENABLE_EXAMPLES := true; ENABLE_PYTHON_BINDINGS := false;
     APPNAME := $"ns"; VERSION := $"3"; BUILD_PROFILE := $"debug"; EXAMPLE_DIRECTORIES := [$"udp"];
     NS3_ENABLED_MODULES := []; NS3_ENABLED_CONTRIBUTED_MODULES := []; NS3_MODULE_PATH := [] |}.

Definition wit_exists (p : pystr) : bool :=
  bool_decide (p ∈ [$"/ns/build/utils/ns3-test-runner-debug"; $"/ns/build/build-status.py";
    $"examples/udp/examples-to-run.py"; $"/ns/build/examples/udp/ns3-udp-echo-debug"]).

(** The test runner lists three suites, one of them a performance test. *)
Definition wit_runner (cmd dir : pystr) : process :=
  {| pr_returncode := 0;
     pr_stdout := Some (if decide (cmd = $"/ns/build/utils/ns3-test-runner-debug --print-test-name-list --test-type=performance")
       then $"speed" ++ [NL] else $"ns3-tcp-cwnd" ++ NL :: $"speed" ++ NL :: $"queue" ++ [NL]);
     pr_stderr := Some []; pr_time := 1 |}.

Definition wit_files (p : pystr) : option pystr :=
  if decide (p = $"/ns/build/build-status.py") then
    Some ($"ns3_runnable_programs = ['p']" ++ NL :: $"ns3_runnable_scripts = []" ++ [NL])
  else if decide (p = $"examples/udp/examples-to-run.py") then Some ($"cpp_examples = ['c']" ++ [NL])
  else None.

Definition wit_names (e : pystr) : py (list pystr) :=
  Ok (if decide (e = $"['p']") then [$"build/examples/udp/ns3-udp-echo-debug"] else []).

Definition wit_cpp (e : pystr) : py (list (pystr * pystr * pystr)) :=
  Ok [($"udp-echo", $"True", $"True"); ($"missing", $"True", $"True")].

Definition wit_plan : py plan :=
  run_tests_plan wit_config wit_waf wit_opts ($"linux") ($"/ns") wit_exists wit_files wit_cpp
    (fun _ => Ok []) wit_names (fun _ => Ok true) wit_runner [] ($"out") (fun _ => 0) (Some 2) ([], []) 1.

(** A run of two suites, one skipped because NSC is missing, and an example. *)
Example plan_example :
  (fun p => match p with RunJobs jobs n => (display_name <$> jobs, is_skip <$> jobs, n) | _ => ([], [], 0) end)
    <$> match wit_plan with Ok p => Some p | Err _ => None end =
  Some ([$"ns3-tcp-cwnd"; $"queue"; $"examples/udp/udp-echo"], [true; false; false], 2).
Proof. vm_compute. reflexivity. Qed.

(** On Windows the suffix of the test runner is appended twice when the built
    program is found. *)
Example win32_runner_suffix :
  test_runner_name wit_config wit_waf ($"win32") (fun _ => true) = $"ns3-test-runner-debug.exe.exe".
Proof. vm_compute. reflexivity. Qed.

Lemma select_suites_spec_witness :
  select_suites wit_config wit_waf wit_opts ($"linux") ($"/ns") wit_exists wit_runner =
    Ok [$"ns3-tcp-cwnd"; $"queue"].
Proof.
  refine (eq_trans (select_suites_spec wit_config wit_waf wit_opts ($"linux") ($"/ns") wit_exists wit_runner
    [$"ns3-tcp-cwnd"; $"speed"; $"queue"; []] [$"ns3-tcp-cwnd"; $"speed"; $"queue"; []] [$"speed"; []]
    _ _ _ _ _) _).
  - vm_compute. reflexivity.
  - apply (bool_decide_eq_true_1 _). vm_compute. reflexivity.
  - vm_compute. reflexivity.
  - apply (bool_decide_eq_true_1 _). vm_compute. reflexivity.
  - vm_compute. reflexivity.
  - vm_compute. reflexivity.
Defined.

Lemma plan_jobs_spec_witness :
  exists jobs, wit_plan = Ok (RunJobs jobs 2) /\ length jobs = 3%nat /\ Forall (job_ok ($"out")) jobs.
Proof.
  pose proof (plan_jobs_spec wit_config wit_waf wit_opts ($"linux") ($"/ns") wit_exists wit_files wit_cpp
    (fun _ => Ok []) wit_names (fun _ => Ok true) wit_runner [] ($"out") (fun _ => 0) (Some 2) ([], []) 1)
    as H.
  fold wit_plan in H. assert (is_ok wit_plan = true) as Hok by (vm_compute; reflexivity).
  destruct wit_plan as [[?|jobs n]|] eqn:E; [vm_compute in E; discriminate E| |discriminate Hok].
  assert (n = 2) as -> by (vm_compute in E; injection E as _ E; symmetry; exact E).
  exists jobs. split; [reflexivity|]. split.
  - vm_compute in E. injection E as <-. reflexivity.
  - exact (proj1 (H jobs 2 eq_refl)).
Defined.

Lemma find_examples_spec_witness :
  exists st, find_examples wit_config wit_waf ($"linux") ($"/ns") wit_exists wit_files wit_cpp
    (fun _ => Ok []) = Ok st /\ length (example_tests st) = 1%nat /\ examples_ok wit_exists st.
Proof.
  pose proof (find_examples_spec wit_config wit_waf ($"linux") ($"/ns") wit_exists wit_files wit_cpp
    (fun _ => Ok [])) as H.
  destruct (find_examples _ _ _ _ _ _ _ _) as [st|e] eqn:E; [|vm_compute in E; discriminate E].
  exists st. split; [reflexivity|]. split; [vm_compute in E; injection E as <-; reflexivity|].
  exact (H st eq_refl).
Defined.
