(* ===== verification/TestReport.v ===== *)
(** * [test.py], the reports: [translate_to_text] and [translate_to_html]

    From the tree of the XML results file to the text and HTML summaries.  The
    tree is that of [xml.etree.ElementTree]; what the code writes to a file is
    the list of the strings it writes, in order. *)

From S2P Require Import Prelude ElementTree.

Open Scope Z_scope.

(** [%s] of a string that may be [None]. *)
Definition fmt (s : option pystr) : pystr := default ($"None") s.

Definition quote : pystr := dquote.

(** ** The text report *)

(** Result, name, reason and time. *)
Definition read_test (test : element)
  : py (option pystr * option pystr * option pystr * option pystr) :=
  let! result := find_text ($"Result") test in
  let! name := find_text ($"Name") test in
  let reason := match find ($"Reason") test with Some r => elem_text r | None => Some [] end in
  let time_real :=
    match find ($"Time") test with Some t => get_attrib ($"real") t | None => Some [] end in
  Ok (result, name, reason, time_real).

(** The six lines of a [FailureDetails]. *)
Definition details_to_text (details : element) : py (list pystr) :=
  let! message := find_text ($"Message") details in
  let! condition := find_text ($"Condition") details in
  let! actual := find_text ($"Actual") details in
  let! limit := find_text ($"Limit") details in
  let! file := find_text ($"File") details in
  let! line := find_text ($"Line") details in
  Ok [$"    Details:" ++ [NL];
      $"      Message:   " ++ fmt message ++ [NL];
      $"      Condition: " ++ fmt condition ++ [NL];
      $"      Actual:    " ++ fmt actual ++ [NL];
      $"      Limit:     " ++ fmt limit ++ [NL];
      $"      File:      " ++ fmt file ++ [NL];
      $"      Line:      " ++ fmt line ++ [NL]].

(** [for x in l: f.write(...)] *)
Fixpoint write_all {A} (f : A -> py (list pystr)) (l : list A) : py (list pystr) :=
  match l with
  | [] => Ok []
  | x :: l' => let! a := f x in let! b := write_all f l' in Ok (a ++ b)
  end.

(** The line of a test, and those of its failures. *)
Definition test_to_text (test_type : pystr) (test : element) : py (list pystr) :=
  let! '(result, name, reason, time_real) := read_test test in
  let reason := match reason with Some (_ :: _ as r) => $" (" ++ r ++ $")" | _ => fmt reason end in
  let output :=
    fmt result ++ $": Test " ++ test_type ++ $" " ++ quote ++ fmt name ++ quote ++ $" (" ++
    fmt time_real ++ $")" ++ reason ++ [NL] in
  let! ds := write_all details_to_text (findall ($"FailureDetails") test) in
  Ok (output :: ds).

Fixpoint node_to_text (test_type : pystr) (test : element) {struct test} : py (list pystr) :=
  let! own := test_to_text test_type test in
  let '(Elem _ _ _ children) := test in
  let! cases :=
    (fix go (l : list element) : py (list pystr) :=
       match l with
       | [] => Ok []
       | child :: l' =>
           if decide (elem_tag child = $"Test") then
             let! a := node_to_text ($"Case") child in
             let! b := go l' in
             Ok (a ++ b)
           else go l'
       end) children in
  Ok (own ++ cases).

Definition example_to_text (example : element) : py (list pystr) :=
  let! result := find_text ($"Result") example in
  let! name := find_text ($"Name") example in
  let time_real :=
    match find ($"Time") example with Some t => get_attrib ($"real") t | None => Some [] end in
  Ok [fmt result ++ $": Example " ++ quote ++ fmt name ++ quote ++ $" (" ++ fmt time_real ++ $")" ++ [NL]].

(** What is written to the text file; [et] is the root of the results. *)
Definition translate_to_text (et : element) : py (list pystr) :=
  let! tests := write_all (node_to_text ($"Suite")) (findall ($"Test") et) in
  let! examples := write_all example_to_text (findall ($"Example") et) in
  Ok (tests ++ examples).

(** ** The HTML report *)

Definition style (elem color : pystr) : pystr :=
  $"<" ++ elem ++ $" style=" ++ quote ++ $"color:" ++ color ++ quote ++ $">".

Definition td (s : pystr) : pystr := $"<td>" ++ s ++ $"</td>" ++ [NL].

Definition TABLE : pystr := $"<table border=" ++ quote ++ $"1" ++ quote ++ $">" ++ [NL].
Definition TR : pystr := $"<tr>" ++ [NL].
Definition TR_END : pystr := $"</tr>" ++ [NL].
Definition TABLE_END : pystr := $"</table>" ++ [NL].

Definition suite_header (result name reason time : option pystr) : pystr :=
  if decide (result = Some ($"PASS")) then
    style ($"h3") ($"green") ++ fmt result ++ $": " ++ fmt name ++ $" (" ++ fmt time ++ $")</h3>" ++ [NL]
  else if decide (result = Some ($"SKIP")) then
    style ($"h3") ($"#ff6600") ++ fmt result ++ $": " ++ fmt name ++ $" (" ++ fmt time ++ $") (" ++
    fmt reason ++ $")</h3>" ++ [NL]
  else
    style ($"h3") ($"red") ++ fmt result ++ $": " ++ fmt name ++ $" (" ++ fmt time ++ $")</h3>" ++ [NL].

(** One row of a case that failed, the first of them or not. *)
Definition details_row (first_row : bool) (result name time : option pystr) (details : element)
  : py (list pystr) :=
  let! message := find_text ($"Message") details in
  let! condition := find_text ($"Condition") details in
  let! actual := find_text ($"Actual") details in
  let! limit := find_text ($"Limit") details in
  let! file := find_text ($"File") details in
  let! line := find_text ($"Line") details in
  Ok (TR ::
      (if first_row then
         [style ($"td") ($"red") ++ fmt result ++ $"</td>" ++ [NL]; td (fmt name); td (fmt time)]
       else [td []; td []; td []]) ++
      [$"<td>";
       $"<b>Message: </b>" ++ fmt message ++ $", ";
       $"<b>Condition: </b>" ++ fmt condition ++ $", ";
       $"<b>Actual: </b>" ++ fmt actual ++ $", ";
       $"<b>Limit: </b>" ++ fmt limit ++ $", ";
       $"<b>File: </b>" ++ fmt file ++ $", ";
       $"<b>Line: </b>" ++ fmt line;
       $"</td>" ++ [NL];
       $"</td>" ++ [NL]]).

Fixpoint details_rows (first_row : bool) (result name time : option pystr) (l : list element)
  : py (list pystr) :=
  match l with
  | [] => Ok []
  | d :: l' =>
      let! a := details_row first_row result name time d in
      let! b := details_rows false result name time l' in
      Ok (a ++ b)
  end.

Definition case_rows (case : element) : py (list pystr) :=
  let! '(result, name, reason, time) := read_test case in
  if decide (result = Some ($"FAIL")) then
    details_rows true result name time (findall ($"FailureDetails") case)
  else
    Ok [TR; style ($"td") ($"green") ++ fmt result ++ $"</td>" ++ [NL]; td (fmt name); td (fmt time);
        td (fmt reason); TR_END].

Definition no_information (result : option pystr) : bool :=
  bool_decide (result ∈ [Some ($"CRASH"); Some ($"SKIP"); Some ($"VALGR")]).

Definition suite_to_html (suite : element) : py (list pystr) :=
  let! '(result, name, reason, time) := read_test suite in
  let head := [suite_header result name reason time; TABLE; $"<th> Result </th>" ++ [NL]] in
  if no_information result then
    Ok (head ++
        [TR;
         style ($"td") (if decide (result = Some ($"SKIP")) then $"#ff6600" else $"red") ++ fmt result ++
           $"</td>" ++ [NL];
         TR_END; TABLE_END])
  else
    let! rows := write_all case_rows (findall ($"Test") suite) in
    Ok (head ++ [$"<th>Test Case Name</th>" ++ [NL]; $"<th> Time </th>" ++ [NL]] ++
        (if decide (result = Some ($"FAIL")) then [$"<th>Failure Details</th>" ++ [NL]] else []) ++
        rows ++ [TABLE_END]).

(** The row of an example: when it was skipped the first cell is closed with
    [</fd>]. *)
Definition example_row (example : element) : py (list pystr) :=
  let! '(result, name, reason, time) := read_test example in
  Ok [TR;
      (if decide (result = Some ($"PASS")) then
         style ($"td") ($"green") ++ fmt result ++ $"</td>" ++ [NL]
       else if decide (result = Some ($"SKIP")) then
         style ($"td") ($"#ff6600") ++ fmt result ++ $"</fd>" ++ [NL]
       else style ($"td") ($"red") ++ fmt result ++ $"</td>" ++ [NL]);
      td (fmt name); td (fmt time); td (fmt reason); TR_END].

Definition translate_to_html (et : element) : py (list pystr) :=
  let! suites := write_all suite_to_html (findall ($"Test") et) in
  let! examples := write_all example_row (findall ($"Example") et) in
  Ok ([$"<html>" ++ [NL]; $"<body>" ++ [NL]; $"<center><h1>ns-3 Test Results</h1></center>" ++ [NL];
       $"<h2>Test Suites</h2>" ++ [NL]] ++ suites ++
      [$"<h2>Examples</h2>" ++ [NL]; TABLE; $"<th> Result </th>" ++ [NL];
       $"<th>Example Name</th>" ++ [NL]; $"<th>Elapsed Time</th>" ++ [NL]; $"<th>Details</th>" ++ [NL]] ++
      examples ++ [TABLE_END; $"</body>" ++ [NL]; $"</html>" ++ [NL]]).

(** ** The text report, flattened *)

(** The tests of a tree in the order their lines come: a test, then its cases. *)
Fixpoint tests_of (test_type : pystr) (test : element) {struct test} : list (pystr * element) :=
  (test_type, test) ::
  (let '(Elem _ _ _ children) := test in
   (fix go (l : list element) :=
      match l with
      | [] => []
      | child :: l' => (if decide (elem_tag child = $"Test") then tests_of ($"Case") child else []) ++ go l'
      end) children).

Lemma write_all_app {A} (f : A -> py (list pystr)) l1 l2 :
  write_all f (l1 ++ l2) = (let! a := write_all f l1 in let! b := write_all f l2 in Ok (a ++ b)).
Proof.
  induction l1 as [|x l1 IH]; cbn; [by destruct (write_all f l2)|].
  rewrite IH. destruct (f x), (write_all f l1), (write_all f l2); cbn; by rewrite ?app_assoc.
Qed.

Lemma write_all_Ok {A} (f : A -> py (list pystr)) l :
  is_ok (write_all f l) = true <-> Forall (fun x => is_ok (f x) = true) l.
Proof.
  induction l as [|x l IH]; [done|]. rewrite Forall_cons, <- IH. cbn.
  destruct (f x), (write_all f l); cbn; naive_solver.
Qed.

Lemma write_all_mjoin {A B} (f : B -> py (list pystr)) (g : A -> list B) l :
  write_all (fun x => write_all f (g x)) l = write_all f (mjoin (g <$> l)).
Proof.
  induction l as [|x l IH]; [done|]. cbn. rewrite write_all_app, IH. done.
Qed.

Lemma write_all_ext {A} (f g : A -> py (list pystr)) l :
  (forall x, f x = g x) -> write_all f l = write_all g l.
Proof. intros H. induction l as [|x l IH]; [done|]. cbn. by rewrite H, IH. Qed.

Definition test_lines (p : pystr * element) : py (list pystr) := test_to_text p.1 p.2.

Lemma node_to_text_flat test_type test :
  node_to_text test_type test = write_all test_lines (tests_of test_type test).
Proof.
  revert test_type. induction test as [tag attrib text children IH] using element_ind'. intros typ.
  cbn [node_to_text tests_of write_all]. unfold test_lines at 1. cbn [fst snd].
  destruct (test_to_text typ _) as [own|]; [|done]. cbn [rbind].
  match goal with |- rbind (?go1 children) _ = rbind (write_all _ (?go2 children)) _ =>
    assert (go1 children = write_all test_lines (go2 children)) as ->; [|done] end.
  induction IH as [|c l Hc _ IHl]; [done|]. case_decide as Ht.
  - rewrite write_all_app, <- Hc, <- IHl. done.
  - exact IHl.
Qed.

(** The only exception is that of a missing element. *)
Definition raises_attribute {A} (r : py A) : Prop := forall e, r = Err e -> e = AttributeError.

Lemma raises_bind {A B} (m : py A) (k : A -> py B) :
  raises_attribute m -> (forall a, raises_attribute (k a)) -> raises_attribute (rbind m k).
Proof. intros Hm Hk. destruct m as [a|e]; [apply Hk|]. intros e' [= <-]. by apply Hm. Qed.

Lemma raises_Ok {A} (a : A) : raises_attribute (Ok a).
Proof. done. Qed.

Lemma raises_find_text tag e : raises_attribute (find_text tag e).
Proof. unfold find_text. destruct (find tag e); [done|]. by intros e' [= <-]. Qed.

Lemma raises_write_all {A} (f : A -> py (list pystr)) l :
  (forall x, raises_attribute (f x)) -> raises_attribute (write_all f l).
Proof.
  intros Hf. induction l as [|x l IH]; [done|]. cbn.
  apply raises_bind; [done|]. intros a. by apply raises_bind.
Qed.

Ltac raises :=
  repeat first [apply raises_Ok | apply raises_find_text
    | apply raises_write_all; intros ? | apply raises_bind; [|intros ?]].

Lemma raises_test_lines p : raises_attribute (test_lines p).
Proof.
  unfold test_lines, test_to_text, read_test. raises. destruct a as [[[r n] y] t]. unfold details_to_text.
  raises.
Qed.

Lemma raises_example example : raises_attribute (example_to_text example).
Proof. unfold example_to_text. raises. Qed.

(** All the tests of the results, in the order of the report. *)
Definition all_tests (et : element) : list (pystr * element) :=
  mjoin (tests_of ($"Suite") <$> findall ($"Test") et).

(** The text report is the lines of each test, the cases of a test after it and
    before the next test, and then a line for each example; it is written in
    full exactly when every test of the tree and every example has the elements
    its lines need, and raises [AttributeError] otherwise. *)
Theorem translate_to_text_spec et :
  translate_to_text et =
    (let! tests := write_all test_lines (all_tests et) in
     let! examples := write_all example_to_text (findall ($"Example") et) in
     Ok (tests ++ examples)) /\
  (is_ok (translate_to_text et) = true <->
   Forall (fun p => is_ok (test_lines p) = true) (all_tests et) /\
   Forall (fun e => is_ok (example_to_text e) = true) (findall ($"Example") et)) /\
  (forall e, translate_to_text et = Err e -> e = AttributeError).
Proof.
  assert (translate_to_text et =
    (let! tests := write_all test_lines (all_tests et) in
     let! examples := write_all example_to_text (findall ($"Example") et) in
     Ok (tests ++ examples))) as Heq.
  { unfold translate_to_text, all_tests. rewrite <- write_all_mjoin.
    by rewrite (write_all_ext _ _ _ (node_to_text_flat ($"Suite"))). }
  split; [done|]. rewrite Heq, <- !write_all_Ok. split.
  - destruct (write_all test_lines (all_tests et)), (write_all example_to_text _); cbn; naive_solver.
  - fold (raises_attribute (let! tests := write_all test_lines (all_tests et) in
      let! examples := write_all example_to_text (findall ($"Example") et) in Ok (tests ++ examples))).
    apply raises_bind; [apply raises_write_all, raises_test_lines|]. intros tests.
    apply raises_bind; [apply raises_write_all, raises_example|done].
Qed.

(** ** The rows of the HTML report *)

Definition count_writes (w : pystr) (ws : list pystr) : nat := length (filter (fun x => x = w) ws).

(** The rows of a case, and those of them that [</tr>] does not close. *)
Definition case_rows_of (case : element) : nat :=
  if decide (find_text ($"Result") case = Ok (Some ($"FAIL"))) then
    length (findall ($"FailureDetails") case)
  else 1.

Definition case_unclosed (case : element) : nat :=
  if decide (find_text ($"Result") case = Ok (Some ($"FAIL"))) then
    length (findall ($"FailureDetails") case)
  else 0.

Definition has_information (suite : element) : bool :=
  match find_text ($"Result") suite with Ok r => negb (no_information r) | Err _ => true end.

Definition suite_rows_of (suite : element) : nat :=
  if has_information suite then sum_list_with case_rows_of (findall ($"Test") suite) else 1.

Definition suite_unclosed (suite : element) : nat :=
  if has_information suite then sum_list_with case_unclosed (findall ($"Test") suite) else 0.

Lemma count_writes_app w l1 l2 :
  count_writes w (l1 ++ l2) = (count_writes w l1 + count_writes w l2)%nat.
Proof. unfold count_writes. by rewrite filter_app, length_app. Qed.

Lemma count_writes_nil w : count_writes w [] = 0%nat.
Proof. done. Qed.

Lemma count_writes_cons w x l :
  count_writes w (x :: l) = ((if decide (x = w) then 1 else 0) + count_writes w l)%nat.
Proof. unfold count_writes. rewrite filter_cons. by case_decide. Qed.

(** Evaluates the counts of the rows written: each string is a [<tr>] or a
    [</tr>], or differs from them in one of its first characters. *)
Ltac count_rows :=
  rewrite ?count_writes_app, ?count_writes_cons, ?count_writes_nil;
  repeat first
    [rewrite decide_True by reflexivity
    |rewrite decide_False by discriminate];
  cbn [Nat.add].

Lemma read_test_result test r n y t :
  read_test test = Ok (r, n, y, t) -> find_text ($"Result") test = Ok r.
Proof. unfold read_test. intros H. inv_ok. by subst. Qed.

Lemma details_rows_count b r n t l ws :
  details_rows b r n t l = Ok ws ->
  count_writes TR ws = length l /\ count_writes TR_END ws = 0%nat.
Proof.
  revert b ws. induction l as [|d l IH]; intros b ws H; cbn in H; inv_ok; [by subst|].
  subst. match goal with H : details_rows _ _ _ _ _ = Ok _ |- _ => apply IH in H as [H1 H2] end.
  match goal with H : details_row _ _ _ _ _ = Ok _ |- _ => unfold details_row in H end. inv_ok. subst.
  rewrite !count_writes_app, H1, H2. destruct b; count_rows; by split.
Qed.

Lemma case_rows_count case ws :
  case_rows case = Ok ws ->
  count_writes TR ws = case_rows_of case /\
  (count_writes TR_END ws + case_unclosed case = case_rows_of case)%nat.
Proof.
  unfold case_rows, case_rows_of, case_unclosed. intros H. inv_ok.
  destruct a as [[[r n] y] t].
  match goal with H : read_test _ = Ok _ |- _ => apply read_test_result in H as -> end.
  destruct (decide (r = Some ($"FAIL"))) as [->|Hr].
  - rewrite !decide_True by done. apply details_rows_count in H as [-> ->]. by split.
  - rewrite !decide_False by congruence. inv_ok. subst. count_rows. by split.
Qed.

Lemma write_all_count {A} (f : A -> py (list pystr)) rows unclosed l ws :
  (forall x ws, f x = Ok ws -> count_writes TR ws = rows x /\
     (count_writes TR_END ws + unclosed x = rows x)%nat) ->
  write_all f l = Ok ws ->
  count_writes TR ws = sum_list_with rows l /\
  (count_writes TR_END ws + sum_list_with unclosed l = sum_list_with rows l)%nat.
Proof.
  intros Hf. revert ws. induction l as [|x l IH]; intros ws H; cbn in H; inv_ok; subst; [done|].
  match goal with H : f x = Ok _ |- _ => apply Hf in H as [H1 H2] end.
  destruct (IH _ eq_refl) as [H3 H4].
  rewrite !count_writes_app. cbn [sum_list_with]. split; lia.
Qed.

Lemma suite_header_not_row r n y t :
  suite_header r n y t <> TR /\ suite_header r n y t <> TR_END.
Proof. unfold suite_header. repeat case_decide; by split. Qed.

Lemma suite_rows_count suite ws :
  suite_to_html suite = Ok ws ->
  count_writes TR ws = suite_rows_of suite /\
  (count_writes TR_END ws + suite_unclosed suite = suite_rows_of suite)%nat.
Proof.
  unfold suite_to_html, suite_rows_of, suite_unclosed, has_information. intros H. inv_ok.
  destruct a as [[[r n] y] t].
  match goal with H : read_test _ = Ok _ |- _ => apply read_test_result in H as -> end.
  destruct (suite_header_not_row r n y t) as [Hh1 Hh2].
  destruct (no_information r); cbn [negb]; inv_ok; subst.
  - generalize (if decide (r = Some ($"SKIP")) then $"#ff6600" else $"red") as color. intros color.
    rewrite ?count_writes_app, !count_writes_cons.
    rewrite (decide_False (P := suite_header r n y t = TR)),
      (decide_False (P := suite_header r n y t = TR_END)) by done. count_rows. by split.
  - match goal with H : write_all _ _ = Ok _ |- _ =>
      apply (write_all_count _ case_rows_of case_unclosed) in H as [H1 H2]; [|exact case_rows_count] end.
    rewrite !count_writes_cons, !count_writes_app, H1.
    match goal with |- context [count_writes TR (if ?d then ?x else ?y)] =>
      set (th := if d then x else y) end.
    assert (count_writes TR th = 0 /\ count_writes TR_END th = 0)%nat as [-> ->]
      by by unfold th; case_decide; count_rows.
    rewrite !count_writes_cons.
    rewrite (decide_False (P := suite_header r n y t = TR)),
      (decide_False (P := suite_header r n y t = TR_END)) by done. count_rows.
    rewrite !Nat.add_0_r. by split.
Qed.

Lemma example_row_count example ws :
  example_row example = Ok ws ->
  count_writes TR ws = 1%nat /\ (count_writes TR_END ws + 0 = 1)%nat.
Proof.
  unfold example_row. intros H. inv_ok. destruct a as [[[r n] y] t]. inv_ok. subst.
  set (cell := if decide _ then _ else _).
  assert (cell <> TR /\ cell <> TR_END) as [H1 H2] by by unfold cell; repeat case_decide; split.
  rewrite !count_writes_cons, (decide_False (P := cell = TR)), (decide_False (P := cell = TR_END)) by done.
  count_rows. by split.
Qed.

(** When the HTML report is written, it has one row per example, and in the
    table of a suite one row when the suite crashed, was skipped or failed
    valgrind, and otherwise one per case that did not fail and one per failure
    detail of a case that did; every row is closed by [</tr>] but those of the
    failure details. *)
Theorem translate_to_html_rows et ws :
  translate_to_html et = Ok ws ->
  let suites := findall ($"Test") et in
  let examples := findall ($"Example") et in
  count_writes TR ws = (sum_list_with suite_rows_of suites + length examples)%nat /\
  (count_writes TR_END ws + sum_list_with suite_unclosed suites = count_writes TR ws)%nat.
Proof.
  unfold translate_to_html. intros H. cbv zeta. inv_ok. subst ws.
  match goal with H : write_all suite_to_html _ = Ok _ |- _ =>
    apply (write_all_count _ suite_rows_of suite_unclosed) in H as [H1 H2]; [|exact suite_rows_count] end.
  match goal with H : write_all example_row _ = Ok _ |- _ =>
    apply (write_all_count _ (fun _ => 1%nat) (fun _ => 0%nat)) in H as [H3 H4];
      [|exact example_row_count] end.
  assert (forall l : list element, sum_list_with (fun _ => 0%nat) l = 0%nat /\
    sum_list_with (fun _ => 1%nat) l = length l) as Hsum.
  { induction l as [|x l [IH1 IH2]]; [done|]. cbn. by rewrite IH1, IH2. }
  rewrite (proj1 (Hsum _)), (proj2 (Hsum _)) in *.
  rewrite !count_writes_cons, !count_writes_app, !count_writes_cons, !count_writes_app, H1, H3.
  count_rows. lia.
Qed.

(** *** A tree with a failing suite and a skipped example *)

Definition leaf (tag text : string) : element :=
  Elem (list_ascii_of_string tag) [] (Some (list_ascii_of_string text)) [].

Definition wit_details : element :=
  Elem ($"FailureDetails") [] None
    [leaf "Message" "m"; leaf "Condition" "c"; leaf "Actual" "1"; leaf "Limit" "2"; leaf "File" "f";
     leaf "Line" "3"].

Definition wit_results : element :=
  Elem ($"Results") [] None
    [Elem ($"Test") [] None
       [leaf "Name" "suite"; leaf "Result" "FAIL"; Elem ($"Time") [($"real", $"0.100")] None [];
        Elem ($"Test") [] None [leaf "Name" "good"; leaf "Result" "PASS"];
        Elem ($"Test") [] None [leaf "Name" "bad"; leaf "Result" "FAIL"; wit_details; wit_details]];
     Elem ($"Example") [] None [leaf "Name" "ex"; leaf "Result" "SKIP"; leaf "Reason" "no reason"]].

Lemma translate_to_html_rows_witness :
  exists ws, translate_to_html wit_results = Ok ws /\
    count_writes TR ws = 4%nat /\ count_writes TR_END ws = 2%nat.
Proof.
  pose proof (translate_to_html_rows wit_results) as H.
  destruct (translate_to_html wit_results) as [ws|e] eqn:E; [|vm_compute in E; discriminate E].
  exists ws. split; [reflexivity|]. destruct (H ws eq_refl) as [H1 H2]. clear E.
  change (sum_list_with suite_rows_of (findall $"Test" wit_results) +
    length (findall $"Example" wit_results))%nat with 4%nat in H1.
  change (sum_list_with suite_unclosed (findall $"Test" wit_results)) with 2%nat in H2.
  split; [exact H1|]. lia.
Defined.

Example text_of_results :
  translate_to_text wit_results =
  Ok [$"FAIL: Test Suite " ++ quote ++ $"suite" ++ quote ++ $" (0.100)" ++ [NL];
      $"PASS: Test Case " ++ quote ++ $"good" ++ quote ++ $" ()" ++ [NL];
      $"FAIL: Test Case " ++ quote ++ $"bad" ++ quote ++ $" ()" ++ [NL];
      $"    Details:" ++ [NL]; $"      Message:   m" ++ [NL]; $"      Condition: c" ++ [NL];
      $"      Actual:    1" ++ [NL]; $"      Limit:     2" ++ [NL]; $"      File:      f" ++ [NL];
      $"      Line:      3" ++ [NL];
      $"    Details:" ++ [NL]; $"      Message:   m" ++ [NL]; $"      Condition: c" ++ [NL];
      $"      Actual:    1" ++ [NL]; $"      Limit:     2" ++ [NL]; $"      File:      f" ++ [NL];
      $"      Line:      3" ++ [NL];
      $"SKIP: Example " ++ quote ++ $"ex" ++ quote ++ $" ()" ++ [NL]].
Proof. vm_compute. reflexivity. Qed.

(** The cell of a skipped example is closed with the wrong tag. *)
Example skipped_example_cell :
  example_row (Elem ($"Example") [] None [leaf "Name" "ex"; leaf "Result" "SKIP"; leaf "Reason" "r"]) =
  Ok [TR; style ($"td") ($"#ff6600") ++ $"SKIP</fd>" ++ [NL]; td ($"ex"); td []; td ($"r"); TR_END].
Proof. vm_compute. reflexivity. Qed.
