(* ===== verification/RunnerScript.v ===== *)
(** * [utils/test-runner-script.py]: every test of the runner, one by one

    The script asks the test runner for its tests, runs each in a pool of processes, and
    keeps the results in a JSON file of [utils].  The commands and the directories of the
    system are parameters, as is JSON; what is printed and the files are the state. *)

From S2P Require Import Prelude PyDict StateM OsPath.

(** A triple of [results]: the name, the output, and whether [error] is [True] or [None]. *)
Abbreviation test_result := (pystr * option pystr * bool)%type.

Record world := { files : gmap pystr pystr; out : pystr }.

Definition set_files (f : gmap pystr pystr -> gmap pystr pystr) (w : world) : world :=
  {| files := f (files w); out := out w |}.
Definition add_out (s : pystr) (w : world) : world := {| files := files w; out := out w ++ s |}.

Section script.
(** Whether a directory can be entered; what a command prints there, [None] when it fails. *)
Variable can_enter : pystr -> bool.
Variable check_output : pystr -> list pystr -> option pystr.
(** Whether a file can be opened for writing. *)
Variable can_write : pystr -> bool.
Variable dumps : list test_result -> pystr.
Variable loads : pystr -> py (list test_result).

(** ** The paths *)

(** [cwd_offset_dict], as an association list: where the root is. *)
Definition cwd_offset_dict (cwd_components : list pystr) : list (pystr * Z) :=
  [($"ns-3-dev", py_len cwd_components); ($"NS3", py_len cwd_components); ($"utils", -1); ($"build", -1); ($"bin", -2);
   ($"src", -1); ($"cmake-cache", -1); ($"cmake-build-debug", -1); ($"cmake-build-release", -1);
   ($"cmake-build-minsizerel", -1); ($"cmake-build-relwithdebinfo", -1)]%Z.

Definition ns3_path (cwd_path : pystr) : py pystr :=
  let cwd_components := split_on "/"%char cwd_path in
  let! last := py_get cwd_components (-1) in
  let! cwd_offset := or_raise KeyError (AList.aget (cwd_offset_dict cwd_components) last) in
  Ok (join $"/" (py_upto cwd_components cwd_offset)).

Definition bin_path (ns3 : pystr) : pystr := join $"/" [ns3; $"build"; []].
Definition utils_path (ns3 : pystr) : pystr := join $"/" [ns3; $"utils"; []].

Definition runner : pystr := $"./" ++ $"utils" ++ $"/" ++ $"test-runner".

(** ** The functions *)

Definition run_test (ns3 : pystr) (test_name : pystr) : test_result :=
  let output :=
    if can_enter (bin_path ns3) then check_output (bin_path ns3) [runner; $"--test-name=" ++ test_name] else None in
  match output with
  | None => (test_name, None, true)
  | Some output =>
      match py_get (split_on NL output) (-2) with
      | Err _ => (test_name, Some output, true)
      | Ok line => (test_name, head (split_on " "%char line), false)
      end
  end.

(** [for result in results: if result[2]: failed_tests[result[0]] = result[1:]] *)
Definition failed_of (results : list test_result) : list (pystr * (option pystr * bool)) :=
  foldl (fun failed r => let '(name, output, error) := r in
           if (error : bool) then AList.aset name (output, error) failed else failed) [] results.

Definition dispatch_tests (ns3 : pystr) (tests : list pystr) : list test_result * list (pystr * (option pystr * bool)) :=
  let results := run_test ns3 <$> tests in (results, failed_of results).

Definition print_results (failed : list (pystr * (option pystr * bool))) (num_tests : nat) : stM world () :=
  mset (add_out ($"Failed tests: " ++ show_N (N.of_nat (length failed)) ++ $" of " ++ show_N (N.of_nat num_tests) ++ [NL])) >>>
  mset (add_out ($" " ++ repr_list failed.*1 ++ [NL])).

Definition dump_results (ns3 : pystr) (results : list test_result) (output_file : pystr) : stM world () :=
  let path := utils_path ns3 ++ output_file in
  mlift (raise_unless (can_write path) OSError) >>> mset (set_files <[path := dumps results]>).

Definition load_previous (ns3 : pystr) (input_file : pystr)
  : stM world (bool * list test_result * list (pystr * (option pystr * bool))) :=
  do! file := mget (fun w => files w !! (utils_path ns3 ++ input_file)) in
  match file with
  | None => mret (false, [], [])
  | Some text => do! previous := mlift (loads text) in mret (true, previous, failed_of previous)
  end.

Definition dumpfile : pystr := $"failed_tests.json".

(** The names the runner prints, one a line. *)
Definition listed_tests (tmp : pystr) : list pystr :=
  py_upto (split_on NL (filter (fun c => c <> "013"%char) tmp)) (-1).

Definition main (ns3 : pystr) : stM world Z :=
  mlift (raise_unless (can_enter (bin_path ns3)) OSError) >>>
  match check_output (bin_path ns3) [runner; $"--list"] with
  | None => mret (-1)%Z
  | Some tmp =>
      let tests := listed_tests tmp in
      do! '(have_previous, previous_results, previously_failed_tests) := load_previous ns3 dumpfile in
      let rerunFailed := false in
      let tests := if rerunFailed && have_previous then (previously_failed_tests : list (pystr * (option pystr * bool))).*1 else tests in
      let '(results, failed_tests) := dispatch_tests ns3 tests in
      print_results failed_tests (length tests) >>>
      dump_results ns3 results dumpfile >>>
      mret (py_len results)
  end.

(** The whole script, in the directory [cwd_path]. *)
Definition script (cwd_path : pystr) : stM world () :=
  do! ns3 := mlift (ns3_path cwd_path) in
  do! retval := main ns3 in
  mset (add_out (show_Z retval ++ [NL])).

End script.

(** ** What the script does *)

Lemma listed_tests_lines names :
  Forall (fun n => NL ∉ n /\ "013"%char ∉ n) names -> listed_tests (names ≫= fun n => n ++ [NL]) = names.
Proof.
  intros Hn. unfold listed_tests.
  assert (split_on NL (filter (fun c => c <> "013"%char) (names ≫= fun n => n ++ [NL])) = names ++ [[]]) as ->.
  { induction Hn as [|n names [Hnl Hcr] _ IH]; [done|]. cbn [mbind list_bind]. rewrite <- app_assoc, !filter_app.
    rewrite list_filter_all by (apply Forall_forall; intros c Hc ->; done).
    change (filter (fun c => c <> "013"%char) [NL]) with [NL]. cbn [app]. rewrite split_on_app by done. by rewrite IH. }
  unfold py_upto, py_bound, py_len. rewrite length_app. cbn [length Z.ltb Z.compare].
  replace (Z.to_nat _) with (length names) by lia. by apply take_app_length'.
Qed.

Lemma failed_of_snoc results r : failed_of (results ++ [r]) =
  if r.2 then AList.aset r.1.1 (r.1.2, r.2) (failed_of results) else failed_of results.
Proof. unfold failed_of. rewrite foldl_snoc. by destruct r as [[name output] error]. Qed.

(** The names of the results with an error, none twice. *)
Lemma failed_of_names results : NoDup (failed_of results).*1 /\
  forall name, name ∈ (failed_of results).*1 <-> exists output, (name, output, true) ∈ results.
Proof.
  induction results as [|[[n o] e] results [Hnd IH]] using rev_ind; [split; [constructor|]; intros name; split; [set_solver|intros [? []%not_elem_of_nil]]|].
  rewrite failed_of_snoc. cbn [fst snd]. destruct e; split; [by apply AList.aset_nodup| |done|].
  - intros name. rewrite AList.aset_keys, IH. setoid_rewrite elem_of_app. setoid_rewrite list_elem_of_singleton. naive_solver.
  - intros name. rewrite IH. setoid_rewrite elem_of_app. setoid_rewrite list_elem_of_singleton. naive_solver.
Qed.

Section spec.
Variable can_enter : pystr -> bool.
Variable check_output : pystr -> list pystr -> option pystr.
Variable ns3 : pystr.

(** A test passes when its run succeeds and prints a whole line. *)
Definition passes (name : pystr) : Prop :=
  exists text, can_enter (bin_path ns3) = true /\
    check_output (bin_path ns3) [runner; $"--test-name=" ++ name] = Some text /\ NL ∈ text.

Lemma last_line u line rest : NL ∉ line -> NL ∉ rest ->
  py_get (split_on NL (u ++ NL :: line ++ NL :: rest)) (-2) = Ok line /\
  py_get (split_on NL (line ++ NL :: rest)) (-2) = Ok line.
Proof.
  intros Hl Hr. rewrite split_on_app_sep. rewrite (split_on_app NL line) by done. rewrite (split_on_no NL rest) by done.
  split; [|done]. unfold py_get, py_len. rewrite length_app. cbn [length Z.ltb Z.compare].
  rewrite (proj2 (Z.leb_le _ _)), (proj2 (Z.ltb_lt _ _)) by lia. cbn [andb].
  replace (Z.to_nat _) with (length (split_on NL u) + 0) by lia. by rewrite lookup_app_r, Nat.add_comm, Nat.add_sub by lia.
Qed.

Lemma run_test_passes name : (run_test can_enter check_output ns3 name).1.1 = name /\
  ((run_test can_enter check_output ns3 name).2 = true <-> ~ passes name).
Proof.
  unfold run_test, passes. destruct (can_enter (bin_path ns3)); [|split; [done|]; split; [|done]; by intros _ (? & ? & _)].
  destruct (check_output _ _) as [text|] eqn:E; [|split; [done|]; split; [|done]; by intros _ (? & _ & ? & _)].
  unfold py_get, py_len. cbn [Z.ltb Z.compare]. destruct (decide (NL ∈ text)) as [Hin|Hno].
  - apply list_elem_of_split in Hin as Hs. destruct Hs as (a & b & ->). rewrite split_on_app_sep, length_app.
    assert (1 <= length (split_on NL a) /\ 1 <= length (split_on NL b)) as [Ha Hb].
    { split; [pose proof (split_on_nonempty NL a)|pose proof (split_on_nonempty NL b)]; by destruct (split_on NL _); cbn; [|lia]. }
    rewrite (proj2 (Z.leb_le _ _)), (proj2 (Z.ltb_lt _ _)) by lia. cbn [andb].
    destruct (lookup_lt_is_Some_2 (split_on NL a ++ split_on NL b) (Z.to_nat (-2 + Z.of_nat (length (split_on NL a) + length (split_on NL b))))) as [line ->];
      [rewrite length_app; lia|]. cbn. split; [done|]. split; [done|]. intros Hf. exfalso. apply Hf. eauto.
  - rewrite split_on_no by done. cbn. split; [done|]. split; [|done]. intros _ (text' & _ & E' & Hin). congruence.
Qed.

End spec.

Section script_spec.
Variable can_enter : pystr -> bool.
Variable check_output : pystr -> list pystr -> option pystr.
Variable can_write : pystr -> bool.
Variable dumps : list test_result -> pystr.
Variable loads : pystr -> py (list test_result).

(** From the directory of the tree or one below it: every test that the runner lists is run
    once, in order; the results are dumped and loaded again; and the tests said to have failed
    are, once each, those that do not pass. *)
Theorem runner_script_spec cwd ns3 names w :
  let results := run_test can_enter check_output ns3 <$> names in
  let failed := failed_of results in
  let dump := utils_path ns3 ++ dumpfile in
  let w' := {| files := <[dump := dumps results]> (files w);
               out := out w ++ $"Failed tests: " ++ show_N (N.of_nat (length failed)) ++ $" of " ++
                      show_N (N.of_nat (length names)) ++ [NL] ++ $" " ++ repr_list failed.*1 ++ [NL] ++
                      show_N (N.of_nat (length names)) ++ [NL] |} in
  ns3_path cwd = Ok ns3 -> can_enter (bin_path ns3) = true -> can_write dump = true ->
  check_output (bin_path ns3) [runner; $"--list"] = Some (names ≫= fun n => n ++ [NL]) ->
  Forall (fun n => NL ∉ n /\ "013"%char ∉ n) names ->
  (forall text, files w !! dump = Some text -> is_ok (loads text) = true) ->
  loads (dumps results) = Ok results ->
  script can_enter check_output can_write dumps loads cwd w = (w', Ok tt) /\
  load_previous loads ns3 dumpfile w' = (w', Ok (true, results, failed)) /\
  NoDup failed.*1 /\
  forall name, name ∈ failed.*1 <-> name ∈ names /\ ~ passes can_enter check_output ns3 name.
Proof.
  intros results failed dump w' Hns Hen Hwr Hlist Hnames Hold Hjson. split; [|split; [|split]].
  - unfold script, main, gbind, mlift. rewrite Hns, Hen, Hlist. cbn [raise_unless].
    assert (exists x, load_previous loads ns3 dumpfile w = (w, Ok x)) as [[[h p] f] El].
    { unfold load_previous, gbind, mget, mlift. cbn. destruct (files w !! _) as [text|]; [|by eexists].
      specialize (Hold text eq_refl). destruct (loads text); [|done]. by eexists. }
    rewrite El. cbn [andb]. rewrite listed_tests_lines by done. unfold dispatch_tests, print_results, dump_results, gbind, mset, mlift, mret.
    fold results failed. change (utils_path ns3 ++ dumpfile) with dump. rewrite Hwr. cbn [raise_unless].
    assert (show_Z (py_len results) = show_N (N.of_nat (length names))) as ->.
    { unfold show_Z, py_len, results. rewrite length_fmap, (proj2 (Z.ltb_ge _ _)) by lia. by rewrite <- nat_N_Z, N2Z.id. }
    f_equal. unfold w', add_out, set_files. cbn [files out]. f_equal. by rewrite <- !app_assoc.
  - unfold load_previous, gbind, mget, mlift, mret. cbn [files w']. by rewrite lookup_insert_eq, Hjson.
  - apply failed_of_names.
  - intros name. unfold failed. rewrite (proj2 (failed_of_names results)). split.
    + intros (output & (n & E & Hn)%list_elem_of_fmap). destruct (run_test_passes can_enter check_output ns3 n) as [H1 H2].
      rewrite <- E in H1, H2. cbn in H1, H2. subst n. split; [done|]. by apply H2.
    + intros [Hn Hp]. destruct (run_test_passes can_enter check_output ns3 name) as [H1 H2%proj2]. specialize (H2 Hp).
      exists (run_test can_enter check_output ns3 name).1.2. apply list_elem_of_fmap. exists name. split; [|done].
      destruct (run_test _ _ _ _) as [[n o] e]. cbn in *. by subst.
Qed.

End script_spec.

(** ** Three tests *)

Definition demo_cwd : pystr := $"/home/u/ns-3-dev/utils".
Definition demo_names : list pystr := [$"aodv"; $"dsr"; $"olsr"].

(** [aodv] passes, [dsr] fails, [olsr] prints no whole line. *)
Definition demo_output (dir : pystr) (argv : list pystr) : option pystr :=
  match argv with
  | [_; arg] =>
      if decide (arg = $"--list") then Some (demo_names ≫= fun n => n ++ [NL])
      else if decide (arg = $"--test-name=aodv") then Some ($"PASS aodv 0.120 s" ++ [NL])
      else if decide (arg = $"--test-name=olsr") then Some $"killed" else None
  | _ => None
  end.

(** A concrete format of the results. *)
Definition demo_dumps (l : list test_result) : pystr := show_N (N.pos (encode l)).
Definition demo_loads (s : pystr) : py (list test_result) :=
  let! n := int_of_digits s in
  match n with N0 => Err ValueError | N.pos p => or_raise ValueError (decode p) end.

Lemma demo_json l : demo_loads (demo_dumps l) = Ok l.
Proof. unfold demo_loads, demo_dumps. rewrite int_of_show_N. cbn [rbind]. by rewrite decode_encode. Qed.

Example demo_results : run_test (fun _ => true) demo_output $"/home/u/ns-3-dev" <$> demo_names =
  [($"aodv", Some $"PASS", false); ($"dsr", None, true); ($"olsr", Some $"killed", true)].
Proof. by vm_compute. Qed.

(** From the directory of another name the script raises. *)
Example other_directory : ns3_path $"/home/u/ns-3.36" = Err KeyError /\ ns3_path $"/home/u/NS3" = Ok $"/home/u/NS3" /\
  ns3_path $"/home/u/ns-3-dev/build/bin" = Ok $"/home/u/ns-3-dev".
Proof. by vm_compute. Qed.

Lemma runner_script_spec_witness :
  (script (fun _ => true) demo_output (fun _ => true) demo_dumps demo_loads demo_cwd {| files := ∅; out := [] |}).2 = Ok tt /\
  $"olsr" ∈ (failed_of (run_test (fun _ => true) demo_output $"/home/u/ns-3-dev" <$> demo_names)).*1.
Proof.
  destruct (runner_script_spec (fun _ => true) demo_output (fun _ => true) demo_dumps demo_loads demo_cwd
    $"/home/u/ns-3-dev" demo_names {| files := ∅; out := [] |}) as (-> & _ & _ & Hf); [by vm_compute|done|done|by vm_compute| | |apply demo_json|].
  - repeat constructor; by apply (bool_decide_unpack _).
  - intros text Ht. cbn in Ht. discriminate Ht.
  - split; [done|]. apply Hf. split; [by right; right; left|]. intros (text & _ & E & Hin). vm_compute in E. injection E as <-.
    revert Hin. by apply (bool_decide_unpack _).
Defined.
