(* ===== verification/FlowMon.v ===== *)
(** * [src/flow-monitor/examples/flowmon-parse-results.py]: the flows of an XML report

    The script reads the report that the flow monitor of a simulation writes, and prints
    the rates, the delay and the losses of each flow.  It is Python 2 code.  The flows are
    shared by the list [flows] and the dictionary [flow_map]: the list is the store, and
    the dictionary has positions in it. *)

From Stdlib Require Import QArith Qround Qabs Lqa.
From S2P Require Import Prelude StateM OsPath ElementTree PyFloat.

(** ** Numbers in texts *)

(** [isspace] of C *)
Definition c_space (c : ascii) : bool :=
  bool_decide (c ∈ [" "; "009"; "010"; "011"; "012"; "013"]%char).

Definition c_strip (s : pystr) : pystr :=
  reverse (snd (span c_space (reverse (snd (span c_space s))))).

(** Whether there is a minus sign, and what follows the sign. *)
Definition read_sign (s : pystr) : bool * pystr :=
  match s with
  | "-"%char :: s => (true, s)
  | "+"%char :: s => (false, s)
  | _ => (false, s)
  end.

Definition signed (minus : bool) (n : N) : Z := if minus then (- Z.of_N n)%Z else Z.of_N n.

(** [int(s)] and [long(s)] of Python 2; only [long] takes an [L] at the end. *)
Definition py2_int (s : pystr) : py Z :=
  let '(minus, s) := read_sign (c_strip s) in
  let! n := int_of_digits (snd (span c_space s)) in Ok (signed minus n).

Definition py2_long (s : pystr) : py Z :=
  let '(minus, s) := read_sign (c_strip s) in
  let '(ds, s) := span is_digit (snd (span c_space s)) in
  match s with
  | [] | ["l"%char] | ["L"%char] => let! n := int_of_digits ds in Ok (signed minus n)
  | _ => Err ValueError
  end.

(** A float: a rational, or one of those that are no number. *)
Inductive num := Fin (q : Q) | Inf (minus : bool) | NaN.

(** What follows [e] or [E] in a float. *)
Definition read_exponent (s : pystr) : py Z :=
  match s with
  | [] => Ok 0%Z
  | c :: s =>
      if decide (c ∈ ["e"; "E"]%char) then
        let '(minus, s) := read_sign s in let! n := int_of_digits s in Ok (signed minus n)
      else Err ValueError
  end.

(** [float(s)] *)
Definition py_float (s : pystr) : py num :=
  let '(minus, s) := read_sign (c_strip s) in
  if decide (str_upper s ∈ [$"INF"; $"INFINITY"]) then Ok (Inf minus)
  else if decide (str_upper s = $"NAN") then Ok NaN
  else
    let '(whole, s) := span is_digit s in
    let '(fraction, s) := match s with "."%char :: s => span is_digit s | _ => ([], s) end in
    let! m := int_of_digits (whole ++ fraction) in
    let! e := read_exponent s in
    Ok (Fin (inject_Z (signed minus m) * q10 (e - Z.of_nat (length fraction)))%Q).

Definition num_of_Z (z : Z) : num := Fin (inject_Z z).

Definition num_add (x y : num) : num :=
  match x, y with
  | Fin a, Fin b => Fin (a + b)
  | NaN, _ | _, NaN => NaN
  | Inf a, Inf b => if Bool.eqb a b then Inf a else NaN
  | Inf a, Fin _ | Fin _, Inf a => Inf a
  end.

(** By a positive literal. *)
Definition num_scale (x : num) (k : Q) : num :=
  match x with Fin a => Fin (a * k) | _ => x end.

Definition num_div (x y : num) : py num :=
  match x, y with
  | _, Fin b =>
      if Qeq_bool b 0 then Err ZeroDivisionError
      else Ok (match x with
               | Fin a => Fin (a / b)
               | Inf a => Inf (xorb a (negb (Qle_bool 0 b)))
               | NaN => NaN
               end)
  | Fin _, Inf _ => Ok (Fin 0)
  | _, _ => Ok NaN
  end.

(** ["%.2f" % x] *)
Definition show_num (x : num) : pystr :=
  match x with
  | Fin q => show_fixed 2 q
  | Inf minus => if minus then $"-inf" else $"inf"
  | NaN => $"nan"
  end.

(** ** The classes *)

(** [el.get(k)], by a function that wants a string; [el.get(k)[:-4]]. *)
Definition attr (k : pystr) (el : element) : py pystr := or_raise TypeError (get_attrib k el).
Definition cut (s : pystr) : pystr := py_upto s (-4).
Definition int_attr k el : py Z := let! s := attr k el in py2_int s.
Definition long_attr k el : py Z := let! s := attr k el in py2_long s.
Definition float_attr k el : py num := let! s := attr k el in py_float s.
Definition time_attr k el : py Z := let! s := attr k el in py2_long (cut s).

Definition parse_time_ns (tm : pystr) : py Z :=
  if endswith tm $"ns" then py2_long (cut tm) else Err ValueError.

Record FiveTuple := {
  sourceAddress : option pystr; destinationAddress : option pystr; protocol : Z;
  sourcePort : Z; destinationPort : Z
}.

Definition FiveTuple_init (el : element) : py FiveTuple :=
  let! sp := int_attr $"sourcePort" el in
  let! dp := int_attr $"destinationPort" el in
  let! pr := int_attr $"protocol" el in
  Ok {| sourceAddress := get_attrib $"sourceAddress" el; destinationAddress := get_attrib $"destinationAddress" el;
        protocol := pr; sourcePort := sp; destinationPort := dp |}.

(** The attribute [bins] of a [Histogram]; the others are never assigned. *)
Definition Histogram_init (el : element) : py (list (num * num * Z)) :=
  for_each (fun bins bin =>
    let! start := float_attr $"start" bin in
    let! width := float_attr $"width" bin in
    let! count := int_attr $"count" bin in
    Ok (bins ++ [(start, width, count)])) (findall $"bin" el) [].

Record ProbeFlowStats := { probeId : Z; packets : Z; bytes : Z; delayFromFirstProbe : num }.

(** [fiveTuple] is [None] while the attribute is not assigned. *)
Record Flow := {
  flowId : Z; delayMean : option num; packetLossRatio : option num;
  rxBitrate : option Q; txBitrate : option Q; fiveTuple : option FiveTuple;
  packetSizeMean : option num; probe_stats_unsorted : list ProbeFlowStats; hopCount : num;
  flowInterruptionsHistogram : option (list (num * num * Z)); rx_duration : Q
}.

(** [float(a - b) * 1e-9] *)
Definition duration (last first : Z) : Q := (inject_Z (last - first) * (1 # 1000000000))%Q.

(** [long(flow_el.get(k))*8 / duration], if that is positive. *)
Definition bitrate (k : pystr) (el : element) (d : Q) : py (option Q) :=
  if Qle_bool d 0 then Ok None
  else let! b := long_attr k el in Ok (Some (inject_Z (b * 8) / d)%Q).

Definition Flow_init (flow_el : element) : py Flow :=
  let! id := int_attr $"flowId" flow_el in
  let! rxPackets := long_attr $"rxPackets" flow_el in
  let! txPackets := long_attr $"txPackets" flow_el in
  let! lastTx := time_attr $"timeLastTxPacket" flow_el in
  let! firstTx := time_attr $"timeFirstTxPacket" flow_el in
  let! lastRx := time_attr $"timeLastRxPacket" flow_el in
  let! firstRx := time_attr $"timeFirstRxPacket" flow_el in
  let tx_duration := duration lastTx firstTx in
  let rx_duration := duration lastRx firstRx in
  let! hopCount :=
    (if decide (rxPackets = 0%Z) then Ok (num_of_Z (-1000))
     else let! f := float_attr $"timesForwarded" flow_el in
          let! h := num_div f (num_of_Z rxPackets) in Ok (num_add h (num_of_Z 1))) in
  let! '(delayMean, packetSizeMean) :=
    (if decide (rxPackets = 0%Z) then Ok (None, None)
     else let! s := attr $"delaySum" flow_el in
          let! sum := py_float (cut s) in
          let! d := num_div sum (num_of_Z rxPackets) in
          let! b := float_attr $"rxBytes" flow_el in
          let! m := num_div b (num_of_Z rxPackets) in
          Ok (Some (num_scale d (1 # 1000000000)), Some m)) in
  let! rxBitrate := bitrate $"rxBytes" flow_el rx_duration in
  let! txBitrate := bitrate $"txBytes" flow_el tx_duration in
  let! lost := float_attr $"lostPackets" flow_el in
  let! packetLossRatio :=
    (if decide (rxPackets = 0%Z) then Ok None
     else let! r := num_div lost (num_add (num_of_Z rxPackets) lost) in Ok (Some r)) in
  let! histogram :=
    match find $"flowInterruptionsHistogram" flow_el with
    | None => Ok None
    | Some interrupt_hist_elem => let! h := Histogram_init interrupt_hist_elem in Ok (Some h)
    end in
  Ok {| flowId := id; delayMean := delayMean; packetLossRatio := packetLossRatio;
        rxBitrate := rxBitrate; txBitrate := txBitrate; fiveTuple := None;
        packetSizeMean := packetSizeMean; probe_stats_unsorted := []; hopCount := hopCount;
        flowInterruptionsHistogram := histogram; rx_duration := rx_duration |}.

Definition set_fiveTuple (t : FiveTuple) (f : Flow) : Flow :=
  {| flowId := flowId f; delayMean := delayMean f; packetLossRatio := packetLossRatio f;
     rxBitrate := rxBitrate f; txBitrate := txBitrate f; fiveTuple := Some t;
     packetSizeMean := packetSizeMean f; probe_stats_unsorted := probe_stats_unsorted f; hopCount := hopCount f;
     flowInterruptionsHistogram := flowInterruptionsHistogram f; rx_duration := rx_duration f |}.

Definition add_probe_stats (s : ProbeFlowStats) (f : Flow) : Flow :=
  {| flowId := flowId f; delayMean := delayMean f; packetLossRatio := packetLossRatio f;
     rxBitrate := rxBitrate f; txBitrate := txBitrate f; fiveTuple := fiveTuple f;
     packetSizeMean := packetSizeMean f; probe_stats_unsorted := probe_stats_unsorted f ++ [s]; hopCount := hopCount f;
     flowInterruptionsHistogram := flowInterruptionsHistogram f; rx_duration := rx_duration f |}.

(** ** [Simulation] *)

(** The flows, and [flow_map]. *)
Abbreviation sim_state := (list Flow * gmap Z nat)%type.

Definition add_flow (st : sim_state) (flow_el : element) : py sim_state :=
  let! flow := Flow_init flow_el in
  Ok (st.1 ++ [flow], <[flowId flow := length st.1]> st.2).

(** [flow_map[flowId]] is changed by [f]. *)
Definition update_flow (f : Flow -> Flow) (id : Z) (st : sim_state) : py sim_state :=
  let! i := or_raise KeyError (st.2 !! id) in Ok (alter f i st.1, st.2).

Definition add_tuple (st : sim_state) (flow_cls : element) : py sim_state :=
  let! id := int_attr $"flowId" flow_cls in
  let! t := FiveTuple_init flow_cls in
  update_flow (set_fiveTuple t) id st.

Definition add_stats (probe : Z) (st : sim_state) (stats : element) : py sim_state :=
  let! id := int_attr $"flowId" stats in
  let! p := int_attr $"packets" stats in
  let! b := long_attr $"bytes" stats in
  let! d :=
    (if Z.ltb 0 p then
       let! tm := or_raise AttributeError (get_attrib $"delayFromFirstProbeSum" stats) in
       let! sum := parse_time_ns tm in num_div (num_of_Z sum) (num_of_Z p)
     else Ok (num_of_Z 0)) in
  update_flow (add_probe_stats {| probeId := probe; packets := p; bytes := b; delayFromFirstProbe := d |}) id st.

Definition add_probe (st : sim_state) (probe_elem : element) : py sim_state :=
  let! probe := int_attr $"index" probe_elem in
  for_each (add_stats probe) (findall $"FlowStats" probe_elem) st.

(** [el.findall('a/b')] *)
Definition findall2 (a b : pystr) (el : element) : list element := findall a el ≫= findall b.

(** The attribute [flows] of a [Simulation]. *)
Definition Simulation_init (simulation_el : element) : py (list Flow) :=
  match findall $"Ipv4FlowClassifier" simulation_el with
  | [FlowClassifier_el] =>
      let! st := for_each add_flow (findall2 $"FlowStats" $"Flow" simulation_el) ([], ∅) in
      let! st := for_each add_tuple (findall $"Flow" FlowClassifier_el) st in
      let! st := for_each add_probe (findall2 $"FlowProbes" $"FlowProbe" simulation_el) st in
      Ok st.1
  | _ => Err ValueError
  end.

(** ** [main] *)

(** The standard output, and its attribute [softspace]. *)
Definition stdout : Type := pystr * bool.

Definition write (s : pystr) : stM stdout () := mset (fun o : stdout => (o.1 ++ s, false)).

(** [print s,]: a space comes before the next item, unless [s] ends in another space. *)
Definition print_item (s : pystr) : stM stdout () := mset (fun o : stdout =>
  (o.1 ++ (if o.2 then $" " else []) ++ s,
   match last s with Some c => negb (c_space c) || bool_decide (c = " "%char) | None => true end)).

Definition print (s : pystr) : stM stdout () := print_item s >>> write [NL].

(** [proto[t.protocol]] *)
Definition proto_name (p : Z) : py pystr :=
  if decide (p = 6%Z) then Ok $"TCP" else if decide (p = 17%Z) then Ok $"UDP" else Err KeyError.

Definition str_or_None (s : option pystr) : pystr := default $"None" s.

(** A line: its name, and the value with its unit. *)
Definition print_value {A} (name unit : pystr) (show : A -> pystr) (v : option A) : stM stdout () :=
  print ("009"%char :: name ++ $": " ++ match v with None => $"None" | Some x => show x ++ $" " ++ unit end).

Definition print_flow (flow : Flow) : stM stdout () :=
  do! t := mlift (or_raise AttributeError (fiveTuple flow)) in
  do! proto := mlift (proto_name (protocol t)) in
  print ($"FlowID: " ++ show_Z (flowId flow) ++ $" (" ++ proto ++ $" " ++ str_or_None (sourceAddress t) ++ $"/" ++
         show_Z (sourcePort t) ++ $" --> " ++ str_or_None (destinationAddress t) ++ $"/" ++ show_Z (destinationPort t) ++ $")") >>>
  print_value $"TX bitrate" $"kbit/s" (fun q => show_fixed 2 (q * (1 # 1000))%Q) (txBitrate flow) >>>
  print_value $"RX bitrate" $"kbit/s" (fun q => show_fixed 2 (q * (1 # 1000))%Q) (rxBitrate flow) >>>
  print_value $"Mean Delay" $"ms" (fun x => show_num (num_scale x 1000)) (delayMean flow) >>>
  print_value $"Packet Loss Ratio" $"%" (fun x => show_num (num_scale x 100)) (packetLossRatio flow).

(** What [iterparse] gives: the element, at its start or its end. *)
Inductive event := StartEvent (elem : element) | EndEvent (elem : element).

Fixpoint iterparse (e : element) {struct e} : list event :=
  let '(Elem _ _ _ children) := e in
  StartEvent e :: (fix go (l : list element) : list event :=
                match l with [] => [] | c :: l => iterparse c ++ go l end) children ++ [EndEvent e].

(** One event; the level and [sim_list]. *)
Definition on_event (st : Z * list (list Flow)) (ev : event) : stM stdout (Z * list (list Flow)) :=
  match ev with
  | StartEvent _ => mret (st.1 + 1, st.2)%Z
  | EndEvent elem =>
      let level := (st.1 - 1)%Z in
      if decide (level = 0%Z /\ elem_tag elem = $"FlowMonitor") then
        do! sim := mlift (Simulation_init elem) in
        write $"." >>> mret (level, st.2 ++ [sim])
      else mret (level, st.2)
  end.

(** The events of the file, and what the parser raises after them. *)
Definition main (events : list event) (parser_end : py ()) : stM stdout () :=
  print_item $"Reading XML file " >>>
  do! st := mfold on_event (0%Z, []) events in
  mlift parser_end >>>
  print $" done." >>>
  mfor (mfor print_flow) st.2.

(** ** Reading numbers back *)

Definition plain (s : pystr) : Prop := Forall (fun c => c_space c = false) s.

Lemma span_plain s : plain s -> span c_space s = ([], s).
Proof. intros Hs. destruct Hs as [|c s Hc _]; [done|]. cbn. by rewrite Hc. Qed.

Lemma c_strip_plain s : plain s -> c_strip s = s.
Proof.
  intros Hs. unfold c_strip. rewrite (span_plain s Hs). cbn [snd].
  rewrite span_plain by (unfold plain; by rewrite Forall_reverse). apply reverse_involutive.
Qed.

Lemma digit_plain c : is_digit c = true -> c_space c = false.
Proof. by destruct c as [[] [] [] [] [] [] [] []]. Qed.

Lemma show_N_plain_text n : plain (show_N n).
Proof. eapply Forall_impl; [apply show_N_digits|]. intros c. apply digit_plain. Qed.

Lemma read_sign_digits n : read_sign (show_N n) = (false, show_N n).
Proof.
  pose proof (show_N_digits n) as Hd. pose proof (show_N_nonempty n). destruct (show_N n) as [|c s]; [done|].
  apply Forall_cons in Hd as [Hc _]. by destruct c as [[] [] [] [] [] [] [] []].
Qed.

Lemma py2_int_show n : py2_int (show_N n) = Ok (Z.of_N n).
Proof.
  unfold py2_int. rewrite c_strip_plain, read_sign_digits by apply show_N_plain_text.
  rewrite span_plain by apply show_N_plain_text. cbn [snd]. by rewrite int_of_show_N.
Qed.

Lemma span_digits n : span is_digit (show_N n) = (show_N n, []).
Proof. rewrite <- (app_nil_r (show_N n)) at 1. by apply span_app; [apply show_N_digits|]. Qed.

Lemma py2_long_show n : py2_long (show_N n) = Ok (Z.of_N n).
Proof.
  unfold py2_long. rewrite c_strip_plain, read_sign_digits by apply show_N_plain_text.
  rewrite span_plain by apply show_N_plain_text. cbn [snd].
  by rewrite span_digits, int_of_show_N.
Qed.

Lemma py2_long_plus n : py2_long ("+"%char :: show_N n) = Ok (Z.of_N n).
Proof.
  unfold py2_long. rewrite c_strip_plain by (constructor; [done|apply show_N_plain_text]). cbn [read_sign].
  rewrite span_plain by apply show_N_plain_text. cbn [snd].
  by rewrite span_digits, int_of_show_N.
Qed.

(** Numbers of one value. *)
Definition num_eq (x : num) (q : Q) : Prop := match x with Fin a => (a == q)%Q | _ => False end.

Lemma upper_digits c s : is_digit c = true -> str_upper (c :: s) ∉ [$"INF"; $"INFINITY"] /\ str_upper (c :: s) <> $"NAN".
Proof.
  intros Hc. unfold str_upper. cbn [fmap list_fmap]. rewrite !list.not_elem_of_cons.
  destruct c as [[] [] [] [] [] [] [] []]; try discriminate Hc; (repeat split; [discriminate..|apply not_elem_of_nil|discriminate]).
Qed.

Lemma py_float_read s n : read_sign (c_strip s) = (false, show_N n) ->
  exists x, py_float s = Ok x /\ num_eq x (inject_Z (Z.of_N n)).
Proof.
  intros E. unfold py_float. rewrite E. pose proof (show_N_digits n) as Hd. pose proof (show_N_nonempty n) as Hne.
  destruct (show_N n) as [|c r] eqn:En; [done|]. apply Forall_cons in Hd as [Hc _].
  destruct (upper_digits c r Hc) as [H1 H2]. rewrite !decide_False by done. rewrite <- En.
  rewrite span_digits, app_nil_r, int_of_show_N. cbn [rbind read_exponent]. eexists. split; [done|]. cbn [num_eq length]. unfold signed. rewrite q10_nonneg by done. change (inject_Z (10 ^ (0 - Z.of_nat 0)))%Q with 1%Q. ring.
Qed.

Lemma py_float_show n : exists x, py_float (show_N n) = Ok x /\ num_eq x (inject_Z (Z.of_N n)).
Proof. apply py_float_read. rewrite c_strip_plain by apply show_N_plain_text. apply read_sign_digits. Qed.

Lemma py_float_plus n : exists x, py_float ("+"%char :: show_N n) = Ok x /\ num_eq x (inject_Z (Z.of_N n)).
Proof. apply py_float_read. by rewrite c_strip_plain by (constructor; [done|apply show_N_plain_text]). Qed.

Lemma cut_app s t : length t = 4%nat -> cut (s ++ t) = s.
Proof.
  intros Ht. unfold cut, py_upto, py_bound, py_len. rewrite length_app, Ht. cbn [Z.ltb Z.compare].
  replace (Z.to_nat (Z.max 0 (-4 + Z.of_nat (length s + 4)))) with (length s) by lia. by apply take_app_length'.
Qed.

(** ** The report

    What the monitor counts of a flow: times are nanoseconds. *)

Record flow_stats := {
  fs_id : N; first_tx : N; last_tx : N; first_rx : N; last_rx : N; delay_sum : N; jitter_sum : N; last_delay : N;
  tx_bytes : N; rx_bytes : N; tx_packets : N; rx_packets : N; lost_packets : N; forwarded : N;
  tcp : bool; source : pystr; destination : pystr; source_port : N; destination_port : N
}.

(** The counts of a flow at a probe: its id, packets, bytes, delay. *)
Abbreviation probe_count := (N * N * N * N)%type.

Section report.
Variable time : N -> pystr.

Definition flow_elem (f : flow_stats) : element :=
  Elem $"Flow" [($"flowId", show_N (fs_id f)); ($"timeFirstTxPacket", time (first_tx f));
    ($"timeFirstRxPacket", time (first_rx f)); ($"timeLastTxPacket", time (last_tx f));
    ($"timeLastRxPacket", time (last_rx f)); ($"delaySum", time (delay_sum f)); ($"jitterSum", time (jitter_sum f));
    ($"lastDelay", time (last_delay f)); ($"txBytes", show_N (tx_bytes f)); ($"rxBytes", show_N (rx_bytes f));
    ($"txPackets", show_N (tx_packets f)); ($"rxPackets", show_N (rx_packets f));
    ($"lostPackets", show_N (lost_packets f)); ($"timesForwarded", show_N (forwarded f))] None [].

Definition tuple_elem (f : flow_stats) : element :=
  Elem $"Flow" [($"flowId", show_N (fs_id f)); ($"sourceAddress", source f); ($"destinationAddress", destination f);
    ($"protocol", if tcp f then $"6" else $"17"); ($"sourcePort", show_N (source_port f));
    ($"destinationPort", show_N (destination_port f))] None [].

Definition count_elem (c : probe_count) : element :=
  let '(id, p, b, d) := c in
  Elem $"FlowStats" [($"flowId", show_N id); ($"packets", show_N p); ($"bytes", show_N b);
                     ($"delayFromFirstProbeSum", time d)] None [].

Definition probe_elem (p : N * list probe_count) : element :=
  Elem $"FlowProbe" [($"index", show_N p.1)] None (count_elem <$> p.2).

Definition xml_report (fs : list flow_stats) (probes : list (N * list probe_count)) : element :=
  Elem $"FlowMonitor" [] None
    [Elem $"FlowStats" [] None (flow_elem <$> fs); Elem $"Ipv4FlowClassifier" [] None (tuple_elem <$> fs);
     Elem $"Ipv6FlowClassifier" [] None []; Elem $"FlowProbes" [] None (probe_elem <$> probes)].

End report.

(** The format of times of the documentation. *)
Definition doc_time (t : N) : pystr := $"+" ++ show_N t ++ $".0ns".

(** ** What is printed of a flow *)

Definition QN (n : N) : Q := inject_Z (Z.of_N n).

(** In kbit/s, ms and percent. *)
Definition kbits (bytes first last : N) : option Q :=
  if (first <? last)%N then Some (QN (8 * bytes * 1000000) / QN (last - first))%Q else None.
Definition mean_delay (f : flow_stats) : option Q :=
  if (rx_packets f =? 0)%N then None else Some (QN (delay_sum f) / QN (rx_packets f * 1000000))%Q.
Definition loss (f : flow_stats) : option Q :=
  if (rx_packets f =? 0)%N then None else Some (QN (100 * lost_packets f) / QN (rx_packets f + lost_packets f))%Q.

Definition with_unit (unit : pystr) (q : option Q) : pystr :=
  match q with Some q => show_fixed 2 q ++ $" " ++ unit | None => $"None" end.

Definition TAB : pystr := ["009"%char].

Definition flow_text (f : flow_stats) : pystr :=
  mjoin ((fun l => l ++ [NL]) <$>
    [$"FlowID: " ++ show_N (fs_id f) ++ $" (" ++ (if tcp f then $"TCP" else $"UDP") ++ $" " ++ source f ++ $"/" ++
       show_N (source_port f) ++ $" --> " ++ destination f ++ $"/" ++ show_N (destination_port f) ++ $")";
     TAB ++ $"TX bitrate: " ++ with_unit $"kbit/s" (kbits (tx_bytes f) (first_tx f) (last_tx f));
     TAB ++ $"RX bitrate: " ++ with_unit $"kbit/s" (kbits (rx_bytes f) (first_rx f) (last_rx f));
     TAB ++ $"Mean Delay: " ++ with_unit $"ms" (mean_delay f);
     TAB ++ $"Packet Loss Ratio: " ++ with_unit $"%" (loss f)]).

Definition tuple_of (f : flow_stats) : FiveTuple :=
  {| sourceAddress := Some (source f); destinationAddress := Some (destination f); protocol := if tcp f then 6%Z else 17%Z;
     sourcePort := Z.of_N (source_port f); destinationPort := Z.of_N (destination_port f) |}.

(** A [Flow] made of [f], its [fiveTuple] assigned or not. *)
Record flow_reads (assigned : bool) (f : flow_stats) (F : Flow) : Prop := {
  fr_id : flowId F = Z.of_N (fs_id f);
  fr_tuple : fiveTuple F = if assigned then Some (tuple_of f) else None;
  fr_tx : option_Forall2 (fun q r => q * (1 # 1000) == r)%Q (txBitrate F) (kbits (tx_bytes f) (first_tx f) (last_tx f));
  fr_rx : option_Forall2 (fun q r => q * (1 # 1000) == r)%Q (rxBitrate F) (kbits (rx_bytes f) (first_rx f) (last_rx f));
  fr_delay : option_Forall2 (fun x r => num_eq (num_scale x 1000) r) (delayMean F) (mean_delay f);
  fr_loss : option_Forall2 (fun x r => num_eq (num_scale x 100) r) (packetLossRatio F) (loss f)
}.

(** ** Printing *)

Lemma print_eq s o : print s (o, false) = ((o ++ s ++ [NL], false), Ok tt).
Proof. unfold print, print_item, write, gbind, mset. cbn. by rewrite <- app_assoc. Qed.

Lemma print_value_eq {A} (R : A -> Q -> Prop) name unit (show : A -> pystr) (v : option A) (r : option Q) o :
  (forall x q, R x q -> show x = show_fixed 2 q) -> option_Forall2 R v r ->
  print_value name unit show v (o, false) = ((o ++ (TAB ++ name ++ $": " ++ with_unit unit r) ++ [NL], false), Ok tt).
Proof. intros Hs Hv. unfold print_value. rewrite print_eq. destruct Hv as [x q H|]; [by rewrite (Hs x q H)|done]. Qed.

Lemma show_num_eq x q : num_eq x q -> show_num x = show_fixed 2 q.
Proof. destruct x; [|done..]. cbn. by intros ->. Qed.

Lemma show_Z_N n : show_Z (Z.of_N n) = show_N n.
Proof. unfold show_Z. rewrite (proj2 (Z.ltb_ge _ _)) by lia. by rewrite N2Z.id. Qed.

Lemma print_flow_eq f F o : flow_reads true f F -> print_flow F (o, false) = ((o ++ flow_text f, false), Ok tt).
Proof.
  intros [Hid Ht Htx Hrx Hd Hl]. unfold print_flow, gbind, mlift. rewrite Ht. cbn [or_raise tuple_of protocol].
  assert (proto_name (if tcp f then 6 else 17)%Z = Ok (if tcp f then $"TCP" else $"UDP")) as -> by by destruct (tcp f).
  rewrite print_eq.
  rewrite (print_value_eq _ _ _ _ _ _ _ (fun q r H => show_fixed_proper 2 _ _ H) Htx).
  rewrite (print_value_eq _ _ _ _ _ _ _ (fun q r H => show_fixed_proper 2 _ _ H) Hrx).
  rewrite (print_value_eq _ _ _ _ _ _ _ (fun x q H => show_num_eq _ _ H) Hd).
  rewrite (print_value_eq _ _ _ _ _ _ _ (fun x q H => show_num_eq _ _ H) Hl).
  f_equal. f_equal. unfold flow_text. change $"TX bitrate: " with ($"TX bitrate" ++ $": "). change $"RX bitrate: " with ($"RX bitrate" ++ $": ").
  change $"Mean Delay: " with ($"Mean Delay" ++ $": "). change $"Packet Loss Ratio: " with ($"Packet Loss Ratio" ++ $": ").
  unfold tuple_of, str_or_None. cbn [sourceAddress destinationAddress sourcePort destinationPort].
  rewrite Hid, !show_Z_N. cbn [fmap list_fmap mjoin list_join]. by rewrite app_nil_r, <- !app_assoc.
Qed.

(** ** The flows of a report *)

Lemma attr_Some k el s : get_attrib k el = Some s -> attr k el = Ok s.
Proof. intros E. unfold attr. by rewrite E. Qed.

Lemma int_attr_show k el n : get_attrib k el = Some (show_N n) -> int_attr k el = Ok (Z.of_N n).
Proof. intros E. unfold int_attr. rewrite (attr_Some _ _ _ E). apply py2_int_show. Qed.

Lemma long_attr_show k el n : get_attrib k el = Some (show_N n) -> long_attr k el = Ok (Z.of_N n).
Proof. intros E. unfold long_attr. rewrite (attr_Some _ _ _ E). apply py2_long_show. Qed.

Lemma float_attr_show k el n : get_attrib k el = Some (show_N n) -> exists x, float_attr k el = Ok x /\ num_eq x (QN n).
Proof. intros E. unfold float_attr. rewrite (attr_Some _ _ _ E). apply py_float_show. Qed.

Lemma cut_doc_time t : cut (doc_time t) = "+"%char :: show_N t.
Proof. unfold doc_time. rewrite app_assoc. by apply cut_app. Qed.

Lemma time_attr_doc k el t : get_attrib k el = Some (doc_time t) -> time_attr k el = Ok (Z.of_N t).
Proof. intros E. unfold time_attr. rewrite (attr_Some _ _ _ E). cbn [rbind]. rewrite cut_doc_time. apply py2_long_plus. Qed.

Lemma QN_pos n : n <> 0%N -> (0 < QN n)%Q.
Proof. intros Hn. unfold QN. change 0%Q with (inject_Z 0). rewrite <- Zlt_Qlt. lia. Qed.

Lemma QN_mul a b : (QN (a * b) == QN a * QN b)%Q.
Proof. unfold QN. by rewrite N2Z.inj_mul, inject_Z_mult. Qed.

Lemma QN_add a b : (QN (a + b) == QN a + QN b)%Q.
Proof. unfold QN. by rewrite N2Z.inj_add, inject_Z_plus. Qed.

Lemma num_div_eq x y p q : num_eq x p -> num_eq y q -> ~ (q == 0)%Q -> exists z, num_div x y = Ok z /\ num_eq z (p / q)%Q.
Proof.
  destruct x as [a| |], y as [b| |]; try done. cbn [num_eq num_div]. intros Ha Hb Hq.
  assert (Qeq_bool b 0 = false) as -> by (apply not_true_iff_false; by rewrite Qeq_bool_iff, Hb).
  eexists. split; [done|]. cbn [num_eq]. by rewrite Ha, Hb.
Qed.

Lemma num_add_eq x y p q : num_eq x p -> num_eq y q -> num_eq (num_add x y) (p + q)%Q.
Proof. destruct x, y; try done. cbn. by intros -> ->. Qed.

Lemma num_scale_eq x p k : num_eq x p -> num_eq (num_scale x k) (p * k)%Q.
Proof. destruct x; try done. cbn. by intros ->. Qed.

Lemma num_eq_proper x p q : (p == q)%Q -> num_eq x p -> num_eq x q.
Proof. destruct x; [|done..]. cbn. by intros ->. Qed.

Lemma bitrate_show k el b last first : get_attrib k el = Some (show_N b) ->
  exists r, bitrate k el (duration (Z.of_N last) (Z.of_N first)) = Ok r /\
    option_Forall2 (fun q r => q * (1 # 1000) == r)%Q r (kbits b first last).
Proof.
  intros E. unfold bitrate, duration, kbits.
  destruct (N.ltb_spec first last) as [Hlt|Hge].
  - assert (0 < QN (last - first))%Q as Hp by (apply QN_pos; lia).
    assert (inject_Z (Z.of_N last - Z.of_N first) == QN (last - first))%Q as Eq by (unfold QN; by rewrite N2Z.inj_sub by lia).
    destruct (Qle_bool _ _) eqn:El; [rewrite Qle_bool_iff, Eq in El; lra|].
    rewrite (long_attr_show _ _ _ E). eexists. split; [done|]. constructor.
    rewrite Eq, inject_Z_mult, !QN_mul. change (inject_Z (Z.of_N b)) with (QN b).
    change (QN 8) with 8%Q. change (QN 1000000) with 1000000%Q. change (inject_Z 8) with 8%Q. field. lra.
  - rewrite (proj2 (Qle_bool_iff _ _)); [by eexists; split; [|constructor]|].
    assert (inject_Z (Z.of_N last - Z.of_N first) <= 0)%Q by (change 0%Q with (inject_Z 0); rewrite <- Zle_Qle; lia). lra.
Qed.

Lemma Flow_init_doc f : exists F, Flow_init (flow_elem doc_time f) = Ok F /\ flow_reads false f F.
Proof.
  set (el := flow_elem doc_time f). unfold Flow_init.
  rewrite (int_attr_show $"flowId" el (fs_id f)), (long_attr_show $"rxPackets" el (rx_packets f)),
    (long_attr_show $"txPackets" el (tx_packets f)), (time_attr_doc $"timeLastTxPacket" el (last_tx f)),
    (time_attr_doc $"timeFirstTxPacket" el (first_tx f)), (time_attr_doc $"timeLastRxPacket" el (last_rx f)),
    (time_attr_doc $"timeFirstRxPacket" el (first_rx f)) by done. cbn [rbind].
  destruct (bitrate_show $"rxBytes" el (rx_bytes f) (last_rx f) (first_rx f)) as (rx & Erx & Hrx); [done|].
  destruct (bitrate_show $"txBytes" el (tx_bytes f) (last_tx f) (first_tx f)) as (tx & Etx & Htx); [done|].
  destruct (float_attr_show $"lostPackets" el (lost_packets f)) as (l & El & Hl); [done|].
  assert (find $"flowInterruptionsHistogram" el = None) as Eh by done.
  destruct (decide (Z.of_N (rx_packets f) = 0%Z)) as [Hz|Hz]; cbn [rbind].
  - rewrite Erx, Etx, El, Eh. cbn [rbind]. eexists. split; [done|].
    assert ((rx_packets f =? 0)%N = true) as E0 by (apply N.eqb_eq; lia).
    split; try done; unfold mean_delay, loss; cbn [delayMean packetLossRatio]; rewrite E0; constructor.
  - assert (rx_packets f <> 0)%N as Hn by lia. assert ((rx_packets f =? 0)%N = false) as E0 by by apply N.eqb_neq.
    pose proof (QN_pos _ Hn) as Hpos. assert (num_eq (num_of_Z (Z.of_N (rx_packets f))) (QN (rx_packets f))) as Hrp by done.
    destruct (float_attr_show $"timesForwarded" el (forwarded f)) as (w & Ew & Hw); [done|].
    destruct (num_div_eq _ _ _ _ Hw Hrp) as (h & Eh2 & _); [lra|].
    destruct (py_float_plus (delay_sum f)) as (d & Ed & Hd). destruct (num_div_eq _ _ _ _ Hd Hrp) as (m & Em & Hm); [lra|].
    destruct (float_attr_show $"rxBytes" el (rx_bytes f)) as (b & Eb & Hb); [done|].
    destruct (num_div_eq _ _ _ _ Hb Hrp) as (s & Es & _); [lra|].
    assert (0 <= QN (lost_packets f))%Q as Hlp by (unfold QN; change 0%Q with (inject_Z 0); rewrite <- Zle_Qle; lia).
    destruct (num_div_eq _ _ _ _ Hl (num_add_eq _ _ _ _ Hrp Hl)) as (o & Eo & Ho); [lra|].
    rewrite Ew. cbn [rbind]. rewrite Eh2, (attr_Some $"delaySum" el (doc_time (delay_sum f))) by done. cbn [rbind].
    rewrite cut_doc_time, Ed. cbn [rbind].
    rewrite Em, Eb. cbn [rbind]. rewrite Es. cbn [rbind]. rewrite Erx, Etx, El. cbn [rbind]. rewrite Eo, Eh. cbn [rbind].
    eexists. split; [done|]. split; try done; unfold mean_delay, loss; cbn [delayMean packetLossRatio]; rewrite E0; constructor.
    + eapply num_eq_proper; [|by apply num_scale_eq, num_scale_eq].
      rewrite QN_mul. change (QN 1000000) with 1000000%Q. change (inject_Z (Z.of_N (delay_sum f))) with (QN (delay_sum f)). field. lra.
    + eapply num_eq_proper; [|by apply num_scale_eq]. rewrite QN_mul, QN_add. change (QN 100) with 100%Q. field. lra.
Qed.

Lemma for_each_fmap {E S A B} (f : S -> B -> result E S) (g : A -> B) l s :
  for_each f (g <$> l) s = for_each (fun s x => f s (g x)) l s.
Proof. revert s. induction l as [|x l IH]; intros s; [done|]. cbn. by destruct (f s (g x)); cbn. Qed.

(** Every flow is found in the dictionary at its place in the list. *)
Definition known (fs : list flow_stats) (m : gmap Z nat) : Prop :=
  forall i f, fs !! i = Some f -> m !! Z.of_N (fs_id f) = Some i.

Lemma add_flows fs : NoDup (fs_id <$> fs) ->
  exists st, for_each add_flow (flow_elem doc_time <$> fs) ([], ∅) = Ok st /\
    Forall2 (flow_reads false) fs st.1 /\ known fs st.2.
Proof.
  intros Hnd. rewrite for_each_fmap.
  apply (for_each_total _ (fun l1 st => Forall2 (flow_reads false) l1 st.1 /\ known l1 st.2)); [by split; [constructor|]|].
  intros l1 f l2 [Fs m] E [HF Hk]. cbn [fst snd] in *. destruct (Flow_init_doc f) as (F & EF & Hf).
  unfold add_flow. rewrite EF. cbn [rbind fst snd]. eexists. split; [done|]. split; [by apply Forall2_app; [|constructor]|].
  cbn [snd]. rewrite (fr_id _ _ _ Hf), <- (Forall2_length _ _ _ HF). intros i g [Hi|[Hi ->]]%lookup_snoc_Some.
  - destruct Hi as [Hlt Hi]. rewrite lookup_insert_ne; [by apply Hk|]. intros Heq%N2Z.inj. rewrite E, fmap_app in Hnd.
    apply NoDup_app in Hnd as (_ & Hd & _). apply (Hd (fs_id g)); [apply list_elem_of_fmap; exists g; eauto using list_elem_of_lookup_2|].
    rewrite <- Heq. by left.
  - by rewrite lookup_insert_eq, Hi.
Qed.

Lemma set_tuple_reads f F : flow_reads false f F -> flow_reads true f (set_fiveTuple (tuple_of f) F).
Proof. intros [Hid Ht Htx Hrx Hd Hl]. by split. Qed.

Lemma add_tuple_doc f m Fs i : m !! Z.of_N (fs_id f) = Some i ->
  add_tuple (Fs, m) (tuple_elem f) = Ok (alter (set_fiveTuple (tuple_of f)) i Fs, m).
Proof.
  intros Hi. set (el := tuple_elem f). unfold add_tuple, FiveTuple_init.
  rewrite (int_attr_show $"flowId" el (fs_id f)), (int_attr_show $"sourcePort" el (source_port f)),
    (int_attr_show $"destinationPort" el (destination_port f)) by done. cbn [rbind].
  assert (int_attr $"protocol" el = Ok (if tcp f then 6 else 17)%Z) as ->.
  { destruct (tcp f) eqn:E; [apply (int_attr_show _ _ 6)|apply (int_attr_show _ _ 17)]; unfold el, tuple_elem; by rewrite E. }
  cbn [rbind]. unfold update_flow. cbn [snd fst]. by rewrite Hi.
Qed.

Lemma add_tuples fs st : Forall2 (flow_reads false) fs st.1 -> known fs st.2 ->
  exists Fs, for_each add_tuple (tuple_elem <$> fs) st = Ok (Fs, st.2) /\ Forall2 (flow_reads true) fs Fs.
Proof.
  intros HF Hk. rewrite for_each_fmap.
  destruct (for_each_total (fun s x => add_tuple s (tuple_elem x)) (fun l1 s => s.2 = st.2 /\ exists A B, s.1 = A ++ B /\
    Forall2 (flow_reads true) l1 A /\ forall l2, fs = l1 ++ l2 -> Forall2 (flow_reads false) l2 B) fs st) as ([Fs m] & -> & Em & A & B & E & HA & HB).
  - split; [done|]. exists [], st.1. split; [done|]. split; [constructor|]. intros l2 E. cbn in E. by rewrite <- E.
  - intros l1 f l2 [Fs m] E (Em & A & B & EF & HA & HB). cbn [fst snd] in *. subst m Fs.
    specialize (HB _ E). apply Forall2_cons_inv_l in HB as (F & B' & Hf & HB & ->).
    rewrite (add_tuple_doc f _ _ (length l1)) by (apply Hk; by rewrite E, list_lookup_middle).
    eexists. split; [done|]. split; [done|]. exists (A ++ [set_fiveTuple (tuple_of f) F]), B'. cbn [fst].
    rewrite (Forall2_length _ _ _ HA). rewrite alter_app_r_alt by done. rewrite Nat.sub_diag. cbn.
    split; [by rewrite <- app_assoc|]. split; [apply Forall2_app; [done|]; by constructor; [apply set_tuple_reads|]|].
    intros l3 E3. rewrite E3, <- app_assoc in E. by apply app_inv_head in E as [= ->].
  - cbn [fst snd] in *. subst m Fs. specialize (HB []). rewrite app_nil_r in HB. apply Forall2_nil_inv_l in HB as ->; [|done].
    rewrite app_nil_r. eauto.
Qed.

Lemma add_stats_reads fs probe st c : Forall2 (flow_reads true) fs st.1 -> known fs st.2 -> c.1.1.1 ∈ fs_id <$> fs ->
  exists Fs, add_stats probe st (count_elem doc_time c) = Ok (Fs, st.2) /\ Forall2 (flow_reads true) fs Fs.
Proof.
  destruct st as [Fs m], c as [[[id p] b] d]. cbn [fst snd]. intros HF Hk (f & -> & (i & Hi)%list_elem_of_lookup_1)%list_elem_of_fmap.
  set (el := count_elem doc_time (fs_id f, p, b, d)). unfold add_stats.
  rewrite (int_attr_show $"flowId" el (fs_id f)), (int_attr_show $"packets" el p), (long_attr_show $"bytes" el b) by done. cbn [rbind].
  assert (forall x, exists Fs', update_flow (add_probe_stats x) (Z.of_N (fs_id f)) (Fs, m) = Ok (Fs', m) /\ Forall2 (flow_reads true) fs Fs') as Hup.
  { intros x. unfold update_flow. cbn [snd fst]. rewrite (Hk _ _ Hi). cbn [or_raise rbind]. eexists. split; [done|].
    apply Forall2_alter_r; [done|]. intros g F _ _ [H1 H2 H3 H4 H5 H6]. by split. }
  destruct (Z.ltb_spec 0 (Z.of_N p)) as [Hp|Hp]; [|apply Hup].
  change (get_attrib $"delayFromFirstProbeSum" el) with (Some (doc_time d)). cbn [or_raise rbind]. unfold parse_time_ns.
  assert (endswith (doc_time d) $"ns" = true) as ->.
  { apply endswith_spec. exists ($"+" ++ show_N d ++ $".0"). unfold doc_time. by rewrite <- !app_assoc. }
  rewrite cut_doc_time, py2_long_plus. cbn [rbind].
  destruct (num_div_eq (num_of_Z (Z.of_N d)) (num_of_Z (Z.of_N p)) (QN d) (QN p)) as (x & Ex & _); [done..| |].
  { pose proof (QN_pos p ltac:(lia)). lra. }
  rewrite Ex. cbn [rbind]. apply Hup.
Qed.

Lemma findall_all {A} (g : A -> element) tag t a x l : (forall y, elem_tag (g y) = tag) ->
  findall tag (Elem t a x (g <$> l)) = g <$> l.
Proof.
  intros Hg. unfold findall. cbn [elem_children]. apply list_filter_all, Forall_forall.
  intros e (y & -> & _)%list_elem_of_fmap. apply Hg.
Qed.

Lemma add_probes fs probes st :
  Forall2 (flow_reads true) fs st.1 -> known fs st.2 ->
  (forall p c, p ∈ probes -> c ∈ p.2 -> c.1.1.1 ∈ fs_id <$> fs) ->
  exists Fs, for_each add_probe (probe_elem doc_time <$> probes) st = Ok (Fs, st.2) /\ Forall2 (flow_reads true) fs Fs.
Proof.
  intros HF Hk Hp. rewrite for_each_fmap.
  destruct (for_each_total (fun s x => add_probe s (probe_elem doc_time x))
    (fun _ s => s.2 = st.2 /\ Forall2 (flow_reads true) fs s.1) probes st) as ([Fs m] & -> & Em & HFs); [done| |].
  - intros l1 p l2 [Fs m] E [Em HFs]. cbn [fst snd] in *. subst m. unfold add_probe.
    rewrite (int_attr_show _ _ p.1) by done. cbn [rbind].
    assert (findall $"FlowStats" (probe_elem doc_time p) = count_elem doc_time <$> p.2) as ->.
    { apply findall_all. by intros [[[? ?] ?] ?]. }
    rewrite for_each_fmap.
    destruct (for_each_total (fun s x => add_stats (Z.of_N p.1) s (count_elem doc_time x))
      (fun _ s => s.2 = st.2 /\ Forall2 (flow_reads true) fs s.1) p.2 (Fs, st.2)) as (s & Es & Hs); [done| |by exists s].
    intros k1 c k2 [Gs m] E2 [Em HGs]. cbn [fst snd] in *. subst m.
    destruct (add_stats_reads fs (Z.of_N p.1) (Gs, st.2) c HGs Hk) as (Hs & EHs & HHs); [|by exists (Hs, st.2)].
    apply (Hp p c); [rewrite E|rewrite E2]; set_solver.
  - cbn [fst snd] in *. subst m. by exists Fs.
Qed.

Lemma Simulation_doc fs probes :
  NoDup (fs_id <$> fs) -> (forall p c, p ∈ probes -> c ∈ p.2 -> c.1.1.1 ∈ fs_id <$> fs) ->
  exists Fs, Simulation_init (xml_report doc_time fs probes) = Ok Fs /\ Forall2 (flow_reads true) fs Fs.
Proof.
  intros Hnd Hp. unfold Simulation_init.
  change (findall $"Ipv4FlowClassifier" (xml_report doc_time fs probes)) with [Elem $"Ipv4FlowClassifier" [] None (tuple_elem <$> fs)].
  assert (findall2 $"FlowStats" $"Flow" (xml_report doc_time fs probes) = flow_elem doc_time <$> fs) as ->.
  { unfold findall2. change (findall $"FlowStats" (xml_report doc_time fs probes)) with [Elem $"FlowStats" [] None (flow_elem doc_time <$> fs)].
    cbn [mbind list_bind]. by rewrite app_nil_r, findall_all. }
  assert (findall2 $"FlowProbes" $"FlowProbe" (xml_report doc_time fs probes) = probe_elem doc_time <$> probes) as ->.
  { unfold findall2. change (findall $"FlowProbes" (xml_report doc_time fs probes)) with [Elem $"FlowProbes" [] None (probe_elem doc_time <$> probes)].
    cbn [mbind list_bind]. by rewrite app_nil_r, findall_all. }
  rewrite findall_all by done.
  destruct (add_flows fs Hnd) as (st & -> & HF & Hk). cbn [rbind].
  destruct (add_tuples fs st HF Hk) as (Fs & -> & HFs). cbn [rbind].
  destruct (add_probes fs probes (Fs, st.2) HFs Hk Hp) as (Gs & -> & HGs). by exists Gs.
Qed.

(** ** The events of the file *)

Lemma iterparse_eq tag attrib text children : let e := Elem tag attrib text children in
  iterparse e = StartEvent e :: (children ≫= iterparse) ++ [EndEvent e].
Proof. done. Qed.

(** Within an element nothing is done. *)
Lemma iterparse_inner e level sims o : (0 < level)%Z ->
  mfold on_event (level, sims) (iterparse e) o = (o, Ok (level, sims)).
Proof.
  revert level sims o. induction e as [tag attrib text children IH] using element_ind'. intros level sims o Hl.
  rewrite iterparse_eq. cbn [mfold]. unfold gbind at 1. cbn [on_event mret fst snd]. rewrite mfold_app. unfold gbind at 1.
  assert (mfold on_event (level + 1, sims)%Z (children ≫= iterparse) o = (o, Ok (level + 1, sims)%Z)) as ->.
  { clear -IH Hl. induction IH as [|c l Hc _ IHl]; [done|]. cbn [mbind list_bind]. rewrite mfold_app. unfold gbind.
    rewrite Hc by lia. apply IHl. }
  cbn [mfold]. unfold gbind. cbn [on_event fst snd]. rewrite decide_False by (intros [? _]; lia). unfold mret.
  by rewrite Z.add_simpl_r.
Qed.

(** At the end of the root its flows are read, if it is a report. *)
Lemma iterparse_root e o : mfold on_event (0%Z, []) (iterparse e) o =
  if decide (elem_tag e = $"FlowMonitor") then
    (do! sim := mlift (Simulation_init e) in write $"." >>> mret (0%Z, [sim])) o
  else (o, Ok (0%Z, [])).
Proof.
  destruct e as [tag attrib text children]. rewrite iterparse_eq. cbn [mfold]. unfold gbind at 1. cbn [on_event mret fst snd].
  rewrite mfold_app. unfold gbind at 1.
  assert (mfold on_event (0 + 1, [])%Z (children ≫= iterparse) o = (o, Ok (0 + 1, [])%Z)) as ->.
  { induction children as [|c l IHl]; [done|]. cbn [mbind list_bind]. rewrite mfold_app. unfold gbind. by rewrite iterparse_inner. }
  cbn [mfold on_event fst snd elem_tag]. destruct (decide (tag = $"FlowMonitor")) as [Ht|Ht].
  - rewrite decide_True by done. unfold gbind. by destruct (mlift _ o) as [? [?|?]].
  - rewrite decide_False by tauto. done.
Qed.

Lemma print_flows fs Fs o : Forall2 (flow_reads true) fs Fs ->
  mfor print_flow Fs (o, false) = ((o ++ (fs ≫= flow_text), false), Ok tt).
Proof.
  intros H. revert o. induction H as [|f F fs Fs Hf _ IH]; intros o; [by rewrite app_nil_r|].
  cbn [mfor mbind list_bind]. unfold gbind. rewrite (print_flow_eq f F o Hf), IH. by rewrite <- app_assoc.
Qed.

Definition banner : pystr := $"Reading XML file ".

Lemma main_reads e r : elem_tag e = $"FlowMonitor" -> Simulation_init e = r ->
  main (iterparse e) (Ok tt) ([], false) =
  match r with
  | Ok Fs => mfor (mfor print_flow) [Fs] (banner ++ $". done." ++ [NL], false)
  | Err x => ((banner, true), Err x)
  end.
Proof.
  intros Ht E. unfold main. unfold gbind at 1. change (print_item $"Reading XML file " ([], false)) with ((banner, true), @Ok exn () tt).
  cbv iota. unfold gbind at 1. rewrite iterparse_root, decide_True by done. unfold gbind at 1. unfold mlift at 1. rewrite E.
  by destruct r.
Qed.

(** C35 - For a report in the format of the documentation the script prints the flows in their
    order: the rates of the bytes sent and received over the time between the first and the
    last packet, the mean delay, and the part of the packets lost; what has no value is [None]. *)
Theorem flowmon_main_spec fs probes :
  NoDup (fs_id <$> fs) -> (forall p c, p ∈ probes -> c ∈ p.2 -> c.1.1.1 ∈ fs_id <$> fs) ->
  main (iterparse (xml_report doc_time fs probes)) (Ok tt) ([], false) =
  (($"Reading XML file . done." ++ [NL] ++ (fs ≫= flow_text), false), Ok tt).
Proof.
  intros Hnd Hp. destruct (Simulation_doc fs probes Hnd Hp) as (Fs & E & HFs).
  rewrite (main_reads _ (Ok Fs)) by done. cbn [mfor]. unfold gbind. by rewrite (print_flows fs Fs _ HFs), <- app_assoc.
Qed.

(** ** The format of this version

    [operator <<] of [Time] writes the number of nanoseconds as C++ does by default, with
    six digits and a sign, and the unit. *)
Definition show_time (t : N) : pystr := $"+" ++ show_general 6 (QN t) ++ $"ns".

(** The value of digits. *)
Definition digits_value (s : pystr) (n : N) : N := foldl (fun n c => 10 * n + (N_of_ascii c - 48))%N n s.

Lemma digits_value_acc d acc : N.pos (Pos.of_uint_acc d acc) = digits_value (show_uint d) (N.pos acc).
Proof.
  revert acc. induction d as [|d IH|d IH|d IH|d IH|d IH|d IH|d IH|d IH|d IH|d IH]; intros acc; [done|..];
    cbn [Pos.of_uint_acc show_uint]; rewrite IH; (unfold digits_value; cbn [foldl]; f_equal; cbn [N_of_ascii N_of_digits]; lia).
Qed.

Lemma digits_value_show d : N.of_uint d = digits_value (show_uint d) 0.
Proof.
  induction d as [|d IH|d IH|d IH|d IH|d IH|d IH|d IH|d IH|d IH|d IH]; [done|exact IH|..];
    unfold N.of_uint; cbn [Pos.of_uint]; by rewrite digits_value_acc.
Qed.

Lemma uint_of_digits s : Forall (fun c => is_digit c = true) s -> exists d, uint_of_str s = Some d /\ show_uint d = s.
Proof.
  induction 1 as [|c s Hc _ (d & Ed & Es)]; [by exists Decimal.Nil|]. cbn [uint_of_str]. rewrite Ed.
  destruct c as [[] [] [] [] [] [] [] []]; try discriminate Hc; (eexists; split; [done|]; cbn; by rewrite Es).
Qed.

Lemma int_of_digits_value s : Forall (fun c => is_digit c = true) s -> s <> [] -> int_of_digits s = Ok (digits_value s 0).
Proof.
  intros Hs Hne. destruct (uint_of_digits s Hs) as (d & Ed & Es). unfold int_of_digits. destruct s as [|c s]; [done|].
  rewrite Ed. cbn [or_raise rbind]. by rewrite digits_value_show, Es.
Qed.

Lemma digit_value c : is_digit c = true -> (N_of_ascii c - 48 < 10)%N.
Proof. by destruct c as [[] [] [] [] [] [] [] []]. Qed.

(** A number has three digits or more when it is 100 or more; the others are its hundredth part. *)
Lemma show_N_hundreds t : (t < 100)%N /\ (length (show_N t) = 1 \/ length (show_N t) = 2)%nat \/
  (100 <= t)%N /\ exists a x y, show_N t = a ++ [x; y] /\ a <> [] /\ Forall (fun c => is_digit c = true) a /\
    digits_value a 0 = (t / 100)%N.
Proof.
  pose proof (show_N_digits t) as Hd. pose proof (int_of_show_N t) as Hv.
  rewrite int_of_digits_value in Hv by (apply Hd || apply show_N_nonempty). injection Hv as Hv.
  destruct (decide (t = 0%N)) as [->|Hz]; [left; by split; [|left]|].
  destruct (digits_bounds (Z.of_N t)) as [H1 H2]; [lia|]. unfold digits in H1, H2. rewrite N2Z.id in H1, H2.
  destruct (show_N t) as [|z l _] eqn:Es using rev_ind; [by apply show_N_nonempty in Es|].
  destruct l as [|y l _] using rev_ind; [left; split; [cbn in H2; lia|by left]|].
  destruct (decide (l = [])) as [->|Hl]; [left; split; [cbn in H2; lia|by right]|].
  right. split; [|].
  - rewrite !length_app in H1. cbn in H1. destruct l; [done|]. cbn [length] in H1.
    pose proof (Z.pow_le_mono_r 10 2 (Z.of_nat (S (length l) + 1 + 1) - 1)). lia.
  - exists l, y, z. rewrite <- app_assoc. split; [done|]. split; [done|].
    apply Forall_app in Hd as [[Hd Hy%Forall_inv]%Forall_app Hc%Forall_inv]. split; [done|].
    unfold digits_value in *. rewrite !foldl_snoc in Hv. rewrite <- Hv.
    pose proof (digit_value y Hy). pose proof (digit_value z Hc).
    apply (N.div_unique _ _ _ (10 * (N_of_ascii y - 48) + (N_of_ascii z - 48))); lia.
Qed.

Lemma span_last f u c : f c = false -> exists r, snd (span f (u ++ [c])) = r ++ [c].
Proof.
  intros Hc. induction u as [|a u [r IH]]; cbn; [rewrite Hc; by exists []|].
  destruct (f a); [|by exists (a :: u)]. destruct (span f (u ++ [c])). by exists r.
Qed.

(** A number does not end in a sign. *)
Lemma py2_long_sign u : py2_long ("+"%char :: u ++ ["+"%char]) = Err ValueError.
Proof.
  unfold py2_long. assert (c_strip ("+"%char :: u ++ ["+"%char]) = "+"%char :: u ++ ["+"%char]) as ->.
  { unfold c_strip. cbn [span]. change (c_space "+") with false. cbn [snd]. rewrite app_comm_cons, reverse_snoc. cbn [span].
    change (c_space "+") with false. cbn [snd]. by rewrite <- reverse_snoc, reverse_involutive. }
  cbn [read_sign]. destruct (span_last c_space u "+") as [r ->]; [done|].
  destruct (span_last is_digit r "+") as [r' Er]; [done|]. destruct (span is_digit (r ++ ["+"%char])) as [ds rest]. cbn in Er. subst rest.
  destruct r' as [|a [|b r']]; [done| |by destruct a as [[] [] [] [] [] [] [] []]]. by destruct a as [[] [] [] [] [] [] [] []].
Qed.

(** Of a time that is written so, the script reads the number without its last two digits
    when it has three to six, and raises otherwise. *)
Lemma time_of_this_version k el t : (t < 2 ^ 63)%N -> get_attrib k el = Some (show_time t) ->
  time_attr k el = if ((100 <=? t) && (t <? 1000000))%N then Ok (Z.of_N (t / 100)) else Err ValueError.
Proof.
  intros Ht E. unfold time_attr. rewrite (attr_Some _ _ _ E). cbn [rbind]. unfold show_time, QN.
  destruct (N.ltb_spec t 1000000) as [Hs|Hl]; [rewrite andb_true_r|rewrite andb_false_r].
  - rewrite show_general_Z by lia. rewrite N2Z.id. destruct (show_N_hundreds t) as [[Hlt Hlen]|[Hge (a & x & y & Ea & Hne & Ha & Hv)]].
    + rewrite (proj2 (N.leb_gt _ _)) by done. destruct (show_N t) as [|x [|y [|]]]; try (cbn in Hlen; lia); done.
    + rewrite (proj2 (N.leb_le _ _)) by done. rewrite Ea.
      change ($"+" ++ (a ++ [x; y]) ++ $"ns") with ("+"%char :: (a ++ [x; y]) ++ $"ns").
      rewrite <- app_assoc, app_comm_cons, cut_app by done. unfold py2_long.
      assert (plain a) as Hp by (eapply Forall_impl; [exact Ha|]; intros c; apply digit_plain).
      rewrite c_strip_plain by by constructor. cbn [read_sign]. rewrite span_plain by done. cbn [snd].
      assert (span is_digit a = (a, [])) as -> by (rewrite <- (app_nil_r a) at 1; by apply span_app).
      by rewrite int_of_digits_value, Hv.
  - destruct (show_general_large 6 (Z.of_N t)) as (s & e & -> & He); [lia..|].
    assert (digits (Z.of_N t) <= 19)%Z as Hd.
    { destruct (digits_bounds (Z.of_N t)) as [H1 _]; [lia|]. apply Z.nlt_ge. intros Hlt.
      pose proof (Z.pow_le_mono_r 10 19 (digits (Z.of_N t) - 1)). lia. }
    assert (length (pad 2 (show_N (Z.to_N e))) = 2) as Hlen.
    { assert (e ∈ seqZ 6 14) as Hin by (apply elem_of_seqZ; lia). clear He. revert e Hin. apply Forall_forall. by repeat constructor. }
    replace ($"+" ++ (s ++ $"e+" ++ pad 2 (show_N (Z.to_N e))) ++ $"ns")
      with (("+"%char :: (s ++ $"e") ++ ["+"%char]) ++ pad 2 (show_N (Z.to_N e)) ++ $"ns").
    2: { change $"e+" with ($"e" ++ $"+"). cbn [app]. by rewrite <- !app_assoc. }
    rewrite cut_app by (rewrite length_app, Hlen; done). apply py2_long_sign.
Qed.

(** A simulation whose first flow ends after a millisecond (or within 100 ns) has a report that the script
    does not read: nothing is printed but the first line. *)
Theorem this_version_raises f fs probes :
  (last_tx f < 2 ^ 63)%N -> ~ (100 <= last_tx f < 1000000)%N ->
  main (iterparse (xml_report show_time (f :: fs) probes)) (Ok tt) ([], false) = ((banner, true), Err ValueError).
Proof.
  intros Ht Hout. rewrite (main_reads _ (Err ValueError)); [done..|]. unfold Simulation_init.
  change (findall $"Ipv4FlowClassifier" (xml_report show_time (f :: fs) probes)) with [Elem $"Ipv4FlowClassifier" [] None (tuple_elem <$> f :: fs)].
  change (findall2 $"FlowStats" $"Flow" (xml_report show_time (f :: fs) probes)) with
    (findall $"Flow" (Elem $"FlowStats" [] None (flow_elem show_time <$> f :: fs)) ++ []).
  rewrite app_nil_r, findall_all by done. cbn [fmap list_fmap for_each]. unfold add_flow at 1, Flow_init.
  set (el := flow_elem show_time f).
  rewrite (int_attr_show $"flowId" el (fs_id f)), (long_attr_show $"rxPackets" el (rx_packets f)),
    (long_attr_show $"txPackets" el (tx_packets f)), (time_of_this_version $"timeLastTxPacket" el (last_tx f)) by done.
  destruct (N.leb_spec 100 (last_tx f)), (N.ltb_spec (last_tx f) 1000000); done || lia.
Qed.

(** ** The example of the documentation *)

Definition doc_flow : flow_stats :=
  {| fs_id := 1; first_tx := 0; last_tx := 2235764408; first_rx := 20067198; last_rx := 2255831606; delay_sum := 138731526300;
     jitter_sum := 1849692150; last_delay := 20067198; tx_bytes := 2149400; rx_bytes := 2149400; tx_packets := 3735;
     rx_packets := 3735; lost_packets := 0; forwarded := 7466; tcp := true; source := $"10.1.3.1"; destination := $"10.1.2.2";
     source_port := 49153; destination_port := 50000 |}.

Definition doc_probes : list (N * list probe_count) :=
  [(0, [(1, 3735, 2149400, 0)]); (2, [(1, 7466, 2224020, 199415389258)]); (4, [(1, 3735, 2149400, 138731526300)])]%N.

Example doc_flow_text : flow_text doc_flow =
  $"FlowID: 1 (TCP 10.1.3.1/49153 --> 10.1.2.2/50000)" ++ [NL] ++
  TAB ++ $"TX bitrate: 7690.97 kbit/s" ++ [NL] ++ TAB ++ $"RX bitrate: 7690.97 kbit/s" ++ [NL] ++
  TAB ++ $"Mean Delay: 37.14 ms" ++ [NL] ++ TAB ++ $"Packet Loss Ratio: 0.00 %" ++ [NL].
Proof. vm_compute. reflexivity. Qed.

Example this_version_time : show_time 2235764408 = $"+2.23576e+09ns" /\ show_time 20067 = $"+20067ns".
Proof. by vm_compute. Qed.

Lemma flowmon_main_spec_witness :
  main (iterparse (xml_report doc_time [doc_flow] doc_probes)) (Ok tt) ([], false) =
  (($"Reading XML file . done." ++ [NL] ++ ([doc_flow] ≫= flow_text), false), Ok tt).
Proof.
  apply flowmon_main_spec; [apply NoDup_singleton|].
  intros p c Hp Hc. unfold doc_probes in Hp.
  repeat (apply list.elem_of_cons in Hp as [->|Hp]; [apply list_elem_of_singleton in Hc as ->; left|]). by apply not_elem_of_nil in Hp.
Defined.

Lemma this_version_raises_witness :
  main (iterparse (xml_report show_time [doc_flow] doc_probes)) (Ok tt) ([], false) = ((banner, true), Err ValueError).
Proof. apply this_version_raises; [done|]. intros [_ H]. vm_compute in H. discriminate H. Defined.
